(* ===== verification/_CoqProject ===== *)
-Q . S2P
Prelude.v
PageInfo.v
FrameAllocator.v
BuddyInvariant.v
FrameAllocatorSpec.v
FrameRefs.v
OrdMap.v
Rmm.v
Grants.v
GrantsSpec.v
CpuSet.v
AddrSpace.v
PageFault.v
AddrSpaceSpec.v
PageFaultSpec.v
FdTbl.v
FdTblSpec.v
UserCopy.v
Sync.v
SyncSpec.v
Pipe.v
PipeSpec.v
PipeLts.v
Mprotect.v
BootMemory.v
BootMemorySpec.v
FrameInit.v
FrameInitSpec.v
Scheduler.v
SchedulerSpec.v
Futex.v
FutexSpec.v
Event.v
EventSpec.v
Schemes.v
SchemesSpec.v
Files.v
UserScheme.v
UserCalls.v
UserSchemeSpec.v
UserSchemeLts.v
RootScheme.v
RootSchemeSpec.v
FileOps.v
FileOpsSpec.v
Timeouts.v
TimeoutsSpec.v
Capture.v
CaptureSpec.v
UserMethods.v
UserMethodsSpec.v
Fmap.v
FmapSpec.v
OrderedLocks.v
OrderedLocksSpec.v
MemoryScheme.v
MemorySchemeSpec.v
Registers.v
ProcScheme.v
ProcSchemeSpec.v
Acpi.v
AcpiSpec.v
VfsCache.v
VfsCacheSpec.v
IrqChips.v
IrqChipsSpec.v
IrqScheme.v
IrqSpec.v
