(* ===== verification/Prelude.v ===== *)
(** * A verification development of the Redox kernel

    The kernel (src/src) manages physical memory, address spaces, contexts and
    file descriptors, and offers services to user programs through schemes.
    This development models its memory manager from the boot loader's memory
    map up to page faults; the scheduler with blocking, futexes, events and
    time; the path of a system call on a file from the descriptor table over the
    scheme list to the schemes that answer it: pipes in the kernel, and the
    protocol with schemes in user space, with the memory that is lent to them;
    the schemes through which a process manager controls contexts and drivers get
    memory and interrupts; and the order in which the kernel takes its locks.

    ** Parts of the program and files of the development

    - src/startup/memory.rs: BootMemory.v ([register], [add_memory], [init] up
      to the list of areas), BootMemorySpec.v.
    - src/memory/mod.rs, the frame allocator: PageInfo.v ([PageInfo], [RefCount],
      [P2Frame] and their bit packings, [add_ref], [remove_ref]),
      FrameAllocator.v (sections, free lists, [allocate_p2frame],
      [deallocate_p2frame], [init_frame]), BuddyInvariant.v and
      FrameAllocatorSpec.v (invariant and theorems), FrameRefs.v (a ledger of
      references on top of the allocator), FrameInit.v ([init_sections],
      [init_mm]) and FrameInitSpec.v.
    - the rmm crate (a submodule that is not part of the source): Rmm.v states
      page flags, mapping flags and page tables as type classes with laws; its
      module [SimpleFlags] and its page-table instance show the laws can hold.
      Theorems about address spaces are proved against the classes.
    - the ordered maps of Rust's standard library: OrdMap.v.
    - src/context/memory.rs: Grants.v ([PageSpan], [GrantInfo], [Grant::extract],
      [UserGrants]), GrantsSpec.v; AddrSpace.v (the store of address spaces, the
      [Flusher] with its queue, the constructors of [Grant], [mmap], [munmap],
      [mprotect], [move], [try_clone]), AddrSpaceSpec.v, Mprotect.v;
      PageFault.v ([correct_inner], [page_fault_handler]), PageFaultSpec.v.
    - src/cpu_set.rs: CpuSet.v.
    - src/context/context.rs: FdTbl.v and FdTblSpec.v ([FdTbl]); Sync.v (the
      scheduling state of a context).
    - src/syscall/usercopy.rs: UserCopy.v ([UserSlice], [validate_region]).
    - src/sync/wait_condition.rs, src/sync/wait_queue.rs: Sync.v, SyncSpec.v.
    - src/sync/ordered.rs: OrderedLocks.v (levels and tokens as a checker on
      programs, locks as a machine of threads), OrderedLocksSpec.v.
    - src/scheme/pipe.rs: Pipe.v (the operations), PipeSpec.v (one round of a
      read or a write), PipeLts.v (all interleavings).
    - src/context/switch.rs, src/context/mod.rs, src/cpu_stats.rs: Scheduler.v
      ([switch], [update_runnable], [init], [spawn], the end of a context),
      SchedulerSpec.v (also the machine of several CPUs as a step relation).
    - src/syscall/futex.rs: Futex.v, FutexSpec.v (with all interleavings).
    - src/event.rs, src/scheme/event.rs: Event.v, EventSpec.v.
    - src/time.rs, src/syscall/time.rs, src/context/timeout.rs,
      src/scheme/time.rs: Timeouts.v, TimeoutsSpec.v.
    - src/scheme/mod.rs: Schemes.v ([SchemeList]), SchemesSpec.v.
    - src/context/file.rs: Files.v (descriptions, shared through counted
      references, and their closing).
    - src/syscall/fs.rs: FileOps.v (the system calls, over the type class
      [KernelScheme] of what a scheme offers), FileOpsSpec.v.
    - src/vfs_cache.rs: VfsCache.v, VfsCacheSpec.v.
    - src/scheme/root.rs: RootScheme.v, RootSchemeSpec.v.
    - src/scheme/user.rs: UserScheme.v (the table of requests, calls, responses,
      the socket), UserCalls.v (requests and how responses are read),
      UserSchemeSpec.v and UserSchemeLts.v (all interleavings of callers and
      scheme); Capture.v (how buffers reach the scheme, with the caller's kernel
      frames of src/context/context.rs) and CaptureSpec.v; UserMethods.v (the
      operations of [impl KernelScheme for UserScheme], from capture to release)
      and UserMethodsSpec.v; Fmap.v (mappings of files: [fmap_inner], and
      [Grant::borrow_fmap] of src/context/memory.rs) and FmapSpec.v.
    - src/scheme/memory.rs: MemoryScheme.v, MemorySchemeSpec.v.
    - src/arch/x86_64/interrupt/handler.rs, src/context/arch/x86_64.rs:
      Registers.v (the saved registers of a context).
    - src/scheme/proc.rs, with the parts of src/context/context.rs and
      src/context/mod.rs it uses: ProcScheme.v, ProcSchemeSpec.v.
    - src/acpi/{sdt,rsdp,rsdt,xsdt,mod}.rs, src/acpi/madt/mod.rs: Acpi.v,
      AcpiSpec.v.
    - src/arch/x86_shared/device/{pic,ioapic}.rs,
      src/arch/x86_shared/interrupt/irq.rs, src/arch/x86_shared/idt.rs:
      IrqChips.v (controllers, routing, reservations of vectors),
      IrqChipsSpec.v.
    - src/scheme/irq.rs: IrqScheme.v (with the interrupt handlers that feed it),
      IrqSpec.v (all interleavings of interrupts and drivers).

    Every file [XSpec.v] holds the properties of the definitions in [X.v].  The
    components call each other as in the kernel: page faults and address spaces
    run the frame allocator's operations on the same [Memory]; pipes, futexes,
    events and user schemes run the operations of Sync.v on the contexts;
    captures run [mmap], [Grant::borrow] and [munmap] of AddrSpace.v; the
    operations of UserMethods.v run both the table of UserScheme.v and the
    captures, which is the instance [kernel_spaces] of the interface [SpaceApi]
    that UserScheme.v is written against; the process scheme runs the operations
    of address spaces, descriptor tables, contexts and registers; the irq scheme
    those of the controllers and of the events, and the controllers are set up
    from the entries that Acpi.v reads.

    ** How code becomes definitions

    A function of the kernel is a Rocq function in the state monad [M] below:
    it takes the state it changes, and finishes ([Done]) or panics ([Panic]).
    [Result] is the type [result].  A [usize] is a [Z] with its wrap-around,
    saturation or overflow check written out where the source can reach it.
    [debug_assert!] is part of the definitions; a flag [dbg] says whether it is
    compiled in, and theorems hold for both values unless they fix it.  A
    shared object ([Arc]) is a key into a store, with its strong count where the
    code depends on it.  A function that gives up the CPU is split there
    ([call_begin] and [call_resume], [nanosleep_begin] and [nanosleep_end]); where
    it only releases a lock and takes it again, what the rest of the system does
    in between is an argument ([others] of [try_stop_context]).  The locks
    themselves are the subject of OrderedLocks.v.  Elsewhere a function is one step
    where its locks make it one; the theorems on interleavings are about transition
    systems whose steps are the critical sections of the code: the parts of a
    round and the queue lock of a pipe (PipeLts.v), the steps of a call before its
    caller gives up the CPU ([call_steps], UserSchemeLts.v), those of interrupt
    handlers, readings and acknowledgements ([run_op], IrqSpec.v), the turns of a walk
    over the timeouts ([timeouts_check], TimeoutsSpec.v).  The rest of the kernel is
    a step that changes contexts and events at will.  Since [try_stop_context] can
    put a context back to sleep that was woken while it was stopped, the systems
    mark such a context ([put_back] of SyncSpec.v), and theorems that say that no
    one sleeps needlessly except it.  Constants and
    layouts of the syscall crate, which is not part of the source, are fields of
    type classes ([FileFlags], [UserParams], [FsParams], [ProcParams],
    [IrqParams]).  Ports and device registers are the type class [IrqHw], with the
    laws of the data sheets in [IrqHwLaws]; the locks of the spin crate are
    [SpinApi].  Where the source differs between architectures, the model is that
    of x86_64.

    ** What the theorems show

    - Frame allocator (C1, C2, C3, C39): allocation and release
      keep the invariant of the free lists (each list is well linked, the blocks
      tile the managed memory), return fresh zeroed aligned blocks and merge
      siblings; the boot code establishes the invariant; the reference count
      implements an abstract counter.
    - Boot (C40): the areas given to the allocator are exactly the
      free pages that nothing reserves.
    - Address spaces (C4, C5): [munmap] and anonymous [mmap] change exactly the
      pages they name, and every frame reference of the page tables, of the
      flusher's queue and of the rest of the system is accounted for, in both
      directions: counts are what the ledger of FrameRefs.v says, and a block in use
      that the kernel did not take for itself ([KernelBlocks]) has a reference.
    - Page faults (C6, C30): copy on write isolates, demand zeroing is fresh, and
      out-of-memory is reported exactly when there is none.
    - Grants (C29, [find_free_correct], [extract_partition]): the tree and the
      hole map stay consistent; insertion, search and [extract] act on the map
      from pages to attributes as their names say.
    - Locks (C9): programs that the checker accepts never take a lock against
      the order of levels, and so never deadlock.
    - Scheduler (C13, C14, C15): round robin with bounded waiting, and no
      context on two CPUs.
    - Futexes (C16, C17), events (C22), timeouts (C34): each operation on every
      branch; that no wake-up is lost between contexts of one address space as long as
      the page keeps its frame; that no timeout is lost, doubled or early.
    - Pipes (C23, C24, C25): in every interleaving bytes are delivered in
      order, no context sleeps while there are bytes or room for it, every round
      completes with the outcome its flags and the queue determine.
    - Schemes (C26, C27, C28): the scheme list is well formed in every
      reachable state, namespaces confine, registration round-trips.
    - User schemes (C11, C12): in every interleaving of callers and
      scheme no answer is lost or goes to another call.
    - Buffers and mappings of user schemes (C8, C10, C31): the scheme sees the
      bytes of the buffer and nothing else of the caller; what it writes arrives;
      a mapping shows the pages of the scheme, and a private one is not writable
      in place.
    - Processes (C7, C18, C19, C37): only the holder of the authority gets
      power over contexts; what a stopped context means to the scheduler; how
      another context, or the one that runs, changes its address space; registers that are written cannot raise
      privileges.
    - Interrupts (C20, C21, C36): no interrupt is lost between the controllers and
      the drivers, step by step on any number of CPUs; the I/O APICs are programmed
      as the firmware's table says, field by field; the table is read as it was
      written.
    - Files (C32, C33), descriptor tables (C38), the path cache (C35).

    Theorems without a number support these, state further operations
    ([futex_wait_correct], [memory_open_confined], [copy_from_slice_correct],
    [event_write_not_missed], [madt_iter_ends] and others), or show what the code
    does in a case where one would not want it: [eof_wakeup_lost],
    [pipe_stop_loses_wakeup], [user_stop_loses_answer], [irq_unmasked_early],
    [mprotect_merge_panics], [mprotect_zeroed_frame_writable],
    [extract_external_shift], [user_unanswered_call_waits],
    [user_killed_twice_loses_span], [empty_path_leaks_frame],
    [failed_capture_leaks_frame], [path_capture_shows_old_bytes],
    [fmap_loses_reference], [failed_fmap_leaves_pages], [write_arc_deadlock],
    [physical_ignores_space], [set_fx_regs_unmasked], [evicts_newest],
    [last_line_not_found], [madt_zero_entry_loops], the runs of [FutexTraces], of
    [ProcExamples] and of [IrqExamples].

    ** Bounds and fuel

    The merging loop of [deallocate_p2frame] has the number of orders as its
    bound, as the code has.  [correct_inner] recurses at most
    [RECURSION_LEVELS] deep, as the code checks.  Elsewhere fuel is a measure
    that each iteration shortens.  [combine_loop] of BootMemory.v has the distance
    between its two indices, [split_area] and [build_sections] of FrameInit.v the
    pages and the areas left, [wake_loop] of Futex.v the length of the list:
    C40, C3 and C17 show that nothing is left over.  In the
    others running out is a panic, which the theorem named excludes:
    [add_memory] with one more than the number of reservations
    (C40), [munmap_loop] with one more than the number of grants
    (C4), [trigger_loop] of Event.v with the queues to do plus the registrations
    (C22), [skip_used] of Schemes.v with one more than the number of schemes
    (C28), [timeouts_loop] with one more than the number of timeouts (C34).  The
    loop over the MADT does not end for every table: [madt_loop] has its fuel as
    an argument, C36 gives the rounds that are enough for a well-formed table, and
    [madt_iter_ends] says for which tables there are any.

    ** Not modelled

    [map_memory] of src/startup/memory.rs, which builds the boot page tables with
    the rmm crate.  The switch of registers and stacks, interrupt and system call
    entry, which are assembly.  The delivery of signals (src/context/signal.rs),
    which acts on structures of the syscall crate in user memory; ptrace
    (src/ptrace.rs), whose sessions no code opens.  The dispatch of system call
    numbers (src/syscall/mod.rs), and the system calls on files that only pass
    their arguments to a scheme.  The schemes debug, serio, sys, acpi and dtb,
    which copy text or bytes from devices.  Setting up descriptor tables, the
    local APIC, timers, serial ports, and everything particular to aarch64, riscv64
    and 32-bit x86.  The kernel heap, which wraps a third-party allocator.
    Logging, profiling and the debugger have no state that the rest of the kernel
    depends on. *)

From stdpp Require Export base list gmap.
From Stdlib Require Export ZArith Lia.

(** ** Machine integers

    The kernel's [usize] is modelled by [Z] together with an explicit
    reduction modulo [2^64] wherever an operation of the source can leave the
    range (the targets x86_64, aarch64 and riscv64 are all 64-bit). *)

#[global] Open Scope Z_scope.

Definition usize_bits : Z := 64.
Definition usize_modulus : Z := 2 ^ 64.
Definition usize_max : Z := 2 ^ 64 - 1.

Definition usize_ok (x : Z) : Prop := 0 <= x < 2 ^ 64.

(** Wrapping reduction: what release builds compute for [+], [-], [*] on
    [usize], and what the atomic [fetch_add]/[fetch_sub] compute always. *)
Definition wrap (x : Z) : Z := x mod 2 ^ 64.

Definition usize_add (x y : Z) : Z := wrap (x + y).
Definition usize_sub (x y : Z) : Z := wrap (x - y).
Definition usize_mul (x y : Z) : Z := wrap (x * y).
(** [!x] on [usize] *)
Definition usize_not (x : Z) : Z := Z.lxor x usize_max.
Definition saturating_add (x y : Z) : Z := Z.min (x + y) usize_max.
Definition saturating_sub (x y : Z) : Z := Z.max (x - y) 0.
Definition checked_add (x y : Z) : option Z :=
  if x + y <=? usize_max then Some (x + y) else None.
Definition checked_sub (x y : Z) : option Z :=
  if y <=? x then Some (x - y) else None.
Definition div_ceil (x y : Z) : Z := (x + y - 1) / y.

Lemma wrap_small x : 0 <= x < 2 ^ 64 -> wrap x = x.
Proof. apply Z.mod_small. Qed.

Lemma wrap_range x : 0 <= wrap x < 2 ^ 64.
Proof. apply Z.mod_pos_bound. lia. Qed.

Lemma usize_add_small x y : 0 <= x -> 0 <= y -> x + y < 2 ^ 64 -> usize_add x y = x + y.
Proof. intros. apply wrap_small. lia. Qed.

Lemma usize_sub_small x y : 0 <= y <= x -> x < 2 ^ 64 -> usize_sub x y = x - y.
Proof. intros. apply wrap_small. lia. Qed.

Lemma usize_mul_small x y : 0 <= x * y < 2 ^ 64 -> usize_mul x y = x * y.
Proof. intros. by apply wrap_small. Qed.

(** *** Bit-level lemmas *)

Lemma land_pow2 x n : 0 <= n -> Z.land x (2 ^ n) = if Z.testbit x n then 2 ^ n else 0.
Proof.
  intros Hn. apply Z.bits_inj'; intros i Hi.
  rewrite Z.land_spec, Z.pow2_bits_eqb by lia.
  destruct (Z.eqb_spec n i) as [->|Hne].
  - destruct (Z.testbit x i) eqn:E; simpl; [by rewrite Z.pow2_bits_true|by rewrite Z.bits_0].
  - rewrite andb_false_r. destruct (Z.testbit x n);
      [by rewrite Z.pow2_bits_false by lia|by rewrite Z.bits_0].
Qed.

Lemma lor_add a b : Z.land a b = 0 -> Z.lor a b = a + b.
Proof. intros H. by rewrite Z.add_nocarry_lxor, Z.lxor_lor. Qed.

Lemma testbit_above x n : 0 <= x < 2 ^ n -> 0 <= n -> forall i, n <= i -> Z.testbit x i = false.
Proof.
  intros Hx Hn i Hi. destruct (decide (x = 0)) as [->|]; [apply Z.bits_0|].
  apply Z.bits_above_log2; [lia|]. apply Z.lt_le_trans with n; [|lia].
  apply Z.log2_lt_pow2; lia.
Qed.

Lemma testbit_below_mult x n : 0 <= n -> x mod 2 ^ n = 0 -> forall i, i < n -> Z.testbit x i = false.
Proof.
  intros Hn Hx i Hi. destruct (Z.neg_nonneg_cases i); [by apply Z.testbit_neg_r|].
  rewrite <- (Z.mod_pow2_bits_low x n i) by lia. rewrite Hx. apply Z.bits_0.
Qed.

(** A multiple of [2^n] and a number below [2^n] share no bit. *)
Lemma land_disjoint x y n : 0 <= n -> x mod 2 ^ n = 0 -> 0 <= y < 2 ^ n -> Z.land x y = 0.
Proof.
  intros Hn Hx Hy. apply Z.bits_inj'; intros i Hi. rewrite Z.land_spec, Z.bits_0.
  destruct (Z.lt_ge_cases i n).
  - by rewrite (testbit_below_mult x n).
  - by rewrite (testbit_above y n), andb_false_r.
Qed.

Lemma lor_mult_small x y n : 0 <= n -> x mod 2 ^ n = 0 -> 0 <= y < 2 ^ n -> Z.lor x y = x + y.
Proof. intros. apply lor_add. by apply land_disjoint with n. Qed.

Lemma testbit_usize_not x i : 0 <= i < 64 -> Z.testbit (usize_not x) i = negb (Z.testbit x i).
Proof.
  intros Hi. unfold usize_not, usize_max.
  change (2 ^ 64 - 1) with (Z.ones 64).
  rewrite Z.lxor_spec, Z.ones_spec_low by lia. by destruct (Z.testbit x i).
Qed.

(** Clearing the low [n] bits of a [usize]. *)
Lemma land_not_mask x n : 0 <= x < 2 ^ 64 -> 0 <= n <= 64 ->
  Z.land x (usize_not (2 ^ n - 1)) = x - x mod 2 ^ n.
Proof.
  intros Hx Hn. transitivity (Z.ldiff x (Z.ones n)).
  - apply Z.bits_inj'; intros i Hi. rewrite Z.land_spec, Z.ldiff_spec.
    destruct (Z.lt_ge_cases i 64).
    + rewrite testbit_usize_not by lia. do 3 f_equal. rewrite Z.ones_equiv. lia.
    + by rewrite (testbit_above x 64) by lia.
  - rewrite Z.ldiff_ones_r by lia. rewrite Z.shiftl_mul_pow2, Z.shiftr_div_pow2 by lia.
    pose proof (Z.div_mod x (2 ^ n)). lia.
Qed.

Lemma sub_pow2_ldiff x n : 0 <= n -> Z.testbit x n = true -> Z.ldiff x (2 ^ n) = x - 2 ^ n.
Proof.
  intros Hn Hb. symmetry. apply Z.sub_nocarry_ldiff. apply Z.bits_inj'; intros i Hi.
  rewrite Z.ldiff_spec, Z.bits_0, Z.pow2_bits_eqb by lia.
  destruct (Z.eqb_spec n i) as [->|]; [by rewrite Hb|done].
Qed.

(** Flipping one bit. *)
Lemma lxor_pow2 x n : 0 <= n ->
  Z.lxor x (2 ^ n) = if Z.testbit x n then x - 2 ^ n else x + 2 ^ n.
Proof.
  intros Hn. destruct (Z.testbit x n) eqn:Hb.
  - rewrite <- sub_pow2_ldiff by done. apply Z.bits_inj'; intros i Hi.
    rewrite Z.lxor_spec, Z.ldiff_spec, Z.pow2_bits_eqb by lia.
    destruct (Z.eqb_spec n i) as [->|]; [by rewrite Hb|by destruct (Z.testbit x i)].
  - symmetry. apply Z.add_nocarry_lxor. by rewrite land_pow2, Hb.
Qed.

(** Clearing one bit of a [usize]. *)
Lemma land_not_pow2 x n : 0 <= x < 2 ^ 64 -> 0 <= n < 64 ->
  Z.land x (usize_not (2 ^ n)) = if Z.testbit x n then x - 2 ^ n else x.
Proof.
  intros Hx Hn. transitivity (Z.ldiff x (2 ^ n)).
  - apply Z.bits_inj'; intros i Hi. rewrite Z.land_spec, Z.ldiff_spec.
    destruct (Z.lt_ge_cases i 64); [by rewrite testbit_usize_not by lia|].
    by rewrite (testbit_above x 64) by lia.
  - destruct (Z.testbit x n) eqn:Hb; [apply sub_pow2_ldiff; [lia|done]|].
    apply Z.bits_inj'; intros i Hi. rewrite Z.ldiff_spec, Z.pow2_bits_eqb by lia.
    destruct (Z.eqb_spec n i) as [<-|]; [by rewrite Hb|]. by destruct (Z.testbit x i).
Qed.

(** For a multiple of [2^n], bit [n] tells whether it is a multiple of [2^(n+1)]. *)
Lemma testbit_mult x n : 0 <= n -> x mod 2 ^ n = 0 ->
  x mod 2 ^ (n + 1) = if Z.testbit x n then 2 ^ n else 0.
Proof.
  intros Hn Hx. assert (2 ^ n <> 0) by (apply Z.pow_nonzero; lia).
  rewrite Z.pow_add_r by lia. change (2 ^ 1) with 2.
  rewrite Z.rem_mul_r by lia. rewrite Hx.
  destruct (Z.testbit x n) eqn:Hb.
  - apply Z.testbit_true in Hb; [|lia]. rewrite Hb. lia.
  - apply Z.testbit_false in Hb; [|lia]. rewrite Hb. lia.
Qed.

(** ** Outcomes, results and the kernel's state monad

    A kernel function either finishes or panics (with [panic = "abort"] in
    both profiles of Cargo.toml a panic stops the machine, so no state
    survives it).  [result E A] is Rust's [Result<A, E>]. *)

Inductive outcome (A : Type) : Type :=
| Done (a : A)
| Panic.
Arguments Done {A} a.
Arguments Panic {A}.

Inductive result (E A : Type) : Type :=
| Ok (a : A)
| Err (e : E).
Arguments Ok {E A} a.
Arguments Err {E A} e.

(** Stateful code: explicit state passing with panics. *)
Definition M (S A : Type) : Type := S -> outcome (A * S).

Definition ret {S A} (a : A) : M S A := fun s => Done (a, s).
Definition bind {S A B} (m : M S A) (k : A -> M S B) : M S B :=
  fun s => match m s with
           | Done (a, s') => k a s'
           | Panic => Panic
           end.
Definition panic {S A} : M S A := fun _ => Panic.
Definition get_state {S} : M S S := fun s => Done (s, s).
Definition put_state {S} (s : S) : M S unit := fun _ => Done (tt, s).
Definition modify {S} (f : S -> S) : M S unit := fun s => Done (tt, f s).
Definition gets {S A} (f : S -> A) : M S A := fun s => Done (f s, s).
(** [Option::unwrap], [Option::expect] *)
Definition unwrap {S A} (o : option A) : M S A :=
  match o with Some a => ret a | None => panic end.
(** [assert!] *)
Definition assert_ {S} (b : bool) : M S unit := if b then ret tt else panic.
(** [debug_assert!]: checked when the build has [debug_assertions] on. *)
Definition debug_assert {S} (debug_assertions : bool) (b : bool) : M S unit :=
  if debug_assertions then assert_ b else ret tt.

Declare Scope kernel_scope.
Delimit Scope kernel_scope with kernel.
#[global] Open Scope kernel_scope.

Notation "'let!' x ':=' m 'in' k" := (bind m (fun x => k))
  (at level 10, x name, m at level 100, k at level 200) : kernel_scope.
Notation "'let!' ' p ':=' m 'in' k" := (bind m (fun x => match x with p => k end))
  (at level 10, p pattern, m at level 100, k at level 200) : kernel_scope.
Notation "m ;;; k" := (bind m (fun _ => k))
  (at level 199, k at level 200, right associativity) : kernel_scope.

(** The [?] operator inside a function that returns a [Result]. *)
Definition bind_result {S E A B} (m : M S (result E A)) (k : A -> M S (result E B))
  : M S (result E B) :=
  bind m (fun r => match r with Ok a => k a | Err e => ret (Err e) end).
Notation "'let?' x ':=' m 'in' k" := (bind_result m (fun x => k))
  (at level 10, x name, m at level 100, k at level 200) : kernel_scope.
Notation "'let?' ' p ':=' m 'in' k" := (bind_result m (fun x => match x with p => k end))
  (at level 10, p pattern, m at level 100, k at level 200) : kernel_scope.

(** [Option::ok_or(e)?] as a computation *)
Definition ok_or {S E A} (o : option A) (e : E) : M S (result E A) :=
  ret (match o with Some a => Ok a | None => Err e end).
Definition ok {S E A} (a : A) : M S (result E A) := ret (Ok a).
Definition err {S E A} (e : E) : M S (result E A) := ret (Err e).

(** [for x in l { body }] *)
Fixpoint forM {S A} (l : list A) (body : A -> M S unit) : M S unit :=
  match l with
  | [] => ret tt
  | x :: l' => body x ;;; forM l' body
  end.

(** Loops whose body can [continue], [break] or [return]. *)
Inductive flow (R : Type) : Type :=
| Next
| Break
| Return (r : R).
Arguments Next {R}.
Arguments Break {R}.
Arguments Return {R} r.

(** The value is that of the first [return], if any. *)
Fixpoint for_flow {S A R} (l : list A) (body : A -> M S (flow R)) : M S (option R) :=
  match l with
  | [] => ret None
  | x :: l' =>
      let! f := body x in
      match f with
      | Next => for_flow l' body
      | Break => ret None
      | Return r => ret (Some r)
      end
  end.

(** [0..n] *)
Definition range (n : Z) : list Z := map Z.of_nat (seq 0 (Z.to_nat n)).

(** [Result::map_err] *)
Definition map_err {E E' A} (f : E -> E') (r : result E A) : result E' A :=
  match r with Ok a => Ok a | Err e => Err (f e) end.

Lemma bind_Done {S A B} (m : M S A) (k : A -> M S B) s a s' :
  m s = Done (a, s') -> bind m k s = k a s'.
Proof. intros H. unfold bind. by rewrite H. Qed.

Lemma bind_Done_inv {S A B} (m : M S A) (k : A -> M S B) s b s'' :
  bind m k s = Done (b, s'') -> exists a s', m s = Done (a, s') /\ k a s' = Done (b, s'').
Proof. unfold bind. destruct (m s) as [[a s']|]; naive_solver. Qed.

Lemma bind_cong {S A B} (m m' : M S A) (k : A -> M S B) s : m s = m' s -> bind m k s = bind m' k s.
Proof. unfold bind. by intros ->. Qed.

Lemma bind_assoc {S A B C} (m : M S A) (k : A -> M S B) (h : B -> M S C) s :
  bind (bind m k) h s = bind m (fun a => bind (k a) h) s.
Proof. unfold bind. by destruct (m s) as [[a s']|]. Qed.

Lemma bind_ret {S A B} (a : A) (k : A -> M S B) s : bind (ret a) k s = k a s.
Proof. reflexivity. Qed.

Lemma debug_assert_true {S} d b (s : S) : b = true -> debug_assert d b s = Done (tt, s).
Proof. intros ->. by destruct d. Qed.

(** One symbolic step of a monadic computation. *)
Ltac mstep :=
  first
    [ rewrite bind_ret
    | rewrite bind_assoc
    | erewrite bind_Done by eassumption
    | rewrite debug_assert_true by (first [assumption | reflexivity]) ].
