(* ===== verification/PageInfo.v ===== *)
(** * Frames and per-frame bookkeeping words (src/memory/mod.rs)

    [Frame] addresses, the [P2Frame] packing of an optional frame with a
    power-of-two order, the reference-count word of a used frame ([RefCount])
    and the operations of [PageInfo]: both its "used" reading (reference
    counting, copy-on-write versus shared) and its "free" reading (links of the
    allocator's free lists).  The operations are computations over one
    [PageInfo]; FrameAllocator.v lifts them to the whole table. *)

From S2P Require Import Prelude.

(** [RmmA::PAGE_SIZE] and [RmmA::PAGE_OFFSET_MASK] of the 64-bit targets. *)
Definition PAGE_SIZE : Z := 4096.
Definition PAGE_MASK : Z := PAGE_SIZE - 1.

Definition ORDER_COUNT : nat := 11.
Definition MAX_ORDER : nat := ORDER_COUNT - 1.

(** [PAGE_SIZE << order] *)
Definition order_size (order : nat) : Z := Z.shiftl PAGE_SIZE (Z.of_nat order).

(** ** Frame *)

(** A frame is its nonzero, page-aligned physical address. *)
Abbreviation Frame := Z (only parsing).

(** [NonZeroUsize::new] *)
Definition nonzero (x : Z) : option Z := if x =? 0 then None else Some x.

Definition containing {S} (address : Z) : M S Frame :=
  unwrap (nonzero (Z.land address (usize_not PAGE_MASK))).

Definition next_by {S} (frame : Frame) (n : Z) : M S Frame :=
  unwrap (match checked_add frame (usize_mul n PAGE_SIZE) with
          | Some a => nonzero a
          | None => None
          end).

Definition offset_from {S} (frame from : Frame) : M S Z :=
  let! d := unwrap (checked_sub frame from) in ret (d / PAGE_SIZE).

Definition is_aligned_to_order (frame : Frame) (order : nat) : bool :=
  frame mod order_size order =? 0.

(** ** P2Frame: an optional frame and an order packed in one word *)

(** Indicates whether the page is used (managed by the kernel heap or the
    virtual memory system) or free (managed by the allocator). *)
Definition RC_USED_NOT_FREE : Z := 2 ^ 63.
Definition RC_SHARED_NOT_COW : Z := 2 ^ 62.
Definition RC_MAX : Z := 2 ^ 61.
Definition RC_COUNT_MASK : Z := usize_not (Z.lor RC_USED_NOT_FREE RC_SHARED_NOT_COW).

Abbreviation P2Frame := Z (only parsing).

Definition p2frame_new (frame : option Frame) (order : nat) : P2Frame :=
  Z.lor (default 0 frame) (Z.of_nat order).

Definition p2frame_get (p : P2Frame) : option Frame * nat :=
  let page_off_mask := PAGE_SIZE - 1 in
  (nonzero (Z.land (Z.land p (usize_not page_off_mask)) (usize_not RC_USED_NOT_FREE)),
   Z.to_nat (Z.land p page_off_mask)).

Definition p2frame_frame (p : P2Frame) : option Frame := (p2frame_get p).1.
Definition p2frame_order (p : P2Frame) : nat := (p2frame_get p).2.

(** ** RefCount *)

Inductive RefKind := RefKind_Cow | RefKind_Shared.

Inductive RefCount :=
| RefCount_One
| RefCount_Shared (n : Z)
| RefCount_Cow (n : Z).

Inductive AddRefError := CowToShared | SharedToCow | RcOverflow.

#[export] Instance RefKind_eq_dec : EqDecision RefKind.
Proof. solve_decision. Defined.
#[export] Instance RefCount_eq_dec : EqDecision RefCount.
Proof. solve_decision. Defined.
#[export] Instance AddRefError_eq_dec : EqDecision AddRefError.
Proof. solve_decision. Defined.

Definition from_raw (raw : Z) : option RefCount :=
  if negb (Z.land raw RC_USED_NOT_FREE =? RC_USED_NOT_FREE) then None
  else
    let refcount := Z.land raw (usize_not (Z.lor RC_SHARED_NOT_COW RC_USED_NOT_FREE)) in
    match nonzero refcount with
    | None => None
    | Some nz_refcount =>
        Some (if nz_refcount =? 1 then RefCount_One
              else if Z.land raw RC_SHARED_NOT_COW =? RC_SHARED_NOT_COW
              then RefCount_Shared nz_refcount
              else RefCount_Cow nz_refcount)
    end.

Definition to_raw (rc : RefCount) : Z :=
  match rc with
  | RefCount_One => Z.lor 1 RC_USED_NOT_FREE
  | RefCount_Shared inner => Z.lor (Z.lor inner RC_SHARED_NOT_COW) RC_USED_NOT_FREE
  | RefCount_Cow inner => Z.lor inner RC_USED_NOT_FREE
  end.

(** ** PageInfo *)

Record PageInfo := mkPageInfo {
  pi_refcount : Z;   (** [refcount: AtomicUsize] *)
  pi_next : Z        (** [next: AtomicUsize] *)
}.

#[export] Instance PageInfo_eq_dec : EqDecision PageInfo.
Proof. solve_decision. Defined.

Definition store_refcount (v : Z) : M PageInfo unit :=
  modify (fun p => mkPageInfo v (pi_next p)).
Definition store_next (v : Z) : M PageInfo unit :=
  modify (fun p => mkPageInfo (pi_refcount p) v).
(** The atomics return the old value and wrap. *)
Definition refcount_fetch_add (v : Z) : M PageInfo Z :=
  let! old := gets pi_refcount in store_refcount (usize_add old v) ;;; ret old.
Definition refcount_fetch_sub (v : Z) : M PageInfo Z :=
  let! old := gets pi_refcount in store_refcount (usize_sub old v) ;;; ret old.

(** [as_free] is [Some] exactly when the used bit is clear; the
    [PageInfoFree] it returns is a pair of references into the same
    [PageInfo], so the model keeps using the [PageInfo] itself. *)
Definition as_free (p : PageInfo) : bool :=
  negb (Z.land (pi_refcount p) RC_USED_NOT_FREE =? RC_USED_NOT_FREE).

Definition refcount (p : PageInfo) : option RefCount := from_raw (pi_refcount p).

Definition add_ref (kind : RefKind) : M PageInfo (result AddRefError unit) :=
  let! rc := gets refcount in
  let! rc := unwrap rc in
  match rc, kind with
  | RefCount_One, RefKind_Cow =>
      store_refcount (Z.lor RC_USED_NOT_FREE 2) ;;; ok tt
  | RefCount_One, RefKind_Shared =>
      store_refcount (Z.lor (Z.lor RC_USED_NOT_FREE 2) RC_SHARED_NOT_COW) ;;; ok tt
  | RefCount_Cow _, RefKind_Cow | RefCount_Shared _, RefKind_Shared =>
      let! old := refcount_fetch_add 1 in
      if RC_MAX <=? Z.land old RC_COUNT_MASK then
        refcount_fetch_sub 1 ;;; err RcOverflow
      else ok tt
  | RefCount_Cow _, RefKind_Shared => err CowToShared
  | RefCount_Shared _, RefKind_Cow => err SharedToCow
  end.

Definition remove_ref : M PageInfo (option RefCount) :=
  let! rc := gets refcount in
  match rc with
  | None => panic
  | Some RefCount_One => store_refcount RC_USED_NOT_FREE ;;; ret None
  | Some (RefCount_Cow _) | Some (RefCount_Shared _) =>
      let! old := refcount_fetch_sub 1 in
      let new_value := usize_sub old 1 in
      assert_ (negb (new_value =? RC_USED_NOT_FREE - 1)) ;;;
      assert_ (Z.land new_value RC_USED_NOT_FREE =? RC_USED_NOT_FREE) ;;;
      ret (from_raw new_value)
  end.

Definition allows_writable {S} (p : PageInfo) : M S bool :=
  let! rc := unwrap (refcount p) in
  ret (match rc with
       | RefCount_One => true
       | RefCount_Cow _ => false
       | RefCount_Shared _ => true
       end).

Definition make_free (order : nat) : M PageInfo unit :=
  store_refcount (Z.of_nat order) ;;; store_next (Z.of_nat order).

(** *** PageInfoFree *)

Definition free_next (p : PageInfo) : P2Frame := pi_next p.
Definition free_prev (p : PageInfo) : P2Frame := pi_refcount p.

(** [Option::is_none_or(|f| f.is_aligned_to_order(order))] of the setters' assertions *)
Definition p2frame_aligned (p : P2Frame) : bool :=
  match p2frame_frame p with
  | None => true
  | Some f => is_aligned_to_order f (p2frame_order p)
  end.

Definition set_next (dbg : bool) (next : P2Frame) : M PageInfo unit :=
  debug_assert dbg (p2frame_aligned next) ;;; store_next next.
Definition set_prev (dbg : bool) (prev : P2Frame) : M PageInfo unit :=
  debug_assert dbg (p2frame_aligned prev) ;;; store_refcount prev.
Definition mark_used : M PageInfo unit :=
  store_refcount RC_USED_NOT_FREE ;;; store_next 0.

(** ** Lemmas: addresses and orders *)

Lemma order_size_eq o : order_size o = 4096 * 2 ^ Z.of_nat o.
Proof. unfold order_size, PAGE_SIZE. rewrite Z.shiftl_mul_pow2 by lia. lia. Qed.

Lemma order_size_pow o : order_size o = 2 ^ (12 + Z.of_nat o).
Proof. rewrite order_size_eq, Z.pow_add_r by lia. reflexivity. Qed.

Lemma order_size_pos o : 0 < order_size o.
Proof. rewrite order_size_pow. apply Z.pow_pos_nonneg; lia. Qed.

Lemma order_size_S o : order_size (S o) = 2 * order_size o.
Proof. rewrite !order_size_pow. rewrite <- Z.pow_succ_r by lia. f_equal. lia. Qed.

Lemma order_size_ge o : 4096 <= order_size o.
Proof. induction o; [done|]. rewrite order_size_S. lia. Qed.

Lemma is_aligned_spec f o : is_aligned_to_order f o = true <-> f mod order_size o = 0.
Proof. unfold is_aligned_to_order. apply Z.eqb_eq. Qed.

Lemma nonzero_pos x : x <> 0 -> nonzero x = Some x.
Proof. unfold nonzero. by destruct (Z.eqb_spec x 0). Qed.

Lemma containing_aligned {S} a (s : S) :
  0 < a < 2 ^ 64 -> a mod PAGE_SIZE = 0 -> containing a s = Done (a, s).
Proof.
  intros Ha Hm. unfold containing, PAGE_MASK, PAGE_SIZE in *.
  change (4096 - 1) with (2 ^ 12 - 1). rewrite land_not_mask by lia.
  change (2 ^ 12) with 4096. rewrite Hm, Z.sub_0_r, nonzero_pos by lia. done.
Qed.

Lemma next_by_ok {S} f n (s : S) :
  0 < f -> 0 <= n -> f + n * 4096 < 2 ^ 64 -> next_by f n s = Done (f + n * 4096, s).
Proof.
  intros Hf Hn Hlt. unfold next_by, checked_add, usize_max, PAGE_SIZE.
  rewrite usize_mul_small by lia.
  destruct (Z.leb_spec (f + n * 4096) (2 ^ 64 - 1)); [|lia].
  by rewrite nonzero_pos by lia.
Qed.

(** *** Buddies

    [current ^ (PAGE_SIZE << order)] and [current & !(PAGE_SIZE << order)]. *)

Definition buddy (a : Z) (o : nat) : Z :=
  if Z.testbit a (12 + Z.of_nat o) then a - order_size o else a + order_size o.
Definition buddy_base (a : Z) (o : nat) : Z :=
  if Z.testbit a (12 + Z.of_nat o) then a - order_size o else a.

Lemma lxor_buddy a o : Z.lxor a (order_size o) = buddy a o.
Proof. unfold buddy. rewrite order_size_pow. apply lxor_pow2. lia. Qed.

Lemma land_buddy a o : 0 <= a < 2 ^ 64 -> (o < 52)%nat ->
  Z.land a (usize_not (order_size o)) = buddy_base a o.
Proof. intros Ha Ho. unfold buddy_base. rewrite order_size_pow. apply land_not_pow2; lia. Qed.

Lemma buddy_base_aligned a o :
  a mod order_size o = 0 -> buddy_base a o mod order_size (S o) = 0.
Proof.
  intros Ha. unfold buddy_base. rewrite !order_size_pow in *.
  pose proof (testbit_mult a (12 + Z.of_nat o) ltac:(lia) Ha) as Ht.
  replace (12 + Z.of_nat (S o)) with (12 + Z.of_nat o + 1) by lia.
  destruct (Z.testbit a _); [|done].
  rewrite Zminus_mod, Ht. rewrite (Z.mod_small (2 ^ _)), Z.sub_diag; [done|].
  split; [apply Z.pow_nonneg; lia|apply Z.pow_lt_mono_r; lia].
Qed.

Lemma aligned_down a o o' : (o' <= o)%nat -> a mod order_size o = 0 -> a mod order_size o' = 0.
Proof.
  intros Hle Ha. rewrite !order_size_pow in *. apply Z.mod_divide in Ha; [|apply Z.pow_nonzero; lia].
  apply Z.mod_divide; [apply Z.pow_nonzero; lia|]. etrans; [|done].
  exists (2 ^ (Z.of_nat o - Z.of_nat o')). rewrite <- Z.pow_add_r by lia. f_equal. lia.
Qed.

Lemma buddy_aligned a o : a mod order_size o = 0 -> buddy a o mod order_size o = 0.
Proof.
  intros Ha. pose proof (order_size_pos o). unfold buddy.
  destruct (Z.testbit a _).
  - rewrite Zminus_mod, Ha, Z.mod_same by lia. done.
  - rewrite Zplus_mod, Ha, Z.mod_same by lia. done.
Qed.

(** The two halves of an order-[S o] block. *)
Lemma buddy_halves a o :
  (buddy_base a o = a /\ buddy a o = a + order_size o) \/
  (buddy_base a o = buddy a o /\ a = buddy a o + order_size o).
Proof. unfold buddy, buddy_base. destruct (Z.testbit a _); lia. Qed.

(** ** Lemmas: the P2Frame packing *)

(** What the packing supports: page-aligned addresses below bit 63, orders
    that fit in the page offset. *)
Definition packable (f : option Frame) (o : nat) : Prop :=
  (o < 4096)%nat /\ match f with
             | None => True
             | Some a => 0 < a < 2 ^ 63 /\ a mod PAGE_SIZE = 0
             end.

Lemma p2frame_new_eq f o : packable f o -> p2frame_new f o = default 0 f + Z.of_nat o.
Proof.
  intros [Ho Hf]. unfold p2frame_new. apply (lor_mult_small _ _ 12); [lia| |lia].
  destruct f as [a|]; simpl; [by destruct Hf|done].
Qed.

Lemma p2frame_new_range f o : packable f o -> 0 <= p2frame_new f o < 2 ^ 63.
Proof.
  intros H. rewrite p2frame_new_eq by done. destruct H as [Ho Hf].
  destruct f as [a|]; simpl; [|lia]. destruct Hf as [Ha Hm]. unfold PAGE_SIZE in Hm.
  assert (a <= 2 ^ 63 - 4096); [|lia].
  pose proof (Z.div_mod a 4096). nia.
Qed.

Lemma p2frame_get_new f o : packable f o -> p2frame_get (p2frame_new f o) = (f, o).
Proof.
  intros H. pose proof (p2frame_new_range _ _ H) as Hr.
  unfold p2frame_get, PAGE_SIZE. change (4096 - 1) with (2 ^ 12 - 1).
  rewrite land_not_mask by lia.
  change (2 ^ 12 - 1) with (Z.ones 12). rewrite Z.land_ones by lia.
  change (usize_not RC_USED_NOT_FREE) with (Z.ones 63). rewrite Z.land_ones by lia.
  rewrite p2frame_new_eq in * by done. destruct H as [Ho Hf].
  assert (Hm : (default 0 f + Z.of_nat o) mod 2 ^ 12 = Z.of_nat o).
  { change (2 ^ 12) with 4096. destruct f as [a|]; simpl default.
    - destruct Hf as [_ Hm]. unfold PAGE_SIZE in Hm.
      rewrite Z.add_mod, Hm, Z.add_0_l, Z.mod_mod by lia. apply Z.mod_small. lia.
    - apply Z.mod_small. lia. }
  rewrite Hm. replace (default 0 f + Z.of_nat o - Z.of_nat o) with (default 0 f) by lia.
  rewrite Z.mod_small.
  - f_equal; [|lia]. destruct f as [a|]; simpl in *; [|done].
    apply nonzero_pos. lia.
  - destruct f; simpl in *; lia.
Qed.

Lemma p2frame_frame_new f o : packable f o -> p2frame_frame (p2frame_new f o) = f.
Proof. intros H. unfold p2frame_frame. by rewrite p2frame_get_new. Qed.

Lemma p2frame_order_new f o : packable f o -> p2frame_order (p2frame_new f o) = o.
Proof. intros H. unfold p2frame_order. by rewrite p2frame_get_new. Qed.

Lemma p2frame_aligned_new f o :
  packable f o -> (forall a, f = Some a -> a mod order_size o = 0) ->
  p2frame_aligned (p2frame_new f o) = true.
Proof.
  intros H Ha. unfold p2frame_aligned.
  rewrite p2frame_frame_new, p2frame_order_new by done.
  destruct f; [|done]. apply is_aligned_spec; eauto.
Qed.

(** ** Lemmas: the reference-count word *)

(** The canonical reading of a used word: shared bit and count. *)
Definition mk_raw (shared : bool) (n : Z) : Z := 2 ^ 63 + (if shared then 2 ^ 62 else 0) + n.

Lemma raw_used_bit raw : (Z.land raw RC_USED_NOT_FREE =? RC_USED_NOT_FREE) = Z.testbit raw 63.
Proof.
  unfold RC_USED_NOT_FREE. rewrite land_pow2 by lia. by destruct (Z.testbit raw 63).
Qed.

Lemma raw_shared_bit raw : (Z.land raw RC_SHARED_NOT_COW =? RC_SHARED_NOT_COW) = Z.testbit raw 62.
Proof.
  unfold RC_SHARED_NOT_COW. rewrite land_pow2 by lia. by destruct (Z.testbit raw 62).
Qed.

Lemma raw_count raw :
  Z.land raw (usize_not (Z.lor RC_SHARED_NOT_COW RC_USED_NOT_FREE)) = raw mod 2 ^ 62.
Proof.
  change (usize_not (Z.lor RC_SHARED_NOT_COW RC_USED_NOT_FREE)) with (Z.ones 62).
  apply Z.land_ones. lia.
Qed.

Lemma mk_raw_used s n : 0 <= n < 2 ^ 62 -> Z.testbit (mk_raw s n) 63 = true.
Proof.
  intros Hn. unfold mk_raw. rewrite Z.testbit_true by lia.
  replace (_ / 2 ^ 63) with 1; [done|].
  apply Z.div_unique with (r := (if s then 2 ^ 62 else 0) + n); destruct s; lia.
Qed.

Lemma mk_raw_shared s n : 0 <= n < 2 ^ 62 -> Z.testbit (mk_raw s n) 62 = s.
Proof.
  intros Hn. unfold mk_raw. apply Bool.eq_true_iff_eq. rewrite Z.testbit_true by lia.
  replace (_ / 2 ^ 62) with (2 + if s then 1 else 0).
  - by destruct s.
  - apply Z.div_unique with (r := n); destruct s; lia.
Qed.

Lemma mk_raw_count s n : 0 <= n < 2 ^ 62 -> mk_raw s n mod 2 ^ 62 = n.
Proof.
  intros Hn. unfold mk_raw.
  replace (_ + n) with (n + (2 + if s then 1 else 0) * 2 ^ 62) by (destruct s; lia).
  rewrite Z.mod_add by lia. by apply Z.mod_small.
Qed.

Lemma mk_raw_range s n : 0 <= n < 2 ^ 62 -> 0 <= mk_raw s n < 2 ^ 64.
Proof. unfold mk_raw. destruct s; lia. Qed.

(** Every used word is canonical. *)
Lemma used_raw_canonical raw :
  0 <= raw < 2 ^ 64 -> Z.testbit raw 63 = true ->
  raw = mk_raw (Z.testbit raw 62) (raw mod 2 ^ 62).
Proof.
  intros Hr Hu. apply Z.testbit_true in Hu; [|lia].
  unfold mk_raw.
  assert (Hs : raw / 2 ^ 62 = 2 + if Z.testbit raw 62 then 1 else 0).
  { assert (Hq : 2 <= raw / 2 ^ 62 < 4).
    { assert (raw / 2 ^ 63 = 1) as H1.
      { assert (0 <= raw / 2 ^ 63 < 2); [|destruct (Z.eq_dec (raw / 2 ^ 63) 0) as [E|]; [|lia]].
        - split; [apply Z.div_pos; lia|apply Z.div_lt_upper_bound; lia].
        - rewrite E in Hu. done. }
      pose proof (Z.div_mod raw (2 ^ 63)). pose proof (Z.mod_pos_bound raw (2 ^ 63)).
      split; [apply Z.div_le_lower_bound; lia|apply Z.div_lt_upper_bound; lia]. }
    destruct (Z.testbit raw 62) eqn:E.
    - apply Z.testbit_true in E; [|lia].
      assert (raw / 2 ^ 62 = 2 \/ raw / 2 ^ 62 = 3) as [H2|H2] by lia; rewrite H2 in *; done.
    - apply Z.testbit_false in E; [|lia].
      assert (raw / 2 ^ 62 = 2 \/ raw / 2 ^ 62 = 3) as [H2|H2] by lia; rewrite H2 in *; done. }
  pose proof (Z.div_mod raw (2 ^ 62)). destruct (Z.testbit raw 62); lia.
Qed.

Definition decode (shared : bool) (n : Z) : option RefCount :=
  if n =? 0 then None
  else Some (if n =? 1 then RefCount_One
             else if shared then RefCount_Shared n else RefCount_Cow n).

Lemma from_raw_mk s n : 0 <= n < 2 ^ 62 -> from_raw (mk_raw s n) = decode s n.
Proof.
  intros Hn. unfold from_raw, decode, nonzero.
  rewrite raw_used_bit, mk_raw_used, raw_count, mk_raw_count, raw_shared_bit, mk_raw_shared by done.
  simpl. by destruct (n =? 0).
Qed.

Lemma from_raw_free raw : Z.testbit raw 63 = false -> from_raw raw = None.
Proof. intros H. unfold from_raw. by rewrite raw_used_bit, H. Qed.

Lemma as_free_spec p : as_free p = negb (Z.testbit (pi_refcount p) 63).
Proof. unfold as_free. by rewrite raw_used_bit. Qed.

Lemma as_free_packed f o nx : packable f o -> as_free (mkPageInfo (p2frame_new f o) nx) = true.
Proof.
  intros H. rewrite as_free_spec. cbn [pi_refcount].
  by rewrite (testbit_above _ 63) by (try apply p2frame_new_range; done || lia).
Qed.

(** ** Reference counting refines a counter with a sharing mode

    The abstract specification of [add_ref] and [remove_ref]: what they do to
    the [RefCount] the word encodes. *)

Definition spec_add_ref (rc : RefCount) (kind : RefKind) : result AddRefError RefCount :=
  match rc, kind with
  | RefCount_One, RefKind_Cow => Ok (RefCount_Cow 2)
  | RefCount_One, RefKind_Shared => Ok (RefCount_Shared 2)
  | RefCount_Cow n, RefKind_Cow =>
      if RC_MAX <=? n then Err RcOverflow else Ok (RefCount_Cow (n + 1))
  | RefCount_Shared n, RefKind_Shared =>
      if RC_MAX <=? n then Err RcOverflow else Ok (RefCount_Shared (n + 1))
  | RefCount_Cow _, RefKind_Shared => Err CowToShared
  | RefCount_Shared _, RefKind_Cow => Err SharedToCow
  end.

Definition spec_remove_ref (rc : RefCount) : option RefCount :=
  match rc with
  | RefCount_One => None
  | RefCount_Cow n => Some (if n =? 2 then RefCount_One else RefCount_Cow (n - 1))
  | RefCount_Shared n => Some (if n =? 2 then RefCount_One else RefCount_Shared (n - 1))
  end.

(** A word that is used and counts [rc]. *)
Definition counts (p : PageInfo) (rc : RefCount) : Prop :=
  usize_ok (pi_refcount p) /\ refcount p = Some rc.

Definition rc_shared (rc : RefCount) : bool :=
  match rc with RefCount_Shared _ => true | _ => false end.
Definition rc_count (rc : RefCount) : Z :=
  match rc with RefCount_One => 1 | RefCount_Shared n | RefCount_Cow n => n end.

Lemma decode_inv s n rc : decode s n = Some rc ->
  n = rc_count rc /\ n <> 0 /\ (rc = RefCount_One \/ s = rc_shared rc /\ n <> 1).
Proof.
  unfold decode. destruct (Z.eqb_spec n 0); [done|].
  destruct (Z.eqb_spec n 1); intros [= <-]; [naive_solver|].
  destruct s; simpl; naive_solver.
Qed.

Lemma counts_inv p rc : counts p rc ->
  exists s, pi_refcount p = mk_raw s (rc_count rc) /\ 0 < rc_count rc < 2 ^ 62 /\
            (rc = RefCount_One \/ s = rc_shared rc /\ rc_count rc <> 1).
Proof.
  intros [Hr Hrc]. unfold refcount in Hrc.
  destruct (Z.testbit (pi_refcount p) 63) eqn:Hu; [|by rewrite from_raw_free in Hrc].
  rewrite (used_raw_canonical _ Hr Hu) in Hrc.
  pose proof (Z.mod_pos_bound (pi_refcount p) (2 ^ 62)).
  rewrite from_raw_mk in Hrc by lia. apply decode_inv in Hrc as (Hn & H0 & Hs).
  exists (Z.testbit (pi_refcount p) 62). rewrite <- Hn.
  split; [by apply used_raw_canonical|]. split; [lia|]. naive_solver lia.
Qed.

Lemma counts_mk p s n rc : pi_refcount p = mk_raw s n -> 0 <= n < 2 ^ 62 ->
  decode s n = Some rc -> counts p rc.
Proof.
  intros Hp Hn Hd. split; [rewrite Hp; by apply mk_raw_range|].
  unfold refcount. by rewrite Hp, from_raw_mk.
Qed.

Lemma raw_count_mask raw : Z.land raw RC_COUNT_MASK = raw mod 2 ^ 62.
Proof. change RC_COUNT_MASK with (Z.ones 62). apply Z.land_ones. lia. Qed.

Lemma mk_raw_succ s n : 0 <= n < 2 ^ 61 -> usize_add (mk_raw s n) 1 = mk_raw s (n + 1).
Proof.
  intros Hn. unfold usize_add. rewrite wrap_small; unfold mk_raw; destruct s; lia.
Qed.

Lemma mk_raw_pred s n : 0 < n < 2 ^ 62 -> usize_sub (mk_raw s n) 1 = mk_raw s (n - 1).
Proof.
  intros Hn. unfold usize_sub. rewrite wrap_small; unfold mk_raw; destruct s; lia.
Qed.

(** A transient overflow is undone exactly. *)
Lemma fetch_add_sub_id raw : usize_ok raw -> usize_sub (usize_add raw 1) 1 = raw.
Proof.
  intros Hr. unfold usize_sub, usize_add, wrap. rewrite Zminus_mod_idemp_l.
  replace (raw + 1 - 1) with raw by lia. by apply Z.mod_small.
Qed.

Lemma PageInfo_eta p : mkPageInfo (pi_refcount p) (pi_next p) = p.
Proof. by destruct p. Qed.

Lemma add_ref_same_kind p s n kind rc :
  pi_refcount p = mk_raw s n -> usize_ok (pi_refcount p) -> 1 < n < 2 ^ 62 ->
  refcount p = Some rc ->
  (rc = RefCount_Cow n /\ kind = RefKind_Cow \/ rc = RefCount_Shared n /\ kind = RefKind_Shared) ->
  add_ref kind p =
    (if RC_MAX <=? n then Done (Err RcOverflow, p)
     else Done (Ok tt, mkPageInfo (mk_raw s (n + 1)) (pi_next p))).
Proof.
  intros Hp Hok Hn Hrc Hk.
  assert (Hcount : Z.land (pi_refcount p) RC_COUNT_MASK = n).
  { rewrite raw_count_mask, Hp. apply mk_raw_count. lia. }
  unfold add_ref, gets, bind. rewrite Hrc.
  destruct Hk as [[-> ->]|[-> ->]]; cbn; rewrite Hcount;
    destruct (Z.leb_spec RC_MAX n); cbn;
    rewrite ?fetch_add_sub_id, ?PageInfo_eta by done; try done;
    rewrite Hp, mk_raw_succ by (unfold RC_MAX in *; lia); done.
Qed.

Lemma add_ref_ok p rc kind :
  counts p rc ->
  match spec_add_ref rc kind with
  | Ok rc' => exists p', add_ref kind p = Done (Ok tt, p') /\ counts p' rc' /\ pi_next p' = pi_next p
  | Err e => add_ref kind p = Done (Err e, p)
  end.
Proof.
  intros Hc. pose proof Hc as [Hok Hrc].
  destruct (counts_inv _ _ Hc) as (s & Hp & Hn & Hs).
  destruct rc as [|n|n], kind; simpl in *.
  - eexists. unfold add_ref, gets, bind. rewrite Hrc. split; [done|].
    split; [|done]. apply (counts_mk _ false 2); done.
  - eexists. unfold add_ref, gets, bind. rewrite Hrc. split; [done|].
    split; [|done]. apply (counts_mk _ true 2); done.
  - unfold add_ref, gets, bind. by rewrite Hrc.
  - destruct Hs as [|[-> Hn1]]; [done|].
    rewrite (add_ref_same_kind p true n RefKind_Shared (RefCount_Shared n)) by (auto; lia).
    destruct (Z.leb_spec RC_MAX n); [done|]. unfold RC_MAX in *. eexists. split; [done|].
    split; [|done]. apply (counts_mk _ true (n + 1)); [done|lia|].
    unfold decode. by destruct (Z.eqb_spec (n + 1) 0), (Z.eqb_spec (n + 1) 1); try lia.
  - destruct Hs as [|[-> Hn1]]; [done|].
    rewrite (add_ref_same_kind p false n RefKind_Cow (RefCount_Cow n)) by (auto; lia).
    destruct (Z.leb_spec RC_MAX n); [done|]. unfold RC_MAX in *. eexists. split; [done|].
    split; [|done]. apply (counts_mk _ false (n + 1)); [done|lia|].
    unfold decode. by destruct (Z.eqb_spec (n + 1) 0), (Z.eqb_spec (n + 1) 1); try lia.
  - unfold add_ref, gets, bind. by rewrite Hrc.
Qed.

(** C39: [PageInfo::add_ref] implements the abstract counter: on a used frame
    it never panics; a reference of the same kind increments the count, a
    first extra reference fixes the sharing mode, a reference of the other
    kind or a count at the [RC_MAX] limit is an error that leaves the word
    untouched (the transient [fetch_add] overflow is undone). *)
Theorem add_ref_refines p rc kind :
  counts p rc ->
  match spec_add_ref rc kind with
  | Ok rc' => exists p', add_ref kind p = Done (Ok tt, p') /\ counts p' rc' /\ pi_next p' = pi_next p
  | Err e => add_ref kind p = Done (Err e, p)
  end.
Proof. apply add_ref_ok. Qed.

Lemma add_ref_refines_witness :
  exists p', add_ref RefKind_Cow (mkPageInfo (mk_raw false 2) 7) = Done (Ok tt, p')
             /\ counts p' (RefCount_Cow 3) /\ pi_next p' = 7.
Proof.
  apply (add_ref_refines (mkPageInfo (mk_raw false 2) 7) (RefCount_Cow 2) RefKind_Cow).
  split; [split|]; vm_compute; congruence.
Defined.

Lemma remove_ref_many p s n rc :
  pi_refcount p = mk_raw s n -> 1 < n < 2 ^ 62 -> refcount p = Some rc -> rc <> RefCount_One ->
  remove_ref p = Done (decode s (n - 1), mkPageInfo (mk_raw s (n - 1)) (pi_next p)).
Proof.
  intros Hp Hn Hrc Hone.
  assert (Hnew : usize_sub (pi_refcount p) 1 = mk_raw s (n - 1)).
  { rewrite Hp. apply mk_raw_pred. lia. }
  assert (Hne : (mk_raw s (n - 1) =? RC_USED_NOT_FREE - 1) = false).
  { apply Z.eqb_neq. unfold mk_raw, RC_USED_NOT_FREE. destruct s; lia. }
  unfold remove_ref, gets, bind. rewrite Hrc.
  destruct rc; [done| |]; cbn; rewrite Hnew, Hne; cbn;
    rewrite raw_used_bit, mk_raw_used by lia; cbn; by rewrite from_raw_mk by lia.
Qed.

Lemma spec_remove_ref_decode (s : bool) n : 1 < n ->
  spec_remove_ref (if s then RefCount_Shared n else RefCount_Cow n) = decode s (n - 1).
Proof.
  intros Hn. unfold decode.
  destruct s; simpl; destruct (Z.eqb_spec (n - 1) 0), (Z.eqb_spec (n - 1) 1), (Z.eqb_spec n 2);
    done || lia.
Qed.

Lemma remove_ref_many_refines p (s : bool) n (rc := if s then RefCount_Shared n else RefCount_Cow n) :
  pi_refcount p = mk_raw s n -> 1 < n < 2 ^ 62 -> refcount p = Some rc ->
  exists p', remove_ref p = Done (spec_remove_ref rc, p') /\
             refcount p' = spec_remove_ref rc /\ usize_ok (pi_refcount p') /\
             as_free p' = false /\ pi_next p' = pi_next p.
Proof.
  intros Hp Hn Hrc. unfold rc in *. rewrite spec_remove_ref_decode by lia.
  rewrite (remove_ref_many p s n _ Hp Hn Hrc) by (by destruct s).
  eexists. split; [done|]. unfold refcount. rewrite as_free_spec. cbn [pi_refcount pi_next].
  rewrite from_raw_mk, mk_raw_used by lia.
  split_and!; try done; apply mk_raw_range; lia.
Qed.

Lemma remove_ref_ok p rc :
  counts p rc ->
  exists p', remove_ref p = Done (spec_remove_ref rc, p') /\
             refcount p' = spec_remove_ref rc /\ usize_ok (pi_refcount p') /\
             as_free p' = false /\ pi_next p' = pi_next p.
Proof.
  intros Hc. pose proof Hc as [Hok Hrc].
  destruct (counts_inv _ _ Hc) as (s & Hp & Hn & Hs).
  destruct rc as [|n|n]; simpl in Hp, Hn, Hs.
  - eexists. unfold remove_ref, gets, bind. rewrite Hrc. split; [done|]. done.
  - destruct Hs as [|[-> Hn1]]; [done|]. apply (remove_ref_many_refines p true n); (done || lia).
  - destruct Hs as [|[-> Hn1]]; [done|]. apply (remove_ref_many_refines p false n); (done || lia).
Qed.

(** [PageInfo::remove_ref] implements the abstract counter: on a used
    frame it never panics, returns what is left ([None] exactly for the last
    reference), leaves the word counting that remainder, and never clears the
    used bit, so the frame cannot be taken by the allocator before
    [deallocate_frame] is called. *)
Theorem remove_ref_refines p rc :
  counts p rc ->
  exists p', remove_ref p = Done (spec_remove_ref rc, p') /\
             refcount p' = spec_remove_ref rc /\ usize_ok (pi_refcount p') /\
             as_free p' = false /\ pi_next p' = pi_next p.
Proof. apply remove_ref_ok. Qed.

Lemma remove_ref_refines_witness :
  exists p', remove_ref (mkPageInfo (mk_raw true 2) 0) = Done (Some RefCount_One, p') /\
             refcount p' = Some RefCount_One /\ usize_ok (pi_refcount p') /\
             as_free p' = false /\ pi_next p' = 0.
Proof.
  apply (remove_ref_refines (mkPageInfo (mk_raw true 2) 0) (RefCount_Shared 2)).
  split; [split|]; vm_compute; congruence.
Defined.

(** Reference counts the word can hold. *)
Definition valid_rc (rc : RefCount) : Prop :=
  match rc with
  | RefCount_One => True
  | RefCount_Shared n | RefCount_Cow n => 1 < n < 2 ^ 62
  end.

Lemma to_raw_mk rc : valid_rc rc -> to_raw rc = mk_raw (rc_shared rc) (rc_count rc).
Proof.
  intros Hv. destruct rc as [|n|n]; simpl in *; [done| |]; unfold RC_USED_NOT_FREE, RC_SHARED_NOT_COW.
  - rewrite (Z.lor_comm n), (lor_mult_small _ n 62) by (done || lia).
    rewrite Z.lor_comm, (lor_mult_small _ _ 63) by (done || lia). unfold mk_raw. lia.
  - rewrite Z.lor_comm, (lor_mult_small _ _ 63) by (done || lia). unfold mk_raw. lia.
Qed.

Lemma decode_rc rc : valid_rc rc -> decode (rc_shared rc) (rc_count rc) = Some rc.
Proof.
  intros Hv. unfold decode. destruct rc as [|n|n]; simpl in *; [done| |];
    by destruct (Z.eqb_spec n 0), (Z.eqb_spec n 1); try lia.
Qed.

(** The two packings of the bookkeeping words round-trip: a reference
    count written with [to_raw] is read back by [from_raw], and a frame and
    order written with [P2Frame::new] are read back by [P2Frame::get] and never
    look "used" to [as_free]. *)
Theorem packing_roundtrip rc f o nx :
  valid_rc rc -> packable f o ->
  from_raw (to_raw rc) = Some rc /\
  p2frame_get (p2frame_new f o) = (f, o) /\
  as_free (mkPageInfo (p2frame_new f o) nx) = true.
Proof.
  intros Hv Hp. split_and!.
  - rewrite to_raw_mk by done. rewrite from_raw_mk by (destruct rc; simpl in *; lia).
    by apply decode_rc.
  - by apply p2frame_get_new.
  - by apply as_free_packed.
Qed.

Lemma packing_roundtrip_witness :
  from_raw (to_raw (RefCount_Shared 5)) = Some (RefCount_Shared 5) /\
  p2frame_get (p2frame_new (Some 0x40003000) 10) = (Some 0x40003000, 10%nat) /\
  as_free (mkPageInfo (p2frame_new (Some 0x40003000) 10) 0) = true.
Proof.
  apply (packing_roundtrip (RefCount_Shared 5) (Some 0x40003000) 10 0); simpl; [lia|].
  split; [lia|split; [lia|reflexivity]].
Defined.
