(* ===== verification/FrameAllocator.v ===== *)
(** * The physical frame allocator (src/memory/mod.rs)

    The power-of-two ("buddy") allocator: the section table with the
    [PageInfo] of every managed frame, the free list per order threaded
    through those [PageInfo]s, allocation with splitting, deallocation with
    merging of siblings, and the helpers built on them ([init_frame],
    [RaiiFrame], [TheFrameAllocator]).

    [dbg] is [cfg!(debug_assertions)]: every [debug_assert!] of the source is
    in the model and panics when [dbg] is set. *)

From S2P Require Import Prelude PageInfo.

(** ** State *)

(** [struct Section]: [frames[i]] describes the frame [i] pages after [base]. *)
Record Section_ := mkSection {
  s_base : Frame;
  s_frames : list PageInfo
}.

(** The globals [ALLOCATOR_DATA], [FREELIST], [THE_ZEROED_FRAME], and the
    contents of physical memory.  The bytes of a frame are one number below
    [2^(8*4096)]; frames absent from [contents] hold zeros. *)
Record Memory := mkMemory {
  sections : list Section_;
  abs_off : Z;
  for_orders : list (option Frame);
  used_frames : Z;
  the_zeroed_frame : option Frame;
  contents : gmap Z Z
}.

Definition set_sections (secs : list Section_) (st : Memory) : Memory :=
  mkMemory secs (abs_off st) (for_orders st) (used_frames st) (the_zeroed_frame st) (contents st).
Definition set_for_orders (fo : list (option Frame)) (st : Memory) : Memory :=
  mkMemory (sections st) (abs_off st) fo (used_frames st) (the_zeroed_frame st) (contents st).
Definition set_used_frames (n : Z) (st : Memory) : Memory :=
  mkMemory (sections st) (abs_off st) (for_orders st) n (the_zeroed_frame st) (contents st).
Definition set_zeroed_frame (f : Frame) (st : Memory) : Memory :=
  mkMemory (sections st) (abs_off st) (for_orders st) (used_frames st) (Some f) (contents st).
Definition set_contents (c : gmap Z Z) (st : Memory) : Memory :=
  mkMemory (sections st) (abs_off st) (for_orders st) (used_frames st) (the_zeroed_frame st) c.

(** A [&'static PageInfo] is the index of its section and its index there. *)
Abbreviation InfoRef := (nat * nat)%type (only parsing).

Definition lookup_info (secs : list Section_) (r : InfoRef) : option PageInfo :=
  match secs !! r.1 with
  | Some s => s_frames s !! r.2
  | None => None
  end.

Definition update_info (secs : list Section_) (r : InfoRef) (p : PageInfo) : list Section_ :=
  alter (fun s => mkSection (s_base s) (<[r.2 := p]> (s_frames s))) r.1 secs.

(** Run an operation on the [PageInfo] behind a reference. *)
Definition with_info {A} (r : InfoRef) (m : M PageInfo A) : M Memory A :=
  fun st =>
    match lookup_info (sections st) r with
    | None => Panic
    | Some p =>
        match m p with
        | Done (a, p') => Done (a, set_sections (update_info (sections st) r p') st)
        | Panic => Panic
        end
    end.
Definition load_info (r : InfoRef) : M Memory PageInfo :=
  fun st => match lookup_info (sections st) r with Some p => Done (p, st) | None => Panic end.

(** ** Finding the PageInfo of a frame *)

(** [slice::binary_search_by_key] on a slice sorted by key: [Ok] of the
    matching index, [Err] of the insertion point. *)
Fixpoint partition_point (x : Z) (keys : list Z) : nat :=
  match keys with
  | [] => 0
  | k :: keys' => if k <? x then S (partition_point x keys') else 0
  end.
Definition binary_search (x : Z) (keys : list Z) : result nat nat :=
  let i := partition_point x keys in
  if decide (keys !! i = Some x) then Ok i else Err i.

Definition get_page_info (frame : Frame) : M Memory (option InfoRef) :=
  let! secs := gets sections in
  let idx_res := binary_search frame (s_base <$> secs) in
  match idx_res with
  | Err 0%nat => ret None
  | _ =>
      let idx := match idx_res with Ok i => i | Err e => (e - 1)%nat end in
      let! section := unwrap (secs !! idx) in
      let! off := offset_from frame (s_base section) in
      ret (if off <? Z.of_nat (length (s_frames section))
           then Some (idx, Z.to_nat off) else None)
  end.

Definition get_free_alloc_page_info (frame : Frame) : M Memory InfoRef :=
  let! i := get_page_info frame in
  let! i := unwrap i in
  let! p := load_info i in
  assert_ (as_free p) ;;; ret i.

(** ** Allocation *)

(** [for_orders.iter().enumerate().skip(min).find_map(..)] *)
Fixpoint find_order (i : nat) (min_order : nat) (fo : list (option Frame)) : option (nat * Frame) :=
  match fo with
  | [] => None
  | f :: fo' =>
      match f with
      | Some frame => if (min_order <=? i)%nat then Some (i, frame)
                      else find_order (S i) min_order fo'
      | None => find_order (S i) min_order fo'
      end
  end.

Definition set_order (order : nat) (f : option Frame) : M Memory unit :=
  let! fo := gets for_orders in
  if (order <? length fo)%nat then modify (set_for_orders (<[order := f]> fo)) else panic.

Definition get_order (order : nat) : M Memory (option Frame) :=
  let! fo := gets for_orders in unwrap (fo !! order).

(** [(phys_to_virt(frame) as *mut u8).write_bytes(0, PAGE_SIZE << order)] *)
Fixpoint zero_pages (frame : Frame) (n : nat) (c : gmap Z Z) : gmap Z Z :=
  match n with
  | O => c
  | S n' => delete frame (zero_pages (frame + PAGE_SIZE) n' c)
  end.

(** One iteration of the splitting loop of [allocate_p2frame_complex]. *)
Definition split_order (dbg : bool) (frame : Frame) (frame_order : nat) (order : nat)
  : M Memory unit :=
  let order_page_count := Z.shiftl 1 (Z.of_nat order) in
  let! hi := next_by frame order_page_count in
  let! cur := get_order order in
  debug_assert dbg (bool_decide (cur = None)) ;;;
  let! hi_info := get_page_info hi in
  let! hi_info := unwrap hi_info in
  with_info hi_info (make_free order) ;;;
  debug_assert dbg (negb (is_aligned_to_order hi frame_order)) ;;;
  debug_assert dbg (is_aligned_to_order hi order) ;;;
  with_info hi_info (set_next dbg (p2frame_new None order)) ;;;
  with_info hi_info (set_prev dbg (p2frame_new None order)) ;;;
  set_order order (Some hi).

(** Unlink the head of a free list, whose link word is [next_free]. *)
Definition unlink_head (dbg : bool) (frame : Frame) (frame_order : nat) (next_free : P2Frame)
  : M Memory unit :=
  match p2frame_frame next_free with
  | Some next =>
      let! f := get_free_alloc_page_info next in
      let! fp := load_info f in
      debug_assert dbg (bool_decide (p2frame_frame (free_prev fp) = Some frame)) ;;;
      debug_assert dbg (negb (next =? frame)) ;;;
      debug_assert dbg (is_aligned_to_order next frame_order) ;;;
      with_info f (set_prev dbg (p2frame_new None frame_order))
  | None => ret tt
  end.

Definition allocate_p2frame_complex (dbg : bool) (min_order : nat)
  : M Memory (option (Frame * Z)) :=
  let! fo := gets for_orders in
  match find_order 0 min_order fo with
  | None => ret None
  | Some (frame_order, frame) =>
      let! info := get_page_info frame in
      let! info := unwrap info in
      let! p := load_info info in
      assert_ (as_free p) ;;;
      let next_free := free_next p in
      debug_assert dbg (p2frame_order next_free =? frame_order)%nat ;;;
      unlink_head dbg frame frame_order next_free ;;;
      debug_assert dbg (is_aligned_to_order frame frame_order) ;;;
      debug_assert dbg (p2frame_order next_free =? frame_order)%nat ;;;
      set_order frame_order (p2frame_frame next_free) ;;;
      forM (rev (seq min_order (frame_order - min_order)))
           (split_order dbg frame frame_order) ;;;
      modify (fun st => set_used_frames
        (usize_add (used_frames st) (Z.shiftl 1 (Z.of_nat min_order))) st) ;;;
      with_info info mark_used ;;;
      modify (fun st => set_contents (zero_pages frame (2 ^ min_order) (contents st)) st) ;;;
      let! off := gets abs_off in
      debug_assert dbg (off <=? frame) ;;;
      ret (Some (frame, order_size min_order))
  end.

Definition allocate_p2frame (dbg : bool) (order : nat) : M Memory (option Frame) :=
  let! r := allocate_p2frame_complex dbg order in ret (fst <$> r).

Definition allocate_frame (dbg : bool) : M Memory (option Frame) := allocate_p2frame dbg 0.

(** ** Deallocation *)

(** Remove a free sibling from its list, in the merge loop. *)
Definition unlink_sibling (dbg : bool) (sibling : Frame) (sib_info : InfoRef) (merge_order : nat)
  : M Memory unit :=
  let! p := load_info sib_info in
  (match p2frame_frame (free_prev p) with
   | Some sib_prev =>
       let! i := get_free_alloc_page_info sib_prev in
       with_info i (set_next dbg (free_next p))
   | None =>
       let! head := get_order merge_order in
       debug_assert dbg (bool_decide (head = Some sibling)) ;;;
       debug_assert dbg (match p2frame_frame (free_next p) with
                         | None => true
                         | Some f => is_aligned_to_order f merge_order
                         end) ;;;
       debug_assert dbg (p2frame_order (free_next p) =? merge_order)%nat ;;;
       set_order merge_order (p2frame_frame (free_next p))
   end) ;;;
  match p2frame_frame (free_next p) with
  | Some sib_next =>
      let! i := get_free_alloc_page_info sib_next in
      with_info i (set_prev dbg (free_prev p))
  | None => ret tt
  end.

(** The loop [for merge_order in order..MAX_ORDER]; returns [current] and
    [largest_order] at the [break] or the end. *)
Fixpoint merge_loop (dbg : bool) (orders : list nat) (current : Frame) (largest_order : nat)
  : M Memory (Frame * nat) :=
  match orders with
  | [] => ret (current, largest_order)
  | merge_order :: orders' =>
      let! sibling := containing (Z.lxor current (order_size merge_order)) in
      let! cur_info := get_page_info current in
      let! cur_info := unwrap cur_info in
      let! sib_info := get_page_info sibling in
      match sib_info with
      | None => ret (current, largest_order)
      | Some sib_info =>
          let! p := load_info sib_info in
          if negb (as_free p) then ret (current, largest_order)
          else if (p2frame_order (free_next p) <? merge_order)%nat
          then ret (current, largest_order)
          else
            debug_assert dbg (p2frame_order (free_next p) <=? merge_order)%nat ;;;
            unlink_sibling dbg sibling sib_info merge_order ;;;
            let! current' :=
              containing (Z.land current (usize_not (order_size merge_order))) in
            merge_loop dbg orders' current' (merge_order + 1)%nat
      end
  end.

Definition push_head (dbg : bool) (new_head : Frame) (largest_order : nat) : M Memory unit :=
  let! old := get_order largest_order in
  set_order largest_order (Some new_head) ;;;
  match old with
  | Some old_head =>
      let! old_head_info := get_free_alloc_page_info old_head in
      let! new_head_info := get_free_alloc_page_info new_head in
      with_info new_head_info (set_next dbg (p2frame_new (Some old_head) largest_order)) ;;;
      with_info new_head_info (set_prev dbg (p2frame_new None largest_order)) ;;;
      with_info old_head_info (set_prev dbg (p2frame_new (Some new_head) largest_order))
  | None => ret tt
  end.

Definition deallocate_p2frame (dbg : bool) (orig_frame : Frame) (order : nat) : M Memory unit :=
  let! initial_info := get_page_info orig_frame in
  let! initial_info := unwrap initial_info in
  with_info initial_info (store_refcount 0) ;;;
  let! '(current, largest_order) :=
    merge_loop dbg (seq order (MAX_ORDER - order)) orig_frame order in
  let! info := get_page_info current in
  let! info := unwrap info in
  with_info info (make_free largest_order) ;;;
  debug_assert dbg (is_aligned_to_order current largest_order) ;;;
  push_head dbg current largest_order ;;;
  modify (fun st => set_used_frames
    (usize_sub (used_frames st) (Z.shiftl 1 (Z.of_nat order))) st).

Definition deallocate_frame (dbg : bool) (frame : Frame) : M Memory unit :=
  deallocate_p2frame dbg frame 0.

(** ** Counters *)

Definition used_frames_count : M Memory Z := gets used_frames.
Definition total_frames : M Memory Z :=
  gets (fun st => foldr Z.add 0 ((fun s => Z.of_nat (length (s_frames s))) <$> sections st)).
Definition free_frames : M Memory Z :=
  let! total := total_frames in let! used := used_frames_count in ret (usize_sub total used).

(** ** Initialised frames *)

(** [enum PfError] of src/context/memory.rs *)
Inductive PfError := Segv | Oom | NonfatalInternalError | RecursionLimitExceeded.

Definition init_frame (dbg : bool) (init_rc : RefCount) : M Memory (result PfError Frame) :=
  let! new_frame := allocate_frame dbg in
  let? new_frame := ok_or new_frame Oom in
  let! page_info := get_page_info new_frame in
  let! page_info := unwrap page_info in
  let! p := load_info page_info in
  debug_assert dbg (bool_decide (refcount p = Some RefCount_One)) ;;;
  with_info page_info (store_refcount (to_raw init_rc)) ;;;
  ok new_frame.

(** [init_mm], after [init_sections] *)
Definition init_zeroed_frame (dbg : bool) : M Memory unit :=
  let! the_frame := allocate_frame dbg in
  let! the_frame := unwrap the_frame in
  let! the_info := get_page_info the_frame in
  let! the_info := unwrap the_info in
  with_info the_info (store_refcount (to_raw RefCount_One)) ;;;
  modify (set_zeroed_frame the_frame).

Inductive Enomem := enomem.

(** [RaiiFrame::allocate] and [Drop for RaiiFrame] *)
Definition raii_allocate (dbg : bool) : M Memory (result Enomem Frame) :=
  let! r := init_frame dbg RefCount_One in
  ret (match r with Ok f => Ok f | Err _ => Err enomem end).

Definition raii_drop (dbg : bool) (inner : Frame) : M Memory unit :=
  let! info := get_page_info inner in
  let! info := unwrap info in
  let! rc := with_info info remove_ref in
  match rc with
  | None => deallocate_frame dbg inner
  | Some _ => ret tt
  end.

(** [impl FrameAllocator for TheFrameAllocator]:
    [count.next_power_of_two().trailing_zeros()] *)
Definition count_order (count : Z) : nat := Z.to_nat (Z.log2_up count).

Definition the_allocator_allocate (dbg : bool) (count : Z) : M Memory (option Frame) :=
  allocate_p2frame dbg (count_order count).
Definition the_allocator_free (dbg : bool) (address : Z) (count : Z) : M Memory unit :=
  let! frame := containing address in
  deallocate_p2frame dbg frame (count_order count).
