(* ===== verification/BuddyInvariant.v ===== *)
(** * The buddy allocator's invariant and its steps

    The ghost state of the allocator ([fl], the frames of each free list, and
    [B], the partition of managed memory into blocks), the invariant tying it
    to the concrete state of FrameAllocator.v, and one lemma per elementary
    step of the code: unlinking a block, splitting, marking used, reclaiming,
    merging two buddies, pushing on a free list.  FrameAllocatorSpec.v composes
    them into the theorems about allocation and deallocation. *)

From S2P Require Import Prelude PageInfo FrameAllocator.

(** ** Looking up page infos *)

(** The pure reading of [get_page_info], which never panics. *)
Definition locate (secs : list Section_) (f : Z) : option InfoRef :=
  match binary_search f (s_base <$> secs) with
  | Err 0%nat => None
  | r => let idx := match r with Ok i => i | Err e => (e - 1)%nat end in
         match secs !! idx with
         | Some s => if (f - s_base s) / PAGE_SIZE <? Z.of_nat (length (s_frames s))
                     then Some (idx, Z.to_nat ((f - s_base s) / PAGE_SIZE)) else None
         | None => None
         end
  end.

Lemma partition_point_lt x keys i :
  (i < partition_point x keys)%nat -> exists k, keys !! i = Some k /\ k < x.
Proof.
  revert i. induction keys as [|k keys IH]; simpl; intros i Hi; [lia|].
  destruct (Z.ltb_spec k x); [|lia]. destruct i as [|i]; simpl; [eauto|]. apply IH. lia.
Qed.

Lemma binary_search_base x keys i :
  binary_search x keys = Ok i \/ binary_search x keys = Err (S i) ->
  exists k, keys !! i = Some k /\ k <= x.
Proof.
  unfold binary_search. case_decide as Hd; intros [[= <-]|[= Hi]].
  - exists x. split; [done|lia].
  - destruct (partition_point_lt x keys i) as (k & ? & ?); [lia|]. exists k. split; [done|lia].
Qed.

Lemma get_page_info_eq f st : get_page_info f st = Done (locate (sections st) f, st).
Proof.
  unfold get_page_info, locate, gets, bind.
  destruct (binary_search f (s_base <$> sections st)) as [i|[|e]] eqn:Hb; [|done|].
  - destruct (binary_search_base f (s_base <$> sections st) i) as (k & Hk & Hle); [by left|].
    rewrite list_lookup_fmap in Hk. destruct (sections st !! i) as [s|]; [|done].
    simpl in Hk |- *. simplify_eq. unfold offset_from, checked_sub, bind.
    destruct (Z.leb_spec (s_base s) f); [done|lia].
  - destruct (binary_search_base f (s_base <$> sections st) e) as (k & Hk & Hle); [by right|].
    replace (S e - 1)%nat with e by lia.
    rewrite list_lookup_fmap in Hk. destruct (sections st !! e) as [s|]; [|done].
    simpl in Hk |- *. simplify_eq. unfold offset_from, checked_sub, bind.
    destruct (Z.leb_spec (s_base s) f); [done|lia].
Qed.

Lemma locate_inv secs f r : locate secs f = Some r ->
  exists s p, secs !! r.1 = Some s /\ s_frames s !! r.2 = Some p /\ s_base s <= f /\
            Z.of_nat r.2 = (f - s_base s) / PAGE_SIZE.
Proof.
  unfold locate. intros H.
  assert (exists i, (binary_search f (s_base <$> secs) = Ok i \/
                     binary_search f (s_base <$> secs) = Err (S i)) /\
    match secs !! i with
    | Some s => if (f - s_base s) / PAGE_SIZE <? Z.of_nat (length (s_frames s))
                then Some (i, Z.to_nat ((f - s_base s) / PAGE_SIZE)) else None
    | None => None end = Some r) as (i & Hb & H').
  { destruct (binary_search f (s_base <$> secs)) as [i|[|e]]; [eauto|done|].
    exists e. replace (S e - 1)%nat with e in H by lia. eauto. }
  clear H. destruct (binary_search_base _ _ _ Hb) as (k & Hk & Hle).
  rewrite list_lookup_fmap in Hk. destruct (secs !! i) as [s|] eqn:Hs; [|done].
  simpl in Hk. simplify_eq.
  destruct (Z.ltb_spec ((f - s_base s) / PAGE_SIZE) (Z.of_nat (length (s_frames s)))); [|done].
  simplify_eq. assert (0 <= (f - s_base s) / PAGE_SIZE) by (apply Z.div_pos; unfold PAGE_SIZE; lia).
  destruct (lookup_lt_is_Some_2 (s_frames s) (Z.to_nat ((f - s_base s) / PAGE_SIZE))) as [p Hp]; [lia|].
  exists s, p. simpl. split_and!; try done. lia.
Qed.

Definition pinfo (st : Memory) (f : Z) : option PageInfo :=
  match locate (sections st) f with
  | Some r => lookup_info (sections st) r
  | None => None
  end.

Definition managed (st : Memory) (f : Z) : Prop := is_Some (locate (sections st) f).

Lemma managed_pinfo st f : managed st f <-> is_Some (pinfo st f).
Proof.
  unfold managed, pinfo. destruct (locate (sections st) f) as [r|] eqn:H; [|naive_solver].
  destruct (locate_inv _ _ _ H) as (s & p & Hs & Hp & _). unfold lookup_info.
  rewrite Hs, Hp. split; eauto.
Qed.

(** Overwrite the [PageInfo] of a frame. *)
Definition sinfo (f : Z) (p : PageInfo) (st : Memory) : Memory :=
  match locate (sections st) f with
  | Some r => set_sections (update_info (sections st) r p) st
  | None => st
  end.

Lemma update_info_lookup secs r p i :
  update_info secs r p !! i =
  (fun s => if decide (i = r.1) then mkSection (s_base s) (<[r.2 := p]> (s_frames s)) else s)
    <$> secs !! i.
Proof.
  unfold update_info. case_decide as Hd.
  - subst i. by rewrite list_lookup_alter_eq.
  - rewrite list_lookup_alter_ne by done. by destruct (secs !! i).
Qed.

Lemma update_info_bases secs r p : s_base <$> update_info secs r p = s_base <$> secs.
Proof.
  apply list_eq. intros i. rewrite !list_lookup_fmap, update_info_lookup.
  destruct (secs !! i); simpl; [|done]. by case_decide.
Qed.

Lemma locate_update secs r p f : locate (update_info secs r p) f = locate secs f.
Proof.
  unfold locate. rewrite update_info_bases.
  destruct (binary_search f _) as [i|[|e]]; [|done|];
    rewrite update_info_lookup;
    match goal with |- context [secs !! ?i] => destruct (secs !! i) end;
    simpl; try done; by case_decide; simpl; rewrite ?length_insert.
Qed.

Lemma locate_sinfo f p st g : locate (sections (sinfo f p st)) g = locate (sections st) g.
Proof. unfold sinfo. destruct (locate (sections st) f); [apply locate_update|done]. Qed.

Lemma managed_sinfo f p st g : managed (sinfo f p st) g <-> managed st g.
Proof. unfold managed. by rewrite locate_sinfo. Qed.

(** Section bases are page-aligned, so a reference determines its frame. *)
Definition wf_sections (secs : list Section_) : Prop :=
  forall i s, secs !! i = Some s ->
    s_base s mod PAGE_SIZE = 0 /\ 0 < s_base s /\
    s_base s + Z.of_nat (length (s_frames s)) * PAGE_SIZE <= 2 ^ 63.

Definition aligned (f : Z) : Prop := f mod PAGE_SIZE = 0.

Lemma locate_addr secs f r : wf_sections secs -> aligned f -> locate secs f = Some r ->
  exists s, secs !! r.1 = Some s /\ f = s_base s + Z.of_nat r.2 * PAGE_SIZE /\
            (r.2 < length (s_frames s))%nat.
Proof.
  intros Hwf Hf Hl. destruct (locate_inv _ _ _ Hl) as (s & p & Hs & Hp & Hle & Hr).
  destruct (Hwf _ _ Hs) as (Hb & _). exists s. split; [done|].
  split; [|by eapply lookup_lt_Some].
  unfold aligned, PAGE_SIZE in *. rewrite Hr.
  assert ((f - s_base s) mod 4096 = 0) by (rewrite Zminus_mod, Hf, Hb; done).
  pose proof (Z.div_mod (f - s_base s) 4096). lia.
Qed.

Lemma managed_range st f : wf_sections (sections st) -> aligned f -> managed st f ->
  0 < f /\ f + PAGE_SIZE <= 2 ^ 63.
Proof.
  intros Hwf Hf [r Hr]. destruct (locate_addr _ _ _ Hwf Hf Hr) as (s & Hs & -> & Hlt).
  destruct (Hwf _ _ Hs) as (_ & Hpos & Hle). unfold PAGE_SIZE in *. lia.
Qed.

Lemma locate_inj secs f g r : wf_sections secs -> aligned f -> aligned g ->
  locate secs f = Some r -> locate secs g = Some r -> f = g.
Proof.
  intros Hwf Hf Hg H1 H2.
  destruct (locate_addr _ _ _ Hwf Hf H1) as (s & Hs & -> & _).
  destruct (locate_addr _ _ _ Hwf Hg H2) as (s' & Hs' & -> & _). by simplify_eq.
Qed.

Lemma wf_sections_update secs r p : wf_sections secs -> wf_sections (update_info secs r p).
Proof.
  intros Hwf i s. rewrite update_info_lookup. intros (s' & Hs' & ->)%fmap_Some_1.
  apply Hwf in Hs'. case_decide; simpl; [rewrite length_insert|]; done.
Qed.

Lemma wf_sections_sinfo f p st : wf_sections (sections st) -> wf_sections (sections (sinfo f p st)).
Proof. unfold sinfo. destruct (locate _ _); [apply wf_sections_update|done]. Qed.

Lemma pinfo_sinfo st f p g : wf_sections (sections st) -> aligned f -> aligned g -> managed st f ->
  pinfo (sinfo f p st) g = if decide (g = f) then Some p else pinfo st g.
Proof.
  intros Hwf Hf Hg [r Hr]. unfold pinfo. rewrite locate_sinfo. unfold sinfo. rewrite Hr. simpl.
  destruct (decide (g = f)) as [->|Hd].
  - rewrite Hr. unfold lookup_info. rewrite update_info_lookup.
    destruct (locate_inv _ _ _ Hr) as (s & q & -> & Hq & _). simpl.
    rewrite decide_True by done. simpl. apply list_lookup_insert_eq. by eapply lookup_lt_Some.
  - destruct (locate (sections st) g) as [r'|] eqn:Hr'; [|done].
    unfold lookup_info. rewrite update_info_lookup.
    destruct (sections st !! r'.1) as [s|]; simpl; [|done].
    case_decide as Hi; [|done]. simpl. apply list_lookup_insert_ne.
    intros Hne. apply Hd. symmetry. apply (locate_inj (sections st) f g r); try done.
    rewrite Hr'. f_equal. destruct r, r'; simpl in *; congruence.
Qed.

Lemma with_info_sinfo {A} st f r (m : M PageInfo A) p a p' :
  locate (sections st) f = Some r -> pinfo st f = Some p -> m p = Done (a, p') ->
  with_info r m st = Done (a, sinfo f p' st).
Proof. unfold with_info, pinfo, sinfo. intros -> -> ->. done. Qed.

Lemma load_info_pinfo st f r p :
  locate (sections st) f = Some r -> pinfo st f = Some p -> load_info r st = Done (p, st).
Proof. unfold load_info, pinfo. intros -> ->. done. Qed.

Lemma get_free_alloc_page_info_eq st f p : pinfo st f = Some p -> as_free p = true ->
  exists r, get_free_alloc_page_info f st = Done (r, st) /\ locate (sections st) f = Some r.
Proof.
  intros Hp Hfree. unfold get_free_alloc_page_info, bind. rewrite get_page_info_eq.
  destruct (locate (sections st) f) as [r|] eqn:Hl; [|by unfold pinfo in Hp; rewrite Hl in Hp].
  simpl. rewrite (load_info_pinfo st f r p) by done. rewrite Hfree. eauto.
Qed.

(** ** Ghost state *)

(** A block is free (on a list), used (allocated, its first [PageInfo] has the
    used bit) or pending (in the hands of the allocator in the middle of an
    operation, its [PageInfo]s unconstrained). *)
Inductive tag := TFree | TUsed | TPend.
#[export] Instance tag_eq_dec : EqDecision tag.
Proof. solve_decision. Defined.

Definition upd {A} (o : nat) (x : A) (f : nat -> A) : nat -> A :=
  fun o' => if decide (o' = o) then x else f o'.

Lemma upd_eq {A} o (x : A) f : upd o x f o = x.
Proof. unfold upd. by rewrite decide_True. Qed.
Lemma upd_ne {A} o o' (x : A) f : o' <> o -> upd o x f o' = f o'.
Proof. intros. unfold upd. by rewrite decide_False. Qed.

(** *** Geometry of the partition *)

Definition in_block (f a : Z) (o : nat) : Prop := a <= f < a + order_size o.

Record Geom (mgd : Z -> Prop) (lo : Z) (B : gmap Z (nat * tag)) : Prop := {
  g_order : forall a o t, B !! a = Some (o, t) -> (o < ORDER_COUNT)%nat;
  g_aligned : forall a o t, B !! a = Some (o, t) -> a mod order_size o = 0;
  g_managed : forall a o t f, B !! a = Some (o, t) -> aligned f -> in_block f a o -> mgd f;
  g_low : forall a o t, B !! a = Some (o, t) -> t <> TUsed -> 2 ^ 22 <= a /\ lo <= a;
  g_disjoint : forall a o t b o' t', B !! a = Some (o, t) -> B !! b = Some (o', t') -> a <> b ->
    a + order_size o <= b \/ b + order_size o' <= a;
  g_cover : forall f, aligned f -> mgd f -> exists a o t, B !! a = Some (o, t) /\ in_block f a o
}.

Lemma aligned_order a o : a mod order_size o = 0 -> aligned a.
Proof. intros H. apply (aligned_down a o 0); [lia|done]. Qed.

Lemma aligned_add_order a o o' : (o' <= o)%nat -> a mod order_size o = 0 ->
  (a + order_size o') mod order_size o' = 0.
Proof.
  intros Hle Ha. rewrite Zplus_mod, Z.mod_same by (pose proof (order_size_pos o'); lia).
  rewrite (aligned_down a o o') by done. done.
Qed.

Section geometry.
Context {mgd : Z -> Prop} {lo : Z} {B : gmap Z (nat * tag)} (HG : Geom mgd lo B).

Lemma g_head_managed a o t : B !! a = Some (o, t) -> aligned a /\ mgd a.
Proof.
  intros Ha. pose proof (g_aligned _ _ _ HG _ _ _ Ha) as Hal.
  assert (aligned a) by (by eapply aligned_order). split; [done|].
  eapply (g_managed _ _ _ HG); [done..|]. unfold in_block. pose proof (order_size_pos o). lia.
Qed.

Lemma geom_retag a o t t' : B !! a = Some (o, t) ->
  (t' <> TUsed -> 2 ^ 22 <= a /\ lo <= a) -> Geom mgd lo (<[a := (o, t')]> B).
Proof.
  intros Ha Hlow. split.
  - intros b o' u Hb. destruct (decide (b = a)) as [->|]; simplify_map_eq; by eapply (g_order _ _ _ HG).
  - intros b o' u Hb. destruct (decide (b = a)) as [->|]; simplify_map_eq; by eapply (g_aligned _ _ _ HG).
  - intros b o' u f Hb. destruct (decide (b = a)) as [->|]; simplify_map_eq; by eapply (g_managed _ _ _ HG).
  - intros b o' u Hb. destruct (decide (b = a)) as [->|]; simplify_map_eq; [done|by eapply (g_low _ _ _ HG)].
  - intros b o1 u c o2 v Hb Hc Hne.
    destruct (decide (b = a)) as [->|], (decide (c = a)) as [->|]; simplify_map_eq; try done;
      by eapply (g_disjoint _ _ _ HG).
  - intros f Hf Hm. destruct (g_cover _ _ _ HG f Hf Hm) as (b & o' & u & Hb & Hin).
    destruct (decide (b = a)) as [->|].
    + simplify_eq. exists a, o, t'. by simplify_map_eq.
    + exists b, o', u. by simplify_map_eq.
Qed.

(** Splitting a pending block: both halves are pending. *)
Lemma geom_split a o : B !! a = Some (S o, TPend) ->
  B !! (a + order_size o) = None /\
  Geom mgd lo (<[a := (o, TPend)]> (<[a + order_size o := (o, TPend)]> B)).
Proof.
  intros Ha. pose proof (order_size_pos o) as Hpos. pose proof (order_size_S o) as HS.
  pose proof (g_aligned _ _ _ HG _ _ _ Ha) as Hal.
  destruct (g_low _ _ _ HG _ _ _ Ha) as [Hl1 Hl2]; [done|].
  pose proof (g_order _ _ _ HG _ _ _ Ha) as Hord.
  assert (Hnone : B !! (a + order_size o) = None).
  { apply eq_None_not_Some. intros [[o' t] Hb].
    destruct (g_disjoint _ _ _ HG _ _ _ _ _ _ Ha Hb); pose proof (order_size_pos o'); lia. }
  split; [done|]. set (b := a + order_size o) in *.
  assert (Hsep : forall c o' t, c <> a -> B !! c = Some (o', t) ->
            (a + order_size (S o) <= c \/ c + order_size o' <= a)).
  { intros c o' t Hc Hcb. by eapply (g_disjoint _ _ _ HG). }
  assert (Hcases : forall c o' t,
    (<[a := (o, TPend)]> (<[b := (o, TPend)]> B)) !! c = Some (o', t) ->
    (c = a /\ o' = o /\ t = TPend) \/ (c = b /\ o' = o /\ t = TPend) \/
    (c <> a /\ c <> b /\ B !! c = Some (o', t))).
  { intros c o' t. destruct (decide (c = a)) as [->|]; [|destruct (decide (c = b)) as [->|]];
      intros; simplify_map_eq; naive_solver. }
  split.
  - intros c o' t [(-> & -> & ->)|[(-> & -> & ->)|(_ & _ & Hc)]]%Hcases; [lia|lia|].
    by eapply (g_order _ _ _ HG).
  - intros c o' t [(-> & -> & ->)|[(-> & -> & ->)|(_ & _ & Hc)]]%Hcases.
    + by apply (aligned_down _ (S o)); [lia|].
    + by apply (aligned_add_order _ (S o)); [lia|].
    + by eapply (g_aligned _ _ _ HG).
  - intros c o' t f [(-> & -> & ->)|[(-> & -> & ->)|(_ & _ & Hc)]]%Hcases Hf Hin;
      [eapply (g_managed _ _ _ HG _ _ _ _ Ha)..|eapply (g_managed _ _ _ HG _ _ _ _ Hc)]; try done;
      unfold in_block, b in *; lia.
  - intros c o' t [(-> & -> & ->)|[(-> & -> & ->)|(_ & _ & Hc)]]%Hcases Ht;
      [lia|unfold b; lia|by eapply (g_low _ _ _ HG)].
  - intros c o1 t d o2 u [(-> & -> & ->)|[(-> & -> & ->)|(Hca & Hcb & Hc)]]%Hcases
      [(-> & -> & ->)|[(-> & -> & ->)|(Hda & Hdb & Hd)]]%Hcases Hne; unfold b in *; try lia.
    + specialize (Hsep _ _ _ Hda Hd). lia.
    + specialize (Hsep _ _ _ Hda Hd). lia.
    + specialize (Hsep _ _ _ Hca Hc). lia.
    + specialize (Hsep _ _ _ Hca Hc). lia.
    + by eapply (g_disjoint _ _ _ HG).
  - intros f Hf Hm. destruct (g_cover _ _ _ HG f Hf Hm) as (c & o' & u & Hc & Hin).
    destruct (decide (c = a)) as [->|Hca].
    + simplify_eq. unfold in_block in *. destruct (Z.lt_ge_cases f b).
      * exists a, o, TPend. simplify_map_eq. unfold b in *. split; [done|lia].
      * exists b, o, TPend. rewrite lookup_insert_ne by (unfold b; lia). simplify_map_eq.
        unfold b in *. split; [done|lia].
    + exists c, o', u. assert (c <> b) by congruence. by simplify_map_eq.
Qed.

(** The buddy of a block, if managed, starts a block that is not larger. *)
Lemma geom_buddy a o t : B !! a = Some (o, t) -> 0 <= buddy a o -> mgd (buddy a o) ->
  exists k u, B !! buddy a o = Some (k, u) /\ (k <= o)%nat.
Proof.
  intros Ha Hnn Hm. pose proof (g_aligned _ _ _ HG _ _ _ Ha) as Hal.
  pose proof (buddy_aligned _ _ Hal) as Hbal.
  destruct (g_cover _ _ _ HG (buddy a o)) as (c & k & u & Hc & Hin);
    [by eapply aligned_order|done|].
  pose proof (g_aligned _ _ _ HG _ _ _ Hc) as Hcal. unfold in_block in Hin.
  pose proof (order_size_pos o). pose proof (order_size_pos k).
  assert (Hko : (k <= o)%nat).
  { destruct (decide (k <= o)%nat); [done|exfalso].
    assert (Hs : order_size (S o) <= order_size k).
    { rewrite !order_size_pow. apply Z.pow_le_mono_r; lia. }
    pose proof (aligned_down c k (S o) ltac:(lia) Hcal) as Hc2.
    pose proof (buddy_base_aligned _ _ Hal) as Hb2. rewrite order_size_S in *.
    apply Z.mod_divide in Hc2; [|lia]. apply Z.mod_divide in Hb2; [|lia].
    apply Z.mod_divide in Hcal; [|lia].
    destruct Hc2 as [x Hx], Hb2 as [y Hy], Hcal as [z Hz].
    assert (Hks : exists w, order_size k = w * (2 * order_size o)).
    { exists (2 ^ (Z.of_nat k - Z.of_nat o - 1)). rewrite !order_size_pow.
      rewrite <- (Z.pow_succ_r 2) by lia. rewrite <- Z.pow_add_r by lia. f_equal. lia. }
    destruct Hks as [w Hw].
    assert (Hin2 : c <= buddy_base a o /\ buddy_base a o + 2 * order_size o <= c + order_size k).
    { assert (x <= y < x + w) by (destruct (buddy_halves a o) as [[E1 E2]|[E1 E2]]; nia).
      rewrite Hy, Hx, Hw. nia. }
    destruct (decide (c = a)) as [->|Hca].
    - rewrite Ha in Hc. simplify_eq. lia.
    - destruct (g_disjoint _ _ _ HG _ _ _ _ _ _ Ha Hc ltac:(done));
        destruct (buddy_halves a o) as [[E1 E2]|[E1 E2]]; lia. }
  exists k, u. split; [|done].
  assert (buddy a o = c) as ->; [|done].
  pose proof (aligned_down _ _ _ Hko Hbal) as Hbk.
  apply Z.mod_divide in Hbk; [|lia]. apply Z.mod_divide in Hcal; [|lia].
  destruct Hbk as [x Hx], Hcal as [y Hy]. rewrite Hx, Hy in Hin |- *.
  clear - Hin H0. assert (x = y) by nia. by subst.
Qed.

(** Merging a pending block with its pending buddy. *)
Lemma geom_merge a o : B !! a = Some (o, TPend) -> B !! buddy a o = Some (o, TPend) ->
  (S o < ORDER_COUNT)%nat ->
  Geom mgd lo (<[buddy_base a o := (S o, TPend)]> (delete a (delete (buddy a o) B))).
Proof.
  intros Ha Hb Hord. pose proof (order_size_pos o) as Hpos. pose proof (order_size_S o) as HS.
  pose proof (g_aligned _ _ _ HG _ _ _ Ha) as Hal.
  destruct (g_low _ _ _ HG _ _ _ Ha) as [Hl1 Hl2]; [done|].
  destruct (g_low _ _ _ HG _ _ _ Hb) as [Hl3 Hl4]; [done|].
  pose proof (buddy_halves a o) as Hh. pose proof (buddy_base_aligned _ _ Hal) as Hba.
  set (b := buddy a o) in *. set (m := buddy_base a o) in *.
  assert (Hcases : forall c o' t,
    (<[m := (S o, TPend)]> (delete a (delete b B))) !! c = Some (o', t) ->
    (c = m /\ o' = S o /\ t = TPend) \/ (c <> a /\ c <> b /\ c <> m /\ B !! c = Some (o', t))).
  { intros c o' t. destruct (decide (c = m)) as [->|]; [intros; simplify_map_eq; naive_solver|].
    rewrite lookup_insert_ne by done. intros [? [? ?]%lookup_delete_Some]%lookup_delete_Some.
    naive_solver. }
  assert (Hsep : forall c o' t, c <> a -> c <> b -> B !! c = Some (o', t) ->
            (m + order_size (S o) <= c \/ c + order_size o' <= m)).
  { intros c o' t Hca Hcb Hc. pose proof (order_size_pos o').
    destruct (g_disjoint _ _ _ HG _ _ _ _ _ _ Ha Hc ltac:(done)),
      (g_disjoint _ _ _ HG _ _ _ _ _ _ Hb Hc ltac:(done)); lia. }
  split.
  - intros c o' t [(-> & -> & ->)|(_ & _ & _ & Hc)]%Hcases; [lia|by eapply (g_order _ _ _ HG)].
  - intros c o' t [(-> & -> & ->)|(_ & _ & _ & Hc)]%Hcases; [done|by eapply (g_aligned _ _ _ HG)].
  - intros c o' t f [(-> & -> & ->)|(_ & _ & _ & Hc)]%Hcases Hf Hin;
      [|by eapply (g_managed _ _ _ HG)]. unfold in_block in Hin.
    destruct (decide (a <= f < a + order_size o));
      [by eapply (g_managed _ _ _ HG _ _ _ _ Ha)|eapply (g_managed _ _ _ HG _ _ _ _ Hb)]; [done|].
    unfold in_block. lia.
  - intros c o' t [(-> & -> & ->)|(_ & _ & _ & Hc)]%Hcases Ht; [lia|by eapply (g_low _ _ _ HG)].
  - intros c o1 t d o2 u [(-> & -> & ->)|(Hca & Hcb & Hcm & Hc)]%Hcases
      [(-> & -> & ->)|(Hda & Hdb & Hdm & Hd)]%Hcases Hne; [done|..].
    + by eapply Hsep.
    + destruct (Hsep _ _ _ Hca Hcb Hc); lia.
    + by eapply (g_disjoint _ _ _ HG).
  - intros f Hf Hm. destruct (g_cover _ _ _ HG f Hf Hm) as (c & o' & u & Hc & Hin).
    destruct (decide (c = a \/ c = b)) as [Hd|Hd].
    + exists m, (S o), TPend. simplify_map_eq. split; [done|]. unfold in_block in *.
      destruct Hd; simplify_eq; lia.
    + exists c, o', u. split; [|done].
      assert (c <> m) by (intros ->; destruct Hh; lia || (apply Hd; naive_solver lia)).
      rewrite lookup_insert_ne, !lookup_delete_ne by naive_solver. done.
Qed.
End geometry.

(** ** The free lists *)

(** [opt_or o d]: [o], or [d] when [o] is [None]. *)
Definition opt_or {A} (o d : option A) : option A := match o with Some _ => o | None => d end.

(** A doubly linked segment of order [o]: [prev] precedes its first frame and
    [nxt] follows its last one. *)
Fixpoint dseg (P : Z -> option PageInfo) (o : nat) (prev : option Z) (l : list Z) (nxt : option Z)
  : Prop :=
  match l with
  | [] => True
  | a :: l' =>
      P a = Some (mkPageInfo (p2frame_new prev o) (p2frame_new (opt_or (head l') nxt) o))
      /\ dseg P o (Some a) l' nxt
  end.

Lemma dseg_app P o prev l1 l2 nxt :
  dseg P o prev (l1 ++ l2) nxt <->
  dseg P o prev l1 (opt_or (head l2) nxt) /\ dseg P o (opt_or (last l1) prev) l2 nxt.
Proof.
  revert prev. induction l1 as [|a l1 IH]; intros prev; simpl dseg; [simpl; naive_solver|].
  change ((a :: l1) ++ l2) with (a :: (l1 ++ l2)). simpl dseg. rewrite IH.
  replace (opt_or (head (l1 ++ l2)) nxt) with (opt_or (head l1) (opt_or (head l2) nxt))
    by (by destruct l1).
  replace (opt_or (last (a :: l1)) prev) with (opt_or (last l1) (Some a)); [naive_solver|].
  rewrite last_cons. by destruct (last l1).
Qed.

Lemma dseg_ext P P' o prev l nxt :
  (forall x, x ∈ l -> P' x = P x) -> dseg P o prev l nxt -> dseg P' o prev l nxt.
Proof.
  revert prev. induction l as [|a l IH]; intros prev Hext; [done|]. intros [Ha Hl].
  split; [rewrite Hext by set_solver; done|]. apply IH; [set_solver|done].
Qed.

Lemma dseg_change_prev P P' o p0 p1 l nxt : NoDup l ->
  (forall x, x ∈ l -> Some x <> head l -> P' x = P x) ->
  (forall y p, head l = Some y -> P y = Some p -> P' y = Some (mkPageInfo (p2frame_new p1 o) (pi_next p))) ->
  dseg P o p0 l nxt -> dseg P' o p1 l nxt.
Proof.
  destruct l as [|a l]; [done|]. intros [Ha Hnd]%NoDup_cons Hext Hhd [Hp Hl].
  split; [exact (Hhd a _ eq_refl Hp)|]. apply (dseg_ext P); [|done].
  intros x Hx. apply Hext; [set_solver|]. simpl. congruence.
Qed.

Lemma dseg_change_next P P' o prev l n0 n1 : NoDup l ->
  (forall x, x ∈ l -> Some x <> last l -> P' x = P x) ->
  (forall x p, last l = Some x -> P x = Some p -> P' x = Some (mkPageInfo (pi_refcount p) (p2frame_new n1 o))) ->
  dseg P o prev l n0 -> dseg P' o prev l n1.
Proof.
  revert prev. induction l as [|a l IH]; intros prev; [done|].
  intros [Ha Hnd]%NoDup_cons Hext Hlast [Hp Hl]. destruct l as [|b l].
  - split; [|done]. exact (Hlast a _ eq_refl Hp).
  - change (last (a :: b :: l)) with (last (b :: l)) in *. split.
    + simpl opt_or in *. rewrite Hext; [done|set_solver|].
      intros Heq. symmetry in Heq. apply last_Some_elem_of in Heq. done.
    + apply IH; [done| |done|done]. intros x Hx. apply Hext. set_solver.
Qed.

Lemma dseg_lookup P o prev l nxt a : dseg P o prev l nxt -> a ∈ l ->
  exists l1 l2, l = l1 ++ a :: l2 /\
    P a = Some (mkPageInfo (p2frame_new (opt_or (last l1) prev) o)
                           (p2frame_new (opt_or (head l2) nxt) o)).
Proof.
  intros Hd (l1 & l2 & ->)%list_elem_of_split. exists l1, l2. split; [done|].
  apply dseg_app in Hd as [_ [Ha _]]. done.
Qed.

Lemma dseg_unlink P P' o l1 a l2 : NoDup (l1 ++ a :: l2) ->
  dseg P o None (l1 ++ a :: l2) None ->
  (forall x, x ∈ l1 ++ l2 -> Some x <> last l1 -> Some x <> head l2 -> P' x = P x) ->
  (forall x p, last l1 = Some x -> P x = Some p ->
     P' x = Some (mkPageInfo (pi_refcount p) (p2frame_new (head l2) o))) ->
  (forall y p, head l2 = Some y -> P y = Some p ->
     P' y = Some (mkPageInfo (p2frame_new (last l1) o) (pi_next p))) ->
  dseg P' o None (l1 ++ l2) None.
Proof.
  intros (Hnd1 & Hdis & [Ha Hnd2]%NoDup_cons)%NoDup_app Hd Hext Hlast Hhead.
  apply dseg_app in Hd as [H1 [_ H2]]. apply dseg_app.
  assert (Hopt : forall q : option Z, opt_or q None = q) by (by intros []).
  rewrite !Hopt in *. split.
  - eapply dseg_change_next; [done| |exact Hlast|done].
    intros x Hx Hne. apply Hext; [set_solver|done|]. intros Heq. apply (Hdis x Hx).
    apply list_elem_of_further. by apply head_Some_elem_of.
  - eapply dseg_change_prev; [done| |exact Hhead|done].
    intros x Hx Hne. apply Hext; [set_solver| |done]. intros Heq. symmetry in Heq.
    apply last_Some_elem_of in Heq. apply (Hdis x); [done|set_solver].
Qed.

(** ** The invariant *)

Record Links (st : Memory) (fl : nat -> list Z) (B : gmap Z (nat * tag)) : Prop := {
  l_len : length (for_orders st) = ORDER_COUNT;
  l_head : forall o, (o < ORDER_COUNT)%nat -> for_orders st !! o = Some (head (fl o));
  l_list : forall o, (o < ORDER_COUNT)%nat -> dseg (pinfo st) o None (fl o) None;
  l_fl : forall o a, a ∈ fl o <-> B !! a = Some (o, TFree);
  l_nodup : forall o, NoDup (fl o);
  l_used : forall a o, B !! a = Some (o, TUsed) -> exists p, pinfo st a = Some p /\ as_free p = false
}.

Record Inv (st : Memory) (fl : nat -> list Z) (B : gmap Z (nat * tag)) : Prop := {
  i_wf : wf_sections (sections st);
  i_geom : Geom (managed st) (abs_off st) B;
  i_links : Links st fl B
}.

(** [st'] differs from [st] at most in the words of page infos and in the
    free-list heads. *)
Record same_layout (st st' : Memory) : Prop := {
  sl_wf : wf_sections (sections st) -> wf_sections (sections st');
  sl_locate : forall f, locate (sections st') f = locate (sections st) f;
  sl_off : abs_off st' = abs_off st;
  sl_used : used_frames st' = used_frames st;
  sl_zeroed : the_zeroed_frame st' = the_zeroed_frame st;
  sl_contents : contents st' = contents st
}.

Lemma same_layout_refl st : same_layout st st.
Proof. done. Qed.
Lemma same_layout_trans st1 st2 st3 :
  same_layout st1 st2 -> same_layout st2 st3 -> same_layout st1 st3.
Proof. intros [] []. split; [auto|congruence..]. Qed.
Lemma same_layout_sinfo f p st : same_layout st (sinfo f p st).
Proof.
  split; [apply wf_sections_sinfo|apply locate_sinfo|..];
    unfold sinfo; by destruct (locate _ _).
Qed.
Lemma same_layout_set_for_orders fo st : same_layout st (set_for_orders fo st).
Proof. done. Qed.
Create HintDb layout.
#[export] Hint Resolve same_layout_refl same_layout_sinfo same_layout_set_for_orders : layout.

Lemma same_layout_managed st st' f : same_layout st st' -> managed st' f <-> managed st f.
Proof. intros H. unfold managed. by rewrite (sl_locate _ _ H). Qed.

Lemma Geom_layout st st' B : same_layout st st' -> Geom (managed st) (abs_off st) B ->
  Geom (managed st') (abs_off st') B.
Proof.
  intros HL HG. rewrite (sl_off _ _ HL).
  split; try apply HG; intros; [|apply (g_cover _ _ _ HG); [done|]];
    [rewrite same_layout_managed by done; by eapply (g_managed _ _ _ HG)|].
  by rewrite <- same_layout_managed.
Qed.

(** ** Steps *)

Lemma Links_blocks st fl B B' :
  (forall x o, B' !! x = Some (o, TFree) <-> B !! x = Some (o, TFree)) ->
  (forall x o, B' !! x = Some (o, TUsed) -> B !! x = Some (o, TUsed)) ->
  Links st fl B -> Links st fl B'.
Proof.
  intros Hf Hu HL. split; try apply HL.
  - intros o a. rewrite Hf. apply HL.
  - intros a o Ha. eapply (l_used _ _ _ HL), Hu, Ha.
Qed.

Lemma free_block_info st fl B o a : Inv st fl B -> B !! a = Some (o, TFree) ->
  exists l1 l2, fl o = l1 ++ a :: l2 /\
    pinfo st a = Some (mkPageInfo (p2frame_new (last l1) o) (p2frame_new (head l2) o)).
Proof.
  intros [_ HG HL] Ha. pose proof (g_order _ _ _ HG _ _ _ Ha) as Ho.
  apply (l_fl _ _ _ HL) in Ha.
  destruct (dseg_lookup _ _ _ _ _ _ (l_list _ _ _ HL o Ho) Ha) as (l1 & l2 & Hl & Hp).
  exists l1, l2. split; [done|]. rewrite Hp. by destruct (last l1), (head l2).
Qed.

Lemma block_packable st fl B o t a : Inv st fl B -> B !! a = Some (o, t) ->
  packable (Some a) o /\ 0 < a < 2 ^ 63.
Proof.
  intros [Hwf HG HL] Ha. destruct (g_head_managed HG _ _ _ Ha) as [Hal Hm].
  destruct (managed_range _ _ Hwf Hal Hm). pose proof (g_order _ _ _ HG _ _ _ Ha).
  unfold PAGE_SIZE, ORDER_COUNT in *. unfold packable. split_and!; try lia. done.
Qed.

Lemma packable_None o : (o < ORDER_COUNT)%nat -> packable None o.
Proof. unfold packable, ORDER_COUNT. lia. Qed.

Lemma list_packable st fl B o x : Inv st fl B -> (o < ORDER_COUNT)%nat ->
  (forall a, x = Some a -> a ∈ fl o) -> packable x o.
Proof.
  intros HI Ho Hx. destruct x as [a|]; [|by apply packable_None].
  eapply block_packable; [done|]. apply (l_fl _ _ _ (i_links _ _ _ HI)). by apply Hx.
Qed.

Lemma list_aligned st fl B o x a : Inv st fl B -> (forall a, x = Some a -> a ∈ fl o) -> x = Some a ->
  a mod order_size o = 0.
Proof.
  intros HI Hx Ha. apply Hx in Ha. apply (l_fl _ _ _ (i_links _ _ _ HI)) in Ha.
  by eapply (g_aligned _ _ _ (i_geom _ _ _ HI)).
Qed.

(** A free block is readable as free, with its order in both words. *)
Lemma free_block_read st fl B o a p : Inv st fl B -> B !! a = Some (o, TFree) -> pinfo st a = Some p ->
  as_free p = true /\ p2frame_order (free_next p) = o.
Proof.
  intros HI Ha Hp. destruct (free_block_info _ _ _ _ _ HI Ha) as (l1 & l2 & Hl & Hp').
  rewrite Hp in Hp'. simplify_eq. pose proof (g_order _ _ _ (i_geom _ _ _ HI) _ _ _ Ha) as Ho.
  assert (packable (last l1) o).
  { eapply list_packable; [done..|]. intros b Hb. apply last_Some_elem_of in Hb. rewrite Hl. set_solver. }
  assert (packable (head l2) o).
  { eapply list_packable; [done..|]. intros b Hb. apply head_Some_elem_of in Hb. rewrite Hl. set_solver. }
  split; [by apply as_free_packed|]. by apply p2frame_order_new.
Qed.

(** Writing the [PageInfo] of a frame that does not start a free block. *)
Lemma inv_touch st fl B f p : Inv st fl B -> aligned f -> managed st f ->
  (forall o, B !! f <> Some (o, TFree)) ->
  (forall o, B !! f = Some (o, TUsed) -> as_free p = false) ->
  Inv (sinfo f p st) fl B.
Proof.
  intros [Hwf HG HL] Hf Hm Hnf Hu.
  split; [by apply wf_sections_sinfo|by eapply Geom_layout; [apply same_layout_sinfo|]|].
  assert (Hfo : for_orders (sinfo f p st) = for_orders st) by (unfold sinfo; by destruct (locate _ _)).
  split; rewrite ?Hfo; try apply HL.
  - intros o Ho. eapply dseg_ext; [|by apply HL]. intros x Hx. apply (l_fl _ _ _ HL) in Hx.
    destruct (g_head_managed HG _ _ _ Hx) as [Hxa _].
    rewrite pinfo_sinfo by done. case_decide as Hd; [|done]. subst x. by apply Hnf in Hx.
  - intros a o Ha. destruct (g_head_managed HG _ _ _ Ha) as [Hal _].
    rewrite pinfo_sinfo by done. case_decide as Hd; [subst a; eauto|by eapply (l_used _ _ _ HL)].
Qed.

Lemma inv_retag st fl B a o t t' : Inv st fl B -> B !! a = Some (o, t) ->
  t <> TFree -> t' <> TFree ->
  (t' <> TUsed -> 2 ^ 22 <= a /\ abs_off st <= a) ->
  (t' = TUsed -> exists p, pinfo st a = Some p /\ as_free p = false) ->
  Inv st fl (<[a := (o, t')]> B).
Proof.
  intros [Hwf HG HL] Ha Ht Ht' Hlow Hu. split; [done|by eapply geom_retag|].
  split; try apply HL.
  - intros o' x. rewrite (l_fl _ _ _ HL). destruct (decide (x = a)) as [->|].
    + rewrite Ha. rewrite lookup_insert_eq. naive_solver.
    + by rewrite lookup_insert_ne.
  - intros x o'. destruct (decide (x = a)) as [->|].
    + rewrite lookup_insert_eq. naive_solver.
    + rewrite lookup_insert_ne by done. apply HL.
Qed.

(** Removing a block from its free list. *)
Lemma inv_unlink st st' fl B o l1 a l2 : Inv st fl B -> same_layout st st' ->
  (o < ORDER_COUNT)%nat -> fl o = l1 ++ a :: l2 ->
  for_orders st' = (match l1 with [] => <[o := head l2]> (for_orders st) | _ => for_orders st end) ->
  (forall x, aligned x -> Some x <> last l1 -> Some x <> head l2 -> pinfo st' x = pinfo st x) ->
  (forall x p, last l1 = Some x -> pinfo st x = Some p ->
     pinfo st' x = Some (mkPageInfo (pi_refcount p) (p2frame_new (head l2) o))) ->
  (forall y p, head l2 = Some y -> pinfo st y = Some p ->
     pinfo st' y = Some (mkPageInfo (p2frame_new (last l1) o) (pi_next p))) ->
  Inv st' (upd o (l1 ++ l2) fl) (<[a := (o, TPend)]> B).
Proof.
  intros [Hwf HG HL] Hlay Ho Hl Hfo Hext Hlast Hhead.
  assert (Ha : B !! a = Some (o, TFree)) by (apply (l_fl _ _ _ HL); rewrite Hl; set_solver).
  assert (Hin : forall x, Some x = last l1 \/ Some x = head l2 -> x ∈ fl o).
  { intros x [Hx|Hx]; symmetry in Hx; [apply last_Some_elem_of in Hx|apply head_Some_elem_of in Hx];
      rewrite Hl; set_solver. }
  assert (Hout : forall x t o', B !! x = Some (o', t) -> (t <> TFree \/ o' <> o) -> pinfo st' x = pinfo st x).
  { intros x t o' Hx Hd. destruct (g_head_managed HG _ _ _ Hx) as [Hxa _].
    apply Hext; [done|..]; intros Heq; specialize (Hin x); apply (l_fl _ _ _ HL) in Hin; auto; naive_solver. }
  pose proof (l_nodup _ _ _ HL o) as Hnd. rewrite Hl in Hnd.
  split; [by apply (sl_wf _ _ Hlay)| |].
  - eapply geom_retag; [by eapply Geom_layout|done|]. intros _.
    rewrite (sl_off _ _ Hlay). by eapply (g_low _ _ _ HG).
  - split.
    + rewrite Hfo. destruct l1; [rewrite length_insert|]; apply HL.
    + intros o' Ho'. rewrite Hfo. destruct (decide (o' = o)) as [->|].
      * rewrite upd_eq. destruct l1; [|rewrite (l_head _ _ _ HL) by done; by rewrite Hl].
        apply list_lookup_insert_eq. by rewrite (l_len _ _ _ HL).
      * rewrite upd_ne by done. destruct l1; [rewrite list_lookup_insert_ne by done|]; by apply HL.
    + intros o' Ho'. pose proof (l_list _ _ _ HL o' Ho') as Hd. destruct (decide (o' = o)) as [->|].
      * rewrite upd_eq. rewrite Hl in Hd. eapply dseg_unlink; [done..| |exact Hlast|exact Hhead].
        intros x Hx. apply Hext. assert (Hxo : x ∈ fl o) by (rewrite Hl; set_solver).
        apply (l_fl _ _ _ HL) in Hxo. by destruct (g_head_managed HG _ _ _ Hxo).
      * rewrite upd_ne by done. eapply dseg_ext; [|done]. intros x Hx%(l_fl _ _ _ HL). eauto.
    + intros o' x. destruct (decide (o' = o)) as [->|].
      * rewrite upd_eq. destruct (decide (x = a)) as [->|Hxa].
        -- rewrite lookup_insert_eq. apply NoDup_app in Hnd as (_ & Hd1 & [Hd2 _]%NoDup_cons).
           split; [|done]. intros [Hx|Hx]%elem_of_app; [|done]. specialize (Hd1 a Hx). set_solver.
        -- rewrite lookup_insert_ne by done. rewrite <- (l_fl _ _ _ HL), Hl. set_solver.
      * rewrite upd_ne by done. rewrite (l_fl _ _ _ HL). destruct (decide (x = a)) as [->|];
          [rewrite lookup_insert_eq, Ha|rewrite lookup_insert_ne by done]; naive_solver.
    + intros o'. destruct (decide (o' = o)) as [->|]; [|rewrite upd_ne by done; apply HL].
      rewrite upd_eq. apply NoDup_app in Hnd as (? & Hd1 & [Hd2 ?]%NoDup_cons).
      apply NoDup_app. split_and!; [done| |done]. intros x Hx Hx2. apply (Hd1 x Hx). set_solver.
    + intros x o'. destruct (decide (x = a)) as [->|]; [by rewrite lookup_insert_eq|].
      rewrite lookup_insert_ne by done. intros Hx. rewrite (Hout _ _ _ Hx) by naive_solver.
      by eapply (l_used _ _ _ HL).
Qed.

(** Putting a pending block at the head of a free list. *)
Lemma inv_push st st' fl B o a : Inv st fl B -> same_layout st st' ->
  B !! a = Some (o, TPend) ->
  for_orders st' = <[o := Some a]> (for_orders st) ->
  (forall x, aligned x -> x <> a -> Some x <> head (fl o) -> pinfo st' x = pinfo st x) ->
  pinfo st' a = Some (mkPageInfo (p2frame_new None o) (p2frame_new (head (fl o)) o)) ->
  (forall y p, head (fl o) = Some y -> pinfo st y = Some p ->
     pinfo st' y = Some (mkPageInfo (p2frame_new (Some a) o) (pi_next p))) ->
  Inv st' (upd o (a :: fl o) fl) (<[a := (o, TFree)]> B).
Proof.
  intros [Hwf HG HL] Hlay Ha Hfo Hext Hpa Hhead.
  pose proof (g_order _ _ _ HG _ _ _ Ha) as Ho.
  assert (Hnin : forall o', a ∉ fl o') by (intros o' Hin%(l_fl _ _ _ HL); congruence).
  assert (Hout : forall x t o', B !! x = Some (o', t) -> x <> a -> (t <> TFree \/ o' <> o) ->
            pinfo st' x = pinfo st x).
  { intros x t o' Hx Hxa Hd. destruct (g_head_managed HG _ _ _ Hx) as [Hal _].
    apply Hext; [done..|]. intros Heq. symmetry in Heq. apply head_Some_elem_of in Heq.
    apply (l_fl _ _ _ HL) in Heq. naive_solver. }
  split; [by apply (sl_wf _ _ Hlay)| |].
  - eapply geom_retag; [by eapply Geom_layout|done|]. intros _.
    rewrite (sl_off _ _ Hlay). by eapply (g_low _ _ _ HG).
  - split.
    + rewrite Hfo, length_insert. apply HL.
    + intros o' Ho'. rewrite Hfo. destruct (decide (o' = o)) as [->|].
      * rewrite upd_eq. apply list_lookup_insert_eq. by rewrite (l_len _ _ _ HL).
      * rewrite upd_ne by done. rewrite list_lookup_insert_ne by done. by apply HL.
    + intros o' Ho'. pose proof (l_list _ _ _ HL o' Ho') as Hd. destruct (decide (o' = o)) as [->|].
      * rewrite upd_eq. split; [rewrite Hpa; by destruct (head (fl o))|].
        eapply dseg_change_prev; [apply HL| |exact Hhead|exact Hd].
        intros x Hx Hne. apply Hext; [|set_solver|done]. apply (l_fl _ _ _ HL) in Hx.
        by destruct (g_head_managed HG _ _ _ Hx).
      * rewrite upd_ne by done. eapply dseg_ext; [|done]. intros x Hx%(l_fl _ _ _ HL).
        apply (Hout _ _ _ Hx); [congruence|by right].
    + intros o' x. destruct (decide (o' = o)) as [->|].
      * rewrite upd_eq, elem_of_cons, (l_fl _ _ _ HL).
        destruct (decide (x = a)) as [->|]; [rewrite lookup_insert_eq|rewrite lookup_insert_ne by done]; naive_solver.
      * rewrite upd_ne by done. rewrite (l_fl _ _ _ HL). destruct (decide (x = a)) as [->|];
          [rewrite lookup_insert_eq, Ha|rewrite lookup_insert_ne by done]; naive_solver.
    + intros o'. destruct (decide (o' = o)) as [->|]; [|rewrite upd_ne by done; apply HL].
      rewrite upd_eq. apply NoDup_cons. split; [done|apply HL].
    + intros x o'. destruct (decide (x = a)) as [->|]; [by rewrite lookup_insert_eq|].
      rewrite lookup_insert_ne by done. intros Hx. rewrite (Hout _ _ _ Hx) by naive_solver.
      by eapply (l_used _ _ _ HL).
Qed.

(** Ghost steps: splitting and merging pending blocks. *)
Lemma inv_split st fl B o a : Inv st fl B -> B !! a = Some (S o, TPend) ->
  Inv st fl (<[a := (o, TPend)]> (<[a + order_size o := (o, TPend)]> B)).
Proof.
  intros [Hwf HG HL] Ha. destruct (geom_split HG _ _ Ha) as [Hn HG']. split; [done..|].
  eapply Links_blocks; [| |done]; intros x o';
    (destruct (decide (x = a)) as [->|]; [|rewrite lookup_insert_ne by done;
      destruct (decide (x = a + order_size o)) as [->|]; [|by rewrite lookup_insert_ne by done]]);
    rewrite lookup_insert_eq; naive_solver.
Qed.

Lemma inv_merge st fl B o a : Inv st fl B -> B !! a = Some (o, TPend) ->
  B !! buddy a o = Some (o, TPend) -> (S o < ORDER_COUNT)%nat ->
  Inv st fl (<[buddy_base a o := (S o, TPend)]> (delete a (delete (buddy a o) B))).
Proof.
  intros [Hwf HG HL] Ha Hb Ho. split; [done|by apply (geom_merge HG)|].
  assert (Hm : buddy_base a o = a \/ buddy_base a o = buddy a o)
    by (destruct (buddy_halves a o); naive_solver).
  assert (Hmb : B !! buddy_base a o = Some (o, TPend)) by (by destruct Hm as [-> | ->]).
  eapply Links_blocks; [| |done]; intros x o';
    (destruct (decide (x = buddy_base a o)) as [->|];
       [rewrite lookup_insert_eq, ?Hmb|
        rewrite lookup_insert_ne by done; rewrite !lookup_delete_Some]); naive_solver congruence.
Qed.
