(* ===== verification/FrameAllocatorSpec.v ===== *)
(** * Correctness of allocation and deallocation

    The specification of the frame allocator as an abstract heap ([heap st U n]:
    [U] maps every used block to its order, [n] pages are free) and the
    theorems that [allocate_p2frame] and [deallocate_p2frame] of
    FrameAllocator.v implement it, in debug and in release builds. *)

From S2P Require Import Prelude PageInfo FrameAllocator BuddyInvariant.

(** ** Pages on the free lists *)

Definition free_pages (fl : nat -> list Z) : Z :=
  foldr (fun o acc => 2 ^ Z.of_nat o * Z.of_nat (length (fl o)) + acc) 0 (seq 0 ORDER_COUNT).

Lemma free_pages_upd_list (fl : nat -> list Z) o (l : list Z) (orders : list nat) : NoDup orders ->
  foldr (fun o' acc => 2 ^ Z.of_nat o' * Z.of_nat (length (upd o l fl o')) + acc) 0 orders =
  foldr (fun o' acc => 2 ^ Z.of_nat o' * Z.of_nat (length (fl o')) + acc) 0 orders +
  (if decide (o ∈ orders)
   then 2 ^ Z.of_nat o * (Z.of_nat (length l) - Z.of_nat (length (fl o))) else 0).
Proof.
  induction orders as [|x orders IH]; [done|]. intros [Hx Hnd]%NoDup_cons.
  cbn [foldr]. rewrite IH by done. destruct (decide (x = o)) as [->|Hne].
  - rewrite upd_eq, decide_False, decide_True by set_solver. lia.
  - rewrite upd_ne by done. destruct (decide (o ∈ orders)).
    + rewrite decide_True by set_solver. lia.
    + rewrite decide_False by set_solver. lia.
Qed.

Lemma free_pages_upd fl o (l : list Z) : (o < ORDER_COUNT)%nat ->
  free_pages (upd o l fl) =
  free_pages fl + 2 ^ Z.of_nat o * (Z.of_nat (length l) - Z.of_nat (length (fl o))).
Proof.
  intros Ho. unfold free_pages. rewrite free_pages_upd_list by apply NoDup_seq.
  rewrite decide_True; [done|]. apply elem_of_seq. lia.
Qed.

(** ** Frame conditions *)

(** No page info inside a used block of [B] changes. *)
Definition pres (B : gmap Z (nat * tag)) (st st' : Memory) : Prop :=
  forall a o x, B !! a = Some (o, TUsed) -> aligned x -> in_block x a o -> pinfo st' x = pinfo st x.

Definition used_same (B B' : gmap Z (nat * tag)) : Prop :=
  forall a o, B' !! a = Some (o, TUsed) <-> B !! a = Some (o, TUsed).

Definition pend_only (B : gmap Z (nat * tag)) (a : Z) : Prop :=
  forall b o, B !! b = Some (o, TPend) -> b = a.

Lemma pres_refl B st : pres B st st.
Proof. done. Qed.

Lemma pres_trans B B' st1 st2 st3 : used_same B B' ->
  pres B st1 st2 -> pres B' st2 st3 -> pres B st1 st3.
Proof. intros Hu H1 H2 a o x Ha Hx Hin. rewrite (H2 a o x), (H1 a o x); try done. by apply Hu. Qed.

Lemma used_same_refl B : used_same B B.
Proof. done. Qed.
Lemma used_same_trans B1 B2 B3 : used_same B1 B2 -> used_same B2 B3 -> used_same B1 B3.
Proof. intros H1 H2 a o. etrans; [apply H2|apply H1]. Qed.

Lemma used_same_retag B a o t o' t' : B !! a = Some (o, t) -> t <> TUsed -> t' <> TUsed ->
  used_same B (<[a := (o', t')]> B).
Proof.
  intros Ha Ht Ht' b k. destruct (decide (b = a)) as [->|];
    [rewrite lookup_insert_eq, Ha|rewrite lookup_insert_ne by done]; naive_solver.
Qed.

Lemma pres_sinfo st fl B b k t f p : Inv st fl B -> B !! b = Some (k, t) -> t <> TUsed ->
  aligned f -> in_block f b k -> pres B st (sinfo f p st).
Proof.
  intros [Hwf HG HL] Hb Ht Hf Hin a o x Ha Hx Hxa.
  rewrite pinfo_sinfo; [|done..|by eapply (g_managed _ _ _ HG _ _ _ _ Hb)].
  case_decide as Hd; [|done]. subst x. assert (a <> b) by congruence.
  unfold in_block in *. destruct (g_disjoint _ _ _ HG _ _ _ _ _ _ Ha Hb ltac:(done)); lia.
Qed.

Lemma in_block_head a o : in_block a a o.
Proof. unfold in_block. pose proof (order_size_pos o). lia. Qed.

(** ** Running the primitive steps *)

Lemma for_orders_sinfo f p st : for_orders (sinfo f p st) = for_orders st.
Proof. unfold sinfo. by destruct (locate _ _). Qed.

Lemma pinfo_set_for_orders fo st f : pinfo (set_for_orders fo st) f = pinfo st f.
Proof. reflexivity. Qed.

Lemma get_order_run st fl B o : Inv st fl B -> (o < ORDER_COUNT)%nat ->
  get_order o st = Done (head (fl o), st).
Proof.
  intros HI Ho. unfold get_order, gets, bind. by rewrite (l_head _ _ _ (i_links _ _ _ HI) o Ho).
Qed.

Lemma set_order_run st o f : (o < length (for_orders st))%nat ->
  set_order o f st = Done (tt, set_for_orders (<[o := f]> (for_orders st)) st).
Proof.
  intros Ho. unfold set_order, gets, bind. by destruct (Nat.ltb_spec o (length (for_orders st))); [|lia].
Qed.

Lemma Inv_len st fl B : Inv st fl B -> length (for_orders st) = ORDER_COUNT.
Proof. intros HI. apply HI. Qed.

(** Updating one word of a page info. *)
Lemma set_prev_run dbg v p : p2frame_aligned v = true -> set_prev dbg v p = Done (tt, mkPageInfo v (pi_next p)).
Proof. intros H. unfold set_prev. by rewrite (bind_Done _ _ _ _ _ (debug_assert_true _ _ _ H)). Qed.
Lemma set_next_run dbg v p : p2frame_aligned v = true -> set_next dbg v p = Done (tt, mkPageInfo (pi_refcount p) v).
Proof. intros H. unfold set_next. by rewrite (bind_Done _ _ _ _ _ (debug_assert_true _ _ _ H)). Qed.

Lemma managed_locate st f : managed st f -> exists r, locate (sections st) f = Some r.
Proof. intros [r Hr]. eauto. Qed.

Lemma member_info st fl B o a : Inv st fl B -> a ∈ fl o ->
  exists p, pinfo st a = Some p /\ as_free p = true /\ B !! a = Some (o, TFree) /\ aligned a /\ managed st a.
Proof.
  intros HI Ha. apply (l_fl _ _ _ (i_links _ _ _ HI)) in Ha.
  destruct (g_head_managed (i_geom _ _ _ HI) _ _ _ Ha) as [Hal Hm].
  destruct (proj1 (managed_pinfo st a) Hm) as [p Hp]. exists p.
  destruct (free_block_read _ _ _ _ _ _ HI Ha Hp). done.
Qed.

(** The neighbours of an element of a free list. *)
Lemma neighbour_ok st fl B o l1 a l2 : Inv st fl B -> (o < ORDER_COUNT)%nat -> fl o = l1 ++ a :: l2 ->
  packable (last l1) o /\ packable (head l2) o /\
  p2frame_aligned (p2frame_new (last l1) o) = true /\ p2frame_aligned (p2frame_new (head l2) o) = true.
Proof.
  intros HI Ho Hl.
  assert (H1 : forall b, last l1 = Some b -> b ∈ fl o).
  { intros b Hb%last_Some_elem_of. rewrite Hl. set_solver. }
  assert (H2 : forall b, head l2 = Some b -> b ∈ fl o).
  { intros b Hb%head_Some_elem_of. rewrite Hl. set_solver. }
  assert (packable (last l1) o) by (by eapply list_packable).
  assert (packable (head l2) o) by (by eapply list_packable).
  split_and!; [done..| |]; apply p2frame_aligned_new; [done| |done|];
    intros b Hb; [apply (list_aligned st fl B o (last l1))|apply (list_aligned st fl B o (head l2))]; done.
Qed.

Ltac mrun := repeat first [ progress cbn [unwrap] | rewrite bind_ret | rewrite bind_assoc | erewrite bind_Done by eassumption
                          | rewrite (bind_Done _ _ _ _ _ (get_page_info_eq _ _)) ].

(** ** Unlinking *)

Lemma unlink_head_ok dbg st fl B o a l2 : Inv st fl B -> (o < ORDER_COUNT)%nat -> fl o = a :: l2 ->
  exists st1 st2, unlink_head dbg a o (p2frame_new (head l2) o) st = Done (tt, st1) /\
    set_order o (head l2) st1 = Done (tt, st2) /\
    Inv st2 (upd o l2 fl) (<[a := (o, TPend)]> B) /\ same_layout st st2 /\ pres B st st2.
Proof.
  intros HI Ho Hl. pose proof (Inv_len _ _ _ HI) as Hlen.
  destruct (neighbour_ok _ _ _ o [] a l2 HI Ho Hl) as (_ & Hpk & _ & Hal).
  unfold unlink_head. rewrite p2frame_frame_new by done.
  destruct l2 as [|y l2]; [change (head []) with (@None Z) in *|change (head (y :: l2)) with (Some y) in *].
  - eexists _, _. split; [done|]. rewrite set_order_run by lia. split; [done|].
    split; [|split; [apply same_layout_set_for_orders|done]].
    by apply (inv_unlink st _ fl B o [] a []).
  - destruct (member_info _ _ _ o y HI) as (p & Hp & Hfree & Hy & Hya & Hym); [rewrite Hl; set_solver|].
    destruct (get_free_alloc_page_info_eq _ _ _ Hp Hfree) as (r & Hr & Hloc).
    assert (Hprev : pi_refcount p = p2frame_new (Some a) o).
    { pose proof (l_list _ _ _ (i_links _ _ _ HI) o Ho) as Hd. rewrite Hl in Hd.
      destruct Hd as [_ [Hd _]]. rewrite Hp in Hd. by simplify_eq. }
    assert (Ha : a ∈ fl o) by (rewrite Hl; set_solver).
    apply (l_fl _ _ _ (i_links _ _ _ HI)) in Ha.
    destruct (block_packable _ _ _ _ _ _ HI Ha) as [Hpa _].
    assert (Hya' : y <> a).
    { pose proof (l_nodup _ _ _ (i_links _ _ _ HI) o) as Hnd. rewrite Hl in Hnd.
      apply NoDup_cons in Hnd as [Hnd _]. set_solver. }
    exists (sinfo y (mkPageInfo (p2frame_new None o) (pi_next p)) st).
    eexists. split.
    { mrun. rewrite (bind_Done _ _ _ _ _ (load_info_pinfo _ _ _ _ Hloc Hp)).
      unfold free_prev. rewrite Hprev, p2frame_frame_new by done.
      rewrite !(bind_Done _ _ _ _ _ (debug_assert_true _ _ _ (bool_decide_eq_true_2 _ eq_refl))).
      rewrite (bind_Done _ _ _ tt st) by (apply debug_assert_true; apply negb_true_iff, Z.eqb_neq; done).
      rewrite (bind_Done _ _ _ tt st) by (apply debug_assert_true, is_aligned_spec;
        by eapply (g_aligned _ _ _ (i_geom _ _ _ HI))).
      eapply with_info_sinfo; [done..|]. apply set_prev_run.
      apply p2frame_aligned_new; [by apply packable_None|done]. }
    rewrite set_order_run by (rewrite for_orders_sinfo; lia). split; [done|].
    split; [|split].
    + apply (inv_unlink st _ fl B o [] a (y :: l2)); try done.
      * eapply same_layout_trans; [apply same_layout_sinfo|apply same_layout_set_for_orders].
      * simpl. by rewrite for_orders_sinfo.
      * intros x Hx _ Hne. rewrite pinfo_set_for_orders, pinfo_sinfo by (done || apply HI).
        rewrite decide_False by (simpl in Hne; congruence). done.
      * intros y' p' [= <-] Hp'. simplify_eq.
        rewrite pinfo_set_for_orders, pinfo_sinfo by (done || apply HI). by rewrite decide_True.
    + eapply same_layout_trans; [apply same_layout_sinfo|apply same_layout_set_for_orders].
    + change (pres B st (sinfo y (mkPageInfo (p2frame_new None o) (pi_next p)) st)).
      apply (pres_sinfo st fl B y o TFree); [done..|apply in_block_head].
Qed.

(** The sibling's predecessor, or the list head, skips the sibling. *)
Lemma relink_prev_ok dbg st fl B o l1 a l2 : Inv st fl B -> (o < ORDER_COUNT)%nat ->
  fl o = l1 ++ a :: l2 ->
  exists stA, (match last l1 with
    | Some sib_prev => let! i := get_free_alloc_page_info sib_prev in
                       with_info i (set_next dbg (p2frame_new (head l2) o))
    | None => let! hd := get_order o in
              debug_assert dbg (bool_decide (hd = Some a)) ;;;
              debug_assert dbg (match head l2 with None => true | Some f => is_aligned_to_order f o end) ;;;
              debug_assert dbg (o =? o)%nat ;;; set_order o (head l2)
    end) st = Done (tt, stA) /\ same_layout st stA /\ pres B st stA /\
    (forall x, aligned x -> Some x <> last l1 -> pinfo stA x = pinfo st x) /\
    (forall x p, last l1 = Some x -> pinfo st x = Some p ->
       pinfo stA x = Some (mkPageInfo (pi_refcount p) (p2frame_new (head l2) o))) /\
    for_orders stA = (match l1 with [] => <[o := head l2]> (for_orders st) | _ => for_orders st end).
Proof.
  intros HI Ho Hl. pose proof (Inv_len _ _ _ HI) as Hlen.
  destruct (neighbour_ok _ _ _ o l1 a l2 HI Ho Hl) as (Hpl & Hpn & Hal & Han).
  destruct (last l1) as [x|] eqn:Hlast.
  - destruct (member_info _ _ _ o x HI) as (p & Hp & Hfree & Hx & Hxa & Hxm).
    { apply last_Some_elem_of in Hlast. rewrite Hl. set_solver. }
    destruct (get_free_alloc_page_info_eq _ _ _ Hp Hfree) as (r & Hr & Hloc).
    exists (sinfo x (mkPageInfo (pi_refcount p) (p2frame_new (head l2) o)) st).
    split_and!.
    + mrun. eapply with_info_sinfo; [done..|]. by apply set_next_run.
    + apply same_layout_sinfo.
    + apply (pres_sinfo st fl B x o TFree); [done..|apply in_block_head].
    + intros y Hy Hne. rewrite pinfo_sinfo by (done || apply HI). by rewrite decide_False by congruence.
    + intros y q [= <-] Hq. simplify_eq. rewrite pinfo_sinfo by (done || apply HI). by rewrite decide_True.
    + rewrite for_orders_sinfo. by destruct l1.
  - apply last_None in Hlast. subst l1. simpl in Hl.
    eexists. split; [|split; [apply same_layout_set_for_orders|split; [done|]]].
    + rewrite (bind_Done _ _ _ _ _ (get_order_run _ _ _ _ HI Ho)). rewrite Hl.
      rewrite (bind_Done _ _ _ tt st) by (apply debug_assert_true, bool_decide_eq_true_2; done).
      rewrite (bind_Done _ _ _ tt st).
      2:{ apply debug_assert_true. unfold p2frame_aligned in Han.
          rewrite p2frame_frame_new, p2frame_order_new in Han by done. by destruct (head l2). }
      rewrite (bind_Done _ _ _ tt st) by (apply debug_assert_true, Nat.eqb_refl).
      apply set_order_run. lia.
    + done.
Qed.

(** The sibling's successor skips back over the sibling. *)
Lemma relink_next_ok dbg st stA fl B o l1 a l2 : Inv st fl B -> (o < ORDER_COUNT)%nat ->
  fl o = l1 ++ a :: l2 -> same_layout st stA ->
  (forall x, aligned x -> Some x <> last l1 -> pinfo stA x = pinfo st x) ->
  exists stB, (match head l2 with
    | Some sib_next => let! i := get_free_alloc_page_info sib_next in
                       with_info i (set_prev dbg (p2frame_new (last l1) o))
    | None => ret tt
    end) stA = Done (tt, stB) /\ same_layout st stB /\ for_orders stB = for_orders stA /\
    (forall x, aligned x -> Some x <> head l2 -> pinfo stB x = pinfo stA x) /\
    (forall y p, head l2 = Some y -> pinfo st y = Some p ->
       pinfo stB y = Some (mkPageInfo (p2frame_new (last l1) o) (pi_next p))).
Proof.
  intros HI Ho Hl Hlay Hext.
  destruct (neighbour_ok _ _ _ o l1 a l2 HI Ho Hl) as (Hpl & Hpn & Hal & Han).
  destruct (head l2) as [y|] eqn:Hhead; [|by exists stA].
  assert (Hin : y ∈ l2) by (by apply head_Some_elem_of).
  destruct (member_info _ _ _ o y HI) as (p & Hp & Hfree & Hy & Hya & Hym); [rewrite Hl; set_solver|].
  assert (HpA : pinfo stA y = Some p).
  { rewrite Hext; [done..|]. intros Heq. symmetry in Heq. apply last_Some_elem_of in Heq.
    pose proof (l_nodup _ _ _ (i_links _ _ _ HI) o) as Hnd. rewrite Hl in Hnd.
    apply NoDup_app in Hnd as (_ & Hdis & _). apply (Hdis y); [done|set_solver]. }
  destruct (get_free_alloc_page_info_eq _ _ _ HpA Hfree) as (r & Hr & Hloc).
  assert (HwfA : wf_sections (sections stA)) by (apply (sl_wf _ _ Hlay), HI).
  assert (HmA : managed stA y) by (by rewrite same_layout_managed).
  exists (sinfo y (mkPageInfo (p2frame_new (last l1) o) (pi_next p)) stA). split_and!.
  - mrun. eapply with_info_sinfo; [done..|]. by apply set_prev_run.
  - eapply same_layout_trans; [done|apply same_layout_sinfo].
  - apply for_orders_sinfo.
  - intros x Hx Hne. rewrite pinfo_sinfo by done. by rewrite decide_False by congruence.
  - intros y' q [= <-] Hq. simplify_eq. rewrite pinfo_sinfo by done. by rewrite decide_True.
Qed.

Lemma unlink_sibling_ok dbg st fl B o l1 a l2 r : Inv st fl B -> (o < ORDER_COUNT)%nat ->
  fl o = l1 ++ a :: l2 -> locate (sections st) a = Some r ->
  exists st2, unlink_sibling dbg a r o st = Done (tt, st2) /\
    Inv st2 (upd o (l1 ++ l2) fl) (<[a := (o, TPend)]> B) /\ same_layout st st2 /\ pres B st st2.
Proof.
  intros HI Ho Hl Hr. pose proof HI as [Hwf HG HL].
  assert (Hp : pinfo st a = Some (mkPageInfo (p2frame_new (last l1) o) (p2frame_new (head l2) o))).
  { pose proof (l_list _ _ _ HL o Ho) as Hd. rewrite Hl in Hd. apply dseg_app in Hd as [_ [Hd _]].
    rewrite Hd. by destruct (last l1), (head l2). }
  destruct (neighbour_ok _ _ _ o l1 a l2 HI Ho Hl) as (Hpl & Hpn & _ & _).
  unfold unlink_sibling. rewrite (bind_Done _ _ _ _ _ (load_info_pinfo _ _ _ _ Hr Hp)).
  unfold free_prev, free_next. cbn [pi_refcount pi_next].
  rewrite !p2frame_frame_new, p2frame_order_new by done.
  destruct (relink_prev_ok dbg st fl B o l1 a l2 HI Ho Hl) as (stA & HA & HlA & HpA & HextA & HlastA & HfoA).
  destruct (relink_next_ok dbg st stA fl B o l1 a l2 HI Ho Hl HlA HextA) as (stB & HB & HlB & HfoB & HextB & HheadB).
  exists stB. rewrite (bind_Done _ _ _ _ _ HA). split; [done|].
  assert (Hne : forall x, last l1 = Some x -> Some x <> head l2).
  { intros x Hx%last_Some_elem_of Heq. symmetry in Heq. apply head_Some_elem_of in Heq.
    pose proof (l_nodup _ _ _ HL o) as Hnd. rewrite Hl in Hnd.
    apply NoDup_app in Hnd as (_ & Hdis & _). apply (Hdis x); [done|set_solver]. }
  assert (Hmem : forall x, last l1 = Some x \/ head l2 = Some x -> B !! x = Some (o, TFree)).
  { intros x Hx. apply (l_fl _ _ _ HL). rewrite Hl.
    destruct Hx as [Hx%last_Some_elem_of|Hx%head_Some_elem_of]; set_solver. }
  split; [|split; [done|]].
  - apply (inv_unlink st stB fl B o l1 a l2); try done.
    + by rewrite HfoB.
    + intros x Hx H1 H2. by rewrite HextB, HextA.
    + intros x p Hx Hpx. destruct (g_head_managed HG _ _ _ (Hmem x (or_introl Hx))).
      rewrite HextB; eauto.
  - intros b k x Hb Hx Hin. rewrite HextB; [by eapply HpA|done|].
    intros Heq. pose proof (Hmem x (or_intror (eq_sym Heq))) as Hfx.
    assert (b <> x) by congruence. pose proof (order_size_pos o).
    unfold in_block in Hin. destruct (g_disjoint _ _ _ HG _ _ _ _ _ _ Hb Hfx ltac:(done)); lia.
Qed.

(** ** Splitting *)

Lemma shiftl_1_page o : Z.shiftl 1 (Z.of_nat o) * 4096 = order_size o.
Proof. rewrite Z.shiftl_mul_pow2, order_size_eq by lia. lia. Qed.

Lemma half_not_aligned a o fo : (o < fo)%nat -> a mod order_size fo = 0 ->
  is_aligned_to_order (a + order_size o) fo = false.
Proof.
  intros Hlt Ha. unfold is_aligned_to_order. apply Z.eqb_neq.
  rewrite Zplus_mod, Ha, Z.add_0_l, Z.mod_mod by (pose proof (order_size_pos fo); lia).
  pose proof (order_size_pos o). rewrite Z.mod_small; [lia|].
  rewrite !order_size_pow in *. split; [lia|]. apply Z.pow_lt_mono_r; lia.
Qed.

Lemma split_order_ok dbg st fl B o a fo : Inv st fl B -> B !! a = Some (S o, TPend) ->
  fl o = [] -> (S o <= fo)%nat -> a mod order_size fo = 0 ->
  exists st' B', split_order dbg a fo o st = Done (tt, st') /\
    Inv st' (upd o [a + order_size o] fl) B' /\ B' !! a = Some (o, TPend) /\
    used_same B B' /\ (pend_only B a -> pend_only B' a) /\ same_layout st st' /\ pres B st st'.
Proof.
  intros HI Ha Hfl Hfo Hal. pose proof (order_size_pos o) as Hpos. set (b := a + order_size o).
  destruct (geom_split (i_geom _ _ _ HI) _ _ Ha) as [Hbn _].
  pose proof (inv_split _ _ _ _ _ HI Ha) as HI1. fold b in Hbn, HI1.
  set (B1 := <[a := (o, TPend)]> (<[b := (o, TPend)]> B)) in *.
  assert (Hb1 : B1 !! b = Some (o, TPend)).
  { unfold B1. rewrite lookup_insert_ne by (unfold b; lia). apply lookup_insert_eq. }
  destruct (g_head_managed (i_geom _ _ _ HI1) _ _ _ Hb1) as [Hba Hbm].
  destruct (block_packable _ _ _ _ _ _ HI1 Hb1) as [_ Hbr].
  destruct (block_packable _ _ _ _ _ _ HI Ha) as [_ Har].
  destruct (managed_locate _ _ Hbm) as [r Hr].
  destruct (proj1 (managed_pinfo st b) Hbm) as [p Hp].
  pose proof (g_order _ _ _ (i_geom _ _ _ HI1) _ _ _ Hb1) as Ho.
  assert (Hwf := i_wf _ _ _ HI).
  assert (Hnone : p2frame_aligned (p2frame_new None o) = true)
    by (apply p2frame_aligned_new; [by apply packable_None|done]).
  set (q := mkPageInfo (Z.of_nat o) (Z.of_nat o)).
  set (q' := mkPageInfo (pi_refcount q) (p2frame_new None o)).
  set (q'' := mkPageInfo (p2frame_new None o) (pi_next q')).
  set (st3 := sinfo b q'' (sinfo b q' (sinfo b q st))).
  assert (Hl3 : same_layout st st3).
  { eapply same_layout_trans; [apply same_layout_sinfo|].
    eapply same_layout_trans; apply same_layout_sinfo. }
  assert (Hst3 : forall x, aligned x -> pinfo st3 x = if decide (x = b) then Some q'' else pinfo st x).
  { intros x Hx. unfold st3. rewrite !pinfo_sinfo by (rewrite ?managed_sinfo; auto using wf_sections_sinfo).
    by repeat case_decide. }
  exists (set_for_orders (<[o := Some b]> (for_orders st)) st3), (<[b := (o, TFree)]> B1).
  split_and!.
  - unfold split_order. rewrite (bind_Done _ _ _ b st).
    2:{ rewrite next_by_ok; rewrite ?shiftl_1_page; [done|lia|rewrite Z.shiftl_mul_pow2; lia|fold b; lia]. }
    rewrite (bind_Done _ _ _ _ _ (get_order_run _ _ _ _ HI Ho)), Hfl.
    rewrite (bind_Done _ _ _ tt st) by (by apply debug_assert_true, bool_decide_eq_true_2).
    mrun. rewrite Hr. mrun.
    rewrite (bind_Done _ _ _ tt (sinfo b q st)) by (by eapply with_info_sinfo).
    rewrite (bind_Done _ _ _ tt (sinfo b q st))
      by (apply debug_assert_true; unfold b; by rewrite half_not_aligned by (done || lia)).
    rewrite (bind_Done _ _ _ tt (sinfo b q st))
      by (apply debug_assert_true, is_aligned_spec; by eapply (g_aligned _ _ _ (i_geom _ _ _ HI1))).
    rewrite (bind_Done _ _ _ tt (sinfo b q' (sinfo b q st))).
    2:{ eapply with_info_sinfo; [by rewrite locate_sinfo| |by apply set_next_run].
        rewrite pinfo_sinfo by done. by rewrite decide_True. }
    rewrite (bind_Done _ _ _ tt st3).
    2:{ eapply with_info_sinfo; [by rewrite !locate_sinfo| |by apply set_prev_run].
        rewrite pinfo_sinfo by (rewrite ?managed_sinfo; auto using wf_sections_sinfo). by rewrite decide_True. }
    rewrite set_order_run by (unfold st3; rewrite !for_orders_sinfo, (Inv_len _ _ _ HI); lia).
    unfold st3. by rewrite !for_orders_sinfo.
  - replace (upd o [b] fl) with (upd o (b :: fl o) fl) by (by rewrite Hfl).
    eapply inv_push; [exact HI1| |done|done|..]; rewrite ?Hfl.
    + eapply same_layout_trans; [exact Hl3|apply same_layout_set_for_orders].
    + intros x Hx Hne _. rewrite pinfo_set_for_orders, Hst3 by done. by rewrite decide_False.
    + rewrite pinfo_set_for_orders, Hst3 by done. by rewrite decide_True.
    + done.
  - rewrite lookup_insert_ne by (unfold b; lia). apply lookup_insert_eq.
  - intros x k. unfold B1. destruct (decide (x = b)) as [->|];
      [rewrite lookup_insert_eq, Hbn; naive_solver|rewrite lookup_insert_ne by done].
    destruct (decide (x = a)) as [->|]; [rewrite lookup_insert_eq, Ha; naive_solver|].
    by rewrite !lookup_insert_ne by done.
  - intros Hpo x k. unfold B1. destruct (decide (x = b)) as [->|];
      [rewrite lookup_insert_eq; naive_solver|rewrite lookup_insert_ne by done].
    destruct (decide (x = a)) as [->|]; [done|]. rewrite !lookup_insert_ne by done. apply Hpo.
  - eapply same_layout_trans; [exact Hl3|apply same_layout_set_for_orders].
  - intros c k x Hc Hx Hin. rewrite pinfo_set_for_orders, Hst3 by done. rewrite decide_False; [done|].
    intros ->. assert (a <> c) by congruence. unfold in_block in Hin.
    pose proof (order_size_S o).
    destruct (g_disjoint _ _ _ (i_geom _ _ _ HI) _ _ _ _ _ _ Ha Hc ltac:(done)); unfold b in *; lia.
Qed.

Lemma split_loop_ok dbg a fo min n : forall st fl B, Inv st fl B ->
  B !! a = Some ((min + n)%nat, TPend) -> (forall o, (min <= o < min + n)%nat -> fl o = []) ->
  (min + n <= fo)%nat -> a mod order_size fo = 0 ->
  exists st' fl' B', forM (rev (seq min n)) (split_order dbg a fo) st = Done (tt, st') /\
    Inv st' fl' B' /\ B' !! a = Some (min, TPend) /\ used_same B B' /\
    (pend_only B a -> pend_only B' a) /\ same_layout st st' /\ pres B st st' /\
    free_pages fl' + 2 ^ Z.of_nat min = free_pages fl + 2 ^ Z.of_nat (min + n).
Proof.
  induction n as [|n IH]; intros st fl B HI Ha Hfl Hfo Hal.
  - rewrite Nat.add_0_r in *. exists st, fl, B. split_and!; try done; lia.
  - replace (min + S n)%nat with (S (min + n)) in * by lia.
    destruct (split_order_ok dbg st fl B (min + n) a fo HI Ha) as
      (st1 & B1 & Hrun & HI1 & Ha1 & Hu1 & Hpo1 & Hlay1 & Hpr1); [apply Hfl; lia|lia|done|].
    destruct (IH st1 _ B1 HI1 Ha1) as (st2 & fl2 & B2 & Hrun2 & HI2 & Ha2 & Hu2 & Hpo2 & Hlay2 & Hpr2 & Hn2);
      [intros o' Ho'; rewrite upd_ne by lia; apply Hfl; lia|lia|done|].
    exists st2, fl2, B2. rewrite seq_S, rev_unit. split_and!; try done.
    + simpl. by rewrite (bind_Done _ _ _ _ _ Hrun).
    + by eapply used_same_trans.
    + auto.
    + by eapply same_layout_trans.
    + by eapply pres_trans.
    + rewrite Hn2, free_pages_upd, Hfl by (lia || by eapply (g_order _ _ _ (i_geom _ _ _ HI1))).
      replace (Z.of_nat (S (min + n))) with (Z.of_nat (min + n) + 1) by lia.
      rewrite Z.pow_add_r by lia. simpl length. lia.
Qed.

(** ** Finding a free order *)

Lemma find_order_spec i min fo :
  match find_order i min fo with
  | Some (o, f) => (min <= o)%nat /\ (i <= o)%nat /\ fo !! (o - i)%nat = Some (Some f) /\
                   (forall k, (i <= k < o)%nat -> (min <= k)%nat -> fo !! (k - i)%nat = Some None)
  | None => forall k x, (min <= i + k)%nat -> fo !! k = Some x -> x = None
  end.
Proof.
  revert i. induction fo as [|f fo IH]; intros i; simpl; [by intros k|].
  assert (Hstep : forall o, (S i <= o)%nat -> (f :: fo) !! (o - i)%nat = fo !! (o - S i)%nat).
  { intros o Ho. replace (o - i)%nat with (S (o - S i)) by lia. done. }
  destruct f as [f|]; [destruct (Nat.leb_spec min i)|].
  - split_and!; [done..| |lia]. by replace (i - i)%nat with 0%nat by lia.
  - specialize (IH (S i)). destruct (find_order (S i) min fo) as [[o g]|].
    + destruct IH as (H1 & H2 & H3 & H4). split_and!; [done|lia|by rewrite Hstep|].
      intros k Hk Hm. rewrite Hstep by lia. apply H4; lia.
    + intros [|k] x Hk; simpl; [lia|]. apply IH. lia.
  - specialize (IH (S i)). destruct (find_order (S i) min fo) as [[o g]|].
    + destruct IH as (H1 & H2 & H3 & H4). split_and!; [done|lia|by rewrite Hstep|].
      intros k Hk Hm. destruct (decide (k = i)) as [->|]; [by rewrite Nat.sub_diag|].
      rewrite Hstep by lia. apply H4; lia.
    + intros [|k] x Hk; simpl; [naive_solver|]. apply IH. lia.
Qed.

Lemma zero_pages_in n : forall a c i, (i < n)%nat ->
  zero_pages a n c !! (a + Z.of_nat i * PAGE_SIZE) = None.
Proof.
  induction n as [|n IH]; intros a c i Hi; simpl; [lia|]. rewrite lookup_delete.
  case_decide; [done|]. destruct i as [|i]; [lia|].
  replace (a + Z.of_nat (S i) * PAGE_SIZE) with (a + PAGE_SIZE + Z.of_nat i * PAGE_SIZE) by lia.
  apply IH. lia.
Qed.

Lemma zero_pages_out n f : forall a c, (forall i : nat, (i < n)%nat -> f <> a + Z.of_nat i * PAGE_SIZE) ->
  zero_pages a n c !! f = c !! f.
Proof.
  induction n as [|n IH]; intros a c Hf; simpl; [done|].
  rewrite lookup_delete_ne by (specialize (Hf 0%nat); lia). apply IH.
  intros i Hi ->. apply (Hf (S i)); lia.
Qed.

Lemma Inv_rest st st' fl B : sections st' = sections st -> for_orders st' = for_orders st ->
  abs_off st' = abs_off st -> Inv st fl B -> Inv st' fl B.
Proof.
  intros Hs Hf Ho [Hwf HG HL].
  assert (Hp : pinfo st' = pinfo st) by (unfold pinfo; by rewrite Hs).
  assert (Hm : managed st' = managed st) by (unfold managed; by rewrite Hs).
  split; [by rewrite Hs|by rewrite Hm, Ho|].
  split; rewrite ?Hf, ?Hp; apply HL.
Qed.

(** ** The abstract heap *)

(** [U] is the set of used blocks (first frame and order), [n] the number of
    pages on the free lists. *)
Definition heap (st : Memory) (U : gmap Z nat) (n : Z) : Prop :=
  exists fl B, Inv st fl B /\ (forall a o, B !! a <> Some (o, TPend)) /\
    (forall a o, U !! a = Some o <-> B !! a = Some (o, TUsed)) /\ n = free_pages fl.

(** Every frame of every used block keeps its page info. *)
Definition keeps (U : gmap Z nat) (st st' : Memory) : Prop :=
  forall a o x, U !! a = Some o -> aligned x -> in_block x a o -> pinfo st' x = pinfo st x.

(** The new block [f] of order [o] shares no address with a used block. *)
Definition fresh (U : gmap Z nat) (f : Z) (o : nat) : Prop :=
  forall a k, U !! a = Some k -> a + order_size k <= f \/ f + order_size o <= a.

(** What a successful allocation of order [o] at [f] establishes. *)
Record allocated (st st' : Memory) (U : gmap Z nat) (n : Z) (o : nat) (f : Z) : Prop := {
  al_heap : heap st' (<[f := o]> U) (n - 2 ^ Z.of_nat o);
  al_fresh : fresh U f o;
  al_aligned : f mod order_size o = 0;
  al_low : abs_off st <= f;
  al_off : abs_off st' = abs_off st;
  al_keeps : keeps U st st';
  al_info : pinfo st' f = Some (mkPageInfo RC_USED_NOT_FREE 0);
  al_used : used_frames st' = usize_add (used_frames st) (2 ^ Z.of_nat o);
  al_zeroed_frame : the_zeroed_frame st' = the_zeroed_frame st;
  al_contents : contents st' = zero_pages f (2 ^ o) (contents st);
  al_min : 2 ^ 22 <= f;
  al_locate : forall g, locate (sections st') g = locate (sections st) g
}.

(** Unlinking the head of order [fo] and splitting it down to order [min]. *)
Lemma take_block_ok dbg st fl B fo f l2 min : Inv st fl B -> (forall a o, B !! a <> Some (o, TPend)) ->
  (fo < ORDER_COUNT)%nat -> fl fo = f :: l2 -> (min <= fo)%nat ->
  (forall o, (min <= o < fo)%nat -> fl o = []) ->
  exists st1 st2 st3 fl3 B3,
    unlink_head dbg f fo (p2frame_new (head l2) fo) st = Done (tt, st1) /\
    set_order fo (head l2) st1 = Done (tt, st2) /\
    forM (rev (seq min (fo - min))) (split_order dbg f fo) st2 = Done (tt, st3) /\
    Inv st3 fl3 B3 /\ B3 !! f = Some (min, TPend) /\ pend_only B3 f /\ used_same B B3 /\
    same_layout st st3 /\ pres B st st3 /\ free_pages fl3 = free_pages fl - 2 ^ Z.of_nat min.
Proof.
  intros HI Hnp Hfo Hl Hmin Hempty. pose proof HI as [Hwf HG HL].
  assert (Hff : B !! f = Some (fo, TFree)) by (apply (l_fl _ _ _ HL); rewrite Hl; set_solver).
  destruct (unlink_head_ok dbg st fl B fo f l2 HI Hfo Hl) as (st1 & st2 & Hrun1 & Hrun2 & HI2 & Hlay2 & Hpr2).
  assert (Hu2 : used_same B (<[f := (fo, TPend)]> B)) by (by eapply used_same_retag).
  assert (Hpo2 : pend_only (<[f := (fo, TPend)]> B) f).
  { intros x k. destruct (decide (x = f)) as [->|]; [done|]. rewrite lookup_insert_ne by done.
    intros Hx. by apply Hnp in Hx. }
  destruct (split_loop_ok dbg f fo min (fo - min) st2 _ _ HI2) as
    (st3 & fl3 & B3 & Hrun3 & HI3 & Hf3 & Hu3 & Hpo3 & Hlay3 & Hpr3 & Hn3).
  { rewrite lookup_insert_eq. do 2 f_equal. lia. }
  { intros o Ho. rewrite upd_ne by lia. apply Hempty. lia. }
  { lia. }
  { by eapply (g_aligned _ _ _ HG). }
  exists st1, st2, st3, fl3, B3. split_and!; try done.
  - by apply Hpo3.
  - by eapply used_same_trans.
  - by eapply same_layout_trans.
  - by eapply pres_trans.
  - rewrite free_pages_upd, Hl in Hn3 by done. replace (min + (fo - min))%nat with fo in Hn3 by lia.
    simpl length in Hn3. lia.
Qed.

(** Handing out the pending block. *)
Lemma give_block_ok st U fl fl3 st3 B B3 f min :
  Inv st fl B -> (forall a o, U !! a = Some o <-> B !! a = Some (o, TUsed)) ->
  Inv st3 fl3 B3 -> B3 !! f = Some (min, TPend) -> pend_only B3 f -> used_same B B3 ->
  same_layout st st3 -> pres B st st3 -> free_pages fl3 = free_pages fl - 2 ^ Z.of_nat min ->
  forall st', st' = set_contents (zero_pages f (2 ^ min) (contents st3))
                     (sinfo f (mkPageInfo RC_USED_NOT_FREE 0)
                       (set_used_frames (usize_add (used_frames st3) (2 ^ Z.of_nat min)) st3)) ->
  allocated st st' U (free_pages fl) min f.
Proof.
  intros HI HU HI3 Hf3 Hpo3 Hu3 Hlay3 Hpr3 Hn3 st' ->.
  set (u := usize_add _ _). set (q := mkPageInfo RC_USED_NOT_FREE 0).
  pose proof HI3 as [Hwf3 HG3 HL3]. destruct (g_head_managed HG3 _ _ _ Hf3) as [Hfa Hfm].
  assert (HI3u : Inv (set_used_frames u st3) fl3 B3) by (by eapply Inv_rest; [..|exact HI3]).
  assert (HI4 : Inv (sinfo f q (set_used_frames u st3)) fl3 (<[f := (min, TUsed)]> B3)).
  { eapply inv_retag; [eapply inv_touch; [done..| |]|done|done|done|done|].
    - intros o Ho. congruence.
    - intros o Ho. congruence.
    - intros _. exists q. split; [|done]. rewrite pinfo_sinfo by done. by rewrite decide_True. }
  assert (Hfree : forall a o, U !! a = Some o -> B3 !! a = Some (o, TUsed)).
  { intros a o Ha. by apply Hu3, HU. }
  destruct (g_low _ _ _ HG3 _ _ _ Hf3) as [Hmin Hlow]; [done|]. rewrite (sl_off _ _ Hlay3) in Hlow.
  split.
  - exists fl3, (<[f := (min, TUsed)]> B3). split_and!.
    + by eapply Inv_rest; [..|exact HI4].
    + intros a o. destruct (decide (a = f)) as [->|]; [by rewrite lookup_insert_eq|].
      rewrite lookup_insert_ne by done. intros Ha. by apply Hpo3 in Ha.
    + intros a o. destruct (decide (a = f)) as [->|]; [rewrite !lookup_insert_eq; naive_solver|].
      rewrite !lookup_insert_ne by done. rewrite HU. symmetry. apply Hu3.
    + lia.
  - intros a k Ha. assert (a <> f) by (intros ->; apply Hfree in Ha; congruence).
    by eapply (g_disjoint _ _ _ HG3); [apply Hfree|..].
  - by eapply (g_aligned _ _ _ HG3).
  - done.
  - simpl. rewrite (sl_off _ _ (same_layout_sinfo f q _)). simpl. by rewrite (sl_off _ _ Hlay3).
  - intros a o x Ha Hx Hin. change (pinfo (sinfo f q (set_used_frames u st3)) x = pinfo st x).
    rewrite pinfo_sinfo by done. rewrite decide_False; [by eapply Hpr3; [apply HU|..]|].
    intros ->. assert (a <> f) by (intros ->; apply Hfree in Ha; congruence).
    unfold in_block in Hin. pose proof (order_size_pos min).
    destruct (g_disjoint _ _ _ HG3 _ _ _ _ _ _ (Hfree _ _ Ha) Hf3 ltac:(done)); lia.
  - change (pinfo (sinfo f q (set_used_frames u st3)) f = Some q).
    rewrite pinfo_sinfo by done. by rewrite decide_True.
  - simpl. rewrite (sl_used _ _ (same_layout_sinfo f q _)). simpl. unfold u.
    by rewrite (sl_used _ _ Hlay3).
  - simpl. rewrite (sl_zeroed _ _ (same_layout_sinfo f q _)). simpl. by rewrite (sl_zeroed _ _ Hlay3).
  - simpl. by rewrite (sl_contents _ _ Hlay3).
  - done.
  - intros g. simpl. rewrite locate_sinfo. simpl. apply (sl_locate _ _ Hlay3).
Qed.

Lemma allocate_ok dbg min st U n : heap st U n ->
  match find_order 0 min (for_orders st) with
  | None => allocate_p2frame_complex dbg min st = Done (None, st)
  | Some (_, f) => exists st', allocate_p2frame_complex dbg min st = Done (Some (f, order_size min), st') /\
                              allocated st st' U n min f
  end.
Proof.
  intros (fl & B & HI & Hnp & HU & ->). unfold allocate_p2frame_complex.
  pose proof (find_order_spec 0 min (for_orders st)) as Hfind.
  rewrite (bind_Done (gets for_orders) _ st (for_orders st) st) by done.
  destruct (find_order 0 min (for_orders st)) as [[fo f]|]; [|done].
  destruct Hfind as (Hmin & _ & Hf & Hempty). rewrite Nat.sub_0_r in Hf.
  pose proof HI as [Hwf HG HL].
  assert (Hfo : (fo < ORDER_COUNT)%nat) by (rewrite <- (l_len _ _ _ HL); by eapply lookup_lt_Some).
  destruct (fl fo) as [|f' l2] eqn:Hl; rewrite (l_head _ _ _ HL fo Hfo), Hl in Hf; [done|].
  simpl in Hf. simplify_eq.
  assert (Hff : B !! f = Some (fo, TFree)) by (apply (l_fl _ _ _ HL); rewrite Hl; set_solver).
  destruct (g_head_managed HG _ _ _ Hff) as [Hfa Hfm].
  destruct (managed_locate _ _ Hfm) as [r Hr].
  pose proof (l_list _ _ _ HL fo Hfo) as Hd. rewrite Hl in Hd. destruct Hd as [Hp _].
  replace (opt_or (head l2) None) with (head l2) in Hp by (by destruct (head l2)).
  destruct (free_block_read _ _ _ _ _ _ HI Hff Hp) as [Hfree Hord].
  destruct (take_block_ok dbg st fl B fo f l2 min HI Hnp Hfo Hl Hmin) as
    (st1 & st2 & st3 & fl3 & B3 & Hr1 & Hr2 & Hr3 & HI3 & Hf3 & Hpo3 & Hu3 & Hlay3 & Hpr3 & Hn3).
  { intros o Ho. pose proof (Hempty o ltac:(lia) ltac:(lia)) as He. rewrite Nat.sub_0_r in He.
    rewrite (l_head _ _ _ HL o) in He by lia. by destruct (fl o). }
  destruct (g_low _ _ _ HG _ _ _ Hff) as [_ Hlow]; [done|].
  assert (Hm3 : managed st3 f) by (by rewrite same_layout_managed).
  destruct (proj1 (managed_pinfo st3 f) Hm3) as [p3 Hp3].
  eexists. split; [|eapply give_block_ok; [exact HI|exact HU|exact HI3|done..]].
  mrun. rewrite Hr. mrun. rewrite (bind_Done _ _ _ _ _ (load_info_pinfo _ _ _ _ Hr Hp)).
  rewrite (bind_Done _ _ _ tt st) by (by rewrite Hfree). cbv zeta.
  rewrite (bind_Done _ _ _ tt st) by (apply debug_assert_true; rewrite Hord; apply Nat.eqb_refl).
  unfold free_next in *. cbn [pi_next] in *. rewrite (bind_Done _ _ _ _ _ Hr1).
  rewrite (bind_Done _ _ _ tt st1) by (apply debug_assert_true, is_aligned_spec; by eapply (g_aligned _ _ _ HG)).
  rewrite (bind_Done _ _ _ tt st1) by (apply debug_assert_true; rewrite Hord; apply Nat.eqb_refl).
  destruct (neighbour_ok _ _ _ fo [] f l2 HI Hfo Hl) as (_ & Hpk & _ & _).
  rewrite p2frame_frame_new by done. rewrite (bind_Done _ _ _ _ _ Hr2), (bind_Done _ _ _ _ _ Hr3).
  rewrite (bind_Done (modify _) _ st3 tt _ eq_refl).
  rewrite (bind_Done _ _ _ tt (sinfo f (mkPageInfo RC_USED_NOT_FREE 0)
     (set_used_frames (usize_add (used_frames st3) (2 ^ Z.of_nat min)) st3))).
  2:{ rewrite Z.shiftl_mul_pow2, Z.mul_1_l by lia. eapply with_info_sinfo; [|exact Hp3|done].
      simpl. by rewrite (sl_locate _ _ Hlay3). }
  rewrite (bind_Done (modify _) _ _ tt _ eq_refl). rewrite (bind_Done (gets abs_off) _ _ _ _ eq_refl).
  erewrite (bind_Done (debug_assert _ _) _ _ tt).
  2:{ apply debug_assert_true, Z.leb_le. simpl. rewrite (sl_off _ _ (same_layout_sinfo _ _ _)). simpl.
      by rewrite (sl_off _ _ Hlay3). }
  unfold ret. do 3 f_equal. simpl. by rewrite (sl_contents _ _ (same_layout_sinfo _ _ _)).
Qed.

(** ** Deallocation *)

Lemma order_size_le_max m : (m < MAX_ORDER)%nat -> order_size m <= 2 ^ 21.
Proof.
  intros Hm. rewrite order_size_pow. apply Z.pow_le_mono_r; [lia|]. unfold MAX_ORDER, ORDER_COUNT in Hm. lia.
Qed.

Lemma buddy_ne a o : buddy a o <> a.
Proof. pose proof (order_size_pos o). unfold buddy. destruct (Z.testbit a _); lia. Qed.

(** The buddy and the merged base of a pending block, as [Frame]s. *)
Lemma buddy_frames {S} st fl B a m (s : S) : Inv st fl B -> B !! a = Some (m, TPend) -> (m < MAX_ORDER)%nat ->
  containing (Z.lxor a (order_size m)) s = Done (buddy a m, s) /\
  containing (Z.land a (usize_not (order_size m))) s = Done (buddy_base a m, s) /\ 0 <= buddy a m.
Proof.
  intros HI Ha Hm. pose proof (order_size_le_max m Hm) as Hsz. pose proof (order_size_pos m).
  destruct (block_packable _ _ _ _ _ _ HI Ha) as [_ Har].
  destruct (g_low _ _ _ (i_geom _ _ _ HI) _ _ _ Ha) as [Hlow _]; [done|].
  pose proof (g_aligned _ _ _ (i_geom _ _ _ HI) _ _ _ Ha) as Hal.
  assert (Hb : 0 < buddy a m < 2 ^ 64) by (unfold buddy; destruct (Z.testbit a _); lia).
  rewrite lxor_buddy, land_buddy by (unfold MAX_ORDER, ORDER_COUNT in *; lia).
  split_and!; [..|lia]; apply containing_aligned.
  - done.
  - by eapply aligned_order, buddy_aligned.
  - destruct (buddy_halves a m) as [[-> _]|[-> _]]; lia.
  - by eapply aligned_order, buddy_base_aligned.
Qed.

Lemma merge_loop_ok dbg n : forall st fl B cur m, Inv st fl B -> (m + n = MAX_ORDER)%nat ->
  B !! cur = Some (m, TPend) -> pend_only B cur ->
  exists st' fl' B' cur' m', merge_loop dbg (seq m n) cur m st = Done ((cur', m'), st') /\
    Inv st' fl' B' /\ B' !! cur' = Some (m', TPend) /\ pend_only B' cur' /\ used_same B B' /\
    same_layout st st' /\ pres B st st' /\
    free_pages fl' + 2 ^ Z.of_nat m' = free_pages fl + 2 ^ Z.of_nat m.
Proof.
  induction n as [|n IH]; intros st fl B cur m HI Hmn Hcur Hpo.
  { exists st, fl, B, cur, m. done. }
  assert (Hstop : exists st' fl' B' cur' m', Done ((cur, m), st) = Done ((cur', m'), st') /\
    Inv st' fl' B' /\ B' !! cur' = Some (m', TPend) /\ pend_only B' cur' /\ used_same B B' /\
    same_layout st st' /\ pres B st st' /\
    free_pages fl' + 2 ^ Z.of_nat m' = free_pages fl + 2 ^ Z.of_nat m)
    by (exists st, fl, B, cur, m; done).
  pose proof HI as [Hwf HG HL].
  destruct (buddy_frames st fl B cur m st HI Hcur ltac:(lia)) as (Hsib & _ & Hnn).
  destruct (g_head_managed HG _ _ _ Hcur) as [Hca [rc Hrc]].
  simpl. mrun. rewrite Hrc. mrun. destruct (locate (sections st) (buddy cur m)) as [r|] eqn:Hr; [|done].
  assert (Hbm : managed st (buddy cur m)) by (by exists r).
  destruct (proj1 (managed_pinfo _ _) Hbm) as [p Hp].
  rewrite (bind_Done _ _ _ _ _ (load_info_pinfo _ _ _ _ Hr Hp)).
  destruct (geom_buddy HG _ _ _ Hcur Hnn Hbm) as (k & u & Hb & Hk).
  destruct u.
  - destruct (free_block_read _ _ _ _ _ _ HI Hb Hp) as [Hfree Hord]. rewrite Hfree, Hord. simpl.
    destruct (Nat.ltb_spec k m); [done|]. assert (k = m) as -> by lia.
    rewrite (bind_Done _ _ _ tt st) by (apply debug_assert_true, Nat.leb_refl).
    destruct (free_block_info _ _ _ _ _ HI Hb) as (l1 & l2 & Hl & _).
    assert (Hmo : (m < ORDER_COUNT)%nat) by (by eapply (g_order _ _ _ HG)).
    destruct (unlink_sibling_ok dbg st fl B m l1 _ l2 r HI Hmo Hl Hr) as (st1 & Hrun & HI1 & Hlay1 & Hpr1).
    rewrite (bind_Done _ _ _ _ _ Hrun). set (B1 := <[buddy cur m := (m, TPend)]> B) in *.
    pose proof (buddy_ne cur m) as Hne.
    assert (Hcur1 : B1 !! cur = Some (m, TPend)) by (unfold B1; by rewrite lookup_insert_ne).
    destruct (buddy_frames st1 _ B1 cur m st1 HI1 Hcur1 ltac:(lia)) as (_ & Hbase & _).
    rewrite (bind_Done _ _ _ _ _ Hbase). unfold MAX_ORDER, ORDER_COUNT in *.
    assert (HI2 := inv_merge st1 _ B1 m cur HI1 Hcur1 (lookup_insert_eq _ _ _) ltac:(unfold ORDER_COUNT; lia)).
    set (B2 := <[buddy_base cur m := (S m, TPend)]> _) in HI2.
    replace (m + 1)%nat with (S m) by lia.
    destruct (IH st1 _ B2 (buddy_base cur m) (S m) HI2) as
      (st2 & fl2 & B3 & c2 & m2 & Hrun2 & HI3 & Hc2 & Hpo2 & Hu2 & Hlay2 & Hpr2 & Hn2);
      [lia|apply lookup_insert_eq| |].
    { intros x o. unfold B2, B1. destruct (decide (x = buddy_base cur m)); [done|].
      rewrite lookup_insert_ne by done. intros [Hx1 [Hx2 Hx]%lookup_delete_Some]%lookup_delete_Some.
      rewrite lookup_insert_ne in Hx by done. by apply Hpo in Hx. }
    assert (Hbb : buddy_base cur m = cur \/ buddy_base cur m = buddy cur m)
      by (destruct (buddy_halves cur m); naive_solver).
    assert (Hu : used_same B B2).
    { intros x o. unfold B2, B1. destruct (decide (x = buddy_base cur m)) as [->|].
      - rewrite lookup_insert_eq. destruct Hbb as [-> | ->]; [rewrite Hcur|rewrite Hb]; naive_solver.
      - rewrite lookup_insert_ne, !lookup_delete_Some by done.
        destruct (decide (x = buddy cur m)) as [->|]; [naive_solver|rewrite lookup_insert_ne by done].
        naive_solver. }
    exists st2, fl2, B3, c2, m2. split_and!; try done.
    + by eapply used_same_trans.
    + by eapply same_layout_trans.
    + by eapply pres_trans.
    + rewrite Hn2, free_pages_upd, Hl by (unfold ORDER_COUNT; lia). rewrite !length_app. simpl length.
      replace (Z.of_nat (S m)) with (Z.of_nat m + 1) by lia. rewrite Z.pow_add_r by lia. lia.
  - destruct (l_used _ _ _ HL _ _ Hb) as (p' & Hp' & Hused). simplify_eq. by rewrite Hused.
  - apply Hpo in Hb. by apply buddy_ne in Hb.
Qed.

Lemma p2frame_new_None o : p2frame_new None o = Z.of_nat o.
Proof. reflexivity. Qed.

(** Pushing a pending block whose [PageInfo] was reset by [make_free]. *)
Lemma push_head_ok dbg st fl B a o : Inv st fl B -> B !! a = Some (o, TPend) ->
  pinfo st a = Some (mkPageInfo (Z.of_nat o) (Z.of_nat o)) ->
  exists st', push_head dbg a o st = Done (tt, st') /\
    Inv st' (upd o (a :: fl o) fl) (<[a := (o, TFree)]> B) /\ same_layout st st' /\ pres B st st'.
Proof.
  intros HI Ha Hpa. pose proof HI as [Hwf HG HL]. pose proof (g_order _ _ _ HG _ _ _ Ha) as Ho.
  destruct (g_head_managed HG _ _ _ Ha) as [Haa Ham].
  destruct (block_packable _ _ _ _ _ _ HI Ha) as [Hpk _].
  assert (Hfa : as_free (mkPageInfo (Z.of_nat o) (Z.of_nat o)) = true)
    by (apply (as_free_packed None o), packable_None; done).
  set (st1 := set_for_orders (<[o := Some a]> (for_orders st)) st).
  unfold push_head. rewrite (bind_Done _ _ _ _ _ (get_order_run _ _ _ _ HI Ho)).
  rewrite (bind_Done _ _ _ tt st1) by (apply set_order_run; rewrite (Inv_len _ _ _ HI); done).
  destruct (head (fl o)) as [y|] eqn:Hhead.
  - assert (Hin : y ∈ fl o) by (by apply head_Some_elem_of).
    destruct (member_info _ _ _ o y HI Hin) as (p & Hp & Hfree & Hy & Hya & Hym).
    assert (Hne : y <> a) by (intros ->; congruence).
    destruct (block_packable _ _ _ _ _ _ HI Hy) as [Hpky _].
    destruct (get_free_alloc_page_info_eq st1 _ _ Hp Hfree) as (ry & Hry & Hly).
    destruct (get_free_alloc_page_info_eq st1 _ _ Hpa Hfa) as (ra & Hra & Hla).
    set (q1 := mkPageInfo (Z.of_nat o) (p2frame_new (Some y) o)).
    set (q2 := mkPageInfo (p2frame_new None o) (p2frame_new (Some y) o)).
    set (q3 := mkPageInfo (p2frame_new (Some a) o) (pi_next p)).
    set (st2 := sinfo a q2 (sinfo a q1 st1)). set (st3 := sinfo y q3 st2).
    assert (Hst2 : forall x, aligned x -> pinfo st2 x = if decide (x = a) then Some q2 else pinfo st x).
    { intros x Hx. unfold st2.
      rewrite !pinfo_sinfo by (rewrite ?managed_sinfo; auto using wf_sections_sinfo). by repeat case_decide. }
    assert (Hst3 : forall x, aligned x -> pinfo st3 x = if decide (x = y) then Some q3 else pinfo st2 x).
    { intros x Hx. unfold st3, st2. apply pinfo_sinfo; try done; [by repeat apply wf_sections_sinfo|].
      by rewrite !managed_sinfo. }
    assert (Hlay : same_layout st st3).
    { do 2 (eapply same_layout_trans; [|apply same_layout_sinfo]).
      eapply same_layout_trans; [apply same_layout_set_for_orders|apply same_layout_sinfo]. }
    exists st3. split_and!.
    + rewrite (bind_Done _ _ _ _ _ Hry), (bind_Done _ _ _ _ _ Hra).
      rewrite (bind_Done _ _ _ tt (sinfo a q1 st1)).
      2:{ eapply with_info_sinfo; [exact Hla|exact Hpa|]. apply set_next_run.
          apply p2frame_aligned_new; [done|]. intros b [= <-]. by eapply (g_aligned _ _ _ HG). }
      rewrite (bind_Done _ _ _ tt st2).
      2:{ eapply with_info_sinfo; [by rewrite locate_sinfo| |apply (set_prev_run dbg _ q1)].
          - rewrite pinfo_sinfo by done. by rewrite decide_True.
          - apply p2frame_aligned_new; [by apply packable_None|done]. }
      eapply with_info_sinfo; [unfold st2; by rewrite !locate_sinfo| |apply (set_prev_run dbg _ p)].
      * rewrite Hst2 by done. rewrite decide_False by done. exact Hp.
      * apply p2frame_aligned_new; [done|]. intros b [= <-]. by eapply (g_aligned _ _ _ HG).
    + eapply inv_push; [exact HI|done|done|..]; rewrite ?Hhead.
      * unfold st3, st2. by rewrite !for_orders_sinfo.
      * intros x Hx H1 H2. rewrite Hst3, decide_False, Hst2, decide_False by congruence. done.
      * rewrite Hst3, decide_False, Hst2, decide_True by done. done.
      * intros y' p' [= <-] Hp'. simplify_eq. rewrite Hst3, decide_True by done. done.
    + done.
    + intros c k x Hc Hx Hxc. rewrite Hst3 by done. unfold in_block in Hxc. pose proof (order_size_pos o).
      assert (a <> c) by congruence. assert (y <> c) by congruence.
      assert (x <> a) by (intros ->; destruct (g_disjoint _ _ _ HG _ _ _ _ _ _ Hc Ha ltac:(done)); lia).
      assert (x <> y) by (intros ->; destruct (g_disjoint _ _ _ HG _ _ _ _ _ _ Hc Hy ltac:(done)); lia).
      by rewrite decide_False, Hst2, decide_False by done.
  - exists st1. split_and!; try done.
    eapply inv_push; [exact HI|done|done|done|..]; rewrite ?Hhead; done.
Qed.

(** Everything but the accounting of [deallocate_p2frame], on a block that is
    already pending. *)
Lemma release_ok dbg st fl B f o : Inv st fl B -> B !! f = Some (o, TPend) -> pend_only B f ->
  exists st' fl' B',
    (let! '(current, largest_order) := merge_loop dbg (seq o (MAX_ORDER - o)) f o in
     let! info := get_page_info current in
     let! info := unwrap info in
     with_info info (make_free largest_order) ;;;
     debug_assert dbg (is_aligned_to_order current largest_order) ;;;
     push_head dbg current largest_order) st = Done (tt, st') /\
    Inv st' fl' B' /\ (forall a k, B' !! a <> Some (k, TPend)) /\ used_same B B' /\
    same_layout st st' /\ pres B st st' /\ free_pages fl' = free_pages fl + 2 ^ Z.of_nat o.
Proof.
  intros HI Hf Hpo. pose proof (g_order _ _ _ (i_geom _ _ _ HI) _ _ _ Hf) as Ho.
  destruct (merge_loop_ok dbg (MAX_ORDER - o) st fl B f o HI) as
    (st1 & fl1 & B1 & c & m & Hrun & HI1 & Hc & Hpo1 & Hu1 & Hlay1 & Hpr1 & Hn1);
    [unfold MAX_ORDER, ORDER_COUNT in *; lia|done|done|].
  pose proof HI1 as [Hwf1 HG1 HL1]. pose proof (g_order _ _ _ HG1 _ _ _ Hc) as Hm.
  destruct (g_head_managed HG1 _ _ _ Hc) as [Hca Hcm].
  destruct (managed_locate _ _ Hcm) as [r Hr]. destruct (proj1 (managed_pinfo _ _) Hcm) as [p Hp].
  set (q := mkPageInfo (Z.of_nat m) (Z.of_nat m)).
  assert (HI2 : Inv (sinfo c q st1) fl1 B1) by (apply inv_touch; try done; intros k; congruence).
  destruct (push_head_ok dbg _ fl1 B1 c m HI2 Hc) as (st3 & Hrun3 & HI3 & Hlay3 & Hpr3).
  { rewrite pinfo_sinfo by done. by rewrite decide_True. }
  eexists st3, _, _. split_and!; [|exact HI3|..].
  - rewrite (bind_Done _ _ _ _ _ Hrun). mrun. rewrite Hr. mrun.
    rewrite (bind_Done _ _ _ tt (sinfo c q st1)) by (by eapply with_info_sinfo).
    rewrite (bind_Done _ _ _ tt (sinfo c q st1)); [done|].
    apply debug_assert_true, is_aligned_spec. by eapply (g_aligned _ _ _ HG1).
  - intros a k. destruct (decide (a = c)) as [->|]; [by rewrite lookup_insert_eq|].
    rewrite lookup_insert_ne by done. intros Ha. by apply Hpo1 in Ha.
  - eapply used_same_trans; [done|]. by eapply used_same_retag.
  - eapply same_layout_trans; [done|]. eapply same_layout_trans; [apply same_layout_sinfo|done].
  - eapply pres_trans; [done..|]. eapply pres_trans; [done| |done].
    eapply pres_sinfo; [done..|apply in_block_head].
  - rewrite free_pages_upd by done. simpl length. lia.
Qed.

Lemma deallocate_ok dbg st U n f o :
  heap st U n -> U !! f = Some o -> 2 ^ 22 <= f -> abs_off st <= f ->
  exists st', deallocate_p2frame dbg f o st = Done (tt, st') /\
    heap st' (delete f U) (n + 2 ^ Z.of_nat o) /\ keeps (delete f U) st st' /\
    used_frames st' = usize_sub (used_frames st) (2 ^ Z.of_nat o) /\
    the_zeroed_frame st' = the_zeroed_frame st /\ contents st' = contents st /\
    (forall g, locate (sections st') g = locate (sections st) g) /\ abs_off st' = abs_off st.
Proof.
  intros (fl & B & HI & Hnp & HU & ->) HUf Hlow Hoff.
  assert (Hf : B !! f = Some (o, TUsed)) by (by apply HU).
  pose proof HI as [Hwf HG HL]. destruct (g_head_managed HG _ _ _ Hf) as [Hfa Hfm].
  destruct (managed_locate _ _ Hfm) as [r Hr]. destruct (proj1 (managed_pinfo _ _) Hfm) as [p Hp].
  set (B0 := <[f := (o, TPend)]> B). set (q0 := mkPageInfo 0 (pi_next p)).
  assert (HI0' : Inv st fl B0) by (by eapply inv_retag).
  assert (Hf0 : B0 !! f = Some (o, TPend)) by apply lookup_insert_eq.
  assert (HI0 : Inv (sinfo f q0 st) fl B0) by (apply inv_touch; try done; intros k; congruence).
  assert (Hpo0 : pend_only B0 f).
  { intros x k. unfold B0. destruct (decide (x = f)) as [->|]; [done|]. rewrite lookup_insert_ne by done.
    intros Hx. by apply Hnp in Hx. }
  destruct (release_ok dbg _ fl B0 f o HI0 Hf0 Hpo0) as
    (st1 & fl1 & B1 & Hrun & HI1 & Hnp1 & Hu1 & Hlay1 & Hpr1 & Hn1).
  pose proof (same_layout_trans _ _ _ (same_layout_sinfo f q0 st) Hlay1) as Hlay.
  assert (Hdel : forall a k, delete f U !! a = Some k <-> B0 !! a = Some (k, TUsed)).
  { intros a k. unfold B0. destruct (decide (a = f)) as [->|].
    - rewrite lookup_delete_eq, lookup_insert_eq. naive_solver.
    - by rewrite lookup_delete_ne, lookup_insert_ne by done. }
  exists (set_used_frames (usize_sub (used_frames st1) (2 ^ Z.of_nat o)) st1). split_and!.
  - unfold deallocate_p2frame. mrun. rewrite Hr. mrun.
    rewrite (bind_Done _ _ _ tt (sinfo f q0 st)) by (by eapply with_info_sinfo).
    apply bind_Done_inv in Hrun as ([c m] & s1 & Hm1 & Hrest). rewrite (bind_Done _ _ _ _ _ Hm1).
    revert Hrest. mrun. destruct (locate (sections s1) c); simpl; [|done]. mrun.
    intros (? & s2 & Hs2 & (? & s3 & Hs3 & Hs4)%bind_Done_inv)%bind_Done_inv.
    rewrite (bind_Done _ _ _ _ _ Hs2), (bind_Done _ _ _ _ _ Hs3), (bind_Done _ _ _ _ _ Hs4).
    unfold modify. by rewrite Z.shiftl_mul_pow2, Z.mul_1_l by lia.
  - exists fl1, B1. split_and!; [by eapply Inv_rest; [..|exact HI1]|done| |lia].
    intros a k. rewrite Hdel. symmetry. apply Hu1.
  - intros a k x Ha Hx Hin. change (pinfo st1 x = pinfo st x).
    rewrite (Hpr1 a k x) by (done || by apply Hdel). rewrite pinfo_sinfo by done.
    apply Hdel in Ha. rewrite decide_False; [done|]. intros ->. assert (a <> f) by congruence.
    unfold in_block in Hin. pose proof (order_size_pos o).
    destruct (g_disjoint _ _ _ (i_geom _ _ _ HI0') _ _ _ _ _ _ Ha Hf0 ltac:(done)); lia.
  - simpl. by rewrite (sl_used _ _ Hlay).
  - simpl. by rewrite (sl_zeroed _ _ Hlay).
  - simpl. by rewrite (sl_contents _ _ Hlay).
  - apply (sl_locate _ _ Hlay).
  - simpl. by rewrite (sl_off _ _ Hlay).
Qed.

(** ** The theorems *)

(** C1: Frame allocation.  From a well-formed heap, in debug and in release
    builds, [allocate_p2frame_complex] of any order never panics (no assertion
    of the code fails).  If it returns a frame, the block of the requested
    order is aligned, disjoint from every used block and now recorded as used,
    its memory is zeroed, every used block keeps its page infos, and the
    page counts move by [2^order]; it returns [None] only when no list of that
    order or above has a block, and then nothing has changed. *)
Theorem allocate_p2frame_correct dbg order st U n :
  heap st U n ->
  match allocate_p2frame_complex dbg order st with
  | Done (Some (f, size), st') => size = order_size order /\ allocated st st' U n order f
  | Done (None, st') =>
      st' = st /\ forall o x, (order <= o)%nat -> for_orders st !! o = Some x -> x = None
  | Panic => False
  end.
Proof.
  intros Hh. pose proof (allocate_ok dbg order st U n Hh) as Hok.
  pose proof (find_order_spec 0 order (for_orders st)) as Hf.
  destruct (find_order 0 order (for_orders st)) as [[o f]|].
  - destruct Hok as (st' & -> & Hal). done.
  - rewrite Hok. split; [done|]. intros o x Ho Hx. by eapply (Hf o).
Qed.

(** C2: Frame deallocation.  Freeing a used block of a well-formed heap never
    panics, in debug and in release builds, whatever merging with free
    siblings it triggers: the block is no longer used, its pages are back on
    the free lists, the invariant holds again, and no page info of another
    used block is touched.  (Blocks below 4 MiB are excluded: see
    [deallocate_low_block_panics].) *)
Theorem deallocate_p2frame_correct dbg st U n f order :
  heap st U n -> U !! f = Some order -> 2 ^ 22 <= f -> abs_off st <= f ->
  exists st', deallocate_p2frame dbg f order st = Done (tt, st') /\
    heap st' (delete f U) (n + 2 ^ Z.of_nat order) /\ keeps (delete f U) st st' /\
    used_frames st' = usize_sub (used_frames st) (2 ^ Z.of_nat order) /\
    contents st' = contents st.
Proof.
  intros Hh Hf Hl Ho. destruct (deallocate_ok dbg st U n f order Hh Hf Hl Ho) as (st' & ? & ? & ? & ? & _ & ? & _).
  exists st'. done.
Qed.

(** ** A concrete heap *)

(** One section of four pages at 4 MiB, all free. *)
Definition example_memory : Memory := {|
  sections := [mkSection 0x400000
                 [mkPageInfo 2 2; mkPageInfo 0 0; mkPageInfo 0 0; mkPageInfo 0 0]];
  abs_off := 0x400000;
  for_orders := [None; None; Some 0x400000; None; None; None; None; None; None; None; None];
  used_frames := 0;
  the_zeroed_frame := None;
  contents := {[ 0x401000 := 7 ]}
|}.

Definition example_fl : nat -> list Z := upd 2 [0x400000] (fun _ => []).
Definition example_blocks : gmap Z (nat * tag) := {[ 0x400000 := (2%nat, TFree) ]}.

Lemma example_wf : wf_sections (sections example_memory).
Proof. intros [|i] s Hs; simpl in Hs; [|done]. simplify_eq. split_and!; vm_compute; congruence. Qed.

Lemma example_blocks_inv a o t :
  example_blocks !! a = Some (o, t) -> a = 0x400000 /\ o = 2%nat /\ t = TFree.
Proof. unfold example_blocks. intros [<- [= <- <-]]%lookup_singleton_Some. done. Qed.

Lemma example_geom : Geom (managed example_memory) (abs_off example_memory) example_blocks.
Proof.
  pose proof example_blocks_inv as Hinv.
  assert (Hs : order_size 2 = 0x4000) by reflexivity.
  split.
  - intros a o t (-> & -> & ->)%Hinv. unfold ORDER_COUNT. lia.
  - intros a o t (-> & -> & ->)%Hinv. reflexivity.
  - intros a o t f (-> & -> & ->)%Hinv Hf Hin. unfold in_block in Hin. rewrite Hs in Hin.
    unfold aligned, PAGE_SIZE in Hf.
    assert (f = 0x400000 \/ f = 0x401000 \/ f = 0x402000 \/ f = 0x403000) as Hc.
    { pose proof (Z.div_mod f 4096). lia. }
    destruct Hc as [-> | [-> | [-> | ->]]]; eexists; reflexivity.
  - intros a o t (-> & -> & ->)%Hinv _. simpl. lia.
  - intros a o t b o' t' (-> & -> & ->)%Hinv (-> & -> & ->)%Hinv Hne. done.
  - intros f Hf [r Hr]. destruct (locate_addr _ _ _ example_wf Hf Hr) as ([b l] & Hb & -> & Hlt).
    destruct r as [[|i] j]; simpl in *; [|done]. simplify_eq. exists 0x400000, 2%nat, TFree.
    split; [reflexivity|]. unfold in_block. rewrite Hs. simpl in Hlt. unfold PAGE_SIZE. lia.
Qed.

Lemma example_heap : heap example_memory ∅ 4.
Proof.
  exists example_fl, example_blocks. split; [split; [apply example_wf|apply example_geom|]|].
  - split.
    + reflexivity.
    + intros o Ho. do 11 (destruct o as [|o]; [reflexivity|]). unfold ORDER_COUNT in Ho. lia.
    + intros o Ho. destruct (decide (o = 2)%nat) as [->|].
      * split; [reflexivity|done].
      * unfold example_fl. by rewrite upd_ne.
    + intros o a. unfold example_fl, upd, example_blocks.
      rewrite lookup_singleton_Some. case_decide; set_solver.
    + intros o. unfold example_fl, upd. case_decide; [apply NoDup_singleton|apply NoDup_nil_2].
    + intros a o (_ & _ & ?)%example_blocks_inv. done.
  - split_and!.
    + intros a o (_ & _ & ?)%example_blocks_inv. done.
    + intros a o. unfold example_blocks. rewrite lookup_singleton_Some, lookup_empty. naive_solver.
    + reflexivity.
Qed.

Lemma allocate_p2frame_correct_witness :
  match allocate_p2frame_complex true 0 example_memory with
  | Done (Some (f, size), st') =>
      size = order_size 0 /\ allocated example_memory st' ∅ 4 0 f
  | Done (None, st') => st' = example_memory /\
      forall o x, (0 <= o)%nat -> for_orders example_memory !! o = Some x -> x = None
  | Panic => False
  end.
Proof. apply (allocate_p2frame_correct true 0 example_memory ∅ 4), example_heap. Defined.

(** The same heap after one allocation of order 0. *)
Definition example_memory_used : Memory :=
  match allocate_p2frame_complex true 0 example_memory with
  | Done (_, st') => st'
  | Panic => example_memory
  end.

Lemma example_heap_used : heap example_memory_used {[ 0x400000 := 0%nat ]} 3.
Proof.
  destruct (allocate_ok true 0 example_memory ∅ 4 example_heap) as (st' & Hrun & Hal).
  unfold example_memory_used. rewrite Hrun. apply (al_heap _ _ _ _ _ _ Hal).
Qed.

Lemma deallocate_p2frame_correct_witness :
  exists st', deallocate_p2frame true 0x400000 0 example_memory_used = Done (tt, st') /\
    heap st' (delete 0x400000 {[ 0x400000 := 0%nat ]}) (3 + 2 ^ Z.of_nat 0) /\
    keeps (delete 0x400000 {[ 0x400000 := 0%nat ]}) example_memory_used st' /\
    used_frames st' = usize_sub (used_frames example_memory_used) (2 ^ Z.of_nat 0) /\
    contents st' = contents example_memory_used.
Proof.
  apply (deallocate_p2frame_correct true example_memory_used {[ 0x400000 := 0%nat ]} 3 0x400000 0).
  - apply example_heap_used.
  - apply lookup_singleton_eq.
  - lia.
  - vm_compute. congruence.
Defined.

(** ** Finding page infos *)

(** Sections sorted by base and disjoint, as [init_sections] leaves them. *)
Definition sorted_sections (secs : list Section_) : Prop :=
  wf_sections secs /\
  forall i k s s', (i < k)%nat -> secs !! i = Some s -> secs !! k = Some s' ->
    s_base s < s_base s' /\ s_base s + Z.of_nat (length (s_frames s)) * PAGE_SIZE <= s_base s'.

Lemma partition_point_eq x keys i :
  (forall k y, (k < i)%nat -> keys !! k = Some y -> y < x) ->
  (forall y, keys !! i = Some y -> x <= y) -> (i <= length keys)%nat ->
  partition_point x keys = i.
Proof.
  revert i. induction keys as [|k keys IH]; intros i Hlt Hge Hi; simpl in *; [lia|].
  destruct i as [|i].
  - specialize (Hge k eq_refl). by destruct (Z.ltb_spec k x); [lia|].
  - specialize (Hlt 0%nat k ltac:(lia) eq_refl) as Hk. destruct (Z.ltb_spec k x); [|lia].
    f_equal. apply IH; [|done|lia]. intros k' y Hk'. apply (Hlt (S k')). lia.
Qed.

Lemma locate_complete secs i s j : sorted_sections secs -> secs !! i = Some s ->
  (j < length (s_frames s))%nat -> locate secs (s_base s + Z.of_nat j * PAGE_SIZE) = Some (i, j).
Proof.
  intros [Hwf Hsort] Hs Hj. set (f := s_base s + Z.of_nat j * PAGE_SIZE).
  assert (Hlen : (i < length secs)%nat) by (by eapply lookup_lt_Some).
  assert (Hoff : (f - s_base s) / PAGE_SIZE = Z.of_nat j).
  { unfold f. replace (_ - s_base s) with (Z.of_nat j * PAGE_SIZE) by lia.
    apply Z.div_mul. unfold PAGE_SIZE. lia. }
  assert (Hbefore : forall k y, (k < i)%nat -> (s_base <$> secs) !! k = Some y -> y < f).
  { intros k y Hk Hy. rewrite list_lookup_fmap in Hy. destruct (secs !! k) as [s'|] eqn:Hs'; [|done].
    simpl in Hy. simplify_eq. destruct (Hsort k i s' s Hk Hs' Hs). unfold f, PAGE_SIZE. lia. }
  assert (Hafter : forall y, (s_base <$> secs) !! S i = Some y -> f < y).
  { intros y Hy. rewrite list_lookup_fmap in Hy. destruct (secs !! S i) as [s'|] eqn:Hs'; [|done].
    simpl in Hy. simplify_eq. destruct (Hsort i (S i) s s' ltac:(lia) Hs Hs').
    unfold f, PAGE_SIZE in *. lia. }
  assert (Hi : (s_base <$> secs) !! i = Some (s_base s)) by (by rewrite list_lookup_fmap, Hs).
  unfold locate, binary_search. destruct j as [|j].
  - rewrite (partition_point_eq f _ i); [|done| |rewrite length_fmap; lia].
    + rewrite decide_True by (rewrite Hi; f_equal; unfold f; lia).
      rewrite Hs, Hoff. destruct (Z.ltb_spec (Z.of_nat 0) (Z.of_nat (length (s_frames s)))); [|lia].
      by rewrite Nat2Z.id.
    + intros y Hy. rewrite Hi in Hy. simplify_eq. unfold f. lia.
  - rewrite (partition_point_eq f _ (S i)); [| | |rewrite length_fmap; lia].
    + rewrite decide_False by (intros Hy; apply Hafter in Hy; lia).
      replace (S i - 1)%nat with i by lia. rewrite Hs, Hoff.
      destruct (Z.ltb_spec (Z.of_nat (S j)) (Z.of_nat (length (s_frames s)))); [|lia].
      by rewrite Nat2Z.id.
    + intros k y Hk Hy. destruct (decide (k = i)) as [->|]; [|by eapply Hbefore; [|done]; lia].
      rewrite Hi in Hy. simplify_eq. unfold f, PAGE_SIZE. lia.
    + intros y Hy. apply Hafter in Hy. lia.
Qed.

(** [get_page_info] never panics and is exact: on sorted disjoint sections
    it returns the [PageInfo] reference [(i, j)] for precisely the frame that
    lies [j] pages into section [i], and [None] for every other frame. *)
Theorem get_page_info_correct st f :
  sorted_sections (sections st) -> aligned f ->
  exists r, get_page_info f st = Done (r, st) /\
    forall i j, r = Some (i, j) <->
      exists s, sections st !! i = Some s /\ (j < length (s_frames s))%nat /\
                f = s_base s + Z.of_nat j * PAGE_SIZE.
Proof.
  intros Hs Hf. exists (locate (sections st) f). split; [apply get_page_info_eq|].
  intros i j. split.
  - intros Hl. destruct (locate_addr _ _ _ (proj1 Hs) Hf Hl) as (s & ? & ? & ?). eauto.
  - intros (s & Hsi & Hj & ->). by apply locate_complete.
Qed.

Lemma example_sorted : sorted_sections (sections example_memory).
Proof.
  split; [apply example_wf|]. intros [|i] [|k] s s' Hlt Hi Hk; simpl in *; try done; lia.
Qed.

Lemma get_page_info_correct_witness :
  exists r, get_page_info 0x402000 example_memory = Done (r, example_memory) /\
    forall i j, r = Some (i, j) <->
      exists s, sections example_memory !! i = Some s /\ (j < length (s_frames s))%nat /\
                0x402000 = s_base s + Z.of_nat j * PAGE_SIZE.
Proof. apply (get_page_info_correct example_memory 0x402000); [apply example_sorted|reflexivity]. Defined.

(** ** Writing page infos of used frames *)

(** The [PageInfo] of any frame of a used block may be rewritten, as long as
    the block's first frame keeps the used bit. *)
Lemma heap_sinfo st U n a o f p : heap st U n -> U !! a = Some o -> aligned f -> in_block f a o ->
  (f = a -> as_free p = false) -> heap (sinfo f p st) U n.
Proof.
  intros (fl & B & HI & Hnp & HU & ->) Ha Hf Hin Hp. exists fl, B. split_and!; try done.
  assert (HBa : B !! a = Some (o, TUsed)) by (by apply HU). pose proof HI as [Hwf HG HL].
  assert (Honly : forall k t, B !! f = Some (k, t) -> f = a).
  { intros k t Hk. destruct (decide (f = a)); [done|exfalso]. unfold in_block in Hin.
    pose proof (order_size_pos k). destruct (g_disjoint _ _ _ HG _ _ _ _ _ _ HBa Hk ltac:(done)); lia. }
  apply inv_touch; [done|done|by eapply (g_managed _ _ _ HG _ _ _ _ HBa)| |].
  - intros k Hk. pose proof (Honly _ _ Hk) as ->. congruence.
  - intros k Hk. apply Hp. by eapply Honly.
Qed.

Lemma heap_used_info st U n a o : heap st U n -> U !! a = Some o ->
  aligned a /\ exists r p, locate (sections st) a = Some r /\ pinfo st a = Some p /\ as_free p = false.
Proof.
  intros (fl & B & HI & Hnp & HU & ->) Ha. apply HU in Ha.
  destruct (g_head_managed (i_geom _ _ _ HI) _ _ _ Ha) as [Hal [r Hr]].
  destruct (l_used _ _ _ (i_links _ _ _ HI) _ _ Ha) as (p & Hp & Hfree). eauto 10.
Qed.

Lemma heap_wf st U n : heap st U n -> wf_sections (sections st).
Proof. intros (fl & B & HI & _). apply HI. Qed.

(** ** Initialised frames *)

Lemma allocate_frame_ok dbg st U n : heap st U n ->
  (allocate_frame dbg st = Done (None, st) /\
     forall o x, for_orders st !! o = Some x -> x = None) \/
  (exists f st', allocate_frame dbg st = Done (Some f, st') /\ allocated st st' U n 0 f).
Proof.
  intros Hh. pose proof (allocate_ok dbg 0 st U n Hh) as Hok.
  pose proof (find_order_spec 0 0 (for_orders st)) as Hf.
  unfold allocate_frame, allocate_p2frame.
  destruct (find_order 0 0 (for_orders st)) as [[o f]|].
  - right. destruct Hok as (st' & Hrun & Hal). exists f, st'. by rewrite (bind_Done _ _ _ _ _ Hrun).
  - left. rewrite (bind_Done _ _ _ _ _ Hok). split; [done|]. intros o x Hx. eapply (Hf o); [lia|done].
Qed.

(** What [init_frame] runs after the allocation. *)
Lemma init_frame_run dbg rc st U n f st' : allocate_frame dbg st = Done (Some f, st') ->
  allocated st st' U n 0 f ->
  init_frame dbg rc st =
    (if dbg then Panic else Done (Ok f, sinfo f (mkPageInfo (to_raw rc) 0) st')).
Proof.
  intros Hrun Hal. pose proof (al_info _ _ _ _ _ _ Hal) as Hp.
  destruct (heap_used_info _ _ _ f 0%nat (al_heap _ _ _ _ _ _ Hal)) as [Hfa (r & p & Hr & Hp' & _)];
    [apply lookup_insert_eq|]. rewrite Hp in Hp'. simplify_eq.
  unfold init_frame. rewrite (bind_Done _ _ _ _ _ Hrun). unfold bind_result, ok_or. mrun.
  rewrite Hr. mrun. rewrite (bind_Done _ _ _ _ _ (load_info_pinfo _ _ _ _ Hr Hp)).
  destruct dbg; [done|]. rewrite (bind_Done _ _ _ tt st' eq_refl).
  rewrite (bind_Done _ _ _ tt (sinfo f (mkPageInfo (to_raw rc) 0) st')); [done|].
  by eapply with_info_sinfo.
Qed.

Lemma to_raw_used rc p : valid_rc rc -> pi_refcount p = to_raw rc -> as_free p = false.
Proof.
  intros Hv Hp. rewrite as_free_spec, Hp, to_raw_mk by done.
  rewrite mk_raw_used; [done|]. destruct rc; simpl in *; lia.
Qed.

(** What a successful [init_frame] establishes. *)
Record initialised (st st' : Memory) (U : gmap Z nat) (n : Z) (rc : RefCount) (f : Z) : Prop := {
  in_heap : heap st' (<[f := 0%nat]> U) (n - 1);
  in_fresh : fresh U f 0;
  in_keeps : keeps U st st';
  in_info : pinfo st' f = Some (mkPageInfo (to_raw rc) 0);
  in_contents : contents st' = zero_pages f 1 (contents st);
  in_zeroed : the_zeroed_frame st' = the_zeroed_frame st;
  in_off : abs_off st' = abs_off st;
  in_low : abs_off st <= f;
  in_min : 2 ^ 22 <= f;
  in_locate : forall g, locate (sections st') g = locate (sections st) g
}.

Lemma init_frame_ok rc st U n :
  heap st U n -> valid_rc rc ->
  (init_frame false rc st = Done (Err Oom, st) /\ forall o x, for_orders st !! o = Some x -> x = None) \/
  (exists f st', init_frame false rc st = Done (Ok f, st') /\ initialised st st' U n rc f).
Proof.
  intros Hh Hv. destruct (allocate_frame_ok false st U n Hh) as [[Hrun Hn]|(f & st1 & Hrun & Hal)].
  - left. split; [|done]. unfold init_frame. by rewrite (bind_Done _ _ _ _ _ Hrun).
  - right. exists f. set (q := mkPageInfo (to_raw rc) 0). exists (sinfo f q st1).
    rewrite (init_frame_run false rc st U n f st1 Hrun Hal). split; [done|].
    pose proof (al_heap _ _ _ _ _ _ Hal) as Hh1. pose proof (heap_wf _ _ _ Hh1) as Hwf1.
    destruct (heap_used_info _ _ _ f 0%nat Hh1) as [Hfa (r & p & Hr & Hp & _)]; [apply lookup_insert_eq|].
    assert (Hm : managed st1 f) by (by exists r). pose proof (same_layout_sinfo f q st1) as Hlay.
    split.
    + eapply (heap_sinfo st1 _ _ f 0); [exact Hh1|apply lookup_insert_eq|done|apply in_block_head|].
      intros _. by eapply to_raw_used.
    + apply Hal.
    + intros a o x Ha Hx Hin. rewrite pinfo_sinfo by done.
      rewrite decide_False; [by eapply (al_keeps _ _ _ _ _ _ Hal)|]. intros ->.
      pose proof (al_fresh _ _ _ _ _ _ Hal a o Ha). pose proof (order_size_pos 0).
      unfold in_block in Hin. lia.
    + rewrite pinfo_sinfo by done. by rewrite decide_True by done.
    + rewrite (sl_contents _ _ Hlay). apply (al_contents _ _ _ _ _ _ Hal).
    + rewrite (sl_zeroed _ _ Hlay). apply (al_zeroed_frame _ _ _ _ _ _ Hal).
    + rewrite (sl_off _ _ Hlay). apply (al_off _ _ _ _ _ _ Hal).
    + apply Hal.
    + apply Hal.
    + intros g. rewrite (sl_locate _ _ Hlay). apply (al_locate _ _ _ _ _ _ Hal).
Qed.

Lemma counts_to_raw rc nx : valid_rc rc -> counts (mkPageInfo (to_raw rc) nx) rc.
Proof.
  intros Hv. split; cbn [pi_refcount].
  - rewrite to_raw_mk by done. apply mk_raw_range. destruct rc; simpl in *; lia.
  - unfold refcount. cbn [pi_refcount]. rewrite to_raw_mk by done.
    rewrite from_raw_mk by (destruct rc; simpl in *; lia). by apply decode_rc.
Qed.

(** In release builds [init_frame] either reports out-of-memory, with
    nothing changed and every free list empty, or returns a fresh zeroed frame
    whose reference count is the requested one, keeping the heap well-formed. *)
Theorem init_frame_correct rc st U n :
  heap st U n -> valid_rc rc ->
  (init_frame false rc st = Done (Err Oom, st) /\ forall o x, for_orders st !! o = Some x -> x = None) \/
  (exists f st', init_frame false rc st = Done (Ok f, st') /\
     heap st' (<[f := 0%nat]> U) (n - 1) /\ fresh U f 0 /\ keeps U st st' /\
     (exists p, pinfo st' f = Some p /\ refcount p = Some rc) /\
     contents st' = zero_pages f 1 (contents st)).
Proof.
  intros Hh Hv. destruct (init_frame_ok rc st U n Hh Hv) as [?|(f & st' & Hrun & Hi)]; [by left|right].
  exists f, st'. split_and!; [done|apply Hi..| |apply Hi].
  exists (mkPageInfo (to_raw rc) 0). split; [apply Hi|]. by apply counts_to_raw.
Qed.

Lemma init_frame_correct_witness :
  (init_frame false RefCount_One example_memory = Done (Err Oom, example_memory) /\
     forall o x, for_orders example_memory !! o = Some x -> x = None) \/
  (exists f st', init_frame false RefCount_One example_memory = Done (Ok f, st') /\
     heap st' (<[f := 0%nat]> ∅) (4 - 1) /\ fresh ∅ f 0 /\ keeps ∅ example_memory st' /\
     (exists p, pinfo st' f = Some p /\ refcount p = Some RefCount_One) /\
     contents st' = zero_pages f 1 (contents example_memory)).
Proof. apply (init_frame_correct RefCount_One example_memory ∅ 4); [apply example_heap|done]. Defined.

(** With debug assertions on, [init_frame] panics whenever the allocator
    can serve it: a frame fresh from [allocate_frame] carries
    [RC_USED_NOT_FREE] with count 0, whose [refcount()] is [None], so
    [debug_assert_eq!(page_info.refcount(), Some(RefCount::One))] fails. *)
Theorem init_frame_debug_panics rc st U n o f :
  heap st U n -> for_orders st !! o = Some (Some f) -> init_frame true rc st = Panic.
Proof.
  intros Hh Hf. destruct (allocate_frame_ok true st U n Hh) as [[_ Hn]|(g & st1 & Hrun & Hal)].
  - by specialize (Hn o (Some f) Hf).
  - apply (init_frame_run true rc st U n g st1 Hrun Hal).
Qed.

Lemma init_frame_debug_panics_witness :
  for_orders example_memory !! 2%nat = Some (Some 0x400000) /\
  init_frame true RefCount_One example_memory = Panic.
Proof.
  split; [reflexivity|].
  apply (init_frame_debug_panics RefCount_One example_memory ∅ 4 2 0x400000); [apply example_heap|reflexivity].
Defined.

(** ** Allocation and deallocation undo each other *)

(** A block handed out by [allocate_p2frame_complex] can be given back: the
    deallocation does not panic and leaves a heap with the same used blocks,
    the same number of free pages and the same [used_frames] as before. *)
Theorem allocate_deallocate_roundtrip dbg order st U n f size st1 :
  heap st U n -> 2 ^ 22 <= abs_off st -> usize_ok (used_frames st) ->
  allocate_p2frame_complex dbg order st = Done (Some (f, size), st1) ->
  exists st2, deallocate_p2frame dbg f order st1 = Done (tt, st2) /\
    heap st2 U n /\ keeps U st st2 /\ used_frames st2 = used_frames st.
Proof.
  intros Hh Hoff Hu Hrun. pose proof (allocate_ok dbg order st U n Hh) as Hok.
  destruct (find_order 0 order (for_orders st)) as [[o g]|]; [|rewrite Hok in Hrun; congruence].
  destruct Hok as (st' & Hrun' & Hal). rewrite Hrun in Hrun'. simplify_eq.
  assert (Hnone : U !! g = None).
  { destruct (U !! g) as [k|] eqn:Hg; [|done]. pose proof (al_fresh _ _ _ _ _ _ Hal g k Hg).
    pose proof (order_size_pos k). pose proof (order_size_pos order). lia. }
  pose proof (al_low _ _ _ _ _ _ Hal) as Hlow.
  pose proof (al_off _ _ _ _ _ _ Hal) as Hoff1.
  destruct (deallocate_ok dbg st' _ _ g order (al_heap _ _ _ _ _ _ Hal)) as (st2 & Hrun2 & Hh2 & Hk2 & Hu2 & _);
    [apply lookup_insert_eq|lia|lia|].
  rewrite delete_insert_id in Hh2, Hk2 by done.
  exists st2. split_and!; [done| | |].
  - by replace n with (n - 2 ^ Z.of_nat order + 2 ^ Z.of_nat order) by lia.
  - intros a k x Ha Hx Hin. rewrite (Hk2 a k x) by done. by apply (al_keeps _ _ _ _ _ _ Hal a k x).
  - rewrite Hu2, (al_used _ _ _ _ _ _ Hal). unfold usize_sub, usize_add, wrap.
    rewrite Zminus_mod_idemp_l. replace (_ + _ - _) with (used_frames st) by lia. by apply Z.mod_small.
Qed.

Lemma allocate_deallocate_roundtrip_witness :
  exists st2, deallocate_p2frame true 0x400000 0 example_memory_used = Done (tt, st2) /\
    heap st2 ∅ 4 /\ keeps ∅ example_memory st2 /\ used_frames st2 = used_frames example_memory.
Proof.
  apply (allocate_deallocate_roundtrip true 0 example_memory ∅ 4 0x400000 4096).
  - apply example_heap.
  - vm_compute. congruence.
  - split; vm_compute; congruence.
  - reflexivity.
Defined.

(** ** Low memory *)

(** A section of one page at [0x1000], in use. *)
Definition low_memory : Memory := {|
  sections := [mkSection 0x1000 [mkPageInfo (to_raw RefCount_One) 0]];
  abs_off := 0x1000;
  for_orders := replicate ORDER_COUNT None;
  used_frames := 1;
  the_zeroed_frame := None;
  contents := ∅
|}.

(** Freeing a block whose sibling would be frame [0x0] panics: the merge
    loop computes the sibling with [Frame::containing] before it looks whether
    the sibling is managed, and that constructor rejects address 0.  It
    happens for every block at [PAGE_SIZE << order] below order 10, in both
    profiles, so the allocator is only safe above 4 MiB. *)
Theorem deallocate_low_block_panics dbg st f order :
  f = order_size order -> (order < MAX_ORDER)%nat -> managed st f ->
  deallocate_p2frame dbg f order st = Panic.
Proof.
  intros -> Ho [r Hr]. unfold deallocate_p2frame. mrun. rewrite Hr. mrun.
  unfold bind at 1. destruct (with_info r (store_refcount 0) st) as [[[] st1]|]; [|done].
  unfold MAX_ORDER, ORDER_COUNT in *. replace (11 - 1 - order)%nat with (S (9 - order)) by lia.
  unfold bind at 1. simpl seq. unfold merge_loop at 1.
  rewrite Z.lxor_nilpotent. reflexivity.
Qed.

Lemma deallocate_low_block_panics_witness :
  0x1000 = order_size 0 /\ deallocate_p2frame false 0x1000 0 low_memory = Panic.
Proof.
  split; [reflexivity|]. apply (deallocate_low_block_panics false low_memory 0x1000 0).
  - reflexivity.
  - unfold MAX_ORDER, ORDER_COUNT. lia.
  - eexists. reflexivity.
Defined.
