(* ===== verification/FrameRefs.v ===== *)
(** * Accounting of frame references

    The frame allocator's heap together with a ledger [c] that says how many
    references to each frame exist.  [acct m c] states that the ledger is exact:
    a frame it knows is either outside the allocator's sections (device memory)
    or a used frame whose [PageInfo] counts exactly [c f] references, and every
    other block in use is one of the kernel's own, so that a frame whose last
    reference went is back in the allocator ([acct_available]).  The lemmas
    say what each reference operation of the kernel does to the ledger; the
    address-space theorems are proved on top of them. *)

From S2P Require Import Prelude PageInfo FrameAllocator BuddyInvariant FrameAllocatorSpec.

(** A physical address a page table may hold. *)
Definition frame_addr (f : Z) : Prop := 0 < f < 2 ^ 64 /\ aligned f.

Record counted (m : Memory) (U : gmap Z nat) (f n : Z) : Prop := {
  ct_used : U !! f = Some 0%nat;
  ct_min : 2 ^ 22 <= f;
  ct_off : abs_off m <= f;
  ct_rc : exists p rc, pinfo m f = Some p /\ counts p rc /\ rc_count rc = n
}.

Definition frame_ok (m : Memory) (U : gmap Z nat) (f n : Z) : Prop :=
  frame_addr f /\ (locate (sections m) f = None \/ counted m U f n).

(** The blocks in use to which no references are counted: page tables, kernel
    stacks, the kernel's image. *)
Class KernelBlocks : Type := kernel_blocks : gmap Z nat.

Section accounting.
Context {KB : KernelBlocks}.

(** The blocks in use are those of the kernel and the frames of the ledger. *)
Definition exact (U : gmap Z nat) (c : Z -> Z) : Prop :=
  forall f, U !! f = kernel_blocks !! f /\ c f = 0 \/ kernel_blocks !! f = None /\ 0 < c f.

Definition acct (m : Memory) (c : Z -> Z) : Prop :=
  exists U n, heap m U n /\ exact U c /\ forall f, 0 <= c f /\ (0 < c f -> frame_ok m U f (c f)).

(** One reference more, one less. *)
Definition bump (f d : Z) (c : Z -> Z) : Z -> Z := fun g => if decide (g = f) then c g + d else c g.

Lemma bump_eq f d c : bump f d c f = c f + d.
Proof. unfold bump. by rewrite decide_True. Qed.
Lemma bump_ne f d c g : g <> f -> bump f d c g = c g.
Proof. intros. unfold bump. by rewrite decide_False. Qed.

Lemma acct_ext m c c' : (forall f, c' f = c f) -> acct m c -> acct m c'.
Proof.
  intros E (U & n & Hh & He & Hc). exists U, n. split_and!; [done| |]; intros f; rewrite E; [apply He|apply Hc].
Qed.

#[export] Instance acct_proper m : Proper (pointwise_relation Z eq ==> iff) (acct m).
Proof. intros c c' E. split; apply acct_ext; intros f; [symmetry|]; apply E. Qed.

(** Nothing outside the memory manager's words moved. *)
Record quiet (m m' : Memory) : Prop := {
  q_locate : forall g, locate (sections m') g = locate (sections m) g;
  q_off : abs_off m' = abs_off m;
  q_zeroed : the_zeroed_frame m' = the_zeroed_frame m
}.

#[export] Instance quiet_preorder : PreOrder quiet.
Proof.
  split; [done|]. intros x y z [H1 H2 H3] [H4 H5 H6].
  split; [intros g; by rewrite H4|by rewrite H5|by rewrite H6].
Qed.

Lemma quiet_sinfo f p m : quiet m (sinfo f p m).
Proof.
  pose proof (same_layout_sinfo f p m) as Hl.
  split; [apply (sl_locate _ _ Hl)|apply (sl_off _ _ Hl)|apply (sl_zeroed _ _ Hl)].
Qed.

(** A frame keeps its count when its block and its page info survive. *)
Lemma counted_keep m m' U U' g n : quiet m m' -> U' !! g = U !! g -> pinfo m' g = pinfo m g ->
  counted m U g n -> counted m' U' g n.
Proof.
  intros Hq HU Hp [H1 H2 H3 H4]. split; [by rewrite HU|done|by rewrite (q_off _ _ Hq)|by rewrite Hp].
Qed.

Lemma counted_addr m U n0 f n : heap m U n0 -> counted m U f n ->
  exists r p rc, locate (sections m) f = Some r /\ pinfo m f = Some p /\ counts p rc /\ rc_count rc = n /\ aligned f.
Proof.
  intros Hh [HU _ _ (p & rc & Hp & Hc & Hn)].
  destruct (heap_used_info _ _ _ _ _ Hh HU) as [Hal (r & p' & Hr & Hp' & _)]. simplify_eq. eauto 10.
Qed.

Lemma counts_range p rc : counts p rc -> 0 < rc_count rc < 2 ^ 62.
Proof. intros H. by destruct (counts_inv _ _ H) as (_ & _ & ? & _). Qed.

Lemma counts_used p rc : counts p rc -> as_free p = false.
Proof.
  intros H. destruct (counts_inv _ _ H) as (s & E & Hr & _). rewrite as_free_spec, E, mk_raw_used; [done|lia].
Qed.

Lemma spec_remove_count rc rc' : spec_remove_ref rc = Some rc' -> valid_rc rc ->
  rc_count rc' = rc_count rc - 1.
Proof. destruct rc as [|n|n]; simpl; [done| |]; destruct (Z.eqb_spec n 2); intros [= <-]; simpl; lia. Qed.

Lemma counts_valid p rc : counts p rc -> valid_rc rc.
Proof.
  intros H. destruct (counts_inv _ _ H) as (s & _ & Hr & [->|[_ Hn]]); [done|].
  destruct rc; simpl in *; [done|lia|lia].
Qed.

(** A frame counted as shared memory. *)
Definition shared (m : Memory) (f : Z) : Prop :=
  exists p rc, pinfo m f = Some p /\ counts p rc /\ rc_shared rc = true.

Lemma shared_same m m' f : pinfo m' f = pinfo m f -> shared m' f -> shared m f.
Proof. intros E (p & rc & Hp & H). exists p, rc. by rewrite <- E. Qed.

(** Rewriting one counted frame's page info. *)
Lemma acct_write m c f p rc :
  acct m c -> locate (sections m) f <> None -> 0 < c f -> counts p rc ->
  acct (sinfo f p m) (fun g => if decide (g = f) then rc_count rc else c g).
Proof.
  intros (U & n & Hh & He & Hc) Hloc Hf Hp. pose proof (heap_wf _ _ _ Hh) as Hwf.
  destruct (proj2 (Hc f) Hf) as [Haf [?|Hcf]]; [done|].
  pose proof (counts_range _ _ Hp) as Hr.
  assert (Hm : managed m f) by (destruct (locate (sections m) f) eqn:E; [by eexists|done]).
  exists U, n. split_and!.
  { eapply (heap_sinfo m U n f 0); [done|apply Hcf|apply Haf|apply in_block_head|].
    intros _. by eapply counts_used. }
  { intros g. destruct (He g) as [[? ?]|[? ?]]; case_decide; subst; [lia|by left|right; split; [done|lia]|by right]. }
  intros g. destruct (decide (g = f)) as [->|Hne].
  - split; [lia|]. intros _. split; [done|right].
    split; [apply Hcf|apply Hcf|rewrite (q_off _ _ (quiet_sinfo f p m)); apply Hcf|].
    exists p, rc. split; [|done]. rewrite pinfo_sinfo by (done || apply Haf). by rewrite decide_True.
  - destruct (Hc g) as [H0 Hg]. split; [done|]. intros Hpos. destruct (Hg Hpos) as [Hag [Hl|Hcg]]; (split; [done|]).
    + left. by rewrite locate_sinfo.
    + right. eapply (counted_keep m); [apply quiet_sinfo|done| |done].
      rewrite pinfo_sinfo by (done || apply Haf || apply Hag). by rewrite decide_False.
Qed.

(** One frame leaves the ledger and the blocks in use, or joins both. *)
Lemma exact_delete U c f : exact U c -> 0 < c f -> exact (delete f U) (fun g => if decide (g = f) then 0 else c g).
Proof.
  intros He Hf g. destruct (decide (g = f)) as [->|Hne]; [|rewrite lookup_delete_ne by done; apply He].
  rewrite lookup_delete_eq. destruct (He f) as [[_ ?]|[-> _]]; [lia|by left].
Qed.

Lemma exact_insert U c f d : exact U c -> U !! f = None -> c f = 0 -> 0 < d -> exact (<[f := 0%nat]> U) (bump f d c).
Proof.
  intros He HU Hf Hd g. unfold bump. destruct (decide (g = f)) as [->|Hne]; [|rewrite lookup_insert_ne by done; apply He].
  right. destruct (He f) as [[<- _]|[_ ?]]; [split; [done|lia]|lia].
Qed.

(** Deallocating a frame whose last reference is gone. *)
Lemma acct_release dbg m c f : acct m c -> locate (sections m) f <> None -> 0 < c f ->
  forall p, as_free p = false ->
  exists m', deallocate_frame dbg f (sinfo f p m) = Done (tt, m') /\ quiet m m' /\
    contents m' = contents m /\ acct m' (fun g => if decide (g = f) then 0 else c g) /\
    forall g, g <> f -> 0 < c g -> pinfo m' g = pinfo m g.
Proof.
  intros (U & n & Hh & He & Hc) Hloc Hf p Hp. pose proof (heap_wf _ _ _ Hh) as Hwf.
  destruct (proj2 (Hc f) Hf) as [Haf [?|Hcf]]; [done|].
  assert (Hm : managed m f) by (destruct (locate (sections m) f) eqn:E; [by eexists|done]).
  assert (Hh1 : heap (sinfo f p m) U n).
  { eapply (heap_sinfo m U n f 0); [done|apply Hcf|apply Haf|apply in_block_head|done]. }
  destruct (deallocate_ok dbg (sinfo f p m) U n f 0 Hh1) as (m' & Hrun & Hh' & Hk & _ & Hz & Hct & Hl & Ho);
    [apply Hcf|apply Hcf|rewrite (q_off _ _ (quiet_sinfo f p m)); apply Hcf|].
  assert (Hq : quiet m m').
  { transitivity (sinfo f p m); [apply quiet_sinfo|by split]. }
  assert (Hkeep : forall g, g <> f -> 0 < c g -> pinfo m' g = pinfo m g).
  { intros g Hne Hpos. destruct (proj2 (Hc g) Hpos) as [Hag [Hl'|Hcg]].
    - unfold pinfo. by rewrite (q_locate _ _ Hq), Hl'.
    - rewrite (Hk g 0%nat g); [|by rewrite lookup_delete_ne by done; apply Hcg|apply Hag|apply in_block_head].
      rewrite pinfo_sinfo by (done || apply Haf || apply Hag). by rewrite decide_False. }
  exists m'. split_and!; [done|done| | |done].
  { rewrite Hct. apply (sl_contents _ _ (same_layout_sinfo f p m)). }
  exists (delete f U), (n + 2 ^ Z.of_nat 0). split_and!; [done|by apply exact_delete|].
  intros g. destruct (decide (g = f)) as [->|Hne]; [lia|].
  destruct (Hc g) as [H0 Hg]. split; [done|]. intros Hpos. destruct (Hg Hpos) as [Hag [Hl'|Hcg]]; (split; [done|]).
  - left. by rewrite (q_locate _ _ Hq).
  - right. eapply (counted_keep m); [done|by rewrite lookup_delete_ne|by apply Hkeep|done].
Qed.

(** Dropping one reference the way [handle_free_action] and
    [Drop for RaiiFrame] do. *)
Definition drop_ref (dbg : bool) (f : Frame) (r : InfoRef) : M Memory unit :=
  let! rc := with_info r remove_ref in
  match rc with None => deallocate_frame dbg f | Some _ => ret tt end.

Lemma drop_ref_ok dbg m c f r : acct m c -> locate (sections m) f = Some r -> 0 < c f ->
  exists m', drop_ref dbg f r m = Done (tt, m') /\ quiet m m' /\ contents m' = contents m /\
    acct m' (bump f (-1) c) /\ (forall g, 0 < bump f (-1) c g -> shared m' g -> shared m g).
Proof.
  intros Ha Hr Hf. pose proof Ha as (U & n & Hh & He & Hc).
  destruct (proj2 (Hc f) Hf) as [_ [?|Hcf]]; [congruence|].
  destruct (counted_addr _ _ _ _ _ Hh Hcf) as (r' & p & rc & Hr' & Hp & Hct & Hn & _). simplify_eq.
  destruct (remove_ref_ok p rc Hct) as (p' & Hrun & Hrc' & Hok & Hfree & _).
  unfold drop_ref. rewrite (bind_Done _ _ m (spec_remove_ref rc) (sinfo f p' m)) by (by eapply with_info_sinfo).
  destruct (spec_remove_ref rc) as [rc'|] eqn:Es.
  - eexists. split; [done|]. split; [apply quiet_sinfo|].
    split; [apply (sl_contents _ _ (same_layout_sinfo f p' m))|]. split.
    + eapply acct_ext; [|apply (acct_write m c f p' rc'); [done|congruence|done|by split]].
      intros g. unfold bump. case_decide; [|done]. subst. rewrite <- Hn. symmetry.
      rewrite (spec_remove_count _ _ Es) by (by eapply counts_valid). lia.
    + intros g Hg. destruct (decide (g = f)) as [->|Hne].
      * intros (q & rq & Hq & [_ Hcq] & Hsq). exists p, rc. split_and!; [done|done|].
        rewrite pinfo_sinfo in Hq; [|by eapply heap_wf|apply (proj2 (Hc f) Hf)..|by eexists].
        rewrite decide_True in Hq by done. simplify_eq.
        destruct rc as [|j|j]; simpl in *; try done. by destruct (j =? 2); simplify_eq.
      * rewrite bump_ne in Hg by done. apply shared_same.
        rewrite pinfo_sinfo; [by rewrite decide_False|by eapply heap_wf|apply (proj2 (Hc f) Hf)|apply (proj2 (Hc g) Hg)|by eexists].
  - destruct (acct_release dbg m c f Ha ltac:(congruence) Hf p' Hfree) as (m' & -> & Hq & Hcont & Ha' & Hk).
    exists m'. split_and!; [done|done|done| |].
    + eapply acct_ext; [|exact Ha'].
      intros g. unfold bump. case_decide; [|done]. subst. rewrite <- Hn. destruct rc; simpl in *; done || lia.
    + intros g Hg. destruct (decide (g = f)) as [->|Hne].
      * rewrite bump_eq, <- Hn in Hg. destruct rc; simpl in *; done || lia.
      * rewrite bump_ne in Hg by done. apply shared_same. by apply Hk.
Qed.

(** Every free list is empty. *)
Definition exhausted (m : Memory) : Prop := forall o x, for_orders m !! o = Some x -> x = None.

Lemma exhausted_init rc m U n : heap m U n -> exhausted m -> init_frame false rc m = Done (Err Oom, m).
Proof.
  intros Hh Hx. pose proof (allocate_ok false 0 m U n Hh) as Hok. pose proof (find_order_spec 0 0 (for_orders m)) as Hf.
  unfold init_frame, allocate_frame, allocate_p2frame.
  destruct (find_order 0 0 (for_orders m)) as [[o f]|].
  - destruct Hf as (_ & _ & Ho & _). by apply Hx in Ho.
  - by rewrite bind_assoc, (bind_Done _ _ _ _ _ Hok).
Qed.

(** A new frame from [init_frame], which fails exactly when every free list is
    empty. *)
Lemma acct_init m c rc : acct m c -> valid_rc rc ->
  (init_frame false rc m = Done (Err Oom, m) /\ exhausted m) \/
  (exists f m', init_frame false rc m = Done (Ok f, m') /\ quiet m m' /\ frame_addr f /\
     locate (sections m') f <> None /\ c f = 0 /\
     pinfo m' f = Some (mkPageInfo (to_raw rc) 0) /\
     contents m' = delete f (contents m) /\ acct m' (bump f (rc_count rc) c) /\ ~ exhausted m).
Proof.
  intros (U & n & Hh & He & Hc) Hv. destruct (init_frame_ok rc m U n Hh Hv) as [?|(f & m' & Hrun & Hi)]; [by left|right].
  pose proof (in_heap _ _ _ _ _ _ Hi) as Hh'.
  destruct (heap_used_info _ _ _ f 0%nat Hh') as [Hal (r & p & Hr & Hp & _)]; [apply lookup_insert_eq|].
  assert (Hq : quiet m m') by (split; apply Hi).
  assert (Hfresh : U !! f = None).
  { destruct (U !! f) as [k|] eqn:E; [|done]. pose proof (in_fresh _ _ _ _ _ _ Hi f k E).
    pose proof (order_size_pos k). pose proof (order_size_pos 0). lia. }
  assert (Hcf : c f = 0).
  { destruct (Hc f) as [H0 Hf]. destruct (decide (0 < c f)) as [Hpos|]; [|lia].
    destruct (Hf Hpos) as [_ [Hl|Hcf]].
    - rewrite <- (q_locate _ _ Hq), Hr in Hl. done.
    - rewrite (ct_used _ _ _ _ Hcf) in Hfresh. done. }
  assert (Haddr : frame_addr f).
  { destruct (locate_addr _ _ _ (heap_wf _ _ _ Hh') Hal Hr) as (s & Hs & Ef & Hlt).
    destruct (heap_wf _ _ _ Hh' _ _ Hs) as (? & ? & ?). split; [|done]. unfold PAGE_SIZE in *. lia. }
  exists f, m'. split_and!; [done|done|done|congruence|done|apply Hi| | |].
  { rewrite (in_contents _ _ _ _ _ _ Hi). done. }
  2: { intros Hx. by rewrite (exhausted_init rc m U n Hh Hx) in Hrun. }
  exists (<[f := 0%nat]> U), (n - 1). pose proof (counts_range _ _ (counts_to_raw rc 0 Hv)) as Hrange0.
  split_and!; [done|apply exact_insert; [done..|lia]|]. intros g. unfold bump.
  destruct (decide (g = f)) as [->|Hne].
  - rewrite Hcf. pose proof (counts_range _ _ (counts_to_raw rc 0 Hv)) as Hrange. split; [lia|]. intros _.
    split; [done|right]. split; [apply lookup_insert_eq|apply Hi|rewrite (q_off _ _ Hq); apply Hi|].
    exists (mkPageInfo (to_raw rc) 0), rc. split_and!; [apply Hi|by apply counts_to_raw|lia].
  - destruct (Hc g) as [H0 Hg]. split; [done|]. intros Hpos.
    destruct (Hg Hpos) as [Hag [Hl'|Hcg]]; (split; [done|]).
    + left. by rewrite (q_locate _ _ Hq).
    + right. eapply (counted_keep m); [done|by rewrite lookup_insert_ne| |done].
      apply (in_keeps _ _ _ _ _ _ Hi g 0%nat); [apply Hcg|apply Hag|apply in_block_head].
Qed.

(** [add_ref] on a counted frame. *)
Lemma acct_add_ref m c f r kind : acct m c -> locate (sections m) f = Some r -> 0 < c f ->
  exists p rc, pinfo m f = Some p /\ counts p rc /\ rc_count rc = c f /\
  match spec_add_ref rc kind with
  | Ok rc' => exists m', with_info r (add_ref kind) m = Done (Ok tt, m') /\ quiet m m' /\
                contents m' = contents m /\ (exists p', pinfo m' f = Some p' /\ counts p' rc') /\ acct m' (bump f 1 c) /\
                (forall g, g <> f -> 0 < c g -> pinfo m' g = pinfo m g)
  | Err e => with_info r (add_ref kind) m = Done (Err e, m)
  end.
Proof.
  intros Ha Hr Hf. pose proof Ha as (U & n & Hh & He & Hc).
  destruct (proj2 (Hc f) Hf) as [Haf [?|Hcf]]; [congruence|].
  destruct (counted_addr _ _ _ _ _ Hh Hcf) as (r' & p & rc & Hr' & Hp & Hct & Hn & _). simplify_eq.
  exists p, rc. split_and!; [done|done|done|]. pose proof (add_ref_ok p rc kind Hct) as Hadd.
  destruct (spec_add_ref rc kind) as [rc'|e] eqn:Es.
  - destruct Hadd as (p' & Hrun & Hct' & _). exists (sinfo f p' m).
    split_and!; [by eapply with_info_sinfo|apply quiet_sinfo|apply (sl_contents _ _ (same_layout_sinfo f p' m))| | |].
    { exists p'. split; [|done]. rewrite pinfo_sinfo; [by rewrite decide_True|by eapply heap_wf|apply Haf|apply Haf|by eexists]. }
    { eapply acct_ext; [|apply (acct_write m c f p' rc'); [done|congruence|done|done]].
      intros g. unfold bump. case_decide; [|done]. subst. rewrite <- Hn.
      destruct rc as [|k|k], kind; simpl in Es; simplify_eq; try done;
        destruct (RC_MAX <=? k); simplify_eq; done. }
    intros g Hne Hg. rewrite pinfo_sinfo; [by rewrite decide_False|by eapply heap_wf|apply Haf|apply (proj2 (Hc g) Hg)|by eexists].
  - unfold with_info. unfold pinfo in Hp. rewrite Hr in Hp. rewrite Hp, Hadd.
    f_equal. f_equal. clear -Hp. destruct m as [secs ao fo uf zf ct]. unfold set_sections. simpl in *. f_equal.
    unfold update_info, lookup_info in *. apply list_eq. intros i. rewrite list_lookup_alter.
    case_decide; [subst|done]. destruct (secs !! r.1) as [s|]; simpl; [|done]. f_equal. destruct s as [sb fr]; simpl in *.
    f_equal. by apply list_insert_id.
Qed.

(** The ledger does not depend on what memory holds. *)
Lemma acct_contents m c x : acct m c -> acct (set_contents x m) c.
Proof.
  intros (U & n & (fl & B & HI & Hrest) & He & Hc). exists U, n. split_and!; [|done|].
  - exists fl, B. split; [|done]. by eapply Inv_rest; [..|exact HI].
  - intros f. destruct (Hc f) as [H0 Hf]. split; [done|]. intros Hpos.
    destruct (Hf Hpos) as [Ha [Hl|[H1 H2 H3 H4]]]; (split; [done|]); [by left|right]. by split.
Qed.

(** ... nor on which frame is the zeroed one. *)
Lemma acct_zeroed_frame m c x : acct m c -> acct (set_zeroed_frame x m) c.
Proof.
  intros (U & n & (fl & B & HI & Hrest) & He & Hc). exists U, n. split_and!; [|done|].
  - exists fl, B. split; [|done]. by eapply Inv_rest; [..|exact HI].
  - intros f. destruct (Hc f) as [H0 Hf]. split; [done|]. intros Hpos.
    destruct (Hf Hpos) as [Ha [Hl|[H1 H2 H3 H4]]]; (split; [done|]); [by left|right]. by split.
Qed.

Lemma acct_kernel m n : heap m kernel_blocks n -> acct m (fun _ => 0).
Proof. intros Hh. exists kernel_blocks, n. split_and!; [done|by left|]. intros f. lia. Qed.

(** [f] lies in a block of one of the allocator's free lists. *)
Definition available (m : Memory) (f : Z) : Prop :=
  exists fl B a o, Inv m fl B /\ a ∈ fl o /\ in_block f a o.

(** A frame whose last reference went can be allocated again. *)
Lemma acct_available m m' c c' f : acct m c -> acct m' c' -> quiet m m' -> locate (sections m) f <> None ->
  0 < c f -> c' f = 0 -> available m' f.
Proof.
  intros (U & n & Hh & He & Hc) (U' & n' & Hh' & He' & Hc') Hq Hl Hf Hf'.
  destruct (proj2 (Hc f) Hf) as [[_ Hal] [?|Hcf]]; [done|].
  pose proof Hh' as (fl & B & HI & Hnp & HU & _).
  destruct (g_cover _ _ _ (i_geom _ _ _ HI) f Hal) as (a & o & t & HB & Hin).
  { unfold managed. rewrite (q_locate _ _ Hq). by destruct (locate (sections m) f); [eexists|]. }
  destruct t; [by exists fl, B, a, o; split_and!; [|apply (l_fl _ _ _ (i_links _ _ _ HI))|]|exfalso|by apply Hnp in HB].
  apply HU in HB. assert (Hfa : a <> f -> in_block f a o -> U !! a = Some o -> False).
  { destruct Hh as (fl0 & B0 & HI0 & _ & HU0 & _). intros Hne Hb Ha.
    pose proof (g_disjoint _ _ _ (i_geom _ _ _ HI0) a o TUsed f 0%nat TUsed) as Hd.
    rewrite <- !HU0 in Hd. specialize (Hd Ha (ct_used _ _ _ _ Hcf) Hne). pose proof (order_size_pos 0).
    unfold in_block in Hb. lia. }
  destruct (He' a) as [[HK _]|[HK Hpos]].
  - rewrite HB in HK. destruct (He a) as [[HK' Ha0]|[HK' _]]; [|congruence].
    apply Hfa; [intros ->; lia|done|congruence].
  - destruct (proj2 (Hc' a) Hpos) as [[_ Haa] [Hla|Hca]].
    + destruct (heap_used_info _ _ _ _ _ Hh' HB) as [_ (r & _ & Hr & _)]. congruence.
    + rewrite (ct_used _ _ _ _ Hca) in HB. injection HB as <-. assert (f = a); [|subst; lia].
      unfold in_block, aligned in *. change (order_size 0) with 4096 in Hin. change PAGE_SIZE with 4096 in *. clear -Hin Hal Haa.
      Z.to_euclidean_division_equations. lia.
Qed.

End accounting.
