(* ===== verification/OrdMap.v ===== *)
(** * Ordered maps (the standard library's BTreeMap)

    The kernel keeps grants, holes and queues in [BTreeMap]s and uses their
    ordered iteration ([range]).  A map is its list of entries in key order;
    every operation is defined by splitting the list at a key. *)

From S2P Require Import Prelude.

Section ord_map.
Context {V : Type}.

(** Entries below [k], and entries from [k] on. *)
Fixpoint split_key (k : Z) (m : list (Z * V)) : list (Z * V) * list (Z * V) :=
  match m with
  | [] => ([], [])
  | (k', v) :: m' =>
      if k' <? k then let (a, b) := split_key k m' in ((k', v) :: a, b) else ([], m)
  end.

(** [range(..k)], [range(k..)] *)
Definition below (k : Z) (m : list (Z * V)) : list (Z * V) := (split_key k m).1.
Definition from (k : Z) (m : list (Z * V)) : list (Z * V) := (split_key k m).2.

(** [get], [insert], [remove] *)
Definition om_get (k : Z) (m : list (Z * V)) : option V :=
  match from k m with
  | (k', v) :: _ => if k' =? k then Some v else None
  | [] => None
  end.
Definition om_delete (k : Z) (m : list (Z * V)) : list (Z * V) :=
  below k m ++ match from k m with
               | (k', v) :: b => if k' =? k then b else (k', v) :: b
               | [] => []
               end.
Definition om_insert (k : Z) (v : V) (m : list (Z * V)) : list (Z * V) :=
  below k m ++ (k, v) :: match from k m with
                         | (k', v') :: b => if k' =? k then b else (k', v') :: b
                         | [] => []
                         end.

(** ** Sortedness and decomposition *)

Definition keys_lt (k : Z) (m : list (Z * V)) : Prop := Forall (fun e => e.1 < k) m.
Definition keys_ge (k : Z) (m : list (Z * V)) : Prop := Forall (fun e => k <= e.1) m.

(** Strictly increasing keys. *)
Fixpoint sorted (m : list (Z * V)) : Prop :=
  match m with
  | [] => True
  | e :: m' => keys_ge (e.1 + 1) m' /\ sorted m'
  end.

Lemma keys_ge_mono k k' m : k' <= k -> keys_ge k m -> keys_ge k' m.
Proof. intros Hk H. eapply Forall_impl; [exact H|]. intros; simpl in *; lia. Qed.
Lemma keys_lt_mono k k' m : k <= k' -> keys_lt k m -> keys_lt k' m.
Proof. intros Hk H. eapply Forall_impl; [exact H|]. intros; simpl in *; lia. Qed.

Lemma split_key_app k a b : keys_lt k a -> keys_ge k b -> split_key k (a ++ b) = (a, b).
Proof.
  intros Ha Hb. induction Ha as [|[k' v] a Hk Ha IH]; simpl in *.
  - destruct Hb as [|[k' v] b Hk Hb]; simpl in *; [done|]. by destruct (Z.ltb_spec k' k); [lia|].
  - destruct (Z.ltb_spec k' k); [|lia]. by rewrite IH.
Qed.

Lemma below_app k a b : keys_lt k a -> keys_ge k b -> below k (a ++ b) = a.
Proof. intros. unfold below. by rewrite split_key_app. Qed.
Lemma from_app k a b : keys_lt k a -> keys_ge k b -> from k (a ++ b) = b.
Proof. intros. unfold from. by rewrite split_key_app. Qed.

Lemma sorted_app a b : sorted (a ++ b) <-> sorted a /\ sorted b /\
  (forall x y, x ∈ a -> y ∈ b -> x.1 < y.1).
Proof.
  induction a as [|e a IH]; simpl.
  - set_solver.
  - rewrite IH. unfold keys_ge. rewrite Forall_app, !Forall_forall. split.
    + intros [[H1 H2] (H3 & H4 & H5)]. split_and!; try done.
      intros x y [->|Hx]%elem_of_cons Hy; [|by apply H5]. specialize (H2 y Hy). simpl in H2. lia.
    + intros ([H1 H2] & H3 & H4). split_and!; try done.
      * intros y Hy. specialize (H4 e y (list_elem_of_here _ _) Hy). simpl. lia.
      * intros x y Hx Hy. apply H4; [by apply list_elem_of_further|done].
Qed.

Lemma sorted_split k m : sorted m ->
  m = below k m ++ from k m /\ keys_lt k (below k m) /\ keys_ge k (from k m).
Proof.
  unfold below, from. induction m as [|[k' v] m IH]; simpl; [by repeat constructor|].
  intros [Hge Hs]. destruct (Z.ltb_spec k' k).
  - destruct (IH Hs) as (E & Hl & Hg). destruct (split_key k m) as [a b]. simpl in *.
    split_and!; [by rewrite E at 1|by constructor|done].
  - simpl. split_and!; [done|constructor|]. constructor; [done|]. eapply keys_ge_mono; [|done]. simpl. lia.
Qed.

Lemma sorted_head_ge e m : sorted (e :: m) -> keys_ge (e.1 + 1) m.
Proof. by intros [? _]. Qed.

Lemma sorted_mid a e b : sorted (a ++ e :: b) ->
  sorted a /\ sorted b /\ keys_lt e.1 a /\ keys_ge (e.1 + 1) b /\ sorted (a ++ b).
Proof.
  rewrite !sorted_app. simpl. intros (Ha & [Hge Hb] & Hab). split_and!; try done.
  - apply Forall_forall. intros x Hx. apply Hab; [done|apply list_elem_of_here].
  - intros x y Hx Hy. apply Hab; [done|by apply list_elem_of_further].
Qed.

Lemma sorted_insert_mid a e b : sorted (a ++ b) -> keys_lt e.1 a -> keys_ge (e.1 + 1) b ->
  sorted (a ++ e :: b).
Proof.
  rewrite !sorted_app. intros (Ha & Hb & Hab) Hl Hg. simpl. split_and!; try done.
  intros x y Hx [->|Hy]%elem_of_cons; [|by apply Hab].
  unfold keys_lt in Hl. rewrite Forall_forall in Hl. by apply Hl.
Qed.

Lemma om_get_mid a k v b : keys_lt k a -> keys_ge (k + 1) b -> om_get k (a ++ (k, v) :: b) = Some v.
Proof.
  intros Ha Hb. unfold om_get. rewrite from_app; [|done|]; [by rewrite Z.eqb_refl|].
  constructor; [done|]. eapply keys_ge_mono; [|done]. lia.
Qed.

Lemma om_get_absent a k b : keys_lt k a -> keys_ge (k + 1) b -> om_get k (a ++ b) = None.
Proof.
  intros Ha Hb. unfold om_get. rewrite from_app; [|done|by eapply keys_ge_mono; [|done]; lia].
  destruct Hb as [|[k' v] b Hk Hb]; simpl in *; [done|]. by destruct (Z.eqb_spec k' k); [lia|].
Qed.

Lemma om_get_Some m k v : sorted m -> om_get k m = Some v ->
  exists a b, m = a ++ (k, v) :: b /\ keys_lt k a /\ keys_ge (k + 1) b.
Proof.
  intros Hs. destruct (sorted_split k m Hs) as (E & Hl & Hg). unfold om_get.
  destruct (from k m) as [|[k' v'] b] eqn:Hf; [done|].
  destruct (Z.eqb_spec k' k) as [->|]; [|done]. intros [= ->].
  exists (below k m), b. split_and!; [done|done|]. rewrite E in Hs. by apply sorted_mid in Hs as (_ & _ & _ & ? & _).
Qed.

Lemma om_delete_mid a k v b : keys_lt k a -> keys_ge (k + 1) b ->
  om_delete k (a ++ (k, v) :: b) = a ++ b.
Proof.
  intros Ha Hb. assert (keys_ge k ((k, v) :: b)).
  { constructor; [done|]. eapply keys_ge_mono; [|done]. lia. }
  unfold om_delete. rewrite below_app, from_app by done. by rewrite Z.eqb_refl.
Qed.

Lemma om_delete_absent a k b : keys_lt k a -> keys_ge (k + 1) b -> om_delete k (a ++ b) = a ++ b.
Proof.
  intros Ha Hb. assert (keys_ge k b) by (eapply keys_ge_mono; [|done]; lia).
  unfold om_delete. rewrite below_app, from_app by done.
  destruct Hb as [|[k' v] b Hk Hb]; simpl in *; [done|]. by destruct (Z.eqb_spec k' k); [lia|].
Qed.

Lemma om_insert_absent a k v b : keys_lt k a -> keys_ge (k + 1) b ->
  om_insert k v (a ++ b) = a ++ (k, v) :: b.
Proof.
  intros Ha Hb. assert (keys_ge k b) by (eapply keys_ge_mono; [|done]; lia).
  unfold om_insert. rewrite below_app, from_app by done.
  destruct Hb as [|[k' v'] b Hk Hb]; simpl in *; [done|]. by destruct (Z.eqb_spec k' k); [lia|].
Qed.

Lemma om_insert_mid a k v v' b : keys_lt k a -> keys_ge (k + 1) b ->
  om_insert k v (a ++ (k, v') :: b) = a ++ (k, v) :: b.
Proof.
  intros Ha Hb. assert (keys_ge k ((k, v') :: b)).
  { constructor; [done|]. eapply keys_ge_mono; [|done]. lia. }
  unfold om_insert. rewrite below_app, from_app by done. by rewrite Z.eqb_refl.
Qed.

Lemma keys_lt_elem k m e : keys_lt k m -> e ∈ m -> e.1 < k.
Proof. unfold keys_lt. rewrite Forall_forall. auto. Qed.
Lemma keys_ge_elem k m e : keys_ge k m -> e ∈ m -> k <= e.1.
Proof. unfold keys_ge. rewrite Forall_forall. auto. Qed.

End ord_map.
