(* ===== verification/Rmm.v ===== *)
(** * Interfaces of the crates the kernel calls

    The [rmm] and [redox_syscall] crates are not part of the repository.  What
    the memory manager uses of them is a typeclass each: the operations as
    fields, and, in a second class, the documented behaviour the theorems rely
    on.  A concrete instance of every interface is given for the witnesses. *)

From S2P Require Import Prelude.

(** ** Page-table entry flags ([rmm::PageFlags]) *)

Class PageFlagsApi := {
  PageFlags : Type;
  (** [PageFlags::new()], [.user(b)], [.write(b)], [.execute(b)] *)
  pf_new : PageFlags;
  pf_user : bool -> PageFlags -> PageFlags;
  pf_write : bool -> PageFlags -> PageFlags;
  pf_execute : bool -> PageFlags -> PageFlags;
  (** [.has_write()], [.has_execute()], [.data()] *)
  has_write : PageFlags -> bool;
  has_execute : PageFlags -> bool;
  pf_data : PageFlags -> Z;
}.

Class PageFlagsLaws `{!PageFlagsApi} := {
  has_write_write b f : has_write (pf_write b f) = b;
  has_write_execute b f : has_write (pf_execute b f) = has_write f;
  has_write_user b f : has_write (pf_user b f) = has_write f;
  has_execute_execute b f : has_execute (pf_execute b f) = b;
  has_execute_write b f : has_execute (pf_write b f) = has_execute f;
  has_execute_user b f : has_execute (pf_user b f) = has_execute f;
  (** [PageFlags] wraps one [usize], its [data()]. *)
  pf_data_inj f g : pf_data f = pf_data g -> f = g;
}.

(** ** Flags of the mapping system calls ([syscall::flag]) *)

Inductive MapFlag :=
| PROT_EXEC | PROT_WRITE | PROT_READ
| MAP_SHARED | MAP_PRIVATE | MAP_FIXED | MAP_FIXED_NOREPLACE | MAP_LAZY.

Class MapFlagsApi := {
  MapFlags : Type;
  (** [flags.contains(MapFlags::X)] *)
  mf_contains : MapFlags -> MapFlag -> bool;
  (** the union of a list of flags *)
  mf_of : list MapFlag -> MapFlags;
}.

Class MapFlagsLaws `{!MapFlagsApi} := {
  (** A union contains the protection bits it was built from. *)
  mf_contains_of l x : x ∈ [PROT_EXEC; PROT_WRITE; PROT_READ] ->
    mf_contains (mf_of l) x = true <-> x ∈ l;
  (** A union contains its parts. *)
  mf_contains_part l x : x ∈ l -> mf_contains (mf_of l) x = true;
  (** [MAP_FIXED_NOREPLACE] includes the [MAP_FIXED] bit. *)
  mf_noreplace_fixed f : mf_contains f MAP_FIXED_NOREPLACE = true -> mf_contains f MAP_FIXED = true;
}.

(** ** Error numbers ([syscall::error]) *)

Inductive Error :=
| EPERM | ENOENT | ESRCH | EINTR | EIO | EBADF | EAGAIN | ENOMEM | EACCES | EFAULT
| EBUSY | EEXIST | ENODEV | EINVAL | EMFILE | EPIPE | ENOSYS | EOPNOTSUPP | ETIMEDOUT
| EOVERFLOW | ENAMETOOLONG | ENOTDIR | EWOULDBLOCK | EXDEV | ESPIPE | EISDIR | ECANCELED | EBADFD
| Errno (code : Z).

#[export] Instance Error_eq_dec : EqDecision Error.
Proof. solve_decision. Defined.

(** ** Page tables ([rmm::PageMapper])

    The frames the tables themselves occupy belong to the mapper; [map_phys]
    returns [None] when it cannot get one. *)

Class PageMapperApi {PFA : PageFlagsApi} := {
  PageTable : Type;
  (** a table with no user mapping ([PageMapper::create]) *)
  pt_empty : PageTable;
  (** [translate(va)] *)
  pt_translate : PageTable -> Z -> option (Z * PageFlags);
  (** [map_phys(va, pa, flags)] *)
  pt_map_phys : PageTable -> Z -> Z -> PageFlags -> option PageTable;
  (** [unmap_phys(va, true)]: the mapping that was removed *)
  pt_unmap_phys : PageTable -> Z -> option (Z * PageFlags * PageTable);
  (** [remap_with_full(va, f)]: the mapping that was replaced *)
  pt_remap_with_full : PageTable -> Z -> (Z -> PageFlags -> Z * PageFlags) ->
    option (PageFlags * Z * PageTable);
}.

Class PageMapperLaws {PFA : PageFlagsApi} {PMA : PageMapperApi} := {
  translate_empty va : pt_translate pt_empty va = None;
  (** Mappings are per 4 KiB page: operations at different page-aligned
      addresses do not interfere. *)
  translate_map t va pa fl t' va' : va mod 4096 = 0 -> va' mod 4096 = 0 ->
    pt_map_phys t va pa fl = Some t' ->
    pt_translate t' va' = if decide (va' = va) then Some (pa, fl) else pt_translate t va';
  (** Mapping a page that is already mapped needs no new table. *)
  map_again t va x pa fl : va mod 4096 = 0 -> pt_translate t va = Some x -> pt_map_phys t va pa fl <> None;
  unmap_present t va : va mod 4096 = 0 -> pt_translate t va = None -> pt_unmap_phys t va = None;
  translate_unmap t va pa fl : va mod 4096 = 0 -> pt_translate t va = Some (pa, fl) ->
    exists t', pt_unmap_phys t va = Some (pa, fl, t') /\
      forall va', va' mod 4096 = 0 ->
        pt_translate t' va' = if decide (va' = va) then None else pt_translate t va';
  remap_present t va f : va mod 4096 = 0 -> pt_translate t va = None -> pt_remap_with_full t va f = None;
  translate_remap t va pa fl f : va mod 4096 = 0 -> pt_translate t va = Some (pa, fl) ->
    exists t', pt_remap_with_full t va f = Some (fl, pa, t') /\
      forall va', va' mod 4096 = 0 ->
        pt_translate t' va' = if decide (va' = va) then Some (f pa fl) else pt_translate t va';
}.

(** ** Concrete instances *)

#[export] Instance MapFlag_eq_dec : EqDecision MapFlag.
Proof. solve_decision. Defined.

Module SimpleFlags.
(** Page flags as their individual bits. *)
Record pflags := mkPf { f_user : bool; f_write : bool; f_execute : bool }.
Definition data (f : pflags) : Z :=
  (if f_user f then 4 else 0) + (if f_write f then 2 else 0) + (if f_execute f then 1 else 0).

#[export] Instance page_flags_api : PageFlagsApi := {|
  PageFlags := pflags;
  pf_new := mkPf false false false;
  pf_user b f := mkPf b (f_write f) (f_execute f);
  pf_write b f := mkPf (f_user f) b (f_execute f);
  pf_execute b f := mkPf (f_user f) (f_write f) b;
  has_write := f_write;
  has_execute := f_execute;
  pf_data := data;
|}.

#[export] Instance page_flags_laws : PageFlagsLaws.
Proof. split; try done. intros [[] [] []] [[] [] []]; cbv; congruence. Qed.

(** Mapping flags as the list of those set. *)
Definition list_contains (f : list MapFlag) (x : MapFlag) : bool :=
  match x with
  | MAP_FIXED => bool_decide (MAP_FIXED ∈ f) || bool_decide (MAP_FIXED_NOREPLACE ∈ f)
  | _ => bool_decide (x ∈ f)
  end.
#[export] Instance map_flags_api : MapFlagsApi := {|
  MapFlags := list MapFlag; mf_contains := list_contains; mf_of := fun l => l |}.

#[export] Instance map_flags_laws : MapFlagsLaws.
Proof.
  split.
  - intros l x Hx. simpl in *. repeat apply elem_of_cons in Hx as [->|Hx]; simpl;
      try apply bool_decide_eq_true. by apply not_elem_of_nil in Hx.
  - intros l x Hx. destruct x; simpl; try apply orb_true_intro; try (left; by apply bool_decide_eq_true); by apply bool_decide_eq_true.
  - intros f. simpl. intros H. apply orb_true_iff. by right.
Qed.

(** Page tables as finite maps, with memory for every table. *)
#[export] Instance page_mapper_api : PageMapperApi := {|
  PageTable := gmap Z (Z * pflags);
  pt_empty := ∅;
  pt_translate t va := t !! va;
  pt_map_phys t va pa fl := Some (<[va := (pa, fl)]> t);
  pt_unmap_phys t va :=
    match t !! va with Some (pa, fl) => Some (pa, fl, delete va t) | None => None end;
  pt_remap_with_full t va f :=
    match t !! va with Some (pa, fl) => Some (fl, pa, <[va := f pa fl]> t) | None => None end;
|}.

#[export] Instance page_mapper_laws : PageMapperLaws.
Proof.
  split; simpl; try done.
  - intros t va pa fl t' va' _ _ [= <-]. case_decide; simplify_map_eq; done.
  - intros t va _ ->. done.
  - intros t va pa fl _ E. rewrite E. eexists. split; [done|]. intros. by case_decide; simplify_map_eq.
  - intros t va f _ ->. done.
  - intros t va pa fl f _ E. rewrite E. eexists. split; [done|]. intros. by case_decide; simplify_map_eq.
Qed.
End SimpleFlags.
