(* ===== verification/Grants.v ===== *)
(** * Page spans and the grant tree of an address space

    Models [Page] and its rounding helpers
    (src/arch/x86_shared/paging/mod.rs) and, from src/context/memory.rs,
    [PageSpan], [GrantInfo], [Provider], [Grant], [GrantFileRef] and
    [UserGrants] with all of their operations that do not touch page tables.
    The specification, in GrantsSpec.v, sees the tree as a finite map from
    pages to attributes. *)

From S2P Require Import Prelude PageInfo Rmm OrdMap.

(** ** Pages *)

(** A page is its number; its address is the number times [PAGE_SIZE]. *)
Abbreviation Page := Z (only parsing).
Abbreviation VirtualAddress := Z (only parsing).

Definition PML4_SIZE : Z := 0x0000008000000000.
Definition USER_END_OFFSET : Z := 256 * PML4_SIZE.

Definition Page_start_address (page : Page) : VirtualAddress := usize_mul page PAGE_SIZE.
Definition Page_containing_address (address : VirtualAddress) : Page := address / PAGE_SIZE.
Definition Page_next_by (page : Page) (n : Z) : Page := usize_add page n.
Definition Page_offset_from (page other : Page) : Z := usize_sub page other.

Definition round_down_pages (number : Z) : Z := usize_mul (number / PAGE_SIZE) PAGE_SIZE.
(** [usize::next_multiple_of] *)
Definition round_up_pages (number : Z) : Z :=
  if number mod PAGE_SIZE =? 0 then number
  else usize_add number (PAGE_SIZE - number mod PAGE_SIZE).

(** ** Page spans *)

Record PageSpan := mkPageSpan { span_base : Page; span_count : Z }.

#[export] Instance PageSpan_eq_dec : EqDecision PageSpan.
Proof. solve_decision. Defined.

Definition PageSpan_new (base : Page) (count : Z) : PageSpan := mkPageSpan base count.
Definition PageSpan_empty : PageSpan := mkPageSpan (Page_containing_address 0) 0.
Definition PageSpan_is_empty (s : PageSpan) : bool := span_count s =? 0.
Definition PageSpan_validate (address : VirtualAddress) (size : Z) : option PageSpan :=
  if negb (address mod PAGE_SIZE =? 0) || negb (size mod PAGE_SIZE =? 0) then None
  else if USER_END_OFFSET <? saturating_add address size then None
  else Some (PageSpan_new (Page_containing_address address) (size / PAGE_SIZE)).

(** [Option::filter] *)
Definition opt_filter {A} (p : A -> bool) (o : option A) : option A :=
  match o with Some a => if p a then Some a else None | None => None end.

Definition PageSpan_validate_nonempty (address : VirtualAddress) (size : Z) : option PageSpan :=
  opt_filter (fun this => negb (PageSpan_is_empty this)) (PageSpan_validate address size).

Definition PageSpan_end (s : PageSpan) : Page := Page_next_by (span_base s) (span_count s).
Definition PageSpan_between (start end_ : Page) : PageSpan :=
  PageSpan_new start
    (saturating_sub (Page_start_address end_) (Page_start_address start) / PAGE_SIZE).
Definition PageSpan_intersection (s with_ : PageSpan) : PageSpan :=
  PageSpan_between (Z.max (span_base s) (span_base with_))
                   (Z.min (PageSpan_end s) (PageSpan_end with_)).
Definition PageSpan_intersects (s with_ : PageSpan) : bool :=
  negb (PageSpan_is_empty (PageSpan_intersection s with_)).
Definition PageSpan_before {S} (s span : PageSpan) : M S (option PageSpan) :=
  assert_ (span_base s <=? span_base span) ;;;
  ret (opt_filter (fun reg => negb (PageSpan_is_empty reg))
         (Some (PageSpan_between (span_base s) (span_base span)))).
Definition PageSpan_after {S} (s span : PageSpan) : M S (option PageSpan) :=
  assert_ (PageSpan_end span <=? PageSpan_end s) ;;;
  ret (opt_filter (fun reg => negb (PageSpan_is_empty reg))
         (Some (PageSpan_between (PageSpan_end span) (PageSpan_end s)))).
Definition PageSpan_slice {S} (s inner_span : PageSpan)
  : M S (option PageSpan * PageSpan * option PageSpan) :=
  let! b := PageSpan_before s inner_span in
  let! a := PageSpan_after s inner_span in
  ret (b, inner_span, a).
Definition PageSpan_pages (s : PageSpan) : list Page :=
  map (fun i => Page_next_by (span_base s) (Z.of_nat i)) (seq 0 (Z.to_nat (span_count s))).

(** ** Grants *)

(** Open file descriptions and address spaces are shared objects
    ([Arc<...>]); a reference to one is its identity. *)
Abbreviation DescId := Z (only parsing).
Abbreviation AddrSpaceId := Z (only parsing).

Section grants.
Context {PFA : PageFlagsApi} {MFA : MapFlagsApi}.

Record GrantFileRef := mkFileRef { description : DescId; base_offset : Z }.

Inductive Provider :=
| Allocated (cow_file_ref : option GrantFileRef) (phys_contiguous : bool)
| AllocatedShared (is_pinned_userscheme_borrow : bool)
| PhysBorrowed (base : Frame)
| External (address_space : AddrSpaceId) (src_base : Page) (is_pinned_userscheme_borrow : bool)
| FmapBorrowed (file_ref : GrantFileRef) (pin_refcount : Z).

Record GrantInfo := mkGrantInfo {
  page_count : Z;
  flags : PageFlags;
  mapped : bool;
  provider : Provider;
}.

Record Grant := mkGrant { base : Page; info : GrantInfo }.

Definition set_page_count (n : Z) (i : GrantInfo) : GrantInfo :=
  mkGrantInfo n (flags i) (mapped i) (provider i).
Definition set_flags (f : PageFlags) (i : GrantInfo) : GrantInfo :=
  mkGrantInfo (page_count i) f (mapped i) (provider i).
Definition set_mapped (b : bool) (i : GrantInfo) : GrantInfo :=
  mkGrantInfo (page_count i) (flags i) b (provider i).
Definition set_provider (p : Provider) (i : GrantInfo) : GrantInfo :=
  mkGrantInfo (page_count i) (flags i) (mapped i) p.

(** *** GrantInfo *)

Definition is_pinned (i : GrantInfo) : bool :=
  match provider i with
  | External _ _ true => true
  | AllocatedShared true => true
  | FmapBorrowed _ pin_refcount => 1 <=? pin_refcount
  | _ => false
  end.

Definition can_extract (i : GrantInfo) (unpin : bool) : bool :=
  (negb (is_pinned i) || unpin)
  || match provider i with Allocated _ true => true | _ => false end.

Definition unpin (i : GrantInfo) : GrantInfo :=
  match provider i with
  | External a s _ => set_provider (External a s false) i
  | AllocatedShared _ => set_provider (AllocatedShared false) i
  | _ => i
  end.

Definition can_have_flags (i : GrantInfo) (f : MapFlags) : bool :=
  let is_downgrade :=
    (has_write (flags i) || negb (mf_contains f PROT_WRITE))
    && (has_execute (flags i) || negb (mf_contains f PROT_EXEC)) in
  match provider i with Allocated _ _ => true | _ => is_downgrade end.

Definition can_be_merged_if_adjacent (i with_ : GrantInfo) : bool :=
  if negb (eqb (mapped i) (mapped with_)) || negb (pf_data (flags i) =? pf_data (flags with_))
  then false
  else match provider i, provider with_ with
       | Allocated None false, Allocated None false => true
       | _, _ => false
       end.

Inductive GrantFlag :=
| GRANT_READ | GRANT_WRITE | GRANT_EXEC
| GRANT_PINNED | GRANT_SHARED | GRANT_SCHEME | GRANT_PHYS | GRANT_PHYS_CONTIGUOUS.

(** The set of flags reported for a grant, each with the value it is set to
    (later entries override earlier ones). *)
Definition grant_flags (i : GrantInfo) : list (GrantFlag * bool) :=
  [(GRANT_READ, true); (GRANT_WRITE, has_write (flags i)); (GRANT_EXEC, has_execute (flags i))] ++
  match provider i with
  | External _ _ pinned => [(GRANT_PINNED, pinned); (GRANT_SHARED, true)]
  | Allocated cow_file_ref phys_contiguous =>
      [(GRANT_SCHEME, bool_decide (is_Some cow_file_ref)); (GRANT_PHYS_CONTIGUOUS, phys_contiguous)]
  | AllocatedShared pinned => [(GRANT_SHARED, true); (GRANT_PINNED, pinned)]
  | PhysBorrowed _ => [(GRANT_SHARED, true); (GRANT_PHYS, true)]
  | FmapBorrowed _ _ => [(GRANT_SHARED, true); (GRANT_SCHEME, true)]
  end.

Definition info_file_ref (i : GrantInfo) : option GrantFileRef :=
  match provider i with
  | FmapBorrowed file_ref _ => Some file_ref
  | Allocated (Some file_ref) _ => Some file_ref
  | _ => None
  end.

(** [Drop for GrantInfo]: a grant that still owns mappings must not be dropped. *)
Definition GrantInfo_drop {S} (i : GrantInfo) : M S unit := assert_ (negb (mapped i)).

(** *** Grant::span, Grant::extract *)

Definition Grant_span (g : Grant) : PageSpan := PageSpan_new (base g) (page_count (info g)).

(** The provider of the part before the extracted one. *)
Definition before_provider (p : Provider) : Provider :=
  match p with
  | External address_space src_base _ => External address_space src_base false
  | Allocated cow_file_ref _ => Allocated cow_file_ref false
  | AllocatedShared _ => AllocatedShared false
  | PhysBorrowed base => PhysBorrowed base
  | FmapBorrowed file_ref _ => FmapBorrowed file_ref 0
  end.

Definition advance_file_ref (r : GrantFileRef) (pages : Z) : GrantFileRef :=
  mkFileRef (description r) (usize_add (base_offset r) (usize_mul pages PAGE_SIZE)).

(** The provider of the extracted part, [middle_page_offset] pages in. *)
Definition middle_provider {S} (p : Provider) (middle_page_offset : Z) : M S Provider :=
  match p with
  | PhysBorrowed base => let! base' := next_by base middle_page_offset in ret (PhysBorrowed base')
  | FmapBorrowed file_ref n => ret (FmapBorrowed (advance_file_ref file_ref middle_page_offset) n)
  | Allocated (Some file_ref) c =>
      ret (Allocated (Some (advance_file_ref file_ref middle_page_offset)) c)
  | Allocated None _ | AllocatedShared _ | External _ _ _ => ret p
  end.

(** The provider of the part after the extracted one, from the latter's. *)
Definition after_provider {S} (p : Provider) (this_count : Z) : M S Provider :=
  match p with
  | Allocated None _ => ret (Allocated None false)
  | AllocatedShared _ => ret (AllocatedShared false)
  | Allocated (Some file_ref) _ => ret (Allocated (Some (advance_file_ref file_ref this_count)) false)
  | External address_space src_base _ => ret (External address_space src_base false)
  | PhysBorrowed base => let! base' := next_by base this_count in ret (PhysBorrowed base')
  | FmapBorrowed file_ref _ => ret (FmapBorrowed (advance_file_ref file_ref this_count) 0)
  end.

Definition Grant_extract {S} (g : Grant) (span : PageSpan)
  : M S (option (option Grant * Grant * option Grant)) :=
  assert_ (can_extract (info g) false) ;;;
  let! '(before_span, this_span, after_span) := PageSpan_slice (Grant_span g) span in
  let before_grant :=
    (fun s => mkGrant (span_base s)
                (mkGrantInfo (span_count s) (flags (info g)) (mapped (info g))
                   (before_provider (provider (info g))))) <$> before_span in
  let middle_page_offset :=
    match before_grant with Some b => page_count (info b) | None => 0 end in
  let! this_provider := middle_provider (provider (info g)) middle_page_offset in
  let! after_grant :=
    match after_span with
    | Some s =>
        let! p := after_provider this_provider (span_count this_span) in
        ret (Some (mkGrant (span_base s)
                     (mkGrantInfo (span_count s) (flags (info g)) (mapped (info g)) p)))
    | None => ret None
    end in
  ret (Some (before_grant,
             mkGrant (span_base this_span)
               (mkGrantInfo (span_count this_span) (flags (info g)) (mapped (info g)) this_provider),
             after_grant)).

(** *** UserGrants *)

Record UserGrants := mkUserGrants {
  inner : list (Page * GrantInfo);
  holes : list (VirtualAddress * Z);
}.

Definition UserGrants_new : UserGrants := mkUserGrants [] [(0, USER_END_OFFSET)].

(** [(start..end).contains(&x)] *)
Definition range_contains (start end_ x : Z) : bool := (start <=? x) && (x <? end_).

Definition UserGrants_contains (ug : UserGrants) (page : Page) : option (Page * GrantInfo) :=
  opt_filter (fun '(base, info) => range_contains base (Page_next_by base (page_count info)) page)
    (last (below (page + 1) (inner ug))).

(** [Iterator::take_while], [Iterator::skip_while] *)
Fixpoint take_while {A} (p : A -> bool) (l : list A) : list A :=
  match l with [] => [] | x :: l' => if p x then x :: take_while p l' else [] end.
Fixpoint skip_while {A} (p : A -> bool) (l : list A) : list A :=
  match l with [] => [] | x :: l' => if p x then skip_while p l' else l end.

Definition entry_span (e : Page * GrantInfo) : PageSpan := PageSpan_new e.1 (page_count e.2).

Definition UserGrants_conflicts (ug : UserGrants) (span : PageSpan) : list (Page * GrantInfo) :=
  let start_span :=
    match UserGrants_contains ug (span_base span) with
    | Some e => entry_span e
    | None => span
    end in
  take_while (fun e => PageSpan_intersects (entry_span e) span) (from (span_base start_span) (inner ug)).

Definition hole_fits (min page_count : Z) (h : VirtualAddress * Z) : bool :=
  let '(hole_offset, hole_size) := h in
  let avail_size :=
    if (hole_offset <=? min) && (min <=? usize_add hole_offset hole_size)
    then usize_sub hole_size (usize_sub min hole_offset)
    else hole_size in
  usize_mul page_count PAGE_SIZE <=? avail_size.

(** The third argument of the code ([_near]) is unused there. *)
Definition UserGrants_find_free_near (ug : UserGrants) (min page_count : Z) (_near : option Page)
  : option PageSpan :=
  match List.find (hole_fits min page_count)
          (skip_while (fun '(hole_offset, hole_size) => usize_add hole_offset hole_size <=? min)
             (holes ug)) with
  | Some (hole_start, _) =>
      Some (PageSpan_new (Page_containing_address (Z.max hole_start min)) page_count)
  | None => None
  end.

Definition UserGrants_find_free (ug : UserGrants) (min page_count : Z) : option PageSpan :=
  UserGrants_find_free_near ug min page_count None.

Definition reserve_prev (start_address end_address : Z) (hs : list (VirtualAddress * Z))
  : list (VirtualAddress * Z) :=
  match last (below start_address hs) with
  | Some (hole_offset, hole_size) =>
      let prev_hole_end := usize_add hole_offset hole_size in
      let hs1 := if start_address <? prev_hole_end
                 then om_insert hole_offset (usize_sub start_address hole_offset) hs else hs in
      if end_address <? prev_hole_end
      then om_insert end_address (usize_sub prev_hole_end end_address) hs1 else hs1
  | None => hs
  end.

Definition UserGrants_reserve (hs : list (VirtualAddress * Z)) (base : Page) (page_count : Z)
  : list (VirtualAddress * Z) :=
  let start_address := Page_start_address base in
  let size := usize_mul page_count PAGE_SIZE in
  let end_address := usize_add start_address size in
  let hs1 := reserve_prev start_address end_address hs in
  match om_get start_address hs1 with
  | Some hole_size =>
      let hs2 := om_delete start_address hs1 in
      let remainder := usize_sub hole_size size in
      if 0 <? remainder then om_insert end_address remainder hs2 else hs2
  | None => hs1
  end.

Definition UserGrants_unreserve (hs : list (VirtualAddress * Z)) (base : Page) (page_count : Z)
  : list (VirtualAddress * Z) :=
  let start_address := Page_start_address base in
  let size := usize_mul page_count PAGE_SIZE in
  let end_address := usize_add start_address size in
  let exactly_after_size := om_get end_address hs in
  let hs1 := om_delete end_address hs in
  match opt_filter (fun '(offset, size) => usize_add offset size =? start_address)
          (last (below start_address hs1)) with
  | Some (hole_offset, _) =>
      om_insert hole_offset
        (usize_add (usize_sub end_address hole_offset) (default 0 exactly_after_size)) hs1
  | None => om_insert start_address (usize_add size (default 0 exactly_after_size)) hs1
  end.

Definition UserGrants_insert (grant : Grant) : M UserGrants unit :=
  let! ug := get_state in
  assert_ (match UserGrants_conflicts ug (Grant_span grant) with [] => true | _ => false end) ;;;
  let hs := UserGrants_reserve (holes ug) (base grant) (page_count (info grant)) in
  let before_region :=
    opt_filter (fun e => (Page_next_by e.1 (page_count e.2) =? base grant)
                         && can_be_merged_if_adjacent e.2 (info grant))
      (last (below (base grant) (inner ug))) in
  let after_region :=
    opt_filter (fun e => (e.1 =? Page_next_by (base grant) (page_count (info grant)))
                         && can_be_merged_if_adjacent e.2 (info grant))
      (head (from (PageSpan_end (Grant_span grant)) (inner ug))) in
  let '(grant1, inner1) :=
    match before_region with
    | Some (before_base, i) =>
        (mkGrant before_base
           (set_page_count (usize_add (page_count (info grant)) (page_count i)) (info grant)),
         om_delete before_base (inner ug))
    | None => (grant, inner ug)
    end in
  let '(grant2, inner2) :=
    match after_region with
    | Some (after_base, i) =>
        (mkGrant (base grant1)
           (set_page_count (usize_add (page_count (info grant1)) (page_count i)) (info grant1)),
         om_delete after_base inner1)
    | None => (grant1, inner1)
    end in
  put_state (mkUserGrants (om_insert (base grant2) (info grant2) inner2) hs).

Definition UserGrants_remove (base : Page) : M UserGrants (option Grant) :=
  let! ug := get_state in
  match om_get base (inner ug) with
  | Some i =>
      put_state (mkUserGrants (om_delete base (inner ug))
                   (UserGrants_unreserve (holes ug) base (page_count i))) ;;;
      ret (Some (mkGrant base i))
  | None => ret None
  end.

Definition UserGrants_is_empty (ug : UserGrants) : bool :=
  match inner ug with [] => true | _ => false end.
Definition UserGrants_into_iter (ug : UserGrants) : list Grant :=
  map (fun e => mkGrant e.1 e.2) (inner ug).

End grants.

(** Concrete inputs: three grants inserted, the last two merging. *)
Module GrantsExamples.
Import SimpleFlags.
Definition anon (n : Z) : GrantInfo :=
  mkGrantInfo n (mkPf true true false) true (Allocated None false).
Definition three : outcome (unit * UserGrants) :=
  (UserGrants_insert (mkGrant 1 (anon 2)) ;;;
   UserGrants_insert (mkGrant 10 (anon 1)) ;;;
   UserGrants_insert (mkGrant 11 (anon 4))) UserGrants_new.
Example three_run : three = Done (tt, mkUserGrants
  [(1, anon 2); (10, anon 5)]
  [(0, 0x1000); (0x3000, 0x7000); (0xf000, USER_END_OFFSET - 0xf000)]).
Proof. vm_compute. reflexivity. Qed.
End GrantsExamples.
