(* ===== verification/GrantsSpec.v ===== *)
(** * The grant tree implements a map from pages to attributes

    The invariant of [UserGrants] (sorted, disjoint, nonempty grants; [holes]
    exactly the maximal free ranges), the abstract view of a tree as a
    function from pages to attributes, and the theorems that every operation
    keeps the invariant and acts on the view as its name says. *)

From S2P Require Import Prelude PageInfo Rmm OrdMap Grants.
From stdpp Require Import sorting.
#[local] Open Scope Z_scope.

(** ** Arithmetic of valid pages *)

Definition USER_END_PAGE : Z := USER_END_OFFSET / PAGE_SIZE.

Definition upage (p : Z) : Prop := 0 <= p <= USER_END_PAGE.

Lemma USER_END_PAGE_eq : USER_END_PAGE = 2 ^ 35.
Proof. reflexivity. Qed.

Ltac pages :=
  unfold upage in *; rewrite ?USER_END_PAGE_eq in *; unfold PAGE_SIZE in *; lia.

Lemma start_address_ok p : upage p -> Page_start_address p = p * PAGE_SIZE.
Proof. intros. apply usize_mul_small. pages. Qed.

Lemma page_next_by_ok p n : 0 <= p -> 0 <= n -> upage (p + n) -> Page_next_by p n = p + n.
Proof. intros. apply usize_add_small; pages. Qed.

Lemma mul_page_ok n : upage n -> usize_mul n PAGE_SIZE = n * PAGE_SIZE.
Proof. apply start_address_ok. Qed.

Lemma div_page n : n * PAGE_SIZE / PAGE_SIZE = n.
Proof. apply Z.div_mul. done. Qed.

(** A span inside the user half. *)
Definition span_ok (s : PageSpan) : Prop :=
  0 <= span_base s /\ 0 <= span_count s /\ span_base s + span_count s <= USER_END_PAGE.

Definition span_end (s : PageSpan) : Z := span_base s + span_count s.
Definition in_span (p : Z) (s : PageSpan) : Prop := span_base s <= p < span_end s.

#[export] Instance in_span_dec p s : Decision (in_span p s).
Proof. unfold in_span. apply _. Defined.

Lemma PageSpan_end_ok s : span_ok s -> PageSpan_end s = span_end s.
Proof. intros (? & ? & ?). apply page_next_by_ok; pages. Qed.

Lemma between_ok a b : upage a -> upage b ->
  PageSpan_between a b = mkPageSpan a (Z.max (b - a) 0).
Proof.
  intros. unfold PageSpan_between, PageSpan_new, saturating_sub.
  rewrite !start_address_ok by done. f_equal.
  rewrite <- (div_page (Z.max (b - a) 0)). f_equal. pages.
Qed.

Lemma intersection_ok s t : span_ok s -> span_ok t ->
  PageSpan_intersection s t =
  mkPageSpan (Z.max (span_base s) (span_base t))
    (Z.max (Z.min (span_end s) (span_end t) - Z.max (span_base s) (span_base t)) 0).
Proof.
  intros Hs Ht. unfold PageSpan_intersection. rewrite !PageSpan_end_ok by done.
  unfold span_ok, span_end in *. apply between_ok; pages.
Qed.

Lemma intersects_ok s t : span_ok s -> span_ok t ->
  PageSpan_intersects s t = true <->
  Z.max (span_base s) (span_base t) < Z.min (span_end s) (span_end t).
Proof.
  intros Hs Ht. unfold PageSpan_intersects, PageSpan_is_empty. rewrite intersection_ok by done.
  simpl. rewrite negb_true_iff, Z.eqb_neq. lia.
Qed.

Lemma in_span_intersection s t p : span_ok s -> span_ok t ->
  in_span p (PageSpan_intersection s t) <-> in_span p s /\ in_span p t.
Proof.
  intros Hs Ht. rewrite intersection_ok by done. unfold in_span, span_end in *. simpl. lia.
Qed.

Lemma validate_ok address size s : 0 <= address -> 0 <= size ->
  PageSpan_validate address size = Some s ->
  span_ok s /\ address = span_base s * PAGE_SIZE /\ size = span_count s * PAGE_SIZE.
Proof.
  unfold PageSpan_validate. intros Ha Hs.
  destruct (Z.eqb_spec (address mod PAGE_SIZE) 0) as [E1|]; simpl; [|done].
  destruct (Z.eqb_spec (size mod PAGE_SIZE) 0) as [E2|]; simpl; [|done].
  destruct (Z.ltb_spec USER_END_OFFSET (saturating_add address size)) as [|Hle]; [done|].
  intros [= <-]. unfold PageSpan_new, Page_containing_address, span_ok, saturating_add, usize_max in *. simpl.
  pose proof (Z.div_mod address PAGE_SIZE ltac:(done)). pose proof (Z.div_mod size PAGE_SIZE ltac:(done)).
  unfold USER_END_OFFSET, PML4_SIZE in Hle. rewrite USER_END_PAGE_eq. unfold PAGE_SIZE in *. lia.
Qed.

Lemma validate_complete b n : span_ok (mkPageSpan b n) ->
  PageSpan_validate (b * PAGE_SIZE) (n * PAGE_SIZE) = Some (mkPageSpan b n).
Proof.
  intros (H1 & H2 & H3); simpl in *. unfold PageSpan_validate, saturating_add, usize_max.
  rewrite !Z.mod_mul by done. simpl. unfold Page_containing_address, PageSpan_new. rewrite !div_page.
  destruct (Z.ltb_spec USER_END_OFFSET (Z.min (b * PAGE_SIZE + n * PAGE_SIZE) (2 ^ 64 - 1))); [|done].
  unfold USER_END_OFFSET, PML4_SIZE in *. pages.
Qed.

(** ** The invariant *)

Section spec.
Context {PFA : PageFlagsApi}.

Abbreviation entry := (Z * GrantInfo)%type (only parsing).
Definition e_end (e : entry) : Z := e.1 + page_count e.2.

(** Nonempty, disjoint entries in order inside [lo, hi). *)
Fixpoint wf (lo : Z) (m : list entry) (hi : Z) : Prop :=
  match m with
  | [] => lo <= hi
  | e :: m' => lo <= e.1 /\ 0 < page_count e.2 /\ wf (e_end e) m' hi
  end.

(** One maximal free range as a hole, nothing when it is empty. *)
Definition hole (a b : Z) : list (Z * Z) :=
  if a <? b then [(a * PAGE_SIZE, (b - a) * PAGE_SIZE)] else [].

(** The free ranges of [lo, hi) left by the entries of [m]. *)
Fixpoint gaps (lo : Z) (m : list entry) (hi : Z) : list (Z * Z) :=
  match m with
  | [] => hole lo hi
  | e :: m' => hole lo e.1 ++ gaps (e_end e) m' hi
  end.

Record Inv (ug : UserGrants) : Prop := {
  inv_wf : wf 0 (inner ug) USER_END_PAGE;
  inv_holes : holes ug = gaps 0 (inner ug) USER_END_PAGE;
}.

(** The end of the last entry, the base of the first one. *)
Definition last_end (lo : Z) (m : list entry) : Z := from_option e_end lo (last m).
Definition first_base (m : list entry) (hi : Z) : Z := from_option fst hi (head m).

Lemma wf_le lo m hi : wf lo m hi -> lo <= hi.
Proof.
  revert lo. induction m as [|e m IH]; intros lo; simpl; [done|].
  intros (? & ? & H). apply IH in H. unfold e_end in *. lia.
Qed.

Lemma last_end_cons lo e a : last_end lo (e :: a) = last_end (e_end e) a.
Proof. unfold last_end. rewrite last_cons. by destruct (last a). Qed.

Lemma wf_app lo a b hi : wf lo (a ++ b) hi <-> wf lo a (last_end lo a) /\ wf (last_end lo a) b hi.
Proof.
  revert lo. induction a as [|e a IH]; intros lo.
  - unfold last_end. simpl. split; [intros; split; [lia|done]|tauto].
  - rewrite last_end_cons. simpl. rewrite IH. tauto.
Qed.

Lemma wf_mono lo lo' m hi hi' : lo' <= lo -> hi <= hi' -> wf lo m hi -> wf lo' m hi'.
Proof.
  revert lo lo'. induction m as [|e m IH]; intros lo lo' H1 H2; simpl; [lia|].
  intros (? & ? & ?). split_and!; [lia|lia|]. eapply IH; [|done|done]. lia.
Qed.

Lemma wf_elem lo m hi e : wf lo m hi -> e ∈ m -> lo <= e.1 /\ 0 < page_count e.2 /\ e_end e <= hi.
Proof.
  revert lo. induction m as [|e' m IH]; intros lo; simpl; [by intros _ ?%not_elem_of_nil|].
  intros (? & ? & H) [->|He]%elem_of_cons.
  - split_and!; [done|done|]. by eapply wf_le.
  - destruct (IH _ H He) as (? & ? & ?). unfold e_end in *. split_and!; lia.
Qed.

Lemma wf_sorted lo m hi : wf lo m hi -> sorted m.
Proof.
  revert lo. induction m as [|e m IH]; intros lo; simpl; [done|]. intros (? & ? & H).
  split; [|by eapply IH]. apply Forall_forall. intros x Hx. destruct (wf_elem _ _ _ _ H Hx) as (? & _).
  unfold e_end in *. simpl. lia.
Qed.

Lemma wf_last_end lo m hi : wf lo m hi -> wf lo m (last_end lo m) /\ last_end lo m <= hi.
Proof. intros H. rewrite <- (app_nil_r m) in H at 1. apply wf_app in H as [H1 H2]. done. Qed.

Lemma gaps_app lo a b hi : wf lo a (last_end lo a) ->
  gaps lo (a ++ b) hi = gaps lo a (last_end lo a) ++ gaps (last_end lo a) b hi.
Proof.
  revert lo. induction a as [|e a IH]; intros lo; simpl.
  - unfold last_end; simpl. intros _. unfold hole at 1. by rewrite Z.ltb_irrefl.
  - intros (H1 & H2 & H3). rewrite last_end_cons in *. rewrite IH by done. by rewrite app_assoc.
Qed.

Lemma gaps_last lo a hi : gaps lo a hi = gaps lo a (last_end lo a) ++ hole (last_end lo a) hi.
Proof.
  revert lo. induction a as [|e a IH]; intros lo; simpl.
  - unfold last_end; simpl. unfold hole at 2. by rewrite Z.ltb_irrefl.
  - rewrite last_end_cons, IH. by rewrite app_assoc.
Qed.

Lemma gaps_first lo b hi : gaps lo b hi = hole lo (first_base b hi) ++ gaps (first_base b hi) b hi.
Proof.
  destruct b as [|e b]; unfold first_base; simpl; unfold hole at 3; by rewrite Z.ltb_irrefl, ?app_nil_r.
Qed.

Lemma hole_elem a b h : h ∈ hole a b -> h = (a * PAGE_SIZE, (b - a) * PAGE_SIZE) /\ a < b.
Proof.
  unfold hole. destruct (Z.ltb_spec a b); [|by intros ?%not_elem_of_nil].
  by intros ->%list_elem_of_singleton.
Qed.

Lemma gaps_elem lo m hi h : wf lo m hi -> h ∈ gaps lo m hi ->
  exists a b, h = (a * PAGE_SIZE, (b - a) * PAGE_SIZE) /\ lo <= a /\ a < b /\ b <= hi.
Proof.
  revert lo. induction m as [|e m IH]; intros lo; simpl.
  - intros _ [-> ?]%hole_elem. exists lo, hi. split_and!; [done|lia..].
  - intros (? & ? & H). rewrite elem_of_app. intros [[-> ?]%hole_elem|Hh].
    + apply wf_le in H. unfold e_end in *. exists lo, e.1. split_and!; [done|lia..].
    + destruct (IH _ H Hh) as (a & b & -> & ? & ? & ?). unfold e_end in *.
      exists a, b. split_and!; [done|lia..].
Qed.

(** A hole strictly before the last entry does not reach that entry's end. *)
Lemma gaps_elem_closed lo m h : wf lo m (last_end lo m) -> h ∈ gaps lo m (last_end lo m) ->
  exists a b, h = (a * PAGE_SIZE, (b - a) * PAGE_SIZE) /\ lo <= a /\ a < b /\ b < last_end lo m.
Proof.
  revert lo. induction m as [|e m IH]; intros lo; simpl.
  - unfold last_end; simpl. intros _ [-> ?]%hole_elem. lia.
  - rewrite last_end_cons. intros (? & ? & H). rewrite elem_of_app. intros [[-> ?]%hole_elem|Hh].
    + apply wf_le in H. unfold e_end in *. exists lo, e.1. split_and!; [done|lia..].
    + destruct (IH _ H Hh) as (a & b & -> & ? & ? & ?). unfold e_end in *.
      exists a, b. split_and!; [done|lia..].
Qed.

(** Holes after the first entry start beyond that entry's base. *)
Lemma gaps_elem_open m hi h : wf (first_base m hi) m hi -> h ∈ gaps (first_base m hi) m hi ->
  exists a b, h = (a * PAGE_SIZE, (b - a) * PAGE_SIZE) /\ first_base m hi < a /\ a < b /\ b <= hi.
Proof.
  destruct m as [|e m]; unfold first_base; simpl.
  - intros _ [-> ?]%hole_elem. lia.
  - intros (? & ? & H). rewrite elem_of_app. intros [[-> ?]%hole_elem|Hh]; [lia|].
    destruct (gaps_elem _ _ _ _ H Hh) as (a & b & -> & ? & ? & ?). unfold e_end in *.
    exists a, b. split_and!; [done|lia..].
Qed.

(** ** Reserving and unreserving *)

(** Holes all below page [p], none touching it; holes all above page [q]. *)
Definition holes_below (p : Z) (G : list (Z * Z)) : Prop :=
  forall h, h ∈ G -> exists a b, h = (a * PAGE_SIZE, (b - a) * PAGE_SIZE) /\ 0 <= a /\ a < b /\ b < p.
Definition holes_above (q : Z) (G : list (Z * Z)) : Prop :=
  forall h, h ∈ G -> exists a b, h = (a * PAGE_SIZE, (b - a) * PAGE_SIZE) /\ q < a /\ a < b /\ b <= USER_END_PAGE.

Lemma holes_below_keys p G k : holes_below p G -> p * PAGE_SIZE <= k -> keys_lt k G.
Proof.
  intros H Hk. apply Forall_forall. intros h Hh. destruct (H h Hh) as (a & b & -> & ? & ? & ?). simpl. pages.
Qed.
Lemma holes_above_keys q G k : holes_above q G -> k <= q * PAGE_SIZE + 1 -> keys_ge k G.
Proof.
  intros H Hk. apply Forall_forall. intros h Hh. destruct (H h Hh) as (a & b & -> & ? & ? & ?). simpl. pages.
Qed.

Lemma keys_lt_snoc {V} (k k' : Z) (v : V) G : keys_lt k G -> k' < k -> keys_lt k (G ++ [(k', v)]).
Proof. intros. apply Forall_app. split; [done|]. by repeat constructor. Qed.
Lemma keys_ge_cons {V} (k k' : Z) (v : V) G : keys_ge k G -> k <= k' -> keys_ge k ((k', v) :: G).
Proof. intros. by constructor. Qed.

Lemma hole_nil a b : b <= a -> hole a b = [].
Proof. intros. unfold hole. destruct (Z.ltb_spec a b); [lia|done]. Qed.
Lemma hole_cons a b : a < b -> hole a b = [(a * PAGE_SIZE, (b - a) * PAGE_SIZE)].
Proof. intros. unfold hole. destruct (Z.ltb_spec a b); [done|lia]. Qed.

Lemma keys_ge_hole a b k G : keys_ge k G -> k <= a * PAGE_SIZE -> keys_ge k (hole a b ++ G).
Proof. intros. unfold hole. destruct (a <? b); [by constructor|done]. Qed.

Ltac usz :=
  repeat match goal with
  | |- context [Page_start_address ?a] => rewrite (start_address_ok a) by pages
  | |- context [usize_mul ?a PAGE_SIZE] => rewrite (mul_page_ok a) by pages
  | |- context [usize_add ?a ?b] => rewrite (usize_add_small a b) by pages
  | |- context [usize_sub ?a ?b] => rewrite (usize_sub_small a b) by pages
  end.

Lemma reserve_prev_inside G1 G2 p q x n :
  0 <= p -> p < x -> 0 < n -> x + n <= q -> q <= USER_END_PAGE ->
  holes_below p G1 -> holes_above q G2 ->
  reserve_prev (x * PAGE_SIZE) ((x + n) * PAGE_SIZE) (G1 ++ hole p q ++ G2) =
  G1 ++ hole p x ++ hole (x + n) q ++ G2.
Proof.
  intros Hp Hx Hn Hq HE H1 H2. unfold reserve_prev. rewrite (hole_cons p q), (hole_cons p x) by lia.
  assert (Hlt : keys_lt (p * PAGE_SIZE) G1) by (by eapply holes_below_keys).
  rewrite app_assoc, below_app.
  2: { apply keys_lt_snoc; [|pages]. eapply holes_below_keys; [done|pages]. }
  2: { eapply holes_above_keys; [done|pages]. }
  rewrite last_snoc. usz. rewrite <- app_assoc. simpl.
  destruct (Z.ltb_spec (x * PAGE_SIZE) (p * PAGE_SIZE + (q - p) * PAGE_SIZE)); [|pages].
  rewrite om_insert_mid; [|done|eapply holes_above_keys; [done|pages]].
  replace (x * PAGE_SIZE - p * PAGE_SIZE) with ((x - p) * PAGE_SIZE) by lia.
  destruct (Z.ltb_spec ((x + n) * PAGE_SIZE) (p * PAGE_SIZE + (q - p) * PAGE_SIZE)).
  - rewrite hole_cons by pages. change (?a :: G2) with ([a] ++ G2). rewrite app_assoc.
    rewrite om_insert_absent.
    + rewrite <- app_assoc. simpl. do 4 f_equal. lia.
    + apply keys_lt_snoc; [|pages]. eapply holes_below_keys; [done|pages].
    + eapply holes_above_keys; [done|pages].
  - by rewrite hole_nil by pages.
Qed.

Lemma reserve_prev_at G1 G2 x q n :
  0 <= x -> 0 < n -> x + n <= q -> q <= USER_END_PAGE -> holes_below x G1 -> keys_ge (x * PAGE_SIZE) G2 ->
  reserve_prev (x * PAGE_SIZE) ((x + n) * PAGE_SIZE) (G1 ++ G2) = G1 ++ G2.
Proof.
  intros Hx Hn Hq HE H1 H2. unfold reserve_prev.
  rewrite below_app; [|by eapply holes_below_keys|done].
  destruct (last G1) as [[o sz]|] eqn:El; [|done].
  apply last_Some_elem_of in El. destruct (H1 _ El) as (a & b & [= -> ->] & ? & ? & ?). usz.
  destruct (Z.ltb_spec (x * PAGE_SIZE) (a * PAGE_SIZE + (b - a) * PAGE_SIZE)); [pages|].
  destruct (Z.ltb_spec ((x + n) * PAGE_SIZE) (a * PAGE_SIZE + (b - a) * PAGE_SIZE)); [pages|done].
Qed.

Lemma reserve_holes G1 G2 p q x n :
  0 <= p -> p <= x -> 0 < n -> x + n <= q -> q <= USER_END_PAGE ->
  holes_below p G1 -> holes_above q G2 ->
  UserGrants_reserve (G1 ++ hole p q ++ G2) x n = G1 ++ hole p x ++ hole (x + n) q ++ G2.
Proof.
  intros Hp Hx Hn Hq HE H1 H2. unfold UserGrants_reserve. usz.
  replace (x * PAGE_SIZE + n * PAGE_SIZE) with ((x + n) * PAGE_SIZE) by lia.
  destruct (decide (p = x)) as [->|Hne].
  - rewrite reserve_prev_at with (q := q) by (first [done | apply keys_ge_hole; [eapply holes_above_keys; [done|pages]|done]]).
    rewrite (hole_cons x q), (hole_nil x x) by lia. simpl.
    assert (Hlt : keys_lt (x * PAGE_SIZE) G1) by (by eapply holes_below_keys).
    rewrite om_get_mid, om_delete_mid; [|first [done|eapply holes_above_keys; [done|pages]]..]. usz.
    destruct (Z.ltb_spec 0 ((q - x) * PAGE_SIZE - n * PAGE_SIZE)).
    + rewrite hole_cons by pages. rewrite om_insert_absent.
      * simpl. do 3 f_equal. lia.
      * eapply holes_below_keys; [done|pages].
      * eapply holes_above_keys; [done|pages].
    + by rewrite hole_nil by pages.
  - rewrite reserve_prev_inside by (done || lia). rewrite (hole_cons p x) by lia. rewrite app_assoc.
    rewrite om_get_absent; [done|..].
    + apply keys_lt_snoc; [|pages]. eapply holes_below_keys; [done|pages].
    + apply keys_ge_hole; [|pages]. eapply holes_above_keys; [done|pages].
Qed.

Lemma unreserve_holes G1 G2 p q x n :
  0 <= p -> p <= x -> 0 < n -> x + n <= q -> q <= USER_END_PAGE ->
  holes_below p G1 -> holes_above q G2 ->
  UserGrants_unreserve (G1 ++ hole p x ++ hole (x + n) q ++ G2) x n = G1 ++ hole p q ++ G2.
Proof.
  intros Hp Hx Hn Hq HE H1 H2. unfold UserGrants_unreserve. usz.
  replace (x * PAGE_SIZE + n * PAGE_SIZE) with ((x + n) * PAGE_SIZE) by lia.
  assert (HL : keys_lt ((x + n) * PAGE_SIZE) (G1 ++ hole p x)).
  { apply Forall_app. split; [eapply holes_below_keys; [done|pages]|].
    unfold hole. destruct (Z.ltb_spec p x); repeat constructor. simpl. pages. }
  assert (HG2 : keys_ge ((x + n) * PAGE_SIZE + 1) G2) by (eapply holes_above_keys; [done|pages]).
  assert (E : om_delete ((x + n) * PAGE_SIZE) (G1 ++ hole p x ++ hole (x + n) q ++ G2) = G1 ++ hole p x ++ G2 /\
              default 0 (om_get ((x + n) * PAGE_SIZE) (G1 ++ hole p x ++ hole (x + n) q ++ G2)) = (q - (x + n)) * PAGE_SIZE).
  { rewrite !app_assoc. rewrite <- (app_assoc (G1 ++ hole p x)).
    destruct (decide (x + n < q)).
    - rewrite (hole_cons (x + n) q) by done. simpl. by rewrite om_delete_mid, om_get_mid.
    - rewrite (hole_nil (x + n) q) by lia. simpl. rewrite om_delete_absent, om_get_absent by done.
      split; [done|]. simpl. pages. }
  destruct E as [-> ->].
  assert (Hlt : keys_lt (p * PAGE_SIZE) G1) by (by eapply holes_below_keys).
  rewrite (hole_cons p q) by lia.
  destruct (decide (p = x)) as [->|Hne].
  - rewrite (hole_nil x x) by lia. simpl. rewrite below_app; [|done|eapply keys_ge_mono; [|done]; pages].
    assert (opt_filter (fun '(offset, size) => usize_add offset size =? x * PAGE_SIZE) (last G1) = None) as ->.
    { destruct (last G1) as [[o sz]|] eqn:El; [|done]. apply last_Some_elem_of in El.
      destruct (H1 _ El) as (a & b & [= -> ->] & ? & ? & ?). simpl. usz.
      destruct (Z.eqb_spec (a * PAGE_SIZE + (b - a) * PAGE_SIZE) (x * PAGE_SIZE)); [pages|done]. }
    rewrite om_insert_absent; [|done|eapply keys_ge_mono; [|done]; pages]. usz. do 3 f_equal. lia.
  - rewrite (hole_cons p x) by lia. rewrite app_assoc, below_app.
    2: { apply keys_lt_snoc; [|pages]. eapply holes_below_keys; [done|pages]. }
    2: { eapply keys_ge_mono; [|done]. pages. }
    rewrite last_snoc. simpl. usz.
    destruct (Z.eqb_spec (p * PAGE_SIZE + (x - p) * PAGE_SIZE) (x * PAGE_SIZE)); [|lia].
    rewrite <- app_assoc. simpl. rewrite om_insert_mid; [|done|eapply keys_ge_mono; [|done]; pages].
    usz. simpl. do 3 f_equal. lia.
Qed.

(** ** The abstract view: what each page is *)

(** Where the contents of one page come from. *)
Inductive Source :=
| SrcAnon (contiguous : bool)
| SrcCowFile (contiguous : bool) (desc : Z) (offset : Z)
| SrcShared
| SrcPhys (frame : Z)
| SrcExternal (space : Z) (page : Z)
| SrcFile (desc : Z) (offset : Z).

(** The source of the page [off] pages into a grant. *)
Definition source_at (p : Provider) (off : Z) : Source :=
  match p with
  | Allocated None c => SrcAnon c
  | Allocated (Some r) c => SrcCowFile c (description r) (base_offset r + off * PAGE_SIZE)
  | AllocatedShared _ => SrcShared
  | PhysBorrowed f => SrcPhys (f + off * PAGE_SIZE)
  | External a s _ => SrcExternal a (s + off)
  | FmapBorrowed r _ => SrcFile (description r) (base_offset r + off * PAGE_SIZE)
  end.

Record Attr := mkAttr { a_flags : Z; a_mapped : bool; a_pinned : bool; a_source : Source }.

Definition attr_at (e : entry) (p : Z) : Attr :=
  mkAttr (pf_data (flags e.2)) (mapped e.2) (is_pinned e.2) (source_at (provider e.2) (p - e.1)).

Definition covers (e : entry) (p : Z) : Prop := e.1 <= p < e_end e.
#[local] Instance covers_dec e p : Decision (covers e p).
Proof. unfold covers. apply _. Defined.

Fixpoint view (m : list entry) (p : Z) : option Attr :=
  match m with
  | [] => None
  | e :: m' => if decide (covers e p) then Some (attr_at e p) else view m' p
  end.

Definition gview (ug : UserGrants) (p : Z) : option Attr := view (inner ug) p.

Lemma view_app a b p : view (a ++ b) p = match view a p with Some x => Some x | None => view b p end.
Proof. induction a as [|e a IH]; simpl; [done|]. by destruct (decide (covers e p)). Qed.

Lemma view_Some m p x : view m p = Some x -> exists e, e ∈ m /\ covers e p /\ x = attr_at e p.
Proof.
  induction m as [|e m IH]; simpl; [done|]. destruct (decide (covers e p)).
  - intros [= <-]. exists e. split; [apply list_elem_of_here|done].
  - intros (e' & ? & ?)%IH. exists e'. split; [by apply list_elem_of_further|done].
Qed.

Lemma view_None m p : view m p = None <-> forall e, e ∈ m -> ~ covers e p.
Proof.
  induction m as [|e m IH]; simpl.
  - split; [by intros _ e ?%not_elem_of_nil|done].
  - destruct (decide (covers e p)) as [Hc|Hc].
    + split; [done|]. intros H. destruct (H e); [apply list_elem_of_here|done].
    + rewrite IH. split; [|intros H e' ?; apply H; by apply list_elem_of_further].
      intros H e' [->|?]%elem_of_cons; auto.
Qed.

Lemma covers_unique lo m hi e1 e2 p : wf lo m hi -> e1 ∈ m -> e2 ∈ m ->
  covers e1 p -> covers e2 p -> e1 = e2.
Proof.
  revert lo. induction m as [|e m IH]; intros lo; simpl; [by intros _ ?%not_elem_of_nil|].
  unfold covers. intros (Hlo & Hpc & H) [->|H1]%elem_of_cons [->|H2]%elem_of_cons Hc1 Hc2.
  - done.
  - pose proof (wf_elem _ _ _ _ H H2). lia.
  - pose proof (wf_elem _ _ _ _ H H1). lia.
  - by apply (IH _ H).
Qed.

Lemma view_elem lo m hi e p : wf lo m hi -> e ∈ m -> covers e p -> view m p = Some (attr_at e p).
Proof.
  intros Hwf He Hc. destruct (view m p) as [x|] eqn:Hv.
  - apply view_Some in Hv as (e' & He' & Hc' & ->). by rewrite (covers_unique _ _ _ _ _ _ Hwf He He' Hc Hc').
  - exfalso. by eapply view_None.
Qed.

(** ** Queries *)

Lemma entry_next_by lo m hi e : wf lo m hi -> 0 <= lo -> hi <= USER_END_PAGE -> e ∈ m ->
  Page_next_by e.1 (page_count e.2) = e_end e /\ span_ok (entry_span e).
Proof.
  intros Hwf Hlo Hhi He. destruct (wf_elem _ _ _ _ Hwf He) as (? & ? & ?). unfold e_end in *.
  split; [apply page_next_by_ok; pages|]. unfold span_ok, entry_span, PageSpan_new. simpl. lia.
Qed.

Lemma wf_below_last lo a b hi e : wf lo (a ++ b) hi -> e ∈ a -> e_end e <= last_end lo a.
Proof. intros [H _]%wf_app He. by destruct (wf_elem _ _ _ _ H He) as (_ & _ & ?). Qed.

Lemma contains_ok ug page : Inv ug -> forall e,
  UserGrants_contains ug page = Some e <-> e ∈ inner ug /\ covers e page.
Proof.
  intros [Hwf _] e. unfold UserGrants_contains.
  pose proof (wf_sorted _ _ _ Hwf) as Hs. destruct (sorted_split (page + 1) _ Hs) as (E & Hl & Hg).
  set (a := below (page + 1) (inner ug)) in *. set (b := from (page + 1) (inner ug)) in *.
  assert (Hlast : forall x, last a = Some x -> x ∈ inner ug).
  { intros x Hx%last_Some_elem_of. rewrite E. apply elem_of_app. by left. }
  split.
  - destruct (last a) as [[b' i]|] eqn:El; simpl; [|done]. specialize (Hlast _ eq_refl).
    destruct (entry_next_by _ _ _ _ Hwf ltac:(lia) ltac:(lia) Hlast) as [En _]. simpl in En. rewrite En.
    unfold range_contains. destruct (Z.leb_spec b' page), (Z.ltb_spec page (e_end (b', i))); simpl; try done.
    by intros [= <-].
  - intros [He Hc]. rewrite E in He. unfold covers in Hc. apply elem_of_app in He as [He|He].
    + destruct (last a) as [x|] eqn:El.
      2:{ apply last_None in El. rewrite El in He. by apply not_elem_of_nil in He. }
      specialize (Hlast _ eq_refl). assert (x = e) as ->.
      { eapply (covers_unique _ _ _ x e page Hwf Hlast); [|split|done].
        - rewrite E. apply elem_of_app. by left.
        - assert (x ∈ a) as Hx by (by apply last_Some_elem_of). pose proof (keys_lt_elem _ _ _ Hl Hx). lia.
        - assert (e_end e <= last_end 0 a). { eapply (wf_below_last _ _ b); [|done]. by rewrite <- E. }
          unfold last_end in *. rewrite El in *. simpl in *. lia. }
      destruct (entry_next_by _ _ _ _ Hwf ltac:(lia) ltac:(lia) Hlast) as [En _].
      destruct e as [b' i]. simpl in *. rewrite En. unfold range_contains.
      by destruct (Z.leb_spec b' page), (Z.ltb_spec page (e_end (b', i))); simpl; try lia.
    + pose proof (keys_ge_elem _ _ _ Hg He). lia.
Qed.

Lemma contains_None ug page : Inv ug ->
  UserGrants_contains ug page = None <-> gview ug page = None.
Proof.
  intros HI. unfold gview. rewrite view_None. destruct (UserGrants_contains ug page) as [e|] eqn:E.
  - apply contains_ok in E as [He Hc]; [|done]. split; [done|]. intros H. by destruct (H e He).
  - split; [|done]. intros _ e He Hc. assert (UserGrants_contains ug page = Some e) by (by apply contains_ok).
    congruence.
Qed.

Definition overlaps (s : PageSpan) (e : entry) : Prop :=
  Z.max e.1 (span_base s) < Z.min (e_end e) (span_end s).
#[local] Instance overlaps_dec s e : Decision (overlaps s e).
Proof. unfold overlaps. apply _. Defined.

Lemma overlaps_covers s e : overlaps s e <-> exists p, in_span p s /\ covers e p.
Proof.
  unfold overlaps, in_span, covers. split; [|intros (p & ? & ?); lia].
  intros. exists (Z.max e.1 (span_base s)). lia.
Qed.

Lemma filter_none {A} (P : A -> Prop) `{!forall x, Decision (P x)} l :
  (forall x, x ∈ l -> ~ P x) -> filter P l = [].
Proof.
  induction l as [|x l IH]; intros Hn; [done|]. rewrite filter_cons_False.
  - apply IH. intros y ?. apply Hn. by apply list_elem_of_further.
  - apply Hn. apply list_elem_of_here.
Qed.

Lemma intersects_overlaps lo m hi e s : wf lo m hi -> 0 <= lo -> hi <= USER_END_PAGE -> e ∈ m ->
  span_ok s -> PageSpan_intersects (entry_span e) s = true <-> overlaps s e.
Proof.
  intros Hwf Hlo Hhi He Hs. destruct (entry_next_by _ _ _ _ Hwf Hlo Hhi He) as [_ Hok].
  by rewrite intersects_ok.
Qed.

Lemma take_while_overlaps lo m hi s : wf lo m hi -> 0 <= lo -> hi <= USER_END_PAGE -> span_ok s ->
  (forall e, e ∈ m -> span_base s < e_end e) ->
  take_while (fun e => PageSpan_intersects (entry_span e) s) m = filter (overlaps s) m.
Proof.
  revert lo. induction m as [|e m IH]; intros lo Hwf Hlo Hhi Hs He; [done|].
  pose proof (intersects_overlaps _ _ _ e s Hwf Hlo Hhi (list_elem_of_here _ _) Hs) as Hi.
  pose proof (He e (list_elem_of_here _ _)) as He0. destruct Hwf as (H1 & H2 & Hwf). simpl.
  destruct (PageSpan_intersects (entry_span e) s).
  - rewrite filter_cons_True by (by apply Hi). f_equal.
    apply (IH (e_end e)); [done|unfold e_end; lia|done|done|].
    intros e' ?. apply He. by apply list_elem_of_further.
  - rewrite filter_cons_False by (by rewrite <- Hi). symmetry. apply filter_none.
    intros e' He' Ho. pose proof (wf_elem _ _ _ _ Hwf He').
    assert (Hno : ~ overlaps s e) by (by rewrite <- Hi). unfold overlaps, e_end in *. lia.
Qed.

Lemma conflicts_ok ug s : Inv ug -> span_ok s ->
  UserGrants_conflicts ug s = filter (overlaps s) (inner ug).
Proof.
  intros HI Hs. destruct HI as [Hwf Hh] eqn:EI. clear EI. pose proof (wf_sorted _ _ _ Hwf) as Hso.
  unfold UserGrants_conflicts.
  set (st := span_base (match UserGrants_contains ug (span_base s) with
                        | Some e => entry_span e | None => s end)).
  destruct (sorted_split st _ Hso) as (E & Hl & Hg).
  assert (Hst : (forall e, e ∈ below st (inner ug) -> e_end e <= span_base s) /\
                (forall e, e ∈ from st (inner ug) -> span_base s < e_end e)).
  { assert (Hin : forall e, e ∈ below st (inner ug) \/ e ∈ from st (inner ug) -> e ∈ inner ug).
    { intros e He. rewrite E. by apply elem_of_app. }
    subst st. destruct (UserGrants_contains ug (span_base s)) as [c|] eqn:Ec.
    - apply contains_ok in Ec as [Hc Hcov]; [|done]. simpl in *. split; intros e He.
      + pose proof (keys_lt_elem _ _ _ Hl He). destruct (decide (e_end e <= span_base s)); [done|].
        assert (e = c); [|subst; lia]. eapply (covers_unique _ _ _ _ _ c.1 Hwf); [by auto|done| |].
        * unfold covers in *. lia.
        * destruct (wf_elem _ _ _ _ Hwf Hc). unfold covers, e_end in *. lia.
      + pose proof (keys_ge_elem _ _ _ Hg He). destruct (decide (span_base s < e_end e)); [done|].
        destruct (wf_elem _ _ _ _ Hwf (Hin e (or_intror He))) as (? & ? & ?).
        assert (e = c); [|subst; unfold covers in *; lia].
        eapply (covers_unique _ _ _ _ _ e.1 Hwf); [by auto|done| |]; unfold covers, e_end in *; lia.
    - rewrite contains_None in Ec by done. unfold gview in Ec. rewrite view_None in Ec. split; intros e He.
      + pose proof (keys_lt_elem _ _ _ Hl He). destruct (decide (e_end e <= span_base s)); [done|].
        destruct (Ec e (Hin e (or_introl He))). unfold covers. lia.
      + pose proof (keys_ge_elem _ _ _ Hg He). pose proof (wf_elem _ _ _ _ Hwf (Hin e (or_intror He))).
        unfold e_end in *. lia. }
  destruct Hst as [Hst1 Hst2]. rewrite E in Hwf. apply wf_app in Hwf as [Hwf1 Hwf2].
  rewrite (take_while_overlaps _ _ _ _ Hwf2); [|by apply wf_le in Hwf1|lia|done|done].
  rewrite E at 2. rewrite filter_app, (filter_none _ (below st (inner ug))); [done|].
  intros e He. pose proof (Hst1 e He). unfold overlaps. lia.
Qed.

Lemma conflicts_nil ug s : Inv ug -> span_ok s ->
  UserGrants_conflicts ug s = [] <-> forall p, in_span p s -> gview ug p = None.
Proof.
  intros HI Hs. rewrite conflicts_ok by done. split.
  - intros Hf p Hp. apply view_None. intros e He Hc.
    assert (e ∈ filter (overlaps s) (inner ug)) as Hin.
    { apply list_elem_of_filter. split; [|done]. apply overlaps_covers. eauto. }
    rewrite Hf in Hin. by apply not_elem_of_nil in Hin.
  - intros Hv. apply filter_none. intros e He (p & Hp & Hc)%overlaps_covers.
    specialize (Hv p Hp). unfold gview in Hv. rewrite view_None in Hv. by apply (Hv e).
Qed.

(** ** Insertion *)

(** A free nonempty region splits the entries into those before and after it. *)
Lemma free_split ug s : Inv ug -> span_ok s -> 0 < span_count s ->
  (forall p, in_span p s -> gview ug p = None) ->
  exists a b, inner ug = a ++ b /\ last_end 0 a <= span_base s /\ span_end s <= first_base b USER_END_PAGE /\
    wf 0 a (last_end 0 a) /\ wf (last_end 0 a) b USER_END_PAGE.
Proof.
  intros [Hwf _] (Hs1 & Hs2 & Hs3) Hc Hfree. pose proof (wf_sorted _ _ _ Hwf) as Hso.
  destruct (sorted_split (span_base s) _ Hso) as (E & Hl & Hg).
  set (a := below (span_base s) (inner ug)) in *. set (b := from (span_base s) (inner ug)) in *.
  assert (Hin : forall e, e ∈ a \/ e ∈ b -> e ∈ inner ug).
  { intros e He. rewrite E. by apply elem_of_app. }
  assert (Hno : forall e p, e ∈ inner ug -> in_span p s -> ~ covers e p).
  { intros e p He Hp. specialize (Hfree p Hp). unfold gview in Hfree. rewrite view_None in Hfree. auto. }
  exists a, b. rewrite E in Hwf. pose proof Hwf as [Ha Hb]%wf_app. split_and!; try done.
  - unfold last_end. destruct (last a) as [e|] eqn:El; simpl; [|done].
    apply last_Some_elem_of in El. pose proof (keys_lt_elem _ _ _ Hl El).
    destruct (decide (e_end e <= span_base s)); [done|].
    destruct (Hno e (span_base s)); [auto|unfold in_span, span_end; lia|unfold covers; lia].
  - unfold first_base. destruct b as [|e b']; simpl; [done|].
    assert (He : e ∈ e :: b') by apply list_elem_of_here.
    pose proof (keys_ge_elem _ _ _ Hg He). destruct (wf_elem _ _ _ _ Hb He) as (? & ? & ?).
    destruct (decide (span_end s <= e.1)); [done|].
    destruct (Hno e e.1); [auto|unfold in_span; lia|unfold covers, e_end in *; lia].
Qed.

Lemma wf_first_base lo b hi : wf lo b hi -> wf (first_base b hi) b hi /\ lo <= first_base b hi <= hi.
Proof.
  intros Hb. pose proof (wf_le _ _ _ Hb). destruct b as [|e b]; unfold first_base; simpl in *; [lia|].
  destruct Hb as (? & ? & Hb). pose proof (wf_le _ _ _ Hb). unfold e_end in *. split_and!; [lia|done|done|lia|lia].
Qed.

Lemma holes_decompose a b : wf 0 a (last_end 0 a) -> wf (last_end 0 a) b USER_END_PAGE ->
  exists G1 G2, gaps 0 (a ++ b) USER_END_PAGE = G1 ++ hole (last_end 0 a) (first_base b USER_END_PAGE) ++ G2 /\
    holes_below (last_end 0 a) G1 /\ holes_above (first_base b USER_END_PAGE) G2 /\
    (forall e, last_end 0 a <= e.1 -> e_end e <= first_base b USER_END_PAGE ->
       gaps 0 (a ++ e :: b) USER_END_PAGE =
       G1 ++ hole (last_end 0 a) e.1 ++ hole (e_end e) (first_base b USER_END_PAGE) ++ G2).
Proof.
  intros Ha Hb. destruct (wf_first_base _ _ _ Hb) as [Hb' ?].
  exists (gaps 0 a (last_end 0 a)), (gaps (first_base b USER_END_PAGE) b USER_END_PAGE). split_and!.
  - rewrite gaps_app by done. by rewrite <- gaps_first.
  - intros h Hh. destruct (gaps_elem_closed _ _ _ Ha Hh) as (x & y & -> & ? & ? & ?). eauto 10.
  - intros h Hh. destruct (gaps_elem_open _ _ _ Hb' Hh) as (x & y & -> & ? & ? & ?). eauto 10.
  - intros e _ _. rewrite gaps_app by done. simpl. by rewrite <- gaps_first.
Qed.

(** Two entry lists with the same extent, gaps and view. *)
Definition same_tree (m m' : list entry) : Prop :=
  (forall lo hi, wf lo m hi -> wf lo m' hi /\ gaps lo m' hi = gaps lo m hi) /\
  (forall p, view m' p = view m p).

#[local] Instance same_tree_preorder : PreOrder same_tree.
Proof.
  split.
  - split; auto.
  - intros x y z [H1 H2] [H3 H4]. split; [|congruence].
    intros lo hi Hx. destruct (H1 _ _ Hx) as [Hy Ey]. destruct (H3 _ _ Hy) as [Hz Ez]. split; congruence.
Qed.

(** Fusing two adjacent entries with equal attributes changes nothing. *)
Lemma merge_same m1 e1 e2 e m2 :
  e_end e1 = e2.1 -> e.1 = e1.1 -> e_end e = e_end e2 -> 0 < page_count e1.2 -> 0 < page_count e2.2 ->
  (forall p, covers e1 p -> attr_at e p = attr_at e1 p) ->
  (forall p, covers e2 p -> attr_at e p = attr_at e2 p) ->
  same_tree (m1 ++ e1 :: e2 :: m2) (m1 ++ e :: m2).
Proof.
  intros Ha Hb Hc Hp1 Hp2 Hv1 Hv2. split.
  - intros lo hi [H1 H2]%wf_app. simpl in H2. destruct H2 as (? & ? & ? & ? & Hw). split.
    + apply wf_app. split; [done|]. simpl. rewrite Hc. split_and!; [lia| |done]. unfold e_end in *. lia.
    + rewrite !gaps_app by done. simpl. rewrite Ha, Hb, Hc.
      by rewrite (hole_nil e2.1 e2.1).
  - intros p. rewrite !view_app. destruct (view m1 p); [done|]. simpl.
    destruct (decide (covers e p)) as [Hce|Hce], (decide (covers e1 p)) as [Hc1|Hc1],
      (decide (covers e2 p)) as [Hc2|Hc2]; unfold covers, e_end in *; try lia; try done.
    + by rewrite Hv1 by lia.
    + by rewrite Hv2 by lia.
Qed.

Lemma mergeable_attr i j n n' b b' p : can_be_merged_if_adjacent i j = true ->
  attr_at (b, set_page_count n j) p = attr_at (b', set_page_count n' i) p.
Proof.
  unfold can_be_merged_if_adjacent, attr_at, is_pinned. destruct (mapped i) eqn:E1, (mapped j) eqn:E2; simpl; try done;
  destruct (Z.eqb_spec (pf_data (flags i)) (pf_data (flags j))) as [Ed|]; simpl; try done;
  destruct (provider i) as [[]  []| | | |]; try done; destruct (provider j) as [[] []| | | |]; try done;
  intros _; simpl; by rewrite E1, E2, Ed.
Qed.

Lemma wf_mid_keys lo a e b hi : wf lo (a ++ e :: b) hi ->
  keys_lt e.1 a /\ keys_ge (e_end e) b /\ 0 < page_count e.2 /\ last_end lo a <= e.1.
Proof.
  intros [Ha (H1 & H2 & Hb)]%wf_app. split_and!; [| |done|done].
  - apply Forall_forall. intros x Hx. destruct (wf_elem _ _ _ _ Ha Hx) as (? & ? & ?). unfold e_end in *. lia.
  - apply Forall_forall. intros x Hx. by destruct (wf_elem _ _ _ _ Hb Hx) as (? & ? & ?).
Qed.

Lemma opt_filter_Some {A} (p : A -> bool) o x : opt_filter p o = Some x -> o = Some x /\ p x = true.
Proof. destruct o; simpl; [|done]. destruct (p a) eqn:E; naive_solver. Qed.

(** The two merging steps of [insert], on the entries around the new one. *)
Definition merge_left (a : list entry) (e : entry) : list entry * entry :=
  match opt_filter (fun l => (Page_next_by l.1 (page_count l.2) =? e.1)
                             && can_be_merged_if_adjacent l.2 e.2) (last a) with
  | Some (lb, li) => (removelast a, (lb, set_page_count (usize_add (page_count e.2) (page_count li)) e.2))
  | None => (a, e)
  end.

Lemma merge_left_same a e b : wf 0 (a ++ e :: b) USER_END_PAGE ->
  same_tree (a ++ e :: b) ((merge_left a e).1 ++ (merge_left a e).2 :: b) /\
  e_end (merge_left a e).2 = e_end e.
Proof.
  intros Hwf. unfold merge_left.
  destruct (opt_filter _ (last a)) as [[lb li]|] eqn:Ef; [|by split].
  apply opt_filter_Some in Ef as [Hl [Hadj%Z.eqb_eq Hm]%andb_true_iff]. simpl in *.
  apply last_Some in Hl as [a' ->]. rewrite removelast_last. rewrite <- app_assoc in *. simpl in *.
  assert (Hin : (lb, li) ∈ a' ++ (lb, li) :: e :: b) by set_solver.
  destruct (entry_next_by _ _ _ _ Hwf ltac:(lia) ltac:(lia) Hin) as [En _]. simpl in En.
  pose proof (wf_elem _ _ _ _ Hwf Hin) as (? & ? & ?).
  assert (Hin2 : e ∈ a' ++ (lb, li) :: e :: b) by set_solver.
  pose proof (wf_elem _ _ _ _ Hwf Hin2) as (? & ? & ?). unfold e_end in *. simpl in *.
  rewrite usize_add_small by pages.
  split; [|lia]. apply merge_same; unfold e_end; simpl; try lia.
  - intros p _. rewrite (mergeable_attr _ _ _ (page_count li) _ lb _ Hm). by destruct li.
  - intros p _. destruct e as [eb ei]. simpl in *.
    rewrite (mergeable_attr _ _ _ 0 _ eb _ Hm), <- (mergeable_attr _ _ (page_count ei) _ eb _ _ Hm).
    by destruct ei.
Qed.

Definition merge_right (e : entry) (b : list entry) (key : Z) (i0 : GrantInfo) : entry * list entry :=
  match opt_filter (fun r => (r.1 =? key) && can_be_merged_if_adjacent r.2 i0) (head b) with
  | Some (rb, ri) => ((e.1, set_page_count (usize_add (page_count e.2) (page_count ri)) e.2), tail b)
  | None => (e, b)
  end.

Lemma merge_right_same a e b i0 n : wf 0 (a ++ e :: b) USER_END_PAGE -> e.2 = set_page_count n i0 ->
  same_tree (a ++ e :: b) (a ++ (merge_right e b (e_end e) i0).1 :: (merge_right e b (e_end e) i0).2).
Proof.
  intros Hwf Hi. unfold merge_right.
  destruct (opt_filter _ (head b)) as [[rb ri]|] eqn:Ef; [|done].
  apply opt_filter_Some in Ef as [Hl [Hadj%Z.eqb_eq Hm]%andb_true_iff]. simpl in *.
  destruct b as [|r b]; [done|]. change (head (r :: b)) with (Some r) in Hl. simplify_eq. change (tail ((e_end e, ri) :: b)) with b.
  assert (Hin : (e_end e, ri) ∈ a ++ e :: (e_end e, ri) :: b) by set_solver.
  pose proof (wf_elem _ _ _ _ Hwf Hin) as (? & ? & ?).
  assert (Hin2 : e ∈ a ++ e :: (e_end e, ri) :: b) by set_solver.
  pose proof (wf_elem _ _ _ _ Hwf Hin2) as (? & ? & ?). unfold e_end in *. simpl in *.
  rewrite usize_add_small by pages.
  apply merge_same; unfold e_end; simpl; try lia; destruct e as [eb ei]; simpl in *; subst ei.
  - intros p _. by destruct i0.
  - intros p _. change (set_page_count ?x (set_page_count n i0)) with (set_page_count x i0).
    rewrite (mergeable_attr _ _ _ (page_count ri) _ (eb + n) _ Hm). by destruct ri.
Qed.

Lemma om_delete_sorted {V} (a b : list (Z * V)) k v : sorted (a ++ (k, v) :: b) ->
  om_delete k (a ++ (k, v) :: b) = a ++ b /\ sorted (a ++ b).
Proof. intros Hs. apply sorted_mid in Hs as (_ & _ & Hl & Hg & ?). by rewrite om_delete_mid. Qed.

Lemma om_insert_sorted {V} (a b : list (Z * V)) k v : sorted (a ++ (k, v) :: b) ->
  om_insert k v (a ++ b) = a ++ (k, v) :: b.
Proof. intros Hs. apply sorted_mid in Hs as (_ & _ & Hl & Hg & ?). by rewrite om_insert_absent. Qed.

(** Reserving an entry's pages turns the gaps without it into those with it,
    and unreserving them back. *)
Lemma reserve_unreserve_gaps a e b : wf 0 (a ++ e :: b) USER_END_PAGE ->
  UserGrants_reserve (gaps 0 (a ++ b) USER_END_PAGE) e.1 (page_count e.2) =
    gaps 0 (a ++ e :: b) USER_END_PAGE /\
  UserGrants_unreserve (gaps 0 (a ++ e :: b) USER_END_PAGE) e.1 (page_count e.2) =
    gaps 0 (a ++ b) USER_END_PAGE.
Proof.
  intros [Ha (? & ? & Hb)]%wf_app.
  assert (Hb0 : wf (last_end 0 a) b USER_END_PAGE).
  { eapply wf_mono; [| |exact Hb]; unfold e_end in *; lia. }
  destruct (wf_first_base _ _ _ Hb). pose proof (wf_le _ _ _ Ha).
  destruct (holes_decompose a b Ha Hb0) as (G1 & G2 & -> & HG1 & HG2 & HG).
  rewrite (HG e) by (unfold e_end in *; lia). unfold e_end in *.
  split; [apply reserve_holes|apply unreserve_holes]; done || lia.
Qed.

(** The entries [insert] leaves, from those around the new one. *)
Definition merged (a b : list entry) (e : entry) : list entry :=
  let l := merge_left a e in
  let r := merge_right l.2 b (e_end e) e.2 in
  l.1 ++ r.1 :: r.2.

Lemma merged_same a e b : wf 0 (a ++ e :: b) USER_END_PAGE ->
  same_tree (a ++ e :: b) (merged a b e).
Proof.
  intros Hwf. destruct (merge_left_same a e b Hwf) as [Hsl Hel].
  transitivity ((merge_left a e).1 ++ (merge_left a e).2 :: b); [done|].
  pose proof (proj1 (proj1 Hsl _ _ Hwf)) as Hwl. unfold merged. rewrite <- Hel.
  revert Hwl. unfold merge_left. destruct (opt_filter _ (last a)) as [[lb li]|]; intros Hwl.
  - by eapply merge_right_same.
  - eapply (merge_right_same _ _ _ _ (page_count e.2)); [done|]. by destruct e as [? []].
Qed.

Lemma insert_run ug g a b : holes ug = gaps 0 (a ++ b) USER_END_PAGE -> inner ug = a ++ b ->
  wf 0 (a ++ (base g, info g) :: b) USER_END_PAGE ->
  UserGrants_conflicts ug (Grant_span g) = [] ->
  UserGrants_insert g ug =
  Done (tt, mkUserGrants (merged a b (base g, info g)) (gaps 0 (a ++ (base g, info g) :: b) USER_END_PAGE)).
Proof.
  intros Hh Hin Hwf Hc. set (e0 := (base g, info g)) in *.
  pose proof Hwf as Hkeys. apply wf_mid_keys in Hkeys as (Hk1 & Hk2 & Hn & _). cbn [fst snd e0] in Hk1, Hn.
  destruct (entry_next_by _ _ _ e0 Hwf ltac:(lia) ltac:(lia) ltac:(set_solver)) as [En _].
  pose proof (wf_sorted _ _ _ (proj1 (proj1 (merged_same _ _ _ Hwf) _ _ Hwf))) as Hsorted.
  pose proof (wf_sorted _ _ _ Hwf) as Hsab. apply sorted_mid in Hsab as (_ & _ & _ & _ & Hsab).
  destruct (reserve_unreserve_gaps _ _ _ Hwf) as [Hres _]. cbn [fst snd e0] in Hres, En.
  unfold UserGrants_insert, get_state, bind, assert_. rewrite Hc. cbn [ret].
  rewrite Hin, Hh. unfold PageSpan_end, Grant_span. cbn [span_base span_count PageSpan_new]. rewrite En, Hres.
  assert (keys_ge (base g) b) by (eapply keys_ge_mono; [|exact Hk2]; unfold e_end; simpl; lia).
  assert (keys_lt (e_end e0) a) by (eapply keys_lt_mono; [|exact Hk1]; unfold e_end; simpl; lia).
  rewrite below_app, from_app by done.
  revert Hsorted. unfold merged, merge_left, merge_right. cbn [fst snd e0].
  destruct (opt_filter _ (last a)) as [[lb li]|] eqn:El; cbn [fst snd];
  destruct (opt_filter _ (head b)) as [[rb ri]|] eqn:Er; cbn [fst snd base info]; intros Hsorted.
  all: try (apply opt_filter_Some in El as [El _]; apply last_Some in El as [a' ->]; rewrite removelast_last in *;
    rewrite <- app_assoc in Hsab |- *; simpl in Hsab |- *; destruct (om_delete_sorted _ _ _ _ Hsab) as [-> Hs2]).
  all: try (apply opt_filter_Some in Er as [Er _]; destruct b as [|r b]; [done|];
    change (head (r :: b)) with (Some r) in Er; simplify_eq; simpl in * |-).
  all: first [rewrite (proj1 (om_delete_sorted _ _ _ _ Hs2))
             |rewrite (proj1 (om_delete_sorted _ _ _ _ Hsab))|idtac]; by rewrite om_insert_sorted.
Qed.

(** The number of entries that end above page [y]. *)
Definition ends_above (y : Z) (m : list entry) : nat := length (filter (fun e => y < e_end e) m).

Lemma ends_above_app y a b : ends_above y (a ++ b) = (ends_above y a + ends_above y b)%nat.
Proof. unfold ends_above. by rewrite filter_app, length_app. Qed.
Lemma ends_above_cons y e b : ends_above y (e :: b) = ((if decide (y < e_end e)%Z then 1 else 0) + ends_above y b)%nat.
Proof. unfold ends_above. rewrite filter_cons. by case_decide. Qed.

Lemma ends_above_mono y y' m : y <= y' -> (ends_above y' m <= ends_above y m)%nat.
Proof.
  intros Hy. induction m as [|e m IH]; [done|]. rewrite !ends_above_cons. repeat case_decide; lia.
Qed.

Lemma merged_ends_above a e b y : wf 0 (a ++ e :: b) USER_END_PAGE -> e_end e <= y ->
  (ends_above y (merged a b e) <= ends_above y (a ++ b))%nat.
Proof.
  intros Hwf Hy. destruct (merge_left_same a e b Hwf) as [Hsl Hel].
  pose proof (proj1 (proj1 Hsl _ _ Hwf)) as Hwl. unfold merged.
  assert (Hl : (ends_above y (merge_left a e).1 <= ends_above y a)%nat).
  { unfold merge_left. destruct (opt_filter _ (last a)) as [[lb li]|] eqn:Ef; [|done].
    apply opt_filter_Some in Ef as [Ef _]. apply last_Some in Ef as [a' ->]. cbn [fst]. rewrite removelast_last.
    rewrite ends_above_app. lia. }
  rewrite !ends_above_app. enough (ends_above y ((merge_right (merge_left a e).2 b (e_end e) e.2).1 ::
    (merge_right (merge_left a e).2 b (e_end e) e.2).2) <= ends_above y b)%nat by lia.
  set (l := merge_left a e) in *. unfold merge_right.
  destruct (opt_filter _ (head b)) as [[rb ri]|] eqn:Ef; cbn [fst snd].
  - apply opt_filter_Some in Ef as [Ef [Hadj%Z.eqb_eq _]%andb_true_iff]. destruct b as [|r b]; [done|].
    change (head (r :: b)) with (Some r) in Ef. simplify_eq. simpl in *. change (tail (?x :: b)) with b.
    rewrite !ends_above_cons.
    pose proof (wf_elem _ _ _ l.2 Hwl ltac:(set_solver)) as (? & ? & ?).
    pose proof (wf_elem _ _ _ (e_end e, ri) Hwl ltac:(set_solver)) as (? & ? & ?).
    assert (e_end (l.2.1, set_page_count (usize_add (page_count l.2.2) (page_count ri)) l.2.2) = e_end (e_end e, ri)) as ->.
    { unfold e_end in *. simpl in *. rewrite usize_add_small by pages. lia. }
    by rewrite Hadj.
  - rewrite ends_above_cons, decide_False; [simpl; lia|]. rewrite Hel. lia.
Qed.

(** [insert] on a region that is free: the map gains exactly the grant's pages. *)
Lemma insert_ok' ug g : Inv ug -> span_ok (Grant_span g) -> 0 < page_count (info g) ->
  (forall p, in_span p (Grant_span g) -> gview ug p = None) ->
  exists ug', UserGrants_insert g ug = Done (tt, ug') /\ Inv ug' /\
    (forall p, gview ug' p = if decide (in_span p (Grant_span g)) then Some (attr_at (base g, info g) p)
                            else gview ug p) /\
    (forall y, span_end (Grant_span g) <= y -> (ends_above y (inner ug') <= ends_above y (inner ug))%nat).
Proof.
  intros HI Hs Hn Hfree. destruct (free_split _ _ HI Hs Hn Hfree) as (a & b & Hin & Hla & Hfb & Ha & Hb).
  assert (Hwf : wf 0 (a ++ (base g, info g) :: b) USER_END_PAGE).
  { apply wf_app. split; [done|]. unfold Grant_span, span_end, PageSpan_new in *. simpl in *. split_and!; [lia|lia|].
    eapply wf_mono; [| |apply (proj1 (wf_first_base _ _ _ Hb))]; unfold e_end; simpl; lia. }
  destruct (merged_same _ _ _ Hwf) as [Hw Hv]. destruct (Hw _ _ Hwf) as [Hwf' Hg].
  eexists. split.
  { apply insert_run; [|done|done|by apply conflicts_nil]. rewrite (inv_holes _ HI). by rewrite Hin. }
  split; [by split|]. split; [|intros y Hy; rewrite Hin; by apply merged_ends_above]. intros p. unfold gview. cbn [inner]. rewrite Hv, Hin, !view_app. simpl.
  destruct (decide (covers (base g, info g) p)) as [Hp|Hp].
  - rewrite decide_True by done. specialize (Hfree p Hp). unfold gview in Hfree.
    rewrite Hin, view_app in Hfree. by destruct (view a p).
  - by rewrite decide_False by done.
Qed.


Lemma insert_ok ug g : Inv ug -> span_ok (Grant_span g) -> 0 < page_count (info g) ->
  (forall p, in_span p (Grant_span g) -> gview ug p = None) ->
  exists ug', UserGrants_insert g ug = Done (tt, ug') /\ Inv ug' /\
    forall p, gview ug' p = if decide (in_span p (Grant_span g)) then Some (attr_at (base g, info g) p)
                            else gview ug p.
Proof. intros HI H1 H2 H3. destruct (insert_ok' ug g HI H1 H2 H3) as (ug' & ? & ? & ? & _). by exists ug'. Qed.

(** On an occupied region [insert] panics. *)
Lemma insert_panics ug g p : Inv ug -> span_ok (Grant_span g) -> in_span p (Grant_span g) ->
  is_Some (gview ug p) -> UserGrants_insert g ug = Panic.
Proof.
  intros HI Hs Hp [x Hx]. unfold UserGrants_insert, get_state, bind, assert_.
  destruct (UserGrants_conflicts ug (Grant_span g)) eqn:Hc; [|done].
  rewrite conflicts_nil in Hc by done. by rewrite Hc in Hx.
Qed.

(** ** Removal *)

Lemma remove_ok' ug e : Inv ug -> e ∈ inner ug ->
  exists ug', UserGrants_remove e.1 ug = Done (Some (mkGrant e.1 e.2), ug') /\ Inv ug' /\
    (forall p, gview ug' p = if decide (covers e p) then None else gview ug p) /\
    exists a b, inner ug = a ++ e :: b /\ inner ug' = a ++ b.
Proof.
  intros [Hwf Hh] He. apply list_elem_of_split in He as (a & b & Hin). rewrite Hin in *.
  pose proof (wf_sorted _ _ _ Hwf) as Hs. pose proof Hs as (_ & _ & Hl & Hg & _)%sorted_mid.
  destruct e as [eb ei]. cbn [fst snd] in *.
  unfold UserGrants_remove, get_state, bind, put_state, ret. rewrite Hin, om_get_mid, om_delete_mid by done.
  destruct (reserve_unreserve_gaps _ _ _ Hwf) as [_ Hu]. cbn [fst snd] in Hu. rewrite Hh, Hu.
  eexists. split; [done|]. split; [split; [|done]|split; [|by exists a, b]].
  - apply wf_app in Hwf as [Ha (? & ? & Hb)]. apply wf_app. split; [done|].
    eapply wf_mono; [| |exact Hb]; [unfold e_end in *; simpl in *; lia|done].
  - intros p. unfold gview. cbn [inner]. rewrite Hin. rewrite !view_app. simpl.
    destruct (decide (covers (eb, ei) p)) as [Hc|Hc]; [|done].
    destruct (view a p) as [x|] eqn:Ha; [|destruct (view b p) as [x|] eqn:Hb; [|done]]; exfalso.
    + apply view_Some in Ha as (e & He & Hc' & _).
      assert (e = (eb, ei)) as -> by (eapply (covers_unique _ _ _ _ _ p Hwf); set_solver).
      pose proof (keys_lt_elem _ _ _ Hl He). simpl in *. lia.
    + apply view_Some in Hb as (e & He & Hc' & _).
      assert (e = (eb, ei)) as -> by (eapply (covers_unique _ _ _ _ _ p Hwf); set_solver).
      pose proof (keys_ge_elem _ _ _ Hg He). simpl in *. lia.
Qed.

Lemma remove_ok ug e : Inv ug -> e ∈ inner ug ->
  exists ug', UserGrants_remove e.1 ug = Done (Some (mkGrant e.1 e.2), ug') /\ Inv ug' /\
    forall p, gview ug' p = if decide (covers e p) then None else gview ug p.
Proof. intros HI He. destruct (remove_ok' ug e HI He) as (ug' & ? & ? & ? & _). by exists ug'. Qed.

Lemma remove_absent ug b : Inv ug -> (forall e, e ∈ inner ug -> e.1 <> b) ->
  UserGrants_remove b ug = Done (None, ug).
Proof.
  intros [Hwf _] Hno. unfold UserGrants_remove, get_state, bind, ret.
  destruct (om_get b (inner ug)) as [i|] eqn:E; [|done].
  apply om_get_Some in E as (m1 & m2 & Hin & _); [|by eapply wf_sorted].
  destruct (Hno (b, i)); [|done]. rewrite Hin. set_solver.
Qed.

(** ** Finding free space *)

Definition hole_of (a b : Z) : Z * Z := (a * PAGE_SIZE, (b - a) * PAGE_SIZE).

Lemma gap_free lo m hi a b p : wf lo m hi -> hole_of a b ∈ gaps lo m hi -> a <= p < b -> view m p = None.
Proof.
  revert lo. induction m as [|e m IH]; intros lo; simpl; [done|].
  intros (H1 & H2 & Hw) Hh Hp. apply elem_of_app in Hh as [[[= E1 E2] Hlt]%hole_elem|Hh].
  - change (view (e :: m) p = None). apply view_None.
    intros e' [->|He']%elem_of_cons; unfold covers, e_end.
    + unfold PAGE_SIZE in *. lia.
    + pose proof (wf_elem _ _ _ _ Hw He'). unfold e_end, PAGE_SIZE in *. lia.
  - destruct (gaps_elem _ _ _ _ Hw Hh) as (a' & b' & [= E1 E2] & ? & ? & ?).
    rewrite decide_False; [by eapply IH|]. unfold covers. unfold PAGE_SIZE in *. lia.
Qed.

Lemma free_in_gap lo m hi x y : wf lo m hi -> lo <= x -> x < y -> y <= hi ->
  (forall p, x <= p < y -> view m p = None) -> exists a b, hole_of a b ∈ gaps lo m hi /\ a <= x /\ y <= b.
Proof.
  revert lo. induction m as [|e m IH]; intros lo Hw Hlo Hxy Hhi Hfree; simpl in *.
  - exists lo, hi. rewrite hole_cons by lia. split; [by apply list_elem_of_singleton|lia].
  - destruct Hw as (H1 & H2 & Hw). destruct (decide (y <= e.1)).
    + exists lo, e.1. rewrite hole_cons by lia. split; [apply elem_of_app; left; by apply list_elem_of_singleton|lia].
    + destruct (decide (e_end e <= x)).
      * destruct (IH (e_end e)) as (a & b & Hh & ?); [done|lia|lia|lia| |].
        { intros p Hp. specialize (Hfree p Hp). by destruct (decide (covers e p)). }
        exists a, b. split; [apply elem_of_app; by right|done].
      * exfalso. specialize (Hfree (Z.max x e.1)). rewrite decide_True in Hfree; [|unfold covers, e_end in *; lia].
        discriminate Hfree. unfold e_end in *. lia.
Qed.

(** [skip_while] then [find] over a list whose kept part is upward closed. *)
Lemma find_skip {A} (f g : A -> bool) (P : A -> Prop) (R : A -> A -> Prop) l :
  (forall h, h ∈ l -> g h = true -> ~ P h) ->
  (forall h, h ∈ l -> g h = false -> f h = true <-> P h) ->
  (forall h h', h ∈ l -> h' ∈ l -> R h h' -> g h = false -> g h' = false) -> StronglySorted R l ->
  match List.find f (skip_while g l) with
  | Some h => exists l1 l2, l = l1 ++ h :: l2 /\ P h /\ forall h', h' ∈ l1 -> ~ P h'
  | None => forall h, h ∈ l -> ~ P h
  end.
Proof.
  intros Hg Hf HR Hs. induction Hs as [|x l Hs IH Hx]; simpl; [by intros ? ?%not_elem_of_nil|].
  rewrite List.Forall_forall in Hx. destruct (g x) eqn:Egx.
  - specialize (IH ltac:(set_solver) ltac:(set_solver) ltac:(intros ?????; eapply HR; set_solver)).
    pose proof (Hg x ltac:(set_solver) Egx) as Hnx. destruct (List.find f (skip_while g l)) as [h|].
    + destruct IH as (l1 & l2 & -> & HP & Hl1). exists (x :: l1), l2. set_solver.
    + set_solver.
  - assert (Hrest : forall h, h ∈ x :: l -> f h = true <-> P h).
    { intros h Hh. apply Hf; [done|]. apply elem_of_cons in Hh as [->|Hh]; [done|].
      eapply HR; [| | |exact Egx]; [set_solver|set_solver|]. apply Hx. by apply list_elem_of_In. }
    clear -Hrest. revert Hrest. generalize (x :: l) as l'. clear. induction l' as [|y l' IH]; intros Hr; simpl.
    + by intros ? ?%not_elem_of_nil.
    + destruct (f y) eqn:Ey.
      * exists [], l'. split_and!; [done|by apply Hr; set_solver|by intros ? ?%not_elem_of_nil].
      * assert (~ P y). { rewrite <- Hr by set_solver. by rewrite Ey. }
        specialize (IH ltac:(set_solver)). destruct (List.find f l').
        -- destruct IH as (l1 & l2 & -> & ? & ?). exists (y :: l1), l2. set_solver.
        -- set_solver.
Qed.

Definition hole_before (h h' : Z * Z) : Prop := h.1 + h.2 <= h'.1 /\ 0 <= h'.2.

Lemma gaps_sorted lo m hi : wf lo m hi -> 0 <= lo -> StronglySorted hole_before (gaps lo m hi).
Proof.
  revert lo. induction m as [|e m IH]; intros lo; simpl.
  - intros _ _. unfold hole. destruct (lo <? hi); repeat constructor.
  - intros (H1 & H2 & Hw) Hlo. specialize (IH _ Hw ltac:(unfold e_end; lia)). unfold hole at 1.
    destruct (Z.ltb_spec lo e.1); [|done]. simpl. constructor; [done|].
    apply List.Forall_forall. intros h Hh%list_elem_of_In.
    destruct (gaps_elem _ _ _ _ Hw Hh) as (a & b & -> & ? & ? & ?). unfold hole_before, e_end in *. simpl. pages.
Qed.

(** [n] pages from page [x] on are in the user half and free. *)
Definition free_at (ug : UserGrants) (x n : Z) : Prop :=
  0 <= x /\ x + n <= USER_END_PAGE /\ forall p, x <= p < x + n -> gview ug p = None.

Definition fits (minp n : Z) (h : Z * Z) : Prop :=
  exists a b, h = hole_of a b /\ n <= b - Z.max a minp.

Lemma hole_of_inj a b a' b' : hole_of a b = hole_of a' b' -> a = a' /\ b = b'.
Proof. unfold hole_of, PAGE_SIZE. intros [= ? ?]. lia. Qed.

Lemma hole_fits_ok minp n a b : 0 <= minp <= USER_END_PAGE -> 0 < n <= USER_END_PAGE ->
  0 <= a -> a < b -> b <= USER_END_PAGE -> minp < b ->
  hole_fits (minp * PAGE_SIZE) n (hole_of a b) = true <-> fits minp n (hole_of a b).
Proof.
  intros. unfold hole_fits, hole_of. usz. rewrite Z.leb_le. transitivity (n <= b - Z.max a minp).
  - destruct (Z.leb_spec (a * PAGE_SIZE) (minp * PAGE_SIZE)),
      (Z.leb_spec (minp * PAGE_SIZE) (a * PAGE_SIZE + (b - a) * PAGE_SIZE)); simpl; usz; pages.
  - split; [intros; by exists a, b|]. intros (a' & b' & [-> ->]%hole_of_inj & ?). lia.
Qed.

Lemma find_free_cases ug minp n near : Inv ug -> 0 <= minp <= USER_END_PAGE -> 0 < n <= USER_END_PAGE ->
  match UserGrants_find_free_near ug (minp * PAGE_SIZE) n near with
  | Some s => exists x, s = mkPageSpan x n /\ minp <= x /\ free_at ug x n /\
                forall y, minp <= y -> free_at ug y n -> x <= y
  | None => forall y, minp <= y -> ~ free_at ug y n
  end.
Proof.
  intros [Hwf Hh] Hmin Hn. unfold UserGrants_find_free_near. rewrite Hh.
  set (g := fun '(hole_offset, hole_size) => usize_add hole_offset hole_size <=? minp * PAGE_SIZE).
  assert (Hel : forall h, h ∈ gaps 0 (inner ug) USER_END_PAGE -> exists a b, h = hole_of a b /\
            0 <= a /\ a < b /\ b <= USER_END_PAGE /\ g h = (b <=? minp)).
  { intros h Hh'. destruct (gaps_elem _ _ _ _ Hwf Hh') as (a & b & -> & ? & ? & ?).
    exists a, b. split_and!; try done. unfold g. usz.
    destruct (Z.leb_spec (a * PAGE_SIZE + (b - a) * PAGE_SIZE) (minp * PAGE_SIZE)), (Z.leb_spec b minp); try done; pages. }
  assert (Hfit : forall y, minp <= y -> free_at ug y n ->
            exists a b, hole_of a b ∈ gaps 0 (inner ug) USER_END_PAGE /\ fits minp n (hole_of a b) /\ a <= y /\ y + n <= b).
  { intros y Hy (? & ? & Hfree). destruct (free_in_gap _ _ _ y (y + n) Hwf) as (a & b & ? & ? & ?); [lia|lia|lia|done|].
    exists a, b. split_and!; try done. exists a, b. split; [done|lia]. }
  pose proof (find_skip (hole_fits (minp * PAGE_SIZE) n) g (fits minp n) hole_before
    (gaps 0 (inner ug) USER_END_PAGE)) as Hfs.
  assert (Hsorted : StronglySorted hole_before (gaps 0 (inner ug) USER_END_PAGE)) by (by apply gaps_sorted).
  lapply Hfs; clear Hfs.
  2: { intros h (a & b & -> & ? & ? & ? & ->)%Hel Hle%Z.leb_le (a' & b' & [-> ->]%hole_of_inj & ?). lia. }
  intros Hfs; lapply Hfs; clear Hfs.
  2: { intros h (a & b & -> & ? & ? & ? & ->)%Hel Hle%Z.leb_gt. by apply hole_fits_ok. }
  intros Hfs; lapply Hfs; clear Hfs.
  2: { intros h h' (a & b & -> & ? & ? & ? & ->)%Hel (a' & b' & -> & ? & ? & ? & ->)%Hel [Hb1 Hb2].
       rewrite !Z.leb_gt. unfold hole_of in *. simpl in *. pages. }
  intros Hfs. specialize (Hfs Hsorted). destruct (List.find _ _) as [[hs hz]|].
  - destruct Hfs as (l1 & l2 & Hl & (a & b & [= -> ->] & Hfits) & Hl1).
    assert (Hab : hole_of a b ∈ gaps 0 (inner ug) USER_END_PAGE) by (rewrite Hl; set_solver).
    destruct (Hel _ Hab) as (a' & b' & [-> ->]%hole_of_inj & ? & ? & ? & _). rename a' into a, b' into b.
    exists (Z.max a minp). split_and!.
    + unfold PageSpan_new, Page_containing_address. f_equal. rewrite <- (div_page (Z.max a minp)). f_equal. pages.
    + lia.
    + split_and!; [lia|lia|]. intros p Hp. eapply gap_free; [done|exact Hab|lia].
    + intros y Hy (a2 & b2 & Hin2 & Hfit2 & Hle2 & _)%Hfit; [|done].
      rewrite Hl in Hin2. apply elem_of_app in Hin2 as [Hin2|Hin2]; [by destruct (Hl1 _ Hin2)|].
      rewrite Hl in Hsorted. apply elem_of_cons in Hin2 as [[-> ->]%hole_of_inj|Hin2]; [lia|].
      apply StronglySorted_app_1_r in Hsorted.
      apply StronglySorted_inv in Hsorted as [_ Hall]. rewrite Forall_forall in Hall.
      destruct (Hall _ Hin2) as [Hb2 _]. unfold hole_of in Hb2. simpl in Hb2. pages.
  - intros y Hy (a & b & Hin & Hf & _)%Hfit; [|done]. by apply (Hfs _ Hin).
Qed.

(** ** Extraction *)

(** The provider's offsets stay in range over [n] pages. *)
Definition provider_ok (p : Provider) (n : Z) : Prop :=
  match p with
  | Allocated (Some r) _ | FmapBorrowed r _ =>
      0 <= base_offset r /\ base_offset r + n * PAGE_SIZE < 2 ^ 64
  | PhysBorrowed f => 0 < f /\ f + n * PAGE_SIZE < 2 ^ 64
  | _ => True
  end.

(** The providers whose page sources [extract] keeps. *)
Definition splittable (p : Provider) : Prop :=
  match p with External _ _ _ | Allocated _ true => False | _ => True end.

Lemma frame_next_by_ok {S} f n (st : S) : 0 < f -> upage n -> f + n * PAGE_SIZE < 2 ^ 64 ->
  next_by f n st = Done (f + n * PAGE_SIZE, st).
Proof.
  intros Hf Hn Hlt. unfold next_by, checked_add, usize_max. usz.
  destruct (Z.leb_spec (f + n * PAGE_SIZE) (2 ^ 64 - 1)); [|pages].
  unfold unwrap, nonzero. destruct (Z.eqb_spec (f + n * PAGE_SIZE) 0); [pages|done].
Qed.

(** [is_pinned] depends on the provider only. *)
Definition provider_pinned (p : Provider) : bool :=
  match p with
  | External _ _ pin | AllocatedShared pin => pin
  | FmapBorrowed _ n => 1 <=? n
  | _ => false
  end.

Lemma is_pinned_provider i : is_pinned i = provider_pinned (provider i).
Proof. unfold is_pinned. by destruct (provider i) as [| [] | | ? ? [] |]. Qed.

Lemma before_source p off : splittable p ->
  source_at (before_provider p) off = source_at p off /\ provider_pinned (before_provider p) = false.
Proof. by destruct p as [[] []| | | |]. Qed.

Lemma extract_unpinned i : can_extract i false = true -> splittable (provider i) ->
  provider_pinned (provider i) = false.
Proof.
  unfold can_extract. rewrite is_pinned_provider, orb_false_r.
  destruct (provider i) as [[] []| [] | | |]; simpl; try done. by destruct (1 <=? pin_refcount).
Qed.

Lemma middle_ok p k n : provider_ok p n -> 0 <= k <= n -> upage n -> splittable p ->
  exists p', (forall (S : Type) (st : S), middle_provider p k st = Done (p', st)) /\ splittable p' /\ provider_ok p' (n - k) /\
    provider_pinned p' = provider_pinned p /\ forall off, source_at p' off = source_at p (k + off).
Proof.
  intros Hp Hk Hn Hs. destruct p as [[r|] c|pin|f|a sb pin|r pin]; simpl in *; try done;
    try (eexists; split_and!; [done|done|done|done|]; done).
  - eexists. split; [done|]. simpl. unfold advance_file_ref. simpl. usz.
    split_and!; [done|pages|pages|done|]. intros off. simpl. f_equal. lia.
  - eexists. split; [intros S st; unfold bind; by rewrite frame_next_by_ok by pages|]. simpl.
    split_and!; [done|pages|pages|done|]. intros off. f_equal. lia.
  - eexists. split; [done|]. simpl. unfold advance_file_ref. simpl. usz.
    split_and!; [done|pages|pages|done|]. intros off. simpl. f_equal. lia.
Qed.

Lemma after_ok p k n : provider_ok p n -> 0 <= k <= n -> upage n -> splittable p ->
  exists p', (forall (S : Type) (st : S), after_provider p k st = Done (p', st)) /\ provider_pinned p' = false /\
    forall off, source_at p' off = source_at p (k + off).
Proof.
  intros Hp Hk Hn Hs. destruct p as [[r|] []|pin|f|a sb pin|r pin]; simpl in *; try done;
    try (eexists; split_and!; [done|done|]; done).
  all: eexists; (split_and!; [intros S st; try (unfold bind; rewrite frame_next_by_ok by pages); done|done|]); intros off;
    simpl; unfold advance_file_ref; simpl; usz; f_equal; lia.
Qed.

Lemma slice_ok {S} s t (st : S) : span_ok s -> span_ok t -> span_base s <= span_base t ->
  span_end t <= span_end s ->
  PageSpan_slice s t st = Done ((if decide (span_base s < span_base t)
                                 then Some (mkPageSpan (span_base s) (span_base t - span_base s)) else None,
                                 t,
                                 if decide (span_end t < span_end s)
                                 then Some (mkPageSpan (span_end t) (span_end s - span_end t)) else None), st).
Proof.
  intros Hs Ht H1 H2. unfold PageSpan_slice, PageSpan_before, PageSpan_after, bind, assert_, ret.
  rewrite !PageSpan_end_ok by done. unfold span_ok, span_end in *.
  destruct (Z.leb_spec (span_base s) (span_base t)); [|lia].
  destruct (Z.leb_spec (span_base t + span_count t) (span_base s + span_count s)); [|lia].
  rewrite !between_ok by pages. unfold opt_filter, PageSpan_is_empty. simpl. do 2 f_equal. f_equal; [f_equal|].
  - destruct (decide (span_base s < span_base t)), (Z.eqb_spec (Z.max (span_base t - span_base s) 0) 0); simpl; try lia; [|done].
    do 2 f_equal. lia.
  - destruct (decide (span_base t + span_count t < span_base s + span_count s)),
      (Z.eqb_spec (Z.max (span_base s + span_count s - (span_base t + span_count t)) 0) 0); simpl; try lia; [|done].
    do 2 f_equal. lia.
Qed.

(** The grants of an extraction, in address order. *)
Definition pieces (r : option Grant * Grant * option Grant) : list entry :=
  let '(b, m, a) := r in
  (fun g => (base g, info g)) <$> (option_list b ++ [m] ++ option_list a).

(** A list of consecutive entries that agrees with [e] page by page. *)
Fixpoint tiles (lo : Z) (m : list entry) (e : entry) : Prop :=
  match m with
  | [] => lo = e_end e
  | e' :: m' => e'.1 = lo /\ 0 < page_count e'.2 /\ (forall p, attr_at e' p = attr_at e p) /\ tiles (e_end e') m' e
  end.

Lemma tiles_ok lo m e : tiles lo m e -> wf lo m (e_end e) /\
  forall p, view m p = if decide (lo <= p < e_end e) then Some (attr_at e p) else None.
Proof.
  revert lo. induction m as [|e' m IH]; intros lo; simpl.
  - intros ->. split; [done|]. intros p. by rewrite decide_False by lia.
  - intros (H1 & H2 & Ha & [Hw Hv]%IH). split; [split_and!; [lia|lia|done]|]. intros p. rewrite Hv, Ha.
    apply wf_le in Hw. unfold covers, e_end in *.
    repeat case_decide; try lia; done.
Qed.

Lemma extract_ok g s :
  span_ok (Grant_span g) -> 0 < span_count s -> base g <= span_base s -> span_end s <= span_end (Grant_span g) ->
  can_extract (info g) false = true -> provider_ok (provider (info g)) (page_count (info g)) ->
  splittable (provider (info g)) ->
  exists r, (forall (S : Type) (st : S), Grant_extract g s st = Done (Some r, st)) /\ Grant_span r.1.2 = s /\
    tiles (base g) (pieces r) (base g, info g).
Proof.
  intros Hok Hn Hb He Hce Hp Hs.
  assert (Hoks : span_ok s) by (unfold span_ok, span_end, Grant_span, PageSpan_new in *; simpl in *; lia).
  destruct g as [gb [gn gf gm gp]], s as [sb sn]; unfold Grant_span, PageSpan_new, span_end, span_ok in *; simpl in *.
  destruct (middle_ok gp (sb - gb) gn Hp) as (mp & Em & Hsm & Hpm & Hpin & Hsrc); [lia|pages|done|].
  pose proof (extract_unpinned _ Hce Hs) as Hun. simpl in Hun. rewrite Hun in Hpin.
  destruct (after_ok mp sn (gn - (sb - gb)) Hpm) as (ap & Ea & Hpina & Hsrca); [lia|pages|done|].
  set (bef := if decide (gb < sb) then Some (mkGrant gb (mkGrantInfo (sb - gb) gf gm (before_provider gp))) else None).
  set (aft := if decide (sb + sn < gb + gn)
              then Some (mkGrant (sb + sn) (mkGrantInfo (gb + gn - (sb + sn)) gf gm ap)) else None).
  exists (bef, mkGrant sb (mkGrantInfo sn gf gm mp), aft). split_and!; [|done|].
  - intros S st. unfold Grant_extract, assert_. cbn [info base]. rewrite Hce. unfold bind at 1. cbn [ret].
    unfold bind at 1. rewrite slice_ok by done. unfold span_end, bef, aft. simpl.
    destruct (decide (gb < sb)); simpl; [|replace 0 with (sb - gb) by lia]; unfold bind at 1; rewrite Em;
      (destruct (decide (sb + sn < gb + gn)); [unfold bind at 1, bind at 1; rewrite Ea|]); done.
  - unfold bef, aft. destruct (decide (gb < sb)), (decide (sb + sn < gb + gn)); simpl; unfold e_end; simpl;
      split_and!; try lia.
    all: intros p; unfold attr_at; rewrite !is_pinned_provider; simpl; destruct (before_source gp (p - gb) Hs) as [Hsb Hpb];
      rewrite ?Hsrca, ?Hsrc, ?Hsb, ?Hpb, ?Hpin, ?Hpina, ?Hun; do 2 f_equal; lia.
Qed.

(** ** Correctness of the grant tree *)

(** C29: [UserGrants::insert] of a nonempty grant inside the user half never
    fails on a free region: it keeps the invariant (sorted disjoint grants,
    [holes] exactly the maximal free ranges), whatever merging with the
    neighbours it performs, and the page map becomes the old one with the
    grant's pages added.  On a region with any occupied page it panics. *)
Theorem insert_correct ug g :
  Inv ug -> span_ok (Grant_span g) -> 0 < page_count (info g) ->
  ((forall p, in_span p (Grant_span g) -> gview ug p = None) ->
   exists ug', UserGrants_insert g ug = Done (tt, ug') /\ Inv ug' /\
     forall p, gview ug' p = if decide (in_span p (Grant_span g))
                             then Some (attr_at (base g, info g) p) else gview ug p) /\
  (forall p, in_span p (Grant_span g) -> is_Some (gview ug p) -> UserGrants_insert g ug = Panic).
Proof. intros HI Hs Hn. split; [by apply insert_ok|]. intros p. by apply insert_panics. Qed.

(** [UserGrants::remove] returns the grant that starts at the given page
    and gives exactly its pages back, joining the holes around it so that the
    invariant is kept; on any other page it returns [None] and changes
    nothing. *)
Theorem remove_correct ug b : Inv ug ->
  (forall i, (b, i) ∈ inner ug ->
     exists ug', UserGrants_remove b ug = Done (Some (mkGrant b i), ug') /\ Inv ug' /\
       forall p, gview ug' p = if decide (in_span p (mkPageSpan b (page_count i))) then None else gview ug p) /\
  ((forall i, (b, i) ∉ inner ug) -> UserGrants_remove b ug = Done (None, ug)).
Proof.
  intros HI. split.
  - intros i Hi. destruct (remove_ok ug (b, i) HI Hi) as (ug' & Hr & HI' & Hv). exists ug'.
    split_and!; [done|done|]. intros p. rewrite Hv. by repeat case_decide.
  - intros Hno. apply remove_absent; [done|]. intros [b' i] He Heq. simpl in Heq. subst b'. by apply (Hno i).
Qed.

(** [find_free] with a page-aligned minimum is a complete first-fit
    search: it returns the lowest page at or above the minimum from which the
    requested number of pages is free inside the user half, and [None] only
    when there is none. *)
Theorem find_free_correct ug minp n :
  Inv ug -> 0 <= minp <= USER_END_PAGE -> 0 < n <= USER_END_PAGE ->
  match UserGrants_find_free ug (minp * PAGE_SIZE) n with
  | Some s => exists x, s = mkPageSpan x n /\ minp <= x /\ free_at ug x n /\
                forall y, minp <= y -> free_at ug y n -> x <= y
  | None => forall y, minp <= y -> ~ free_at ug y n
  end.
Proof. apply find_free_cases. Qed.

(** [Grant::extract] of a nonempty sub-span cuts the grant into at most
    three adjacent grants that tile it, the middle one being the sub-span, and
    every page keeps its flags, its mapped state and its source (file offset,
    physical frame), for every provider but [External] and physically
    contiguous ones. *)
Theorem extract_partition {S} g s (st : S) :
  span_ok (Grant_span g) -> 0 < span_count s -> base g <= span_base s ->
  span_end s <= span_end (Grant_span g) -> can_extract (info g) false = true ->
  provider_ok (provider (info g)) (page_count (info g)) -> splittable (provider (info g)) ->
  exists r, Grant_extract g s st = Done (Some r, st) /\ Grant_span r.1.2 = s /\
    wf (base g) (pieces r) (span_end (Grant_span g)) /\
    forall p, view (pieces r) p = view [(base g, info g)] p.
Proof.
  intros ? ? ? ? ? ? ?. destruct (extract_ok g s) as (r & Hr & Hm & Ht); try done.
  exists r. split_and!; [apply Hr|done|by apply tiles_ok in Ht as [? _]|].
  intros p. apply tiles_ok in Ht as [_ ->]. simpl. unfold covers. by repeat case_decide.
Qed.

(** Extracting from the inside of an [External] grant loses its place in
    the other address space: the extracted pages are recorded as borrowed from
    the beginning of the original source range, [span_base s - base g] pages
    too low. *)
Theorem extract_external_shift {S} b n f m a src s (st : S) :
  span_ok (mkPageSpan b n) -> 0 < span_count s -> b <= span_base s -> span_end s <= b + n ->
  exists r, Grant_extract (mkGrant b (mkGrantInfo n f m (External a src false))) s st = Done (Some r, st) /\
    forall p, in_span p s ->
      a_source (attr_at (base r.1.2, info r.1.2) p) = SrcExternal a (src + (p - b) - (span_base s - b)).
Proof.
  intros Hok Hn Hb He. unfold Grant_extract, assert_, bind. simpl.
  assert (Hoks : span_ok s) by (unfold span_ok, span_end in *; simpl in *; lia).
  rewrite slice_ok by (try done; unfold Grant_span, span_end, PageSpan_new in *; simpl in *; lia). simpl.
  destruct (decide (span_end s < span_end (Grant_span _))); (eexists; split; [done|]); simpl;
    intros p _; f_equal; lia.
Qed.

(** [contains] finds the grant that holds a page exactly when there is
    one, and [conflicts] lists, in address order, exactly the grants that
    share a page with the span. *)
Theorem lookup_correct ug s : Inv ug -> span_ok s ->
  (forall p e, UserGrants_contains ug p = Some e <-> e ∈ inner ug /\ covers e p) /\
  (forall e, e ∈ UserGrants_conflicts ug s <-> e ∈ inner ug /\ exists p, in_span p s /\ covers e p) /\
  sublist (UserGrants_conflicts ug s) (inner ug).
Proof.
  intros HI Hs. split_and!.
  - intros p e. by apply contains_ok.
  - intros e. rewrite conflicts_ok, list_elem_of_filter, overlaps_covers by done. tauto.
  - rewrite conflicts_ok by done. apply sublist_filter.
Qed.

(** The trees a process can build: insertions of valid grants on free regions
    and removals, from the empty tree. *)
Inductive reachable : UserGrants -> Prop :=
| reach_new : reachable UserGrants_new
| reach_insert ug g ug' : reachable ug -> span_ok (Grant_span g) -> 0 < page_count (info g) ->
    UserGrants_insert g ug = Done (tt, ug') -> reachable ug'
| reach_remove ug b r ug' : reachable ug -> UserGrants_remove b ug = Done (r, ug') -> reachable ug'.

Lemma new_inv : Inv UserGrants_new.
Proof. split; [by vm_compute|done]. Qed.

Lemma insert_Done_free ug g ug' : Inv ug -> span_ok (Grant_span g) ->
  UserGrants_insert g ug = Done (tt, ug') -> forall p, in_span p (Grant_span g) -> gview ug p = None.
Proof.
  intros HI Hs Hi p Hp. destruct (gview ug p) eqn:E; [|done].
  rewrite (insert_panics ug g p) in Hi by eauto. done.
Qed.

(** Every tree reachable from the empty one by insertions of valid grants
    and removals satisfies the invariant, and removal never panics on it. *)
Theorem reachable_inv ug : reachable ug -> Inv ug /\ forall b, UserGrants_remove b ug <> Panic.
Proof.
  intros Hr. assert (HI : Inv ug).
  { induction Hr as [|ug g ug' _ IH Hs Hn Hi|ug b r ug' _ IH Hrm]; [apply new_inv|..].
    - destruct (insert_ok ug g IH Hs Hn) as (ug2 & E & ? & _); [by eapply insert_Done_free|].
      rewrite E in Hi. by simplify_eq.
    - destruct (UserGrants_contains ug b) as [[b' i]|] eqn:Ec.
      + apply contains_ok in Ec as [He Hc]; [|done]. destruct (decide (b' = b)) as [->|Hne].
        * destruct (remove_ok ug (b, i) IH He) as (ug2 & E & ? & _). cbn [fst] in E.
          rewrite E in Hrm. by simplify_eq.
        * rewrite remove_absent in Hrm; [by simplify_eq|done|]. intros e He' <-.
          destruct IH as [Hwf _]. pose proof (wf_elem _ _ _ _ Hwf He').
          assert (e = (b', i)) as ->; [|done].
          eapply (covers_unique _ _ _ _ _ e.1 Hwf He' He); [unfold covers, e_end in *; lia|done].
      + rewrite remove_absent in Hrm; [by simplify_eq|done|]. intros e He' <-.
        rewrite contains_None in Ec by done. unfold gview in Ec. rewrite view_None in Ec.
        apply (Ec e He'). destruct IH as [Hwf _]. pose proof (wf_elem _ _ _ _ Hwf He'). unfold covers, e_end in *. lia. }
  split; [done|]. intros b. unfold UserGrants_remove, bind, get_state, put_state, ret.
  by destruct (om_get b (inner ug)).
Qed.

End spec.

(** ** Witnesses *)

Module GrantsWitnesses.
Import SimpleFlags GrantsExamples.

(** Two pages at page 1, five at page 10. *)
Definition tree : UserGrants := mkUserGrants
  [(1, anon 2); (10, anon 5)]
  [(0, 0x1000); (0x3000, 0x7000); (0xf000, USER_END_OFFSET - 0xf000)].

Lemma tree_inv : Inv tree.
Proof. split; [|by vm_compute]. simpl. unfold e_end. simpl. rewrite USER_END_PAGE_eq. lia. Qed.

Definition new_grant : Grant := mkGrant 3 (anon 4).

Lemma tree_free p : in_span p (Grant_span new_grant) -> gview tree p = None.
Proof.
  unfold in_span, span_end. simpl. intros Hp. apply view_None.
  intros e [->|[->|?%not_elem_of_nil]%elem_of_cons]%elem_of_cons; [..|done]; unfold covers, e_end; simpl; lia.
Qed.

Lemma insert_correct_witness : exists ug', UserGrants_insert new_grant tree = Done (tt, ug') /\ Inv ug'.
Proof.
  destruct (insert_correct tree new_grant) as [H _];
    [apply tree_inv|unfold span_ok; simpl; rewrite USER_END_PAGE_eq; lia|simpl; lia|].
  destruct (H tree_free) as (ug' & ? & ? & _). by exists ug'.
Defined.

Lemma remove_correct_witness : exists ug', UserGrants_remove 10 tree = Done (Some (mkGrant 10 (anon 5)), ug') /\ Inv ug'.
Proof.
  destruct (remove_correct tree 10 tree_inv) as [H _].
  destruct (H (anon 5)) as (ug' & ? & ? & _); [|by exists ug'].
  apply list_elem_of_further, list_elem_of_here.
Defined.

Lemma find_free_correct_witness :
  UserGrants_find_free tree (2 * PAGE_SIZE) 7 = Some (mkPageSpan 3 7) /\ free_at tree 3 7.
Proof.
  assert (E : UserGrants_find_free tree (2 * PAGE_SIZE) 7 = Some (mkPageSpan 3 7)) by (vm_compute; reflexivity).
  split; [exact E|].
  pose proof (find_free_correct tree 2 7 tree_inv) as H. rewrite E in H.
  destruct H as (x & [= <-] & _ & Hf & _); [rewrite USER_END_PAGE_eq; lia..|exact Hf].
Defined.

(** A file-backed grant of eight pages, cut in the middle. *)
Definition file_grant : Grant :=
  mkGrant 16 (mkGrantInfo 8 (mkPf true false false) true (FmapBorrowed (mkFileRef 7 0x2000) 0)).

Lemma extract_partition_witness : exists r,
  Grant_extract file_grant (mkPageSpan 18 3) tt = Done (Some r, tt) /\
  (forall p, view (pieces r) p = view [(base file_grant, info file_grant)] p).
Proof.
  destruct (extract_partition file_grant (mkPageSpan 18 3) tt) as (r & ? & _ & _ & ?);
    [unfold span_ok; simpl; rewrite USER_END_PAGE_eq; lia|simpl; lia|simpl; lia|unfold span_end; simpl; lia
    |reflexivity|simpl; unfold PAGE_SIZE; lia|exact I|by exists r].
Defined.

Lemma extract_external_shift_witness : exists r,
  Grant_extract (mkGrant 16 (mkGrantInfo 8 (mkPf true false false) true (External 5 100 false)))
    (mkPageSpan 18 3) tt = Done (Some r, tt) /\
  a_source (attr_at (base r.1.2, info r.1.2) 18) = SrcExternal 5 100.
Proof.
  destruct (extract_external_shift (PFA:=page_flags_api) 16 8 (mkPf true false false) true 5 100 (mkPageSpan 18 3) tt) as (r & ? & H);
    [unfold span_ok; simpl; rewrite USER_END_PAGE_eq; lia|simpl; lia|simpl; lia|unfold span_end; simpl; lia|].
  exists r. split; [done|]. rewrite H; [reflexivity|]. unfold in_span, span_end. simpl. lia.
Defined.

Lemma lookup_correct_witness : (1, anon 2) ∈ UserGrants_conflicts tree (mkPageSpan 2 9).
Proof.
  apply (lookup_correct tree (mkPageSpan 2 9));
    [apply tree_inv|unfold span_ok; simpl; rewrite USER_END_PAGE_eq; lia|].
  split; [apply list_elem_of_here|]. exists 2. unfold in_span, span_end, covers, e_end. simpl. lia.
Defined.

Lemma reachable_inv_witness : exists ug', UserGrants_insert new_grant UserGrants_new = Done (tt, ug') /\ Inv ug'.
Proof.
  destruct (UserGrants_insert new_grant UserGrants_new) as [[[] ug']|] eqn:E; [|by vm_compute in E].
  exists ug'. split; [done|]. apply (reachable_inv ug'). eapply reach_insert; [apply reach_new| | |exact E].
  - unfold span_ok; simpl; rewrite USER_END_PAGE_eq; lia.
  - simpl. lia.
Defined.
End GrantsWitnesses.
