(* ===== verification/CpuSet.v ===== *)
(** * CPU masks (src/cpu_set.rs)

    [LogicalCpuSet] is an array of two 64-bit words; it implements a finite
    set of CPU numbers below [MAX_CPU_COUNT]. *)

From S2P Require Import Prelude.

Definition MAX_CPU_COUNT : Z := 128.
Definition USIZE_BITS : Z := 64.
Definition SET_WORDS : nat := Z.to_nat (MAX_CPU_COUNT / USIZE_BITS).

(** [LogicalCpuId::next], on the global [CPU_COUNT] (a [u32]). *)
Definition LogicalCpuId_next : M Z Z :=
  let! id := get_state in
  put_state ((id + 1) mod 2 ^ 32) ;;;
  assert_ (id <? MAX_CPU_COUNT) ;;;
  ret id.

Definition parts (id : Z) : nat * Z := (Z.to_nat (id / USIZE_BITS), id mod USIZE_BITS).

(** The words of the mask; an index outside the array panics. *)
Abbreviation LogicalCpuSet := (list Z) (only parsing).

Definition cpu_empty : LogicalCpuSet := replicate SET_WORDS 0.
Definition cpu_all : LogicalCpuSet := replicate SET_WORDS (usize_not 0).

Definition cpu_word (word : nat) : M LogicalCpuSet Z :=
  let! s := get_state in unwrap (s !! word).
Definition cpu_store (word : nat) (v : Z) : M LogicalCpuSet unit :=
  modify (fun s => <[word := v]> s).

Definition cpu_contains (id : Z) : M LogicalCpuSet bool :=
  let '(word, bit) := parts id in
  let! w := cpu_word word in
  ret (negb (Z.land w (Z.shiftl 1 bit) =? 0)).

Definition atomic_set (id : Z) : M LogicalCpuSet unit :=
  let '(word, bit) := parts id in
  let! w := cpu_word word in
  cpu_store word (Z.lor w (Z.shiftl 1 bit)).

Definition atomic_clear (id : Z) : M LogicalCpuSet unit :=
  let '(word, bit) := parts id in
  let! w := cpu_word word in
  cpu_store word (Z.land w (usize_not (Z.shiftl 1 bit))).

Definition override_from (raw : list Z) : M LogicalCpuSet unit := put_state raw.
Definition cpu_to_raw : M LogicalCpuSet (list Z) := get_state.

(** The members of word [i], as [iter_mut] yields them. *)
Definition word_ids (i : nat) (w : Z) : list Z :=
  omap (fun b : nat => if negb (Z.land w (Z.shiftl 1 (Z.of_nat b)) =? 0)
                       then Some (Z.of_nat i * USIZE_BITS + Z.of_nat b) else None)
       (seq 0 (Z.to_nat USIZE_BITS)).
Definition cpu_iter (s : LogicalCpuSet) : list Z := mjoin (imap word_ids s).

(** ** Refinement of finite sets *)

Definition cpu_wf (s : LogicalCpuSet) : Prop :=
  length s = SET_WORDS /\ Forall usize_ok s.

(** Membership, as a bit of the mask. *)
Definition cpu_mem (s : LogicalCpuSet) (id : Z) : Prop :=
  0 <= id < MAX_CPU_COUNT /\
  exists w, s !! (parts id).1 = Some w /\ Z.testbit w (parts id).2 = true.

Lemma bit_test w b : 0 <= b -> negb (Z.land w (Z.shiftl 1 b) =? 0) = Z.testbit w b.
Proof.
  intros Hb. rewrite Z.shiftl_1_l, land_pow2 by done. destruct (Z.testbit w b); [|done].
  assert (2 ^ b <> 0) by (apply Z.pow_nonzero; lia). by destruct (Z.eqb_spec (2 ^ b) 0).
Qed.

Lemma parts_range id : 0 <= id < MAX_CPU_COUNT ->
  ((parts id).1 < SET_WORDS)%nat /\ 0 <= (parts id).2 < 64 /\
  id = Z.of_nat (parts id).1 * 64 + (parts id).2.
Proof.
  unfold parts, MAX_CPU_COUNT, USIZE_BITS. intros H. simpl.
  pose proof (Z.div_mod id 64). pose proof (Z.mod_pos_bound id 64).
  assert (0 <= id / 64 < 2). { split; [apply Z.div_pos; lia|apply Z.div_lt_upper_bound; lia]. }
  change SET_WORDS with 2%nat. lia.
Qed.

Lemma parts_inj id id' : 0 <= id < MAX_CPU_COUNT -> 0 <= id' < MAX_CPU_COUNT ->
  parts id = parts id' -> id = id'.
Proof. intros H H' E. apply parts_range in H as (_ & _ & ->), H' as (_ & _ & ->). by rewrite E. Qed.

Lemma wf_word s i : cpu_wf s -> (i < SET_WORDS)%nat -> exists w, s !! i = Some w /\ usize_ok w.
Proof.
  intros [Hl Hf] Hi. destruct (lookup_lt_is_Some_2 s i) as [w Hw]; [lia|].
  exists w. split; [done|]. by eapply Forall_lookup_1.
Qed.

Lemma lor_usize a b : usize_ok a -> usize_ok b -> usize_ok (Z.lor a b).
Proof.
  unfold usize_ok. intros. split; [apply Z.lor_nonneg; lia|].
  destruct (decide (Z.lor a b = 0)) as [->|]; [lia|]. assert (0 <= Z.lor a b) by (apply Z.lor_nonneg; lia).
  apply Z.log2_lt_pow2; [lia|]. rewrite Z.log2_lor by lia.
  apply Z.max_lub_lt; (destruct (decide (a = 0)) as [->|]; [|]); try (apply Z.log2_lt_pow2; lia); simpl; try lia.
  - destruct (decide (b = 0)) as [->|]; [simpl; lia|apply Z.log2_lt_pow2; lia].
  - destruct (decide (b = 0)) as [->|]; [simpl; lia|apply Z.log2_lt_pow2; lia].
Qed.

Lemma land_usize a b : usize_ok a -> 0 <= b -> usize_ok (Z.land a b).
Proof.
  unfold usize_ok. intros Ha Hb. split; [apply Z.land_nonneg; lia|].
  assert (0 <= Z.land a b) by (apply Z.land_nonneg; lia). apply Z.le_lt_trans with a; [|lia].
  apply Z.ldiff_le; [lia|]. apply Z.bits_inj'; intros i Hi. rewrite Z.ldiff_spec, Z.land_spec, Z.bits_0.
  by destruct (Z.testbit a i), (Z.testbit b i).
Qed.

(** Storing a word keeps the representation and changes only its bits. *)
Lemma store_ok s i w v : cpu_wf s -> s !! i = Some w -> usize_ok v ->
  cpu_wf (<[i := v]> s) /\
  forall id, 0 <= id < MAX_CPU_COUNT ->
    cpu_mem (<[i := v]> s) id <->
    if decide ((parts id).1 = i) then Z.testbit v (parts id).2 = true else cpu_mem s id.
Proof.
  intros [Hl Hf] Hi Hv. split; [split; [by rewrite length_insert|by apply Forall_insert]|].
  intros id Hid. unfold cpu_mem. destruct (decide ((parts id).1 = i)) as [E|E].
  - rewrite E, list_lookup_insert_eq by (by eapply lookup_lt_Some). split; [|by eauto].
    intros (_ & ? & [= <-] & ?). done.
  - by rewrite list_lookup_insert_ne by done.
Qed.

Lemma word_ids_elem i w id : id ∈ word_ids i w <->
  exists b, 0 <= b < 64 /\ id = Z.of_nat i * 64 + b /\ Z.testbit w b = true.
Proof.
  unfold word_ids. rewrite list_elem_of_omap. split.
  - intros (b & Hb & Hif). apply elem_of_seq in Hb. rewrite bit_test in Hif by lia.
    destruct (Z.testbit w (Z.of_nat b)) eqn:Et; [|done]. simplify_eq.
    exists (Z.of_nat b). change (Z.to_nat USIZE_BITS) with 64%nat in Hb. unfold USIZE_BITS. split_and!; [lia|lia|lia|done].
  - intros (b & Hb & -> & Ht). exists (Z.to_nat b). split.
    + apply elem_of_seq. change (Z.to_nat USIZE_BITS) with 64%nat. lia.
    + rewrite Z2Nat.id, bit_test, Ht by lia. done.
Qed.

Lemma cpu_iter_elem s id : cpu_wf s -> id ∈ cpu_iter s <-> cpu_mem s id.
Proof.
  intros [Hl Hf]. unfold cpu_iter. rewrite list_elem_of_join. split.
  - intros (l & Hid & Hl'). apply elem_of_lookup_imap in Hl' as (i & w & -> & Hw).
    apply word_ids_elem in Hid as (b & Hb & -> & Ht). apply lookup_lt_Some in Hw as Hi.
    rewrite Hl in Hi. change SET_WORDS with 2%nat in Hi.
    unfold cpu_mem, parts, MAX_CPU_COUNT, USIZE_BITS. simpl. split; [lia|].
    rewrite Z.add_comm, Z.div_add, Z.mod_add by lia. rewrite Z.div_small, Z.mod_small by lia.
    exists w. split; [|done]. by replace (Z.to_nat (0 + Z.of_nat i)) with i by lia.
  - intros [Hid (w & Hw & Ht)]. destruct (parts_range id Hid) as (_ & Hb & E).
    exists (word_ids (parts id).1 w). split; [|apply elem_of_lookup_imap; by eauto].
    apply word_ids_elem. eauto 10.
Qed.

(** [LogicalCpuSet] implements finite sets of CPU numbers: [contains]
    decides membership, [atomic_set] and [atomic_clear] add and remove exactly
    the given CPU and never panic below [MAX_CPU_COUNT], and [iter_mut]
    enumerates the members. *)
Theorem cpu_set_correct s id : cpu_wf s -> 0 <= id < MAX_CPU_COUNT ->
  (exists b, cpu_contains id s = Done (b, s) /\ (b = true <-> cpu_mem s id)) /\
  (exists s', atomic_set id s = Done (tt, s') /\ cpu_wf s' /\
     forall id', 0 <= id' < MAX_CPU_COUNT -> cpu_mem s' id' <-> id' = id \/ cpu_mem s id') /\
  (exists s', atomic_clear id s = Done (tt, s') /\ cpu_wf s' /\
     forall id', 0 <= id' < MAX_CPU_COUNT -> cpu_mem s' id' <-> id' <> id /\ cpu_mem s id') /\
  (forall id', id' ∈ cpu_iter s <-> cpu_mem s id').
Proof.
  intros Hwf Hid. destruct (parts_range id Hid) as (Hw & Hb & _).
  destruct (wf_word s _ Hwf Hw) as (w & Hs & Hok).
  assert (Hone : usize_ok (2 ^ (parts id).2)).
  { unfold usize_ok. split; [lia|]. apply Z.pow_lt_mono_r; lia. }
  unfold cpu_contains, atomic_set, atomic_clear. destruct (parts id) as [i b] eqn:Ep. simpl in *.
  unfold cpu_word, cpu_store, bind, get_state, modify, unwrap. rewrite Hs. cbn [ret].
  assert (Hsame : forall id', 0 <= id' < MAX_CPU_COUNT -> parts id' = (i, b) -> id' = id).
  { intros id' ? ?. apply parts_inj; [done|done|congruence]. }
  split_and!.
  - exists (Z.testbit w b). rewrite bit_test by lia. split; [done|]. unfold cpu_mem. rewrite Ep. simpl.
    rewrite Hs. split; [by eauto|]. by intros (_ & ? & [= <-] & ?).
  - destruct (store_ok s i w (Z.lor w (Z.shiftl 1 b)) Hwf Hs) as [Hwf' Hm].
    { rewrite Z.shiftl_1_l. by apply lor_usize. }
    eexists. split; [done|]. split; [done|]. intros id' Hid'. rewrite Hm by done.
    destruct (parts_range id' Hid') as (_ & Hb' & _). destruct (parts id') as [i' b'] eqn:Ep'. simpl in *.
    destruct (decide (i' = i)) as [->|Hne].
    + rewrite Z.shiftl_1_l, Z.lor_spec, Z.pow2_bits_eqb, orb_true_iff, Z.eqb_eq by lia.
      unfold cpu_mem. rewrite Ep'. simpl. rewrite Hs. split.
      * intros [?| ->]; [right; by eauto|left; by apply Hsame].
      * intros [->|(_ & ? & [= <-] & ?)]; [right; congruence|by left].
    + split; [by right|]. intros [->|?]; [congruence|done].
  - destruct (store_ok s i w (Z.land w (usize_not (Z.shiftl 1 b))) Hwf Hs) as [Hwf' Hm].
    { apply land_usize; [done|]. unfold usize_not, usize_max. apply Z.lxor_nonneg.
      rewrite Z.shiftl_1_l. unfold usize_ok in Hone. lia. }
    eexists. split; [done|]. split; [done|]. intros id' Hid'. rewrite Hm by done.
    destruct (parts_range id' Hid') as (_ & Hb' & _). destruct (parts id') as [i' b'] eqn:Ep'. simpl in *.
    destruct (decide (i' = i)) as [->|Hne].
    + rewrite Z.land_spec, testbit_usize_not, Z.shiftl_1_l, Z.pow2_bits_eqb, andb_true_iff, negb_true_iff, Z.eqb_neq by lia.
      unfold cpu_mem. rewrite Ep'. simpl. rewrite Hs. split.
      * intros [? Hne]. split; [|by eauto]. intros ->. congruence.
      * intros [Hne (_ & ? & [= <-] & ?)]. split; [done|]. intros ->. apply Hne. by apply Hsame.
    + split; [|by intros [_ ?]]. intros Hmem. split; [congruence|done].
  - intros id'. by apply cpu_iter_elem.
Qed.

Lemma cpu_set_correct_witness : exists s', atomic_set 70 cpu_empty = Done (tt, s') /\ cpu_mem s' 70.
Proof.
  destruct (cpu_set_correct cpu_empty 70) as (_ & (s' & ? & _ & Hm) & _).
  - split; [reflexivity|]. apply Forall_replicate. unfold usize_ok. lia.
  - unfold MAX_CPU_COUNT. lia.
  - exists s'. split; [done|]. apply Hm; [unfold MAX_CPU_COUNT; lia|by left].
Defined.
