(* ===== verification/AddrSpace.v ===== *)
(** * Address spaces: page tables, TLB flushing and grant operations

    Models the rest of src/context/memory.rs: [AddrSpace], the flushers, the
    constructors and destructors of [Grant], and the operations behind mmap,
    munmap, mprotect, mremap and fork.

    An address space is shared ([Arc<AddrSpaceWrapper>]), so the state is a
    store of address spaces; a reference to one is its key.  A [Flusher]
    mutably borrows the [used_by] field of one address space, so at most one
    is alive per address space: its queue is kept in that address space, and
    dropping it is an explicit [Flusher_flush].  Locks are not modelled:
    every operation runs as the code between acquiring and releasing them. *)

From S2P Require Import Prelude PageInfo FrameAllocator Rmm OrdMap Grants CpuSet.

Section addr_space.
Context {PFA : PageFlagsApi} {MFA : MapFlagsApi} {PMA : PageMapperApi}.
(** Whether the build checks [debug_assert!]. *)
Context (dbg : bool).

(** ** Flags *)

Definition page_flags (flags : MapFlags) : PageFlags :=
  pf_write (mf_contains flags PROT_WRITE)
    (pf_execute (mf_contains flags PROT_EXEC) (pf_user true pf_new)).

Definition map_flags (page_flags : PageFlags) : MapFlags :=
  mf_of ([PROT_READ]
         ++ (if has_write page_flags then [PROT_WRITE] else [])
         ++ (if has_execute page_flags then [PROT_EXEC] else [])).

(** ** TLB shootdown actions *)

Definition TLB_FREE : Z := 1.
Definition TLB_REVOKE_WRITE : Z := Z.shiftl 1 2.
Definition TLB_REVOKE_EXEC : Z := Z.shiftl 1 3.
Definition TLB_MOVE : Z := Z.shiftl 1 4.
Definition TLB_NEW_MAPPING : Z := Z.shiftl 1 31.
Definition tlb_contains (actions x : Z) : bool := Z.land actions x =? x.

Definition change_of_flags (old new : PageFlags) : Z :=
  Z.lor (if has_write old && negb (has_write new) then TLB_REVOKE_WRITE else 0)
        (if has_execute old && negb (has_execute new) then TLB_REVOKE_EXEC else 0).

(** ** State *)

Inductive PageQueueEntry :=
| QFree (base : Frame) (phys_contiguous_count : option Z)
| QOther (actions : Z).

(** [struct AddrSpace], with the state of the [Flusher] that borrows it. *)
Record AddrSpace := mkAddrSpace {
  utable : PageTable;
  grants : UserGrants;
  used_by : list Z;
  mmap_min : Z;
  pagequeue : list PageQueueEntry;
  dirty : bool;
}.

(** What a flush does to the TLBs, in order. *)
Inductive TlbEvent :=
| ShootdownIpi (cpu : Z)
| FlushLocal.

Record Kernel := mkKernel {
  mem : Memory;
  spaces : gmap Z AddrSpace;
  cur_cpu : Z;
  tlb_log : list TlbEvent;
}.

Definition set_mem (m : Memory) (k : Kernel) : Kernel := mkKernel m (spaces k) (cur_cpu k) (tlb_log k).
Definition set_spaces (s : gmap Z AddrSpace) (k : Kernel) : Kernel :=
  mkKernel (mem k) s (cur_cpu k) (tlb_log k).
Definition set_utable (t : PageTable) (a : AddrSpace) : AddrSpace :=
  mkAddrSpace t (grants a) (used_by a) (mmap_min a) (pagequeue a) (dirty a).
Definition set_grants (g : UserGrants) (a : AddrSpace) : AddrSpace :=
  mkAddrSpace (utable a) g (used_by a) (mmap_min a) (pagequeue a) (dirty a).
Definition set_queue (q : list PageQueueEntry) (d : bool) (a : AddrSpace) : AddrSpace :=
  mkAddrSpace (utable a) (grants a) (used_by a) (mmap_min a) q d.

(** Run an operation of the frame allocator. *)
Definition with_mem {A} (m : M Memory A) : M Kernel A :=
  fun k => match m (mem k) with
           | Done (a, m') => Done (a, set_mem m' k)
           | Panic => Panic
           end.

Definition get_space (sid : Z) : M Kernel AddrSpace :=
  let! k := get_state in unwrap (spaces k !! sid).
Definition put_space (sid : Z) (a : AddrSpace) : M Kernel unit :=
  modify (fun k => set_spaces (<[sid := a]> (spaces k)) k).
Definition update_space (sid : Z) (f : AddrSpace -> AddrSpace) : M Kernel unit :=
  let! a := get_space sid in put_space sid (f a).
(** Run an operation on the grants of a space. *)
Definition with_grants {A} (sid : Z) (m : M UserGrants A) : M Kernel A :=
  let! a := get_space sid in
  fun k => match m (grants a) with
           | Done (x, g') => (put_space sid (set_grants g' a) ;;; ret x) k
           | Panic => Panic
           end.

(** *** Page tables *)

Definition translate (sid : Z) (va : Z) : M Kernel (option (Z * PageFlags)) :=
  let! a := get_space sid in ret (pt_translate (utable a) va).
Definition map_phys (sid : Z) (va pa : Z) (fl : PageFlags) : M Kernel (option unit) :=
  let! a := get_space sid in
  match pt_map_phys (utable a) va pa fl with
  | Some t => put_space sid (set_utable t a) ;;; ret (Some tt)
  | None => ret None
  end.
Definition unmap_phys (sid : Z) (va : Z) : M Kernel (option (Z * PageFlags)) :=
  let! a := get_space sid in
  match pt_unmap_phys (utable a) va with
  | Some (pa, fl, t) => put_space sid (set_utable t a) ;;; ret (Some (pa, fl))
  | None => ret None
  end.
Definition remap_with_full (sid : Z) (va : Z) (f : Z -> PageFlags -> Z * PageFlags)
  : M Kernel (option (PageFlags * Z)) :=
  let! a := get_space sid in
  match pt_remap_with_full (utable a) va f with
  | Some (fl, pa, t) => put_space sid (set_utable t a) ;;; ret (Some (fl, pa))
  | None => ret None
  end.
Definition remap_with (sid : Z) (va : Z) (f : PageFlags -> PageFlags)
  : M Kernel (option (PageFlags * Z)) :=
  remap_with_full sid va (fun pa fl => (pa, f fl)).

(** *** Flushers *)

Definition handle_free_action (base : Frame) (phys_contiguous_count : option Z) : M Memory unit :=
  match phys_contiguous_count with
  | Some count =>
      forM (range count) (fun i =>
        let! frame := next_by base i in
        let! info := get_page_info frame in
        let! info := unwrap info in
        let! new_rc := with_info info remove_ref in
        match new_rc with
        | None => deallocate_frame dbg frame
        | Some _ => ret tt
        end)
  | None =>
      let! info := get_page_info base in
      match info with
      | None => ret tt
      | Some info =>
          let! rc := with_info info remove_ref in
          match rc with
          | None => deallocate_frame dbg base
          | Some _ => ret tt
          end
      end
  end.

Definition PAGEQUEUE_CAPACITY : nat := 32.

(** The waiting loop for the other CPUs' acknowledgements returns once each
    of them has handled its shootdown; here it has when the log says so. *)
Definition Flusher_flush (sid : Z) : M Kernel unit :=
  let! a := get_space sid in
  let pages := pagequeue a in
  match pages, dirty a with
  | [], false => ret tt
  | _, _ =>
      put_space sid (set_queue [] (match pages with [] => false | _ => dirty a end) a) ;;;
      let! cpu := gets cur_cpu in
      let active := cpu_iter (used_by a) in
      modify (fun k => mkKernel (mem k) (spaces k) (cur_cpu k)
        (tlb_log k
         ++ map ShootdownIpi (filter (fun c => c <> cpu) active)
         ++ (if bool_decide (cpu ∈ active) then [FlushLocal] else []))) ;;;
      forM pages (fun entry =>
        match entry with
        | QFree base cnt => with_mem (handle_free_action base cnt)
        | QOther _ => ret tt
        end)
  end.

Definition Flusher_queue (sid : Z) (frame : Frame) (cnt : option Z) (actions : Z) : M Kernel unit :=
  let actions := Z.ldiff actions TLB_NEW_MAPPING in
  let entry := if tlb_contains actions TLB_FREE then QFree frame cnt else QOther actions in
  update_space sid (fun a => set_queue (pagequeue a) true a) ;;;
  let! a := get_space sid in
  (if (length (pagequeue a) =? PAGEQUEUE_CAPACITY)%nat then Flusher_flush sid else ret tt) ;;;
  update_space sid (fun a => set_queue (pagequeue a ++ [entry]) (dirty a) a).

Definition NopFlusher_queue (frame : Frame) (cnt : option Z) (actions : Z) : M Kernel unit :=
  if tlb_contains actions TLB_FREE then with_mem (handle_free_action frame cnt) else ret tt.

(** [impl GenericFlusher] *)
Inductive GenericFlusher := FlusherOf (sid : Z) | NopFlusher.
Definition queue (fl : GenericFlusher) : Frame -> option Z -> Z -> M Kernel unit :=
  match fl with FlusherOf sid => Flusher_queue sid | NopFlusher => NopFlusher_queue end.

(** ** Construction of grants *)

Definition allocated_one_page_nomap (base : Page) (flags : PageFlags) : Grant :=
  mkGrant base (mkGrantInfo 1 flags true (Allocated None false)).

Definition allocated_shared_one_page (frame : Frame) (page : Page) (flags : PageFlags) (sid : Z)
  (is_pinned : bool) : M Kernel (result Error Grant) :=
  let! info := with_mem (get_page_info frame) in
  let! info := unwrap info in
  let! r := with_mem (with_info info (add_ref RefKind_Shared)) in
  match r with
  | Err _ => panic
  | Ok _ =>
      let! m := map_phys sid (Page_start_address page) frame flags in
      match m with
      | None => err ENOMEM
      | Some _ =>
          Flusher_queue sid frame None TLB_NEW_MAPPING ;;;
          ok (mkGrant page (mkGrantInfo 1 flags true (AllocatedShared is_pinned)))
      end
  end.

Definition PHYSMAP_MAX_EAGER_PAGES : nat := 4096.

Definition physmap (phys : Frame) (span : PageSpan) (flags : PageFlags) (sid : Z)
  (flusher : GenericFlusher) : M Kernel (result Error Grant) :=
  let! r := for_flow (range (span_count span)) (fun i =>
    let! frame := next_by phys i in
    let! info := with_mem (get_page_info frame) in
    match info with
    | Some _ => ret (Return EPERM)
    | None => ret Next
    end) in
  match r with
  | Some e => err e
  | None =>
      let! _ := for_flow (take PHYSMAP_MAX_EAGER_PAGES (combine (range (span_count span)) (PageSpan_pages span)))
        (fun '(i, page) =>
           let! frame := next_by phys i in
           let! m := map_phys sid (Page_start_address page) frame flags in
           match m with
           | None => ret (Break (R := unit))
           | Some _ => queue flusher frame None TLB_NEW_MAPPING ;;; ret Next
           end) in
      ok (mkGrant (span_base span) (mkGrantInfo (span_count span) flags true (PhysBorrowed phys)))
  end.

Definition zeroed_phys_contiguous (span : PageSpan) (flags : PageFlags) (sid : Z)
  : M Kernel (result Error Grant) :=
  let alloc_order := count_order (span_count span) in
  let! base := with_mem (allocate_p2frame dbg alloc_order) in
  match base with
  | None => err ENOMEM
  | Some base =>
      forM (combine (range (span_count span)) (PageSpan_pages span)) (fun '(i, page) =>
        let! frame := next_by base i in
        let! info := with_mem (get_page_info frame) in
        let! info := unwrap info in
        with_mem (with_info info (store_refcount (to_raw RefCount_One))) ;;;
        let! m := map_phys sid (Page_start_address page) frame flags in
        let! _ := unwrap m in
        Flusher_queue sid frame None TLB_NEW_MAPPING) ;;;
      ok (mkGrant (span_base span) (mkGrantInfo (span_count span) flags true (Allocated None true)))
  end.

Definition ZEROED_MAX_EAGER_PAGES : nat := 16.

Definition zeroed (span : PageSpan) (flags : PageFlags) (sid : Z) (shared : bool)
  : M Kernel (result Error Grant) :=
  let! zf := gets (fun k => the_zeroed_frame (mem k)) in
  let! the_frame := unwrap zf in
  let! the_frame_info := with_mem (get_page_info the_frame) in
  let! the_frame_info := unwrap the_frame_info in
  let! _ := for_flow (take ZEROED_MAX_EAGER_PAGES (PageSpan_pages span)) (fun page =>
    let! r := with_mem (with_info the_frame_info (add_ref RefKind_Cow)) in
    match r with
    | Err _ => panic
    | Ok _ =>
        let! m := map_phys sid (Page_start_address page) the_frame (pf_write false flags) in
        match m with
        | None => ret (Break (R := unit))
        | Some _ => Flusher_queue sid the_frame None TLB_NEW_MAPPING ;;; ret Next
        end
    end) in
  ok (mkGrant (span_base span) (mkGrantInfo (span_count span) flags true
        (if shared then AllocatedShared false else Allocated None false))).

Definition borrow_grant (src_space : Z) (src_base dst_base : Page) (src_info : GrantInfo) : Grant :=
  mkGrant dst_base (mkGrantInfo (page_count src_info) (flags src_info) true
    (External src_space src_base false)).

(** Rewrite the information of the grant at [b] in place ([conflicts_mut]). *)
Definition update_grant (sid : Z) (b : Page) (f : GrantInfo -> GrantInfo) : M Kernel unit :=
  update_space sid (fun a =>
    set_grants (mkUserGrants
      (map (fun e => if e.1 =? b then (e.1, f e.2) else e) (inner (grants a)))
      (holes (grants a))) a).

Definition set_pin_refcount (n : Z) (i : GrantInfo) : GrantInfo :=
  match provider i with
  | FmapBorrowed r _ => set_provider (FmapBorrowed r n) i
  | _ => i
  end.
Definition pin_refcount_of (i : GrantInfo) : option Z :=
  match provider i with FmapBorrowed _ n => Some n | _ => None end.

(** The loop of [Grant::borrow] over the source grants; returns the last span. *)
Fixpoint borrow_check (src_space : Z) (src_base : Page) (mf : MapFlags) (l : list (Page * GrantInfo))
  (prev_span : option PageSpan) : M Kernel (result Error (option PageSpan)) :=
  match l with
  | [] => ok prev_span
  | (src_grant_base, src_grant) :: l' =>
      let grant_span := PageSpan_new src_grant_base (page_count src_grant) in
      if match prev_span with None => src_base <? src_grant_base | Some _ => false end then err EINVAL
      else if match prev_span with
              | Some prev => negb (PageSpan_end prev =? src_grant_base)
              | None => false
              end then err EINVAL
      else if negb (can_have_flags src_grant mf) then err EPERM
      else
        (match pin_refcount_of src_grant with
         | Some n => update_grant src_space src_grant_base (set_pin_refcount (usize_add n 1))
         | None => ret tt
         end) ;;;
        borrow_check src_space src_base mf l' (Some grant_span)
  end.

Definition BORROW_MAX_EAGER_PAGES : nat := 4096.

Definition borrow (src_space : Z) (src_base dst_base : Page) (page_count : Z) (mf : MapFlags)
  (dst : Z) (eager : bool) (is_pinned_userscheme_borrow : bool) : M Kernel (result Error Grant) :=
  let flags := page_flags mf in
  let src_span := PageSpan_new src_base page_count in
  let! a := get_space src_space in
  let? prev_span := borrow_check src_space src_base mf (UserGrants_conflicts (grants a) src_span) None in
  match prev_span with
  | None => err EINVAL
  | Some last_span =>
      if PageSpan_end last_span <? PageSpan_end src_span then err EINVAL
      else
        let! r :=
          if eager then
            for_flow (take BORROW_MAX_EAGER_PAGES (combine (range page_count) (PageSpan_pages src_span)))
              (fun '(i, page) =>
                 let! t := translate src_space (Page_start_address page) in
                 match t with
                 | None => ret Next
                 | Some (phys, _) =>
                     let! frame := containing phys in
                     let! info := with_mem (get_page_info frame) in
                     let! writable :=
                       match info with
                       | None => ret (Some true)
                       | Some i =>
                           let! r := with_mem (with_info i (add_ref RefKind_Shared)) in
                           match r with
                           | Err _ => ret None
                           | Ok _ =>
                               let! p := with_mem (load_info i) in
                               let! w := allows_writable p in ret (Some w)
                           end
                       end in
                     match writable with
                     | None => ret Next
                     | Some writable =>
                         let! m := map_phys dst (Page_start_address (Page_next_by dst_base i)) phys
                                     (pf_write (has_write flags && writable) flags) in
                         match m with
                         | None => ret (Return ENOMEM)
                         | Some _ =>
                             let! frame := containing phys in
                             Flusher_queue dst frame None TLB_NEW_MAPPING ;;; ret Next
                         end
                     end
                 end)
          else ret None in
        match r with
        | Some e => err e
        | None => ok (mkGrant dst_base (mkGrantInfo page_count flags true
                        (External src_space src_base is_pinned_userscheme_borrow)))
        end
  end.

(** ** Copy on write *)

(** [copy_frame_to_frame_directly] *)
Definition copy_frame_to_frame_directly (dst src : Frame) : M Memory unit :=
  modify (fun st => set_contents (partial_alter (fun _ => contents st !! src) dst (contents st)) st).

Record CowResult := mkCowResult { new_frame : Frame; old_frame : option Frame }.

Definition cow (old : Frame) (old_info : InfoRef) (initial_ref_kind : RefKind)
  : M Memory (result PfError CowResult) :=
  let! p := load_info old_info in
  let old_refcount := refcount p in
  assert_ (bool_decide (is_Some old_refcount)) ;;;
  let initial_rc :=
    match initial_ref_kind with
    | RefKind_Cow => RefCount_One
    | RefKind_Shared => RefCount_Shared 2
    end in
  match old_refcount with
  | Some RefCount_One =>
      (if bool_decide (initial_ref_kind = RefKind_Shared)
       then with_info old_info (store_refcount (to_raw initial_rc)) else ret tt) ;;;
      ok (mkCowResult old None)
  | _ =>
      let? new := init_frame dbg initial_rc in
      let! zf := gets the_zeroed_frame in
      let! zf := unwrap zf in
      (if old =? zf then ret tt else copy_frame_to_frame_directly new old) ;;;
      ok (mkCowResult new (Some old))
  end.

Definition map_zeroed (sid : Z) (page : Page) (page_flags : PageFlags) (_writable : bool)
  : M Kernel (result PfError Frame) :=
  let? new_frame := with_mem (init_frame dbg RefCount_One) in
  let! m := map_phys sid (Page_start_address page) new_frame page_flags in
  match m with
  | None => err Oom
  | Some _ => ok new_frame
  end.

(** ** Copying, moving, reprotecting and unmapping grants *)

Inductive CopyMappingsMode :=
| Owned (cow_file_ref : option GrantFileRef)
| Borrowed.

(** Find the frame behind a source page, removing write access for CoW. *)
Definition copy_source (src : Z) (src_page : Page) (flags : PageFlags) (rk : RefKind)
  : M Kernel (option Frame) :=
  match rk with
  | RefKind_Cow =>
      let! r := remap_with src (Page_start_address src_page) (pf_write false) in
      match r with
      | None => ret None
      | Some (_, phys) =>
          let! frame := containing phys in
          Flusher_queue src frame None TLB_REVOKE_WRITE ;;;
          ret (Some frame)
      end
  | RefKind_Shared =>
      let! t := translate src (Page_start_address src_page) in
      match t with
      | Some (phys, _) => let! frame := containing phys in ret (Some frame)
      | None =>
          let! r := with_mem (init_frame dbg RefCount_One) in
          match r with
          | Err _ => panic
          | Ok new_frame =>
              let! m := map_phys src (Page_start_address src_page) new_frame flags in
              let! _ := unwrap m in
              Flusher_queue src new_frame None TLB_NEW_MAPPING ;;;
              ret (Some new_frame)
          end
      end
  end.

(** Take a reference of kind [rk] on a source frame, copying it if the frame is
    counted the other way. *)
Definition copy_ref (src : Z) (src_page : Page) (src_frame : Frame) (rk : RefKind)
  : M Kernel (result Enomem Frame) :=
  let! info := with_mem (get_page_info src_frame) in
  let! info := unwrap info in
  let! r := with_mem (with_info info (add_ref rk)) in
  match r with
  | Ok _ => ok src_frame
  | Err CowToShared =>
      let! c := with_mem (cow src_frame info rk) in
      match c with
      | Err _ => err enomem
      | Ok c =>
          (match old_frame c with
           | Some o => Flusher_queue src o None TLB_FREE
           | None => ret tt
           end) ;;;
          let! m := remap_with_full src (Page_start_address src_page) (fun _ f => (new_frame c, f)) in
          (match m with
           | Some (_, phys) =>
               let! f := containing phys in Flusher_queue src f None TLB_MOVE
           | None => ret tt
           end) ;;;
          ok (new_frame c)
      end
  | Err SharedToCow =>
      let! r2 := with_mem (with_info info (add_ref RefKind_Shared)) in
      match r2 with
      | Err RcOverflow => err enomem
      | _ =>
          let! c := with_mem (cow src_frame info rk) in
          match c with
          | Err _ => err enomem
          | Ok c =>
              (match old_frame c with
               | Some o => Flusher_queue src o None TLB_FREE
               | None => ret tt
               end) ;;;
              ok (new_frame c)
          end
      end
  | Err RcOverflow => err enomem
  end.

Definition copy_mappings (src_base dst_base : Page) (page_count : Z) (flags : PageFlags)
  (src dst : Z) (dst_flusher : GenericFlusher) (mode : CopyMappingsMode)
  : M Kernel (result Enomem Grant) :=
  let '(allows_writable, rk) :=
    match mode with Owned _ => (false, RefKind_Cow) | Borrowed => (true, RefKind_Shared) end in
  let! r := for_flow (range page_count) (fun page_idx =>
    let src_page := Page_next_by src_base page_idx in
    let dst_page := Page_start_address (Page_next_by dst_base page_idx) in
    let! sf := copy_source src src_page flags rk in
    match sf with
    | None => ret Next
    | Some src_frame =>
        let! sf := copy_ref src src_page src_frame rk in
        match sf with
        | Err e => ret (Return e)
        | Ok src_frame =>
            let! m := map_phys dst dst_page src_frame (pf_write (has_write flags && allows_writable) flags) in
            match m with
            | None => ret Break
            | Some _ => queue dst_flusher src_frame None TLB_NEW_MAPPING ;;; ret Next
            end
        end
    end) in
  match r with
  | Some e => err e
  | None =>
      ok (mkGrant dst_base (mkGrantInfo page_count flags true
            (match mode with
             | Owned cow_file_ref => Allocated cow_file_ref false
             | Borrowed => AllocatedShared false
             end)))
  end.

(** [Grant::transfer]; the destination table defaults to the source's. *)
Definition transfer (g : Grant) (dst_base : Page) (flags : PageFlags) (src : Z) (dst : option Z)
  (dst_flusher : GenericFlusher) : M Kernel Grant :=
  assert_ (negb (is_pinned (info g))) ;;;
  forM (PageSpan_pages (Grant_span g)) (fun src_page =>
    let dst_page := Page_next_by dst_base (Page_offset_from src_page (base g)) in
    let! r := unmap_phys src (Page_start_address src_page) in
    match r with
    | None => ret tt
    | Some (phys, _) =>
        let! f := containing phys in
        Flusher_queue src f None TLB_MOVE ;;;
        let! m := map_phys (default src dst) (Page_start_address dst_page) phys flags in
        let! _ := unwrap m in
        let! f := containing phys in
        queue dst_flusher f None TLB_NEW_MAPPING
    end) ;;;
  ret (mkGrant dst_base (info g)).

Definition remap (g : Grant) (sid : Z) (fl : PageFlags) : M Kernel Grant :=
  assert_ (mapped (info g)) ;;;
  forM (PageSpan_pages (Grant_span g)) (fun page =>
    let! r := remap_with sid (Page_start_address page) (fun _ => fl) in
    match r with
    | None => ret tt
    | Some (old_flags, phys) =>
        let! f := containing phys in
        Flusher_queue sid f None (change_of_flags old_flags fl)
    end) ;;;
  ret (mkGrant (base g) (set_flags fl (info g))).

Record UnmapResult := mkUnmapResult {
  file_desc : option GrantFileRef;
  unmap_size : Z;
  needs_sync : bool;
}.

(** Give back the pins an [External] grant holds on file mappings. *)
Definition unpin_external (p : Provider) (page_count : Z) : M Kernel unit :=
  match p with
  | External address_space src_base _ =>
      let! a := get_space address_space in
      forM (UserGrants_conflicts (grants a) (PageSpan_new src_base page_count)) (fun e =>
        match pin_refcount_of e.2 with
        | Some n =>
            let! n' := unwrap (checked_sub n 1) in
            update_grant address_space e.1 (set_pin_refcount n')
        | None => ret tt
        end)
  | _ => ret tt
  end.

Definition unmap (g : Grant) (sid : Z) (flusher : GenericFlusher) : M Kernel UnmapResult :=
  assert_ (mapped (info g)) ;;;
  assert_ (negb (is_pinned (info g))) ;;;
  unpin_external (provider (info g)) (page_count (info g)) ;;;
  let is_phys_contiguous := match provider (info g) with Allocated _ true => true | _ => false end in
  let is_fmap_shared :=
    match provider (info g) with
    | Allocated _ _ => Some false
    | AllocatedShared _ | External _ _ _ | PhysBorrowed _ => None
    | FmapBorrowed _ _ => Some true
    end in
  (if is_phys_contiguous then
     let! t := translate sid (Page_start_address (base g)) in
     let! '(phys_base, _) := unwrap t in
     let! base_frame := containing phys_base in
     forM (range (page_count (info g))) (fun i =>
       let! r := unmap_phys sid (Page_start_address (Page_next_by (base g) i)) in
       let! '(phys, _) := unwrap r in
       let! f := next_by base_frame i in
       assert_ (phys =? f)) ;;;
     let! cnt := unwrap (nonzero (page_count (info g))) in
     queue flusher base_frame (Some cnt) TLB_FREE
   else
     forM (PageSpan_pages (Grant_span g)) (fun page =>
       let! r := unmap_phys sid (Page_start_address page) in
       match r with
       | None => ret tt
       | Some (phys, _) =>
           let! f := containing phys in
           queue flusher f None TLB_FREE
       end)) ;;;
  ret (mkUnmapResult
         (match provider (info g) with
          | Allocated cow_file_ref _ => cow_file_ref
          | FmapBorrowed file_ref _ => Some file_ref
          | _ => None
          end)
         (usize_mul (page_count (info g)) PAGE_SIZE)
         (default false is_fmap_shared && has_write (flags (info g)))).

(** ** Operations on address spaces *)

Definition MMAP_MIN_DEFAULT : Z := PAGE_SIZE.

Definition AddrSpace_new : AddrSpace :=
  mkAddrSpace pt_empty UserGrants_new cpu_empty MMAP_MIN_DEFAULT [] false.

(** The loop of [munmap_inner].  Each round consumes one conflicting grant, so
    one more than the number of grants is enough fuel. *)
Fixpoint munmap_loop (fuel : nat) (sid : Z) (requested_span : PageSpan) (unpin_ : bool)
  (notify_files : list UnmapResult) : M Kernel (result Error (list UnmapResult)) :=
  match fuel with
  | O => panic
  | S fuel' =>
      let! a := get_space sid in
      match UserGrants_conflicts (grants a) requested_span with
      | [] => ok notify_files
      | (cbase, cinfo) :: _ =>
          if is_pinned cinfo && negb unpin_ then err EBUSY
          else if negb (can_extract cinfo unpin_) then err EINVAL
          else
            let conflicting_span := PageSpan_new cbase (page_count cinfo) in
            let! grant := with_grants sid (UserGrants_remove (span_base conflicting_span)) in
            let! grant := unwrap grant in
            let grant := if unpin_ then mkGrant (base grant) (unpin (info grant)) else grant in
            let intersection := PageSpan_intersection conflicting_span requested_span in
            let requested_span' :=
              if PageSpan_end conflicting_span <? PageSpan_end requested_span
              then PageSpan_new (PageSpan_end conflicting_span)
                     (Page_offset_from (PageSpan_end requested_span) (PageSpan_end conflicting_span))
              else PageSpan_empty in
            let! parts := Grant_extract grant intersection in
            let! '(before, grant, after) := unwrap parts in
            (match before with Some b => with_grants sid (UserGrants_insert b) | None => ret tt end) ;;;
            (match after with Some b => with_grants sid (UserGrants_insert b) | None => ret tt end) ;;;
            let! unmap_result := unmap grant sid (FlusherOf sid) in
            munmap_loop fuel' sid requested_span' unpin_
              (match file_desc unmap_result with
               | Some _ => notify_files ++ [unmap_result]
               | None => notify_files
               end)
      end
  end.

Definition munmap_inner (sid : Z) (requested_span : PageSpan) (unpin_ : bool)
  : M Kernel (result Error (list UnmapResult)) :=
  let! a := get_space sid in
  munmap_loop (S (length (inner (grants a)))) sid requested_span unpin_ [].

Definition munmap (sid : Z) (requested_span : PageSpan) (unpin_ : bool)
  : M Kernel (result Error (list UnmapResult)) :=
  let! r := munmap_inner sid requested_span unpin_ in
  Flusher_flush sid ;;;
  ret r.

(** [AddrSpace::mmap]: the files to notify, and the page chosen.  [map] builds
    the grant at the chosen page. *)
Definition mmap (sid : Z) (requested_base_opt : option Page) (page_count : Z) (flags : MapFlags)
  (map : Page -> PageFlags -> M Kernel (result Error Grant))
  : M Kernel (list UnmapResult * result Error Page) :=
  let! a := get_space sid in
  let! '(notify_files, selected_span) :=
    match requested_base_opt with
    | Some requested_base =>
        let requested_span := PageSpan_new requested_base page_count in
        if mf_contains flags MAP_FIXED_NOREPLACE then
          match UserGrants_conflicts (grants a) requested_span with
          | [] => ret ([], Ok requested_span)
          | _ => ret ([], Err EEXIST)
          end
        else if mf_contains flags MAP_FIXED then
          let! r := munmap_inner sid requested_span false in
          Flusher_flush sid ;;;
          match r with
          | Err e => ret ([], Err e)
          | Ok notify_files => ret (notify_files, Ok requested_span)
          end
        else
          ret ([], match UserGrants_find_free_near (grants a) (mmap_min a) page_count (Some requested_base) with
                   | Some s => Ok s
                   | None => Err ENOMEM
                   end)
    | None =>
        ret ([], match UserGrants_find_free (grants a) (mmap_min a) page_count with
                 | Some s => Ok s
                 | None => Err ENOMEM
                 end)
    end in
  match selected_span with
  | Err e => ret (notify_files, Err e)
  | Ok selected_span =>
      let! grant := map (span_base selected_span) (page_flags flags) in
      Flusher_flush sid ;;;
      match grant with
      | Err e => ret (notify_files, Err e)
      | Ok grant =>
          with_grants sid (UserGrants_insert grant) ;;;
          ret (notify_files, Ok (span_base selected_span))
      end
  end.

Definition mmap_anywhere (sid : Z) (page_count : Z) (flags : MapFlags)
  (map : Page -> PageFlags -> M Kernel (result Error Grant)) : M Kernel (result Error Page) :=
  let! r := mmap sid None page_count flags map in ret r.2.

(** The loop of [mprotect] over the regions collected at its start. *)
Fixpoint mprotect_loop (sid : Z) (requested_span : PageSpan) (fl : MapFlags)
  (regions : list (result Error PageSpan)) : M Kernel (result Error unit) :=
  match regions with
  | [] => ok tt
  | Err e :: _ => err e
  | Ok grant_span :: regions' =>
      let! grant := with_grants sid (UserGrants_remove (span_base grant_span)) in
      let! grant := unwrap grant in
      let intersection := PageSpan_intersection grant_span requested_span in
      let! parts := Grant_extract grant intersection in
      let! '(before, grant, after) := unwrap parts in
      (match before with Some b => with_grants sid (UserGrants_insert b) | None => ret tt end) ;;;
      (match after with Some b => with_grants sid (UserGrants_insert b) | None => ret tt end) ;;;
      if negb (can_have_flags (info grant) fl)
      then with_grants sid (UserGrants_insert grant) ;;; err EACCES
      else
        let new_flags := pf_write (mf_contains fl PROT_WRITE)
                           (pf_execute (mf_contains fl PROT_EXEC) (flags (info grant))) in
        let! grant := remap grant sid new_flags in
        with_grants sid (UserGrants_insert grant) ;;;
        mprotect_loop sid requested_span fl regions'
  end.

Definition mprotect (sid : Z) (requested_span : PageSpan) (fl : MapFlags) : M Kernel (result Error unit) :=
  let! a := get_space sid in
  let regions :=
    map (fun '(b, i) => if is_pinned i then Err EBUSY else Ok (PageSpan_new b (page_count i)))
        (UserGrants_conflicts (grants a) requested_span) in
  let! r := mprotect_loop sid requested_span fl regions in
  Flusher_flush sid ;;;
  ret r.

(** *** mremap *)

(** The loop of [move] over the source grants; the value is [prev_grant_end]. *)
Fixpoint move_loop (dst src : Z) (same : bool) (src_span : PageSpan) (dst_base : Page) (new_flags : MapFlags)
  (to_remap : list Page) (prev_grant_end : Page) (remaining_src_span : PageSpan)
  : M Kernel (result Error Page) :=
  match to_remap with
  | [] => ok prev_grant_end
  | grant_base :: to_remap' =>
      let? _ :=
        if prev_grant_end <? grant_base then
          let hole_span := PageSpan_new
            (Page_next_by dst_base (Page_offset_from prev_grant_end (span_base src_span)))
            (Page_offset_from grant_base prev_grant_end) in
          let? g := zeroed hole_span (page_flags new_flags) dst false in
          with_grants dst (UserGrants_insert g) ;;; ok tt
        else ok tt in
      let! grant := with_grants src (UserGrants_remove grant_base) in
      let! grant := unwrap grant in
      let grant_span := PageSpan_new (base grant) (page_count (info grant)) in
      let! parts := Grant_extract grant (PageSpan_intersection remaining_src_span grant_span) in
      let! '(before, middle, after) := unwrap parts in
      (match before with Some b => with_grants src (UserGrants_insert b) | None => ret tt end) ;;;
      (match after with Some b => with_grants src (UserGrants_insert b) | None => ret tt end) ;;;
      let dst_grant_base := Page_next_by dst_base (Page_offset_from (base middle) (span_base src_span)) in
      let middle_span := Grant_span middle in
      let! g :=
        if same then transfer middle dst_grant_base (page_flags new_flags) src None NopFlusher
        else transfer middle dst_grant_base (page_flags new_flags) src (Some dst) (FlusherOf dst) in
      with_grants dst (UserGrants_insert g) ;;;
      let prev_grant_end := Page_next_by (span_base middle_span) (span_count middle_span) in
      let pages_advanced := Page_offset_from prev_grant_end (span_base remaining_src_span) in
      move_loop dst src same src_span dst_base new_flags to_remap' prev_grant_end
        (PageSpan_new prev_grant_end (usize_sub (span_count remaining_src_span) pages_advanced))
  end.

(** Choosing the destination of [move]. *)
Definition move_dst (dst : Z) (requested_dst_base : option Page) (src_span : PageSpan)
  (new_page_count : Z) (new_flags : MapFlags) : M Kernel (list UnmapResult * result Error Page) :=
  let! a := get_space dst in
  let anywhere :=
    match UserGrants_find_free (grants a) (mmap_min a) (Z.max new_page_count (span_count src_span)) with
    | Some s => Ok (span_base s)
    | None => Err ENOMEM
    end in
  match requested_dst_base with
  | Some b =>
      if mf_contains new_flags MAP_FIXED_NOREPLACE then
        match UserGrants_conflicts (grants a) (PageSpan_new b new_page_count) with
        | [] => ret ([], Ok b)
        | _ => ret ([], Err EEXIST)
        end
      else if mf_contains new_flags MAP_FIXED then
        let! r := munmap_inner dst (PageSpan_new b new_page_count) false in
        match r with
        | Ok files => ret (files, Ok b)
        | Err e => ret ([], Err e)
        end
      else ret ([], anywhere)
  | None => ret ([], anywhere)
  end.

Definition move_body (dst : Z) (src_opt : option Z) (src_span : PageSpan) (requested_dst_base : option Page)
  (new_page_count : Z) (new_flags : MapFlags) : M Kernel (list UnmapResult * result Error Page) :=
  let src := default dst src_opt in
  let same := bool_decide (src_opt = None) in
  let! '(files, db) := move_dst dst requested_dst_base src_span new_page_count new_flags in
  match db with
  | Err e => ret (files, Err e)
  | Ok dst_base =>
      let! s := get_space src in
      let cs := UserGrants_conflicts (grants s) src_span in
      if existsb (fun e => negb (can_extract e.2 false)) cs then ret (files, Err EBUSY)
      else if existsb (fun e => negb (can_have_flags e.2 new_flags)) cs then ret (files, Err EPERM)
      else if PageSpan_intersects (PageSpan_new dst_base new_page_count) src_span then ret (files, Err EBUSY)
      else
        let! r :=
          if new_page_count <? span_count src_span
          then munmap_inner src (PageSpan_new (Page_next_by (span_base src_span) new_page_count)
                                   (usize_sub (span_count src_span) new_page_count)) false
          else ok [] in
        match r with
        | Err e => ret (files, Err e)
        | Ok files' =>
            let files := files ++ files' in
            let remaining := PageSpan_new (span_base src_span) (Z.min (span_count src_span) new_page_count) in
            let! s := get_space src in
            let to_remap := map fst (UserGrants_conflicts (grants s) remaining) in
            let! r := move_loop dst src same src_span dst_base new_flags to_remap (span_base src_span) remaining in
            match r with
            | Err e => ret (files, Err e)
            | Ok prev_grant_end =>
                if prev_grant_end <? Page_next_by (span_base src_span) new_page_count then
                  let off := Page_offset_from prev_grant_end (span_base src_span) in
                  let last_hole_span := PageSpan_new (Page_next_by dst_base off) (usize_sub new_page_count off) in
                  let! g := zeroed last_hole_span (page_flags new_flags) dst false in
                  match g with
                  | Err e => ret (files, Err e)
                  | Ok g => with_grants dst (UserGrants_insert g) ;;; ret (files, Ok dst_base)
                  end
                else ret (files, Ok dst_base)
            end
        end
  end.

(** [AddrSpaceWrapper::move], [src_opt = None] meaning the same space. *)
Definition move (dst : Z) (src_opt : option Z) (src_span : PageSpan) (requested_dst_base : option Page)
  (new_page_count : Z) (new_flags : MapFlags) : M Kernel (list UnmapResult * result Error Page) :=
  let! r := move_body dst src_opt src_span requested_dst_base new_page_count new_flags in
  Flusher_flush dst ;;;
  (match src_opt with Some s => Flusher_flush s | None => ret tt end) ;;;
  ret r.

(** *** Destruction and cloning *)

(** [Drop for AddrSpace] *)
Definition AddrSpace_drop (sid : Z) : M Kernel (list UnmapResult) :=
  let! a := get_space sid in
  put_space sid (set_grants UserGrants_new a) ;;;
  (fix go (gs : list Grant) : M Kernel (list UnmapResult) :=
     match gs with
     | [] => ret []
     | g :: gs' =>
         let! r := unmap (mkGrant (base g) (unpin (info g))) sid NopFlusher in
         let! rs := go gs' in
         ret (r :: rs)
     end) (UserGrants_into_iter (grants a)).

(** The grant of the clone for one grant of the original, [None] for those
    that are not kept. *)
Definition clone_grant (this new : Z) (grant_base : Page) (i : GrantInfo)
  : M Kernel (option (result Error Grant)) :=
  let lift {A} (r : result Enomem A) : result Error A := map_err (fun _ => ENOMEM) r in
  match provider i with
  | External _ _ true | AllocatedShared true | Allocated _ true | FmapBorrowed _ _ => ret None
  | PhysBorrowed b =>
      let! r := physmap b (PageSpan_new grant_base (page_count i)) (flags i) new NopFlusher in ret (Some r)
  | Allocated cow_file_ref false =>
      let! r := copy_mappings grant_base grant_base (page_count i) (flags i) this new NopFlusher
                  (Owned cow_file_ref) in ret (Some (lift r))
  | AllocatedShared false =>
      let! r := copy_mappings grant_base grant_base (page_count i) (flags i) this new NopFlusher
                  Borrowed in ret (Some (lift r))
  | External address_space src_base false =>
      ret (Some (Ok (borrow_grant address_space src_base grant_base i)))
  end.

Fixpoint clone_loop (this new : Z) (gs : list (Page * GrantInfo)) : M Kernel (result Error unit) :=
  match gs with
  | [] => ok tt
  | (b, i) :: gs' =>
      let! r := clone_grant this new b i in
      match r with
      | None => clone_loop this new gs'
      | Some (Err e) => err e
      | Some (Ok g) => with_grants new (UserGrants_insert g) ;;; clone_loop this new gs'
      end
  end.

(** [AddrSpaceWrapper::try_clone]: the key of the new space.  A clone that
    fails half way is dropped. *)
Definition try_clone (this new : Z) : M Kernel (result Error Z) :=
  put_space new AddrSpace_new ;;;
  let! a := get_space this in
  let! r := clone_loop this new (inner (grants a)) in
  Flusher_flush this ;;;
  match r with
  | Ok _ => ok new
  | Err e =>
      let! _ := AddrSpace_drop new in
      modify (fun k => set_spaces (delete new (spaces k)) k) ;;;
      err e
  end.

End addr_space.
