(* ===== verification/PageFault.v ===== *)
(** * Page faults (src/context/memory.rs, src/memory/mod.rs)

    [correct_inner], which makes a faulting page accessible according to the
    grant that covers it, and the handlers above it. *)

From S2P Require Import Prelude PageInfo FrameAllocator Rmm OrdMap Grants CpuSet AddrSpace.

Inductive AccessMode := AccessRead | AccessWrite | AccessInstrFetch.

#[export] Instance AccessMode_eq_dec : EqDecision AccessMode.
Proof. solve_decision. Defined.

Section page_fault.
Context {PFA : PageFlagsApi} {MFA : MapFlagsApi} {PMA : PageMapperApi}.
Context (dbg : bool).

(** Asking the scheme that owns a file for one page: the frame it sends back
    ([request_fmap], then blocking until [fmap_ret] is set). *)
Context (fmap_page : GrantFileRef -> Z -> MapFlags -> M Kernel (result PfError Frame)).

(** The faulting page of an [Allocated] or [AllocatedShared] grant: the frame
    to map and whether it may be mapped writable. *)
Definition correct_allocated (sid : Z) (faulting_page : Page) (grant_flags : PageFlags) (access : AccessMode)
  (faulting : option (Frame * option InfoRef)) : M Kernel (result PfError (Frame * bool)) :=
  match faulting with
  | Some (_, None) => panic
  | Some (frame, Some inf) =>
      let! p := with_mem (load_info inf) in
      let! writable := allows_writable p in
      if bool_decide (access = AccessWrite) then
        if writable then ok (frame, true)
        else
          let? result := with_mem (cow dbg frame inf RefKind_Cow) in
          (match old_frame result with
           | Some o => Flusher_queue dbg sid o None TLB_FREE
           | None => ret tt
           end) ;;;
          ok (new_frame result, true)
      else ok (frame, writable)
  | None =>
      let? frame := map_zeroed dbg sid faulting_page grant_flags (bool_decide (access = AccessWrite)) in
      ok (frame, true)
  end.

(** A reference on a frame of the foreign space [ext], made shared if it is
    counted as copy-on-write. *)
Definition external_ref (sid ext : Z) (src_page : Page) (src_frame : Frame)
  : M Kernel (result PfError Frame) :=
  let! inf := with_mem (get_page_info src_frame) in
  let! inf := unwrap inf in
  let! r := with_mem (with_info inf (add_ref RefKind_Shared)) in
  match r with
  | Ok _ => ok src_frame
  | Err CowToShared =>
      let? c := with_mem (cow dbg src_frame inf RefKind_Shared) in
      (match old_frame c with
       | Some o => Flusher_queue dbg sid o None TLB_FREE ;;; Flusher_flush dbg sid
       | None => ret tt
       end) ;;;
      let! _ := remap_with_full ext (Page_start_address src_page) (fun _ f => (new_frame c, f)) in
      ok (new_frame c)
  | Err SharedToCow => panic
  | Err RcOverflow => err Oom
  end.

(** [correct_inner] at recursion level [15 - levels_left]: the code refuses to
    recurse to level 16. *)
Fixpoint correct_inner (levels_left : nat) (sid : Z) (faulting_page : Page) (access : AccessMode)
  : M Kernel (result PfError Frame) :=
  let! a := get_space sid in
  let! r :=
    match UserGrants_contains (grants a) faulting_page with
    | None => err Segv
    | Some (grant_base, grant_info) =>
        let pages_from_grant_start := Page_offset_from faulting_page grant_base in
        let grant_flags := flags grant_info in
        if match access with
           | AccessRead => false
           | AccessWrite => negb (has_write grant_flags)
           | AccessInstrFetch => negb (has_execute grant_flags)
           end then err Segv
        else
          let! t := translate sid (Page_start_address faulting_page) in
          let! faulting :=
            match t with
            | None => ret None
            | Some (phys, _) =>
                let! f := containing phys in
                let! i := with_mem (get_page_info f) in
                ret (Some (f, i))
            end in
          let? '(frame, allow_writable) :=
            match provider grant_info with
            | Allocated _ _ | AllocatedShared _ =>
                correct_allocated sid faulting_page grant_flags access faulting
            | PhysBorrowed b => let! f := next_by b pages_from_grant_start in ok (f, true)
            | External ext src_base _ =>
                if sid =? ext then err NonfatalInternalError
                else
                  let! e := get_space ext in
                  let src_page := Page_next_by src_base pages_from_grant_start in
                  match UserGrants_contains (grants e) src_page with
                  | Some _ =>
                      let? src_frame :=
                        match pt_translate (utable e) (Page_start_address src_page) with
                        | Some (phys, _) => let! f := containing phys in ok f
                        | None =>
                            match levels_left with
                            | O => err RecursionLimitExceeded
                            | S n => Flusher_flush dbg sid ;;; correct_inner n ext src_page AccessRead
                            end
                        end in
                      let? f := external_ref sid ext src_page src_frame in
                      ok (f, true)
                  | None =>
                      let? f := map_zeroed dbg ext src_page grant_flags (bool_decide (access = AccessWrite)) in
                      ok (f, true)
                  end
            | FmapBorrowed file_ref _ =>
                Flusher_flush dbg sid ;;;
                let? f := fmap_page file_ref pages_from_grant_start (map_flags grant_flags) in
                ok (f, true)
            end in
          let new_flags := pf_write (has_write grant_flags && allow_writable) grant_flags in
          let! m := map_phys sid (Page_start_address faulting_page) frame new_flags in
          match m with
          | None => err Oom
          | Some _ => ok frame
          end
    end in
  Flusher_flush dbg sid ;;;
  ret r.

Definition RECURSION_LEVELS : nat := 15.

(** The address space of the current context, if it has one. *)
Definition try_correcting_page_tables (current : option Z) (faulting_page : Page) (access : AccessMode)
  : M Kernel (result PfError unit) :=
  match current with
  | None => err Segv
  | Some sid => let? _ := correct_inner RECURSION_LEVELS sid faulting_page access in ok tt
  end.

(** Borrow a page of user memory that must be allocated and writable. *)
Definition borrow_frame_enforce_rw_allocated (sid : Z) (page : Page) : M Kernel (result Error Frame) :=
  let! a := get_space sid in
  match UserGrants_contains (grants a) page with
  | None => err EINVAL
  | Some (_, i) =>
      if negb (can_have_flags i (mf_of [PROT_READ; PROT_WRITE])) then err EPERM
      else if match provider i with Allocated _ _ => false | _ => true end then err EPERM
      else
        let? frame :=
          match pt_translate (utable a) (Page_start_address page) with
          | Some (f, fl) =>
              if has_write fl then let! f := containing f in ok f
              else let! r := correct_inner RECURSION_LEVELS sid page AccessWrite in
                   ret (map_err (fun _ => ENOMEM) r)
          | None => let! r := correct_inner RECURSION_LEVELS sid page AccessWrite in
                    ret (map_err (fun _ => ENOMEM) r)
          end in
        let! inf := with_mem (get_page_info frame) in
        let! inf := unwrap inf in
        let! r := with_mem (with_info inf (add_ref RefKind_Shared)) in
        match r with
        | Ok _ => ok frame
        | Err RcOverflow => err ENOMEM
        | Err SharedToCow | Err CowToShared => panic
        end
  end.

(** ** The handler *)

Definition PF_INVOLVED_WRITE : Z := Z.shiftl 1 1.
Definition PF_USER_NOT_SUPERVISOR : Z := Z.shiftl 1 2.
Definition PF_INSTR_NOT_DATA : Z := Z.shiftl 1 3.
Definition PF_INVL : Z := Z.shiftl 1 31.
Definition pf_contains (code x : Z) : bool := Z.land code x =? x.

(** Execution resumes, resumes in the usercopy routine with EFAULT, or the
    fault is reported to the context. *)
Inductive PfOutcome := PfHandled | PfRecoverEfault | PfSegv.

(** [is_user_address] is [VirtualAddress::kind() == TableKind::User] of rmm;
    [is_usercopy] tells whether the interrupted instruction is in the usercopy
    routines. *)
Definition page_fault_handler (is_user_address : Z -> bool) (current : option Z)
  (is_usercopy : bool) (code : Z) (faulting_address : VirtualAddress) : M Kernel PfOutcome :=
  let faulting_page := Page_containing_address faulting_address in
  let address_is_user := is_user_address faulting_address in
  let invalid_page_tables := pf_contains code PF_INVL in
  let caused_by_user := pf_contains code PF_USER_NOT_SUPERVISOR in
  let caused_by_kernel := negb caused_by_user in
  let caused_by_write := pf_contains code PF_INVOLVED_WRITE in
  let caused_by_instr_fetch := pf_contains code PF_INSTR_NOT_DATA in
  let! mode :=
    match caused_by_write, caused_by_instr_fetch with
    | true, false => ret AccessWrite
    | false, false => ret AccessRead
    | false, true => ret AccessInstrFetch
    | true, true => panic
    end in
  if invalid_page_tables then ret PfSegv
  else
    let! corrected :=
      if address_is_user && (caused_by_user || is_usercopy) then
        let! r := try_correcting_page_tables current faulting_page mode in
        match r with
        | Ok _ => ret true
        | Err Oom => panic
        | Err Segv | Err RecursionLimitExceeded => ret false
        | Err NonfatalInternalError => panic
        end
      else ret false in
    if corrected then ret PfHandled
    else if address_is_user && caused_by_kernel && negb (bool_decide (mode = AccessInstrFetch)) && is_usercopy
    then ret PfRecoverEfault
    else ret PfSegv.

End page_fault.
