(* ===== verification/AddrSpaceSpec.v ===== *)
(** * Correctness of the address-space operations

    The invariant ties the three parts of the memory manager together: the
    grant tree of a space, its page table, and the reference counts of the
    frame allocator.  Every mapping of the table, every frame waiting in the
    flusher's queue and every reference held elsewhere ([other]) is one
    reference in the allocator's ledger. *)

From S2P Require Import Prelude PageInfo FrameAllocator BuddyInvariant FrameAllocatorSpec FrameRefs.
From S2P Require Import Rmm OrdMap Grants GrantsSpec CpuSet AddrSpace.
From stdpp Require Import list_numbers.
#[local] Open Scope Z_scope.

#[export] Instance PageQueueEntry_eq_dec : EqDecision PageQueueEntry.
Proof. solve_decision. Defined.

Section spec.
Context {PFA : PageFlagsApi} {MFA : MapFlagsApi} {PMA : PageMapperApi} {PML : PageMapperLaws}.
Context {KB : KernelBlocks}.

(** ** Counting mappings *)

Definition frame_at (t : PageTable) (p : Z) : option Z := fst <$> pt_translate t (p * PAGE_SIZE).

Definition mapcount (t : PageTable) (f : Z) : Z :=
  Z.of_nat (length (filter (fun p => frame_at t p = Some f) (seqZ 0 USER_END_PAGE))).

Definition ind (P : Prop) `{!Decision P} : Z := if decide P then 1 else 0.

Lemma filter_length_iff {A} (P Q : A -> Prop) `{!forall x, Decision (P x), !forall x, Decision (Q x)} l :
  (forall x, x ∈ l -> P x <-> Q x) -> length (filter P l) = length (filter Q l).
Proof.
  induction l as [|x l IH]; intros Hi; [done|]. rewrite !filter_cons.
  specialize (IH (fun y Hy => Hi y (list_elem_of_further _ _ _ Hy))).
  pose proof (Hi x (list_elem_of_here _ _)). repeat case_decide; simpl; tauto || lia.
Qed.

Lemma seqZ_split n p : 0 <= p < n -> seqZ 0 n = seqZ 0 p ++ p :: seqZ (p + 1) (n - p - 1).
Proof.
  intros Hp. replace n with (p + (1 + (n - p - 1))) at 1 by lia. rewrite seqZ_app by lia. f_equal.
  rewrite Z.add_0_l, seqZ_app by lia. by rewrite (seqZ_cons p 1) by lia.
Qed.

(** Changing what one page maps moves its counts by one. *)
Lemma mapcount_change t t' p x f : 0 <= p < USER_END_PAGE ->
  (forall p', 0 <= p' < USER_END_PAGE -> frame_at t' p' = if decide (p' = p) then x else frame_at t p') ->
  mapcount t' f = mapcount t f - ind (frame_at t p = Some f) + ind (x = Some f).
Proof.
  intros Hp Ht. assert (E0 : frame_at t' p = x) by (by rewrite (Ht p Hp), decide_True).
  unfold mapcount. rewrite !(seqZ_split USER_END_PAGE p Hp), !filter_app, !length_app, !filter_cons.
  rewrite E0.
  rewrite (filter_length_iff (fun p' => frame_at t' p' = Some f) (fun p' => frame_at t p' = Some f) (seqZ 0 p)).
  2: { intros p' Hp'%elem_of_seqZ. by rewrite Ht, decide_False by lia. }
  assert (E : length (filter (fun p' => frame_at t' p' = Some f) (seqZ (p + 1) (USER_END_PAGE - p - 1))) =
              length (filter (fun p' => frame_at t p' = Some f) (seqZ (p + 1) (USER_END_PAGE - p - 1)))).
  { apply filter_length_iff. intros p' Hp'%elem_of_seqZ. by rewrite Ht, decide_False by lia. }
  unfold ind. repeat case_decide; simpl; lia.
Qed.

Lemma mapcount_nonneg t f : 0 <= mapcount t f.
Proof. unfold mapcount. lia. Qed.

Lemma mapcount_pos t p f : 0 <= p < USER_END_PAGE -> frame_at t p = Some f -> 0 < mapcount t f.
Proof.
  intros Hp Hf. unfold mapcount. rewrite (seqZ_split USER_END_PAGE p Hp), filter_app, length_app, filter_cons.
  rewrite decide_True by done. simpl. lia.
Qed.

Lemma mapcount_empty f : mapcount pt_empty f = 0.
Proof.
  unfold mapcount. rewrite (filter_length_iff _ (fun _ => False)).
  - induction (seqZ 0 USER_END_PAGE) as [|x l IH]; [done|]. rewrite filter_cons, decide_False by tauto. exact IH.
  - intros p _. unfold frame_at. by rewrite translate_empty.
Qed.

(** The sum ranges over [2^35] pages: it is never to be computed. *)
#[local] Opaque mapcount.

(** Frames waiting to be released. *)
Definition pend (q : list PageQueueEntry) (f : Z) : Z :=
  Z.of_nat (length (filter (fun e => e = QFree f None) q)).

Lemma pend_app q q' f : pend (q ++ q') f = pend q f + pend q' f.
Proof. unfold pend. rewrite filter_app, length_app. lia. Qed.
Lemma pend_cons e q f : pend (e :: q) f = ind (e = QFree f None) + pend q f.
Proof. unfold pend, ind. rewrite filter_cons. case_decide; simpl; lia. Qed.
Lemma pend_nonneg q f : 0 <= pend q f.
Proof. unfold pend. lia. Qed.

(** No physically contiguous range is queued. *)
Definition queue_ok (q : list PageQueueEntry) : Prop := forall f c, QFree f (Some c) ∉ q.

(** ** The invariant of one space *)

Definition ledger (other : Z -> Z) (t : PageTable) (q : list PageQueueEntry) : Z -> Z :=
  fun f => mapcount t f + pend q f + other f.

(** The outside references of a frame, negative while a mapping that still
    exists has already been queued for release. *)
Definition weak (other : Z -> Z) (t : PageTable) : Prop := forall f, 0 <= mapcount t f + other f.
Definition strict (other : Z -> Z) : Prop := forall f, 0 <= other f.

Lemma strict_weak other t : strict other -> weak other t.
Proof. intros H f. specialize (H f). pose proof (mapcount_nonneg t f). lia. Qed.

Record SInv (other : Z -> Z) (k : Kernel) (a : AddrSpace) : Prop := {
  si_acct : acct (mem k) (ledger other (utable a) (pagequeue a));
  si_weak : weak other (utable a);
  si_queue : queue_ok (pagequeue a)
}.

(** How many references to [f] there are. *)
Definition refs (other : Z -> Z) (a : AddrSpace) (f : Z) : Z := ledger other (utable a) (pagequeue a) f.

(** Space [sid] of [k] is [a] and satisfies the invariant. *)
Definition KInv (other : Z -> Z) (sid : Z) (k : Kernel) (a : AddrSpace) : Prop :=
  spaces k !! sid = Some a /\ SInv other k a.

(** What a step on [sid] leaves alone: the other spaces, and the allocator's
    layout. *)
Record frame_rule (sid : Z) (k k' : Kernel) : Prop := {
  fr_others : forall s, s <> sid -> spaces k' !! s = spaces k !! s;
  fr_cpu : cur_cpu k' = cur_cpu k;
  fr_quiet : quiet (mem k) (mem k')
}.

#[export] Instance frame_rule_preorder sid : PreOrder (frame_rule sid).
Proof.
  split; [done|]. intros x y z [H1 H2 H3] [H4 H5 H6].
  split; [intros s Hs; by rewrite H4, H1|congruence|by transitivity (mem y)].
Qed.

Lemma acct_nonneg m c f : acct m c -> 0 <= c f.
Proof. intros (U & n & _ & _ & H). apply H. Qed.

Lemma handle_free_ok dbg m c f : acct m c -> 0 < c f ->
  exists m', handle_free_action dbg f None m = Done (tt, m') /\ quiet m m' /\ contents m' = contents m /\
    acct m' (bump f (-1) c) /\ (forall g, 0 < bump f (-1) c g -> shared m' g -> shared m g).
Proof.
  intros Ha Hf. unfold handle_free_action. rewrite (bind_Done _ _ _ _ _ (get_page_info_eq f m)).
  destruct (locate (sections m) f) as [r|] eqn:Hr; [by apply (drop_ref_ok dbg m c f r)|].
  exists m. split_and!; [done|done|done| |done]. destruct Ha as (U & n & Hh & He & Hc). exists U, n. split_and!; [done| |].
  - intros g. unfold bump. destruct (decide (g = f)) as [->|]; [|apply He]. destruct (He f) as [[_ ?]|[HK _]]; [lia|].
    destruct (decide (c f + -1 = 0)) as [->|]; [left|right; split; [done|lia]]. split; [|done]. rewrite HK.
    destruct (U !! f) as [o|] eqn:E; [|done]. destruct (heap_used_info _ _ _ _ _ Hh E) as [_ (r & _ & Hr' & _)]. congruence.
  - intros g. unfold bump. destruct (decide (g = f)) as [->|]; [|apply Hc]. split; [lia|].
    intros _. split; [apply (proj2 (Hc f) Hf)|by left].
Qed.

(** Releasing a whole queue. *)
Lemma free_queue_ok dbg q : forall other t k, queue_ok q -> weak other t ->
  acct (mem k) (ledger other t q) ->
  exists m', forM q (fun entry => match entry with
                                  | QFree base cnt => with_mem (handle_free_action dbg base cnt)
                                  | QOther _ => ret tt
                                  end) k = Done (tt, set_mem m' k) /\
    quiet (mem k) m' /\ contents m' = contents (mem k) /\ acct m' (ledger other t []) /\
    (forall g, 0 < mapcount t g + other g -> shared m' g -> shared (mem k) g).
Proof.
  induction q as [|e q IH]; intros other t k Hq Ho Ha.
  - exists (mem k). split; [by destruct k|done].
  - assert (Hq' : queue_ok q) by (intros f c Hin; apply (Hq f c); set_solver).
    destruct e as [f [c|]|acts]; [exfalso; apply (Hq f c); set_solver| |].
    + assert (Hpos : 0 < ledger other t (QFree f None :: q) f).
      { unfold ledger. rewrite pend_cons. unfold ind. rewrite decide_True by done.
        pose proof (pend_nonneg q f). specialize (Ho f). lia. }
      destruct (handle_free_ok dbg _ _ _ Ha Hpos) as (m1 & Hrun & Hq1 & Hc1 & Ha1 & Hs1).
      destruct (IH other t (set_mem m1 k) Hq' Ho) as (m2 & Hrun2 & Hq2 & Hc2 & Ha2 & Hs2).
      { eapply acct_ext; [|exact Ha1]. intros g. unfold bump, ledger. rewrite pend_cons. unfold ind.
        destruct (decide (g = f)) as [->|]; [rewrite decide_True by done; lia|].
        rewrite decide_False by congruence. lia. }
      exists m2. split_and!; [|by transitivity m1|simpl in *; congruence|done|].
      2: { intros g Hg Hsh. apply Hs1, Hs2; [|done|done]. unfold bump, ledger. rewrite pend_cons.
           pose proof (pend_nonneg q g). unfold ind.
           destruct (decide (g = f)) as [->|]; [rewrite decide_True by done; lia|case_decide; lia]. }
      cbn [forM]. rewrite (bind_Done _ _ k tt (set_mem m1 k)); [done|]. unfold with_mem. by rewrite Hrun.
    + destruct (IH other t k Hq' Ho) as (m2 & Hrun2 & ?).
      { eapply acct_ext; [|exact Ha]. intros g. unfold ledger. rewrite pend_cons. unfold ind. by rewrite decide_False. }
      exists m2. split; [|done]. simpl. by rewrite bind_ret.
Qed.

(** ** Flushing and queueing *)

(** No frame with an outside reference becomes shared. *)
Definition calm (other : Z -> Z) (k k' : Kernel) : Prop :=
  forall g, 0 < other g -> shared (mem k') g -> shared (mem k) g.

#[export] Instance calm_preorder other : PreOrder (calm other).
Proof. split; [by intros k g|]. intros x y z H1 H2 g Hg Hs. by apply H1, H2. Qed.

Lemma flush_ok dbg other sid k a : KInv other sid k a ->
  exists k' d, Flusher_flush dbg sid k = Done (tt, k') /\
    KInv other sid k' (set_queue [] d a) /\ frame_rule sid k k' /\ contents (mem k') = contents (mem k) /\
    calm other k k'.
Proof.
  intros [Hs [Ha Ho Hq]]. unfold Flusher_flush, get_space. rewrite bind_assoc.
  unfold bind at 1, get_state. unfold bind at 1. rewrite Hs. cbn [unwrap ret].
  assert (Hgo : forall d, exists k', (put_space sid (set_queue [] d a) ;;;
      (let! cpu := gets cur_cpu in
      let active := cpu_iter (used_by a) in
      modify (fun k => mkKernel (mem k) (spaces k) (cur_cpu k)
        (tlb_log k ++ map ShootdownIpi (filter (fun c => c <> cpu) active)
         ++ (if bool_decide (cpu ∈ active) then [FlushLocal] else []))) ;;;
      forM (pagequeue a) (fun entry =>
        match entry with
        | QFree base cnt => with_mem (handle_free_action dbg base cnt)
        | QOther _ => ret tt
        end))) k = Done (tt, k') /\ KInv other sid k' (set_queue [] d a) /\ frame_rule sid k k' /\
        contents (mem k') = contents (mem k) /\ calm other k k').
  { intros d. unfold put_space, modify. unfold bind at 1, gets. unfold bind at 1. unfold bind at 1.
    match goal with |- context [forM (pagequeue a) _ ?k1] => set (k0 := k1) end.
    destruct (free_queue_ok dbg (pagequeue a) other (utable a) k0 Hq Ho Ha) as (m' & Hrun & Hqu & Hc & Ha' & Hsh).
    exists (set_mem m' k0). split; [exact Hrun|]. split; [|split; [|split; [done|]]].
    - split; [simpl; apply lookup_insert_eq|]. split; [done|done|by intros f c ?%not_elem_of_nil].
    - split; [|done|done]. intros s Hne. simpl. by rewrite lookup_insert_ne.
    - intros g Hg. apply Hsh. pose proof (mapcount_nonneg (utable a) g). lia. }
  destruct (pagequeue a) as [|e q] eqn:Eq; [destruct (dirty a) eqn:Ed|].
  - destruct (Hgo false) as (k' & ? & ?). exists k', false. done.
  - exists k, false. split; [done|]. split; [|done]. split.
    + rewrite Hs. f_equal. unfold set_queue. destruct a; simpl in *; congruence.
    + by split.
  - destruct (Hgo (dirty a)) as (k' & ? & ?). exists k', (dirty a). done.
Qed.

(** Equal but for the flusher's queue. *)
Record same_core (a a' : AddrSpace) : Prop := {
  sc_table : utable a' = utable a;
  sc_grants : grants a' = grants a;
  sc_used : used_by a' = used_by a;
  sc_min : mmap_min a' = mmap_min a
}.

#[export] Instance same_core_preorder : PreOrder same_core.
Proof. split; [done|]. intros x y z [] []. split; congruence. Qed.

Lemma update_space_run sid f k a : spaces k !! sid = Some a ->
  update_space sid f k = Done (tt, set_spaces (<[sid := f a]> (spaces k)) k).
Proof. intros Hs. unfold update_space, get_space, get_state, bind, unwrap. by rewrite Hs. Qed.

Lemma get_space_run sid k a : spaces k !! sid = Some a -> get_space sid k = Done (a, k).
Proof. intros Hs. unfold get_space, get_state, bind, unwrap. by rewrite Hs. Qed.

Lemma frame_rule_put sid a k : frame_rule sid k (set_spaces (<[sid := a]> (spaces k)) k).
Proof. split; [|done|done]. intros s Hne. simpl. by rewrite lookup_insert_ne. Qed.

(** Queueing consumes a reference exactly when the entry frees its frame. *)
Definition frees (acts : Z) : bool := tlb_contains (Z.ldiff acts TLB_NEW_MAPPING) TLB_FREE.

Lemma queue_ok' dbg other sid k a f acts : weak other (utable a) ->
  KInv (if frees acts then bump f 1 other else other) sid k a ->
  exists k' a', Flusher_queue dbg sid f None acts k = Done (tt, k') /\ KInv other sid k' a' /\
    same_core a a' /\ frame_rule sid k k' /\ contents (mem k') = contents (mem k) /\ calm other k k' /\
    (forall g, pend (pagequeue a') g <= pend (pagequeue a) g + (if frees acts then ind (g = f) else 0)).
Proof.
  intros Ho [Hs HI]. unfold Flusher_queue. change (tlb_contains _ _) with (frees acts).
  set (e := if frees acts then QFree f None else QOther _).
  set (a1 := set_queue (pagequeue a) true a).
  rewrite (bind_Done _ _ _ _ _ (update_space_run _ _ _ _ Hs)).
  set (k1 := set_spaces _ k). assert (Hs1 : spaces k1 !! sid = Some a1) by apply lookup_insert_eq.
  rewrite (bind_Done _ _ _ _ _ (get_space_run _ _ _ Hs1)).
  assert (HK1 : KInv (if frees acts then bump f 1 other else other) sid k1 a1).
  { split; [done|]. destruct HI. by split. }
  assert (Hmid : exists k2 a2, (if (length (pagequeue a1) =? PAGEQUEUE_CAPACITY)%nat
        then Flusher_flush dbg sid else ret tt) k1 = Done (tt, k2) /\
      KInv (if frees acts then bump f 1 other else other) sid k2 a2 /\ same_core a a2 /\ frame_rule sid k k2 /\
      contents (mem k2) = contents (mem k) /\ calm other k k2 /\
      (forall g, pend (pagequeue a2) g <= pend (pagequeue a) g)).
  { destruct (length (pagequeue a1) =? PAGEQUEUE_CAPACITY)%nat.
    - destruct (flush_ok dbg _ _ _ _ HK1) as (k2 & d & ? & ? & ? & ? & Hcalm). exists k2, (set_queue [] d a1).
      split_and!; [done|done|done| |done| |]; [transitivity k1; [apply frame_rule_put|done]| |].
      + intros g Hg. apply Hcalm. destruct (frees acts); [unfold bump; case_decide; lia|done].
      + intros g. apply (pend_nonneg (pagequeue a) g).
    - exists k1, a1. split_and!; [done|done|done|apply frame_rule_put|done|by intros g|done]. }
  destruct Hmid as (k2 & a2 & Hrun & [Hs2 HI2] & Hc2 & Hf2 & Hct & Hcalm & Hpd). rewrite (bind_Done _ _ _ _ _ Hrun).
  rewrite (update_space_run _ _ _ _ Hs2).
  exists (set_spaces (<[sid := set_queue (pagequeue a2 ++ [e]) (dirty a2) a2]> (spaces k2)) k2),
    (set_queue (pagequeue a2 ++ [e]) (dirty a2) a2).
  split_and!; [done| |by transitivity a2|by transitivity k2; [|apply frame_rule_put]|done|done|].
  2: { intros g. simpl. rewrite pend_app, pend_cons. change (pend [] g) with 0. specialize (Hpd g). unfold e, ind.
       destruct (frees acts); repeat case_decide; simplify_eq; lia || done. }
  split; [apply lookup_insert_eq|]. destruct HI2 as [Ha _ Hq2]. split; [|simpl; by rewrite (sc_table _ _ Hc2)|].
  - eapply acct_ext; [|exact Ha]. intros g. unfold ledger. simpl. rewrite pend_app, pend_cons.
    change (pend [] g) with 0. unfold e, ind. destruct (frees acts); [|rewrite decide_False by done; lia].
    unfold bump. destruct (decide (g = f)) as [->|].
    + rewrite decide_True by done. lia.
    + rewrite decide_False by congruence. lia.
  - intros g c [Hin|Hin%list_elem_of_singleton]%elem_of_app; [by apply (Hq2 g c)|].
    unfold e in Hin. by destruct (frees acts).
Qed.

(** ** Page-table steps *)

Lemma page_addr_aligned p : (p * PAGE_SIZE) mod 4096 = 0.
Proof. apply Z.mod_mul. done. Qed.

Lemma frame_at_other t' (p : Z) (x : option (Z * PageFlags)) t :
  (forall va', va' mod 4096 = 0 ->
     pt_translate t' va' = if decide (va' = p * PAGE_SIZE) then x else pt_translate t va') ->
  forall p', pt_translate t' (p' * PAGE_SIZE) = if decide (p' = p) then x else pt_translate t (p' * PAGE_SIZE).
Proof.
  intros H p'. rewrite H by apply page_addr_aligned. unfold PAGE_SIZE in *. repeat case_decide; done || lia.
Qed.

(** The table after one entry changed. *)
Definition table_change (t t' : PageTable) (p : Z) (x : option (Z * PageFlags)) : Prop :=
  forall p', pt_translate t' (p' * PAGE_SIZE) = if decide (p' = p) then x else pt_translate t (p' * PAGE_SIZE).

Lemma table_change_count t t' p x f : table_change t t' p x -> 0 <= p < USER_END_PAGE ->
  mapcount t' f = mapcount t f - ind (frame_at t p = Some f) + ind (fst <$> x = Some f).
Proof.
  intros Ht Hp. apply mapcount_change; [done|]. intros p' _. unfold frame_at. rewrite Ht. by case_decide.
Qed.

(** Replacing a table entry hands its reference over to the caller. *)
Lemma table_change_inv other sid k a t' p x :
  KInv other sid k a -> table_change (utable a) t' p x -> 0 <= p < USER_END_PAGE ->
  forall other', weak other' t' ->
  (forall g, other' g = other g + ind (frame_at (utable a) p = Some g) - ind (fst <$> x = Some g)) ->
  KInv other' sid (set_spaces (<[sid := set_utable t' a]> (spaces k)) k) (set_utable t' a).
Proof.
  intros [Hs [Ha Ho Hq]] Ht Hp other' Hpos Heq. split; [apply lookup_insert_eq|]. split; [|done|done].
  eapply acct_ext; [|exact Ha]. intros g. unfold ledger. simpl.
  rewrite (table_change_count _ _ _ _ _ Ht Hp), Heq. lia.
Qed.

Lemma ind_Some (x : option Z) (f g : Z) : x = Some f -> ind (x = Some g) = if decide (g = f) then 1 else 0.
Proof. intros ->. unfold ind. repeat case_decide; congruence. Qed.
Lemma ind_None (x : option Z) (g : Z) : x = None -> ind (x = Some g) = 0.
Proof. intros ->. unfold ind. by rewrite decide_False. Qed.

(** [unmap_phys] of one page. *)
Lemma unmap_phys_ok other sid k a p : KInv other sid k a -> strict other -> 0 <= p < USER_END_PAGE ->
  match pt_translate (utable a) (p * PAGE_SIZE) with
  | None => unmap_phys sid (p * PAGE_SIZE) k = Done (None, k)
  | Some (f, fl) => exists t', unmap_phys sid (p * PAGE_SIZE) k =
        Done (Some (f, fl), set_spaces (<[sid := set_utable t' a]> (spaces k)) k) /\
      table_change (utable a) t' p None /\ frame_addr f /\
      KInv (bump f 1 other) sid (set_spaces (<[sid := set_utable t' a]> (spaces k)) k) (set_utable t' a)
  end.
Proof.
  intros HK Ho Hp. pose proof HK as [Hs [Ha _ Hq]]. unfold unmap_phys. rewrite (bind_Done _ _ _ _ _ (get_space_run _ _ _ Hs)).
  destruct (pt_translate (utable a) (p * PAGE_SIZE)) as [[f fl]|] eqn:Et.
  - destruct (translate_unmap _ _ _ _ (page_addr_aligned p) Et) as (t' & Hu & Ht). rewrite Hu.
    pose proof (frame_at_other _ _ _ _ Ht) as Hch.
    assert (Hfa : frame_at (utable a) p = Some f) by (unfold frame_at; by rewrite Et).
    exists t'. split_and!; [done|done| |].
    + destruct Ha as (U & n & _ & _ & Hc). apply (Hc f). unfold ledger.
      pose proof (mapcount_pos _ _ _ Hp Hfa). pose proof (pend_nonneg (pagequeue a) f). specialize (Ho f). lia.
    + eapply table_change_inv; [done|done|done| |].
      * apply strict_weak. intros g. unfold bump. specialize (Ho g). case_decide; lia.
      * intros g. rewrite (ind_Some _ _ _ Hfa), ind_None by done. unfold bump. case_decide; lia.
  - by rewrite (unmap_present _ _ (page_addr_aligned p) Et).
Qed.

(** ** Unmapping a grant *)

Lemma pages_elem s p : span_ok s -> p ∈ PageSpan_pages s <-> in_span p s.
Proof.
  intros (H1 & H2 & H3). unfold PageSpan_pages, in_span, span_end. rewrite list_elem_of_fmap. split.
  - intros (i & -> & Hi%elem_of_seq). rewrite page_next_by_ok by pages. lia.
  - intros Hp. exists (Z.to_nat (p - span_base s)). split; [|apply elem_of_seq; lia].
    rewrite page_next_by_ok by pages. lia.
Qed.

Lemma start_address_user p : 0 <= p < USER_END_PAGE -> Page_start_address p = p * PAGE_SIZE.
Proof. intros. apply start_address_ok. pages. Qed.

Record same_meta (a a' : AddrSpace) : Prop := {
  sm_grants : grants a' = grants a;
  sm_used : used_by a' = used_by a;
  sm_min : mmap_min a' = mmap_min a
}.
#[export] Instance same_meta_preorder : PreOrder same_meta.
Proof. split; [done|]. intros x y z [] []. split; congruence. Qed.
Lemma same_core_meta a a' : same_core a a' -> same_meta a a'.
Proof. intros []. by split. Qed.

(** The loop body of [unmap]. *)
Definition unmap_page (dbg : bool) (sid : Z) (page : Page) : M Kernel unit :=
  let! r := unmap_phys sid (Page_start_address page) in
  match r with
  | None => ret tt
  | Some (phys, _) => let! f := containing phys in queue dbg (FlusherOf sid) f None TLB_FREE
  end.

Lemma unmap_page_ok dbg other sid k a p : KInv other sid k a -> strict other -> 0 <= p < USER_END_PAGE ->
  exists k' a', unmap_page dbg sid p k = Done (tt, k') /\ KInv other sid k' a' /\ same_meta a a' /\
    table_change (utable a) (utable a') p None /\ frame_rule sid k k' /\ contents (mem k') = contents (mem k).
Proof.
  intros HK Ho Hp. unfold unmap_page. rewrite start_address_user by done.
  pose proof (unmap_phys_ok other sid k a p HK Ho Hp) as Hu.
  destruct (pt_translate (utable a) (p * PAGE_SIZE)) as [[f fl]|] eqn:Et.
  - destruct Hu as (t' & Hrun & Hch & [Hf Hfa] & HK1). rewrite (bind_Done _ _ _ _ _ Hrun).
    erewrite bind_Done by (by apply containing_aligned).
    destruct (queue_ok' dbg other sid _ (set_utable t' a) f TLB_FREE (strict_weak _ _ Ho) HK1)
      as (k' & a' & ? & ? & Hc & Hfr & Hct & _).
    exists k', a'. split_and!; [done|done| | | |done].
    + apply same_core_meta in Hc. by transitivity (set_utable t' a).
    + by rewrite (sc_table _ _ Hc).
    + etransitivity; [apply frame_rule_put|exact Hfr].
  - rewrite (bind_Done _ _ _ _ _ Hu). exists k, a. split_and!; try done.
    intros p'. case_decide; [by subst|done].
Qed.

(** A table that lost exactly the pages of [P]. *)
Definition table_cleared (t t' : PageTable) (P : Z -> Prop) `{!forall p, Decision (P p)} : Prop :=
  forall p, pt_translate t' (p * PAGE_SIZE) = if decide (P p) then None else pt_translate t (p * PAGE_SIZE).

Lemma unmap_pages_ok dbg other sid ps : strict other -> forall k a, KInv other sid k a ->
  (forall p, p ∈ ps -> 0 <= p < USER_END_PAGE) ->
  exists k' a', forM ps (unmap_page dbg sid) k = Done (tt, k') /\ KInv other sid k' a' /\ same_meta a a' /\
    table_cleared (utable a) (utable a') (fun p => p ∈ ps) /\ frame_rule sid k k' /\
    contents (mem k') = contents (mem k).
Proof.
  intros Ho. induction ps as [|p ps IH]; intros k a HK Hps.
  - by exists k, a.
  - destruct (unmap_page_ok dbg other sid k a p HK Ho) as (k1 & a1 & Hrun & HK1 & Hm1 & Ht1 & Hf1 & Hc1);
      [apply Hps; set_solver|].
    destruct (IH k1 a1 HK1) as (k2 & a2 & Hrun2 & HK2 & Hm2 & Ht2 & Hf2 & Hc2); [set_solver|].
    exists k2, a2. cbn [forM]. rewrite (bind_Done _ _ _ _ _ Hrun).
    split_and!; [done|done|by transitivity a1| |by transitivity k1|congruence].
    intros p'. rewrite Ht2, Ht1. repeat case_decide; set_solver.
Qed.

(** The grants [munmap] treats as ordinary: mapped, unpinned, neither borrowed
    from another space nor physically contiguous. *)
Definition ordinary (i : GrantInfo) : Prop :=
  mapped i = true /\ is_pinned i = false /\ splittable (provider i).

Lemma unmap_ok dbg other sid k a g : KInv other sid k a -> strict other -> span_ok (Grant_span g) -> ordinary (info g) ->
  exists r k' a', unmap dbg g sid (FlusherOf sid) k = Done (r, k') /\ KInv other sid k' a' /\ same_meta a a' /\
    table_cleared (utable a) (utable a') (fun p => in_span p (Grant_span g)) /\ frame_rule sid k k' /\
    contents (mem k') = contents (mem k) /\
    r = mkUnmapResult (info_file_ref (info g)) (usize_mul (page_count (info g)) PAGE_SIZE)
          (match provider (info g) with FmapBorrowed _ _ => has_write (flags (info g)) | _ => false end).
Proof.
  intros HK Ho Hok (Hm & Hpin & Hsp). unfold unmap. rewrite Hm, Hpin. cbn [assert_ negb]. rewrite !bind_ret.
  assert (Hun : unpin_external (provider (info g)) (page_count (info g)) k = Done (tt, k)).
  { by destruct (provider (info g)) as [[] []| | | |]. }
  rewrite (bind_Done _ _ _ _ _ Hun).
  destruct (unmap_pages_ok dbg other sid (PageSpan_pages (Grant_span g)) Ho k a HK) as
    (k' & a' & Hrun & HK' & Hme & Ht & Hf & Hc).
  { intros p Hp%pages_elem; [|done]. destruct Hok as (? & ? & ?). unfold in_span, span_end in *. lia. }
  eexists _, k', a'. split; [|split_and!; [done|done| |done|done|reflexivity]].
  - replace (match provider (info g) with Allocated _ true => true | _ => false end) with false
      by (by destruct (provider (info g)) as [[] []| | | |]).
    rewrite (bind_Done (forM _ _) _ _ _ _ Hrun).
    unfold info_file_ref, ret. by destruct (provider (info g)) as [[] []| | | |].
  - intros p. rewrite Ht. pose proof (pages_elem (Grant_span g) p Hok). repeat case_decide; tauto.
Qed.

(** ** Carving a span out of a grant *)

(** Page sources stay inside the address range. *)
Definition src_ok (s : Source) : Prop :=
  match s with
  | SrcCowFile _ _ off | SrcFile _ off => 0 <= off /\ off + PAGE_SIZE < 2 ^ 64
  | SrcPhys f => 0 < f /\ f + PAGE_SIZE < 2 ^ 64
  | _ => True
  end.
Definition Sane (ug : UserGrants) : Prop := forall p a, gview ug p = Some a -> src_ok (a_source a).

(** Pages of ordinary grants. *)
Definition plain (a : Attr) : Prop :=
  a_mapped a = true /\ a_pinned a = false /\
  match a_source a with SrcAnon true | SrcCowFile true _ _ | SrcExternal _ _ => False | _ => True end.

Lemma plain_ordinary e p : plain (attr_at e p) -> ordinary e.2.
Proof.
  intros (Hm & Hp & Hs). split; [done|]. split; [done|]. unfold attr_at in Hs. simpl in Hs.
  by destruct (provider e.2) as [[] []| | | |].
Qed.

Lemma sane_provider_ok ug e : GrantsSpec.Inv ug -> Sane ug -> e ∈ inner ug -> provider_ok (provider e.2) (page_count e.2).
Proof.
  intros [Hwf _] Hsane He. pose proof (wf_elem _ _ _ _ Hwf He) as (H1 & H2 & H3).
  assert (Hat : forall p, covers e p -> src_ok (source_at (provider e.2) (p - e.1))).
  { intros p Hc. apply (Hsane p (attr_at e p)). by apply (view_elem _ _ _ _ _ Hwf). }
  pose proof (Hat e.1) as Ha. pose proof (Hat (e_end e - 1)) as Hb. unfold covers, e_end in *.
  specialize (Ha ltac:(lia)). specialize (Hb ltac:(lia)).
  destruct (provider e.2) as [[r|] c|pin|f|a sb pin|r pin]; simpl in *; try done; lia.
Qed.

Definition opt_insert (o : option Grant) : M UserGrants unit :=
  match o with Some b => UserGrants_insert b | None => ret tt end.

(** The pages of an optional grant. *)
Definition opt_span (o : option Grant) (p : Z) : Prop :=
  match o with Some g => in_span p (Grant_span g) | None => False end.
#[export] Instance opt_span_dec o p : Decision (opt_span o p).
Proof. destruct o; apply _. Defined.

Lemma opt_insert_ok ug o (A : Z -> Attr) : GrantsSpec.Inv ug ->
  (forall g, o = Some g -> span_ok (Grant_span g) /\ 0 < page_count (info g) /\
     (forall p, attr_at (base g, info g) p = A p) /\ (forall p, in_span p (Grant_span g) -> gview ug p = None)) ->
  exists ug', opt_insert o ug = Done (tt, ug') /\ GrantsSpec.Inv ug' /\
    (forall p, gview ug' p = if decide (opt_span o p) then Some (A p) else gview ug p) /\
    forall y, (forall g, o = Some g -> span_end (Grant_span g) <= y) ->
      (ends_above y (inner ug') <= ends_above y (inner ug))%nat.
Proof.
  intros HI Ho. destruct o as [g|]; simpl.
  - destruct (Ho g eq_refl) as (H1 & H2 & H3 & H4). destruct (insert_ok' ug g HI H1 H2 H4) as (ug' & Hr & HI' & Hv & Hn).
    exists ug'. split_and!; [done|done| |intros y Hy; by apply Hn, Hy].
    intros p. rewrite Hv, H3. by repeat case_decide.
  - by exists ug.
Qed.

(** How an extraction lies in its grant. *)
Lemma tiles_layout g t r : tiles (base g) (pieces r) (base g, info g) -> Grant_span r.1.2 = t ->
  span_ok (Grant_span g) ->
  (forall p, opt_span r.1.1 p <-> base g <= p < span_base t) /\
  (forall p, opt_span r.2 p <-> span_end t <= p < span_end (Grant_span g)) /\
  (forall p, attr_at (base r.1.2, info r.1.2) p = attr_at (base g, info g) p) /\
  (forall b, r.1.1 = Some b \/ r.2 = Some b -> span_ok (Grant_span b) /\ 0 < page_count (info b) /\
     (forall p, attr_at (base b, info b) p = attr_at (base g, info g) p)).
Proof.
  destruct r as [[b m] a]. intros Ht <- Hok. unfold pieces in Ht.
  unfold opt_span, in_span, span_end, span_ok, Grant_span, PageSpan_new, e_end in *.
  destruct b as [b|], a as [a|]; simpl in *; unfold e_end in *; simpl in *;
    repeat match goal with H : _ /\ _ |- _ => destruct H end;
    split_and!; try (intros p; lia); try done;
    intros x [[= <-]|[= <-]]; split_and!; done || lia.
Qed.

Lemma ordinary_attr e e' : ordinary e.2 -> (forall p, attr_at e' p = attr_at e p) -> ordinary e'.2.
Proof.
  intros (Hm & Hp & Hs) Ha. specialize (Ha 0). unfold attr_at in Ha. injection Ha as _ E1 E2 E3.
  split; [congruence|]. split; [congruence|].
  destruct (provider e.2) as [[] []| | | |], (provider e'.2) as [[] []| | | |]; simpl in *; congruence || done.
Qed.

(** Remove a grant, cut a nonempty span out of it and put the rest back: the
    map loses exactly the span. *)
Lemma carve_ok ug e t : GrantsSpec.Inv ug -> Sane ug -> e ∈ inner ug -> ordinary e.2 ->
  0 < span_count t -> e.1 <= span_base t -> span_end t <= e_end e ->
  exists ug1 r ug2 ug3,
    UserGrants_remove e.1 ug = Done (Some (mkGrant e.1 e.2), ug1) /\
    (forall (S : Type) (st : S), Grant_extract (mkGrant e.1 e.2) t st = Done (Some r, st)) /\
    opt_insert r.1.1 ug1 = Done (tt, ug2) /\ opt_insert r.2 ug2 = Done (tt, ug3) /\
    Grant_span r.1.2 = t /\ ordinary (info r.1.2) /\ GrantsSpec.Inv ug3 /\
    (forall p, attr_at (base r.1.2, info r.1.2) p = attr_at e p) /\
    (forall p, gview ug3 p = if decide (in_span p t) then None else gview ug p) /\
    (span_end t = e_end e -> forall y, y < e_end e ->
       (ends_above (e_end e) (inner ug3) < ends_above y (inner ug))%nat).
Proof.
  intros HI Hsane He Hord Ht Hb Hend. pose proof (inv_wf _ HI) as Hwf.
  destruct (wf_elem _ _ _ _ Hwf He) as (H1 & H2 & H3). set (g := mkGrant e.1 e.2).
  assert (Hspan : span_ok (Grant_span g)) by (unfold span_ok, e_end in *; simpl; lia).
  destruct (remove_ok' ug e HI He) as (ug1 & Hrm & HI1 & Hv1 & ma & mb & Hm0 & Hm1).
  destruct (extract_ok g t) as (r & Hex & Hmid & Htiles); [done..| | | |].
  { unfold can_extract. cbn [info g]. by rewrite (proj1 (proj2 Hord)). }
  { exact (sane_provider_ok ug e HI Hsane He). }
  { apply Hord. }
  destruct (tiles_layout g t r Htiles Hmid Hspan) as (Lb & La & Lm & Lp).
  assert (Hfree : forall p, e.1 <= p < e_end e -> gview ug1 p = None).
  { intros p Hp. by rewrite Hv1, decide_True. }
  destruct (opt_insert_ok ug1 r.1.1 (attr_at e) HI1) as (ug2 & Hi2 & HI2 & Hv2 & Hn2).
  { intros b Eb. destruct (Lp b (or_introl Eb)) as (? & ? & ?). split_and!; try done.
    intros p Hp. apply Hfree. rewrite Eb in Lb. apply Lb in Hp. unfold span_end in *. simpl in *. lia. }
  destruct (opt_insert_ok ug2 r.2 (attr_at e) HI2) as (ug3 & Hi3 & HI3 & Hv3 & Hn3).
  { intros b Eb. destruct (Lp b (or_intror Eb)) as (? & ? & ?). split_and!; try done.
    intros p Hp. rewrite Eb in La. apply La in Hp. change (span_end (Grant_span g)) with (e_end e) in Hp.
    rewrite Hv2, decide_False; [apply Hfree; unfold span_end in *; lia|].
    rewrite Lb. unfold span_end in *. lia. }
  exists ug1, r, ug2, ug3. split_and!; try done.
  - eapply (ordinary_attr e (base r.1.2, info r.1.2)); [done|]. intros p. rewrite Lm. by destruct e.
  - intros p. rewrite Hv3, Hv2, Hv1. unfold gview in *. change (span_end (Grant_span g)) with (e_end e) in La.
    change (base g) with e.1 in Lb.
    assert (Hview : covers e p -> view (inner ug) p = Some (attr_at e p)) by (by apply (view_elem _ _ _ _ _ Hwf)).
    unfold covers, in_span in *. specialize (La p). specialize (Lb p).
    repeat case_decide; rewrite ?La, ?Lb in *; unfold span_end in *; try done; try lia; symmetry; apply Hview; lia.
  - intros Heq y Hy. assert (Ha3 : (ends_above (e_end e) (inner ug3) <= ends_above (e_end e) (inner ug1))%nat).
    { transitivity (ends_above (e_end e) (inner ug2)); [apply Hn3|apply Hn2]; intros b Eb.
      - destruct (Lp b (or_intror Eb)) as (_ & Hb0 & _). rewrite Eb in La.
        destruct (proj1 (La (base b))); [|unfold Grant_span, span_end, e_end in *; simpl in *; lia].
        unfold opt_span, in_span, span_end. simpl. lia.
      - destruct (Lp b (or_introl Eb)) as (_ & Hb0 & _). rewrite Eb in Lb.
        destruct (proj1 (Lb (span_end (Grant_span b) - 1))); [|unfold span_end in *; lia].
        unfold opt_span, in_span, span_end. simpl. lia. }
    rewrite Hm0. rewrite Hm1 in Ha3. rewrite ends_above_app in *. rewrite ends_above_cons, decide_True by done.
    pose proof (ends_above_mono y (e_end e) ma). pose proof (ends_above_mono y (e_end e) mb). lia.
Qed.

(** ** munmap *)

Lemma with_grants_run {A} sid (m : M UserGrants A) k a x g' : spaces k !! sid = Some a ->
  m (grants a) = Done (x, g') ->
  with_grants sid m k = Done (x, set_spaces (<[sid := set_grants g' a]> (spaces k)) k).
Proof. intros Hs Hm. unfold with_grants. rewrite (bind_Done _ _ _ _ _ (get_space_run _ _ _ Hs)). by rewrite Hm. Qed.

Lemma KInv_grants other sid k a g : KInv other sid k a ->
  KInv other sid (set_spaces (<[sid := set_grants g a]> (spaces k)) k) (set_grants g a).
Proof. intros [Hs [Ha Ho Hq]]. split; [apply lookup_insert_eq|by split]. Qed.

Lemma opt_insert_run sid o k a g' : spaces k !! sid = Some a -> opt_insert o (grants a) = Done (tt, g') ->
  exists k', (match o with Some b => with_grants sid (UserGrants_insert b) | None => ret tt end) k = Done (tt, k') /\
    k' = set_spaces (<[sid := set_grants g' a]> (spaces k)) k.
Proof.
  intros Hs Ho. destruct o as [b|]; simpl in *.
  - eexists. split; [by apply with_grants_run|done].
  - injection Ho as <-. exists k. split; [done|]. destruct k as [m sp c l]. unfold set_spaces. simpl in *. f_equal.
    rewrite insert_id; [done|]. rewrite Hs. by destruct a.
Qed.

Lemma set_spaces_twice sid a b k :
  set_spaces (<[sid := b]> (spaces (set_spaces (<[sid := a]> (spaces k)) k))) (set_spaces (<[sid := a]> (spaces k)) k) =
  set_spaces (<[sid := b]> (spaces k)) k.
Proof. unfold set_spaces. simpl. by rewrite insert_insert_eq. Qed.

Lemma set_grants_twice g g' a : set_grants g' (set_grants g a) = set_grants g' a.
Proof. done. Qed.

(** One round of the loop on the first conflicting grant. *)
Lemma munmap_round dbg other sid fuel k a s files e cs :
  KInv other sid k a -> strict other -> GrantsSpec.Inv (grants a) -> Sane (grants a) -> span_ok s ->
  UserGrants_conflicts (grants a) s = e :: cs -> ordinary e.2 ->
  exists k1 a1 files1, 
    munmap_loop dbg (S fuel) sid s false files k =
      munmap_loop dbg fuel sid (if e_end e <? span_end s then mkPageSpan (e_end e) (span_end s - e_end e) else PageSpan_empty)
        false (files ++ files1) k1 /\
    KInv other sid k1 a1 /\ GrantsSpec.Inv (grants a1) /\ used_by a1 = used_by a /\ mmap_min a1 = mmap_min a /\
    (forall p, gview (grants a1) p = if decide (in_span p s /\ covers e p) then None else gview (grants a) p) /\
    (forall p, pt_translate (utable a1) (p * PAGE_SIZE) =
       if decide (in_span p s /\ covers e p) then None else pt_translate (utable a) (p * PAGE_SIZE)) /\
    frame_rule sid k k1 /\ contents (mem k1) = contents (mem k) /\
    (e_end e < span_end s -> (ends_above (e_end e) (inner (grants a1)) < ends_above (span_base s) (inner (grants a)))%nat).
Proof.
  intros HK Ho HI Hsane Hs Hcs Hord. pose proof HK as [Hks _].
  assert (He : e ∈ UserGrants_conflicts (grants a) s) by (rewrite Hcs; apply list_elem_of_here).
  rewrite conflicts_ok in He by done. apply list_elem_of_filter in He as [Hov He].
  pose proof (inv_wf _ HI) as Hwf. destruct (wf_elem _ _ _ _ Hwf He) as (H1 & H2 & H3).
  destruct (entry_next_by _ _ _ _ Hwf ltac:(lia) ltac:(lia) He) as [En Heok].
  set (t := PageSpan_intersection (entry_span e) s).
  assert (Et : t = mkPageSpan (Z.max e.1 (span_base s)) (Z.min (e_end e) (span_end s) - Z.max e.1 (span_base s))).
  { unfold t. rewrite intersection_ok by done. unfold overlaps in Hov. simpl. f_equal. unfold e_end, span_end in *. simpl in *. lia. }
  assert (Htin : forall p, in_span p t <-> in_span p s /\ covers e p).
  { intros p. unfold t. rewrite in_span_intersection by done. unfold in_span, covers, span_end, e_end. simpl. tauto. }
  unfold overlaps in Hov.
  destruct (carve_ok (grants a) e t) as
    (ug1 & r & ug2 & ug3 & Hrm & Hex & Hi1 & Hi2 & Hmid & Hmord & HI3 & Hattr & Hv3 & Hcount); try done;
    [rewrite Et; unfold span_end in *; simpl; lia..|].
  set (ka := set_spaces (<[sid := set_grants ug3 a]> (spaces k)) k).
  assert (HKa : KInv other sid ka (set_grants ug3 a)) by (by apply KInv_grants).
  assert (Hmok : span_ok (Grant_span r.1.2)).
  { rewrite Hmid, Et. unfold span_ok, span_end, e_end in *. simpl. destruct Hs. lia. }
  destruct (unmap_ok dbg other sid ka _ r.1.2 HKa Ho Hmok Hmord) as (res & k1 & a1 & Hun & HK1 & Hm1 & Ht1 & Hf1 & Hc1 & Hres).
  exists k1, a1, (match file_desc res with Some _ => [res] | None => [] end).
  split.
  { cbn [munmap_loop]. rewrite (bind_Done _ _ _ _ _ (get_space_run _ _ _ Hks)). rewrite Hcs.
    destruct e as [eb ei]. cbn [fst snd] in *. destruct Hord as (Hmp & Hpin & Hsp).
    rewrite Hpin. unfold can_extract. rewrite Hpin. cbn [negb andb orb].
    rewrite (bind_Done _ _ _ _ _ (with_grants_run sid _ k a _ _ Hks Hrm)). cbn [unwrap]. rewrite bind_ret.
    rewrite (bind_Done _ _ _ _ _ (Hex _ _)). cbn [unwrap]. rewrite bind_ret.
    destruct r as [[bf md] af]. cbn [fst snd] in *.
    destruct (opt_insert_run sid bf (set_spaces (<[sid:=set_grants ug1 a]> (spaces k)) k) (set_grants ug1 a) ug2)
      as (k2 & Hr2 & ->); [apply lookup_insert_eq|done|]. rewrite (bind_Done _ _ _ _ _ Hr2).
    rewrite set_spaces_twice, set_grants_twice.
    destruct (opt_insert_run sid af (set_spaces (<[sid:=set_grants ug2 a]> (spaces k)) k) (set_grants ug2 a) ug3)
      as (k3 & Hr3 & ->); [apply lookup_insert_eq|done|]. rewrite (bind_Done _ _ _ _ _ Hr3).
    rewrite set_spaces_twice, set_grants_twice. fold ka. rewrite (bind_Done _ _ _ _ _ Hun).
    replace (match file_desc res with Some _ => files ++ [res] | None => files end)
      with (files ++ match file_desc res with Some _ => [res] | None => [] end)
      by (destruct (file_desc res); [done|apply app_nil_r]).
    f_equal. change (PageSpan_new eb (page_count ei)) with (entry_span (eb, ei)).
    rewrite !PageSpan_end_ok by done. change (span_end (entry_span (eb, ei))) with (e_end (eb, ei)).
    destruct (Z.ltb_spec (e_end (eb, ei)) (span_end s)); [|done].
    unfold PageSpan_new, Page_offset_from. rewrite usize_sub_small; [done|..]; destruct Hs; unfold span_end, e_end in *; simpl in *; pages. }
  destruct Hm1 as [Hg1 Hu1 Hmm1]. simpl in Hg1, Hu1, Hmm1.
  split_and!; [done|by rewrite Hg1|done|done| | | |done|].
  - intros p. rewrite Hg1, Hv3. specialize (Htin p). repeat case_decide; tauto.
  - intros p. rewrite Ht1. simpl. rewrite Hmid. specialize (Htin p). repeat case_decide; tauto.
  - transitivity ka; [apply frame_rule_put|done].
  - intros Hlt. rewrite Hg1. apply Hcount; [|lia]. rewrite Et. unfold span_end at 1. simpl. lia.
Qed.

Lemma Sane_shrink ug ug' (P : Z -> Prop) `{!forall p, Decision (P p)} :
  (forall p, gview ug' p = if decide (P p) then None else gview ug p) -> Sane ug -> Sane ug'.
Proof. intros Hv Hs p a. rewrite Hv. case_decide; [done|]. apply Hs. Qed.

Lemma covers_view ug e p : GrantsSpec.Inv ug -> e ∈ inner ug -> covers e p -> gview ug p = Some (attr_at e p).
Proof. intros [Hwf _] He Hc. by apply (view_elem _ _ _ _ _ Hwf). Qed.

Lemma munmap_loop_nil dbg fuel sid s files k a : spaces k !! sid = Some a ->
  UserGrants_conflicts (grants a) s = [] ->
  munmap_loop dbg (S fuel) sid s false files k = Done (Ok files, k).
Proof.
  intros Hs Hc. cbn [munmap_loop]. rewrite (bind_Done _ _ _ _ _ (get_space_run _ _ _ Hs)). by rewrite Hc.
Qed.

(** What unmapping span [s] of space [sid] establishes. *)
Record unmapped (other : Z -> Z) (sid : Z) (k k' : Kernel) (a a' : AddrSpace) (s : PageSpan) : Prop := {
  um_inv : KInv other sid k' a';
  um_grants : GrantsSpec.Inv (grants a');
  um_used : used_by a' = used_by a;
  um_min : mmap_min a' = mmap_min a;
  um_view : forall p, gview (grants a') p = if decide (in_span p s) then None else gview (grants a) p;
  um_table : forall p, pt_translate (utable a') (p * PAGE_SIZE) =
    if decide (in_span p s /\ is_Some (gview (grants a) p)) then None else pt_translate (utable a) (p * PAGE_SIZE);
  um_frame : frame_rule sid k k';
  um_contents : contents (mem k') = contents (mem k)
}.

Lemma conflict_head ug s e cs : GrantsSpec.Inv ug -> span_ok s -> UserGrants_conflicts ug s = e :: cs ->
  e ∈ inner ug /\ (exists p, in_span p s /\ covers e p) /\
  (forall p, span_base s <= p < e_end e -> ~ covers e p -> gview ug p = None).
Proof.
  intros HI Hs Hcs. pose proof (inv_wf _ HI) as Hwf.
  assert (He : e ∈ UserGrants_conflicts ug s) by (rewrite Hcs; apply list_elem_of_here).
  rewrite conflicts_ok in He by done. apply list_elem_of_filter in He as [Hov He].
  split_and!; [done|by apply overlaps_covers|]. intros p Hp Hnc. apply view_None. intros e' He' Hc'.
  assert (Hov' : overlaps s e').
  { destruct (wf_elem _ _ _ _ Hwf He) as (? & ? & ?).
    unfold overlaps, covers, e_end, span_end in *. lia. }
  assert (Hin : e' ∈ e :: cs).
  { rewrite <- Hcs, conflicts_ok by done. by apply list_elem_of_filter. }
  apply elem_of_cons in Hin as [->|Hin]; [done|].
  assert (Hsub : sublist (e :: cs) (inner ug)) by (rewrite <- Hcs, conflicts_ok by done; apply sublist_filter).
  assert (Hlt : e.1 < e'.1).
  { pose proof (wf_sorted _ _ _ Hwf) as Hsort. apply list_elem_of_split in Hin as (l1 & l2 & ->).
    clear -Hsub Hsort. induction (inner ug) as [|x m IH]; [by apply sublist_nil_r in Hsub|].
    destruct Hsort as [Hge Hsort]. apply sublist_cons_r in Hsub as [Hsub|(l' & [= <- <-] & Hsub)]; [by apply IH|].
    assert (Hin : e' ∈ m). { eapply elem_of_submseteq; [|by apply sublist_submseteq]. set_solver. }
    pose proof (keys_ge_elem _ _ _ Hge Hin). lia. }
  destruct (wf_elem _ _ _ _ Hwf He) as (? & ? & ?). destruct (wf_elem _ _ _ _ Hwf He') as (? & ? & ?).
  assert (e = e'); [|subst; lia]. eapply (covers_unique _ _ _ _ _ e'.1 Hwf); [done|done| |];
    unfold covers, e_end in *; lia.
Qed.

Lemma munmap_loop_ok dbg other sid : strict other -> forall fuel k a s files,
  KInv other sid k a -> GrantsSpec.Inv (grants a) -> Sane (grants a) -> span_ok s ->
  (forall p x, in_span p s -> gview (grants a) p = Some x -> plain x) ->
  (ends_above (span_base s) (inner (grants a)) < fuel)%nat ->
  exists k' a' files', munmap_loop dbg fuel sid s false files k = Done (Ok (files ++ files'), k') /\
    unmapped other sid k k' a a' s.
Proof.
  intros Ho. induction fuel as [|fuel IH]; intros k a s files HK HI Hsane Hs Hplain Hfuel; [lia|].
  pose proof HK as [Hks _]. destruct (UserGrants_conflicts (grants a) s) as [|e cs] eqn:Hcs.
  - exists k, a, []. rewrite app_nil_r. split; [by eapply munmap_loop_nil|].
    rewrite conflicts_nil in Hcs by done. split; try done; intros p.
    + case_decide; [by apply Hcs|done].
    + rewrite decide_False; [done|]. intros [Hp [x Hx]]. rewrite Hcs in Hx; done.
  - destruct (conflict_head _ _ _ _ HI Hs Hcs) as (He & (p0 & Hp0 & Hc0) & Hgap).
    assert (Hord : ordinary e.2).
    { eapply (plain_ordinary e p0), (Hplain p0); [done|]. by apply covers_view. }
    destruct (munmap_round dbg other sid fuel k a s files e cs HK Ho HI Hsane Hs Hcs Hord) as
      (k1 & a1 & files1 & Hrun & HK1 & HI1 & Hu1 & Hm1 & Hv1 & Ht1 & Hf1 & Hc1 & Hn1). rewrite Hrun.
    assert (Hsane1 : Sane (grants a1)) by (eapply Sane_shrink; [exact Hv1|done]).
    assert (Hfuel1 : (0 < fuel)%nat).
    { assert (0 < ends_above (span_base s) (inner (grants a)))%nat; [|lia].
      apply list_elem_of_split in He as (m1 & m2 & ->). rewrite ends_above_app, ends_above_cons, decide_True; [lia|].
      unfold in_span, covers in *. lia. }
    destruct (Z.ltb_spec (e_end e) (span_end s)) as [Hlt|Hge].
    + set (s' := mkPageSpan (e_end e) (span_end s - e_end e)).
      assert (He0 : 0 <= e_end e).
      { destruct (wf_elem _ _ _ _ (inv_wf _ HI) He) as (? & ? & ?). unfold e_end. lia. }
      assert (Hs' : span_ok s').
      { destruct Hs as (? & ? & ?). unfold span_end in Hlt. split; [done|]. unfold s', span_end. simpl. lia. }
      assert (Es' : forall p, in_span p s' <-> e_end e <= p < span_end s).
      { intros p. unfold s', in_span, span_end. simpl. lia. }
      assert (Hsub : forall p, in_span p s' -> in_span p s /\ ~ covers e p).
      { intros p Hp%Es'. unfold in_span, covers in *. lia. }
      destruct (IH k1 a1 s' (files ++ files1) HK1 HI1 Hsane1 Hs') as (k2 & a2 & files2 & Hrun2 & Hum).
      { intros p x Hp Hx. destruct (Hsub p Hp) as [Hps Hnc]. rewrite Hv1, decide_False in Hx by tauto. by eapply Hplain. }
      { specialize (Hn1 Hlt). simpl. lia. }
      exists k2, a2, (files1 ++ files2). rewrite app_assoc. split; [done|]. destruct Hum as [U1 U2 U3 U4 U5 U6 U7 U8].
      assert (Hcase : forall p, in_span p s -> in_span p s' \/ covers e p \/ (gview (grants a) p = None /\ ~ covers e p)).
      { intros p Hp. destruct (decide (covers e p)); [by auto|]. destruct (decide (e_end e <= p)).
        - left. apply Es'. unfold in_span in Hp. lia.
        - right; right. split; [|done]. apply Hgap; [unfold in_span in Hp; lia|done]. }
      split; try done; try congruence; [..|by transitivity k1].
      * intros p. rewrite U5, Hv1. specialize (Hcase p). specialize (Hsub p).
        repeat case_decide; try tauto; destruct Hcase as [|[|[? ?]]]; tauto || done.
      * intros p. rewrite U6, Hv1, Ht1. specialize (Hcase p). specialize (Hsub p).
        destruct (decide (in_span p s /\ covers e p)) as [[Hp Hc]|Hn].
        { rewrite (covers_view _ _ _ HI He Hc).
          rewrite (decide_True (P := in_span p s /\ is_Some (Some (attr_at e p)))) by (split; [done|by eexists]).
          by case_decide. }
        destruct (decide (in_span p s /\ is_Some (gview (grants a) p))) as [[Hp Hsome]|Hn2]; case_decide as Hd; try done.
        { exfalso. destruct (Hcase Hp) as [|[|[Hnone _]]]; [tauto|tauto|]. rewrite Hnone in Hsome. by destruct Hsome. }
        { exfalso. tauto. }
    + destruct fuel as [|fuel]; [lia|]. exists k1, a1, files1. split.
      { eapply munmap_loop_nil; [apply HK1|]. apply conflicts_nil; [done|by vm_compute|].
        intros p Hp. unfold in_span, span_end in Hp. simpl in Hp. lia. }
      assert (Hcase : forall p, in_span p s -> covers e p \/ (gview (grants a) p = None /\ ~ covers e p)).
      { intros p Hp. destruct (decide (covers e p)); [by left|right]. split; [|done].
        apply Hgap; [unfold in_span in Hp; lia|done]. }
      split; try done.
      * intros p. rewrite Hv1. specialize (Hcase p). repeat case_decide; try tauto;
          destruct Hcase as [|[? ?]]; tauto || done.
      * intros p. rewrite Ht1. specialize (Hcase p).
        destruct (decide (in_span p s /\ covers e p)) as [[Hp Hc]|Hn].
        { rewrite (covers_view _ _ _ HI He Hc). rewrite decide_True; [done|]. split; [done|by eexists]. }
        rewrite decide_False; [done|]. intros [Hp Hsome]. destruct (Hcase Hp) as [|[Hnone _]]; [tauto|].
        rewrite Hnone in Hsome. by destruct Hsome.
Qed.

(** ** Mapping *)

Lemma map_phys_ok other sid k a p f fl : KInv (bump f 1 other) sid k a -> strict other ->
  0 <= p < USER_END_PAGE -> pt_translate (utable a) (p * PAGE_SIZE) = None ->
  map_phys sid (p * PAGE_SIZE) f fl k = Done (None, k) /\ pt_map_phys (utable a) (p * PAGE_SIZE) f fl = None \/
  exists t', map_phys sid (p * PAGE_SIZE) f fl k =
      Done (Some tt, set_spaces (<[sid := set_utable t' a]> (spaces k)) k) /\
    table_change (utable a) t' p (Some (f, fl)) /\
    KInv other sid (set_spaces (<[sid := set_utable t' a]> (spaces k)) k) (set_utable t' a).
Proof.
  intros HK Ho Hp Hn. pose proof HK as [Hs _]. unfold map_phys. rewrite (bind_Done _ _ _ _ _ (get_space_run _ _ _ Hs)).
  destruct (pt_map_phys (utable a) (p * PAGE_SIZE) f fl) as [t'|] eqn:Em; [right|by left].
  assert (Hch : table_change (utable a) t' p (Some (f, fl))).
  { intros p'. rewrite (translate_map _ _ _ _ _ _ (page_addr_aligned p) (page_addr_aligned p') Em).
    destruct (decide (p' * PAGE_SIZE = p * PAGE_SIZE)) as [E|E], (decide (p' = p)) as [E'|E']; try done;
      exfalso; unfold PAGE_SIZE in *; lia. }
  exists t'. split_and!; [done|done|]. eapply (table_change_inv _ _ _ _ _ _ _ HK Hch); [done|by apply strict_weak|].
  intros g. rewrite ind_None by (unfold frame_at; by rewrite Hn). rewrite (ind_Some _ f) by done.
  unfold bump. case_decide; lia.
Qed.

(** Run an allocator step that changes the ledger. *)
Lemma with_mem_KInv other other' sid k a m' : KInv other sid k a ->
  weak other' (utable a) -> acct m' (ledger other' (utable a) (pagequeue a)) ->
  KInv other' sid (set_mem m' k) a.
Proof. intros [Hs [_ _ Hq]] Ho Ha. split; [done|by split]. Qed.

Lemma ledger_bump other t q f d g : bump f d (ledger other t q) g = ledger (bump f d other) t q g.
Proof. unfold bump, ledger. case_decide; lia. Qed.

Lemma bump_strict other f d : 0 <= d -> strict other -> strict (bump f d other).
Proof. intros Hd Ho g. unfold bump. specialize (Ho g). case_decide; lia. Qed.

(** *** The shared zeroed frame *)

(** The zeroed frame has an outside reference, is not shared, and its count
    leaves room for [n] more references. *)
Definition zero_ok (other : Z -> Z) (k : Kernel) (a : AddrSpace) (z : Frame) (n : Z) : Prop :=
  locate (sections (mem k)) z <> None /\ 0 < other z /\ ~ shared (mem k) z /\
  ledger other (utable a) (pagequeue a) z + n <= RC_MAX.

Lemma zero_add_ref other sid k a z r n : KInv other sid k a -> strict other -> zero_ok other k a z (n + 1) -> 0 <= n ->
  locate (sections (mem k)) z = Some r ->
  exists m', with_mem (with_info r (add_ref RefKind_Cow)) k = Done (Ok tt, set_mem m' k) /\ quiet (mem k) m' /\
    contents m' = contents (mem k) /\ calm other k (set_mem m' k) /\ KInv (bump z 1 other) sid (set_mem m' k) a.
Proof.
  intros HK Ho (Hl & Hz & Hsh & Hroom) Hn Hr. pose proof HK as [_ [Ha _ _]].
  assert (Hpos : 0 < ledger other (utable a) (pagequeue a) z).
  { unfold ledger. pose proof (mapcount_nonneg (utable a) z). pose proof (pend_nonneg (pagequeue a) z). lia. }
  destruct (acct_add_ref _ _ z r RefKind_Cow Ha Hr Hpos) as (p & rc & Hp & Hc & Hcnt & Hadd).
  assert (Hns : rc_shared rc = false).
  { destruct (rc_shared rc) eqn:E; [|done]. destruct Hsh. exists p, rc. split; [exact Hp|]. split; [exact Hc|exact E]. }
  assert (exists rc2, spec_add_ref rc RefKind_Cow = Ok rc2 /\ rc_shared rc2 = false) as (rc2 & E2 & Hs2).
  { assert (Hlt : rc_count rc < RC_MAX) by lia. clear -Hns Hlt. destruct rc as [|c|c]; [by exists (RefCount_Cow 2)|done|].
    simpl in *. destruct (Z.leb_spec RC_MAX c); [lia|by exists (RefCount_Cow (c + 1))]. }
  rewrite E2 in Hadd. destruct Hadd as (m' & Hrun & Hq & Hct & (p2 & Hp2 & Hc2) & Ha' & Hkeep).
  exists m'. unfold with_mem. rewrite Hrun. split_and!; [done|done|done| |].
  - intros g Hg. simpl. destruct (decide (g = z)) as [->|Hne].
    + intros (q & rq & Hq' & [_ Hcq] & Hsq). destruct Hc2 as [_ Hc2]. congruence.
    + apply shared_same. apply Hkeep; [done|]. unfold ledger. pose proof (mapcount_nonneg (utable a) g).
      pose proof (pend_nonneg (pagequeue a) g). lia.
  - eapply with_mem_KInv; [done|by apply strict_weak, bump_strict|]. eapply acct_ext; [|exact Ha'].
    intros g. by rewrite ledger_bump.
Qed.

Definition zero_page (dbg : bool) (sid : Z) (z : Frame) (r : InfoRef) (fl : PageFlags) (page : Page)
  : M Kernel (flow unit) :=
  let! r := with_mem (with_info r (add_ref RefKind_Cow)) in
  match r with
  | Err _ => panic
  | Ok _ =>
      let! m := map_phys sid (Page_start_address page) z fl in
      match m with
      | None => ret Break
      | Some _ => Flusher_queue dbg sid z None TLB_NEW_MAPPING ;;; ret Next
      end
  end.

(** A table that gained [fl]-mappings of [z] at the pages of [ps]. *)
Definition table_gained (t t' : PageTable) (ps : list Z) (z : Frame) (fl : PageFlags) : Prop :=
  forall p, pt_translate t' (p * PAGE_SIZE) =
    if decide (p ∈ ps) then Some (z, fl) else pt_translate t (p * PAGE_SIZE).

Lemma zero_page_ok dbg other sid k a z r fl p n : KInv other sid k a -> strict other ->
  zero_ok other k a z (n + 1) -> 0 <= n -> locate (sections (mem k)) z = Some r ->
  0 <= p < USER_END_PAGE -> pt_translate (utable a) (p * PAGE_SIZE) = None ->
  exists k' a' (b : bool), zero_page dbg sid z r fl p k = Done (if b then Next else Break, k') /\
    KInv (if b then other else bump z 1 other) sid k' a' /\ same_meta a a' /\
    table_gained (utable a) (utable a') (if b then [p] else []) z fl /\ frame_rule sid k k' /\
    contents (mem k') = contents (mem k) /\
    if b then zero_ok other k' a' z n else pt_map_phys (utable a') (p * PAGE_SIZE) z fl = None.
Proof.
  intros HK Ho Hzo Hn Hr Hp Hnone. unfold zero_page.
  destruct (zero_add_ref _ _ _ _ _ _ _ HK Ho Hzo Hn Hr) as (m1 & Hrun & Hq1 & Hc1 & Hcalm1 & HK1).
  rewrite (bind_Done _ _ _ _ _ Hrun). rewrite start_address_user by done.
  assert (Hf1 : frame_rule sid k (set_mem m1 k)) by (by split).
  destruct (map_phys_ok other sid _ a p z fl HK1 Ho Hp Hnone) as [[Hm Hmn]|(t' & Hm & Hch & HK2)]; rewrite (bind_Done _ _ _ _ _ Hm).
  - exists (set_mem m1 k), a, false. split_and!; done.
  - destruct (queue_ok' dbg other sid _ (set_utable t' a) z TLB_NEW_MAPPING (strict_weak _ _ Ho) HK2) as
      (k3 & a3 & Hq & HK3 & Hcore & Hf3 & Hc3 & Hcalm3 & Hpd). rewrite (bind_Done _ _ _ _ _ Hq).
    assert (Hfr : frame_rule sid k k3).
    { etransitivity; [exact Hf1|]. etransitivity; [apply frame_rule_put|exact Hf3]. }
    exists k3, a3, true. split_and!; [done|done| | |done| |].
    + apply same_core_meta in Hcore. by transitivity (set_utable t' a).
    + intros p'. rewrite (sc_table _ _ Hcore). simpl. rewrite Hch.
      repeat case_decide; try done; set_solver.
    + rewrite Hc3. exact Hc1.
    + destruct Hzo as (Hz1 & Hz2 & Hz3 & Hz4). split_and!; [by rewrite (q_locate _ _ (fr_quiet _ _ _ Hfr))|done| |].
      * intros Hsh. by apply Hz3, Hcalm1, Hcalm3.
      * unfold ledger in *. rewrite (sc_table _ _ Hcore). specialize (Hpd z).
        change (frees TLB_NEW_MAPPING) with false in Hpd. simpl in Hpd |- *.
        rewrite (table_change_count _ _ _ _ z Hch Hp). unfold ind. repeat case_decide; lia.
Qed.

Lemma zero_loop_ok dbg sid z r fl other ps : strict other -> forall k a, KInv other sid k a ->
  zero_ok other k a z (Z.of_nat (length ps)) -> locate (sections (mem k)) z = Some r -> NoDup ps ->
  (forall p, p ∈ ps -> 0 <= p < USER_END_PAGE /\ pt_translate (utable a) (p * PAGE_SIZE) = None) ->
  exists k' a' (n : nat), for_flow ps (zero_page dbg sid z r fl) k = Done (None, k') /\
    KInv (if decide (n < length ps)%nat then bump z 1 other else other) sid k' a' /\ same_meta a a' /\
    table_gained (utable a) (utable a') (take n ps) z fl /\ frame_rule sid k k' /\ contents (mem k') = contents (mem k) /\
    (n <= length ps)%nat /\ (forall p, ps !! n = Some p -> pt_map_phys (utable a') (p * PAGE_SIZE) z fl = None).
Proof.
  intros Ho. induction ps as [|p ps IH]; intros k a HK Hz Hr Hnd Hps.
  - exists k, a, 0%nat. split; [reflexivity|]. split; [exact HK|]. split; [reflexivity|]. split; [intros p; reflexivity|].
    split_and!; [reflexivity|reflexivity|done|done].
  - destruct (Hps p ltac:(set_solver)) as [Hp Hnone]. apply NoDup_cons in Hnd as [Hnin Hnd].
    destruct (zero_page_ok dbg other sid k a z r fl p (Z.of_nat (length ps)) HK Ho) as
      (k1 & a1 & b & Hrun & HK1 & Hm1 & Ht1 & Hf1 & Hc1 & Hz1); [|lia|done|done|done|].
    { destruct Hz as (Hz1 & Hz2 & Hz3 & Hz4). cbn [length] in Hz4. rewrite Nat2Z.inj_succ in Hz4.
      split; [exact Hz1|]. split; [exact Hz2|]. split; [exact Hz3|lia]. }
    cbn [for_flow]. rewrite (bind_Done _ _ _ _ _ Hrun). destruct b.
    + destruct (IH k1 a1 HK1 Hz1) as (k2 & a2 & n & Hrun2 & HK2 & Hm2 & Ht2 & Hf2 & Hc2 & Hn2 & Hstop); [|done| |].
      { by rewrite (q_locate _ _ (fr_quiet _ _ _ Hf1)). }
      { intros p' Hp'. destruct (Hps p' ltac:(set_solver)) as [? Hn']. split; [done|].
        rewrite Ht1, decide_False; [done|]. set_solver. }
      exists k2, a2, (S n). split_and!; [done| |by transitivity a1| |by transitivity k1|congruence|simpl; lia|done].
      * simpl. destruct (decide (n < length ps)%nat), (decide (S n < S (length ps))%nat); [exact HK2|lia|lia|exact HK2].
      * intros p'. rewrite Ht2, Ht1. simpl. repeat case_decide; try done; set_solver.
    + exists k1, a1, 0%nat. split_and!; try done; [simpl; lia|]. by intros p' [= <-].
Qed.

(** The pages [zeroed] maps at once: the first sixteen of its span. *)
Definition eager (n : Z) : Z := Z.min n 16.

Lemma eager_pages s : span_ok s ->
  let ps := take ZEROED_MAX_EAGER_PAGES (PageSpan_pages s) in
  Z.of_nat (length ps) = eager (span_count s) /\
  (forall n p, (n <= length ps)%nat -> p ∈ take n ps <-> span_base s <= p < span_base s + Z.of_nat n) /\
  (forall n, (n < length ps)%nat -> ps !! n = Some (span_base s + Z.of_nat n)).
Proof.
  intros (H1 & H2 & H3) ps.
  assert (Hl : Z.of_nat (length ps) = eager (span_count s)).
  { unfold ps, PageSpan_pages, eager, ZEROED_MAX_EAGER_PAGES. rewrite length_take, length_map, length_seq. lia. }
  assert (Hnth : forall n, (n < length ps)%nat -> ps !! n = Some (span_base s + Z.of_nat n)).
  { intros n Hn. unfold ps, PageSpan_pages in *. rewrite length_take, length_map, length_seq in Hn.
    rewrite lookup_take_lt by lia. rewrite list_lookup_fmap, lookup_seq_lt by lia. simpl. f_equal.
    unfold span_end in *. rewrite page_next_by_ok by pages. lia. }
  split_and!; [done| |done]. intros n p Hn. rewrite list_elem_of_lookup. split.
  - intros (i & [Hi Hlt]%lookup_take_Some). rewrite Hnth in Hi by (apply lookup_lt_Some in Hi; lia). injection Hi as <-. lia.
  - intros Hp. exists (Z.to_nat (p - span_base s)). rewrite lookup_take_lt, Hnth by lia. f_equal. lia.
Qed.

(** [Grant::zeroed] on pages that are not mapped. *)
Lemma zeroed_ok dbg other sid k a s fl shared_ z : KInv other sid k a -> strict other -> span_ok s ->
  the_zeroed_frame (mem k) = Some z -> zero_ok other k a z (Z.of_nat ZEROED_MAX_EAGER_PAGES) ->
  (forall p, in_span p s -> pt_translate (utable a) (p * PAGE_SIZE) = None) ->
  exists k' a' m,
    zeroed dbg s fl sid shared_ k = Done (Ok (mkGrant (span_base s) (mkGrantInfo (span_count s) fl true
      (if shared_ then AllocatedShared false else Allocated None false))), k') /\
    0 <= m <= eager (span_count s) /\
    KInv (if decide (m < eager (span_count s)) then bump z 1 other else other) sid k' a' /\ same_meta a a' /\
    (forall p, pt_translate (utable a') (p * PAGE_SIZE) =
       if decide (span_base s <= p < span_base s + m) then Some (z, pf_write false fl)
       else pt_translate (utable a) (p * PAGE_SIZE)) /\
    (m < eager (span_count s) -> pt_map_phys (utable a') ((span_base s + m) * PAGE_SIZE) z (pf_write false fl) = None) /\
    frame_rule sid k k' /\ contents (mem k') = contents (mem k).
Proof.
  intros HK Ho Hs Hz Hzo Hnone. unfold zeroed. rewrite (bind_Done (gets _) _ k (Some z) k) by (unfold gets; by rewrite Hz).
  cbn [unwrap]. rewrite bind_ret.
  destruct (locate (sections (mem k)) z) as [r|] eqn:Hr; [|by destruct Hzo].
  assert (Hgi : with_mem (get_page_info z) k = Done (Some r, k)).
  { unfold with_mem. rewrite get_page_info_eq, Hr. by destruct k. }
  rewrite (bind_Done _ _ _ _ _ Hgi). cbn [unwrap]. rewrite bind_ret.
  set (ps := take ZEROED_MAX_EAGER_PAGES (PageSpan_pages s)).
  assert (Hin : forall p, p ∈ ps -> in_span p s).
  { intros p Hp. apply pages_elem; [done|]. eapply elem_of_submseteq; [exact Hp|apply sublist_submseteq, sublist_take]. }
  destruct (zero_loop_ok dbg sid z r (pf_write false fl) other ps Ho k a HK) as (k' & a' & n & Hrun & HK' & Hm & Ht & Hf & Hc & Hn & Hstop).
  - destruct Hzo as (? & ? & ? & ?). split_and!; [congruence|done|done|].
    assert (length ps <= ZEROED_MAX_EAGER_PAGES)%nat by (unfold ps; rewrite length_take; lia). lia.
  - done.
  - unfold ps. eapply sublist_NoDup; [|apply sublist_take]. unfold PageSpan_pages. apply NoDup_fmap_2_strong; [|apply NoDup_seq].
    intros i j Hi%elem_of_seq Hj%elem_of_seq. destruct Hs as (? & ? & ?). rewrite !page_next_by_ok by pages. lia.
  - intros p Hp%Hin. split; [|by apply Hnone]. destruct Hs as (? & ? & ?). unfold in_span, span_end in Hp. lia.
  - rewrite (bind_Done (for_flow _ _) _ _ _ _ Hrun).
    destruct (eager_pages s Hs) as (Hlen & Htake & Hnth). fold ps in Hlen, Htake, Hnth.
    exists k', a', (Z.of_nat n). split; [done|]. split; [lia|]. split_and!; [|done| | |done|done].
    + destruct (decide (n < length ps)%nat), (decide (Z.of_nat n < eager (span_count s)));
        [exact HK'|lia|lia|exact HK'].
    + intros p. rewrite Ht. specialize (Htake n p Hn). repeat case_decide; tauto || done.
    + intros Hlt. apply Hstop, Hnth. lia.
Qed.

(** ** The theorems *)

(** Only granted pages are mapped. *)
Definition TableInv (a : AddrSpace) : Prop :=
  forall p, gview (grants a) p = None -> pt_translate (utable a) (p * PAGE_SIZE) = None.

(** A space all of whose structures are in order. *)
Record SpaceOk (other : Z -> Z) (sid : Z) (k : Kernel) (a : AddrSpace) : Prop := {
  so_inv : KInv other sid k a;
  so_other : strict other;
  so_grants : GrantsSpec.Inv (grants a);
  so_sane : Sane (grants a);
  so_table : TableInv a
}.

Lemma gview_bounds ug p x : GrantsSpec.Inv ug -> gview ug p = Some x -> 0 <= p < USER_END_PAGE.
Proof.
  intros [Hwf _] Hv. apply view_Some in Hv as (e & He & Hc & _). pose proof (wf_elem _ _ _ _ Hwf He).
  unfold covers in Hc. lia.
Qed.

Lemma munmap_inner_ok dbg other sid k a s : SpaceOk other sid k a -> span_ok s ->
  (forall p x, in_span p s -> gview (grants a) p = Some x -> plain x) ->
  exists k' a' files, munmap_inner dbg sid s false k = Done (Ok files, k') /\ unmapped other sid k k' a a' s.
Proof.
  intros [HK Ho HI Hsane _] Hs Hplain. unfold munmap_inner.
  rewrite (bind_Done _ _ _ _ _ (get_space_run _ _ _ (proj1 HK))).
  destruct (munmap_loop_ok dbg other sid Ho (S (length (inner (grants a)))) k a s [] HK HI Hsane Hs Hplain) as
    (k' & a' & files & Hrun & Hu).
  { unfold ends_above. pose proof (length_filter (fun e => span_base s < e_end e) (inner (grants a))). lia. }
  by exists k', a', files.
Qed.

(** C4: [munmap] of a span whose pages belong to ordinary grants (mapped, not
    pinned, not physically contiguous, not borrowed from another space)
    terminates without panic and succeeds, however the span cuts the grants.
    Afterwards no page of the span is granted or mapped, every other page
    keeps its grant attributes and its translation, the flusher's queue is
    empty, every reference of an unmapped page has been returned to the frame
    allocator (the ledger is exact again with the same outside references), a
    frame whose last reference this was lies in a free block of the allocator,
    and no other address space and no memory contents have changed. *)
Theorem munmap_correct dbg other sid k a s :
  SpaceOk other sid k a -> span_ok s ->
  (forall p x, in_span p s -> gview (grants a) p = Some x -> plain x) ->
  exists k' a' files, munmap dbg sid s false k = Done (Ok files, k') /\
    SpaceOk other sid k' a' /\ pagequeue a' = [] /\
    (forall p, gview (grants a') p = if decide (in_span p s) then None else gview (grants a) p) /\
    (forall p, pt_translate (utable a') (p * PAGE_SIZE) =
       if decide (in_span p s) then None else pt_translate (utable a) (p * PAGE_SIZE)) /\
    (forall f, locate (sections (mem k)) f <> None -> 0 < refs other a f -> refs other a' f = 0 ->
       available (mem k') f) /\
    frame_rule sid k k' /\ contents (mem k') = contents (mem k).
Proof.
  intros Hok Hs Hplain. destruct (munmap_inner_ok dbg other sid k a s Hok Hs Hplain) as (k1 & a1 & files & Hrun & [U1 U2 U3 U4 U5 U6 U7 U8]).
  destruct Hok as [HK Ho HI Hsane HT]. unfold munmap. rewrite (bind_Done _ _ _ _ _ Hrun).
  destruct (flush_ok dbg other sid k1 a1 U1) as (k2 & d & Hfl & HK2 & Hf2 & Hc2 & _). rewrite (bind_Done _ _ _ _ _ Hfl).
  assert (Ht : forall p, pt_translate (utable a1) (p * PAGE_SIZE) =
       if decide (in_span p s) then None else pt_translate (utable a) (p * PAGE_SIZE)).
  { intros p. rewrite U6. destruct (decide (in_span p s)) as [Hp|Hp]; [|rewrite decide_False by tauto; done].
    destruct (gview (grants a) p) as [x|] eqn:Hx; [by rewrite decide_True by (split; [done|by eexists])|].
    rewrite decide_False; [by apply HT|]. intros [_ [? ?]]. done. }
  exists k2, (set_queue [] d a1), files. split_and!; [done| |done|done|done| |by transitivity k1|congruence].
  2: { intros f. apply (acct_available _ _ _ _ f (si_acct _ _ _ (proj2 HK)) (si_acct _ _ _ (proj2 HK2))).
       apply (fr_quiet sid). by transitivity k1. }
  split; [done|done|done| |].
  - eapply Sane_shrink; [exact U5|done].
  - intros p. simpl. rewrite U5, Ht. destruct (decide (in_span p s)); [done|]. apply HT.
Qed.

Lemma page_flags_of fl : page_flags fl = pf_write (mf_contains fl PROT_WRITE)
    (pf_execute (mf_contains fl PROT_EXEC) (pf_user true pf_new)).
Proof. done. Qed.

(** The attribute of a fresh anonymous page. *)
Definition anon_attr (fl : MapFlags) (shared_ : bool) : Attr :=
  mkAttr (pf_data (page_flags fl)) true false (if shared_ then SrcShared else SrcAnon false).

(** Inserting a grant whose pages are free, at the end of a mapping operation. *)
Lemma insert_space other sid k a g : KInv other sid k a -> strict other -> GrantsSpec.Inv (grants a) -> Sane (grants a) ->
  span_ok (Grant_span g) -> 0 < page_count (info g) ->
  (forall p, in_span p (Grant_span g) -> gview (grants a) p = None) ->
  (forall p, gview (grants a) p = None -> ~ in_span p (Grant_span g) -> pt_translate (utable a) (p * PAGE_SIZE) = None) ->
  (forall p, in_span p (Grant_span g) -> src_ok (a_source (attr_at (base g, info g) p))) ->
  exists ug', with_grants sid (UserGrants_insert g) k =
      Done (tt, set_spaces (<[sid := set_grants ug' a]> (spaces k)) k) /\
    SpaceOk other sid (set_spaces (<[sid := set_grants ug' a]> (spaces k)) k) (set_grants ug' a) /\
    forall p, gview ug' p = if decide (in_span p (Grant_span g)) then Some (attr_at (base g, info g) p) else gview (grants a) p.
Proof.
  intros HK Ho HI Hsane Hs Hn Hfree HT Hsrc. destruct (insert_ok (grants a) g HI Hs Hn Hfree) as (ug' & Hr & HI' & Hv).
  exists ug'. split_and!; [by apply with_grants_run; [apply HK|]| |done].
  split; [by apply KInv_grants|done|done| |].
  - intros p x. simpl. rewrite Hv. case_decide; [intros [= <-]; by apply Hsrc|apply Hsane].
  - intros p. simpl. rewrite Hv. case_decide; [done|]. intros. by apply HT.
Qed.

(** The [n] pages at [x] are granted and the first [m] of them mapped read-only
    to the zeroed frame: as many as are mapped at once, unless the page tables
    ran out of memory at page [x + m], and only then does the reference just
    taken for that page stay behind.  Nothing else changed. *)
Record anon_mapped (other : Z -> Z) (sid : Z) (k k' : Kernel) (a a' : AddrSpace) (x n : Z)
    (fl : MapFlags) (shared_ : bool) (z : Frame) (m : Z) : Prop := {
  am_space : SpaceOk (if decide (m < eager n) then bump z 1 other else other) sid k' a';
  am_range : 0 <= m <= eager n;
  am_stop : m < eager n -> pt_map_phys (utable a') ((x + m) * PAGE_SIZE) z (pf_write false (page_flags fl)) = None;
  am_grants : forall p, gview (grants a') p =
    if decide (x <= p < x + n) then Some (anon_attr fl shared_) else gview (grants a) p;
  am_table : forall p, pt_translate (utable a') (p * PAGE_SIZE) =
    if decide (x <= p < x + m) then Some (z, pf_write false (page_flags fl)) else pt_translate (utable a) (p * PAGE_SIZE);
  am_queue : pagequeue a' = [];
  am_frame : frame_rule sid k k';
  am_contents : contents (mem k') = contents (mem k)
}.

(** Anonymous [mmap] where the kernel chooses the address. *)
Lemma mmap_zeroed_ok dbg other sid k a n fl shared_ z minp :
  SpaceOk other sid k a -> 0 < n <= USER_END_PAGE ->
  mmap_min a = minp * PAGE_SIZE -> 0 <= minp <= USER_END_PAGE ->
  the_zeroed_frame (mem k) = Some z -> zero_ok other k a z (Z.of_nat ZEROED_MAX_EAGER_PAGES) ->
  let r := mmap dbg sid None n fl (fun page pfl => zeroed dbg (PageSpan_new page n) pfl sid shared_) k in
  (r = Done (([], Err ENOMEM), k) /\ forall y, minp <= y -> ~ free_at (grants a) y n) \/
  (exists x k' a' m, r = Done (([], Ok x), k') /\ minp <= x /\ free_at (grants a) x n /\
     (forall y, minp <= y -> free_at (grants a) y n -> x <= y) /\
     anon_mapped other sid k k' a a' x n fl shared_ z m).
Proof.
  intros [HK Ho HI Hsane HT] Hn Hmin Hminp Hz Hzo r. subst r. unfold mmap.
  rewrite (bind_Done _ _ _ _ _ (get_space_run _ _ _ (proj1 HK))). rewrite bind_ret. rewrite Hmin.
  pose proof (find_free_cases (grants a) minp n None HI Hminp Hn) as Hff. unfold UserGrants_find_free.
  destruct (UserGrants_find_free_near (grants a) (minp * PAGE_SIZE) n None) as [s|]; [right|by left].
  destruct Hff as (x & -> & Hx & (Hx0 & Hxn & Hfree) & Hlow). cbn [span_base]. unfold PageSpan_new.
  set (s := mkPageSpan x n).
  assert (Hs : span_ok s) by (unfold s, span_ok; simpl; lia).
  destruct (zeroed_ok dbg other sid k a s (page_flags fl) shared_ z HK Ho Hs Hz Hzo) as
    (k1 & a1 & m & Hrun & Hm & HK1 & [Hg1 Hu1 Hm1] & Ht1 & Hstop & Hf1 & Hc1).
  { intros p Hp. apply HT. apply Hfree. unfold in_span, span_end in Hp. simpl in Hp. lia. }
  rewrite (bind_Done _ _ _ _ _ Hrun).
  destruct (flush_ok dbg _ sid k1 a1 HK1) as (k2 & d & Hfl & HK2 & Hf2 & Hc2 & _). rewrite (bind_Done _ _ _ _ _ Hfl).
  set (g := mkGrant (span_base s) _).
  assert (Hattr : forall p, attr_at (base g, info g) p = anon_attr fl shared_).
  { intros p. unfold attr_at, anon_attr, g, is_pinned. simpl. by destruct shared_. }
  assert (Hmn : m <= n) by (unfold eager in Hm; simpl in Hm; lia).
  assert (Ho' : strict (if decide (m < eager n) then bump z 1 other else other)).
  { destruct (decide (m < eager n)); [apply bump_strict; [lia|done]|done]. }
  destruct (insert_space _ sid k2 (set_queue [] d a1) g HK2 Ho') as (ug' & Hins & Hok' & Hv'); simpl; rewrite ?Hg1; try done.
  { lia. }
  { intros p Hno Hnp. rewrite Ht1, decide_False; [by apply HT|]. intros Hp. apply Hnp.
    unfold in_span, span_end. simpl in *. lia. }
  { intros p _. by destruct shared_. }
  rewrite (bind_Done _ _ _ _ _ Hins).
  eexists x, _, _, m. split; [reflexivity|]. split; [done|]. split; [done|]. split; [done|].
  split; [exact Hok'|exact Hm|exact Hstop| |intros p; simpl; by rewrite Ht1|done| |].
  - intros p. simpl. rewrite Hv', Hattr. simpl. rewrite Hg1. unfold in_span, span_end. simpl. repeat case_decide; done || lia.
  - etransitivity; [exact Hf1|]. etransitivity; [exact Hf2|apply frame_rule_put].
  - simpl. congruence.
Qed.

(** C5: anonymous [mmap] without a requested address either reports ENOMEM,
    exactly when no range of that many free pages exists at or above
    [mmap_min], leaving everything unchanged, or succeeds at the lowest such
    range: the new pages are granted with the requested protection and nothing
    else in the grant tree changes, exactly the first sixteen of them are mapped
    at once, read-only and to the zeroed frame, every other translation is
    unchanged, and the ledger balances: one reference to the zeroed frame per
    page mapped and no other.  Only if the page tables run out of memory at one
    of these pages the mapping stops there, and the reference taken for that
    page is not returned. *)
Theorem mmap_anonymous_correct dbg other sid k a n fl shared_ z minp :
  SpaceOk other sid k a -> 0 < n <= USER_END_PAGE ->
  mmap_min a = minp * PAGE_SIZE -> 0 <= minp <= USER_END_PAGE ->
  the_zeroed_frame (mem k) = Some z -> zero_ok other k a z (Z.of_nat ZEROED_MAX_EAGER_PAGES) ->
  let r := mmap dbg sid None n fl (fun page pfl => zeroed dbg (PageSpan_new page n) pfl sid shared_) k in
  (r = Done (([], Err ENOMEM), k) /\ forall y, minp <= y -> ~ free_at (grants a) y n) \/
  (exists x k' a' m, r = Done (([], Ok x), k') /\ minp <= x /\ free_at (grants a) x n /\
     (forall y, minp <= y -> free_at (grants a) y n -> x <= y) /\
     anon_mapped other sid k k' a a' x n fl shared_ z m).
Proof. apply mmap_zeroed_ok. Qed.

End spec.

(** ** A concrete kernel *)

Module AddrSpaceWitnesses.
Import SimpleFlags.

Definition zf : Z := 0x400000.

(** The kernel holds no blocks of its own here. *)
#[export] Instance no_kernel_blocks : KernelBlocks := (∅ : gmap Z nat).

(** Four frames of memory, the first of them the zeroed frame. *)
Definition mem0 : Memory :=
  match init_frame false RefCount_One example_memory with
  | Done (Ok f, m) => set_zeroed_frame f m
  | _ => example_memory
  end.

Definition k0 : Kernel := mkKernel mem0 {[ 1 := AddrSpace_new ]} 0 [].
Definition held : Z -> Z := bump zf 1 (fun _ => 0).

Lemma mem0_eq f m : init_frame false RefCount_One example_memory = Done (Ok f, m) ->
  f = zf /\ mem0 = set_zeroed_frame f m.
Proof. intros H. unfold mem0. rewrite H. split; [|done]. revert H. vm_compute. by intros [= <- _]. Qed.

Lemma mem0_acct : acct mem0 held.
Proof.
  destruct (acct_init example_memory (fun _ => 0) RefCount_One (acct_kernel _ _ example_heap) I) as
    [[H _]|(f & m' & H & _ & _ & _ & _ & _ & _ & Ha & _)].
  - exfalso. revert H. vm_compute. discriminate.
  - destruct (mem0_eq _ _ H) as [-> ->]. apply acct_zeroed_frame. exact Ha.
Qed.

Lemma held_strict : strict held.
Proof. intros f. unfold held, bump. case_decide; lia. Qed.

Lemma gview_new p : gview UserGrants_new p = None.
Proof. done. Qed.

Lemma k0_ok : SpaceOk held 1 k0 AddrSpace_new.
Proof.
  split.
  - split; [apply lookup_singleton_eq|]. split.
    + eapply acct_ext; [|exact mem0_acct]. intros f. unfold ledger. cbn [utable AddrSpace_new pagequeue].
      rewrite mapcount_empty. unfold pend. simpl. lia.
    + apply strict_weak, held_strict.
    + by intros f c ?%not_elem_of_nil.
  - apply held_strict.
  - apply new_inv.
  - intros p x. by rewrite gview_new.
  - intros p _. done.
Qed.

Lemma zero_ok0 : zero_ok held k0 AddrSpace_new zf (Z.of_nat ZEROED_MAX_EAGER_PAGES).
Proof.
  split_and!.
  - vm_compute. discriminate.
  - unfold held. rewrite bump_eq. lia.
  - intros (p & rc & Hp & [_ Hc] & Hs). vm_compute in Hp. injection Hp as <-. vm_compute in Hc. by injection Hc as <-.
  - unfold ledger. cbn [utable AddrSpace_new pagequeue]. rewrite mapcount_empty. unfold held. rewrite bump_eq. vm_compute. discriminate.
Qed.

Definition prot_rw : @MapFlags map_flags_api := mf_of [PROT_READ; PROT_WRITE].
Definition mmap0 : M Kernel (list UnmapResult * result Error Page) :=
  mmap false 1 None 4 prot_rw
    (fun page pfl => zeroed false (PageSpan_new page 4) pfl 1 false).

Lemma free_at0 : free_at UserGrants_new 1 4.
Proof. split_and!; [done|done|]. intros. apply gview_new. Qed.

(** These page tables never run out of memory, so all four pages are mapped. *)
Lemma anon_mapped_all other sid k k' a a' x n fl shared_ z m :
  anon_mapped other sid k k' a a' x n fl shared_ z m -> m = eager n.
Proof.
  intros H. pose proof (am_range _ _ _ _ _ _ _ _ _ _ _ _ H). pose proof (am_stop _ _ _ _ _ _ _ _ _ _ _ _ H) as Hs.
  destruct (Z.lt_ge_cases m (eager n)) as [Hlt|]; [|lia]. by specialize (Hs Hlt).
Qed.

Lemma mmap_anonymous_correct_witness :
  exists x k' a', mmap0 k0 = Done (([], Ok x), k') /\ 1 <= x /\ free_at UserGrants_new x 4 /\
    anon_mapped held 1 k0 k' AddrSpace_new a' x 4 prot_rw false zf 4.
Proof.
  destruct (mmap_anonymous_correct false held 1 k0 AddrSpace_new 4 prot_rw false zf 1) as
    [[_ H]|(x & k' & a' & m & H1 & H2 & H3 & _ & H5)].
  - exact k0_ok.
  - split; [reflexivity|vm_compute; discriminate].
  - reflexivity.
  - split; [discriminate|vm_compute; discriminate].
  - vm_compute. reflexivity.
  - exact zero_ok0.
  - exfalso. exact (H 1 ltac:(lia) free_at0).
  - exists x, k', a'. rewrite (anon_mapped_all _ _ _ _ _ _ _ _ _ _ _ _ H5) in H5.
    exact (conj H1 (conj H2 (conj H3 H5))).
Defined.
End AddrSpaceWitnesses.
