(* ===== verification/PageFaultSpec.v ===== *)
(** * Correctness of page-fault handling

    Copy on write: after a write fault on a private page the page is mapped
    to a frame nobody else refers to, with the old contents, and nothing any
    other mapping can see has changed. *)

From S2P Require Import Prelude PageInfo FrameAllocator BuddyInvariant FrameAllocatorSpec FrameRefs.
From S2P Require Import Rmm OrdMap Grants GrantsSpec CpuSet AddrSpace AddrSpaceSpec PageFault.

Section spec.
Context {PFA : PageFlagsApi} {MFA : MapFlagsApi} {PMA : PageMapperApi} {PML : PageMapperLaws}.
Context {KB : KernelBlocks}.
Context (fmap_page : GrantFileRef -> Z -> MapFlags -> M Kernel (result PfError Frame)).

#[local] Opaque mapcount.

(** ** cow *)

(** [m'] holds at [f'] what [m] holds at [f], and the same elsewhere. *)
Definition copied (m m' : Memory) (f f' : Z) : Prop :=
  forall g, contents m' !! g = if decide (g = f') then contents m !! f else contents m !! g.

Lemma copied_refl m f : copied m m f f.
Proof. intros g. by destruct (decide (g = f)) as [->|]. Qed.

Lemma cow_ok m c f r z : acct m c -> locate (sections m) f = Some r -> 0 < c f ->
  the_zeroed_frame m = Some z -> contents m !! z = None ->
  exists p rc, pinfo m f = Some p /\ counts p rc /\ rc_count rc = c f /\
  if decide (rc = RefCount_One) then cow false f r RefKind_Cow m = Done (Ok (mkCowResult f None), m)
  else cow false f r RefKind_Cow m = Done (Err Oom, m) /\ exhausted m \/
    ~ exhausted m /\ exists f' m', cow false f r RefKind_Cow m = Done (Ok (mkCowResult f' (Some f)), m') /\
      quiet m m' /\ frame_addr f' /\ locate (sections m') f' <> None /\ c f' = 0 /\ copied m m' f f' /\
      acct m' (bump f' 1 c).
Proof.
  intros Ha Hr Hf Hz Hzc. pose proof Ha as (U & n & Hh & _ & Hc).
  destruct (proj2 (Hc f) Hf) as [_ [?|Hcf]]; [congruence|].
  destruct (counted_addr _ _ _ _ _ Hh Hcf) as (r' & p & rc & Hr' & Hp & Hct & Hn & _). simplify_eq.
  exists p, rc. split_and!; [done|done|done|]. unfold cow.
  rewrite (bind_Done _ _ _ _ _ (load_info_pinfo _ _ _ _ Hr Hp)). destruct Hct as [Hrange Hrc]. rewrite Hrc.
  rewrite (bind_Done (assert_ _) _ m tt m) by done.
  destruct (decide (rc = RefCount_One)) as [->|Hone]; [done|].
  assert (Hbody : match rc with RefCount_One => false | _ => true end = true) by (by destruct rc).
  assert (Hcow : forall x, (match rc with RefCount_One => x | _ =>
      let? new := init_frame false RefCount_One in
      let! zf := gets the_zeroed_frame in
      let! zf := unwrap zf in
      (if f =? zf then ret tt else copy_frame_to_frame_directly new f) ;;;
      ok (mkCowResult new (Some f)) end) m = (let? new := init_frame false RefCount_One in
      let! zf := gets the_zeroed_frame in
      let! zf := unwrap zf in
      (if f =? zf then ret tt else copy_frame_to_frame_directly new f) ;;;
      ok (mkCowResult new (Some f))) m) by (by destruct rc).
  rewrite Hcow. unfold bind_result.
  destruct (acct_init m c RefCount_One Ha I) as [[Hi Hx]|(f' & m1 & Hi & Hq & Hfa & Hl & Hc0 & Hpi & Hcont & Ha1 & Hx)].
  - left. by rewrite (bind_Done _ _ _ _ _ Hi).
  - right. split; [exact Hx|]. exists f'. rewrite (bind_Done _ _ _ _ _ Hi).
    rewrite (bind_Done (gets _) _ m1 (Some z) m1) by (unfold gets; by rewrite (q_zeroed _ _ Hq), Hz).
    cbn [unwrap]. rewrite bind_ret. destruct (Z.eqb_spec f z) as [->|Hfz].
    + exists m1. split_and!; try done. intros g. rewrite Hcont, Hzc.
      destruct (decide (g = f')) as [->|]; [by rewrite lookup_delete_eq|by rewrite lookup_delete_ne].
    + eexists. split; [reflexivity|]. split; [destruct Hq; by split|]. split_and!; try done.
      * intros g. simpl. rewrite Hcont. destruct (decide (g = f')) as [->|Hne].
        -- rewrite lookup_partial_alter_eq, lookup_delete_ne; [done|]. intros ->. lia.
        -- by rewrite lookup_partial_alter_ne, lookup_delete_ne by done.
      * by apply acct_contents.
Qed.

(** ** Steps *)

Lemma KInv_ext other other' sid k a : (forall g, other' g = other g) -> KInv other sid k a -> KInv other' sid k a.
Proof.
  intros E [Hs [Ha Hw Hq]]. split; [done|]. split; [| |done].
  - eapply acct_ext; [|exact Ha]. intros g. unfold ledger. by rewrite E.
  - intros g. rewrite E. apply Hw.
Qed.

Lemma SpaceOk_ext other other' sid k a : (forall g, other' g = other g) -> SpaceOk other sid k a -> SpaceOk other' sid k a.
Proof.
  intros E [HK Ho HI Hsane HT]. split; [by eapply KInv_ext|intros g; rewrite E; apply Ho|exact HI|exact Hsane|exact HT].
Qed.

(** Mapping over a page that is already mapped cannot fail, and exchanges the
    references of the two frames. *)
Lemma map_over_ok other sid k a p f0 fl0 f fl : KInv other sid k a -> 0 <= p < USER_END_PAGE ->
  pt_translate (utable a) (p * PAGE_SIZE) = Some (f0, fl0) ->
  exists t', map_phys sid (p * PAGE_SIZE) f fl k =
      Done (Some tt, set_spaces (<[sid := set_utable t' a]> (spaces k)) k) /\
    table_change (utable a) t' p (Some (f, fl)) /\
    KInv (bump f (-1) (bump f0 1 other)) sid (set_spaces (<[sid := set_utable t' a]> (spaces k)) k) (set_utable t' a).
Proof.
  intros HK Hp Ht. pose proof HK as [Hs [_ Hw _]]. unfold map_phys. rewrite (bind_Done _ _ _ _ _ (get_space_run _ _ _ Hs)).
  destruct (pt_map_phys (utable a) (p * PAGE_SIZE) f fl) as [t'|] eqn:Em.
  2: { by destruct (map_again _ _ _ _ _ (page_addr_aligned p) Ht Em). }
  assert (Hch : table_change (utable a) t' p (Some (f, fl))).
  { intros p'. rewrite (translate_map _ _ _ _ _ _ (page_addr_aligned p) (page_addr_aligned p') Em).
    unfold PAGE_SIZE. repeat case_decide; done || lia. }
  assert (Heq : forall g, bump f (-1) (bump f0 1 other) g =
            other g + ind (frame_at (utable a) p = Some g) - ind (fst <$> Some (f, fl) = Some g)).
  { intros g. rewrite (ind_Some _ f0) by (unfold frame_at; by rewrite Ht). rewrite (ind_Some _ f) by done.
    unfold bump. repeat case_decide; lia. }
  exists t'. split_and!; [done|done|]. eapply (table_change_inv _ _ _ _ _ _ _ HK Hch Hp); [|exact Heq].
  intros g. rewrite Heq, (table_change_count _ _ _ _ g Hch Hp). specialize (Hw g). lia.
Qed.

Lemma with_mem_run {A} (m : M Memory A) k x m' : m (mem k) = Done (x, m') -> with_mem m k = Done (x, set_mem m' k).
Proof. intros H. unfold with_mem. by rewrite H. Qed.

Lemma set_mem_same k : set_mem (mem k) k = k.
Proof. by destruct k. Qed.

(** A mapped frame is in the ledger. *)
Lemma translated_frame other sid k a p f fl : KInv other sid k a -> strict other -> 0 <= p < USER_END_PAGE ->
  pt_translate (utable a) (p * PAGE_SIZE) = Some (f, fl) ->
  0 < mapcount (utable a) f /\ frame_addr f /\ 0 < ledger other (utable a) (pagequeue a) f.
Proof.
  intros [Hs [Ha _ _]] Ho Hp Ht.
  assert (Hm : 0 < mapcount (utable a) f) by (eapply mapcount_pos; [exact Hp|unfold frame_at; by rewrite Ht]).
  assert (Hl : 0 < ledger other (utable a) (pagequeue a) f).
  { unfold ledger. pose proof (pend_nonneg (pagequeue a) f). specialize (Ho f). lia. }
  split; [exact Hm|]. split; [|exact Hl]. destruct Ha as (U & n & _ & _ & Hc). by apply (Hc f).
Qed.

(** The handler reads the faulting frame and its page info. *)
Lemma faulting_run k f : frame_addr f ->
  (let! f0 := containing f in let! i := with_mem (get_page_info f0) in ret (Some (f0, i))) k =
    Done (Some (f, locate (sections (mem k)) f), k).
Proof.
  intros [Hf Ha]. rewrite (bind_Done _ _ _ _ _ (containing_aligned f k Hf Ha)).
  rewrite (bind_Done _ _ _ _ _ (with_mem_run _ _ _ _ (get_page_info_eq f (mem k)))). by rewrite set_mem_same.
Qed.

(** Grants of memory the kernel itself allocates. *)
Definition private_grant (i : GrantInfo) : Prop :=
  match provider i with Allocated _ _ | AllocatedShared _ => True | _ => False end.

(** ** The outcome of a fault *)

(** The frames whose last reference went are in free blocks of the allocator. *)
Definition freed (other : Z -> Z) (k k' : Kernel) (a a' : AddrSpace) : Prop :=
  forall f, locate (sections (mem k)) f <> None -> 0 < refs other a f -> refs other a' f = 0 -> available (mem k') f.

Lemma freed_ok other sid k k' a a' : KInv other sid k a -> KInv other sid k' a' -> frame_rule sid k k' ->
  freed other k k' a a'.
Proof.
  intros [_ HK] [_ HK'] Hf f. apply (acct_available _ _ _ _ f (si_acct _ _ _ HK) (si_acct _ _ _ HK')).
  apply (fr_quiet _ _ _ Hf).
Qed.

(** Page [p] is now mapped to [f'] with flags [fl]; nothing else of the space
    changed, its queue is flushed and the ledger balances. *)
Record faulted (other : Z -> Z) (sid : Z) (k k' : Kernel) (a a' : AddrSpace) (p f' : Z) (fl : PageFlags) : Prop := {
  ft_space : SpaceOk other sid k' a';
  ft_meta : same_meta a a';
  ft_queue : pagequeue a' = [];
  ft_table : table_change (utable a) (utable a') p (Some (f', fl));
  ft_freed : freed other k k' a a';
  ft_frame : frame_rule sid k k'
}.

(** Nothing changed but the queue, which is flushed. *)
Record refused (other : Z -> Z) (sid : Z) (k k' : Kernel) (a a' : AddrSpace) : Prop := {
  rf_space : SpaceOk other sid k' a';
  rf_core : same_core a a';
  rf_queue : pagequeue a' = [];
  rf_freed : freed other k k' a a';
  rf_frame : frame_rule sid k k';
  rf_contents : contents (mem k') = contents (mem k)
}.

Lemma TableInv_change a a' p x g : GrantsSpec.Inv (grants a) -> TableInv a -> same_meta a a' ->
  gview (grants a) p = Some g -> table_change (utable a) (utable a') p x -> TableInv a'.
Proof.
  intros HI HT [Hg _ _] Hp Ht p'. rewrite Hg, Ht. case_decide; [subst; congruence|apply HT].
Qed.

(** The flush that ends every fault. *)
Lemma finish_fault other sid k k1 a a1 p f' fl g : SpaceOk other sid k a -> gview (grants a) p = Some g ->
  KInv other sid k1 a1 -> same_meta a a1 -> table_change (utable a) (utable a1) p (Some (f', fl)) ->
  frame_rule sid k k1 ->
  exists k' d, Flusher_flush false sid k1 = Done (tt, k') /\
    faulted other sid k k' a (set_queue [] d a1) p f' fl /\ contents (mem k') = contents (mem k1).
Proof.
  intros [HK Ho HI Hsane HT] Hg HK1 Hm Ht Hf.
  destruct (flush_ok false other sid k1 a1 HK1) as (k' & d & Hrun & HK' & Hf' & Hc & _).
  exists k', d. split_and!; [done| |done]. pose proof Hm as [Hm1 Hm2 Hm3]. assert (frame_rule sid k k') by (by transitivity k1).
  split; [|by split|done|done|by eapply freed_ok|done].
  split; [done|done|simpl; by rewrite Hm1|simpl; by rewrite Hm1|].
  eapply (TableInv_change a _ p (Some (f', fl)) g); [done|done|by split|done|done].
Qed.

Lemma refuse_fault other sid k a : SpaceOk other sid k a ->
  exists k' d, Flusher_flush false sid k = Done (tt, k') /\ refused other sid k k' a (set_queue [] d a).
Proof.
  intros [HK Ho HI Hsane HT]. destruct (flush_ok false other sid k a HK) as (k' & d & Hrun & HK' & Hf' & Hc & _).
  exists k', d. split; [done|]. split; [by split|by split|done|by eapply freed_ok|done|done].
Qed.

(** *** A write to a private page that is mapped *)

(** A write fault must copy: the frame has other references and is not
    counted as shared memory. *)
Definition cow_needed (other : Z -> Z) (k : Kernel) (a : AddrSpace) (f : Z) : Prop :=
  ~ shared (mem k) f /\ 1 < refs other a f.

Lemma shared_dec m f p rc : pinfo m f = Some p -> counts p rc -> shared m f <-> rc_shared rc = true.
Proof.
  intros Hp [Hr Hc]. split.
  - intros (p' & rc' & Hp' & [_ Hc'] & Hs). congruence.
  - intros Hs. by exists p, rc.
Qed.

Lemma mapcount_same t t' p f fl fl0 : table_change t t' p (Some (f, fl)) -> 0 <= p < USER_END_PAGE ->
  pt_translate t (p * PAGE_SIZE) = Some (f, fl0) -> forall g, mapcount t' g = mapcount t g.
Proof.
  intros Hch Hp Ht g. rewrite (table_change_count _ _ _ _ g Hch Hp).
  rewrite !(ind_Some _ f) by (done || (unfold frame_at; by rewrite Ht)). lia.
Qed.

Lemma cow_fault_alloc other sid k a p f fl r z fl' : SpaceOk other sid k a -> 0 <= p < USER_END_PAGE ->
  pt_translate (utable a) (p * PAGE_SIZE) = Some (f, fl) -> locate (sections (mem k)) f = Some r ->
  the_zeroed_frame (mem k) = Some z -> contents (mem k) !! z = None ->
  correct_allocated false sid p fl' AccessWrite (Some (f, Some r)) k = Done (Err Oom, k) /\
    cow_needed other k a f /\ exhausted (mem k) \/
  exists f' k1 a1, correct_allocated false sid p fl' AccessWrite (Some (f, Some r)) k = Done (Ok (f', true), k1) /\
    KInv (bump f' 1 (bump f (-1) other)) sid k1 a1 /\ same_core a a1 /\ frame_rule sid k k1 /\
    copied (mem k) (mem k1) f f' /\
    (~ cow_needed other k a f /\ f' = f /\ (~ shared (mem k) f -> mapcount (utable a) f + other f = 1) \/
     cow_needed other k a f /\ ~ exhausted (mem k) /\ f' <> f /\ refs other a f' = 0).
Proof.
  intros [HK Ho HI Hsane HT] Hp Ht Hr Hz Hzc. pose proof HK as [Hs [Ha Hw Hq]].
  destruct (translated_frame _ _ _ _ _ _ _ HK Ho Hp Ht) as (Hm & Hfa & Hl).
  destruct (cow_ok _ _ f r z Ha Hr Hl Hz Hzc) as (pi & rc & Hpi & Hct & Hn & Hcow).
  unfold correct_allocated.
  rewrite (bind_Done _ _ k pi k); [|by rewrite (with_mem_run _ _ _ _ (load_info_pinfo _ _ _ _ Hr Hpi)), set_mem_same].
  unfold allows_writable. rewrite (proj2 Hct). cbn [unwrap].
  match goal with |- context [bind (bind (ret ?x) ?f) ?g] => rewrite !(bind_assoc (ret x) f g) end. rewrite !bind_ret.
  rewrite bool_decide_true by done.
  pose proof (pend_nonneg (pagequeue a) f) as Hpn. pose proof (Ho f) as Hof.
  pose proof (copied_refl (mem k) f) as Hkeep.
  assert (HKf : KInv (bump f 1 (bump f (-1) other)) sid k a).
  { eapply KInv_ext; [|exact HK]. intros g. unfold bump. repeat case_decide; lia. }
  destruct rc as [|n|n]; cbn [bool_decide] in *.
  - right. exists f, k, a. split; [reflexivity|]. split; [exact HKf|]. split; [reflexivity|]. split; [reflexivity|]. split; [exact Hkeep|].
    cbn [rc_count] in Hn. left. split; [|split; [reflexivity|intros _; unfold ledger in Hn; lia]].
    intros [_ Hr1]. unfold refs in Hr1. lia.
  - right. exists f, k, a. split; [reflexivity|]. split; [exact HKf|]. split; [reflexivity|]. split; [reflexivity|]. split; [exact Hkeep|].
    assert (Hsh : shared (mem k) f) by (apply (shared_dec _ _ _ _ Hpi Hct); reflexivity).
    left. split; [intros [Hns _]; exact (Hns Hsh)|]. split; [reflexivity|intros Hns; destruct (Hns Hsh)].
  - rewrite decide_False in Hcow by done. unfold bind_result.
    assert (Hneed : cow_needed other k a f).
    { split; [intros Hsh%(shared_dec _ _ _ _ Hpi Hct); discriminate Hsh|]. unfold refs. pose proof (counts_valid _ _ Hct) as Hv.
      cbn [rc_count valid_rc] in *. lia. }
    destruct Hcow as [[Hoom Hx]|(Hx & f' & m' & Hrun & Hqu & Hfa' & Hloc & Hc0 & Hcp & Ha')].
    { left. rewrite (bind_Done _ _ _ _ _ (with_mem_run _ _ _ _ Hoom)), set_mem_same. split; [reflexivity|]. split; [exact Hneed|exact Hx]. }
    right. rewrite (bind_Done _ _ _ _ _ (with_mem_run _ _ _ _ Hrun)). cbn [old_frame new_frame].
    set (k0 := set_mem m' k). assert (Hf'0 : mapcount (utable a) f' + other f' = 0).
    { unfold ledger in Hc0. pose proof (mapcount_nonneg (utable a) f'). pose proof (pend_nonneg (pagequeue a) f').
      specialize (Ho f'). lia. }
    assert (Hne : f' <> f) by (intros ->; lia).
    assert (HK0 : KInv (bump f' 1 other) sid k0 a).
    { eapply with_mem_KInv; [exact HK|by apply strict_weak, bump_strict|]. eapply acct_ext; [|exact Ha'].
      intros g. by rewrite ledger_bump. }
    destruct (queue_ok' false (bump f' 1 (bump f (-1) other)) sid k0 a f TLB_FREE) as
      (k1 & a1 & Hqrun & HK1 & Hcore & Hf1 & Hcc & _ & _).
    { intros g. unfold bump. specialize (Hw g). repeat case_decide; subst; lia. }
    { change (frees TLB_FREE) with true. cbn [bool_decide]. eapply KInv_ext; [|exact HK0].
      intros g. unfold bump. repeat case_decide; subst; lia. }
    exists f', k1, a1. rewrite (bind_Done _ _ _ _ _ Hqrun). split; [reflexivity|]. split; [exact HK1|]. split; [exact Hcore|]. split; [|split].
    + etransitivity; [|exact Hf1]. split; [reflexivity|reflexivity|exact Hqu].
    + intros g. rewrite Hcc. apply Hcp.
    + right. split; [exact Hneed|]. split; [exact Hx|]. split; [exact Hne|exact Hc0].
Qed.

Definition denied (access : AccessMode) (i : GrantInfo) : bool :=
  match access with
  | AccessRead => false
  | AccessWrite => negb (has_write (flags i))
  | AccessInstrFetch => negb (has_execute (flags i))
  end.

Lemma contains_gview ug p gb gi : GrantsSpec.Inv ug -> UserGrants_contains ug p = Some (gb, gi) ->
  0 <= p < USER_END_PAGE /\ gview ug p = Some (attr_at (gb, gi) p).
Proof.
  intros HI Hc. apply contains_ok in Hc as [He Hc]; [|done]. pose proof (covers_view _ _ _ HI He Hc) as Hv.
  split; [by eapply gview_bounds|done].
Qed.

(** What the fault handler reads of the faulting page before it acts. *)
Definition faulting_of (k : Kernel) (a : AddrSpace) (p : Page) : option (Frame * option InfoRef) :=
  match pt_translate (utable a) (p * PAGE_SIZE) with
  | Some (f, _) => Some (f, locate (sections (mem k)) f)
  | None => None
  end.

(** A permitted fault in a private grant, up to choosing the frame. *)
Lemma correct_inner_private n other sid p access k a gb gi : SpaceOk other sid k a ->
  UserGrants_contains (grants a) p = Some (gb, gi) -> private_grant gi -> denied access gi = false ->
  correct_inner false fmap_page n sid p access k =
    (let! r := (let? '(frame, allow_writable) := correct_allocated false sid p (flags gi) access (faulting_of k a p) in
       let! m := map_phys sid (p * PAGE_SIZE) frame (pf_write (has_write (flags gi) && allow_writable) (flags gi)) in
       match m with None => err Oom | Some _ => ok frame end) in
     Flusher_flush false sid ;;; ret r) k.
Proof.
  intros [HK Ho HI _ _] Hg Hpg Hd. destruct (contains_gview _ _ _ _ HI Hg) as [Hp _].
  pose proof HK as [Hs [Ha _ _]].
  destruct n; unfold correct_inner at 1; fold (correct_inner false fmap_page).
  all: rewrite (bind_Done _ _ _ _ _ (get_space_run _ _ _ Hs)), Hg; apply bind_cong.
  all: change (match access with AccessRead => false | AccessWrite => negb (has_write (flags gi))
         | AccessInstrFetch => negb (has_execute (flags gi)) end) with (denied access gi); rewrite Hd.
  all: rewrite start_address_user by done; unfold translate; rewrite bind_assoc.
  all: rewrite (bind_Done _ _ _ _ _ (get_space_run _ _ _ Hs)), bind_ret; unfold faulting_of.
  all: destruct (pt_translate (utable a) (p * PAGE_SIZE)) as [[f fl]|] eqn:Ht.
  all: try rewrite (bind_Done _ _ _ _ _ (faulting_run k f (proj1 (proj2 (translated_frame _ _ _ _ _ _ _ HK Ho Hp Ht))))).
  all: try rewrite bind_ret.
  all: destruct (provider gi) eqn:Hpr; try done; unfold private_grant in Hpg; by rewrite Hpr in Hpg.
Qed.

Lemma unreferenced_zero other a f : strict other -> refs other a f = 0 -> mapcount (utable a) f + other f = 0.
Proof.
  intros Ho Hu. unfold refs, ledger in Hu. specialize (Ho f).
  pose proof (mapcount_nonneg (utable a) f). pose proof (pend_nonneg (pagequeue a) f). lia.
Qed.

Lemma cow_fault_ok n other sid p k a gb gi f fl z :
  SpaceOk other sid k a -> UserGrants_contains (grants a) p = Some (gb, gi) -> private_grant gi ->
  has_write (flags gi) = true ->
  pt_translate (utable a) (p * PAGE_SIZE) = Some (f, fl) -> locate (sections (mem k)) f <> None ->
  the_zeroed_frame (mem k) = Some z -> contents (mem k) !! z = None ->
  (cow_needed other k a f /\ exhausted (mem k) /\
   exists k' a', correct_inner false fmap_page n sid p AccessWrite k = Done (Err Oom, k') /\
     refused other sid k k' a a') \/
  (exists f' k' a', correct_inner false fmap_page n sid p AccessWrite k = Done (Ok f', k') /\
     faulted other sid k k' a a' p f' (pf_write true (flags gi)) /\ copied (mem k) (mem k') f f' /\
     (cow_needed other k a f /\ ~ exhausted (mem k) /\ f' <> f /\ refs other a f' = 0 /\ refs other a' f' = 1 \/
      ~ cow_needed other k a f /\ f' = f /\ (~ shared (mem k) f -> refs other a' f = 1))).
Proof.
  intros Hok Hg Hpg Hw Ht Hr Hz Hzc.
  destruct (contains_gview _ _ _ _ (so_grants _ _ _ _ Hok) Hg) as [Hp Hv].
  rewrite (correct_inner_private n other sid p AccessWrite k a gb gi Hok Hg Hpg) by (simpl; by rewrite Hw).
  unfold faulting_of. rewrite Ht. destruct (locate (sections (mem k)) f) as [r|] eqn:Hl; [clear Hr|done].
  rewrite Hw. cbn [andb].
  destruct (cow_fault_alloc other sid k a p f fl r z (flags gi) Hok Hp Ht Hl Hz Hzc) as
    [(Hoom & Hneed & Hx)|(f' & k1 & a1 & Hrun & HK1 & Hcore & Hf1 & Hcp & Hex)].
  - left. split; [exact Hneed|]. split; [exact Hx|]. destruct (refuse_fault other sid k a Hok) as (k' & d & Hfl & Href). exists k', (set_queue [] d a).
    split; [|exact Href]. unfold bind_result. rewrite bind_assoc, (bind_Done _ _ _ _ _ Hoom).
    unfold err. by rewrite bind_ret, (bind_Done _ _ _ _ _ Hfl).
  - right. assert (Ht1 : pt_translate (utable a1) (p * PAGE_SIZE) = Some (f, fl)) by (by rewrite (sc_table _ _ Hcore)).
    destruct (map_over_ok _ sid k1 a1 p f fl f' (pf_write true (flags gi)) HK1 Hp Ht1) as (t' & Hmap & Hch & HK2).
    rewrite (sc_table _ _ Hcore) in Hch.
    destruct (finish_fault other sid k (set_spaces (<[sid:=set_utable t' a1]> (spaces k1)) k1) a (set_utable t' a1) p f' (pf_write true (flags gi)) _ Hok Hv) as
      (k' & d & Hfl & Hft & Hcc).
    { eapply KInv_ext; [|exact HK2]. intros g. unfold bump. repeat case_decide; lia. }
    { apply same_core_meta in Hcore as [? ? ?]. by split. }
    { exact Hch. }
    { etransitivity; [exact Hf1|apply frame_rule_put]. }
    exists f', k', (set_queue [] d (set_utable t' a1)). split; [|split; [exact Hft|]].
    + unfold bind_result. rewrite bind_assoc, (bind_Done _ _ _ _ _ Hrun). rewrite bind_assoc, (bind_Done _ _ _ _ _ Hmap).
      unfold ok. by rewrite bind_ret, (bind_Done _ _ _ _ _ Hfl).
    + split; [intros g; rewrite Hcc; apply Hcp|]. unfold refs at 2 3, ledger. cbn [utable set_queue set_utable pagequeue].
      change (pend [] ?g) with 0.
      destruct Hex as [(Hnn & -> & Hone)|(Hneed & Hx & Hne & Hr0)].
      * right. split; [exact Hnn|]. split; [reflexivity|]. intros Hns. specialize (Hone Hns).
        rewrite (mapcount_same _ _ _ _ _ _ Hch Hp Ht). lia.
      * left. split; [exact Hneed|]. split; [exact Hx|]. split; [exact Hne|]. split; [exact Hr0|].
        rewrite (table_change_count _ _ _ _ f' Hch Hp), (ind_Some _ f) by (unfold frame_at; by rewrite Ht).
        rewrite (ind_Some _ f') by reflexivity. rewrite decide_False, decide_True by done.
        pose proof (unreferenced_zero _ _ _ (so_other _ _ _ _ Hok) Hr0). lia.
Qed.

(** C6: a write fault on a mapped page of a private grant that permits
    writing.  If the frame has other references and is not counted as shared
    memory, a free frame is taken, which nothing referred to before, the old
    contents are copied to it and the page is mapped to it writable, as its
    only reference, so the write that follows is invisible to everyone else;
    only if every free list is empty the fault reports out-of-memory and leaves
    the space as it was.  In the other cases the page is mapped writable to the
    frame it has: the frame is shared memory, or this is its only reference.
    No other page of the space, no other space and no other frame's contents
    change, the ledger stays exact, and a frame whose last reference went is
    free again. *)
Theorem cow_fault_correct n other sid p k a gb gi f fl z :
  SpaceOk other sid k a -> UserGrants_contains (grants a) p = Some (gb, gi) -> private_grant gi ->
  has_write (flags gi) = true ->
  pt_translate (utable a) (p * PAGE_SIZE) = Some (f, fl) -> locate (sections (mem k)) f <> None ->
  the_zeroed_frame (mem k) = Some z -> contents (mem k) !! z = None ->
  (cow_needed other k a f /\ exhausted (mem k) /\
   exists k' a', correct_inner false fmap_page n sid p AccessWrite k = Done (Err Oom, k') /\
     refused other sid k k' a a') \/
  (exists f' k' a', correct_inner false fmap_page n sid p AccessWrite k = Done (Ok f', k') /\
     faulted other sid k k' a a' p f' (pf_write true (flags gi)) /\ copied (mem k) (mem k') f f' /\
     (cow_needed other k a f /\ ~ exhausted (mem k) /\ f' <> f /\ refs other a f' = 0 /\ refs other a' f' = 1 \/
      ~ cow_needed other k a f /\ f' = f /\ (~ shared (mem k) f -> refs other a' f = 1))).
Proof. apply cow_fault_ok. Qed.

(** *** A page that is not mapped yet *)

Lemma init_space other sid k a : SpaceOk other sid k a ->
  with_mem (init_frame false RefCount_One) k = Done (Err Oom, k) /\ exhausted (mem k) \/
  ~ exhausted (mem k) /\ exists f' m', with_mem (init_frame false RefCount_One) k = Done (Ok f', set_mem m' k) /\
    refs other a f' = 0 /\ contents m' = delete f' (contents (mem k)) /\
    frame_rule sid k (set_mem m' k) /\ SpaceOk (bump f' 1 other) sid (set_mem m' k) a.
Proof.
  intros [HK Ho HI Hsane HT]. pose proof HK as [Hs [Ha _ Hq]].
  destruct (acct_init _ _ RefCount_One Ha I) as [[Hi Hx]|(f' & m' & Hi & Hqu & _ & _ & Hc0 & _ & Hct & Ha' & Hx)].
  - left. by rewrite (with_mem_run _ _ _ _ Hi), set_mem_same.
  - right. split; [exact Hx|]. exists f', m'. split; [by apply with_mem_run|]. split; [exact Hc0|]. split; [exact Hct|].
    split; [split; [reflexivity|reflexivity|exact Hqu]|]. assert (Hst : strict (bump f' 1 other)) by (apply bump_strict; [lia|exact Ho]).
    split; [|exact Hst|exact HI|exact Hsane|exact HT].
    eapply with_mem_KInv; [exact HK|by apply strict_weak|]. eapply acct_ext; [|exact Ha'].
    intros g. by rewrite ledger_bump.
Qed.

(** C30: a permitted fault on a page of a private grant that is not mapped yet
    takes a free frame to which nothing referred, zeroes it and maps the page
    to it with the grant's protection, as its only reference; no other page,
    space or frame changes.  It reports out-of-memory in two cases, and every
    mapping is then as before: when every free list is empty, with nothing
    changed, and when the page tables have no memory for the new mapping, and
    then the frame just taken stays counted and is lost. *)
Theorem demand_zero_fault_correct n other sid p access k a gb gi :
  SpaceOk other sid k a -> UserGrants_contains (grants a) p = Some (gb, gi) -> private_grant gi ->
  denied access gi = false -> pt_translate (utable a) (p * PAGE_SIZE) = None ->
  (exhausted (mem k) /\
   exists k' a', correct_inner false fmap_page n sid p access k = Done (Err Oom, k') /\ refused other sid k k' a a') \/
  (~ exhausted (mem k) /\ exists f' k' a', refs other a f' = 0 /\
     (pt_map_phys (utable a) (p * PAGE_SIZE) f' (flags gi) = None /\
      correct_inner false fmap_page n sid p access k = Done (Err Oom, k') /\
      SpaceOk (bump f' 1 other) sid k' a' /\ same_core a a' /\ frame_rule sid k k' /\
      contents (mem k') = delete f' (contents (mem k)) \/
      correct_inner false fmap_page n sid p access k = Done (Ok f', k') /\
      faulted other sid k k' a a' p f' (pf_write (has_write (flags gi)) (flags gi)) /\
      refs other a' f' = 1 /\ contents (mem k') = delete f' (contents (mem k)))).
Proof.
  intros Hok Hg Hpg Hd Ht.
  destruct (contains_gview _ _ _ _ (so_grants _ _ _ _ Hok) Hg) as [Hp Hv].
  rewrite (correct_inner_private n other sid p access k a gb gi Hok Hg Hpg Hd).
  unfold faulting_of. rewrite Ht. unfold correct_allocated, map_zeroed. rewrite start_address_user by exact Hp.
  destruct (init_space other sid k a Hok) as [[Hi Hx]|(Hx & f' & m' & Hi & Hu & Hct & Hf1 & Hok1)].
  { left. split; [exact Hx|]. destruct (refuse_fault other sid k a Hok) as (k' & d & Hfl & Href).
    exists k', (set_queue [] d a). split; [|exact Href].
    unfold bind_result. rewrite !bind_assoc, (bind_Done _ _ _ _ _ Hi). unfold err.
    rewrite !bind_ret. by rewrite (bind_Done _ _ _ _ _ Hfl). }
  right. split; [exact Hx|].
  destruct Hok1 as [HK1 Ho1 HI1 Hsane1 HT1].
  destruct (map_phys_ok other sid (set_mem m' k) a p f' (flags gi) HK1 (so_other _ _ _ _ Hok) Hp Ht) as
    [[Hm Hmn]|(t' & Hm & Hch & HK2)].
  - destruct (refuse_fault (bump f' 1 other) sid (set_mem m' k) a) as (k' & d & Hfl & [R1 R2 _ _ R4 R5]); [by split|].
    exists f', k', (set_queue [] d a). split; [exact Hu|]. left. split; [exact Hmn|]. split.
    { unfold bind_result. rewrite !bind_assoc, (bind_Done _ _ _ _ _ Hi), !bind_assoc, (bind_Done _ _ _ _ _ Hm). unfold err.
      rewrite !bind_ret. by rewrite (bind_Done _ _ _ _ _ Hfl). }
    split; [exact R1|]. split; [exact R2|].
    split; [by transitivity (set_mem m' k)|]. rewrite R5. exact Hct.
  - set (k1 := set_spaces _ (set_mem m' k)) in *. set (nf := pf_write (has_write (flags gi) && true) (flags gi)).
    assert (Ht1 : pt_translate (utable (set_utable t' a)) (p * PAGE_SIZE) = Some (f', flags gi)).
    { cbn [utable set_utable]. by rewrite Hch, decide_True. }
    destruct (map_over_ok other sid k1 (set_utable t' a) p f' (flags gi) f' nf HK2 Hp Ht1) as (t2 & Hm2 & Hch2 & HK3).
    set (k2 := set_spaces _ k1) in *. cbn [utable set_utable] in Hch2.
    assert (Hch3 : table_change (utable a) t2 p (Some (f', nf))).
    { intros p'. rewrite Hch2. case_decide; [reflexivity|]. by rewrite Hch, decide_False. }
    destruct (finish_fault other sid k k2 a (set_utable t2 (set_utable t' a)) p f' nf _ Hok Hv) as (k' & d & Hfl & Hft & Hcc).
    { eapply KInv_ext; [|exact HK3]. intros g. unfold bump. repeat case_decide; lia. }
    { by split. }
    { exact Hch3. }
    { etransitivity; [exact Hf1|]. etransitivity; [apply frame_rule_put|apply frame_rule_put]. }
    exists f', k', (set_queue [] d (set_utable t2 (set_utable t' a))). split; [exact Hu|]. right. split.
    { unfold bind_result. rewrite !bind_assoc, (bind_Done _ _ _ _ _ Hi), !bind_assoc, (bind_Done _ _ _ _ _ Hm). unfold ok.
      rewrite !bind_ret, !bind_assoc, (bind_Done _ _ _ _ _ Hm2), !bind_ret. by rewrite (bind_Done _ _ _ _ _ Hfl). }
    split; [|split; [|by rewrite Hcc]].
    { unfold nf in Hft. by rewrite andb_true_r in Hft. }
    unfold refs, ledger. cbn [utable set_queue set_utable pagequeue]. change (pend [] f') with 0. rewrite (table_change_count _ _ _ _ f' Hch3 Hp).
    rewrite ind_None by (unfold frame_at; by rewrite Ht). rewrite (ind_Some _ f') by reflexivity.
    rewrite decide_True by reflexivity. pose proof (unreferenced_zero _ _ _ (so_other _ _ _ _ Hok) Hu). lia.
Qed.

(** Unmapping the only mapping of a frame leaves no reference. *)
Lemma last_mapping other a a' s p f : strict other -> 0 <= p < USER_END_PAGE -> frame_at (utable a) p = Some f ->
  refs other a f = 1 -> pagequeue a' = [] -> (forall p', in_span p' s <-> p' = p) ->
  (forall p', pt_translate (utable a') (p' * PAGE_SIZE) =
     if decide (in_span p' s) then None else pt_translate (utable a) (p' * PAGE_SIZE)) ->
  0 < refs other a f /\ refs other a' f = 0.
Proof.
  intros Ho Hp Hf Hr Hq Hs Ht. split; [lia|].
  assert (Hch : mapcount (utable a') f = mapcount (utable a) f - 1).
  { rewrite (mapcount_change (utable a) (utable a') p None f Hp).
    - rewrite (ind_Some _ f) by exact Hf. rewrite decide_True, ind_None by reflexivity. lia.
    - intros p' _. unfold frame_at. rewrite Ht. specialize (Hs p'). repeat case_decide; reflexivity || tauto. }
  unfold refs, ledger in *. rewrite Hq, Hch. change (pend [] f) with 0.
  pose proof (pend_nonneg (pagequeue a) f). pose proof (mapcount_pos (utable a) p f Hp Hf).
  pose proof (Ho f). lia.
Qed.

(** *** Faults that are not permitted *)

(** A fault outside every grant, or with an access the grant's protection
    does not allow, is answered [Segv] and changes nothing but flushing the
    space's pending releases. *)
Theorem denied_fault_segv n other sid p access k a :
  SpaceOk other sid k a ->
  match UserGrants_contains (grants a) p with None => True | Some (_, gi) => denied access gi = true end ->
  exists k' a', correct_inner false fmap_page n sid p access k = Done (Err Segv, k') /\ refused other sid k k' a a'.
Proof.
  intros Hok Hd. destruct (refuse_fault other sid k a Hok) as (k' & d & Hfl & Href).
  exists k', (set_queue [] d a). split; [|exact Href]. pose proof (so_inv _ _ _ _ Hok) as [Hs _].
  destruct n; unfold correct_inner at 1; fold (correct_inner false fmap_page).
  all: rewrite (bind_Done _ _ _ _ _ (get_space_run _ _ _ Hs)).
  all: destruct (UserGrants_contains (grants a) p) as [[gb gi]|].
  all: try (change (match access with AccessRead => false | AccessWrite => negb (has_write (flags gi))
         | AccessInstrFetch => negb (has_execute (flags gi)) end) with (denied access gi); rewrite Hd).
  all: unfold err; by rewrite bind_ret, (bind_Done _ _ _ _ _ Hfl).
Qed.

End spec.

(** ** A concrete kernel with one anonymous mapping of twenty pages *)

Module PageFaultWitnesses.
Import SimpleFlags AddrSpaceWitnesses.

Definition mmap20 : M Kernel (list UnmapResult * result Error Page) :=
  mmap false 1 None 20 prot_rw (fun page pfl => zeroed false (PageSpan_new page 20) pfl 1 false).
Definition k1 : Kernel := match mmap20 k0 with Done (_, k) => k | Panic => k0 end.
Definition a1 : AddrSpace := default AddrSpace_new (spaces k1 !! 1).

Lemma free_at20 : free_at UserGrants_new 1 20.
Proof. split_and!; [done|done|]. intros. apply gview_new. Qed.

Lemma k1_mapped : exists x, mmap20 k0 = Done (([], Ok x), k1) /\ 1 <= x /\
  anon_mapped held 1 k0 k1 AddrSpace_new a1 x 20 prot_rw false zf 16.
Proof.
  destruct (mmap_zeroed_ok false held 1 k0 AddrSpace_new 20 prot_rw false zf 1) as
    [[_ H]|(x & k' & a' & m & H1 & H2 & _ & _ & H6)].
  - exact k0_ok.
  - split; [reflexivity|vm_compute; discriminate].
  - reflexivity.
  - split; [discriminate|vm_compute; discriminate].
  - vm_compute. reflexivity.
  - exact zero_ok0.
  - exfalso. exact (H 1 ltac:(lia) free_at20).
  - pose proof (anon_mapped_all _ _ _ _ _ _ _ _ _ _ _ _ H6) as Hm. change (eager 20) with 16 in Hm. subst m.
    assert (Hk : k1 = k') by (unfold k1, mmap20; by rewrite H1).
    assert (Ha : a1 = a').
    { unfold a1. rewrite Hk, (proj1 (so_inv _ _ _ _ (am_space _ _ _ _ _ _ _ _ _ _ _ _ H6))). reflexivity. }
    exists x. rewrite Ha, Hk. split; [exact H1|]. split; [exact H2|exact H6].
Qed.

Lemma mmap20_at : match mmap20 k0 with Done ((_, r), _) => r | Panic => Err ENOMEM end = Ok 1.
Proof. vm_compute. reflexivity. Qed.

Lemma k1_ok : SpaceOk held 1 k1 a1.
Proof. destruct k1_mapped as (x & _ & _ & H). exact (am_space _ _ _ _ _ _ _ _ _ _ _ _ H). Qed.

Lemma k1_memory : ~ exhausted (mem k1).
Proof. intros H. specialize (H 1%nat). vm_compute in H. specialize (H _ eq_refl). discriminate H. Qed.

Definition anon_info : GrantInfo := mkGrantInfo 20 (page_flags prot_rw) true (Allocated None false).
Definition no_scheme (_ : GrantFileRef) (_ : Z) (_ : MapFlags) : M Kernel (result PfError Frame) := err Segv.

(** Page 1 is one of the sixteen pages mapped to the zeroed frame. *)
Lemma zf_needed : cow_needed held k1 a1 zf.
Proof.
  split.
  - intros (p & rc & Hp & [_ Hc] & Hs). vm_compute in Hp. injection Hp as <-. vm_compute in Hc. injection Hc as <-. discriminate Hs.
  - assert (Hm : 0 < mapcount (utable a1) zf) by (apply (mapcount_pos _ 1); [split; [lia|reflexivity]|vm_compute; reflexivity]).
    unfold refs, ledger. pose proof (pend_nonneg (pagequeue a1) zf). unfold held. rewrite bump_eq. lia.
Qed.

Lemma cow_fault_correct_witness : exists f' k' a',
  correct_inner false no_scheme 15 1 1 AccessWrite k1 = Done (Ok f', k') /\
  faulted held 1 k1 k' a1 a' 1 f' (pf_write true (page_flags prot_rw)) /\ copied (mem k1) (mem k') zf f' /\
  f' <> zf /\ refs held a1 f' = 0 /\ refs held a' f' = 1.
Proof.
  destruct (cow_fault_correct no_scheme 15 held 1 1 k1 a1 1 anon_info zf (pf_write false (page_flags prot_rw)) zf k1_ok)
    as [(_ & Hx & _)|(f' & k' & a' & H1 & H2 & H3 & [(_ & _ & H4 & H5 & H6)|[Hn _]])].
  - vm_compute. reflexivity.
  - exact I.
  - reflexivity.
  - vm_compute. reflexivity.
  - vm_compute. discriminate.
  - vm_compute. reflexivity.
  - vm_compute. reflexivity.
  - destruct (k1_memory Hx).
  - exists f', k', a'. exact (conj H1 (conj H2 (conj H3 (conj H4 (conj H5 H6))))).
  - destruct (Hn zf_needed).
Defined.

Lemma demand_zero_fault_correct_witness : exists f' k' a',
  refs held a1 f' = 0 /\ correct_inner false no_scheme 15 1 18 AccessRead k1 = Done (Ok f', k') /\
  faulted held 1 k1 k' a1 a' 18 f' (page_flags prot_rw) /\
  refs held a' f' = 1 /\ contents (mem k') = delete f' (contents (mem k1)).
Proof.
  destruct (demand_zero_fault_correct no_scheme 15 held 1 18 AccessRead k1 a1 1 anon_info k1_ok) as
    [[Hx _]|(_ & f' & k' & a' & H1 & [[Hm _]|H2])].
  - vm_compute. reflexivity.
  - exact I.
  - reflexivity.
  - vm_compute. reflexivity.
  - destruct (k1_memory Hx).
  - discriminate Hm.
  - exists f', k', a'. exact (conj H1 H2).
Defined.

Lemma denied_fault_segv_witness : exists k' a',
  correct_inner false no_scheme 15 1 100 AccessRead k1 = Done (Err Segv, k') /\ refused held 1 k1 k' a1 a'.
Proof. apply (denied_fault_segv no_scheme 15 held 1 100 AccessRead k1 a1 k1_ok). vm_compute. exact I. Defined.

(** The kernel after a write to page 1, which maps it to a frame of its own. *)
Definition k2 : Kernel := match correct_inner false no_scheme 15 1 1 AccessWrite k1 with Done (_, k) => k | Panic => k1 end.
Definition a2 : AddrSpace := default AddrSpace_new (spaces k2 !! 1).
Definition f2 : Z := match correct_inner false no_scheme 15 1 1 AccessWrite k1 with Done (Ok f, _) => f | _ => 0 end.

Lemma k2_ok : SpaceOk held 1 k2 a2 /\ (forall p, gview (grants a2) p = gview (grants a1) p) /\
  frame_at (utable a2) 1 = Some f2 /\ refs held a2 f2 = 1.
Proof.
  destruct (cow_fault_ok no_scheme 15 held 1 1 k1 a1 1 anon_info zf (pf_write false (page_flags prot_rw)) zf k1_ok)
    as [(_ & Hx & _)|(f' & k' & a' & H1 & [Hok [Hg _ _] _ Ht _ _] & _ & [(_ & _ & _ & _ & H6)|[Hn _]])];
    [vm_compute; reflexivity|exact I|reflexivity|vm_compute; reflexivity|vm_compute; discriminate|vm_compute; reflexivity..| | |].
  - destruct (k1_memory Hx).
  - assert (Hk : k2 = k') by (unfold k2; rewrite H1; reflexivity).
    assert (Hf : f2 = f') by (unfold f2; rewrite H1; reflexivity).
    assert (Ha : a2 = a') by (unfold a2; rewrite Hk, (proj1 (so_inv _ _ _ _ Hok)); reflexivity).
    rewrite Hk, Ha, Hf. split; [exact Hok|]. split; [intros p; by rewrite Hg|]. split; [|exact H6].
    unfold frame_at. rewrite Ht, decide_True by reflexivity. reflexivity.
  - destruct (Hn zf_needed).
Qed.

Definition page1 : PageSpan := PageSpan_new 1 1.

Lemma page1_only p : in_span p page1 <-> p = 1.
Proof. unfold in_span, span_end. simpl. lia. Qed.

Lemma page1_plain p y : in_span p page1 -> gview (grants a2) p = Some y -> plain y.
Proof.
  destruct k2_ok as (_ & Hg & _). intros ->%page1_only Hy. rewrite Hg in Hy.
  destruct k1_mapped as (x & Hx & _ & Hm). rewrite (am_grants _ _ _ _ _ _ _ _ _ _ _ _ Hm) in Hy.
  pose proof mmap20_at as Hx1. rewrite Hx in Hx1. injection Hx1 as ->.
  rewrite decide_True in Hy by lia. injection Hy as <-. split_and!; done.
Qed.

Lemma page1_user : 0 <= 1 < USER_END_PAGE.
Proof. split; [lia|reflexivity]. Qed.

Lemma f2_located : locate (sections (mem k2)) f2 <> None.
Proof. vm_compute. discriminate. Qed.

(** Unmapping page 1 frees that frame. *)
Lemma munmap_correct_witness :
  exists k' a' files, munmap false 1 page1 false k2 = Done (Ok files, k') /\
    SpaceOk held 1 k' a' /\ pagequeue a' = [] /\
    (forall p, gview (grants a') p = if decide (in_span p page1) then None else gview (grants a2) p) /\
    available (mem k') f2.
Proof.
  destruct (munmap_correct false held 1 k2 a2 page1 (proj1 k2_ok)) as
    (k' & a' & files & R1 & R2 & R3 & R4 & R5 & R6 & _).
  - unfold span_ok. simpl. split_and!; [lia|lia|vm_compute; discriminate].
  - exact page1_plain.
  - exists k', a', files. destruct k2_ok as (_ & _ & Hf & Hr).
    destruct (last_mapping held a2 a' page1 1 f2 held_strict page1_user Hf Hr R3 page1_only R5) as (L2 & L3).
    exact (conj R1 (conj R2 (conj R3 (conj R4 (R6 f2 f2_located L2 L3))))).
Defined.
End PageFaultWitnesses.
