(* ===== verification/FdTbl.v ===== *)
(** * File descriptor tables (src/context/context.rs, [FdTbl])

    A context has two tables of optional file descriptors: the POSIX table and
    the upper table, selected by one tag bit of the handle.  The descriptors
    themselves are opaque here.  [UPPER_FDTBL_TAG] is a constant of the syscall
    crate: a single bit above every table index. *)

From S2P Require Import Prelude Rmm.

Definition CONTEXT_MAX_FILES : Z := 65536.

Section fdtbl.
Context {FileDescriptor : Type}.
Context (UPPER_FDTBL_TAG : Z).

Record FdTbl := mkFdTbl {
  posix_fdtbl : list (option FileDescriptor);
  upper_fdtbl : list (option FileDescriptor);
  active_count : Z;
}.

Definition FdTbl_new : FdTbl := mkFdTbl [] [] 0.

Definition strip_tags (index : Z) : Z := Z.land index (usize_not UPPER_FDTBL_TAG).
Definition is_posix (index : Z) : bool := Z.land index UPPER_FDTBL_TAG =? 0.

Definition select_fdtbl (t : FdTbl) (index : Z) : list (option FileDescriptor) * Z :=
  if is_posix index then (posix_fdtbl t, index) else (upper_fdtbl t, strip_tags index).

(** Writing through the reference [select_fdtbl_mut] returns. *)
Definition write_fdtbl (index : Z) (l : list (option FileDescriptor)) (t : FdTbl) : FdTbl :=
  if is_posix index then mkFdTbl l (upper_fdtbl t) (active_count t)
  else mkFdTbl (posix_fdtbl t) l (active_count t).
Definition set_active (n : Z) (t : FdTbl) : FdTbl := mkFdTbl (posix_fdtbl t) (upper_fdtbl t) n.

Definition get (t : FdTbl) (index : Z) : option (option FileDescriptor) :=
  let '(fdtbl, real_index) := select_fdtbl t index in fdtbl !! Z.to_nat real_index.
Definition get_file (t : FdTbl) (i : Z) : option FileDescriptor := mjoin (get t i).

Definition occupied (t : FdTbl) (index : Z) : bool :=
  match get t index with Some (Some _) => true | _ => false end.

(** The loops of [validate_handles] and [validate_free_slots]; [checked] is
    the set of handles seen so far. *)
Fixpoint validate_handles_from (checked : gset Z) (t : FdTbl) (handles : list Z) : result Error unit :=
  match handles with
  | [] => Ok tt
  | index :: handles' =>
      if CONTEXT_MAX_FILES <=? strip_tags index then Err EMFILE
      else if bool_decide (index ∈ checked) then Err EBADF
      else if negb (occupied t index) then Err EBADF
      else validate_handles_from ({[index]} ∪ checked) t handles'
  end.
Definition validate_handles : FdTbl -> list Z -> result Error unit := validate_handles_from ∅.

Fixpoint validate_free_slots_from (checked : gset Z) (t : FdTbl) (handles : list Z) : result Error unit :=
  match handles with
  | [] => Ok tt
  | index :: handles' =>
      if CONTEXT_MAX_FILES <=? strip_tags index then Err EMFILE
      else if bool_decide (index ∈ checked) then Err EINVAL
      else if occupied t index then Err EEXIST
      else validate_free_slots_from ({[index]} ∪ checked) t handles'
  end.
Definition validate_free_slots : FdTbl -> list Z -> result Error unit := validate_free_slots_from ∅.

(** [Vec::resize(n, None)] when it grows the vector. *)
Definition grow (n : nat) (l : list (option FileDescriptor)) : list (option FileDescriptor) :=
  l ++ replicate (n - length l) None.

Definition insert_file (i : Z) (file : FileDescriptor) : M FdTbl (option Z) :=
  fun t =>
    if CONTEXT_MAX_FILES <=? active_count t then Done (None, t)
    else
      let '(fdtbl, real_index) := select_fdtbl t i in
      if CONTEXT_MAX_FILES <=? real_index then Done (None, t)
      else
        let fdtbl := grow (S (Z.to_nat real_index)) fdtbl in
        match fdtbl !! Z.to_nat real_index with
        | Some None =>
            Done (Some i, set_active (usize_add (active_count t) 1)
                            (write_fdtbl i (<[Z.to_nat real_index := Some file]> fdtbl) t))
        | _ => Done (None, write_fdtbl i fdtbl t)
        end.

(** The first empty slot at or after [min]. *)
Definition first_free (min : nat) (l : list (option FileDescriptor)) : option nat :=
  match list_find (fun slot => slot = None) (drop min l) with
  | Some (k, _) => Some (min + k)%nat
  | None => None
  end.

Definition add_file_min (file : FileDescriptor) (min : Z) : M FdTbl (option Z) :=
  fun t =>
    if CONTEXT_MAX_FILES <=? active_count t then Done (None, t)
    else
      let tag := Z.land min UPPER_FDTBL_TAG in
      let '(fdtbl, min') := select_fdtbl t min in
      match first_free (Z.to_nat min') fdtbl with
      | Some pos =>
          Done (Some (Z.lor (Z.of_nat pos) tag),
                set_active (usize_add (active_count t) 1) (write_fdtbl min (<[pos := Some file]> fdtbl) t))
      | None =>
          let len := length fdtbl in
          if min' <=? Z.of_nat len then
            Done (Some (Z.lor (Z.of_nat len) tag),
                  set_active (usize_add (active_count t) 1) (write_fdtbl min (fdtbl ++ [Some file]) t))
          else insert_file (Z.lor min' tag) file t
      end.

Definition add_file (file : FileDescriptor) : M FdTbl (option Z) := add_file_min file 0.

Definition remove_file (i : Z) : M FdTbl (option FileDescriptor) :=
  fun t =>
    let '(fdtbl, real_index) := select_fdtbl t i in
    match fdtbl !! Z.to_nat real_index with
    | Some (Some f) =>
        Done (Some f, set_active (usize_sub (active_count t) 1)
                        (write_fdtbl i (<[Z.to_nat real_index := None]> fdtbl) t))
    | _ => Done (None, t)
    end.

(** ** Bulk operations *)

(** The scan of [find_free_posix_slots] over the existing slots, from index [i]. *)
Fixpoint free_slots (i : nat) (count : nat) (l : list (option FileDescriptor)) : list Z :=
  match count, l with
  | O, _ | _, [] => []
  | S count', None :: l' => Z.of_nat i :: free_slots (S i) count' l'
  | _, Some _ :: l' => free_slots (S i) count l'
  end.

Definition find_free_posix_slots (t : FdTbl) (count : nat) : list Z :=
  let found := free_slots 0 count (posix_fdtbl t) in
  found ++ map Z.of_nat (seq (length (posix_fdtbl t)) (count - length found)).

(** [for (&handle, file) in handles.iter().zip(files)]: the indexed writes
    panic out of range. *)
Fixpoint fill (l : list (option FileDescriptor)) (ws : list (nat * FileDescriptor))
  : outcome (list (option FileDescriptor)) :=
  match ws with
  | [] => Done l
  | (i, f) :: ws' =>
      match l !! i with
      | Some _ => fill (<[i := Some f]> l) ws'
      | None => Panic
      end
  end.

Definition bulk_add_files_posix (files_to_add : list FileDescriptor) : M FdTbl (option (list Z)) :=
  fun t =>
    let count := length files_to_add in
    match count with
    | O => Done (Some [], t)
    | S count' =>
        if CONTEXT_MAX_FILES <? usize_add (active_count t) (Z.of_nat count) then Done (None, t)
        else
          let handles := find_free_posix_slots t count in
          match handles !! count' with
          | None => Panic
          | Some max_index =>
              let l := grow (S (Z.to_nat max_index)) (posix_fdtbl t) in
              match fill l (zip (map Z.to_nat handles) files_to_add) with
              | Panic => Panic
              | Done l => Done (Some handles, mkFdTbl l (upper_fdtbl t) (usize_add (active_count t) (Z.of_nat count)))
              end
          end
    end.

(** The scan of [find_free_upper_block]: the state is [(start, count)]. *)
Fixpoint scan_block (len i : nat) (st : nat * nat) (l : list (option FileDescriptor)) : nat * nat :=
  match l with
  | [] => st
  | None :: l' =>
      let '(start, count) := st in
      let start := if (count =? 0)%nat then i else start in
      let count := S count in
      if (count =? len)%nat then (start, count) else scan_block len (S i) (start, count) l'
  | Some _ :: l' => scan_block len (S i) (st.1, 0%nat) l'
  end.

Definition find_free_upper_block (len : nat) : M FdTbl Z :=
  fun t =>
    let '(start, count) := scan_block len 0 (0%nat, 0%nat) (upper_fdtbl t) in
    if (count <? len)%nat then
      let start := if (count =? 0)%nat then length (upper_fdtbl t) else start in
      Done (Z.lor (Z.of_nat start) UPPER_FDTBL_TAG,
            mkFdTbl (posix_fdtbl t) (upper_fdtbl t ++ replicate (len - count) None) (active_count t))
    else Done (Z.lor (Z.of_nat start) UPPER_FDTBL_TAG, t).

Definition bulk_insert_files_upper (files_to_insert : list FileDescriptor) : M FdTbl (option (list Z)) :=
  fun t =>
    let count := length files_to_insert in
    match count with
    | O => Done (Some [], t)
    | _ =>
        if CONTEXT_MAX_FILES <? usize_add (active_count t) (Z.of_nat count) then Done (None, t)
        else
          (let! h := find_free_upper_block count in
           let index := Z.to_nat (strip_tags h) in
           fun t =>
             match fill (upper_fdtbl t) (zip (seq index count) files_to_insert) with
             | Panic => Panic
             | Done l =>
                 Done (Some (map (fun i => Z.lor (Z.of_nat i) UPPER_FDTBL_TAG) (seq index count)),
                       mkFdTbl (posix_fdtbl t) l (usize_add (active_count t) (Z.of_nat count)))
             end) t
    end.

Definition bulk_insert_files_upper_manual (files_to_insert : list FileDescriptor) (handles : list Z)
  : M FdTbl (result Error unit) :=
  fun t =>
    let count := length files_to_insert in
    if negb (length handles =? count)%nat then Done (Err EINVAL, t)
    else if (count =? 0)%nat then Done (Ok tt, t)
    else if CONTEXT_MAX_FILES <? usize_add (active_count t) (Z.of_nat count) then Done (Err EMFILE, t)
    else match validate_free_slots t handles with
         | Err e => Done (Err e, t)
         | Ok _ =>
             let max_index := list_max (map (fun h => Z.to_nat (strip_tags h)) handles) in
             let l := grow (S max_index) (upper_fdtbl t) in
             match fill l (zip (map (fun h => Z.to_nat (strip_tags h)) handles) files_to_insert) with
             | Panic => Panic
             | Done l => Done (Ok tt, mkFdTbl (posix_fdtbl t) l (usize_add (active_count t) (Z.of_nat count)))
             end
         end.

Definition bulk_get_files (t : FdTbl) (handles : list Z) : outcome (result Error (list FileDescriptor)) :=
  match validate_handles t handles with
  | Err e => Done (Err e)
  | Ok _ => match mapM (get_file t) handles with Some files => Done (Ok files) | None => Panic end
  end.

Fixpoint remove_all (handles : list Z) : M FdTbl (list FileDescriptor) :=
  match handles with
  | [] => ret []
  | i :: handles' =>
      let! f := remove_file i in
      let! f := unwrap f in
      let! fs := remove_all handles' in
      ret (f :: fs)
  end.

Definition bulk_remove_files (handles : list Z) : M FdTbl (result Error (list FileDescriptor)) :=
  fun t =>
    match validate_handles t handles with
    | Err e => Done (Err e, t)
    | Ok _ => (let! fs := remove_all handles in ok fs) t
    end.

Definition enumerate (t : FdTbl) : list (Z * option FileDescriptor) :=
  imap (fun i fd => (Z.of_nat i, fd)) (posix_fdtbl t) ++
  imap (fun i fd => (Z.lor (Z.of_nat i) UPPER_FDTBL_TAG, fd)) (upper_fdtbl t).

(** [force_close_all]: the descriptors to close, in order, and the emptied table. *)
Definition force_close_all : M FdTbl (list FileDescriptor) :=
  fun t => Done (omap id (posix_fdtbl t ++ upper_fdtbl t),
                 mkFdTbl (map (fun _ => None) (posix_fdtbl t)) (map (fun _ => None) (upper_fdtbl t)) 0).

End fdtbl.
