(* ===== verification/FdTblSpec.v ===== *)
(** * Correctness of file descriptor tables

    A table is viewed as a partial function from slots (which of the two
    tables, index in it) to descriptors; the operations are specified on that
    view, and [active_count] is shown to be the number of open descriptors. *)

From S2P Require Import Prelude Rmm FdTbl.
From stdpp Require Import sorting.
#[local] Open Scope Z_scope.

Section spec.
Context {F : Type} (TAG : Z) (tag_bit : Z).
Hypothesis tag_is_bit : TAG = 2 ^ tag_bit /\ 17 <= tag_bit < 64.

#[local] Abbreviation T := (@FdTbl F).

(** ** Slots *)

Definition tbl (t : T) (posix : bool) : list (option F) := if posix then posix_fdtbl t else upper_fdtbl t.
Definition slot_of (h : Z) : bool * nat :=
  (is_posix TAG h, Z.to_nat (if is_posix TAG h then h else strip_tags TAG h)).
(** The descriptor in a slot. *)
Definition fd_at (t : T) (s : bool * nat) : option F := mjoin (tbl t s.1 !! s.2).
Definition handle_of (s : bool * nat) : Z := Z.lor (Z.of_nat s.2) (if s.1 then 0 else TAG).

Lemma is_posix_bit h : is_posix TAG h = negb (Z.testbit h tag_bit).
Proof.
  unfold is_posix. destruct tag_is_bit as [-> Hb]. rewrite land_pow2 by lia.
  destruct (Z.testbit h tag_bit); simpl; [|done]. apply Z.eqb_neq. apply Z.pow_nonzero; lia.
Qed.

Lemma strip_tags_bit h : usize_ok h -> strip_tags TAG h = if Z.testbit h tag_bit then h - TAG else h.
Proof. intros Hh. unfold strip_tags. destruct tag_is_bit as [-> Hb]. apply land_not_pow2; [exact Hh|lia]. Qed.

(** The index of a handle, and the handle back from it. *)
Lemma slot_of_cases h : usize_ok h ->
  slot_of h = (negb (Z.testbit h tag_bit), Z.to_nat (if Z.testbit h tag_bit then h - TAG else h)).
Proof.
  intros Hh. unfold slot_of. rewrite is_posix_bit, strip_tags_bit by done. by destruct (Z.testbit h tag_bit).
Qed.

Lemma bit_le h : usize_ok h -> Z.testbit h tag_bit = true -> TAG <= h.
Proof.
  intros [Hh _] Hb. destruct (Z.le_gt_cases TAG h); [done|]. destruct tag_is_bit as [-> Hr].
  rewrite (testbit_above h tag_bit) in Hb; [done|lia..].
Qed.

Lemma slot_of_inj h h' : usize_ok h -> usize_ok h' -> slot_of h = slot_of h' -> h = h'.
Proof.
  intros Hh Hh'. rewrite !slot_of_cases by done. intros [= Hb Hi].
  pose proof (bit_le h Hh). pose proof (bit_le h' Hh'). unfold usize_ok in *.
  destruct (Z.testbit h tag_bit), (Z.testbit h' tag_bit); simpl in *; try done; lia.
Qed.

Lemma lor_tag i : Z.of_nat i < TAG -> Z.lor (Z.of_nat i) TAG = Z.of_nat i + TAG.
Proof.
  destruct tag_is_bit as [HT Hb]. rewrite HT. intros Hi.
  rewrite Z.lor_comm, (lor_mult_small _ _ tag_bit); [lia|lia|apply Z_mod_same_full|lia].
Qed.

Lemma TAG_range : 2 ^ 17 <= TAG <= 2 ^ 63.
Proof. destruct tag_is_bit as [HT Hb]. rewrite HT. split; apply Z.pow_le_mono_r; lia. Qed.

Lemma slot_of_handle s : Z.of_nat s.2 < TAG -> slot_of (handle_of s) = s /\ usize_ok (handle_of s).
Proof.
  intros Hi. destruct s as [b i]. cbn [snd] in Hi. unfold handle_of. cbn [fst snd]. pose proof TAG_range.
  assert (Htop : Z.testbit (Z.of_nat i) tag_bit = false).
  { destruct tag_is_bit as [HT Hb]. apply (testbit_above _ tag_bit); [rewrite <- HT; lia|lia|lia]. }
  assert (Hok : usize_ok (Z.lor (Z.of_nat i) (if b then 0 else TAG))).
  { unfold usize_ok. destruct b; [rewrite Z.lor_0_r; lia|rewrite lor_tag by done; lia]. }
  split; [|exact Hok]. rewrite slot_of_cases by done. rewrite Z.lor_spec, Htop. cbn [orb].
  destruct b.
  - rewrite Z.bits_0, Z.lor_0_r. cbn [negb]. f_equal. lia.
  - replace (Z.testbit TAG tag_bit) with true by (destruct tag_is_bit as [-> Hb]; by rewrite Z.pow2_bits_true by lia).
    rewrite lor_tag by done. cbn [negb]. f_equal. lia.
Qed.

(** The index [select_fdtbl] computes. *)
Lemma real_index_range h : usize_ok h -> 0 <= (if is_posix TAG h then h else strip_tags TAG h) < 2 ^ 64.
Proof.
  intros Hh. rewrite is_posix_bit, strip_tags_bit by done. pose proof (bit_le h Hh) as Hb. pose proof TAG_range.
  unfold usize_ok in *. destruct (Z.testbit h tag_bit); simpl; [specialize (Hb eq_refl)|]; lia.
Qed.

(** ** The invariant *)

Definition some1 (x : option F) : Z := match x with Some _ => 1 | None => 0 end.

(** Number of open descriptors of a table. *)
Definition live (l : list (option F)) : Z := Z.of_nat (length (omap id l)).

Record FdInv (t : T) : Prop := {
  fi_count : active_count t = live (posix_fdtbl t) + live (upper_fdtbl t);
  fi_max : active_count t <= CONTEXT_MAX_FILES
}.

Lemma live_app l l' : live (l ++ l') = live l + live l'.
Proof. unfold live. rewrite omap_app, length_app. lia. Qed.
Lemma live_replicate n : live (replicate n None) = 0.
Proof. unfold live. induction n; [done|]. simpl. exact IHn. Qed.
Lemma live_nonneg l : 0 <= live l.
Proof. unfold live. lia. Qed.
Lemma live_cons x l : live (x :: l) = some1 x + live l.
Proof. unfold live, some1. destruct x; cbn [omap list_omap id length]; lia. Qed.
Lemma live_insert l i x y : l !! i = Some y ->
  live (<[i := x]> l) = live l - some1 y + some1 x.
Proof.
  revert i. induction l as [|z l IH]; intros [|i] Hi; simpl in *; try done.
  - injection Hi as ->. rewrite !live_cons. lia.
  - rewrite !live_cons, (IH _ Hi). lia.
Qed.
Lemma live_grow n l : live (grow n l) = live l.
Proof. unfold grow. rewrite live_app, live_replicate. lia. Qed.

Lemma at_grow n (l : list (option F)) i : mjoin (grow n l !! i) = mjoin (l !! i).
Proof.
  unfold grow. destruct (decide (i < length l)%nat).
  - by rewrite lookup_app_l.
  - rewrite lookup_app_r, (lookup_ge_None_2 l) by lia.
    destruct (replicate (n - length l) None !! (i - length l)%nat) as [x|] eqn:E; [|done].
    by apply lookup_replicate in E as [-> _].
Qed.

Lemma at_insert (l : list (option F)) i j x : (i < length l)%nat ->
  mjoin (<[i := x]> l !! j) = if decide (j = i) then x else mjoin (l !! j).
Proof.
  intros Hi. case_decide; subst; [by rewrite list_lookup_insert_eq|by rewrite list_lookup_insert_ne].
Qed.

Lemma length_grow n (l : list (option F)) : length (grow n l) = Nat.max n (length l).
Proof. unfold grow. rewrite length_app, length_replicate. lia. Qed.

(** Replacing one of the two tables. *)
Lemma tbl_write h l (t : T) b : tbl (write_fdtbl TAG h l t) b = if decide (b = is_posix TAG h) then l else tbl t b.
Proof. unfold write_fdtbl. destruct (is_posix TAG h), b; done. Qed.

Definition live_of (t : T) : Z := live (posix_fdtbl t) + live (upper_fdtbl t).
Lemma live_write h l (t : T) :
  live_of (write_fdtbl TAG h l t) = live_of t - live (tbl t (is_posix TAG h)) + live l.
Proof. unfold live_of, write_fdtbl, tbl. destruct (is_posix TAG h); simpl; lia. Qed.

Lemma select_tbl (t : T) h : select_fdtbl TAG t h = (tbl t (is_posix TAG h), if is_posix TAG h then h else strip_tags TAG h).
Proof. unfold select_fdtbl, tbl. by destruct (is_posix TAG h). Qed.

Lemma get_file_at (t : T) h : get_file TAG t h = fd_at t (slot_of h).
Proof. unfold get_file, get. rewrite select_tbl. done. Qed.

(** ** Single descriptors *)

(** [t'] is [t] with [x] in slot [s]. *)
Definition updated (t t' : T) (s : bool * nat) (x : option F) : Prop :=
  forall s', fd_at t' s' = if decide (s' = s) then x else fd_at t s'.

Lemma put_ok (t : T) h l i f : FdInv t -> active_count t < CONTEXT_MAX_FILES ->
  live l = live (tbl t (is_posix TAG h)) + 1 ->
  (forall j, mjoin (l !! j) = if decide (j = i) then Some f else mjoin (tbl t (is_posix TAG h) !! j)) ->
  let t' := set_active (usize_add (active_count t) 1) (write_fdtbl TAG h l t) in
  FdInv t' /\ updated t t' (is_posix TAG h, i) (Some f).
Proof.
  intros [Hc Hm] Hlt Hl Hj t'. pose proof (live_nonneg (posix_fdtbl t)). pose proof (live_nonneg (upper_fdtbl t)).
  unfold CONTEXT_MAX_FILES in *.
  assert (Ha : active_count t' = active_count t + 1) by (unfold t'; simpl; apply usize_add_small; lia).
  split.
  - split; [|unfold CONTEXT_MAX_FILES; lia]. rewrite Ha. pose proof (live_write h l t) as E. unfold live_of in E. unfold t'. simpl. lia.
  - intros [b j]. unfold fd_at, t'. cbn [fst snd set_active]. change (tbl (set_active _ ?x)) with (tbl x).
    rewrite tbl_write. destruct (decide (b = is_posix TAG h)) as [->|Hb].
    + rewrite Hj. repeat case_decide; simplify_eq; done.
    + rewrite decide_False; [done|]. congruence.
Qed.

(** A slot that is free among the [n] first ones, or just after the last. *)
Lemma first_free_ok m (l : list (option F)) :
  match first_free m l with
  | Some i => (m <= i)%nat /\ l !! i = Some None /\ forall j, (m <= j < i)%nat -> mjoin (l !! j) <> None
  | None => forall j, (m <= j < length l)%nat -> mjoin (l !! j) <> None
  end.
Proof.
  unfold first_free. destruct (list_find _ (drop m l)) as [[k x]|] eqn:E.
  - apply list_find_Some in E as (Hk & -> & Hlow). rewrite lookup_drop in Hk. split; [lia|]. split; [done|].
    intros j Hj Hn. destruct (lookup_lt_is_Some_2 l j) as [y Hy]; [apply lookup_lt_Some in Hk; lia|].
    rewrite Hy in Hn. simpl in Hn. subst y. apply (Hlow (j - m)%nat None); [|lia|done].
    rewrite lookup_drop. by replace (m + (j - m))%nat with j by lia.
  - apply list_find_None in E. intros j Hj Hn.
    destruct (lookup_lt_is_Some_2 l j) as [y Hy]; [lia|]. rewrite Hy in Hn. simpl in Hn. subst y.
    rewrite Forall_lookup in E. apply (E (j - m)%nat None); [|done]. rewrite lookup_drop.
    by replace (m + (j - m))%nat with j by lia.
Qed.

Lemma insert_file_ok h f (t : T) : FdInv t -> usize_ok h -> active_count t < CONTEXT_MAX_FILES ->
  let s := slot_of h in
  if decide (Z.of_nat s.2 < CONTEXT_MAX_FILES /\ fd_at t s = None)
  then exists t', insert_file TAG h f t = Done (Some h, t') /\ FdInv t' /\ updated t t' s (Some f)
  else exists t', insert_file TAG h f t = Done (None, t') /\ active_count t' = active_count t /\ forall s, fd_at t' s = fd_at t s.
Proof.
  intros HI Hh Hlt s. unfold insert_file. destruct (Z.leb_spec CONTEXT_MAX_FILES (active_count t)); [lia|].
  rewrite select_tbl. set (r := if is_posix TAG h then h else strip_tags TAG h).
  assert (Hr : 0 <= r) by (by apply real_index_range).
  assert (Es : s = (is_posix TAG h, Z.to_nat r)) by done. rewrite Es. cbn [fst snd]. rewrite Z2Nat.id by done.
  destruct (Z.leb_spec CONTEXT_MAX_FILES r).
  { rewrite decide_False by lia. by exists t. }
  set (l := tbl t (is_posix TAG h)). unfold fd_at. cbn [fst snd]. fold l.
  assert (Hlen : (Z.to_nat r < length (grow (S (Z.to_nat r)) l))%nat) by (rewrite length_grow; lia).
  pose proof (at_grow (S (Z.to_nat r)) l (Z.to_nat r)) as Hat.
  destruct (grow (S (Z.to_nat r)) l !! Z.to_nat r) as [[x|]|] eqn:Hx; [| |by apply lookup_ge_None_1 in Hx; lia].
  - simpl in Hat. rewrite decide_False by (rewrite <- Hat; naive_solver). eexists. split; [reflexivity|]. split.
    + unfold write_fdtbl. by destruct (is_posix TAG h).
    + intros [b j]. unfold fd_at. cbn [fst snd]. rewrite tbl_write. case_decide; [|done]. subst b. apply at_grow.
  - simpl in Hat. rewrite decide_True by (by rewrite <- Hat). eexists. split; [reflexivity|].
    apply (put_ok t h _ (Z.to_nat r) f HI Hlt).
    + rewrite (live_insert _ _ _ _ Hx), live_grow. fold l. simpl. lia.
    + intros j. rewrite at_insert by done. fold l. by rewrite at_grow.
Qed.

Lemma land_tag h : Z.land h TAG = if is_posix TAG h then 0 else TAG.
Proof.
  rewrite is_posix_bit. destruct tag_is_bit as [HT Hb]. rewrite HT. rewrite land_pow2 by lia.
  by destruct (Z.testbit h tag_bit).
Qed.

Lemma handle_restore h : usize_ok h -> Z.lor (if is_posix TAG h then h else strip_tags TAG h) (Z.land h TAG) = h.
Proof.
  intros Hh. rewrite land_tag. destruct (is_posix TAG h) eqn:E; [apply Z.lor_0_r|].
  rewrite is_posix_bit in E. apply negb_false_iff in E. unfold strip_tags.
  apply Z.bits_inj'. intros i Hi. rewrite Z.lor_spec, Z.land_spec. destruct tag_is_bit as [HT Hb]. rewrite HT.
  destruct (Z.lt_ge_cases i 64).
  - rewrite testbit_usize_not by lia. rewrite Z.pow2_bits_eqb by lia.
    destruct (Z.eqb_spec tag_bit i) as [<-|]; [by rewrite E|]. by destruct (Z.testbit h i).
  - rewrite (testbit_above h 64) by (lia || apply Hh). rewrite Z.pow2_bits_false by lia. done.
Qed.

Lemma add_file_min_ok f min (t : T) : FdInv t -> usize_ok min ->
  let '(b, m) := slot_of min in
  (add_file_min TAG f min t = Done (None, t) /\
   (CONTEXT_MAX_FILES <= active_count t \/ CONTEXT_MAX_FILES <= Z.of_nat m /\ (length (tbl t b) < m)%nat)) \/
  (exists i t', add_file_min TAG f min t = Done (Some (handle_of (b, i)), t') /\ FdInv t' /\
     fd_at t (b, i) = None /\ updated t t' (b, i) (Some f) /\
     (m <= i)%nat /\ forall j, (m <= j < i)%nat -> fd_at t (b, j) <> None).
Proof.
  intros HI Hmin. change (slot_of min) with (is_posix TAG min, Z.to_nat (if is_posix TAG min then min else strip_tags TAG min)).
  unfold add_file_min. destruct (Z.leb_spec CONTEXT_MAX_FILES (active_count t)) as [Hge|Hlt]; [left; split; [reflexivity|left; exact Hge]|].
  rewrite select_tbl. pose proof (real_index_range min Hmin) as Hr. pose proof (handle_restore min Hmin) as Hmr.
  set (r := if is_posix TAG min then min else strip_tags TAG min) in *. set (b := is_posix TAG min) in *.
  assert (Hh : forall i, Z.lor (Z.of_nat i) (Z.land min TAG) = handle_of (b, i)).
  { intros i. rewrite land_tag. fold b. unfold handle_of. cbn [fst snd]. by destruct b. }
  pose proof (first_free_ok (Z.to_nat r) (tbl t b)) as Hff. destruct (first_free (Z.to_nat r) (tbl t b)) as [i|].
  - destruct Hff as (Hle & Hi & Hlow). right. eexists i, _. split; [by rewrite Hh|].
    assert (Hli : (i < length (tbl t b))%nat) by (by eapply lookup_lt_Some).
    destruct (put_ok t min (<[i := Some f]> (tbl t b)) i f HI Hlt) as [HI' Hu].
    { rewrite (live_insert _ _ _ _ Hi). simpl. fold b. lia. }
    { intros j. rewrite at_insert by done. done. }
    split; [exact HI'|]. split; [unfold fd_at; cbn [fst snd]; by rewrite Hi|]. split; [exact Hu|]. split; [exact Hle|exact Hlow].
  - destruct (Z.leb_spec r (Z.of_nat (length (tbl t b)))) as [Hlen|Hlen].
    + right. eexists (length (tbl t b)), _. split; [by rewrite Hh|].
      destruct (put_ok t min (tbl t b ++ [Some f]) (length (tbl t b)) f HI Hlt) as [HI' Hu].
      { rewrite live_app. fold b. unfold live at 2. simpl. lia. }
      { intros j. fold b. destruct (decide (j = length (tbl t b))) as [->|Hne]; [by rewrite list_lookup_middle|].
        destruct (decide (j < length (tbl t b))%nat); [by rewrite lookup_app_l|].
        rewrite (lookup_ge_None_2 (tbl t b)) by lia. rewrite lookup_ge_None_2; [done|rewrite length_app; simpl; lia]. }
      split; [exact HI'|]. split; [unfold fd_at; cbn [fst snd]; by rewrite lookup_ge_None_2|]. split; [exact Hu|].
      split; [lia|]. intros j Hj. exact (Hff j Hj).
    + rewrite Hmr. pose proof (insert_file_ok min f t HI Hmin Hlt) as Hins. cbn zeta in Hins.
      change (slot_of min) with (b, Z.to_nat r) in Hins. cbn [snd] in Hins. rewrite Z2Nat.id in Hins by lia.
      assert (Hnone : fd_at t (b, Z.to_nat r) = None) by (unfold fd_at; cbn [fst snd]; rewrite lookup_ge_None_2; [done|lia]).
      destruct (decide (r < CONTEXT_MAX_FILES)) as [Hrm|Hrm].
      * rewrite decide_True in Hins by done. destruct Hins as (t' & Hrun & HI' & Hu). right. exists (Z.to_nat r), t'.
        split; [|split; [exact HI'|split; [exact Hnone|split; [exact Hu|split; [lia|intros; lia]]]]].
        rewrite <- Hh, Z2Nat.id, Hmr by lia. exact Hrun.
      * left. split; [|right; split; [lia|lia]]. clear Hins. unfold insert_file.
        destruct (Z.leb_spec CONTEXT_MAX_FILES (active_count t)); [done|]. rewrite select_tbl. fold b r.
        destruct (Z.leb_spec CONTEXT_MAX_FILES r); [done|lia].
Qed.

(** When it refuses. *)
Definition no_room (t : T) (b : bool) (m : nat) : Prop :=
  CONTEXT_MAX_FILES <= active_count t \/ CONTEXT_MAX_FILES <= Z.of_nat m /\ (length (tbl t b) < m)%nat.
Lemma add_file_min_refuses f min (t : T) : usize_ok min -> no_room t (slot_of min).1 (slot_of min).2 -> add_file_min TAG f min t = Done (None, t).
Proof.
  intros Hmin. unfold slot_of. cbn [fst snd]. pose proof (real_index_range min Hmin) as Hr. pose proof (handle_restore min Hmin) as Hmr.
  unfold add_file_min. intros Hn. destruct (Z.leb_spec CONTEXT_MAX_FILES (active_count t)) as [|Hlt]; [done|]. destruct Hn as [|[Hm Hl]]; [lia|].
  rewrite select_tbl. set (r := if is_posix TAG min then min else strip_tags TAG min) in *. set (b := is_posix TAG min) in *. rewrite Z2Nat.id in Hm by lia.
  replace (first_free (Z.to_nat r) (tbl t b)) with (@None nat) by (unfold first_free; by rewrite drop_ge by lia).
  destruct (Z.leb_spec r (Z.of_nat (length (tbl t b)))); [lia|]. rewrite Hmr. unfold insert_file.
  destruct (Z.leb_spec CONTEXT_MAX_FILES (active_count t)); [done|]. rewrite select_tbl. fold b r. destruct (Z.leb_spec CONTEXT_MAX_FILES r); [done|lia].
Qed.

(** C38: [add_file_min] refuses exactly when [CONTEXT_MAX_FILES] descriptors are open,
    or when [min] is at least this limit and lies beyond the end of the table it selects, and
    then changes nothing. Otherwise it gives the lowest free slot at or above [min]
    in that table, stores the descriptor there and nowhere else, and
    keeps [active_count] equal to the number of open descriptors. The slot is
    below the limit or at most at the end of the table: in a table that has
    [CONTEXT_MAX_FILES] slots it can be one that other operations refuse
    ([add_file_min_exceeds_limit]). *)
Theorem add_file_min_correct f min (t : T) : FdInv t -> usize_ok min ->
  let '(b, m) := slot_of min in
  (no_room t b m -> add_file_min TAG f min t = Done (None, t)) /\
  (~ no_room t b m -> exists i t', add_file_min TAG f min t = Done (Some (handle_of (b, i)), t') /\ FdInv t' /\
     fd_at t (b, i) = None /\ updated t t' (b, i) (Some f) /\
     (m <= i)%nat /\ (forall j, (m <= j < i)%nat -> fd_at t (b, j) <> None) /\
     (Z.of_nat i < CONTEXT_MAX_FILES \/ (i <= length (tbl t b))%nat)).
Proof.
  intros HI Hmin. pose proof (add_file_min_ok f min t HI Hmin) as H. pose proof (add_file_min_refuses f min t Hmin) as Hr.
  destruct (slot_of min) as [b m]. split; [exact Hr|]. intros Hn. destruct H as [[_ H]|(i & t' & H1 & H2 & H3 & H4 & H5 & H6)]; [by destruct Hn|].
  exists i, t'. split_and!; try done. destruct (decide (i = m)) as [->|Hne].
  - unfold no_room in Hn. destruct (decide (m <= length (tbl t b))%nat); [by right|left; lia].
  - right. assert (Hp : fd_at t (b, (i - 1)%nat) <> None) by (apply H6; lia). unfold fd_at in Hp. cbn [fst snd] in Hp.
    destruct (tbl t b !! (i - 1)%nat) eqn:E; [|done]. apply lookup_lt_Some in E. lia.
Qed.

(** Emptying one slot. *)
Lemma remove_file_ok h (t : T) : FdInv t ->
  match get_file TAG t h with
  | None => remove_file TAG h t = Done (None, t)
  | Some f => exists t', remove_file TAG h t = Done (Some f, t') /\ FdInv t' /\
      active_count t' = active_count t - 1 /\ updated t t' (slot_of h) None
  end.
Proof.
  intros [Hc Hm]. rewrite get_file_at. unfold fd_at, remove_file. rewrite select_tbl.
  unfold slot_of. cbn [fst snd]. set (b := is_posix TAG h). set (i := Z.to_nat _).
  destruct (tbl t b !! i) as [[f|]|] eqn:Hi; [|done|done]. cbn [mjoin option_join].
  eexists. split; [reflexivity|]. pose proof (live_write h (<[i := None]> (tbl t b)) t) as Hw.
  fold b in Hw. rewrite (live_insert _ _ _ _ Hi) in Hw. unfold live_of in Hw. cbn [some1] in Hw.
  pose proof (live_nonneg (tbl (write_fdtbl TAG h (<[i := None]> (tbl t b)) t) true)) as N1.
  pose proof (live_nonneg (tbl (write_fdtbl TAG h (<[i := None]> (tbl t b)) t) false)) as N2. unfold tbl in N1 at 1, N2 at 1.
  unfold CONTEXT_MAX_FILES in *.
  assert (Ha : usize_sub (active_count t) 1 = active_count t - 1) by (apply usize_sub_small; lia).
  split; [split; cbn [active_count set_active posix_fdtbl upper_fdtbl]; rewrite Ha; unfold CONTEXT_MAX_FILES; lia|].
  split; [exact Ha|]. intros [b' j]. unfold fd_at. cbn [fst snd]. change (tbl (set_active _ ?x)) with (tbl x).
  rewrite tbl_write. fold b. destruct (decide (b' = b)) as [->|Hb].
  - rewrite at_insert by (by eapply lookup_lt_Some). repeat case_decide; simplify_eq; done.
  - rewrite decide_False; [done|]. congruence.
Qed.

(** [remove_file] returns the descriptor of the slot and empties it, or
    returns nothing and changes nothing when the slot is empty. *)
Theorem remove_file_correct h (t : T) : FdInv t ->
  match get_file TAG t h with
  | None => remove_file TAG h t = Done (None, t)
  | Some f => exists t', remove_file TAG h t = Done (Some f, t') /\ FdInv t' /\
      active_count t' = active_count t - 1 /\ updated t t' (slot_of h) None
  end.
Proof. apply remove_file_ok. Qed.

(** ** Several descriptors at once *)

Lemma fill_ok ws : forall l : list (option F), NoDup ws.*1 ->
  (forall i f, (i, f) ∈ ws -> l !! i = Some None) ->
  exists l', fill l ws = Done l' /\ live l' = live l + Z.of_nat (length ws) /\
    (forall i f, (i, f) ∈ ws -> l' !! i = Some (Some f)) /\ (forall j, j ∉ ws.*1 -> l' !! j = l !! j).
Proof.
  induction ws as [|[i f] ws IH]; intros l Hnd Hfree.
  - exists l. split_and!; [done|simpl; lia|by intros ?? ?%not_elem_of_nil|done].
  - apply NoDup_cons in Hnd as [Hi Hnd]. pose proof (Hfree i f (list_elem_of_here _ _)) as Hli. cbn [fmap list_fmap fst] in Hi.
    destruct (IH (<[i := Some f]> l) Hnd) as (l' & Hrun & Hlv & Hin & Hout).
    { intros j g Hj. rewrite list_lookup_insert_ne; [by apply (Hfree j g), list_elem_of_further|].
      intros ->. apply Hi. by apply (list_elem_of_fmap_2 fst ws (j, g)). }
    exists l'. simpl. rewrite Hli. split_and!; [done| | |].
    + rewrite Hlv, (live_insert _ _ _ _ Hli). simpl. lia.
    + intros j g [[= -> ->]|Hj]%elem_of_cons; [|by apply Hin]. rewrite Hout by done.
      rewrite list_lookup_insert_eq; [done|by eapply lookup_lt_Some].
    + intros j Hj. apply not_elem_of_cons in Hj as [Hne Hj]. rewrite Hout by done. by rewrite list_lookup_insert_ne.
Qed.

(** Indices of the free slots of a table. *)
Definition free_index (l : list (option F)) (i : nat) : Prop := mjoin (l !! i) = None.
#[local] Instance free_index_dec l i : Decision (free_index l i).
Proof. unfold free_index. destruct (mjoin (l !! i)); [right|left]; done. Defined.

Lemma free_slots_eq l : forall pre c, 
  free_slots (length pre) c l = map Z.of_nat (take c (filter (free_index (pre ++ l)) (seq (length pre) (length l)))).
Proof.
  induction l as [|x l IH]; intros pre c; [by destruct c|].
  replace (pre ++ x :: l) with ((pre ++ [x]) ++ l) by (by rewrite <- app_assoc).
  specialize (IH (pre ++ [x])). rewrite length_app in IH. simpl in IH. rewrite Nat.add_1_r in IH.
  cbn [length seq]. rewrite filter_cons. destruct c as [|c].
  { by rewrite take_0. }
  assert (Hx : ((pre ++ [x]) ++ l) !! length pre = Some x) by (rewrite <- app_assoc; by apply list_lookup_middle).
  destruct x as [f|]; simpl.
  - rewrite decide_False by (unfold free_index; by rewrite Hx). rewrite IH. done.
  - rewrite decide_True by (unfold free_index; by rewrite Hx). simpl. by rewrite IH.
Qed.

Lemma filter_all {A} (P : A -> Prop) `{!forall x, Decision (P x)} (l : list A) : (forall x, x ∈ l -> P x) -> filter P l = l.
Proof.
  induction l as [|x l IH]; intros Hall; [done|]. rewrite filter_cons, decide_True by (apply Hall, list_elem_of_here).
  f_equal. apply IH. intros y Hy. by apply Hall, list_elem_of_further.
Qed.

(** The [count] lowest free indices. *)
Definition lowest_free (l : list (option F)) (count : nat) : list nat :=
  take count (filter (free_index l) (seq 0 (length l + count))).

Lemma find_free_posix_slots_eq (t : T) count :
  find_free_posix_slots t count = map Z.of_nat (lowest_free (posix_fdtbl t) count).
Proof.
  unfold find_free_posix_slots, lowest_free. set (l := posix_fdtbl t).
  pose proof (free_slots_eq l [] count) as E. cbn [length app] in E. rewrite E.
  rewrite seq_app, filter_app, take_app. rewrite Nat.add_0_l.
  rewrite (filter_all _ (seq (length l) count)).
  2: { intros x Hx%elem_of_seq. unfold free_index. by rewrite lookup_ge_None_2 by lia. }
  rewrite map_app. f_equal. rewrite length_map. f_equal. rewrite length_take.
  set (n := length (filter _ _)). rewrite take_seq. f_equal. lia.
Qed.

Lemma sorted_seq n : forall a, StronglySorted lt (seq a n).
Proof.
  induction n as [|n IH]; intros a; simpl; [constructor|]. apply StronglySorted_cons. split; [|apply IH].
  apply Forall_forall. intros x Hx%elem_of_seq. lia.
Qed.

Lemma sorted_filter (P : nat -> Prop) `{!forall x, Decision (P x)} l : StronglySorted lt l -> StronglySorted lt (filter P l).
Proof.
  induction l as [|x l IH]; [done|]. intros [Hx Hl]%StronglySorted_cons. rewrite filter_cons. case_decide; [|by apply IH].
  apply StronglySorted_cons. split; [|by apply IH]. rewrite Forall_forall in *.
  intros y [_ Hy]%list_elem_of_filter. by apply Hx.
Qed.

Lemma lowest_free_spec l count :
  length (lowest_free l count) = count /\ StronglySorted lt (lowest_free l count) /\
  (forall i, i ∈ lowest_free l count -> free_index l i).
Proof.
  unfold lowest_free. set (fs := filter _ _).
  assert (Hs : StronglySorted lt fs) by apply sorted_filter, sorted_seq.
  split_and!.
  - rewrite length_take. unfold fs. rewrite seq_app, filter_app, length_app, Nat.add_0_l.
    rewrite (filter_all _ (seq (length l) count)), length_seq; [lia|].
    intros x Hx%elem_of_seq. unfold free_index. by rewrite lookup_ge_None_2 by lia.
  - rewrite <- (take_drop count fs) in Hs. by apply StronglySorted_app_1_l in Hs.
  - intros i Hi. assert (i ∈ fs) as [? _]%list_elem_of_filter; [|done].
    rewrite <- (take_drop count fs). apply elem_of_app. by left.
Qed.

Lemma sorted_NoDup l : StronglySorted lt l -> NoDup l.
Proof.
  induction 1 as [|x l Hs IH Hx]; [apply NoDup_nil_2|]. apply NoDup_cons. split; [|done].
  intros Hin. rewrite Forall_forall in Hx. specialize (Hx _ Hin). lia.
Qed.

(** [t'] is [t] with the descriptors [fs] in the slots [idx] of table [b]. *)
Record filled (t t' : T) (b : bool) (idx : list nat) (fs : list F) : Prop := {
  fl_new : forall k i f, idx !! k = Some i -> fs !! k = Some f -> fd_at t' (b, i) = Some f;
  fl_free : forall i, i ∈ idx -> fd_at t (b, i) = None;
  fl_old : forall s, s ∉ map (fun i => (b, i)) idx -> fd_at t' s = fd_at t s
}.

Lemma fill_slots (t : T) b l idx fs cnt : length idx = length fs -> NoDup idx ->
  (forall i, i ∈ idx -> (i < length (grow cnt (tbl t b)))%nat /\ free_index (tbl t b) i) -> l = grow cnt (tbl t b) ->
  exists l', fill l (zip idx fs) = Done l' /\ live l' = live (tbl t b) + Z.of_nat (length fs) /\
    forall t', tbl t' b = l' -> tbl t' (negb b) = tbl t (negb b) -> filled t t' b idx fs.
Proof.
  intros Hlen Hnd Hidx ->. assert (Hz : (zip idx fs).*1 = idx) by (apply fst_zip; lia).
  destruct (fill_ok (zip idx fs) (grow cnt (tbl t b))) as (l' & Hrun & Hlv & Hin & Hout).
  - by rewrite Hz.
  - intros i f Hi%elem_of_zip_l. destruct (Hidx i Hi) as [Hlt Hfree]. destruct (lookup_lt_is_Some_2 _ _ Hlt) as [x Hx].
    rewrite Hx. f_equal. pose proof (at_grow cnt (tbl t b) i) as Hg. rewrite Hx in Hg. simpl in Hg. by rewrite Hg.
  - exists l'. split; [done|]. split.
    { rewrite Hlv, live_grow, length_zip_with. do 2 f_equal. lia. }
    intros t' Ht1 Ht2. split.
    + intros k i f Hk Hf. unfold fd_at. cbn [fst snd]. rewrite Ht1.
      rewrite (Hin i f); [done|]. apply list_elem_of_lookup. exists k. apply lookup_zip_with_Some. eauto.
    + intros i Hi. by apply Hidx.
    + intros [b' j] Hs. unfold fd_at. cbn [fst snd]. destruct (decide (b' = b)) as [->|Hb].
      * rewrite Ht1, Hout; [apply at_grow|]. rewrite Hz. intros Hj. apply Hs. by apply (list_elem_of_fmap_2 (fun i => (b, i))).
      * replace b' with (negb b) by (by destruct b, b'). by rewrite Ht2.
Qed.

(** The limit check of the bulk operations. *)
Lemma bulk_count (t : T) n : FdInv t -> Z.of_nat n < 2 ^ 63 ->
  usize_add (active_count t) (Z.of_nat n) = active_count t + Z.of_nat n.
Proof.
  intros [Hc Hm] Hn. pose proof (live_nonneg (posix_fdtbl t)). pose proof (live_nonneg (upper_fdtbl t)).
  unfold CONTEXT_MAX_FILES in *. apply usize_add_small; lia.
Qed.

(** [bulk_add_files_posix] either refuses, exactly when the limit would be
    exceeded, and changes nothing, or stores the descriptors in order in the
    lowest free POSIX slots and returns those slots' handles. *)
Theorem bulk_add_files_posix_correct fs (t : T) : FdInv t -> Z.of_nat (length fs) < 2 ^ 63 -> fs <> [] ->
  (bulk_add_files_posix fs t = Done (None, t) /\ CONTEXT_MAX_FILES < active_count t + Z.of_nat (length fs)) \/
  (exists t', let idx := lowest_free (posix_fdtbl t) (length fs) in
     bulk_add_files_posix fs t = Done (Some (map Z.of_nat idx), t') /\
     FdInv t' /\ NoDup idx /\ length idx = length fs /\ filled t t' true idx fs).
Proof.
  intros HI Hn Hne. unfold bulk_add_files_posix. destruct (length fs) as [|c'] eqn:Hlen; [by destruct fs|].
  rewrite (bulk_count t (S c') HI) by done. set (c := S c') in *.
  destruct (Z.ltb_spec CONTEXT_MAX_FILES (active_count t + Z.of_nat c)) as [Hgt|Hle]; [by left|right].
  rewrite find_free_posix_slots_eq. destruct (lowest_free_spec (posix_fdtbl t) c) as (Hl & Hs & Hfree).
  set (idx := lowest_free (posix_fdtbl t) c) in *. cbn zeta.
  destruct (lookup_lt_is_Some_2 idx c') as [mx Hmx]; [lia|].
  rewrite list_lookup_fmap, Hmx. cbn [fmap option_fmap option_map]. rewrite Nat2Z.id.
  replace (map Z.to_nat (map Z.of_nat idx)) with idx
    by (rewrite map_map; rewrite <- (map_id idx) at 1; apply map_ext; intros; by rewrite Nat2Z.id).
  assert (Hmax : forall i, i ∈ idx -> (i <= mx)%nat).
  { pose proof (take_drop_middle idx c' mx Hmx) as E. rewrite (drop_ge idx (S c')) in E by (unfold c in *; lia).
    intros i. rewrite <- E in Hs |- *. intros [Hi|Hi]%elem_of_app.
    - apply Nat.lt_le_incl, (StronglySorted_app_1_elem_of _ _ _ _ _ Hs Hi). apply list_elem_of_here.
    - apply list_elem_of_singleton in Hi. lia. }
  destruct (fill_slots t true (grow (S mx) (posix_fdtbl t)) idx fs (S mx)) as (l' & Hrun & Hlv & Hfl).
  { lia. } { by apply sorted_NoDup. }
  { intros i Hi. split; [rewrite length_grow; specialize (Hmax i Hi); lia|by apply Hfree]. }
  { done. }
  rewrite Hrun. eexists. split; [reflexivity|]. cbn [tbl] in Hlv.
  split; [|split; [by apply sorted_NoDup|split; [lia|by apply Hfl]]].
  destruct HI as [Hc Hm]. split; cbn [active_count posix_fdtbl upper_fdtbl]; [rewrite Hlv, Hlen; unfold c; lia|lia].
Qed.

(** The scan for a contiguous block, started at index [length pre]. *)
Lemma scan_block_ok len (l : list (option F)) : forall pre start count, (0 < len)%nat -> (count < len)%nat ->
  (count = 0 \/ start + count = length pre)%nat ->
  (forall i, (start <= i < start + count)%nat -> (pre ++ l) !! i = Some None) ->
  let '(s, c) := scan_block len (length pre) (start, count) l in
  (forall i, (s <= i < s + c)%nat -> (pre ++ l) !! i = Some None) /\
  (c = len \/ (c < len)%nat /\ (c = 0 \/ s + c = length (pre ++ l))%nat).
Proof.
  induction l as [|x l IH]; intros pre start count Hlen Hc Hst Hfree; simpl.
  { split; [done|right]. split; [done|]. by rewrite app_nil_r. }
  assert (Hx : (pre ++ x :: l) !! length pre = Some x) by (by apply list_lookup_middle).
  replace (pre ++ x :: l) with ((pre ++ [x]) ++ l) in * by (by rewrite <- app_assoc).
  specialize (IH (pre ++ [x])). rewrite length_app in IH. simpl in IH. rewrite Nat.add_1_r in IH.
  destruct x as [f|].
  - apply IH; [done|done|by left|intros i Hi; lia].
  - set (st := if (count =? 0)%nat then length pre else start).
    assert (Hst' : (st + S count = S (length pre))%nat) by (unfold st; destruct (Nat.eqb_spec count 0); lia).
    assert (Hfree' : forall i, (st <= i < st + S count)%nat -> ((pre ++ [None]) ++ l) !! i = Some None).
    { intros i Hi. destruct (decide (i = length pre)) as [->|]; [done|]. apply Hfree. unfold st in *.
      destruct (Nat.eqb_spec count 0); lia. }
    change (match len with O => false | S m' => (count =? m')%nat end) with (S count =? len)%nat.
    destruct (Nat.eqb_spec (S count) len) as [He|He]; [split; [exact Hfree'|left; exact He]|].
    apply IH; [done|lia|by right|done].
Qed.

Lemma find_free_upper_block_ok c (t : T) : (0 < c)%nat -> exists start,
  find_free_upper_block TAG c t =
    Done (handle_of (false, start), mkFdTbl (posix_fdtbl t) (grow (start + c) (upper_fdtbl t)) (active_count t)) /\
  (start <= length (upper_fdtbl t))%nat /\
  (forall i, (start <= i < start + c)%nat -> free_index (upper_fdtbl t) i).
Proof.
  intros Hc. pose proof (scan_block_ok c (upper_fdtbl t) [] 0 0 Hc Hc (or_introl eq_refl)) as Hscan. cbn [length app] in Hscan.
  unfold find_free_upper_block, free_index, handle_of, grow. cbn [fst snd].
  destruct (scan_block c 0 (0%nat, 0%nat) (upper_fdtbl t)) as [st n]. destruct Hscan as [Hfree Hn']; [intros; lia|].
  destruct (Nat.ltb_spec n c) as [Hlt|Hge].
  - destruct Hn' as [->|[_ Hn']]; [lia|]. destruct (Nat.eqb_spec n 0) as [->|Hn0].
    + exists (length (upper_fdtbl t)). split; [by replace (length (upper_fdtbl t) + c - length (upper_fdtbl t))%nat with (c - 0)%nat by lia|].
      split; [lia|]. intros i Hi. by rewrite lookup_ge_None_2 by lia.
    + destruct Hn' as [?|Hn']; [lia|]. exists st.
      split; [by replace (st + c - length (upper_fdtbl t))%nat with (c - n)%nat by lia|]. split; [lia|].
      intros i Hi. destruct (decide (i < st + n)%nat); [by rewrite Hfree by lia|by rewrite lookup_ge_None_2 by lia].
  - destruct Hn' as [->|]; [|lia]. exists st.
    assert (Hin : (st + c - 1 < length (upper_fdtbl t))%nat) by (eapply lookup_lt_Some; apply Hfree; lia).
    split; [|split; [lia|intros i Hi; by rewrite Hfree by lia]].
    replace (st + c - length (upper_fdtbl t))%nat with 0%nat by lia. simpl. rewrite app_nil_r. by destruct t.
Qed.

(** [bulk_insert_files_upper] either refuses, exactly when the limit would
    be exceeded, or stores the descriptors in order in a contiguous run of
    free slots of the upper table (extending it when no run is long enough)
    and returns their tagged handles. *)
Theorem bulk_insert_files_upper_correct fs (t : T) : FdInv t -> Z.of_nat (length fs) < 2 ^ 63 -> fs <> [] ->
  Z.of_nat (length (upper_fdtbl t)) < TAG ->
  (bulk_insert_files_upper TAG fs t = Done (None, t) /\ CONTEXT_MAX_FILES < active_count t + Z.of_nat (length fs)) \/
  (exists start t', let idx := seq start (length fs) in
     bulk_insert_files_upper TAG fs t = Done (Some (map (fun i => handle_of (false, i)) idx), t') /\
     FdInv t' /\ filled t t' false idx fs).
Proof.
  intros HI Hn Hne Htag. unfold bulk_insert_files_upper.
  destruct (length fs) as [|c'] eqn:Hlen; [by destruct fs|]. set (c := S c') in *. assert (Hc : (0 < c)%nat) by (unfold c; lia).
  rewrite (bulk_count t c HI) by done.
  destruct (Z.ltb_spec CONTEXT_MAX_FILES (active_count t + Z.of_nat c)) as [Hgt|Hle]; [by left|right].
  destruct (find_free_upper_block_ok c t Hc) as (start & Hblk & Hst & Hidx).
  rewrite (bind_Done _ _ _ _ _ Hblk). cbn [upper_fdtbl posix_fdtbl active_count].
  destruct (slot_of_handle (false, start)) as [Hslot Hok]; [cbn [snd]; lia|].
  assert (Hi : Z.to_nat (strip_tags TAG (handle_of (false, start))) = start).
  { unfold slot_of in Hslot. injection Hslot as Hb Hix. by rewrite Hb in Hix. }
  rewrite Hi. destruct (fill_slots t false (grow (start + c) (upper_fdtbl t)) (seq start c) fs (start + c)) as (l' & Hrun & Hlv & Hfl).
  { rewrite length_seq. unfold c. lia. } { apply NoDup_seq. }
  { intros i Hx%elem_of_seq. split; [rewrite length_grow; lia|]. apply Hidx. lia. } { done. }
  rewrite Hrun, (bulk_count t c HI) by done. exists start, (mkFdTbl (posix_fdtbl t) l' (active_count t + Z.of_nat c)).
  cbn zeta. split; [done|]. split; [|by apply Hfl].
  destruct HI as [Hcc Hm]. cbn [tbl] in Hlv. split; cbn [active_count posix_fdtbl upper_fdtbl]; [rewrite Hlv, Hlen; unfold c; lia|lia].
Qed.

(** ** Removing several descriptors *)

Lemma occupied_at (t : T) h : occupied TAG t h = true <-> is_Some (get_file TAG t h).
Proof.
  unfold occupied, get_file. destruct (get TAG t h) as [[f|]|]; simpl; split; intros H; try done; by destruct H.
Qed.

Lemma handles_valid (t : T) hs : forall seen, validate_handles_from TAG seen t hs = Ok tt ->
  NoDup hs /\ forall h, h ∈ hs -> (h ∉ seen) /\ is_Some (get_file TAG t h).
Proof.
  induction hs as [|h hs IH]; intros seen; simpl; [by intros _; split; [apply NoDup_nil_2|intros ? ?%not_elem_of_nil]|].
  destruct (CONTEXT_MAX_FILES <=? strip_tags TAG h); [done|].
  case_bool_decide as Hin; [done|]. destruct (occupied TAG t h) eqn:Ho; simpl; [|done]. apply occupied_at in Ho.
  intros [Hnd Hall]%IH. split.
  - apply NoDup_cons. split; [|done]. intros Hx. apply (Hall h Hx). set_solver.
  - intros x [->|Hx]%elem_of_cons; [done|]. destruct (Hall x Hx) as [? ?]. set_solver.
Qed.

Lemma remove_all_ok hs : forall t : T, FdInv t -> NoDup hs -> (forall h, h ∈ hs -> usize_ok h /\ is_Some (get_file TAG t h)) ->
  exists fs t', remove_all TAG hs t = Done (fs, t') /\ FdInv t' /\ Forall2 (fun h f => get_file TAG t h = Some f) hs fs /\
    active_count t' = active_count t - Z.of_nat (length hs) /\
    forall s, fd_at t' s = if decide (s ∈ map slot_of hs) then None else fd_at t s.
Proof.
  induction hs as [|h hs IH]; intros t HI Hnd Hall.
  - exists [], t. split_and!; [done|done|constructor|simpl; lia|]. intros s. rewrite decide_False by apply not_elem_of_nil. done.
  - apply NoDup_cons in Hnd as [Hh Hnd]. destruct (Hall h (list_elem_of_here _ _)) as [Hok [f Hf]].
    pose proof (remove_file_ok h t HI) as Hrm. rewrite Hf in Hrm. destruct Hrm as (t1 & Hrun & HI1 & Hc1 & Hu1).
    assert (Hkeep : forall h', h' ∈ hs -> usize_ok h' -> get_file TAG t1 h' = get_file TAG t h').
    { intros h' Hh' Hok'. rewrite !get_file_at, Hu1, decide_False; [done|]. intros E. apply slot_of_inj in E; [|done|done].
      by subst. }
    destruct (IH t1 HI1 Hnd) as (fs & t' & Hrun' & HI' & Hfs & Hc' & Hv').
    { intros h' Hh'. destruct (Hall h' (list_elem_of_further _ _ _ Hh')) as [Hok' Hs']. split; [done|]. by rewrite Hkeep. }
    exists (f :: fs), t'. cbn [remove_all]. rewrite (bind_Done _ _ _ _ _ Hrun). cbn [unwrap]. rewrite bind_ret.
    rewrite (bind_Done _ _ _ _ _ Hrun'). split_and!; [done|done| |simpl; lia|].
    + constructor; [done|]. rewrite Forall2_lookup in Hfs |- *. intros i. specialize (Hfs i). 
      destruct (hs !! i) as [h'|] eqn:Ei, (fs !! i) as [g|] eqn:Eg; inversion_clear Hfs; constructor.
      assert (h' ∈ hs) by (by eapply list_elem_of_lookup_2). rewrite <- Hkeep; [done|done|]. by apply Hall, list_elem_of_further.
    + intros s. rewrite Hv', Hu1. cbn [map]. destruct (decide (s = slot_of h)) as [->|Hne].
      * rewrite (decide_True (P := slot_of h ∈ slot_of h :: _)) by apply list_elem_of_here. by case_decide.
      * destruct (decide (s ∈ map slot_of hs)); [rewrite decide_True; [done|by apply list_elem_of_further]|].
        rewrite decide_False; [done|]. by intros [?|?]%elem_of_cons.
Qed.

(** [bulk_remove_files] is all or nothing: either it reports an error and
    the table is unchanged, or it returns every descriptor asked for, in
    order, and empties exactly their slots. *)
Theorem bulk_remove_files_correct hs (t : T) : FdInv t -> (forall h, h ∈ hs -> usize_ok h) ->
  (exists e, bulk_remove_files TAG hs t = Done (Err e, t)) \/
  (exists fs t', bulk_remove_files TAG hs t = Done (Ok fs, t') /\ FdInv t' /\
     Forall2 (fun h f => get_file TAG t h = Some f) hs fs /\
     active_count t' = active_count t - Z.of_nat (length hs) /\
     forall s, fd_at t' s = if decide (s ∈ map slot_of hs) then None else fd_at t s).
Proof.
  intros HI Hok. unfold bulk_remove_files. destruct (validate_handles TAG t hs) as [[]|e] eqn:Hv; [right|left; by exists e].
  apply handles_valid in Hv as [Hnd Hall]. destruct (remove_all_ok hs t HI Hnd) as (fs & t' & Hrun & Hrest).
  { intros h Hh. split; [by apply Hok|by apply Hall]. }
  exists fs, t'. split; [|done]. by rewrite (bind_Done _ _ _ _ _ Hrun).
Qed.

(** The limit on indices is not enforced when a table grows at its end:
    once the POSIX table is [CONTEXT_MAX_FILES] slots long, [add_file_min]
    from an occupied tail appends a slot beyond the limit, and the handle it
    returns is then refused by every bulk operation with EMFILE. *)
Theorem add_file_min_exceeds_limit f min (t : T) : active_count t < CONTEXT_MAX_FILES ->
  0 <= min <= CONTEXT_MAX_FILES -> Z.of_nat (length (posix_fdtbl t)) = CONTEXT_MAX_FILES ->
  (forall j, (Z.to_nat min <= j < length (posix_fdtbl t))%nat -> mjoin (posix_fdtbl t !! j) <> None) ->
  exists t', add_file_min TAG f min t = Done (Some CONTEXT_MAX_FILES, t') /\
    get_file TAG t' CONTEXT_MAX_FILES = Some f /\ validate_handles TAG t' [CONTEXT_MAX_FILES] = Err EMFILE.
Proof.
  intros Hlt Hmin Hlen Hocc. pose proof TAG_range.
  assert (Hpos : forall x, 0 <= x <= CONTEXT_MAX_FILES -> is_posix TAG x = true).
  { intros x Hx. rewrite is_posix_bit. destruct tag_is_bit as [HT Hb]. rewrite (testbit_above x tag_bit); [done| |lia|lia].
    rewrite <- HT. unfold CONTEXT_MAX_FILES in *. lia. }
  unfold add_file_min. destruct (Z.leb_spec CONTEXT_MAX_FILES (active_count t)); [lia|].
  rewrite select_tbl, land_tag, Hpos by done. cbn [tbl].
  pose proof (first_free_ok (Z.to_nat min) (posix_fdtbl t)) as Hff. destruct (first_free (Z.to_nat min) (posix_fdtbl t)) as [i|].
  { destruct Hff as (Hle & Hi & _). exfalso. apply (Hocc i); [|by rewrite Hi]. apply lookup_lt_Some in Hi. lia. }
  destruct (Z.leb_spec min (Z.of_nat (length (posix_fdtbl t)))); [|lia].
  rewrite Hlen, Z.lor_0_r. eexists. split; [reflexivity|]. unfold CONTEXT_MAX_FILES in *. split.
  - unfold get_file, get. rewrite select_tbl, Hpos by lia. unfold write_fdtbl. rewrite Hpos by lia. cbn [tbl posix_fdtbl set_active].
    rewrite list_lookup_middle; [done|lia].
  - unfold validate_handles, validate_handles_from. rewrite strip_tags_bit by (unfold usize_ok; lia).
    assert (Hb := Hpos 65536). rewrite is_posix_bit in Hb. destruct (Z.testbit 65536 tag_bit); [by specialize (Hb ltac:(lia))|].
    done.
Qed.

End spec.

(** ** A concrete table *)

Module FdTblWitnesses.
Definition tag : Z := 2 ^ 62.
Lemma tag_ok : tag = 2 ^ 62 /\ 17 <= 62 < 64.
Proof. done. Qed.

(** Descriptors 10 and 12 open in POSIX slots 0 and 2, 20 in upper slot 1. *)
Definition table : @FdTbl Z := mkFdTbl [Some 10; None; Some 12] [None; Some 20] 3.
Lemma table_inv : FdInv table.
Proof. split; vm_compute; [done|discriminate]. Qed.

Lemma add_file_min_correct_witness : exists i t', add_file_min tag 99 1 table = Done (Some (handle_of tag (true, i)), t') /\ FdInv t' /\
  fd_at table (true, i) = None /\ (1 <= i)%nat /\ add_file_min tag 99 70000 table = Done (None, table).
Proof.
  pose proof (add_file_min_correct tag 62 tag_ok 99 1 table table_inv ltac:(unfold usize_ok; lia)) as H.
  pose proof (add_file_min_correct tag 62 tag_ok 99 70000 table table_inv ltac:(unfold usize_ok; lia)) as H'.
  change (slot_of tag 1) with (true, 1%nat) in H. change (slot_of tag 70000) with (true, Z.to_nat 70000) in H'. destruct H as [_ H], H' as [H' _].
  destruct H as (i & t' & H1 & H2 & H3 & _ & H4 & _).
  - unfold no_room, CONTEXT_MAX_FILES. cbn. lia.
  - exists i, t'. split_and!; [done..|]. apply H'. right. unfold CONTEXT_MAX_FILES. cbn [length tbl table posix_fdtbl]. lia.
Defined.

Lemma remove_file_correct_witness :
  match get_file tag table 2 with
  | None => remove_file tag 2 table = Done (None, table)
  | Some f => exists t', remove_file tag 2 table = Done (Some f, t') /\ FdInv t' /\
      active_count t' = active_count table - 1 /\ updated table t' (slot_of tag 2) None
  end.
Proof. apply (remove_file_correct tag 62 tag_ok 2 table table_inv). Defined.

Lemma bulk_add_files_posix_correct_witness :
  (bulk_add_files_posix [1; 2] table = Done (None, table) /\ CONTEXT_MAX_FILES < active_count table + 2) \/
  (exists t', let idx := lowest_free (posix_fdtbl table) 2 in
     bulk_add_files_posix [1; 2] table = Done (Some (map Z.of_nat idx), t') /\
     FdInv t' /\ NoDup idx /\ length idx = 2%nat /\ filled table t' true idx [1; 2]).
Proof. apply (bulk_add_files_posix_correct tag 62 tag_ok [1; 2] table table_inv); [reflexivity|discriminate]. Defined.

Lemma bulk_insert_files_upper_correct_witness :
  (bulk_insert_files_upper tag [1; 2] table = Done (None, table) /\ CONTEXT_MAX_FILES < active_count table + 2) \/
  (exists start t', let idx := seq start 2 in
     bulk_insert_files_upper tag [1; 2] table = Done (Some (map (fun i => handle_of tag (false, i)) idx), t') /\
     FdInv t' /\ filled table t' false idx [1; 2]).
Proof.
  apply (bulk_insert_files_upper_correct tag 62 tag_ok [1; 2] table table_inv); [reflexivity|discriminate|reflexivity].
Defined.

Lemma bulk_remove_files_correct_witness :
  (exists e, bulk_remove_files tag [2; 0] table = Done (Err e, table)) \/
  (exists fs t', bulk_remove_files tag [2; 0] table = Done (Ok fs, t') /\ FdInv t' /\
     Forall2 (fun h f => get_file tag table h = Some f) [2; 0] fs /\
     active_count t' = active_count table - Z.of_nat (length [2; 0]) /\
     forall s, fd_at t' s = if decide (s ∈ map (slot_of tag) [2; 0]) then None else fd_at table s).
Proof.
  apply (bulk_remove_files_correct tag 62 tag_ok [2; 0] table table_inv).
  intros h Hh. unfold usize_ok. set_solver by lia.
Defined.

(** A POSIX table whose only open descriptor is the last one the limit allows. *)
Definition long_table : @FdTbl Z := mkFdTbl (replicate (Z.to_nat 65535) None ++ [Some 10]) [] 1.

Lemma long_table_length : Z.of_nat (length (posix_fdtbl long_table)) = CONTEXT_MAX_FILES.
Proof. cbn [posix_fdtbl long_table]. rewrite length_app, length_replicate. simpl length. unfold CONTEXT_MAX_FILES. lia. Qed.

Lemma add_file_min_exceeds_limit_witness :
  exists t', add_file_min tag 99 65535 long_table = Done (Some CONTEXT_MAX_FILES, t') /\
    get_file tag t' CONTEXT_MAX_FILES = Some 99 /\ validate_handles tag t' [CONTEXT_MAX_FILES] = Err EMFILE.
Proof.
  apply (add_file_min_exceeds_limit tag 62 tag_ok 99 65535 long_table).
  - reflexivity.
  - unfold CONTEXT_MAX_FILES. lia.
  - exact long_table_length.
  - intros j Hj. pose proof long_table_length as E. unfold CONTEXT_MAX_FILES in E.
    assert (j = Z.to_nat 65535) as -> by lia. cbn [posix_fdtbl long_table].
    rewrite list_lookup_middle; [discriminate|]. by rewrite length_replicate.
Defined.
End FdTblWitnesses.
