(* ===== verification/UserCopy.v ===== *)
(** * Access to user memory (src/syscall/usercopy.rs)

    [UserSlice] is a range of user addresses a system call was given.  User
    memory is the set of bytes that are accessible, some of them read-only:
    an access outside faults, which the copy routines report as EFAULT.  The
    copy itself ([rep movsb]) goes byte by byte, so a faulting copy to user
    memory has written the bytes before the fault.  The type parameters READ
    and WRITE only select which methods exist. *)

From S2P Require Import Prelude PageInfo FrameAllocator Rmm OrdMap Grants.

(** ** Slices *)

Record UserSlice := mkUserSlice { us_base : Z; us_len : Z }.

Definition us_empty : UserSlice := mkUserSlice 0 0.
Definition us_is_empty (s : UserSlice) : bool := us_len s =? 0.

Definition us_new (base len : Z) : result Error UserSlice :=
  if (USER_END_OFFSET <=? base) || (USER_END_OFFSET <=? saturating_add base len) then Err EFAULT
  else Ok (mkUserSlice base len).

Definition split_at (s : UserSlice) (idx : Z) : option (UserSlice * UserSlice) :=
  if us_len s <? idx then None
  else Some (mkUserSlice (us_base s) idx, mkUserSlice (usize_add (us_base s) idx) (usize_sub (us_len s) idx)).
Definition advance (s : UserSlice) (by_ : Z) : option UserSlice := snd <$> split_at s by_.
Definition limit (s : UserSlice) (to : Z) : option UserSlice := fst <$> split_at s to.
Definition none_if_null (s : UserSlice) : option UserSlice := if us_base s =? 0 then None else Some s.

(** [(0..n).step_by(k)] *)
Definition step_by (n k : Z) : list Z := map (fun i => i * k) (range (div_ceil n k)).

(** [in_variable_chunks]: every chunk reaches to the end of the slice. *)
Definition in_variable_chunks {S} (s : UserSlice) (chunk_size : Z) : M S (list UserSlice) :=
  unwrap (mapM (advance s) (step_by (us_len s) chunk_size)).

Definition in_exact_chunks {S} (s : UserSlice) (chunk_size : Z) : M S (list UserSlice) :=
  unwrap (mapM (fun i => match advance s (usize_mul i chunk_size) with Some x => limit x chunk_size | None => None end)
               (range (us_len s / chunk_size))).

(** ** Memory *)

Record UserMem := mkUserMem { um_bytes : gmap Z Z; um_readonly : gset Z }.

Definition addrs (base len : Z) : list Z := map (fun i => base + i) (range len).

(** [arch_copy_from_user]: the bytes, unless some address is not accessible. *)
Definition copy_from_user (m : UserMem) (base len : Z) : option (list Z) :=
  mapM (fun a => um_bytes m !! a) (addrs base len).

(** [arch_copy_to_user]: whether the copy completed, and the memory after it. *)
Fixpoint copy_to_user (base : Z) (bytes : list Z) (m : UserMem) : bool * UserMem :=
  match bytes with
  | [] => (true, m)
  | b :: bytes' =>
      match um_bytes m !! base with
      | Some _ =>
          if decide (base ∈ um_readonly m) then (false, m)
          else copy_to_user (base + 1) bytes' (mkUserMem (<[base := b]> (um_bytes m)) (um_readonly m))
      | None => (false, m)
      end
  end.

(** ** Copies *)

(** [copy_to_slice] into a kernel buffer of [n] bytes. *)
Definition copy_to_slice (s : UserSlice) (n : Z) : M UserMem (result Error (list Z)) :=
  fun m =>
    if negb (us_len s =? n) then Done (Err EINVAL, m)
    else match copy_from_user m (us_base s) (us_len s) with
         | Some bytes => Done (Ok bytes, m)
         | None => Done (Err EFAULT, m)
         end.

Definition copy_from_slice (s : UserSlice) (slice : list Z) : M UserMem (result Error unit) :=
  fun m =>
    if negb (us_len s =? Z.of_nat (length slice)) then Done (Err EINVAL, m)
    else match copy_to_user (us_base s) slice m with
         | (true, m') => Done (Ok tt, m')
         | (false, m') => Done (Err EFAULT, m')
         end.

Definition limited {A} (s : UserSlice) (n : Z) (k : UserSlice -> M UserMem (result Error A)) : M UserMem (result Error A) :=
  match limit s n with Some s' => k s' | None => err EINVAL end.

(** The bytes copied; their number is the minimum of both lengths. *)
Definition copy_common_bytes_to_slice (s : UserSlice) (n : Z) : M UserMem (result Error (list Z)) :=
  let! s' := unwrap (limit s (Z.min (us_len s) n)) in copy_to_slice s' (Z.min (us_len s) n).

Definition copy_common_bytes_from_slice (s : UserSlice) (slice : list Z) : M UserMem (result Error Z) :=
  let n := Z.min (us_len s) (Z.of_nat (length slice)) in
  let! s' := unwrap (limit s n) in
  let? _ := copy_from_slice s' (take (Z.to_nat n) slice) in ok n.

Definition copy_exactly (s : UserSlice) (slice : list Z) : M UserMem (result Error unit) :=
  limited s (Z.of_nat (length slice)) (fun s' => copy_from_slice s' slice).

(** [to_ne_bytes] and [from_ne_bytes] on the little-endian targets. *)
Fixpoint to_ne_bytes (n : nat) (x : Z) : list Z :=
  match n with
  | O => []
  | S n' => x mod 256 :: to_ne_bytes n' (x / 256)
  end.
Fixpoint from_ne_bytes (l : list Z) : Z :=
  match l with
  | [] => 0
  | b :: l' => b + 256 * from_ne_bytes l'
  end.

Definition read_int (size : nat) (s : UserSlice) : M UserMem (result Error Z) :=
  limited s (Z.of_nat size) (fun s' =>
    let? bytes := copy_to_slice s' (Z.of_nat size) in ok (from_ne_bytes bytes)).
Definition write_int (size : nat) (s : UserSlice) (x : Z) : M UserMem (result Error unit) :=
  limited s (Z.of_nat size) (fun s' => copy_from_slice s' (to_ne_bytes size x)).

Definition read_usize : UserSlice -> M UserMem (result Error Z) := read_int 8.
Definition read_u32 : UserSlice -> M UserMem (result Error Z) := read_int 4.
Definition read_u64 : UserSlice -> M UserMem (result Error Z) := read_int 8.
Definition write_usize : UserSlice -> Z -> M UserMem (result Error unit) := write_int 8.
Definition write_u32 : UserSlice -> Z -> M UserMem (result Error unit) := write_int 4.

(** [usizes], collected: the reads of an iterator stop at the first error. *)
Fixpoint read_each (l : list UserSlice) : M UserMem (result Error (list Z)) :=
  match l with
  | [] => ok []
  | s :: l' => let? x := read_usize s in let? xs := read_each l' in ok (x :: xs)
  end.
Definition usizes (s : UserSlice) : M UserMem (result Error (list Z)) :=
  let! l := in_exact_chunks s 8 in read_each l.

(** ** Regions *)

Definition validate_region (address size : Z) : result Error PageSpan :=
  if negb (address mod PAGE_SIZE =? 0) || negb (size mod PAGE_SIZE =? 0) || (size =? 0) then Err EINVAL
  else if USER_END_OFFSET <? saturating_add address size then Err EFAULT
  else Ok (PageSpan_new (Page_containing_address address) (size / PAGE_SIZE)).

(** ** Slices stay in user memory *)

Definition us_ok (s : UserSlice) : Prop :=
  0 <= us_base s /\ 0 <= us_len s /\ us_base s + us_len s < USER_END_OFFSET.
Definition in_slice (a : Z) (s : UserSlice) : Prop := us_base s <= a < us_base s + us_len s.

Lemma us_new_ok base len s : usize_ok base -> usize_ok len -> us_new base len = Ok s ->
  us_ok s /\ s = mkUserSlice base len.
Proof.
  unfold us_new, usize_ok. intros Hb Hl. destruct (Z.leb_spec USER_END_OFFSET base); [done|].
  destruct (Z.leb_spec USER_END_OFFSET (saturating_add base len)) as [|H2]; [done|]. intros [= <-].
  unfold saturating_add, usize_max in H2. split; [|done]. unfold us_ok. simpl. unfold USER_END_OFFSET, PML4_SIZE in *. lia.
Qed.

Lemma split_at_ok s idx a b : us_ok s -> 0 <= idx -> split_at s idx = Some (a, b) ->
  us_ok a /\ us_ok b /\ us_base a = us_base s /\ us_len a = idx /\
  us_base b = us_base s + idx /\ us_len b = us_len s - idx.
Proof.
  intros (H1 & H2 & H3) Hi. unfold split_at. destruct (Z.ltb_spec (us_len s) idx); [done|]. intros [= <- <-].
  unfold USER_END_OFFSET, PML4_SIZE in *. rewrite usize_add_small, usize_sub_small by lia.
  unfold us_ok. simpl. unfold USER_END_OFFSET, PML4_SIZE. lia.
Qed.

Lemma split_at_some s idx : idx <= us_len s -> split_at s idx =
  Some (mkUserSlice (us_base s) idx, mkUserSlice (usize_add (us_base s) idx) (usize_sub (us_len s) idx)).
Proof. intros Hi. unfold split_at. destruct (Z.ltb_spec (us_len s) idx); [lia|done]. Qed.

Lemma limit_some s n : n <= us_len s -> limit s n = Some (mkUserSlice (us_base s) n).
Proof. intros Hn. unfold limit. by rewrite split_at_some. Qed.

(** What a copy to user memory may change. *)
Definition only_in (m m' : UserMem) (P : Z -> Prop) : Prop :=
  um_readonly m' = um_readonly m /\ dom (um_bytes m') = dom (um_bytes m) /\
  forall a, ~ P a -> um_bytes m' !! a = um_bytes m !! a.

Lemma addrs_cons base n : addrs base (Z.of_nat (S n)) = base :: addrs (base + 1) (Z.of_nat n).
Proof.
  unfold addrs, range. rewrite !Nat2Z.id. cbn [seq map]. f_equal; [lia|].
  rewrite <- seq_shift, !map_map. apply map_ext. intros. lia.
Qed.

Lemma only_in_refl m P : only_in m m P.
Proof. done. Qed.

Lemma copy_to_user_ok bytes : forall base m b m', copy_to_user base bytes m = (b, m') ->
  only_in m m' (fun a => base <= a < base + Z.of_nat (length bytes)) /\
  (b = true -> copy_from_user m' base (Z.of_nat (length bytes)) = Some bytes).
Proof.
  induction bytes as [|x bytes IH]; intros base m b m' Hrun; cbn [copy_to_user length] in *.
  { injection Hrun as <- <-. done. }
  destruct (um_bytes m !! base) as [y|] eqn:Hy; [|injection Hrun as <- <-; by split].
  destruct (decide (base ∈ um_readonly m)) as [Hro|Hrw]; [injection Hrun as <- <-; by split|].
  destruct (IH _ _ _ _ Hrun) as [(H1 & H2 & H3) Hb]. cbn [um_bytes um_readonly] in *.
  split; [split; [exact H1|split]|].
  - rewrite H2. apply dom_insert_lookup_L. by eexists.
  - intros a Ha. rewrite H3 by lia. by rewrite lookup_insert_ne by lia.
  - intros ->. unfold copy_from_user. rewrite addrs_cons. cbn [mapM].
    rewrite H3 by lia. rewrite lookup_insert_eq. cbn [mbind option_bind].
    specialize (Hb eq_refl). unfold copy_from_user in Hb. by rewrite Hb.
Qed.

(** A copy to a user slice never panics and writes only bytes of the
    slice, which lies wholly below the end of user space; it reports EINVAL
    before touching anything when the lengths differ, EFAULT when an address
    is not writable, and after success the slice holds exactly the bytes. *)
Theorem copy_from_slice_correct base len s bytes m :
  usize_ok base -> usize_ok len -> us_new base len = Ok s ->
  exists r m', copy_from_slice s bytes m = Done (r, m') /\
    only_in m m' (fun a => in_slice a s /\ 0 <= a < USER_END_OFFSET) /\
    match r with
    | Ok _ => len = Z.of_nat (length bytes) /\ copy_from_user m' base len = Some bytes
    | Err e => e = EINVAL /\ m' = m /\ len <> Z.of_nat (length bytes) \/ e = EFAULT
    end.
Proof.
  intros Hb Hl Hnew. destruct (us_new_ok base len s Hb Hl Hnew) as [(H1 & H2 & H3) ->]. cbn [us_base us_len] in *.
  unfold copy_from_slice. cbn [us_base us_len]. destruct (Z.eqb_spec len (Z.of_nat (length bytes))) as [He|He]; cbn [negb].
  - destruct (copy_to_user base bytes m) as [b m'] eqn:Hrun. destruct (copy_to_user_ok _ _ _ _ _ Hrun) as [(O1 & O2 & O3) Hok].
    assert (Ho : only_in m m' (fun a => in_slice a (mkUserSlice base len) /\ 0 <= a < USER_END_OFFSET)).
    { split; [exact O1|split; [exact O2|]]. intros a Ha. apply O3. unfold in_slice in Ha. cbn [us_base us_len] in Ha. lia. }
    destruct b; eexists _, m'; (split; [reflexivity|]); (split; [exact Ho|]); [|by right].
    split; [exact He|]. rewrite He. by apply Hok.
  - eexists _, m. split; [reflexivity|]. split; [done|]. by left.
Qed.

Lemma to_ne_length n x : length (to_ne_bytes n x) = n.
Proof. revert x. induction n as [|n IH]; intros x; simpl; [done|by rewrite IH]. Qed.

Lemma from_to_ne n x : from_ne_bytes (to_ne_bytes n x) = x mod 256 ^ Z.of_nat n.
Proof.
  revert x. induction n as [|n IH]; intros x.
  - simpl. by rewrite Z.mod_1_r.
  - cbn [to_ne_bytes from_ne_bytes]. rewrite IH, Nat2Z.inj_succ, Z.pow_succ_r by lia.
    rewrite Z.rem_mul_r; [done|lia|]. apply Z.pow_pos_nonneg; lia.
Qed.

(** An integer written to user memory and read back is unchanged, for
    every width the kernel uses; the read returns the same value as long as
    the write succeeded. *)
Theorem write_read_int_roundtrip n s x m m' : 0 <= x < 256 ^ Z.of_nat n ->
  write_int n s x m = Done (Ok tt, m') -> read_int n s m' = Done (Ok x, m').
Proof.
  intros Hx. unfold write_int, read_int, limited. unfold limit, split_at.
  destruct (Z.ltb_spec (us_len s) (Z.of_nat n)) as [|Hle]; [done|]. cbn [fmap option_fmap option_map fst].
  unfold copy_from_slice, bind_result, bind, copy_to_slice. cbn [us_base us_len]. rewrite to_ne_length, Z.eqb_refl. cbn [negb].
  destruct (copy_to_user (us_base s) (to_ne_bytes n x) m) as [b m1] eqn:Hrun.
  destruct (copy_to_user_ok _ _ _ _ _ Hrun) as [_ Hok]. destruct b; [|done]. intros [= <-].
  rewrite <- (to_ne_length n x) at 1. rewrite (Hok eq_refl). unfold ok, ret. do 3 f_equal.
  rewrite from_to_ne. by apply Z.mod_small.
Qed.

(** [validate_region] accepts exactly the regions [PageSpan::validate_nonempty]
    accepts, with the same span. *)
Theorem validate_region_equiv address size span :
  validate_region address size = Ok span <-> PageSpan_validate_nonempty address size = Some span.
Proof.
  unfold validate_region, PageSpan_validate_nonempty, PageSpan_validate.
  destruct (Z.eqb_spec (address mod PAGE_SIZE) 0) as [H1|H1]; cbn [negb orb]; [|split; done].
  destruct (Z.eqb_spec (size mod PAGE_SIZE) 0) as [H2|H2]; cbn [negb orb]; [|split; done].
  destruct (Z.eqb_spec size 0) as [->|H3]; cbn [orb].
  - destruct (USER_END_OFFSET <? saturating_add address 0); cbn [opt_filter]; split; done.
  - destruct (USER_END_OFFSET <? saturating_add address size); cbn [opt_filter]; [split; done|].
    unfold PageSpan_is_empty, PageSpan_new. cbn [span_count].
    destruct (Z.eqb_spec (size / PAGE_SIZE) 0) as [H4|H4]; cbn [negb].
    + pose proof (Z.div_mod size PAGE_SIZE). unfold PAGE_SIZE in *. lia.
    + split; intros [= <-]; done.
Qed.

(** ** Witnesses *)

Module UserCopyWitnesses.
(** Sixteen accessible bytes at 0x1000. *)
Definition mem16 : UserMem := mkUserMem (list_to_map (map (fun a => (a, 0)) (addrs 0x1000 16))) ∅.

Lemma copy_from_slice_correct_witness :
  exists r m', copy_from_slice (mkUserSlice 0x1000 3) [7; 8; 9] mem16 = Done (r, m') /\
    only_in mem16 m' (fun a => in_slice a (mkUserSlice 0x1000 3) /\ 0 <= a < USER_END_OFFSET) /\
    match r with
    | Ok _ => 3 = Z.of_nat (length [7; 8; 9]) /\ copy_from_user m' 0x1000 3 = Some [7; 8; 9]
    | Err e => e = EINVAL /\ m' = mem16 /\ 3 <> Z.of_nat (length [7; 8; 9]) \/ e = EFAULT
    end.
Proof.
  apply (copy_from_slice_correct 0x1000 3 (mkUserSlice 0x1000 3) [7; 8; 9] mem16).
  - unfold usize_ok. lia.
  - unfold usize_ok. lia.
  - reflexivity.
Defined.

Lemma write_read_int_roundtrip_witness :
  exists m', write_int 8 (mkUserSlice 0x1000 8) 0x123456789a mem16 = Done (Ok tt, m') /\
    read_int 8 (mkUserSlice 0x1000 8) m' = Done (Ok 0x123456789a, m').
Proof.
  eexists. split; [vm_compute; reflexivity|].
  apply (write_read_int_roundtrip 8 (mkUserSlice 0x1000 8) 0x123456789a mem16); [simpl; lia|vm_compute; reflexivity].
Defined.
End UserCopyWitnesses.
