(* ===== verification/Sync.v ===== *)
(** * Blocking and waking contexts (src/context/context.rs, src/sync/)

    The scheduling state of contexts ([Context::block], [hard_block],
    [unblock]), [WaitCondition] and [WaitQueue].

    A call that blocks is split where it gives up the CPU: [wait_enter] runs up
    to [context::switch], [wait_leave] what follows it when the context runs
    again.  A [Weak<ContextLock>] is the identity of a context; upgrading it
    fails when the context is gone. *)

From S2P Require Import Prelude PageInfo FrameAllocator Rmm OrdMap Grants CpuSet UserCopy.
From Stdlib Require Export String.
From stdpp Require Export strings.
#[global] Open Scope Z_scope.
#[global] Open Scope list_scope.

(** ** Scheduling state *)

Inductive HardBlockedReason :=
| Stopped
| AwaitingMmap (file_ref : GrantFileRef)
| NotYetStarted.

Inductive Status :=
| Runnable
| Blocked
| HardBlocked (reason : HardBlockedReason)
| Dead.

Definition is_runnable (s : Status) : bool := match s with Runnable => true | _ => false end.
Definition is_soft_blocked (s : Status) : bool := match s with Blocked => true | _ => false end.

(** The fields of [Context] that blocking and scheduling use; [sig_pending] is
    whether [sigcontrol] reports a pending unblocked signal. *)
Record Ctx := mkCtx {
  status : Status;
  status_reason : string;
  running : bool;
  cpu_id : option Z;
  switch_time : Z;
  cpu_time : Z;
  sched_affinity : LogicalCpuSet;
  inside_syscall : bool;
  wake : option Z;
  userspace : bool;
  being_sigkilled : bool;
  preempt_locks : Z;
  sig_pending : bool;
}.

(** [Context::new] *)
Definition new_ctx : Ctx :=
  mkCtx (HardBlocked NotYetStarted) ""%string false None 0 0 cpu_all false None false false 0 false.

(** All contexts, the CPU that runs, the CPUs whose [switch_pending] is set, and
    the number of wake-up interrupts sent. *)
Record Sched := mkSched {
  ctxs : gmap Z Ctx;
  this_cpu : Z;
  switch_pending : gset Z;
  wakeup_ipis : nat;
}.

Definition set_status (s : Status) (reason : string) (c : Ctx) : Ctx :=
  mkCtx s reason (running c) (cpu_id c) (switch_time c) (cpu_time c) (sched_affinity c) (inside_syscall c) (wake c)
        (userspace c) (being_sigkilled c) (preempt_locks c) (sig_pending c).
Definition set_wake (w : option Z) (c : Ctx) : Ctx :=
  mkCtx (status c) (status_reason c) (running c) (cpu_id c) (switch_time c) (cpu_time c) (sched_affinity c) (inside_syscall c) w
        (userspace c) (being_sigkilled c) (preempt_locks c) (sig_pending c).
Definition set_ctx (cid : Z) (c : Ctx) (s : Sched) : Sched :=
  mkSched (<[cid := c]> (ctxs s)) (this_cpu s) (switch_pending s) (wakeup_ipis s).

(** The lock of a context, taken for reading or writing. *)
Definition the_ctx (cid : Z) : M Sched Ctx := fun s => unwrap (ctxs s !! cid) s.
Definition update_ctx (cid : Z) (f : Ctx -> Ctx) : M Sched unit :=
  let! c := the_ctx cid in modify (set_ctx cid (f c)).

(** [Context::block] *)
Definition block (cid : Z) (reason : string) : M Sched bool :=
  fun s =>
    match ctxs s !! cid with
    | None => Panic
    | Some c =>
        if is_runnable (status c) then Done (true, set_ctx cid (set_status Blocked reason c) s)
        else Done (false, s)
    end.

Definition hard_block (cid : Z) (reason : HardBlockedReason) : M Sched bool :=
  fun s =>
    match ctxs s !! cid with
    | None => Panic
    | Some c =>
        if is_runnable (status c)
        then Done (true, set_ctx cid (set_status (HardBlocked reason) (status_reason c) c) s)
        else Done (false, s)
    end.

Definition unblock_no_ipi (cid : Z) : M Sched bool :=
  fun s =>
    match ctxs s !! cid with
    | None => Panic
    | Some c =>
        if is_soft_blocked (status c) then Done (true, set_ctx cid (set_status Runnable ""%string c) s)
        else Done (false, s)
    end.

Definition unblock (cid : Z) : M Sched bool :=
  let! u := unblock_no_ipi cid in
  if u then
    fun s =>
      let remote := match ctxs s !! cid with
                    | Some c => match cpu_id c with Some cpu => negb (cpu =? this_cpu s) | None => false end
                    | None => false
                    end in
      Done (true, mkSched (ctxs s) (this_cpu s) ({[this_cpu s]} ∪ switch_pending s) (wakeup_ipis s + (if remote then 1 else 0))%nat)
  else ret false.

(** ** Wait conditions *)

Definition WaitCondition : Type := list Z.

(** [context_weak.upgrade()], then [unblock] *)
Definition wake_one (cid : Z) : M Sched unit :=
  fun s =>
    match ctxs s !! cid with
    | None => Done (tt, s)
    | Some _ => (unblock cid ;;; ret tt) s
    end.

(** [notify] pops from the back until the list is empty. *)
Definition notify (contexts : WaitCondition) : M Sched (Z * WaitCondition) :=
  forM (rev contexts) wake_one ;;; ret (Z.of_nat (length contexts), []).

Definition notify_signal (contexts : WaitCondition) : M Sched (Z * WaitCondition) :=
  forM contexts wake_one ;;; ret (Z.of_nat (length contexts), contexts).

(** [wait] up to the switch: [None] when it returns [false] at once. *)
Definition wait_enter (cid : Z) (reason : string) (contexts : WaitCondition) : M Sched (option WaitCondition) :=
  fun s =>
    match ctxs s !! cid with
    | None => Panic
    | Some c =>
        if sig_pending c then Done (None, s)
        else (block cid reason ;;; ret (Some (contexts ++ [cid]))) s
    end.

(** The search loop of [wait] for the context's own entry. *)
Fixpoint remove_first (cid : Z) (contexts : WaitCondition) : WaitCondition :=
  match contexts with
  | [] => []
  | x :: l => if x =? cid then l else x :: remove_first cid l
  end.

(** [wait] after the switch: whether it was notified, and the list without the
    context. *)
Definition wait_leave (cid : Z) (contexts : WaitCondition) : bool * WaitCondition :=
  if bool_decide (cid ∈ contexts) then (false, remove_first cid contexts) else (true, contexts).

(** ** Wait queues *)

Section wait_queue.
Context {T : Type}.

Record WaitQueue := mkWaitQueue { wq_inner : list T; condition : WaitCondition }.

Definition wq_new : WaitQueue := mkWaitQueue [] [].
Definition is_currently_empty (q : WaitQueue) : bool := match wq_inner q with [] => true | _ => false end.

(** One round of a blocking loop. *)
Inductive attempt (A : Type) :=
| Finished (r : result Error A)
| MustWait.
Arguments Finished {A} r.
Arguments MustWait {A}.

(** One round of [receive]. *)
Definition receive (block_ : bool) (q : WaitQueue) : attempt T * WaitQueue :=
  match wq_inner q with
  | t :: l => (Finished (Ok t), mkWaitQueue l (condition q))
  | [] => if block_ then (MustWait, q) else (Finished (Err EAGAIN), q)
  end.

Definition send (value : T) (q : WaitQueue) : M Sched (Z * WaitQueue) :=
  let inner := wq_inner q ++ [value] in
  let! '(_, c) := notify (condition q) in
  ret (Z.of_nat (length inner), mkWaitQueue inner c).

(** One round of [receive_into_user].  A value is the [size] bytes
    [to_bytes] gives; [pivot] is where the ring buffer of the [VecDeque]
    happens to wrap. *)
Definition receive_into_user (to_bytes : T -> list Z) (size : Z) (pivot : nat) (buf : UserSlice) (block_ : bool)
  (q : WaitQueue) : M UserMem (attempt Z * WaitQueue) :=
  match wq_inner q with
  | [] =>
      if block_ then ret (MustWait, q)
      else if us_is_empty buf then ret (Finished (Ok 0), q)
      else if us_len buf <? size then ret (Finished (Err EINVAL), q)
      else ret (Finished (Err EAGAIN), q)
  | inner =>
      let s1_bytes := concat (map to_bytes (take pivot inner)) in
      let s2_bytes := concat (map to_bytes (drop pivot inner)) in
      let! r := (let? n1 := copy_common_bytes_from_slice buf s1_bytes in
                 match advance buf (Z.of_nat (length s1_bytes)) with
                 | Some buf_for_s2 => let? n2 := copy_common_bytes_from_slice buf_for_s2 s2_bytes in ok (usize_add n1 n2)
                 | None => ok n1
                 end) in
      match r with
      | Err e => ret (Finished (Err e), q)
      | Ok n => ret (Finished (Ok n), mkWaitQueue (drop (Z.to_nat (n / size)) inner) (condition q))
      end
  end.
End wait_queue.
Arguments Finished {A} r.
Arguments MustWait {A}.
