(* ===== verification/SyncSpec.v ===== *)
(** * Lemmas on blocking and waking contexts

    What the operations of Sync.v do to the table of contexts. *)

From S2P Require Import Prelude PageInfo FrameAllocator Rmm OrdMap Grants CpuSet UserCopy Sync.

(** ** One context *)

Lemma set_ctx_same cid c s : ctxs s !! cid = Some c -> set_ctx cid c s = s.
Proof. intros H. destruct s. unfold set_ctx. cbn in *. by rewrite insert_id. Qed.

Lemma the_ctx_run cid c s : ctxs s !! cid = Some c -> the_ctx cid s = Done (c, s).
Proof. intros H. unfold the_ctx. by rewrite H. Qed.
Lemma update_ctx_run cid f c s : ctxs s !! cid = Some c -> update_ctx cid f s = Done (tt, set_ctx cid (f c) s).
Proof. intros H. unfold update_ctx. by rewrite (bind_Done _ _ _ _ _ (the_ctx_run _ _ _ H)). Qed.
Lemma set_ctx_twice cid c c' s : set_ctx cid c (set_ctx cid c' s) = set_ctx cid c s.
Proof. unfold set_ctx. cbn. by rewrite insert_insert_eq. Qed.

(** ** Waking *)

Definition woken (c : Ctx) : Ctx := if is_soft_blocked (status c) then set_status Runnable ""%string c else c.

Lemma wake_one_run cid s : exists s', wake_one cid s = Done (tt, s') /\
  (forall x, ctxs s' !! x = if decide (x = cid) then woken <$> ctxs s !! x else ctxs s !! x).
Proof.
  unfold wake_one, unblock, unblock_no_ipi, bind. destruct (ctxs s !! cid) as [c|] eqn:Hc.
  - destruct (is_soft_blocked (status c)) eqn:Hb; cbn [ret].
    + eexists. split; [reflexivity|]. intros x. cbn [ctxs set_ctx]. destruct (decide (x = cid)) as [->|Hne].
      * rewrite lookup_insert_eq, Hc. simpl. unfold woken. by rewrite Hb.
      * by rewrite lookup_insert_ne.
    + exists s. split; [done|]. intros x. case_decide; [subst|done]. rewrite Hc. simpl. unfold woken. by rewrite Hb.
  - exists s. split; [done|]. intros x. case_decide; [subst; by rewrite Hc|done].
Qed.

Lemma unblock_run cid c s : ctxs s !! cid = Some c -> exists b s', unblock cid s = Done (b, s') /\
  this_cpu s' = this_cpu s /\ ctxs s' = <[cid := woken c]> (ctxs s).
Proof.
  intros Hc. unfold unblock, unblock_no_ipi, bind. rewrite Hc. unfold woken. destruct (is_soft_blocked (status c)); cbn [ret].
  - by eexists _, _.
  - eexists _, _. split; [reflexivity|]. by rewrite insert_id.
Qed.

Lemma woken_idem c : woken (woken c) = woken c.
Proof. unfold woken. by destruct (status c) eqn:E; simpl; rewrite ?E. Qed.

Lemma wake_all_run l : forall s, exists s', forM l wake_one s = Done (tt, s') /\
  (forall x, ctxs s' !! x = if decide (x ∈ l) then woken <$> ctxs s !! x else ctxs s !! x).
Proof.
  induction l as [|cid l IH]; intros s.
  - exists s. split; [done|]. intros x. by rewrite decide_False by apply not_elem_of_nil.
  - destruct (wake_one_run cid s) as (s1 & H1 & Hc1). destruct (IH s1) as (s2 & H2 & Hc2).
    exists s2. cbn [forM]. rewrite (bind_Done _ _ _ _ _ H1). split; [exact H2|]. intros x. rewrite Hc2, Hc1.
    destruct (decide (x = cid)) as [->|Hne].
    + rewrite (decide_True (P := cid ∈ cid :: l)) by apply list_elem_of_here.
      case_decide; [|done]. destruct (ctxs s !! cid); simpl; [by rewrite woken_idem|done].
    + destruct (decide (x ∈ l)); [rewrite decide_True by (by apply list_elem_of_further); done|].
      rewrite decide_False; [done|]. by intros [?|?]%elem_of_cons.
Qed.

(** [notify] empties the list and wakes every context on it. *)
Lemma notify_run l s : exists s', notify l s = Done ((Z.of_nat (length l), []), s') /\
  (forall x, ctxs s' !! x = if decide (x ∈ l) then woken <$> ctxs s !! x else ctxs s !! x).
Proof.
  destruct (wake_all_run (rev l) s) as (s' & H & Hc). exists s'. unfold notify. rewrite (bind_Done _ _ _ _ _ H).
  split; [done|]. intros x. rewrite Hc. assert (Hr : x ∈ rev l <-> x ∈ l) by (rewrite !list_elem_of_In; symmetry; apply in_rev).
  repeat case_decide; tauto.
Qed.

Lemma woken_not_blocked c : status (woken c) <> Blocked.
Proof. unfold woken. destruct (status c) eqn:E; simpl; rewrite ?E; done. Qed.

(** ** Sleepers that other code puts back to sleep

    A context blocks itself, and others make it runnable.  The one place of the
    kernel where a context is put to sleep by another is [try_stop_context], which
    gives the context the status back that it had before the stop, and so undoes a
    wake-up that came in between.  The transition systems of the calls that sleep
    let the rest of the kernel change contexts at will and mark such a context. *)

Definition asleep (s : Sched) (cid : Z) : bool :=
  match ctxs s !! cid with Some c => is_soft_blocked (status c) | None => false end.
Definition put_back (s s' : Sched) (cid : Z) : bool := asleep s' cid && negb (asleep s cid).

Lemma asleep_spec s cid : asleep s cid = true <-> exists c, ctxs s !! cid = Some c /\ status c = Blocked.
Proof.
  unfold asleep. destruct (ctxs s !! cid) as [c|]; [|split; [done|intros (? & ? & _); done]]. split.
  - intros H. exists c. split; [done|]. by destruct (status c).
  - intros (? & [= <-] & ->). done.
Qed.

Lemma put_back_spec s s' cid : put_back s s' cid = true <-> asleep s' cid = true /\ asleep s cid = false.
Proof. unfold put_back. rewrite andb_true_iff, negb_true_iff. done. Qed.

(** Whoever sleeps after a step without being marked slept before. *)
Lemma put_back_false s s' cid : put_back s s' cid = false -> asleep s' cid = true -> asleep s cid = true.
Proof. unfold put_back. intros H Hs. rewrite Hs in H. by destruct (asleep s cid). Qed.
