(* ===== verification/Pipe.v ===== *)
(** * Pipes (src/scheme/pipe.rs)

    Pipes are shared objects ([Arc<Pipe>]): a call that is blocked on a pipe
    keeps the object alive after both ends were closed and the key left the
    [PIPES] map.  So [heap] holds the objects and [listed] the keys of the map.
    [event::trigger] is recorded in order in [triggered].  [users] is the user
    memory of each context. *)

From S2P Require Import Prelude PageInfo FrameAllocator Rmm OrdMap Grants UserCopy Sync.

Definition MAX_QUEUE_SIZE : Z := 65536.
Definition WRITE_NOT_READ_BIT : Z := 1.

Definition from_raw_id (id : Z) : bool * Z :=
  (negb (Z.land id WRITE_NOT_READ_BIT =? 0), Z.land id (usize_not WRITE_NOT_READ_BIT)).

(** The event flags a pipe uses. *)
Record EventFlags := mkEventFlags { event_read : bool; event_write : bool }.
Definition EVENT_READ : EventFlags := mkEventFlags true false.
Definition EVENT_WRITE : EventFlags := mkEventFlags false true.

Record Pipe := mkPipe {
  read_condition : WaitCondition;
  write_condition : WaitCondition;
  queue : list Z;
  reader_is_alive : bool;
  writer_is_alive : bool;
  has_run_dup : bool;
}.

Record PipeState := mkPS {
  heap : gmap Z Pipe;
  listed : gset Z;
  PIPE_NEXT_ID : Z;
  sched : Sched;
  triggered : list (Z * EventFlags);
  users : gmap Z UserMem;
}.

Definition put_pipe (key : Z) (p : Pipe) (s : PipeState) : PipeState :=
  mkPS (<[key := p]> (heap s)) (listed s) (PIPE_NEXT_ID s) (sched s) (triggered s) (users s).
Definition set_sched (x : Sched) (s : PipeState) : PipeState :=
  mkPS (heap s) (listed s) (PIPE_NEXT_ID s) x (triggered s) (users s).

Definition set_queue (q : list Z) (p : Pipe) : Pipe :=
  mkPipe (read_condition p) (write_condition p) q (reader_is_alive p) (writer_is_alive p) (has_run_dup p).
Definition set_read_condition (c : WaitCondition) (p : Pipe) : Pipe :=
  mkPipe c (write_condition p) (queue p) (reader_is_alive p) (writer_is_alive p) (has_run_dup p).
Definition set_write_condition (c : WaitCondition) (p : Pipe) : Pipe :=
  mkPipe (read_condition p) c (queue p) (reader_is_alive p) (writer_is_alive p) (has_run_dup p).
Definition set_alive (r w : bool) (p : Pipe) : Pipe :=
  mkPipe (read_condition p) (write_condition p) (queue p) r w (has_run_dup p).
Definition set_dup (p : Pipe) : Pipe :=
  mkPipe (read_condition p) (write_condition p) (queue p) (reader_is_alive p) (writer_is_alive p) true.

(** Access to a pipe object that the caller holds. *)
Definition the_pipe (key : Z) : M PipeState Pipe := fun s => unwrap (heap s !! key) s.
Definition update_pipe (key : Z) (f : Pipe -> Pipe) : M PipeState unit :=
  let! p := the_pipe key in modify (put_pipe key (f p)).
(** [PIPES.read().get(&key).ok_or(EBADF)] *)
Definition lookup_pipe (key : Z) : M PipeState (result Error Pipe) :=
  fun s => if bool_decide (key ∈ listed s)
           then match heap s !! key with Some p => Done (Ok p, s) | None => Panic end
           else Done (Err EBADF, s).

Definition with_sched {A} (m : M Sched A) : M PipeState A :=
  fun s => match m (sched s) with
           | Done (a, x) => Done (a, set_sched x s)
           | Panic => Panic
           end.
Definition with_user {A} (cid : Z) (m : M UserMem A) : M PipeState A :=
  fun s => match m (default (mkUserMem ∅ ∅) (users s !! cid)) with
           | Done (a, u) => Done (a, mkPS (heap s) (listed s) (PIPE_NEXT_ID s) (sched s) (triggered s) (<[cid := u]> (users s)))
           | Panic => Panic
           end.
Definition event_trigger (number : Z) (flags : EventFlags) : M PipeState unit :=
  modify (fun s => mkPS (heap s) (listed s) (PIPE_NEXT_ID s) (sched s) (triggered s ++ [(number, flags)]) (users s)).

Definition notify_read (key : Z) : M PipeState unit :=
  let! p := the_pipe key in
  let! '(_, c) := with_sched (notify (read_condition p)) in
  update_pipe key (set_read_condition c).
Definition notify_write (key : Z) : M PipeState unit :=
  let! p := the_pipe key in
  let! '(_, c) := with_sched (notify (write_condition p)) in
  update_pipe key (set_write_condition c).

(** ** Creation, duplication, closing *)

Definition pipe : M PipeState (Z * Z) :=
  fun s =>
    let id := PIPE_NEXT_ID s in
    Done ((id, Z.lor id WRITE_NOT_READ_BIT),
          mkPS (<[id := mkPipe [] [] [] true true false]> (heap s)) ({[id]} ∪ listed s) (usize_add id 2)
               (sched s) (triggered s) (users s)).

Definition fevent (id : Z) (flags : EventFlags) : M PipeState (result Error EventFlags) :=
  let '(is_writer_not_reader, key) := from_raw_id id in
  let? p := lookup_pipe key in
  ok (mkEventFlags
        (negb is_writer_not_reader && event_read flags
         && (negb (bool_decide (queue p = [])) || negb (writer_is_alive p)))
        (is_writer_not_reader && event_write flags
         && ((Z.of_nat (length (queue p)) <=? MAX_QUEUE_SIZE) || negb (reader_is_alive p)))).

Definition close (id : Z) : M PipeState (result Error unit) :=
  let '(is_write_not_read, key) := from_raw_id id in
  let? _ := lookup_pipe key in
  let! can_remove :=
    if is_write_not_read then
      update_pipe key (fun p => set_alive (reader_is_alive p) false p) ;;;
      event_trigger key EVENT_READ ;;;
      notify_read key ;;;
      let! p := the_pipe key in ret (negb (reader_is_alive p))
    else
      update_pipe key (fun p => set_alive false (writer_is_alive p) p) ;;;
      event_trigger (Z.lor key WRITE_NOT_READ_BIT) EVENT_WRITE ;;;
      notify_write key ;;;
      let! p := the_pipe key in ret (negb (writer_is_alive p)) in
  (if can_remove
   then modify (fun s => mkPS (heap s) (listed s ∖ {[key]}) (PIPE_NEXT_ID s) (sched s) (triggered s) (users s))
   else ret tt) ;;;
  ok tt.

(** [has_run_dup.swap(true)]; the handle of the write end. *)
Definition take_write_end (key : Z) : M PipeState (result Error Z) :=
  let? p := lookup_pipe key in
  update_pipe key set_dup ;;;
  if has_run_dup p then err EBADF else ok (Z.lor key WRITE_NOT_READ_BIT).

(** The bytes of "write" *)
Definition write_name : list Z := [119; 114; 105; 116; 101].

Definition kdup (cid old_id : Z) (user_buf : UserSlice) : M PipeState (result Error Z) :=
  let '(is_writer_not_reader, key) := from_raw_id old_id in
  if is_writer_not_reader then err EBADF
  else
    let? buf := with_user cid (copy_common_bytes_to_slice user_buf 5) in
    if (Z.of_nat (length buf) <? 5) || negb (bool_decide (buf = write_name)) then err EINVAL
    else take_write_end key.

(** [path.trim_start_matches('/').is_empty()] on the bytes of the path. *)
Definition only_slashes (path : list Z) : bool := forallb (fun b => b =? 47) path.

Definition kopen (path : list Z) : M PipeState (result Error Z) :=
  if negb (only_slashes path) then err ENOENT
  else let! '(read_id, _) := pipe in ok read_id.

(** [buf] is the path, [None] when it is not UTF-8. *)
Definition kopenat (id : Z) (buf : option (list Z)) : M PipeState (result Error Z) :=
  let '(_, key) := from_raw_id id in
  match buf with
  | None => err EINVAL
  | Some buf => if bool_decide (buf = write_name) then err EINVAL else take_write_end key
  end.

(** ** Reading and writing

    One round of the loop of [kread], up to the call of [wait].  [pivot] is
    where the ring buffer of the queue wraps ([as_slices]). *)
Definition read_copy (cid : Z) (pivot : nat) (user_buf : UserSlice) (vec : list Z) : M UserMem (result Error Z) :=
  let s1 := take pivot vec in
  let s2 := drop pivot vec in
  let s1_count := Z.min (us_len user_buf) (Z.of_nat (length s1)) in
  let! '(s1_dst, s2_buf) := unwrap (split_at user_buf s1_count) in
  let? _ := copy_from_slice s1_dst (take (Z.to_nat s1_count) s1) in
  let s2_count := Z.min (us_len s2_buf) (Z.of_nat (length s2)) in
  let! s2_dst := unwrap (limit s2_buf s2_count) in
  let? _ := copy_from_slice s2_dst (take (Z.to_nat s2_count) s2) in
  ok (s1_count + s2_count).

Definition read_round (cid key : Z) (pivot : nat) (user_buf : UserSlice) (nonblock : bool) : M PipeState (attempt Z) :=
  let! p := the_pipe key in
  let! r := with_user cid (read_copy cid pivot user_buf (queue p)) in
  match r with
  | Err e => ret (Finished (Err e))
  | Ok bytes_read =>
      update_pipe key (set_queue (drop (Z.to_nat bytes_read) (queue p))) ;;;
      if 0 <? bytes_read then
        event_trigger (Z.lor key WRITE_NOT_READ_BIT) EVENT_WRITE ;;;
        notify_write key ;;;
        ret (Finished (Ok bytes_read))
      else if us_is_empty user_buf then ret (Finished (Ok 0))
      else
        let! p := the_pipe key in
        if negb (writer_is_alive p) then ret (Finished (Ok 0))
        else if nonblock then ret (Finished (Err EAGAIN))
        else ret MustWait
  end.

(** The checks before the loop: the key of the pipe. *)
Definition read_start (id : Z) : M PipeState (result Error Z) :=
  let '(is_write_not_read, key) := from_raw_id id in
  if is_write_not_read then err EBADF
  else let? _ := lookup_pipe key in ok key.

Definition TMPBUF_SIZE : Z := 512.

(** The loop over the chunks: the bytes taken, or the error of the first chunk. *)
Fixpoint write_chunks (first : bool) (chunks : list UserSlice) : M UserMem (result Error (list Z)) :=
  match chunks with
  | [] => ok []
  | chunk :: chunks' =>
      let! r := copy_common_bytes_to_slice chunk TMPBUF_SIZE in
      match r with
      | Ok bytes => let? rest := write_chunks false chunks' in ok (bytes ++ rest)
      | Err e => if first then err e else ok []
      end
  end.

Definition write_round (cid key : Z) (user_buf : UserSlice) (nonblock : bool) : M PipeState (attempt Z) :=
  let! p := the_pipe key in
  if negb (reader_is_alive p) then ret (Finished (Err EPIPE))
  else
    let bytes_left := saturating_sub MAX_QUEUE_SIZE (Z.of_nat (length (queue p))) in
    let bytes_to_write := Z.min bytes_left (us_len user_buf) in
    let! r := with_user cid (
      let! src_buf := unwrap (limit user_buf bytes_to_write) in
      let! chunks := in_variable_chunks src_buf TMPBUF_SIZE in
      write_chunks true chunks) in
    match r with
    | Err e => ret (Finished (Err e))
    | Ok bytes =>
        update_pipe key (set_queue (queue p ++ bytes)) ;;;
        if 0 <? Z.of_nat (length bytes) then
          event_trigger key EVENT_READ ;;;
          notify_read key ;;;
          ret (Finished (Ok (Z.of_nat (length bytes))))
        else if us_is_empty user_buf then ret (Finished (Ok 0))
        else if nonblock then ret (Finished (Err EAGAIN))
        else ret MustWait
    end.

Definition write_start (id : Z) : M PipeState (result Error Z) :=
  let '(is_write_not_read, key) := from_raw_id id in
  if negb is_write_not_read then err EBADF
  else let? _ := lookup_pipe key in ok key.

(** [wait] on a condition of the pipe, before and after the switch. *)
Definition read_block (cid key : Z) : M PipeState bool :=
  let! p := the_pipe key in
  let! c := with_sched (wait_enter cid "PipeRead::read"%string (read_condition p)) in
  match c with
  | None => ret false
  | Some c => update_pipe key (set_read_condition c) ;;; ret true
  end.
Definition read_wake (cid key : Z) : M PipeState bool :=
  let! p := the_pipe key in
  let '(waited, c) := wait_leave cid (read_condition p) in
  update_pipe key (set_read_condition c) ;;; ret waited.
Definition write_block (cid key : Z) : M PipeState bool :=
  let! p := the_pipe key in
  let! c := with_sched (wait_enter cid "PipeWrite::write"%string (write_condition p)) in
  match c with
  | None => ret false
  | Some c => update_pipe key (set_write_condition c) ;;; ret true
  end.
Definition write_wake (cid key : Z) : M PipeState bool :=
  let! p := the_pipe key in
  let '(waited, c) := wait_leave cid (write_condition p) in
  update_pipe key (set_write_condition c) ;;; ret waited.
