(* ===== verification/PipeSpec.v ===== *)
(** * Correctness of pipes

    First what one round of [kread] and [kwrite] does to the queue and to user
    memory, whatever the layout of the ring buffer.  Then the interleaving of
    any number of readers, writers, closes and signals as a transition system
    whose steps are the code between two points where the kernel may switch:
    bytes leave in the order they entered, the queue stays bounded, and no
    context sleeps on a pipe that could serve it. *)

From S2P Require Import Prelude PageInfo FrameAllocator Rmm OrdMap Grants UserCopy Sync SyncSpec Pipe.

(** ** One round of reading *)

Lemma addrs_app a b : forall base, addrs base (Z.of_nat (a + b)) = addrs base (Z.of_nat a) ++ addrs (base + Z.of_nat a) (Z.of_nat b).
Proof.
  induction a as [|a IH]; intros base.
  - change (addrs base (Z.of_nat 0)) with (@nil Z). cbn [Nat.add app]. by rewrite Z.add_0_r.
  - cbn [Nat.add]. rewrite !addrs_cons, IH. cbn [app]. do 2 f_equal. f_equal. lia.
Qed.

Lemma mapM_app_Some {A B} (f : A -> option B) l1 l2 r1 r2 :
  mapM f l1 = Some r1 -> mapM f l2 = Some r2 -> mapM f (l1 ++ l2) = Some (r1 ++ r2).
Proof. rewrite !mapM_Some. intros H1 H2. by apply Forall2_app. Qed.

Lemma copy_from_user_app m base a b x y :
  copy_from_user m base (Z.of_nat a) = Some x -> copy_from_user m (base + Z.of_nat a) (Z.of_nat b) = Some y ->
  copy_from_user m base (Z.of_nat (a + b)) = Some (x ++ y).
Proof. unfold copy_from_user. intros Hx Hy. rewrite addrs_app. by apply mapM_app_Some. Qed.

Lemma copy_from_user_same m m' base n :
  (forall a, base <= a < base + n -> um_bytes m' !! a = um_bytes m !! a) -> copy_from_user m' base n = copy_from_user m base n.
Proof.
  intros H. unfold copy_from_user. assert (Ha : Forall (fun a => um_bytes m' !! a = um_bytes m !! a) (addrs base n)).
  { apply Forall_forall. intros a Ha. apply H. unfold addrs, range in Ha. apply list_elem_of_In, in_map_iff in Ha as (i & <- & Hi).
    apply in_map_iff in Hi as (j & <- & Hj%in_seq). lia. }
  induction Ha as [|a l Ha _ IH]; [done|]. cbn [mapM]. by rewrite Ha, IH.
Qed.

(** A byte of the buffer that cannot be written, or read. *)
Definition unwritable (m : UserMem) (buf : UserSlice) : Prop :=
  exists a, in_slice a buf /\ (um_bytes m !! a = None \/ a ∈ um_readonly m).
Definition unreadable (m : UserMem) (buf : UserSlice) : Prop := exists a, in_slice a buf /\ um_bytes m !! a = None.

Lemma copy_to_user_false bytes : forall base m m', copy_to_user base bytes m = (false, m') ->
  unwritable m (mkUserSlice base (Z.of_nat (length bytes))).
Proof.
  induction bytes as [|x bytes IH]; intros base m m' Hrun; cbn [copy_to_user] in Hrun; [done|].
  assert (Hin : in_slice base (mkUserSlice base (Z.of_nat (length (x :: bytes))))) by (unfold in_slice; cbn; lia).
  destruct (um_bytes m !! base) as [y|] eqn:Hy; [|exists base; auto].
  destruct (decide (base ∈ um_readonly m)); [exists base; auto|].
  destruct (IH _ _ _ Hrun) as (a & Ha & Hbad). cbn [um_bytes um_readonly] in Hbad. exists a. unfold in_slice in *. cbn [us_base us_len length] in *.
  split; [lia|]. by rewrite lookup_insert_ne in Hbad by lia.
Qed.

Lemma copy_from_user_None m base n : copy_from_user m base n = None -> unreadable m (mkUserSlice base n).
Proof.
  unfold copy_from_user. intros H. apply mapM_None, Exists_exists in H as (a & Ha & Hn). exists a. split; [|done].
  unfold addrs, range in Ha. apply list_elem_of_fmap in Ha as (i & -> & Hi). apply list_elem_of_fmap in Hi as (k & -> & Hk%elem_of_seq).
  unfold in_slice. cbn. lia.
Qed.

Lemma unreadable_sub m b n b' n' : b' <= b -> b + n <= b' + n' -> unreadable m (mkUserSlice b n) -> unreadable m (mkUserSlice b' n').
Proof. intros H1 H2 (a & Ha & Hn). exists a. unfold in_slice in *. cbn in *. split; [lia|done]. Qed.

Lemma unwritable_sub m m1 P b n buf : only_in m m1 P -> us_base buf <= b -> b + n <= us_base buf + us_len buf ->
  unwritable m1 (mkUserSlice b n) -> unwritable m buf.
Proof.
  intros (O1 & O2 & _) H1 H2 (a & Ha & Hn). exists a. unfold in_slice in *. cbn in *. split; [lia|].
  rewrite O1 in Hn. destruct Hn as [Hn|Hn]; [left|by right]. apply not_elem_of_dom. rewrite <- O2. by apply not_elem_of_dom.
Qed.

Lemma copy_from_slice_run sl bytes m : us_len sl = Z.of_nat (length bytes) ->
  exists b m', copy_from_slice sl bytes m = Done ((if b : bool then Ok tt else Err EFAULT), m') /\
    only_in m m' (fun a => in_slice a sl) /\ (b = true -> copy_from_user m' (us_base sl) (us_len sl) = Some bytes) /\
    (b = false -> unwritable m sl).
Proof.
  intros Hl. unfold copy_from_slice. rewrite Hl, Z.eqb_refl. cbn [negb].
  destruct (copy_to_user (us_base sl) bytes m) as [b m'] eqn:Hrun. destruct (copy_to_user_ok _ _ _ _ _ Hrun) as [Ho Hok].
  exists b, m'. destruct b; (split; [reflexivity|]); (split; [|split; [intros; by apply Hok|]]); try done.
  all: try (intros _; destruct sl as [b0 l0]; cbn [us_base us_len] in *; subst l0; by eapply copy_to_user_false).
  all: destruct Ho as (O1 & O2 & O3); split; [exact O1|split; [exact O2|]]; intros a Ha; apply O3; unfold in_slice in Ha; lia.
Qed.

Lemma only_in_trans m1 m2 m3 (P Q R : Z -> Prop) : only_in m1 m2 P -> only_in m2 m3 Q ->
  (forall a, P a \/ Q a -> R a) -> only_in m1 m3 R.
Proof.
  intros (A1 & A2 & A3) (B1 & B2 & B3) H. split; [congruence|]. split; [congruence|].
  intros a Ha. rewrite B3, A3; [done| |]; intros ?; apply Ha, H; tauto.
Qed.

(** Copying out of the queue gives its prefix, wherever the ring buffer wraps. *)
Lemma read_copy_ok cid pivot buf vec m : us_ok buf ->
  exists r m', read_copy cid pivot buf vec m = Done (r, m') /\ only_in m m' (fun a => in_slice a buf) /\
  match r with
  | Err e => e = EFAULT /\ unwritable m buf
  | Ok n => n = Z.min (us_len buf) (Z.of_nat (length vec)) /\
            copy_from_user m' (us_base buf) n = Some (take (Z.to_nat n) vec)
  end.
Proof.
  intros (H1 & H2 & H3). unfold read_copy. set (s1 := take pivot vec). set (s2 := drop pivot vec).
  assert (Hvec : vec = s1 ++ s2) by (symmetry; apply take_drop).
  set (c1 := Z.min (us_len buf) (Z.of_nat (length s1))). rewrite split_at_some by lia. cbn [unwrap]. rewrite bind_ret.
  assert (Hbuf : usize_add (us_base buf) c1 = us_base buf + c1 /\ usize_sub (us_len buf) c1 = us_len buf - c1).
  { unfold USER_END_OFFSET, PML4_SIZE in *. split; [apply usize_add_small|apply usize_sub_small]; lia. }
  destruct Hbuf as [-> ->].
  destruct (copy_from_slice_run (mkUserSlice (us_base buf) c1) (take (Z.to_nat c1) s1) m) as (b1 & m1 & R1 & O1 & K1 & F1).
  { cbn [us_len]. rewrite length_take. lia. }
  unfold bind_result. rewrite (bind_Done _ _ _ _ _ R1). cbn [us_base us_len] in *.
  destruct b1.
  2: { eexists _, m1. split; [reflexivity|]. split; [|split; [done|]].
       2: { eapply (unwritable_sub m m (fun _ => False) (us_base buf) c1 buf (only_in_refl _ _)); [lia|unfold c1; lia|by apply F1]. }
       eapply (only_in_trans m m m1); [apply only_in_refl with (P := fun _ => False)|exact O1|].
       intros a [[]|Ha]. unfold in_slice in *. cbn [us_base us_len] in *. lia. }
  specialize (K1 eq_refl). set (c2 := Z.min (us_len buf - c1) (Z.of_nat (length s2))).
  rewrite limit_some by (cbn [us_len]; lia). cbn [unwrap us_base]. rewrite bind_ret.
  destruct (copy_from_slice_run (mkUserSlice (us_base buf + c1) c2) (take (Z.to_nat c2) s2) m1) as (b2 & m2 & R2 & O2 & K2 & F2).
  { cbn [us_len]. rewrite length_take. lia. }
  rewrite (bind_Done _ _ _ _ _ R2). cbn [us_base us_len] in *.
  assert (Ho : only_in m m2 (fun a => in_slice a buf)).
  { eapply only_in_trans; [exact O1|exact O2|]. intros a [Ha|Ha]; unfold in_slice in *; cbn [us_base us_len] in *; lia. }
  destruct b2.
  2: { eexists _, m2. split; [reflexivity|]. split; [exact Ho|]. split; [done|].
       eapply (unwritable_sub m m1 _ (us_base buf + c1) c2 buf O1); [lia|lia|by apply F2]. } specialize (K2 eq_refl).
  eexists _, m2. split; [reflexivity|]. split; [exact Ho|].
  assert (Hn : c1 + c2 = Z.min (us_len buf) (Z.of_nat (length vec))) by (rewrite Hvec, length_app; lia).
  split; [exact Hn|].
  replace (c1 + c2) with (Z.of_nat (Z.to_nat c1 + Z.to_nat c2)) at 1 by lia.
  replace (take (Z.to_nat (c1 + c2)) vec) with (take (Z.to_nat c1) s1 ++ take (Z.to_nat c2) s2).
  - apply copy_from_user_app; rewrite !Z2Nat.id by lia; [|exact K2].
    rewrite <- K1. apply copy_from_user_same. intros a Ha. destruct O2 as (_ & _ & O2). apply O2.
    unfold in_slice. cbn [us_base us_len]. lia.
  - rewrite Hvec, take_app. replace (Z.to_nat (c1 + c2) - length s1)%nat with (Z.to_nat c2) by lia. f_equal.
    destruct (decide (c1 = Z.of_nat (length s1))) as [E|E]; [rewrite !take_ge by lia; done|].
    replace c2 with 0 by lia. by rewrite Z.add_0_r.
Qed.

(** ** One round of writing *)

(** The chunk at index [i] of a slice. *)
Definition chunk_at (sl : UserSlice) (i : nat) : UserSlice :=
  mkUserSlice (us_base sl + Z.of_nat i * TMPBUF_SIZE) (us_len sl - Z.of_nat i * TMPBUF_SIZE).

Lemma chunks_run {S} sl (s : S) : us_ok sl ->
  exists n, in_variable_chunks sl TMPBUF_SIZE s = Done (map (chunk_at sl) (seq 0 n), s) /\
    (forall i, (i < n)%nat -> Z.of_nat i * TMPBUF_SIZE < us_len sl) /\ (0 < us_len sl -> (0 < n)%nat) /\
    us_len sl <= Z.of_nat n * TMPBUF_SIZE.
Proof.
  intros (H1 & H2 & H3). set (n := Z.to_nat (div_ceil (us_len sl) TMPBUF_SIZE)). exists n.
  assert (Hn : forall i, (i < n)%nat -> Z.of_nat i * TMPBUF_SIZE < us_len sl).
  { intros i Hi. unfold n, div_ceil, TMPBUF_SIZE in *.
    pose proof (Z.div_mod (us_len sl + 512 - 1) 512 ltac:(lia)).
    pose proof (Z.mod_pos_bound (us_len sl + 512 - 1) 512 ltac:(lia)). lia. }
  split; [|split; [exact Hn|split]].
  - unfold in_variable_chunks, step_by, range. fold n.
    assert (Hm : mapM (advance sl) (map (fun i => i * TMPBUF_SIZE) (map Z.of_nat (seq 0 n))) = Some (map (chunk_at sl) (seq 0 n))).
    { apply mapM_Some. rewrite map_map. apply Forall2_fmap_l, Forall2_fmap_r, Forall_Forall2_diag, Forall_forall.
      intros i Hi%elem_of_seq. specialize (Hn i ltac:(lia)). unfold advance, compose. rewrite split_at_some by lia.
      cbn [fmap option_fmap option_map snd]. unfold chunk_at. unfold USER_END_OFFSET, PML4_SIZE, TMPBUF_SIZE in *.
      rewrite usize_add_small, usize_sub_small by lia. done. }
    by rewrite Hm.
  - intros Hp. unfold n, div_ceil, TMPBUF_SIZE. pose proof (Z.div_le_lower_bound (us_len sl + 512 - 1) 512 1 ltac:(lia)). lia.
  - unfold n, div_ceil, TMPBUF_SIZE. pose proof (Z.div_mod (us_len sl + 512 - 1) 512 ltac:(lia)).
    pose proof (Z.mod_pos_bound (us_len sl + 512 - 1) 512 ltac:(lia)). lia.
Qed.

Lemma copy_common_run ch n m : 0 <= us_len ch -> 0 <= n ->
  copy_common_bytes_to_slice ch n m =
    Done (match copy_from_user m (us_base ch) (Z.min (us_len ch) n) with Some b => Ok b | None => Err EFAULT end, m).
Proof.
  intros Hl Hn. unfold copy_common_bytes_to_slice. rewrite limit_some by lia. cbn [unwrap]. rewrite bind_ret.
  unfold copy_to_slice. cbn [us_base us_len]. rewrite Z.eqb_refl. cbn [negb]. by destruct (copy_from_user _ _ _).
Qed.

Lemma copy_from_user_length m base n b : 0 <= n -> copy_from_user m base n = Some b -> Z.of_nat (length b) = n.
Proof.
  intros Hn H. unfold copy_from_user in H. apply length_mapM in H. unfold addrs, range in H. rewrite !length_map, length_seq in H. lia.
Qed.

Lemma write_chunks_ok sl m n : forall j first, (forall i, (i < j + n)%nat -> Z.of_nat i * TMPBUF_SIZE < us_len sl) ->
  (n = 0%nat -> Z.of_nat j * TMPBUF_SIZE <= us_len sl \/ first = false) ->
  exists r, write_chunks first (map (chunk_at sl) (seq j n)) m = Done (r, m) /\
  match r with
  | Ok bytes => copy_from_user m (us_base sl + Z.of_nat j * TMPBUF_SIZE) (Z.of_nat (length bytes)) = Some bytes /\
      (bytes <> [] -> Z.of_nat j * TMPBUF_SIZE + Z.of_nat (length bytes) <= us_len sl) /\
      ((0 < n)%nat -> first = true -> bytes <> []) /\
      (us_len sl <= Z.of_nat (j + n) * TMPBUF_SIZE -> Z.of_nat j * TMPBUF_SIZE + Z.of_nat (length bytes) < us_len sl ->
         unreadable m sl)
  | Err e => e = EFAULT /\ first = true /\ unreadable m sl
  end.
Proof.
  induction n as [|n IH]; intros j first Hlt Hz.
  { exists (Ok []). split; [done|]. split; [done|]. split; [done|]. split; [lia|]. cbn [length]. rewrite Nat.add_0_r. lia. }
  cbn [seq map write_chunks]. pose proof (Hlt j ltac:(lia)) as Hj. set (k := Z.min (us_len (chunk_at sl j)) TMPBUF_SIZE).
  assert (Hk : 0 < k) by (unfold k, chunk_at, TMPBUF_SIZE in *; cbn [us_len]; lia).
  rewrite (bind_Done _ _ _ _ _ (copy_common_run (chunk_at sl j) TMPBUF_SIZE m ltac:(unfold chunk_at; cbn [us_len]; lia) ltac:(unfold TMPBUF_SIZE; lia))).
  fold k. cbn [us_base chunk_at]. destruct (copy_from_user m _ k) as [b|] eqn:Hb.
  2: { assert (Hun : unreadable m sl).
       { apply copy_from_user_None in Hb. destruct sl as [b0 l0]. eapply unreadable_sub; [| |exact Hb];
         unfold k, chunk_at, TMPBUF_SIZE in *; cbn [us_base us_len] in *; lia. }
       destruct first; [exists (Err EFAULT); split; [reflexivity|done]|].
       exists (Ok []). split; [reflexivity|]. split; [done|]. split; [done|done]. }
  pose proof (copy_from_user_length _ _ k _ ltac:(lia) Hb) as Hlb.
  destruct (IH (S j) false) as (r & Hrun & Hr).
  { intros i Hi. apply Hlt. lia. } { by right. }
  unfold bind_result. rewrite (bind_Done _ _ _ _ _ Hrun). destruct r as [rest|e]; [|by destruct Hr as (_ & ? & _)].
  destruct Hr as (Hc & Hle & _ & Hshort). exists (Ok (b ++ rest)). split; [reflexivity|].
  assert (Hbn : b <> []) by (intros ->; cbn [length] in Hlb; lia).
  split; [|split; [|split; [intros _ _; by destruct b|]]].
  - rewrite length_app. apply copy_from_user_app; [by rewrite Hlb|]. destruct rest as [|x rest]; [done|].
    specialize (Hle ltac:(done)). rewrite <- Hc. f_equal. rewrite Hlb. unfold k, chunk_at in *. cbn [us_len length] in *. lia.
  - intros _. rewrite length_app. destruct rest as [|x rest].
    + cbn [length]. unfold k, chunk_at in *. cbn [us_len] in *. lia.
    + specialize (Hle ltac:(done)). unfold k, chunk_at in *. cbn [us_len] in *. lia.
  - rewrite length_app. intros Hn1 Hn2. apply Hshort; [by replace (S j + n)%nat with (j + S n)%nat by lia|].
    assert (k = TMPBUF_SIZE \/ k = us_len sl - Z.of_nat j * TMPBUF_SIZE) by (unfold k, chunk_at; cbn [us_len]; lia). lia.
Qed.

(** ** The rounds on a pipe *)

(** [s'] differs from [s] only in user memory and as the arguments say. *)
Record moved (s s' : PipeState) (h : gmap Z Pipe) (wake : list Z) (evs : list (Z * EventFlags)) : Prop := {
  mv_heap : heap s' = h;
  mv_listed : listed s' = listed s;
  mv_next : PIPE_NEXT_ID s' = PIPE_NEXT_ID s;
  mv_ctxs : forall x, ctxs (sched s') !! x = if decide (x ∈ wake) then woken <$> ctxs (sched s) !! x else ctxs (sched s) !! x;
  mv_events : triggered s' = triggered s ++ evs
}.

Lemma moved_refl s u : moved s (mkPS (heap s) (listed s) (PIPE_NEXT_ID s) (sched s) (triggered s) u) (heap s) [] [].
Proof. split; [done..|intros x; by rewrite decide_False by apply not_elem_of_nil|by rewrite app_nil_r]. Qed.

Definition user_of (s : PipeState) (cid : Z) : UserMem := default (mkUserMem ∅ ∅) (users s !! cid).

Lemma with_user_run {A} cid (m : M UserMem A) s a u : m (user_of s cid) = Done (a, u) ->
  with_user cid m s = Done (a, mkPS (heap s) (listed s) (PIPE_NEXT_ID s) (sched s) (triggered s) (<[cid := u]> (users s))).
Proof. intros H. unfold with_user. fold (user_of s cid). by rewrite H. Qed.

Lemma the_pipe_run key s p : heap s !! key = Some p -> the_pipe key s = Done (p, s).
Proof. intros H. unfold the_pipe. by rewrite H. Qed.
Lemma update_pipe_run key f s p : heap s !! key = Some p -> update_pipe key f s = Done (tt, put_pipe key (f p) s).
Proof. intros H. unfold update_pipe. by rewrite (bind_Done _ _ _ _ _ (the_pipe_run _ _ _ H)). Qed.

(** Notifying a condition of the pipe in [key]. *)
Lemma notify_write_run key s p : heap s !! key = Some p -> exists s', notify_write key s = Done (tt, s') /\
  moved s s' (<[key := set_write_condition [] p]> (heap s)) (write_condition p) [] /\ users s' = users s.
Proof.
  intros H. unfold notify_write. rewrite (bind_Done _ _ _ _ _ (the_pipe_run _ _ _ H)).
  destruct (notify_run (write_condition p) (sched s)) as (x & Hn & Hc). unfold with_sched, bind at 1. rewrite Hn.
  erewrite update_pipe_run by (cbn [heap set_sched]; exact H). eexists. split; [reflexivity|].
  split; [|done]. split; try done. cbn. by rewrite app_nil_r.
Qed.
Lemma notify_read_run key s p : heap s !! key = Some p -> exists s', notify_read key s = Done (tt, s') /\
  moved s s' (<[key := set_read_condition [] p]> (heap s)) (read_condition p) [] /\ users s' = users s.
Proof.
  intros H. unfold notify_read. rewrite (bind_Done _ _ _ _ _ (the_pipe_run _ _ _ H)).
  destruct (notify_run (read_condition p) (sched s)) as (x & Hn & Hc). unfold with_sched, bind at 1. rewrite Hn.
  erewrite update_pipe_run by (cbn [heap set_sched]; exact H). eexists. split; [reflexivity|].
  split; [|done]. split; try done. cbn. by rewrite app_nil_r.
Qed.

Lemma put_same key s p : heap s !! key = Some p -> put_pipe key p s = s.
Proof. intros H. destruct s as [h l n sc tr u]. unfold put_pipe. simpl in *. by rewrite insert_id. Qed.

(** What a round of reading returns when there is nothing to read. *)
Definition idle_read (buf : UserSlice) (p : Pipe) (nonblock : bool) : attempt Z :=
  if us_is_empty buf then Finished (Ok 0)
  else if negb (writer_is_alive p) then Finished (Ok 0)
  else if nonblock then Finished (Err EAGAIN) else MustWait.

Lemma read_round_ok cid key pivot buf nb s p : heap s !! key = Some p -> us_ok buf ->
  let n := Z.min (us_len buf) (Z.of_nat (length (queue p))) in
  exists a s', read_round cid key pivot buf nb s = Done (a, s') /\
    only_in (user_of s cid) (user_of s' cid) (fun x => in_slice x buf) /\
    (forall c, c <> cid -> users s' !! c = users s !! c) /\
    ((a = Finished (Err EFAULT) /\ unwritable (user_of s cid) buf /\ moved s s' (heap s) [] []) \/
     (0 < n /\ a = Finished (Ok n) /\ copy_from_user (user_of s' cid) (us_base buf) n = Some (take (Z.to_nat n) (queue p)) /\
        moved s s' (<[key := set_write_condition [] (set_queue (drop (Z.to_nat n) (queue p)) p)]> (heap s))
          (write_condition p) [(Z.lor key WRITE_NOT_READ_BIT, EVENT_WRITE)]) \/
     (n = 0 /\ a = idle_read buf p nb /\ moved s s' (heap s) [] [])).
Proof.
  intros Hp Hbuf n. unfold read_round. rewrite (bind_Done _ _ _ _ _ (the_pipe_run _ _ _ Hp)).
  destruct (read_copy_ok cid pivot buf (queue p) (user_of s cid) Hbuf) as (r & u & Hrun & Ho & Hr).
  rewrite (bind_Done _ _ _ _ _ (with_user_run cid _ s _ _ Hrun)).
  set (s1 := mkPS _ _ _ _ _ _). assert (Hu1 : user_of s1 cid = u) by (unfold user_of, s1; cbn [users]; by rewrite lookup_insert_eq).
  assert (Hother : forall c, c <> cid -> users s1 !! c = users s !! c).
  { intros c Hc. unfold s1. cbn [users]. by rewrite lookup_insert_ne. }
  destruct r as [k|e].
  2: { destruct Hr as [-> Hbad]. exists (Finished (Err EFAULT)), s1. split; [reflexivity|]. rewrite Hu1. split; [exact Ho|]. split; [exact Hother|].
       left. split; [done|split; [exact Hbad|apply moved_refl]]. }
  destruct Hr as [Hk Hc]. fold n in Hk. subst k.
  assert (Hp1 : heap s1 !! key = Some p) by exact Hp. rewrite (bind_Done _ _ _ _ _ (update_pipe_run key _ s1 p Hp1)).
  set (p2 := set_queue (drop (Z.to_nat n) (queue p)) p). set (s2 := put_pipe key p2 s1).
  assert (Hp2 : heap s2 !! key = Some p2) by (unfold s2; cbn [heap put_pipe]; apply lookup_insert_eq).
  destruct (Z.ltb_spec 0 n) as [Hn|Hn].
  - unfold event_trigger, modify, bind at 1. set (s3 := mkPS (heap s2) _ _ _ _ _).
    destruct (notify_write_run key s3 p2 Hp2) as (s4 & Hn4 & [M1 M2 M3 M4 M5] & Hu4). rewrite (bind_Done _ _ _ _ _ Hn4).
    exists (Finished (Ok n)), s4. split; [reflexivity|]. unfold user_of. rewrite Hu4. fold (user_of s1 cid). 
    change (users s3) with (users s1). fold (user_of s1 cid). rewrite Hu1. fold (user_of s cid).
    split; [exact Ho|]. split; [exact Hother|]. right. left. split; [exact Hn|]. split; [reflexivity|]. split; [exact Hc|].
    split; [|exact M2|exact M3|exact M4|by rewrite M5, app_nil_r].
    rewrite M1. cbn [heap s3 s2 put_pipe s1]. apply insert_insert_eq.
  - assert (n = 0) as Hn0 by (unfold n; destruct Hbuf as (? & ? & ?); lia).
    assert (Hs2 : s2 = s1).
    { unfold s2, p2. rewrite Hn0. cbn [drop Z.to_nat]. rewrite put_same; [done|]. rewrite Hp1. by destruct p. }
    rewrite Hs2. exists (idle_read buf p nb), s1. split.
    { unfold idle_read. destruct (us_is_empty buf); [done|]. rewrite (bind_Done _ _ _ _ _ (the_pipe_run _ _ _ Hp1)).
      destruct (writer_is_alive p); cbn [negb]; [|done]. by destruct nb. }
    rewrite Hu1. split; [exact Ho|]. split; [exact Hother|]. right. right. split; [exact Hn0|]. split; [done|apply moved_refl].
Qed.

(** The bytes a round of writing takes from user memory: a prefix of the
    buffer, not empty when there is room and something to write. *)
Lemma write_copy_ok buf left m : us_ok buf -> 0 <= left ->
  let k := Z.min left (us_len buf) in
  exists r, (let! src_buf := unwrap (limit buf k) in
             let! chunks := in_variable_chunks src_buf TMPBUF_SIZE in
             write_chunks true chunks) m = Done (r, m) /\
  match r with
  | Ok bytes => copy_from_user m (us_base buf) (Z.of_nat (length bytes)) = Some bytes /\
      Z.of_nat (length bytes) <= k /\ (0 < k -> bytes <> []) /\ (Z.of_nat (length bytes) < k -> unreadable m buf)
  | Err e => e = EFAULT /\ unreadable m buf
  end.
Proof.
  intros (H1 & H2 & H3) Hl k. rewrite limit_some by lia. cbn [unwrap]. rewrite bind_ret.
  set (src := mkUserSlice (us_base buf) k).
  assert (Hsrc : us_ok src) by (split; [|split]; unfold src; cbn [us_base us_len]; lia).
  destruct (chunks_run src m Hsrc) as (n & Hn & Hlt & Hpos & Hcov). rewrite (bind_Done _ _ _ _ _ Hn).
  destruct (write_chunks_ok src m n 0 true) as (r & Hr & Hpost).
  { intros i Hi. apply Hlt. lia. } { intros _. left. unfold src. cbn [us_len]. lia. }
  assert (Hsub : unreadable m src -> unreadable m buf).
  { destruct buf as [b0 l0]. apply unreadable_sub; unfold k in *; cbn [us_base us_len] in *; lia. }
  exists r. split; [exact Hr|]. destruct r as [bytes|e]; [|destruct Hpost as (? & _ & ?); auto].
  destruct Hpost as (P1 & P2 & P3 & P4). unfold src in *. cbn [us_base us_len] in *. cbn [Z.of_nat Z.mul] in *.
  rewrite Z.add_0_r in P1. split; [exact P1|]. split.
  - destruct bytes as [|b bytes]; [cbn [length]; lia|]. specialize (P2 ltac:(done)). lia.
  - split; [intros Hk; apply P3; [by apply Hpos|reflexivity]|]. intros Hk. apply Hsub, P4; [exact Hcov|lia].
Qed.

(** What a round of writing returns when it wrote nothing. *)
Definition idle_write (buf : UserSlice) (nonblock : bool) : attempt Z :=
  if us_is_empty buf then Finished (Ok 0)
  else if nonblock then Finished (Err EAGAIN) else MustWait.

Lemma write_round_ok cid key buf nb s p : heap s !! key = Some p -> us_ok buf ->
  exists a s', write_round cid key buf nb s = Done (a, s') /\
    user_of s' cid = user_of s cid /\ (forall c, c <> cid -> users s' !! c = users s !! c) /\
    ((reader_is_alive p = false /\ a = Finished (Err EPIPE) /\ moved s s' (heap s) [] []) \/
     (reader_is_alive p = true /\
      ((a = Finished (Err EFAULT) /\ unreadable (user_of s cid) buf /\ moved s s' (heap s) [] []) \/
       (exists bytes, bytes <> [] /\ a = Finished (Ok (Z.of_nat (length bytes))) /\
          Z.of_nat (length bytes) <= us_len buf /\
          (Z.of_nat (length bytes) < Z.min (us_len buf) (MAX_QUEUE_SIZE - Z.of_nat (length (queue p))) ->
             unreadable (user_of s cid) buf) /\
          Z.of_nat (length (queue p ++ bytes)) <= MAX_QUEUE_SIZE /\
          copy_from_user (user_of s cid) (us_base buf) (Z.of_nat (length bytes)) = Some bytes /\
          moved s s' (<[key := set_read_condition [] (set_queue (queue p ++ bytes) p)]> (heap s))
            (read_condition p) [(key, EVENT_READ)]) \/
       ((us_len buf = 0 \/ MAX_QUEUE_SIZE <= Z.of_nat (length (queue p))) /\
          a = idle_write buf nb /\ moved s s' (heap s) [] [])))).
Proof.
  intros Hp Hbuf. unfold write_round. rewrite (bind_Done _ _ _ _ _ (the_pipe_run _ _ _ Hp)).
  destruct (reader_is_alive p) eqn:Halive; cbn [negb].
  2: { exists (Finished (Err EPIPE)), s. split; [reflexivity|]. split; [done|]. split; [done|]. left. split; [done|]. split; [done|].
       destruct s. apply (moved_refl (mkPS _ _ _ _ _ _)). }
  set (left := saturating_sub MAX_QUEUE_SIZE (Z.of_nat (length (queue p)))).
  assert (Hleft : left = Z.max 0 (MAX_QUEUE_SIZE - Z.of_nat (length (queue p)))) by (unfold left, saturating_sub; lia).
  destruct (write_copy_ok buf left (user_of s cid) Hbuf ltac:(lia)) as (r & Hrun & Hr).
  rewrite (bind_Done _ _ _ _ _ (with_user_run cid _ s _ _ Hrun)).
  set (s1 := mkPS _ _ _ _ _ _). assert (Hu1 : user_of s1 cid = user_of s cid) by (unfold user_of at 1, s1; cbn [users]; by rewrite lookup_insert_eq).
  assert (Hother : forall c, c <> cid -> users s1 !! c = users s !! c).
  { intros c Hc. unfold s1. cbn [users]. by rewrite lookup_insert_ne. }
  destruct r as [bytes|e].
  2: { destruct Hr as [-> Hbad]. exists (Finished (Err EFAULT)), s1. split; [reflexivity|]. split; [exact Hu1|]. split; [exact Hother|].
       right. split; [done|]. left. split; [done|split; [exact Hbad|apply moved_refl]]. }
  destruct Hr as (Hc & Hk & Hne & Hshort).
  assert (Hp1 : heap s1 !! key = Some p) by exact Hp. rewrite (bind_Done _ _ _ _ _ (update_pipe_run key _ s1 p Hp1)).
  set (p2 := set_queue (queue p ++ bytes) p). set (s2 := put_pipe key p2 s1).
  assert (Hp2 : heap s2 !! key = Some p2) by (unfold s2; cbn [heap put_pipe]; apply lookup_insert_eq).
  destruct (Z.ltb_spec 0 (Z.of_nat (length bytes))) as [Hn|Hn].
  - unfold event_trigger, modify, bind at 1. set (s3 := mkPS (heap s2) _ _ _ _ _).
    destruct (notify_read_run key s3 p2 Hp2) as (s4 & Hn4 & [M1 M2 M3 M4 M5] & Hu4). rewrite (bind_Done _ _ _ _ _ Hn4).
    eexists _, s4. split; [reflexivity|]. split; [unfold user_of at 1; rewrite Hu4; exact Hu1|].
    split; [rewrite Hu4; exact Hother|]. right. split; [done|]. right. left. exists bytes.
    split; [intros ->; cbn [length] in Hn; lia|]. split; [reflexivity|]. split; [lia|]. split; [intros Hs; apply Hshort; lia|].
    split; [rewrite length_app; lia|].
    split; [exact Hc|]. split; [|exact M2|exact M3|exact M4|by rewrite M5, app_nil_r].
    rewrite M1. cbn [heap s3 s2 put_pipe s1]. apply insert_insert_eq.
  - destruct bytes as [|b bytes]; [|cbn [length] in Hn; lia].
    assert (Hs2 : s2 = s1) by (unfold s2, p2; rewrite app_nil_r, put_same; [done|]; rewrite Hp1; by destruct p).
    rewrite Hs2. exists (idle_write buf nb), s1. split; [unfold idle_write; destruct (us_is_empty buf); [done|by destruct nb]|].
    split; [exact Hu1|]. split; [exact Hother|]. right. split; [done|]. right. right. split; [|split; [done|apply moved_refl]].
    destruct Hbuf as (B1 & B2 & B3). destruct (decide (0 < Z.min left (us_len buf))) as [Hm|Hm]; [by destruct (Hne Hm)|]. lia.
Qed.
