(* ===== verification/PipeLts.v ===== *)
(** * Readers, writers and closes on pipes, interleaved

    The calls of any number of contexts as a transition system.  A step is the
    code between two points where another context can be observed: a call takes
    the queue lock and runs one round of its loop; a call that decided to wait
    still holds the lock while it blocks itself and joins the wait list; it
    resumes when its context is runnable again.  [close] takes no queue lock:
    its only accesses are one store, the wait list under its own lock and one
    load, so it is one step that may fall between any two others.

    Two histories are kept for each pipe: the bytes calls of [kwrite] took from
    user memory and the bytes calls of [kread] left in user memory. *)

From S2P Require Import Prelude PageInfo FrameAllocator Rmm OrdMap Grants UserCopy Sync SyncSpec Pipe PipeSpec.

Inductive Dir := Rd | Wr.
(** [PutBack]: waiting, and put back to sleep by other code (see [put_back]). *)
Inductive Stage := Ready | Decided | Waiting | PutBack.
Definition is_waiting (st : Stage) : bool := match st with Waiting | PutBack => true | _ => false end.
#[export] Instance Dir_eq_dec : EqDecision Dir.
Proof. solve_decision. Defined.

(** A call of [kread] or [kwrite] in progress. *)
Record Call := mkCall { cdir : Dir; ckey : Z; cbuf : UserSlice; cnb : bool; stage : Stage }.
Definition at_stage (st : Stage) (c : Call) : Call := mkCall (cdir c) (ckey c) (cbuf c) (cnb c) st.

Record World := mkW {
  ps : PipeState;
  calls : gmap Z Call;
  qlock : gmap Z Z;
  written : gmap Z (list Z);
  got : gmap Z (list Z);
  raced : gset Z
}.

Definition start (d : Dir) (id : Z) : M PipeState (result Error Z) :=
  match d with Rd => read_start id | Wr => write_start id end.
Definition round (cid : Z) (pivot : nat) (c : Call) : M PipeState (attempt Z) :=
  match cdir c with
  | Rd => read_round cid (ckey c) pivot (cbuf c) (cnb c)
  | Wr => write_round cid (ckey c) (cbuf c) (cnb c)
  end.
Definition block_on (cid : Z) (c : Call) : M PipeState bool :=
  match cdir c with Rd => read_block cid (ckey c) | Wr => write_block cid (ckey c) end.
Definition wake_from (cid : Z) (c : Call) : M PipeState bool :=
  match cdir c with Rd => read_wake cid (ckey c) | Wr => write_wake cid (ckey c) end.

(** The bytes a finished call moved, as user memory shows them. *)
Definition moved_bytes (m : UserMem) (buf : UserSlice) (r : result Error Z) : list Z :=
  match r with Ok n => default [] (copy_from_user m (us_base buf) n) | Err _ => [] end.
Definition log (key : Z) (bytes : list Z) (h : gmap Z (list Z)) : gmap Z (list Z) :=
  <[key := default [] (h !! key) ++ bytes]> h.
Definition log_written (cid : Z) (c : Call) (r : result Error Z) (s : PipeState) (h : gmap Z (list Z)) :=
  match cdir c with Rd => h | Wr => log (ckey c) (moved_bytes (user_of s cid) (cbuf c) r) h end.
Definition log_got (cid : Z) (c : Call) (r : result Error Z) (s' : PipeState) (h : gmap Z (list Z)) :=
  match cdir c with Rd => log (ckey c) (moved_bytes (user_of s' cid) (cbuf c) r) h | Wr => h end.

Definition blocked (s : PipeState) (cid : Z) : Prop := exists c, ctxs (sched s) !! cid = Some c /\ status c = Blocked.

(** What the rest of the kernel may do to the contexts: anything.  A waiting call
    whose context is put back to sleep is marked. *)
Definition disturb (s : PipeState) (x : Sched) (cid : Z) (c : Call) : Call :=
  if is_waiting (stage c) && put_back (sched s) x cid then at_stage PutBack c else c.
Definition env_step (w : World) (x : Sched) (us : gmap Z UserMem) (w' : World) : Prop :=
  w' = mkW (mkPS (heap (ps w)) (listed (ps w)) (PIPE_NEXT_ID (ps w)) x (triggered (ps w)) us)
           (map_imap (fun cid c => Some (disturb (ps w) x cid c)) (calls w)) (qlock w) (written w) (got w) (raced w).

Inductive step (w : World) : World -> Prop :=
| step_pipe ids s' : heap (ps w) !! PIPE_NEXT_ID (ps w) = None -> pipe (ps w) = Done (ids, s') ->
    step w (mkW s' (calls w) (qlock w) (<[PIPE_NEXT_ID (ps w) := []]> (written w)) (<[PIPE_NEXT_ID (ps w) := []]> (got w)) (raced w))
| step_dup cid id buf r s' : kdup cid id buf (ps w) = Done (r, s') ->
    step w (mkW s' (calls w) (qlock w) (written w) (got w) (raced w))
| step_openat id buf r s' : kopenat id buf (ps w) = Done (r, s') ->
    step w (mkW s' (calls w) (qlock w) (written w) (got w) (raced w))
| step_start d cid id buf nb key : calls w !! cid = None -> us_ok buf -> start d id (ps w) = Done (Ok key, ps w) ->
    step w (mkW (ps w) (<[cid := mkCall d key buf nb Ready]> (calls w)) (qlock w) (written w) (got w) (raced w))
| step_finish cid c pivot r s' : calls w !! cid = Some c -> stage c = Ready -> qlock w !! ckey c = None ->
    round cid pivot c (ps w) = Done (Finished r, s') ->
    step w (mkW s' (delete cid (calls w)) (qlock w) (log_written cid c r (ps w) (written w)) (log_got cid c r s' (got w)) (raced w))
| step_decide cid c pivot s' : calls w !! cid = Some c -> stage c = Ready -> qlock w !! ckey c = None ->
    round cid pivot c (ps w) = Done (MustWait, s') ->
    step w (mkW s' (<[cid := at_stage Decided c]> (calls w)) (<[ckey c := cid]> (qlock w)) (written w) (got w) (raced w))
| step_block cid c (entered : bool) s' : calls w !! cid = Some c -> stage c = Decided ->
    block_on cid c (ps w) = Done (entered, s') ->
    step w (mkW s' (if entered then <[cid := at_stage Waiting c]> (calls w) else delete cid (calls w))
                (delete (ckey c) (qlock w)) (written w) (got w) (raced w))
| step_wake cid c (notified : bool) s' : calls w !! cid = Some c -> is_waiting (stage c) = true -> ~ blocked (ps w) cid ->
    wake_from cid c (ps w) = Done (notified, s') ->
    step w (mkW s' (if notified then <[cid := at_stage Ready c]> (calls w) else delete cid (calls w))
                (qlock w) (written w) (got w) (raced w))
| step_close id r s' : close id (ps w) = Done (r, s') ->
    let key := snd (from_raw_id id) in
    step w (mkW s' (calls w) (qlock w) (written w) (got w)
                (if bool_decide (is_Some (qlock w !! key)) then {[key]} ∪ raced w else raced w))
| step_env x us w' : env_step w x us w' -> step w w'.

(** No pipe exists and no call is in progress. *)
Definition initial (w : World) : Prop :=
  heap (ps w) = ∅ /\ listed (ps w) = ∅ /\ calls w = ∅ /\ qlock w = ∅.
Definition reachable (w : World) : Prop := exists w0, initial w0 /\ rtc step w0 w.

(** ** The invariant *)

Definition cond (d : Dir) (p : Pipe) : WaitCondition := match d with Rd => read_condition p | Wr => write_condition p end.
(** There is nothing a call could do. *)
Definition idle (d : Dir) (p : Pipe) : Prop :=
  match d with Rd => queue p = [] | Wr => MAX_QUEUE_SIZE <= Z.of_nat (length (queue p)) end.
(** The other end is open. *)
Definition peer_alive (d : Dir) (p : Pipe) : bool := match d with Rd => writer_is_alive p | Wr => reader_is_alive p end.
Definition other (d : Dir) : Dir := match d with Rd => Wr | Wr => Rd end.

(** A call is right to wait: only a close that met the lock held can have shut
    the other end unnoticed. *)
Definition may_wait (w : World) (c : Call) (p : Pipe) : Prop :=
  idle (cdir c) p /\ (ckey c ∉ raced w -> peer_alive (cdir c) p = true).

Definition call_ok (w : World) (cid : Z) (c : Call) (p : Pipe) : Prop :=
  match stage c with
  | Ready => True
  | Decided => qlock w !! ckey c = Some cid /\ may_wait w c p
  | Waiting => blocked (ps w) cid -> cid ∈ cond (cdir c) p /\ may_wait w c p
  | PutBack => True
  end.

Record INV (w : World) : Prop := {
  iv_fifo : forall key p, heap (ps w) !! key = Some p -> default [] (written w !! key) = default [] (got w !! key) ++ queue p;
  iv_bound : forall key p, heap (ps w) !! key = Some p -> Z.of_nat (length (queue p)) <= MAX_QUEUE_SIZE;
  iv_calls : forall cid c, calls w !! cid = Some c ->
    us_ok (cbuf c) /\ exists p, heap (ps w) !! ckey c = Some p /\ call_ok w cid c p;
  iv_waiters : forall key p d, heap (ps w) !! key = Some p -> NoDup (cond d p) /\
    forall cid, cid ∈ cond d p -> exists c, calls w !! cid = Some c /\ cdir c = d /\ ckey c = key /\ is_waiting (stage c) = true;
  iv_listed : forall key, key ∈ listed (ps w) -> is_Some (heap (ps w) !! key);
  iv_lock : forall key cid, qlock w !! key = Some cid -> exists c, calls w !! cid = Some c /\ ckey c = key /\ stage c = Decided
}.

(** ** What the operations do *)

(** An operation that touched at most one pipe and woke [wk]. *)
Record touched (s s' : PipeState) (key : Z) (p p' : Pipe) (wk : list Z) : Prop := {
  to_old : heap s !! key = Some p;
  to_heap : heap s' = <[key := p']> (heap s);
  to_listed : listed s' ⊆ listed s;
  to_blocked : forall cid, blocked s' cid -> blocked s cid /\ cid ∉ wk
}.

Lemma woken_blocked s x (wk : list Z) :
  (forall cid, ctxs x !! cid = if decide (cid ∈ wk) then woken <$> ctxs (sched s) !! cid else ctxs (sched s) !! cid) ->
  forall cid, blocked (set_sched x s) cid -> blocked s cid /\ cid ∉ wk.
Proof.
  intros Hx cid (c & Hc & Hb). cbn [sched set_sched] in Hc. rewrite Hx in Hc. case_decide as Hd; [|split; [by exists c|done]].
  destruct (ctxs (sched s) !! cid) as [c0|]; [|done]. simplify_eq/=. by destruct (woken_not_blocked c0).
Qed.

Lemma moved_touched s s' key p p' wk evs : heap s !! key = Some p -> moved s s' (<[key := p']> (heap s)) wk evs ->
  touched s s' key p p' wk.
Proof.
  intros Hp [M1 M2 M3 M4 M5]. split; [done|done|by rewrite M2|]. intros cid Hb.
  apply (woken_blocked s (sched s') wk M4). exact Hb.
Qed.

Lemma moved_quiet s s' key p evs : heap s !! key = Some p -> moved s s' (heap s) [] evs -> touched s s' key p p [].
Proof. intros Hp M. eapply moved_touched; [done|]. rewrite insert_id by done. exact M. Qed.

(** A round either moves nothing, or moves bytes and wakes the other side. *)
Inductive round_result (s s' : PipeState) (cid : Z) (c : Call) (p : Pipe) (a : attempt Z) : Prop :=
| rr_quiet : touched s s' (ckey c) p p [] ->
    (a = MustWait -> idle (cdir c) p /\ peer_alive (cdir c) p = true) ->
    (forall r, a = Finished r -> moved_bytes (user_of (match cdir c with Rd => s' | Wr => s end) cid) (cbuf c) r = []) ->
    round_result s s' cid c p a
| rr_moved p' r data : touched s s' (ckey c) p p' (cond (other (cdir c)) p) -> a = Finished r ->
    ~ idle (cdir c) p -> cond (cdir c) p' = cond (cdir c) p -> cond (other (cdir c)) p' = [] ->
    moved_bytes (user_of (match cdir c with Rd => s' | Wr => s end) cid) (cbuf c) r = data ->
    match cdir c with
    | Rd => queue p = data ++ queue p'
    | Wr => queue p' = queue p ++ data /\ Z.of_nat (length (queue p')) <= MAX_QUEUE_SIZE
    end -> round_result s s' cid c p a.

Lemma read_effect cid key pivot buf nb st s p : heap s !! key = Some p -> us_ok buf ->
  exists a s', read_round cid key pivot buf nb s = Done (a, s') /\ round_result s s' cid (mkCall Rd key buf nb st) p a.
Proof.
  intros Hp Hb. destruct (read_round_ok cid key pivot buf nb s p Hp Hb) as (a & s' & Hrun & _ & _ & Hc).
  exists a, s'. split; [exact Hrun|]. destruct Hc as [(-> & _ & M)|[(Hn & -> & Hcp & M)|(Hn & -> & M)]].
  - apply rr_quiet; [by eapply moved_quiet|done|]. by intros r [= <-].
  - eapply rr_moved; [by eapply moved_touched|reflexivity|..]; cbn [cdir cond other idle cbuf moved_bytes].
    + intros Hq. rewrite Hq in Hn. cbn in Hn. lia.
    + done. + done.
    + rewrite Hcp. reflexivity.
    + cbn. by rewrite take_drop.
  - apply rr_quiet; [by eapply moved_quiet|..]; cbn [cdir cbuf idle peer_alive]; unfold idle_read, us_is_empty.
    + destruct (Z.eqb_spec (us_len buf) 0) as [|Hl]; [done|]. destruct (writer_is_alive p); [|done]. intros _. split; [|done].
      apply length_zero_iff_nil. destruct Hb as (? & ? & ?). lia.
    + intros r. destruct (us_len buf =? 0); [by intros [= <-]|]. destruct (writer_is_alive p); [|by intros [= <-]].
      destruct nb; [by intros [= <-]|done].
Qed.

Lemma write_effect cid key buf nb st s p : heap s !! key = Some p -> us_ok buf ->
  exists a s', write_round cid key buf nb s = Done (a, s') /\ round_result s s' cid (mkCall Wr key buf nb st) p a.
Proof.
  intros Hp Hb. destruct (write_round_ok cid key buf nb s p Hp Hb) as (a & s' & Hrun & _ & _ & Hc).
  exists a, s'. split; [exact Hrun|].
  destruct Hc as [(_ & -> & M)|(Ha & [(-> & _ & M)|[(bytes & Hne & -> & Hl & _ & Hmax & Hcp & M)|(Hfull & -> & M)]])].
  1,2: apply rr_quiet; [by eapply moved_quiet|done|by intros r [= <-]].
  - assert (0 < length bytes)%nat by (destruct bytes; [done|cbn; lia]).
    eapply rr_moved; [by eapply moved_touched|reflexivity|..]; cbn [cdir cond other idle cbuf moved_bytes].
    + rewrite length_app in Hmax. lia.
    + done. + done.
    + rewrite Hcp. reflexivity.
    + cbn. done.
  - apply rr_quiet; [by eapply moved_quiet|..]; cbn [cdir cbuf idle peer_alive]; unfold idle_write, us_is_empty.
    + destruct (Z.eqb_spec (us_len buf) 0) as [|Hz]; [done|]. intros _. split; [|done]. by destruct Hfull.
    + intros r. destruct (us_len buf =? 0); [by intros [= <-]|]. destruct nb; [by intros [= <-]|done].
Qed.

(** A round never panics on a pipe object the caller holds. *)
Lemma round_effect cid pivot c s p : heap s !! ckey c = Some p -> us_ok (cbuf c) ->
  exists a s', round cid pivot c s = Done (a, s') /\ round_result s s' cid c p a.
Proof.
  destruct c as [[] key buf nb st]; cbn [ckey cbuf round cdir]; intros Hp Hb; [by apply read_effect|by apply write_effect].
Qed.

(** [p'] differs from [p] in its wait lists only. *)
Definition same_pipe (p p' : Pipe) : Prop :=
  queue p' = queue p /\ reader_is_alive p' = reader_is_alive p /\ writer_is_alive p' = writer_is_alive p.
Definition set_cond (d : Dir) (l : WaitCondition) (p : Pipe) : Pipe :=
  match d with Rd => set_read_condition l p | Wr => set_write_condition l p end.

Lemma cond_set d l p : cond d (set_cond d l p) = l.
Proof. by destruct d. Qed.
Lemma cond_set_other d l p : cond (other d) (set_cond d l p) = cond (other d) p.
Proof. by destruct d. Qed.
Lemma same_set d l p : same_pipe p (set_cond d l p).
Proof. by destruct d. Qed.

Lemma wait_enter_effect cid reason l s l' x : wait_enter cid reason l (sched s) = Done (l', x) ->
  (l' = None \/ l' = Some (l ++ [cid])) /\
  (forall y, blocked (set_sched x s) y -> (l' <> None /\ y = cid) \/ blocked s y).
Proof.
  unfold wait_enter. destruct (ctxs (sched s) !! cid) as [k|] eqn:Hc; [|done]. destruct (sig_pending k).
  { intros [= <- <-]. split; [by left|by right]. }
  unfold bind, block. rewrite Hc. destruct (is_runnable (status k)); intros [= <- <-]; (split; [by right|]); [|by right].
  intros y (c0 & Hc0 & Hb0). cbn [set_sched sched set_ctx ctxs] in Hc0. destruct (decide (y = cid)) as [->|Hne]; [by left|].
  rewrite lookup_insert_ne in Hc0 by done. right. by exists c0.
Qed.

Lemma block_effect cid c s p b s' : heap s !! ckey c = Some p -> block_on cid c s = Done (b, s') ->
  listed s' = listed s /\ (forall x, blocked s' x -> (b = true /\ x = cid) \/ blocked s x) /\
  heap s' = if b then <[ckey c := set_cond (cdir c) (cond (cdir c) p ++ [cid]) p]> (heap s) else heap s.
Proof.
  intros Hp Hrun.
  assert (Hgen : exists reason x l, wait_enter cid reason (cond (cdir c) p) (sched s) = Done (l, x) /\
    (match l with None => ret false | Some l => update_pipe (ckey c) (set_cond (cdir c) l) ;;; ret true end) (set_sched x s) = Done (b, s')).
  { unfold block_on, read_block, write_block in Hrun. destruct (cdir c); rewrite (bind_Done _ _ _ _ _ (the_pipe_run _ _ _ Hp)) in Hrun;
    unfold with_sched, bind at 1 in Hrun; destruct (wait_enter cid _ _ (sched s)) as [[l x]|] eqn:Hw; try done; by eexists _, x, l. }
  destruct Hgen as (reason & x & l & Hw & Hk). destruct (wait_enter_effect _ _ _ _ _ _ Hw) as [Hl Hbl].
  destruct Hl as [->| ->].
  - injection Hk as <- <-. split; [done|]. split; [|done]. intros y Hy. right. destruct (Hbl y Hy) as [[? _]|?]; done.
  - rewrite (bind_Done _ _ _ _ _ (update_pipe_run _ _ (set_sched x s) p Hp)) in Hk. injection Hk as <- <-.
    split; [done|]. split; [|done]. intros y Hy. destruct (Hbl y Hy) as [[_ ?]|?]; [by left|by right].
Qed.

Lemma elem_of_remove_first x y l : x ∈ remove_first y l -> x ∈ l.
Proof.
  induction l as [|z l IH]; cbn [remove_first]; [done|]. destruct (z =? y); [apply list_elem_of_further|].
  intros [->|H]%elem_of_cons; [apply list_elem_of_here|apply list_elem_of_further; auto].
Qed.
Lemma NoDup_remove_first y l : NoDup l -> NoDup (remove_first y l) /\ y ∉ remove_first y l.
Proof.
  induction 1 as [|z l Hz Hl [IH1 IH2]]; cbn [remove_first]; [split; [constructor|apply not_elem_of_nil]|].
  destruct (Z.eqb_spec z y) as [->|Hne]; [done|]. split.
  - constructor; [|done]. intros ?%elem_of_remove_first. done.
  - apply not_elem_of_cons. auto.
Qed.
Lemma elem_of_remove_first_ne x y l : x <> y -> x ∈ l -> x ∈ remove_first y l.
Proof.
  intros Hne. induction l as [|z l IH]; cbn [remove_first]; [done|]. destruct (Z.eqb_spec z y) as [->|Hz].
  - by intros [->|?]%elem_of_cons.
  - intros [->|H]%elem_of_cons; [apply list_elem_of_here|apply list_elem_of_further; auto].
Qed.

Lemma wake_effect cid c s p b s' : heap s !! ckey c = Some p -> NoDup (cond (cdir c) p) -> wake_from cid c s = Done (b, s') ->
  exists l, touched s s' (ckey c) p (set_cond (cdir c) l p) [] /\ NoDup l /\ (cid ∉ l) /\
    (forall x, x <> cid -> (x ∈ l <-> x ∈ cond (cdir c) p)) /\ (b = true <-> cid ∉ cond (cdir c) p).
Proof.
  intros Hp Hnd Hrun.
  assert (Hgen : exists l, wait_leave cid (cond (cdir c) p) = (b, l) /\ s' = put_pipe (ckey c) (set_cond (cdir c) l p) s).
  { unfold wake_from, read_wake, write_wake in Hrun. destruct (cdir c); rewrite (bind_Done _ _ _ _ _ (the_pipe_run _ _ _ Hp)) in Hrun;
    cbn [cond]; destruct (wait_leave cid _) as [w l] eqn:Hw; exists l;
    rewrite (bind_Done _ _ _ _ _ (update_pipe_run _ _ s p Hp)) in Hrun; injection Hrun as <- <-; done. }
  destruct Hgen as (l & Hw & ->). exists l. split.
  { split; [done|done|done|]. intros x Hx. split; [exact Hx|apply not_elem_of_nil]. }
  unfold wait_leave in Hw. case_bool_decide as Hin; injection Hw as <- <-.
  - destruct (NoDup_remove_first cid _ Hnd) as [N1 N2]. split; [done|]. split; [done|]. split; [|done].
    intros x Hx. split; [apply elem_of_remove_first|by apply elem_of_remove_first_ne].
  - done.
Qed.

(** The common body of [close] for one end. *)
Lemma end_closed {A} key upd n fl s p (nt : M PipeState unit) p1 p2 wk (k : M PipeState A) :
  heap s !! key = Some p -> upd p = p1 ->
  (forall s1, heap s1 !! key = Some p1 -> exists s2, nt s1 = Done (tt, s2) /\ moved s1 s2 (<[key := p2]> (heap s1)) wk [] /\ users s2 = users s1) ->
  exists s', (update_pipe key upd ;;; event_trigger n fl ;;; nt ;;; k) s = k s' /\ touched s s' key p p2 wk.
Proof.
  intros Hp <- Hnt. rewrite (bind_Done _ _ _ _ _ (update_pipe_run key upd s p Hp)). unfold event_trigger, modify, bind.
  set (s1 := mkPS _ _ _ _ _ _). destruct (Hnt s1) as (s2 & H2 & [M1 M2 M3 M4 M5] & _); [apply lookup_insert_eq|].
  exists s2. rewrite H2. split; [done|]. split; [done|rewrite M1; apply insert_insert_eq|by rewrite M2|].
  intros cid Hb. apply (woken_blocked s (sched s2) wk); [exact M4|exact Hb].
Qed.

Lemma close_tail key (alive : Pipe -> bool) s p r s' : heap s !! key = Some p ->
  (let! can_remove := (let! p := the_pipe key in ret (negb (alive p))) in
   (if (can_remove : bool)
    then modify (fun s => mkPS (heap s) (listed s ∖ {[key]}) (PIPE_NEXT_ID s) (sched s) (triggered s) (users s))
    else ret tt) ;;; ok tt) s = Done (r : result Error unit, s') ->
  heap s' = heap s /\ listed s' ⊆ listed s /\ sched s' = sched s /\ r = Ok tt.
Proof.
  intros Hp. unfold bind at 1. rewrite (bind_Done _ _ _ _ _ (the_pipe_run _ _ _ Hp)). cbn [ret].
  destruct (negb (alive p)); intros [= <- <-]; cbn [heap listed sched]; [|done]. split; [done|]. split; [set_solver|done].
Qed.

(** [close] marks its end closed and wakes the other one. *)
Lemma close_effect id s r s' : close id s = Done (r, s') -> s' = s \/
  exists d p p', touched s s' (snd (from_raw_id id)) p p' (cond d p) /\ queue p' = queue p /\ cond d p' = [] /\
    cond (other d) p' = cond (other d) p /\ peer_alive (other d) p' = peer_alive (other d) p.
Proof.
  unfold close. destruct (from_raw_id id) as [wr key]. cbn [snd]. unfold bind_result at 1, bind at 1, lookup_pipe.
  destruct (bool_decide (key ∈ listed s)); [|intros [= _ <-]; by left].
  destruct (heap s !! key) as [p|] eqn:Hp; [|done]. intros Hrun. right.
  assert (Hgen : exists d p' s1 alive, touched s s1 key p p' (cond d p) /\ (queue p' = queue p /\ cond d p' = [] /\
    cond (other d) p' = cond (other d) p /\ peer_alive (other d) p' = peer_alive (other d) p) /\
    (let! can_remove := (let! p := the_pipe key in ret (negb (alive p))) in
     (if (can_remove : bool)
      then modify (fun s => mkPS (heap s) (listed s ∖ {[key]}) (PIPE_NEXT_ID s) (sched s) (triggered s) (users s))
      else ret tt) ;;; ok tt) s1 = Done (r : result Error unit, s')).
  { destruct wr; unfold bind at 1 in Hrun; [
      edestruct (fun k => end_closed (A := bool) key (fun p => set_alive (reader_is_alive p) false p) key EVENT_READ s p (notify_read key) _ _ _ k
        Hp eq_refl (fun s1 H1 => notify_read_run key s1 _ H1)) as (s1 & H1 & T1)
    | edestruct (fun k => end_closed (A := bool) key (fun p => set_alive false (writer_is_alive p) p) (Z.lor key WRITE_NOT_READ_BIT) EVENT_WRITE s p
        (notify_write key) _ _ _ k Hp eq_refl (fun s1 H1 => notify_write_run key s1 _ H1)) as (s1 & H1 & T1)]; rewrite H1 in Hrun.
    - exists Rd, (set_read_condition [] (set_alive (reader_is_alive p) false p)), s1, reader_is_alive. split; [exact T1|]. done.
    - exists Wr, (set_write_condition [] (set_alive false (writer_is_alive p) p)), s1, writer_is_alive. split; [exact T1|]. done. }
  destruct Hgen as (d & p' & s1 & alive & [T1 T2 T3 T4] & Hq & Htail).
  assert (Hp1 : heap s1 !! key = Some p') by (rewrite T2; apply lookup_insert_eq).
  destruct (close_tail key alive s1 p' r s' Hp1 Htail) as (E1 & E2 & E3 & _).
  exists d, p, p'. split; [|done]. split; [done|congruence|set_solver|]. intros cid Hb. apply T4.
  destruct Hb as (c & Hc & Hb). exists c. by rewrite <- E3.
Qed.

Lemma take_write_end_effect key s r s' : take_write_end key s = Done (r, s') -> s' = s \/
  exists p, touched s s' key p (set_dup p) [].
Proof.
  unfold take_write_end, bind_result at 1, bind at 1, lookup_pipe. destruct (bool_decide _); [|intros [= _ <-]; by left].
  destruct (heap s !! key) as [p|] eqn:Hp; [|done]. rewrite (bind_Done _ _ _ _ _ (update_pipe_run key set_dup s p Hp)).
  intros Hrun. assert (s' = put_pipe key (set_dup p) s) as -> by (destruct (has_run_dup p); by injection Hrun).
  right. exists p. split; [done|done|done|]. intros cid Hb. split; [exact Hb|apply not_elem_of_nil].
Qed.

(** A call at another stage does not wait. *)
Ltac not_waiting :=
  simplify_eq; match goal with
               | H : is_waiting (stage ?c) = true, E : stage ?c = _ |- _ => rewrite E in H; discriminate H
               | H : is_waiting (stage ?c) = true, E : is_waiting (stage ?c) = false |- _ => rewrite E in H; discriminate H
               end.

(** ** The invariant is kept *)

Lemma may_wait_same w s' wr gt rc c p p' : may_wait w c p -> raced w ⊆ rc -> queue p' = queue p ->
  (ckey c ∉ rc -> peer_alive (cdir c) p' = peer_alive (cdir c) p) ->
  may_wait (mkW s' (calls w) (qlock w) wr gt rc) c p'.
Proof.
  intros [H1 H2] Hrc Hq Ha. split.
  - unfold idle in *. by rewrite Hq.
  - cbn [raced]. intros Hn. rewrite Ha by done. apply H2. set_solver.
Qed.

Lemma lookup_put (h h' : gmap Z Pipe) key p' k q : h' = <[key := p']> h -> h' !! k = Some q ->
  (k = key /\ q = p') \/ (k <> key /\ h !! k = Some q).
Proof. intros ->. rewrite lookup_insert_Some. naive_solver. Qed.

(** An operation on one pipe keeps the invariant if it does for this pipe. *)
Lemma INV_touch w s' key p p' wk wr gt rc : INV w -> touched (ps w) s' key p p' wk -> raced w ⊆ rc ->
  (forall k, k <> key -> wr !! k = written w !! k /\ gt !! k = got w !! k) ->
  default [] (wr !! key) = default [] (gt !! key) ++ queue p' -> Z.of_nat (length (queue p')) <= MAX_QUEUE_SIZE ->
  (forall d, NoDup (cond d p') /\ forall x, x ∈ cond d p' -> x ∈ cond d p) ->
  (forall cid c, calls w !! cid = Some c -> ckey c = key -> call_ok w cid c p ->
     call_ok (mkW s' (calls w) (qlock w) wr gt rc) cid c p') ->
  INV (mkW s' (calls w) (qlock w) wr gt rc).
Proof.
  intros [I1 I2 I3 I4 I5 I6] [T1 T2 T3 T4] Hrc Hlog Hfifo Hmax Hcond Hcalls.
  pose proof (fun k q => lookup_put _ _ _ _ k q T2) as Hl.
  split; cbn [ps calls qlock written got raced].
  - intros k q Hk. destruct (Hl k q Hk) as [[-> ->]|[Hne Hq]]; [done|]. destruct (Hlog k Hne) as [-> ->]. by apply I1.
  - intros k q Hk. destruct (Hl k q Hk) as [[-> ->]|[Hne Hq]]; [done|]. by eapply I2.
  - intros cid c Hc. destruct (I3 cid c Hc) as (Hu & q & Hq & Hok). split; [done|].
    destruct (decide (ckey c = key)) as [He|Hne].
    + exists p'. split; [rewrite T2, He; apply lookup_insert_eq|]. apply Hcalls; [done|done|]. congruence.
    + exists q. split; [by rewrite T2, lookup_insert_ne|]. unfold call_ok in *. cbn [qlock ps].
      destruct (stage c); [done|destruct Hok; split; [done|by eapply may_wait_same]| |done].
      intros Hb. destruct (Hok (proj1 (T4 _ Hb))). split; [done|by eapply may_wait_same].
  - intros k q d Hk. destruct (Hl k q Hk) as [[-> ->]|[Hne Hq]]; [|by apply I4].
    destruct (Hcond d) as [Hn Hs]. split; [done|]. intros cid Hx%Hs. by apply (I4 key p).
  - intros k Hk. rewrite T2. apply lookup_insert_is_Some'. right. apply I5. set_solver.
  - done.
Qed.

(** A context's call ends, or goes back to the start of its loop. *)
Lemma inv_leave w cid c o ql : INV w -> calls w !! cid = Some c -> (o = None \/ o = Some (at_stage Ready c)) ->
  (forall p, heap (ps w) !! ckey c = Some p -> cid ∉ cond (cdir c) p) ->
  (stage c <> Decided /\ ql = qlock w) \/ (stage c = Decided /\ ql = delete (ckey c) (qlock w)) ->
  INV (mkW (ps w) (partial_alter (fun _ => o) cid (calls w)) ql (written w) (got w) (raced w)).
Proof.
  intros [I1 I2 I3 I4 I5 I6] Hc Ho Hnot Hql. split; cbn [ps calls qlock written got raced]; [done|done| | |done|].
  - intros x c' Hx. destruct (decide (x = cid)) as [->|Hne].
    + rewrite lookup_partial_alter_eq in Hx. destruct Ho as [->| ->]; [done|]. injection Hx as <-.
      destruct (I3 cid c Hc) as (Hu & p & Hp & _). split; [done|]. by exists p.
    + rewrite lookup_partial_alter_ne in Hx by done. destruct (I3 x c' Hx) as (Hu & p & Hp & Hok). split; [done|].
      exists p. split; [done|]. unfold call_ok in *. cbn [qlock ps]. destruct (stage c') eqn:Hst; [done| |done|done].
      destruct Hok as [Hlk Hw]. split; [|done]. destruct Hql as [[_ ->]|[Hd ->]]; [done|].
      destruct (I3 cid c Hc) as (_ & p0 & _ & Hok0). unfold call_ok in Hok0. rewrite Hd in Hok0.
      rewrite lookup_delete_ne; [done|]. intros He. rewrite He in Hok0. destruct Hok0. congruence.
  - intros key p d Hp. destruct (I4 key p d Hp) as [Hn Hs]. split; [done|]. intros x Hx. destruct (Hs x Hx) as (c' & Hc' & Hd & Hk & Hst).
    destruct (decide (x = cid)) as [->|Hne]; [|exists c'; by rewrite lookup_partial_alter_ne].
    assert (c' = c) as -> by congruence. destruct (Hnot p); by subst.
  - intros key x Hx.
    assert (Hqn : qlock w !! key = Some x /\ x <> cid).
    { destruct Hql as [[Hs ->]|[Hs ->]].
      - split; [done|]. intros ->. destruct (I6 _ _ Hx) as (c' & ? & ? & ?). congruence.
      - apply lookup_delete_Some in Hx as [Hk Hx]. split; [done|]. intros ->. destruct (I6 _ _ Hx) as (c' & ? & ? & ?). congruence. }
    destruct Hqn as [Hq Hne]. destruct (I6 _ _ Hq) as (c' & ? & ? & ?). exists c'. by rewrite lookup_partial_alter_ne.
Qed.

(** A context that found nothing to do keeps the lock. *)
Lemma inv_decide w cid c p : INV w -> calls w !! cid = Some c -> stage c = Ready -> qlock w !! ckey c = None ->
  heap (ps w) !! ckey c = Some p -> idle (cdir c) p -> peer_alive (cdir c) p = true ->
  INV (mkW (ps w) (<[cid := at_stage Decided c]> (calls w)) (<[ckey c := cid]> (qlock w)) (written w) (got w) (raced w)).
Proof.
  intros [I1 I2 I3 I4 I5 I6] Hc Hst Hfree Hp Hidle Ha. split; cbn [ps calls qlock written got raced]; [done|done| | |done|].
  - intros x c' [[<- <-]|[Hne Hx]]%lookup_insert_Some.
    + destruct (I3 cid c Hc) as (Hu & _). split; [done|]. exists p. split; [done|]. split; [apply lookup_insert_eq|done].
    + destruct (I3 x c' Hx) as (Hu & q & Hq & Hok). split; [done|]. exists q. split; [done|].
      unfold call_ok in *. cbn [qlock ps]. destruct (stage c'); [done| |done|done]. destruct Hok as [Hlk Hw]. split; [|done].
      rewrite lookup_insert_ne; [done|]. intros He. rewrite He in Hfree. congruence.
  - intros key q d Hq. destruct (I4 key q d Hq) as [Hn Hs]. split; [done|]. intros x Hx. destruct (Hs x Hx) as (c' & Hc' & Hd & Hk & Hw).
    exists c'. rewrite lookup_insert_ne; [done|]. intros <-. not_waiting.
  - intros key x [[<- <-]|[Hne Hx]]%lookup_insert_Some; [exists (at_stage Decided c); by rewrite lookup_insert_eq|].
    destruct (I6 _ _ Hx) as (c' & Hc' & Hk & Hs). exists c'. rewrite lookup_insert_ne; [done|]. intros <-. congruence.
Qed.

(** Joining the wait list and giving up the lock. *)
Lemma inv_block w cid c p s' : INV w -> calls w !! cid = Some c -> stage c = Decided -> heap (ps w) !! ckey c = Some p ->
  listed s' = listed (ps w) -> (forall x, blocked s' x -> x = cid \/ blocked (ps w) x) ->
  heap s' = <[ckey c := set_cond (cdir c) (cond (cdir c) p ++ [cid]) p]> (heap (ps w)) ->
  INV (mkW s' (<[cid := at_stage Waiting c]> (calls w)) (delete (ckey c) (qlock w)) (written w) (got w) (raced w)).
Proof.
  intros [I1 I2 I3 I4 I5 I6] Hc Hst Hp Hli Hbl Hh. set (p' := set_cond (cdir c) (cond (cdir c) p ++ [cid]) p).
  destruct (same_set (cdir c) (cond (cdir c) p ++ [cid]) p) as (Q1 & Q2 & Q3). fold p' in Q1, Q2, Q3.
  assert (Hpa : forall d, peer_alive d p' = peer_alive d p) by (by intros []).
  assert (Hid : forall d, idle d p -> idle d p') by (intros []; unfold idle; by rewrite Q1).
  assert (Hin : forall d x, x ∈ cond d p -> x ∈ cond d p').
  { intros d x. unfold p'. destruct d, (cdir c); cbn; try done; intros ?; apply elem_of_app; by left. }
  pose proof (fun k q => lookup_put _ _ _ _ k q Hh) as Hl. fold p' in Hl.
  destruct (I3 cid c Hc) as (Hu & p0 & Hp0 & Hok0). assert (p0 = p) as -> by congruence. unfold call_ok in Hok0. rewrite Hst in Hok0.
  destruct Hok0 as [Hlk0 [Hi0 Ha0]].
  assert (Hnot : forall k q d, heap (ps w) !! k = Some q -> cid ∉ cond d q).
  { intros k q d Hq Hx. destruct (proj2 (I4 k q d Hq) cid Hx) as (c' & ? & _ & _ & ?). not_waiting. }
  split; cbn [ps calls qlock written got raced].
  - intros k q Hk. destruct (Hl k q Hk) as [[-> ->]|[Hne Hq]]; [rewrite Q1|]; by apply I1.
  - intros k q Hk. destruct (Hl k q Hk) as [[-> ->]|[Hne Hq]]; [rewrite Q1|]; by eapply I2.
  - intros x c' [[<- <-]|[Hne Hx]]%lookup_insert_Some.
    + split; [done|]. exists p'. split; [rewrite Hh; apply lookup_insert_eq|]. intros _. split.
      * cbn [at_stage cdir]. unfold p'. rewrite cond_set. apply elem_of_app. right. apply list_elem_of_here.
      * split; [by apply Hid|]. cbn [at_stage cdir ckey raced]. by rewrite Hpa.
    + destruct (I3 x c' Hx) as (Hu' & q & Hq & Hok). split; [done|].
      assert (Hex : exists q', heap s' !! ckey c' = Some q' /\ (forall d, peer_alive d q' = peer_alive d q) /\
        (forall d, idle d q -> idle d q') /\ forall d x, x ∈ cond d q -> x ∈ cond d q').
      { destruct (decide (ckey c' = ckey c)) as [He|Hn].
        - exists p'. rewrite He, Hh, lookup_insert_eq. assert (q = p) as -> by congruence. done.
        - exists q. by rewrite Hh, lookup_insert_ne. }
      destruct Hex as (q' & Hq' & E1 & E2 & E3). exists q'. split; [done|]. unfold call_ok, may_wait in *. cbn [qlock ps raced].
      destruct (stage c'); [done| | |done].
      * destruct Hok as [Hlk [Hi Ha]]. rewrite E1. split; [|auto]. rewrite lookup_delete_ne; [done|]. congruence.
      * intros Hb. destruct (Hbl x Hb) as [->|Hb']; [done|]. destruct (Hok Hb') as (? & ? & ?). rewrite E1. auto.
  - intros k q d Hk. destruct (Hl k q Hk) as [[-> ->]|[Hne Hq]].
    + destruct (I4 _ _ d Hp) as [Hn Hs]. assert (Hwas : forall x, x ∈ cond d p -> exists c0,
        <[cid:=at_stage Waiting c]> (calls w) !! x = Some c0 /\ cdir c0 = d /\ ckey c0 = ckey c /\ is_waiting (stage c0) = true).
      { intros x Hx. destruct (Hs x Hx) as (c0 & ? & ? & ? & ?). exists c0. rewrite lookup_insert_ne; [done|]. intros <-. not_waiting. }
      destruct (decide (d = cdir c)) as [->|Hd].
      * unfold p'. rewrite cond_set. split.
        -- apply NoDup_app. split; [done|]. split; [|apply NoDup_singleton]. intros x Hx Hx'%list_elem_of_singleton. subst. by eapply Hnot.
        -- intros x [Hx|Hx%list_elem_of_singleton]%elem_of_app; [by apply Hwas|]. subst x. exists (at_stage Waiting c). by rewrite lookup_insert_eq.
      * assert (Hco : cond d p' = cond d p) by (unfold p'; by destruct d, (cdir c)). rewrite Hco. done.
    + destruct (I4 _ _ d Hq) as [Hn Hs]. split; [done|]. intros x Hx. destruct (Hs x Hx) as (c0 & ? & ? & ? & ?). exists c0.
      rewrite lookup_insert_ne; [done|]. intros <-. not_waiting.
  - intros k Hk. rewrite Hh. apply lookup_insert_is_Some'. right. apply I5. by rewrite <- Hli.
  - intros k x [Hk Hx]%lookup_delete_Some. destruct (I6 _ _ Hx) as (c' & Hc' & Hk' & Hs). exists c'.
    rewrite lookup_insert_ne; [done|]. intros <-. congruence.
Qed.

(** A pipe whose queue and wait lists stay as they are. *)
Lemma inv_same w s' key p p' wr gt : INV w -> touched (ps w) s' key p p' [] -> same_pipe p p' -> (forall d, cond d p' = cond d p) ->
  (forall k, default [] (wr !! k) = default [] (written w !! k) /\ default [] (gt !! k) = default [] (got w !! k)) ->
  INV (mkW s' (calls w) (qlock w) wr gt (raced w)).
Proof.
  intros HI T (Q1 & Q2 & Q3) Hc Hlog.
  assert (Hkeep : INV (mkW s' (calls w) (qlock w) (written w) (got w) (raced w))).
  { eapply (INV_touch w); [done|exact T|done|done| | | |].
    - rewrite Q1. apply (iv_fifo w HI). apply (to_old _ _ _ _ _ _ T).
    - rewrite Q1. eapply (iv_bound w HI), (to_old _ _ _ _ _ _ T).
    - intros d. rewrite Hc. split; [|done]. apply (iv_waiters w HI key p d (to_old _ _ _ _ _ _ T)).
    - intros cid c _ _ Hok. unfold call_ok in *. cbn [ps qlock]. rewrite Hc.
      assert (Hpa : peer_alive (cdir c) p' = peer_alive (cdir c) p) by (unfold peer_alive; destruct (cdir c); congruence).
      destruct (stage c); [done|destruct Hok; split; [done|by eapply may_wait_same]| |done].
      intros Hb. destruct (Hok (proj1 (to_blocked _ _ _ _ _ _ T cid Hb))). split; [done|by eapply may_wait_same]. }
  destruct Hkeep as [K1 K2 K3 K4 K5 K6]. split; try done. intros k q Hk. cbn [written got]. destruct (Hlog k) as [-> ->]. by apply K1.
Qed.

(** Waking the other side after moving bytes. *)
Lemma inv_moved w cid c s' p p' data r : INV w -> calls w !! cid = Some c -> qlock w !! ckey c = None ->
  touched (ps w) s' (ckey c) p p' (cond (other (cdir c)) p) -> ~ idle (cdir c) p ->
  cond (cdir c) p' = cond (cdir c) p -> cond (other (cdir c)) p' = [] ->
  moved_bytes (user_of (match cdir c with Rd => s' | Wr => ps w end) cid) (cbuf c) r = data ->
  match cdir c with
  | Rd => queue p = data ++ queue p'
  | Wr => queue p' = queue p ++ data /\ Z.of_nat (length (queue p')) <= MAX_QUEUE_SIZE
  end ->
  INV (mkW s' (calls w) (qlock w) (log_written cid c r (ps w) (written w)) (log_got cid c r s' (got w)) (raced w)).
Proof.
  intros HI Hc Hfree T Hidle Hk1 Hk2 Hdata Hq. pose proof (to_old _ _ _ _ _ _ T) as Hp.
  eapply (INV_touch w); [done|exact T|done| | | | |].
  - intros k Hk. unfold log_written, log_got, log. destruct (cdir c); by rewrite ?lookup_insert_ne by done.
  - pose proof (iv_fifo w HI _ _ Hp) as Hf. unfold log_written, log_got, log. destruct (cdir c).
    + rewrite lookup_insert_eq, Hdata. cbn [default from_option]. rewrite Hf, Hq. by rewrite app_assoc.
    + rewrite lookup_insert_eq, Hdata. cbn [default from_option]. destruct Hq as [-> _]. rewrite Hf. by rewrite app_assoc.
  - destruct (cdir c); [|by destruct Hq]. pose proof (iv_bound w HI _ _ Hp) as Hb. rewrite Hq, length_app in Hb. lia.
  - assert (Hn : forall d, NoDup (cond d p)) by (intros d; apply (iv_waiters w HI _ _ d Hp)).
    intros d. destruct (decide (d = cdir c)) as [->|Hd]; [by rewrite Hk1|].
    assert (d = other (cdir c)) as -> by (by destruct d, (cdir c)). rewrite Hk2. split; [constructor|]. intros x Hx. by apply not_elem_of_nil in Hx.
  - intros x c' _ He Hok. unfold call_ok in *. cbn [ps qlock]. destruct (stage c'); [done|rewrite He in Hok; destruct Hok; congruence| |done].
    intros Hb. destruct (to_blocked _ _ _ _ _ _ T x Hb) as [Hb' Hn]. destruct (Hok Hb') as [Hin [Hid _]].
    exfalso. destruct (decide (cdir c' = cdir c)) as [Hd|Hd]; [rewrite Hd in Hid; done|].
    apply Hn. by assert (other (cdir c) = cdir c') as -> by (by destruct (cdir c), (cdir c')).
Qed.

Lemma log_nil key h k : default [] (log key [] h !! k) = default [] (h !! k).
Proof.
  unfold log. destruct (decide (k = key)) as [->|Hne]; [|by rewrite lookup_insert_ne].
  rewrite lookup_insert_eq. cbn. apply app_nil_r.
Qed.


Lemma inv_not_waiting w cid c : INV w -> calls w !! cid = Some c -> is_waiting (stage c) = false ->
  forall p, heap (ps w) !! ckey c = Some p -> cid ∉ cond (cdir c) p.
Proof. intros HI Hc Hs p Hp Hx. destruct (proj2 (iv_waiters w HI _ _ _ Hp) cid Hx) as (c' & ? & _ & _ & ?). not_waiting. Qed.

(** A round of a call that finishes, and one that decides to wait. *)
Lemma inv_finish w cid c pivot r s' : INV w -> calls w !! cid = Some c -> stage c = Ready -> qlock w !! ckey c = None ->
  round cid pivot c (ps w) = Done (Finished r, s') ->
  INV (mkW s' (delete cid (calls w)) (qlock w) (log_written cid c r (ps w) (written w)) (log_got cid c r s' (got w)) (raced w)).
Proof.
  intros HI Hc Hst Hfree Hrun. destruct (iv_calls w HI cid c Hc) as (Hu & p & Hp & _).
  destruct (round_effect cid pivot c (ps w) p Hp Hu) as (a & s1 & Hrun1 & Hres). rewrite Hrun in Hrun1. injection Hrun1 as <- <-.
  assert (HI' : INV (mkW s' (calls w) (qlock w) (log_written cid c r (ps w) (written w)) (log_got cid c r s' (got w)) (raced w))).
  { destruct Hres as [T _ Hb|p' r' data T Hr Hi Hc1 Hc2 Hd Hq].
    - apply (inv_same w s' (ckey c) p p _ _ HI T); [done|done|]. specialize (Hb r eq_refl). unfold log_written, log_got.
      intros k. destruct (cdir c); rewrite Hb, log_nil; done.
    - injection Hr as <-. by eapply inv_moved. }
  eapply (inv_leave _ cid c None) in HI'; [exact HI'|exact Hc|by left| |left; split; [congruence|reflexivity]].
  apply (inv_not_waiting _ _ _ HI' Hc). by rewrite Hst.
Qed.

Lemma inv_must_wait w cid c pivot s' : INV w -> calls w !! cid = Some c -> stage c = Ready -> qlock w !! ckey c = None ->
  round cid pivot c (ps w) = Done (MustWait, s') ->
  INV (mkW s' (<[cid := at_stage Decided c]> (calls w)) (<[ckey c := cid]> (qlock w)) (written w) (got w) (raced w)).
Proof.
  intros HI Hc Hst Hfree Hrun. destruct (iv_calls w HI cid c Hc) as (Hu & p & Hp & _).
  destruct (round_effect cid pivot c (ps w) p Hp Hu) as (a & s1 & Hrun1 & Hres). rewrite Hrun in Hrun1. injection Hrun1 as <- <-.
  destruct Hres as [T Hw _|? ? ? _ Hr]; [|done]. destruct (Hw eq_refl) as [Hi Ha].
  assert (HI' : INV (mkW s' (calls w) (qlock w) (written w) (got w) (raced w))) by (by eapply inv_same).
  eapply (inv_decide _ cid c p) in HI'; try done. cbn [ps]. rewrite (to_heap _ _ _ _ _ _ T). apply lookup_insert_eq.
Qed.

Lemma inv_wait w cid c (b : bool) s' : INV w -> calls w !! cid = Some c -> stage c = Decided -> block_on cid c (ps w) = Done (b, s') ->
  INV (mkW s' (if b then <[cid := at_stage Waiting c]> (calls w) else delete cid (calls w)) (delete (ckey c) (qlock w)) (written w) (got w) (raced w)).
Proof.
  intros HI Hc Hst Hrun. destruct (iv_calls w HI cid c Hc) as (Hu & p & Hp & _).
  destruct (block_effect cid c (ps w) p b s' Hp Hrun) as (Hl & Hb & Hh). destruct b.
  - eapply inv_block; try done. intros x Hx. destruct (Hb x Hx) as [[_ ?]|?]; auto.
  - assert (HI' : INV (mkW s' (calls w) (qlock w) (written w) (got w) (raced w))).
    { eapply (inv_same w s' (ckey c) p p); try done. split; [done|by rewrite insert_id|by rewrite Hl|].
      intros x Hx. split; [destruct (Hb x Hx) as [[? _]|?]; done|apply not_elem_of_nil]. }
    eapply (inv_leave _ cid c None) in HI'; [exact HI'|exact Hc|by left| |right; split; [done|reflexivity]].
    apply (inv_not_waiting _ _ _ HI' Hc). by rewrite Hst.
Qed.

Lemma inv_wake w cid c (b : bool) s' : INV w -> calls w !! cid = Some c -> is_waiting (stage c) = true -> ~ blocked (ps w) cid ->
  wake_from cid c (ps w) = Done (b, s') ->
  INV (mkW s' (if b then <[cid := at_stage Ready c]> (calls w) else delete cid (calls w)) (qlock w) (written w) (got w) (raced w)).
Proof.
  intros HI Hc Hst Hnb Hrun. destruct (iv_calls w HI cid c Hc) as (Hu & p & Hp & _).
  destruct (wake_effect cid c (ps w) p b s' Hp (proj1 (iv_waiters w HI _ _ _ Hp)) Hrun) as (l & T & Hnd & Hni & Hiff & _).
  destruct (same_set (cdir c) l p) as (Q1 & Q2 & Q3).
  assert (HI' : INV (mkW s' (calls w) (qlock w) (written w) (got w) (raced w))).
  { eapply (INV_touch w); [done|exact T|done|done| | | |].
    - rewrite Q1. by apply (iv_fifo w HI).
    - rewrite Q1. by eapply (iv_bound w HI).
    - intros d. destruct (decide (d = cdir c)) as [->|Hd].
      + rewrite cond_set. split; [done|]. intros x Hx. apply Hiff; [|done]. by intros ->.
      + assert (Hco : cond d (set_cond (cdir c) l p) = cond d p) by (by destruct d, (cdir c)). rewrite Hco.
        split; [apply (iv_waiters w HI _ _ _ Hp)|done].
    - intros x c' Hx He Hok. unfold call_ok in *. cbn [ps qlock].
      assert (Hpa : peer_alive (cdir c') (set_cond (cdir c) l p) = peer_alive (cdir c') p) by (unfold peer_alive; destruct (cdir c'); congruence).
      destruct (stage c'); [done|destruct Hok; split; [done|by eapply may_wait_same]| |done].
      intros Hb. pose proof (proj1 (to_blocked _ _ _ _ _ _ T x Hb)) as Hb0. destruct (Hok Hb0) as [Hin Hw].
      split; [|by eapply may_wait_same]. destruct (decide (cdir c' = cdir c)) as [Hd|Hd].
      + rewrite Hd, cond_set. apply Hiff; [intros ->; done|by rewrite <- Hd].
      + by assert (cond (cdir c') (set_cond (cdir c) l p) = cond (cdir c') p) as -> by (by destruct (cdir c'), (cdir c)). }
  assert (Hnot : forall q, heap s' !! ckey c = Some q -> cid ∉ cond (cdir c) q).
  { intros q. rewrite (to_heap _ _ _ _ _ _ T), lookup_insert_eq. intros [= <-]. by rewrite cond_set. }
  destruct b.
  - eapply (inv_leave _ cid c (Some (at_stage Ready c))) in HI'; [exact HI'|exact Hc|by right|exact Hnot|left; split; [intros E; by rewrite E in Hst|reflexivity]].
  - eapply (inv_leave _ cid c None) in HI'; [exact HI'|exact Hc|by left|exact Hnot|left; split; [intros E; by rewrite E in Hst|reflexivity]].
Qed.

Lemma inv_close w id r s' : INV w -> close id (ps w) = Done (r, s') ->
  let key := snd (from_raw_id id) in
  INV (mkW s' (calls w) (qlock w) (written w) (got w) (if bool_decide (is_Some (qlock w !! key)) then {[key]} ∪ raced w else raced w)).
Proof.
  intros HI Hrun key. set (rc := if bool_decide _ then _ else _).
  assert (Hrc : raced w ⊆ rc) by (unfold rc; case_bool_decide; set_solver).
  assert (Hkey : is_Some (qlock w !! key) -> key ∈ rc) by (unfold rc; case_bool_decide; set_solver).
  destruct (close_effect id (ps w) r s' Hrun) as [->|(d & p & p' & T & Hq & Hc1 & Hc2 & Ha)].
  { destruct HI as [K1 K2 K3 K4 K5 K6]. split; try done. intros cid c Hc. destruct (K3 cid c Hc) as (Hu & p & Hp & Hok). split; [done|].
    exists p. split; [done|]. unfold call_ok in *. cbn [ps qlock]. destruct (stage c); [done|destruct Hok; split; [done|by eapply may_wait_same]| |done].
    intros Hb. destruct (Hok Hb). split; [done|by eapply may_wait_same]. }
  fold key in T. pose proof (to_old _ _ _ _ _ _ T) as Hp. eapply (INV_touch w); [done|exact T|exact Hrc|done| | | |].
  - rewrite Hq. by apply (iv_fifo w HI).
  - rewrite Hq. by eapply (iv_bound w HI).
  - intros d'. destruct (decide (d' = d)) as [->|Hd].
    + rewrite Hc1. split; [constructor|]. intros x Hx. by apply not_elem_of_nil in Hx.
    + assert (d' = other d) as -> by (by destruct d', d). rewrite Hc2. split; [apply (iv_waiters w HI _ _ _ Hp)|done].
  - intros x c Hx He Hok. unfold call_ok in *. cbn [ps qlock]. destruct (stage c) eqn:Hst; [done| | |done].
    + destruct Hok as [Hl Hw]. split; [done|]. eapply may_wait_same; [exact Hw|exact Hrc|exact Hq|]. intros Hn. exfalso. apply Hn.
      rewrite He. apply Hkey. rewrite He in Hl. by exists x.
    + intros Hb. destruct (to_blocked _ _ _ _ _ _ T x Hb) as [Hb0 Hn]. destruct (Hok Hb0) as [Hin Hw].
      destruct (decide (cdir c = d)) as [Hd|Hd]; [rewrite Hd in Hin; done|].
      assert (cdir c = other d) as Ho by (by destruct (cdir c), d).
      split; [by rewrite Ho, Hc2, <- Ho|]. eapply may_wait_same; [exact Hw|exact Hrc|exact Hq|]. intros _. by rewrite Ho.
Qed.

Lemma world_eta w : mkW (ps w) (calls w) (qlock w) (written w) (got w) (raced w) = w.
Proof. by destruct w. Qed.

Lemma inv_write_end w key r s' : INV w -> take_write_end key (ps w) = Done (r, s') ->
  INV (mkW s' (calls w) (qlock w) (written w) (got w) (raced w)).
Proof.
  intros HI Hrun. destruct (take_write_end_effect key (ps w) r s' Hrun) as [->|(p & T)]; [by rewrite world_eta|].
  eapply inv_same; [done|exact T|done|by intros []|done].
Qed.

(** User memory is not part of the invariant. *)
Lemma inv_users w us : INV w ->
  INV (mkW (mkPS (heap (ps w)) (listed (ps w)) (PIPE_NEXT_ID (ps w)) (sched (ps w)) (triggered (ps w)) us) (calls w) (qlock w) (written w) (got w) (raced w)).
Proof. intros [K1 K2 K3 K4 K5 K6]. split; done. Qed.

Lemma inv_dup w cid id buf r s' : INV w -> kdup cid id buf (ps w) = Done (r, s') ->
  INV (mkW s' (calls w) (qlock w) (written w) (got w) (raced w)).
Proof.
  intros HI. unfold kdup. destruct (from_raw_id id) as [wr key]. destruct wr; [intros [= _ <-]; by rewrite world_eta|].
  unfold bind_result, bind at 1, with_user. destruct (copy_common_bytes_to_slice buf 5 _) as [[a u]|]; [|done].
  set (s1 := mkPS _ _ _ _ _ _). pose proof (inv_users w (<[cid := u]> (users (ps w))) HI) as HI1.
  destruct a as [bytes|e]; [|by intros [= _ <-]]. destruct (_ || _); [by intros [= _ <-]|]. intros Hrun.
  by apply (inv_write_end _ key r s' HI1).
Qed.

Lemma inv_pipe w ids s' : INV w -> heap (ps w) !! PIPE_NEXT_ID (ps w) = None -> pipe (ps w) = Done (ids, s') ->
  INV (mkW s' (calls w) (qlock w) (<[PIPE_NEXT_ID (ps w) := []]> (written w)) (<[PIPE_NEXT_ID (ps w) := []]> (got w)) (raced w)).
Proof.
  intros [K1 K2 K3 K4 K5 K6] Hfresh [= _ <-]. set (id := PIPE_NEXT_ID (ps w)) in *.
  split; cbn [ps heap listed calls qlock written got raced].
  - intros k p [[<- <-]|[Hne Hk]]%lookup_insert_Some; [by rewrite !lookup_insert_eq|]. rewrite !lookup_insert_ne by done. by apply K1.
  - intros k p [[<- <-]|[Hne Hk]]%lookup_insert_Some; [done|]. by eapply K2.
  - intros cid c Hc. destruct (K3 cid c Hc) as (Hu & p & Hp & Hok). split; [done|]. exists p.
    rewrite lookup_insert_ne by congruence. split; [done|]. exact Hok.
  - intros k p d [[<- <-]|[Hne Hk]]%lookup_insert_Some; [|by apply K4]. destruct d; (split; [constructor|]); intros x Hx; by apply not_elem_of_nil in Hx.
  - intros k [->%elem_of_singleton|Hk]%elem_of_union; [rewrite lookup_insert_eq; by eexists|]. apply lookup_insert_is_Some'. right. by apply K5.
  - done.
Qed.

Lemma start_effect d id s key s' : start d id s = Done (Ok key, s') -> key ∈ listed s.
Proof.
  unfold start, read_start, write_start, bind_result, bind, lookup_pipe.
  destruct d, (from_raw_id id) as [[] k]; cbn [negb]; try done;
  (destruct (bool_decide (k ∈ listed s)) eqn:Hb; [|done]); apply bool_decide_eq_true in Hb;
  (destruct (heap s !! k); [|done]); by intros [= <- _].
Qed.

Lemma inv_start w d cid id buf nb key : INV w -> calls w !! cid = None -> us_ok buf -> start d id (ps w) = Done (Ok key, ps w) ->
  INV (mkW (ps w) (<[cid := mkCall d key buf nb Ready]> (calls w)) (qlock w) (written w) (got w) (raced w)).
Proof.
  intros [K1 K2 K3 K4 K5 K6] Hnone Hu Hs. apply start_effect in Hs. destruct (K5 key Hs) as [p Hp].
  split; cbn [ps calls qlock written got raced]; [done|done| | |done|].
  - intros x c [[<- <-]|[Hne Hx]]%lookup_insert_Some; [split; [done|]; by exists p|by apply K3].
  - intros k q d' Hq. destruct (K4 k q d' Hq) as [Hn Hw]. split; [done|]. intros x Hx. destruct (Hw x Hx) as (c & ? & ? & ? & ?).
    exists c. rewrite lookup_insert_ne by congruence. done.
  - intros k x Hx. destruct (K6 k x Hx) as (c & ? & ? & ?). exists c. rewrite lookup_insert_ne by congruence. done.
Qed.

Lemma inv_env w x us w' : INV w -> env_step w x us w' -> INV w'.
Proof.
  intros [K1 K2 K3 K4 K5 K6] ->.
  assert (Hl : forall cid c', map_imap (fun cid c => Some (disturb (ps w) x cid c)) (calls w) !! cid = Some c' <->
    exists c, calls w !! cid = Some c /\ c' = disturb (ps w) x cid c).
  { intros cid c'. rewrite map_lookup_imap, bind_Some. naive_solver. }
  assert (Hd : forall cid c, let c' := disturb (ps w) x cid c in cdir c' = cdir c /\ ckey c' = ckey c /\ cbuf c' = cbuf c /\
    is_waiting (stage c') = is_waiting (stage c) /\ (stage c = Decided -> stage c' = Decided)).
  { intros cid c. cbn zeta. unfold disturb. destruct (is_waiting (stage c)) eqn:E; cbn [andb]; [|done].
    destruct (put_back _ _ _); [|done]. split_and!; try done. by intros H; rewrite H in E. }
  split; cbn [ps calls qlock written got raced heap listed]; try done.
  - intros cid c' (c & Hc & ->)%Hl. destruct (K3 cid c Hc) as (Hu & p & Hp & Hok). destruct (Hd cid c) as (D1 & D2 & D3 & _).
    cbn zeta in *. rewrite D3, D2. split; [done|]. exists p. split; [done|]. unfold disturb in *.
    destruct (is_waiting (stage c) && put_back (sched (ps w)) x cid) eqn:E; [done|]. unfold call_ok in *. cbn [ps qlock].
    destruct (stage c); [done|done| |done]. intros Hb. apply Hok, asleep_spec. eapply put_back_false; [exact E|]. by apply asleep_spec.
  - intros key p d Hp. destruct (K4 key p d Hp) as [Hn Hw]. split; [done|]. intros cid Hin. destruct (Hw cid Hin) as (c & Hc & C1 & C2 & C3).
    destruct (Hd cid c) as (D1 & D2 & _ & D4 & _). exists (disturb (ps w) x cid c). split_and!; [apply Hl; eauto|congruence..].
  - intros key cid Hq. destruct (K6 key cid Hq) as (c & Hc & C1 & C2). destruct (Hd cid c) as (_ & D2 & _ & _ & D5).
    exists (disturb (ps w) x cid c). split_and!; [apply Hl; eauto|congruence|auto].
Qed.

Lemma step_inv w w' : INV w -> step w w' -> INV w'.
Proof.
  intros HI [ids s' Hf Hr|cid id buf r s' Hr|id buf r s' Hr|d cid id buf nb key Hn Hu Hs|cid c pivot r s' Hc Hst Hl Hr|
    cid c pivot s' Hc Hst Hl Hr|cid c b s' Hc Hst Hr|cid c b s' Hc Hst Hnb Hr|id r s' Hr|x us w'' He].
  - by eapply inv_pipe.
  - by eapply inv_dup.
  - unfold kopenat in Hr. destruct (from_raw_id id) as [? key]. destruct buf as [buf|]; [|injection Hr as _ <-; by rewrite world_eta].
    destruct (bool_decide _); [injection Hr as _ <-; by rewrite world_eta|]. by eapply inv_write_end.
  - by eapply inv_start.
  - by eapply inv_finish.
  - by eapply inv_must_wait.
  - by eapply inv_wait.
  - by eapply inv_wake.
  - by eapply inv_close.
  - by eapply inv_env.
Qed.

Lemma initial_inv w : initial w -> INV w.
Proof.
  intros (H1 & H2 & H3 & H4). split.
  - intros k p. by rewrite H1, lookup_empty.
  - intros k p. by rewrite H1, lookup_empty.
  - intros k p. by rewrite H3, lookup_empty.
  - intros k p d. by rewrite H1, lookup_empty.
  - intros k. rewrite H2. set_solver.
  - intros k c. by rewrite H4, lookup_empty.
Qed.

Lemma reach_INV w : reachable w -> INV w.
Proof.
  intros (w0 & H0 & Hs). apply initial_inv in H0. induction Hs as [|w w1 w2 Hstep _ IH]; [done|].
  apply IH. by eapply step_inv.
Qed.

(** ** Claims *)

(** C23: in every interleaving of readers, writers, closes, signals and context
    switches, the bytes that calls of [kwrite] took from user memory are, in
    order, the bytes that calls of [kread] stored to user memory followed by
    the queue: a pipe neither loses, duplicates nor reorders a byte, and its
    queue never exceeds [MAX_QUEUE_SIZE]. *)
Theorem pipe_fifo w key p : reachable w -> heap (ps w) !! key = Some p ->
  default [] (written w !! key) = default [] (got w !! key) ++ queue p /\
  Z.of_nat (length (queue p)) <= MAX_QUEUE_SIZE.
Proof. intros Hr Hp. destruct (reach_INV w Hr) as [K1 K2 _ _ _ _]. split; [by apply K1|by eapply K2]. Qed.

(** C24: in every interleaving of readers, writers, closes, stops and other kernel
    code, a context that sleeps in a call is on the wait list of its pipe and has no
    bytes to move: a sleeping reader's queue is empty, a sleeping writer's queue is
    full.  The other end is open, too, unless it was closed at a moment when a call
    on this pipe had found nothing to do and was about to wait (then the end of file
    can be missed, [eof_wakeup_lost]).  This holds for every sleeper that has not
    been put back to sleep by a stop that met its wake-up ([pipe_stop_loses_wakeup]).
    The wait lists hold no one else: each entry is there once and belongs to a call
    that waits in this pipe and direction. *)
Theorem pipe_no_lost_wakeup w : reachable w ->
  (forall cid c, calls w !! cid = Some c -> stage c = Waiting -> blocked (ps w) cid ->
     exists p, heap (ps w) !! ckey c = Some p /\ cid ∈ cond (cdir c) p /\
       match cdir c with Rd => queue p = [] | Wr => Z.of_nat (length (queue p)) = 65536 end /\
       (ckey c ∉ raced w -> match cdir c with Rd => writer_is_alive p | Wr => reader_is_alive p end = true)) /\
  (forall key p d, heap (ps w) !! key = Some p -> NoDup (cond d p) /\
     forall cid, cid ∈ cond d p -> exists c, calls w !! cid = Some c /\ cdir c = d /\ ckey c = key /\ is_waiting (stage c) = true).
Proof.
  intros Hr. destruct (reach_INV w Hr) as [_ K2 K3 K4 _ _]. split; [|exact K4].
  intros cid c Hc Hst Hb. destruct (K3 cid c Hc) as (_ & p & Hp & Hok). unfold call_ok in Hok. rewrite Hst in Hok.
  destruct (Hok Hb) as (Hin & Hi & Ha). exists p. split_and!; [done|done| |exact Ha]. unfold idle in Hi.
  destruct (cdir c); [done|]. specialize (K2 _ _ Hp). unfold MAX_QUEUE_SIZE in *. lia.
Qed.

(** The outcome of a round on a pipe, from the two ends and the queue: a reader gets
    what there is, up to its buffer; without bytes it gets the end of file if the
    writer is closed, [EAGAIN] if it may not wait, and waits otherwise.  A writer
    gets [EPIPE] if the reader is closed; it writes what fits, all of it unless a
    byte of its buffer cannot be read; without room it gets [EAGAIN] if it may not
    wait, and waits otherwise.  An empty buffer never waits. *)
Definition outcome (m : UserMem) (c : Call) (p : Pipe) (a : attempt Z) : Prop :=
  let len := us_len (cbuf c) in
  let held := Z.of_nat (length (queue p)) in
  match cdir c with
  | Rd =>
      if decide (0 < len /\ 0 < held) then a = Finished (Ok (Z.min len held))
      else if decide (len = 0 \/ writer_is_alive p = false) then a = Finished (Ok 0)
      else if cnb c then a = Finished (Err EAGAIN) else a = MustWait
  | Wr =>
      if reader_is_alive p then
        if decide (len = 0) then a = Finished (Ok 0)
        else if decide (held < 65536) then
          exists n, a = Finished (Ok n) /\ 0 < n <= Z.min len (65536 - held) /\
            (n < Z.min len (65536 - held) -> unreadable m (cbuf c))
        else if cnb c then a = Finished (Err EAGAIN) else a = MustWait
      else a = Finished (Err EPIPE)
  end.
Definition fault (m : UserMem) (c : Call) : Prop :=
  match cdir c with Rd => unwritable m (cbuf c) | Wr => unreadable m (cbuf c) end.

Lemma round_outcome cid pivot c s p : heap s !! ckey c = Some p -> us_ok (cbuf c) -> Z.of_nat (length (queue p)) <= 65536 ->
  exists a s', round cid pivot c s = Done (a, s') /\
    (outcome (user_of s cid) c p a \/ a = Finished (Err EFAULT) /\ fault (user_of s cid) c).
Proof.
  destruct c as [d key buf nb st]. unfold outcome, fault. cbn [cdir cbuf cnb ckey round]. intros Hp Hu Hmax.
  pose proof Hu as (H1 & H2 & H3). destruct d; cbn [round cdir ckey cbuf cnb].
  - destruct (read_round_ok cid key pivot buf nb s p Hp Hu) as (a & s' & Hrun & _ & _ & Hc). exists a, s'. split; [exact Hrun|].
    destruct Hc as [(-> & Hf & _)|[(Hn & -> & _)|(Hn & -> & _)]]; [by right|left..].
    + rewrite decide_True by lia. done.
    + rewrite decide_False by lia. unfold idle_read, us_is_empty. destruct (Z.eqb_spec (us_len buf) 0); [by rewrite decide_True by auto|].
      destruct (writer_is_alive p); cbn [negb]; [|by rewrite decide_True by auto].
      rewrite decide_False by (intros [?|?]; done). by destruct nb.
  - destruct (write_round_ok cid key buf nb s p Hp Hu) as (a & s' & Hrun & _ & _ & Hc). exists a, s'. split; [exact Hrun|].
    destruct Hc as [(-> & -> & _)|(-> & [(-> & Hf & _)|[(bytes & Hne & -> & Hl & Hs & Hm & _)|(Hn & -> & _)]])]; [by left|by right|left..].
    + assert (0 < length bytes)%nat by (destruct bytes; [done|cbn; lia]). rewrite length_app in Hm. unfold MAX_QUEUE_SIZE in *.
      rewrite decide_False, decide_True by lia. exists (Z.of_nat (length bytes)). split_and!; [done|lia|lia|exact Hs].
    + unfold idle_write, us_is_empty. destruct (Z.eqb_spec (us_len buf) 0); [by rewrite decide_True by auto|].
      unfold MAX_QUEUE_SIZE in *. rewrite !decide_False by lia. by destruct nb.
Qed.

(** C25: a call that starts a round of its loop always completes the round: the
    pipe it holds still exists, even when both ends were closed meanwhile, and
    none of the slice operations panics.  The round ends as [outcome] says,
    depending only on the two ends, the queue, the length of the buffer and whether
    the call may wait; only if a byte of the buffer is not accessible it may fail
    with [EFAULT] instead. *)
Theorem pipe_round_total w cid c pivot : reachable w -> calls w !! cid = Some c ->
  exists p a s', heap (ps w) !! ckey c = Some p /\ round cid pivot c (ps w) = Done (a, s') /\
    (outcome (user_of (ps w) cid) c p a \/ a = Finished (Err EFAULT) /\ fault (user_of (ps w) cid) c).
Proof.
  intros Hr Hc. destruct (reach_INV w Hr) as [_ K2 K3 _ _ _]. destruct (K3 cid c Hc) as (Hu & p & Hp & _).
  destruct (round_outcome cid pivot c (ps w) p Hp Hu (K2 _ _ Hp)) as (a & s' & Hrun & Ho). by exists p, a, s'.
Qed.

(** ** A schedule in which the end of file is missed *)

Module PipeTrace.

Definition ctx0 : Ctx := set_status Runnable ""%string new_ctx.
Definition sched0 : Sched := mkSched (<[1 := ctx0]> (<[2 := ctx0]> ∅)) 0 ∅ 0.
Definition um0 : UserMem := mkUserMem ∅ ∅.
Definition w0 : World := mkW (mkPS ∅ ∅ 0 sched0 [] ∅) ∅ ∅ ∅ ∅ ∅.
Definition buf0 : UserSlice := mkUserSlice 4096 16.

(** The state an operation leaves. *)
Definition after {A} (m : M PipeState A) (s : PipeState) : PipeState :=
  match m s with Done (_, s') => s' | Panic => s end.

Definition call0 (st : Stage) : Call := mkCall Rd 0 buf0 false st.
Definition w1 : World := mkW (after pipe (ps w0)) ∅ ∅ (<[0 := []]> ∅) (<[0 := []]> ∅) ∅.
Definition w2 : World := mkW (ps w1) (<[1 := call0 Ready]> (calls w1)) (qlock w1) (written w1) (got w1) (raced w1).
Definition w3 : World := mkW (after (round 1 0 (call0 Ready)) (ps w2)) (<[1 := call0 Decided]> (calls w2)) (<[0 := 1]> (qlock w2)) (written w2) (got w2) (raced w2).
Definition w4 : World := mkW (after (close 1) (ps w3)) (calls w3) (qlock w3) (written w3) (got w3) ({[0]} ∪ raced w3).
Definition w5 : World := mkW (after (block_on 1 (call0 Decided)) (ps w4)) (<[1 := call0 Waiting]> (calls w4)) (delete 0 (qlock w4)) (written w4) (got w4) (raced w4).

Lemma w5_reachable : reachable w5.
Proof.
  exists w0. split; [done|].
  eapply (rtc_l _ _ w1); [eapply (step_pipe w0 (0, 1)); vm_compute; reflexivity|].
  eapply (rtc_l _ _ w2); [eapply (step_start w1 Rd 1 0 buf0 false 0); [vm_compute; reflexivity|vm_compute; intuition congruence|vm_compute; reflexivity]|].
  eapply (rtc_l _ _ w3); [eapply (step_decide w2 1 (call0 Ready) 0); vm_compute; reflexivity|].
  eapply (rtc_l _ _ w4); [eapply (step_close w3 1 (Ok tt)); vm_compute; reflexivity|].
  eapply (rtc_l _ _ w5); [eapply (step_block w4 1 (call0 Decided) true); vm_compute; reflexivity|].
  apply rtc_refl.
Qed.

(** The bytes 7 and 8 written, one of them read. *)
Definition um_of (l : list Z) : UserMem := mkUserMem (list_to_map (zip (addrs 4096 (Z.of_nat (length l))) l)) ∅.
Definition v0 : World := mkW (mkPS ∅ ∅ 0 sched0 [] (<[1 := um_of [0]]> (<[2 := um_of [7; 8]]> ∅))) ∅ ∅ ∅ ∅ ∅.
Definition rcall : Call := mkCall Rd 0 (mkUserSlice 4096 1) false Ready.
Definition wcall : Call := mkCall Wr 0 (mkUserSlice 4096 2) false Ready.
Definition finish (cid : Z) (c : Call) (n : Z) (w : World) : World :=
  let s' := after (round cid 0 c) (ps w) in
  mkW s' (delete cid (calls w)) (qlock w) (log_written cid c (Ok n) (ps w) (written w)) (log_got cid c (Ok n) s' (got w)) (raced w).
Definition v1 : World := mkW (after pipe (ps v0)) ∅ ∅ (<[0 := []]> ∅) (<[0 := []]> ∅) ∅.
Definition v2 : World := mkW (ps v1) (<[1 := rcall]> (calls v1)) (qlock v1) (written v1) (got v1) (raced v1).
Definition v3 : World := mkW (ps v2) (<[2 := wcall]> (calls v2)) (qlock v2) (written v2) (got v2) (raced v2).
Definition v4 : World := finish 2 wcall 2 v3.
Definition v5 : World := finish 1 rcall 1 v4.

Lemma v5_reachable : reachable v4 /\ reachable v5.
Proof.
  assert (H4 : rtc step v0 v4).
  { eapply (rtc_l _ _ v1); [eapply (step_pipe v0 (0, 1)); vm_compute; reflexivity|].
    eapply (rtc_l _ _ v2); [eapply (step_start v1 Rd 1 0 (mkUserSlice 4096 1) false 0); [vm_compute; reflexivity|vm_compute; intuition congruence|vm_compute; reflexivity]|].
    eapply (rtc_l _ _ v3); [eapply (step_start v2 Wr 2 1 (mkUserSlice 4096 2) false 0); [vm_compute; reflexivity|vm_compute; intuition congruence|vm_compute; reflexivity]|].
    eapply (rtc_l _ _ v4); [eapply (step_finish v3 2 wcall 0 (Ok 2)); vm_compute; reflexivity|]. apply rtc_refl. }
  split; exists v0; (split; [done|]); [exact H4|].
  eapply rtc_r; [exact H4|]. eapply (step_finish v4 1 rcall 0 (Ok 1)); vm_compute; reflexivity.
Qed.

Lemma pipe_fifo_witness :
  default [] (written v5 !! 0) = [7; 8] /\ default [] (got v5 !! 0) = [7] /\
  exists p, heap (ps v5) !! 0 = Some p /\ default [] (written v5 !! 0) = default [] (got v5 !! 0) ++ queue p /\
    Z.of_nat (length (queue p)) <= MAX_QUEUE_SIZE.
Proof.
  split; [vm_compute; reflexivity|]. split; [vm_compute; reflexivity|].
  eexists. split; [vm_compute; reflexivity|]. eapply (pipe_fifo v5 0); [exact (proj2 v5_reachable)|vm_compute; reflexivity].
Defined.

(** The reader of an empty pipe asleep, its writer open. *)
Definition x4 : World := mkW (after (block_on 1 (call0 Decided)) (ps w3)) (<[1 := call0 Waiting]> (calls w3)) (delete 0 (qlock w3)) (written w3) (got w3) (raced w3).

Lemma x4_steps : rtc step w0 x4.
Proof.
  eapply (rtc_l _ _ w1); [eapply (step_pipe w0 (0, 1)); vm_compute; reflexivity|].
  eapply (rtc_l _ _ w2); [eapply (step_start w1 Rd 1 0 buf0 false 0); [vm_compute; reflexivity|vm_compute; intuition congruence|vm_compute; reflexivity]|].
  eapply (rtc_l _ _ w3); [eapply (step_decide w2 1 (call0 Ready) 0); vm_compute; reflexivity|].
  eapply (rtc_l _ _ x4); [eapply (step_block w3 1 (call0 Decided) true); vm_compute; reflexivity|].
  apply rtc_refl.
Qed.

Lemma pipe_no_lost_wakeup_witness : blocked (ps x4) 1 /\
  exists p, heap (ps x4) !! 0 = Some p /\ 1 ∈ cond Rd p /\ queue p = [] /\ writer_is_alive p = true.
Proof.
  assert (Hb : blocked (ps x4) 1) by (eexists; split; vm_compute; reflexivity). split; [exact Hb|].
  destruct (pipe_no_lost_wakeup x4 (ex_intro _ w0 (conj (conj eq_refl (conj eq_refl (conj eq_refl eq_refl))) x4_steps))) as [H _].
  destruct (H 1 (call0 Waiting)) as (p & Hp & Hin & Hi & Ha); [vm_compute; reflexivity|reflexivity|exact Hb|].
  exists p. split; [exact Hp|]. split; [exact Hin|]. split; [exact Hi|]. apply Ha. apply not_elem_of_empty.
Defined.

Lemma v4_round : match round 1 0 rcall (ps v4) with Done (a, _) => a | Panic => MustWait end = Finished (Ok 1).
Proof. vm_compute. reflexivity. Qed.

Lemma pipe_round_total_witness : exists p a s', heap (ps v4) !! 0 = Some p /\ round 1 0 rcall (ps v4) = Done (a, s') /\
  outcome (user_of (ps v4) 1) rcall p a /\ a = Finished (Ok 1).
Proof.
  destruct (pipe_round_total v4 1 rcall 0 (proj1 v5_reachable)) as (p & a & s' & Hp & H & Ho); [vm_compute; reflexivity|].
  pose proof v4_round as Ha. rewrite H in Ha. exists p, a, s'. split; [exact Hp|]. split; [exact H|]. split; [|exact Ha].
  destruct Ho as [Ho|[He _]]; [exact Ho|]. rewrite Ha in He. discriminate He.
Defined.

(** A debugger stops the sleeping reader and remembers that it was asleep; a writer
    puts two bytes into the queue and takes the reader off the wait list, but does
    not wake it; the debugger gives it the old status back. *)
Definition status1 (st : Status) (x : Sched) : Sched := match update_ctx 1 (set_status st ""%string) x with Done (_, x') => x' | Panic => x end.
Definition env (x : Sched) (us : gmap Z UserMem) (w : World) : World :=
  mkW (mkPS (heap (ps w)) (listed (ps w)) (PIPE_NEXT_ID (ps w)) x (triggered (ps w)) us)
      (map_imap (fun cid c => Some (disturb (ps w) x cid c)) (calls w)) (qlock w) (written w) (got w) (raced w).
Definition x5 : World := env (status1 (HardBlocked Stopped) (sched (ps x4))) (<[2 := um_of [7; 8]]> ∅) x4.
Definition x6 : World := mkW (ps x5) (<[2 := wcall]> (calls x5)) (qlock x5) (written x5) (got x5) (raced x5).
Definition x7 : World := finish 2 wcall 2 x6.
Definition x8 : World := env (status1 Blocked (sched (ps x7))) (users (ps x7)) x7.

Lemma x8_steps : rtc step w0 x8.
Proof.
  etransitivity; [exact x4_steps|].
  eapply (rtc_l _ _ x5); [by eapply step_env|].
  eapply (rtc_l _ _ x6); [eapply (step_start x5 Wr 2 1 (mkUserSlice 4096 2) false 0); [vm_compute; reflexivity|vm_compute; intuition congruence|vm_compute; reflexivity]|].
  eapply (rtc_l _ _ x7); [eapply (step_finish x6 2 wcall 0 (Ok 2)); vm_compute; reflexivity|].
  eapply (rtc_l _ _ x8); [by eapply step_env|]. apply rtc_refl.
Qed.
End PipeTrace.

(** [close] of the write end can be missed.  [kread] tests
    [writer_is_alive] before it joins the wait list and [close] takes no lock
    that excludes it: a state is reachable in which a reader sleeps on an empty
    pipe whose writer is closed, and [close] has already notified. *)
Theorem eof_wakeup_lost : exists w cid c p,
  reachable w /\ calls w !! cid = Some c /\ cdir c = Rd /\ stage c = Waiting /\ blocked (ps w) cid /\
  heap (ps w) !! ckey c = Some p /\ queue p = [] /\ writer_is_alive p = false /\ qlock w = ∅.
Proof.
  exists PipeTrace.w5, 1, (PipeTrace.call0 Waiting). eexists. split; [exact PipeTrace.w5_reachable|].
  split; [vm_compute; reflexivity|]. split; [reflexivity|]. split; [reflexivity|].
  split; [eexists; split; vm_compute; reflexivity|]. split; [vm_compute; reflexivity|].
  split; [reflexivity|]. split; [reflexivity|]. vm_compute. reflexivity.
Qed.

(** A wake-up that meets a stop is lost: a state is reachable in which a reader sleeps
    on a pipe that holds bytes, and is on no wait list. *)
Theorem pipe_stop_loses_wakeup : exists w cid c p,
  reachable w /\ calls w !! cid = Some c /\ cdir c = Rd /\ stage c = PutBack /\ blocked (ps w) cid /\
  heap (ps w) !! ckey c = Some p /\ queue p = [7; 8] /\ read_condition p = [] /\ raced w = ∅.
Proof.
  exists PipeTrace.x8, 1, (PipeTrace.call0 PutBack). eexists. split; [exists PipeTrace.w0; split; [done|exact PipeTrace.x8_steps]|].
  split; [vm_compute; reflexivity|]. split; [reflexivity|]. split; [reflexivity|].
  split; [eexists; split; vm_compute; reflexivity|]. split; [vm_compute; reflexivity|]. split_and!; vm_compute; reflexivity.
Qed.
