(* ===== verification/Mprotect.v ===== *)
(** * Two sequences of calls around [mprotect]

    [mprotect] collects the grants it will change before it changes the first,
    and changes the flags of every page that is present without regard to how
    its frame is shared.  Both are visible in short sequences of system calls
    from a fresh address space, which are evaluated here. *)

From S2P Require Import Prelude PageInfo FrameAllocator BuddyInvariant FrameAllocatorSpec FrameRefs OrdMap Rmm Grants GrantsSpec CpuSet AddrSpace AddrSpaceSpec.
Import SimpleFlags AddrSpaceWitnesses.

(** An anonymous mapping of [n] pages at page [p], as [fmap] with
    [MAP_FIXED_NOREPLACE] requests it. *)
Definition map_at (p n : Z) (prot : list MapFlag) : M Kernel (list UnmapResult * result Error Page) :=
  mmap false 1 (Some p) n (MAP_FIXED_NOREPLACE :: prot)
    (fun page pfl => zeroed false (PageSpan_new page n) pfl 1 false).

Definition ro : list MapFlag := [PROT_READ].
Definition rw : list MapFlag := [PROT_READ; PROT_WRITE].

Definition after_map (p n : Z) (prot : list MapFlag) (k : Kernel) : Kernel :=
  match map_at p n prot k with Done (_, k') => k' | Panic => k end.

Definition page_at (p : Z) (k : Kernel) : option (Z * PageFlags) :=
  match spaces k !! 1 with Some a => pt_translate (utable a) (p * PAGE_SIZE) | None => None end.

(** [mprotect] can give a process write access to the frame of zeroes that
    every anonymous mapping shares: an anonymous read-only page is mapped to
    that frame, and [Grant::remap] then makes the mapping writable instead of
    leaving it to the write fault to copy. *)
Theorem mprotect_zeroed_frame_writable : exists k z fl,
  mprotect false 1 (PageSpan_new 4 1) rw (after_map 4 1 ro k0) = Done (Ok tt, k) /\
  the_zeroed_frame (mem k) = Some z /\ page_at 4 k = Some (z, fl) /\ has_write fl = true.
Proof. do 3 eexists. split; [vm_compute; reflexivity|]. split; [reflexivity|]. split; vm_compute; reflexivity. Qed.

(** [mprotect] over two adjacent anonymous mappings panics when the first
    gets the protection of the second: inserting the changed grant merges it
    with its neighbour, and the grant collected next is no longer found. *)
Theorem mprotect_merge_panics :
  mprotect false 1 (PageSpan_new 4 2) rw (after_map 5 1 rw (after_map 4 1 ro k0)) = Panic.
Proof. vm_compute. reflexivity. Qed.
