(* ===== verification/BootMemory.v ===== *)
(** * The memory map at boot (src/startup/memory.rs)

    The regions the boot loader reports are registered in [MEMORY_MAP], whole
    pages inside for free memory and whole pages around for everything else.
    [init] then subtracts the reserved regions from the free ones and merges
    what is left into the list of areas ([AREAS]) from which the frame allocator
    is built.  BootMemorySpec.v proves that the areas are exactly the free pages
    that nothing reserves.

    The mapping of physical memory ([map_memory]) and the bump allocator belong
    to the rmm crate and are not part of this file. *)

From S2P Require Import Prelude PageInfo.
From stdpp Require Import sorting.
#[local] Open Scope Z_scope.

Inductive BootloaderMemoryKind := KNull | KFree | KReclaim | KReserved | KKernel | KDevice | KIdentityMap.
#[export] Instance BootloaderMemoryKind_eq_dec : EqDecision BootloaderMemoryKind.
Proof. solve_decision. Defined.

Record BootloaderMemoryEntry := mkBME { bme_base : Z; bme_size : Z; bme_kind : BootloaderMemoryKind }.
Record MemoryEntry := mkME { me_start : Z; me_end : Z; me_kind : BootloaderMemoryKind }.

Definition me_intersect (self other : MemoryEntry) : option MemoryEntry :=
  let start := Z.max (me_start self) (me_start other) in
  let end_ := Z.min (me_end self) (me_end other) in
  if start <? end_ then Some (mkME start end_ (me_kind self)) else None.

Definition me_combine (self other : MemoryEntry) : option MemoryEntry :=
  if (me_start self <=? me_end other) && (me_start other <=? me_end self)
  then Some (mkME (Z.min (me_start self) (me_start other)) (Z.max (me_end self) (me_end other)) (me_kind self))
  else None.

Definition align_up (x : Z) : Z := saturating_add x (PAGE_SIZE - 1) / PAGE_SIZE * PAGE_SIZE.
Definition align_down (x : Z) : Z := x / PAGE_SIZE * PAGE_SIZE.

(** [MemoryMap]: the first [size] entries of an array of 512. *)
Definition MemoryMap : Type := list MemoryEntry.
Definition MAP_ENTRIES : nat := 512.

Definition register (base size : Z) (kind : BootloaderMemoryKind) : M MemoryMap unit :=
  fun entries =>
    if (MAP_ENTRIES <=? length entries)%nat then Panic
    else
      let start := if bool_decide (kind = KFree) then align_up base else align_down base in
      let end_ := saturating_add base size in
      let end_ := if bool_decide (kind = KFree) then align_down end_ else align_up end_ in
      if start <? end_ then Done (tt, entries ++ [mkME start end_ kind]) else Done (tt, entries).

Definition is_free (e : MemoryEntry) : bool := bool_decide (me_kind e = KFree).
Definition free (m : MemoryMap) : list MemoryEntry := List.filter is_free m.
Definition non_free (m : MemoryMap) : list MemoryEntry := List.filter (fun e => negb (is_free e)) m.
Definition kernel (m : MemoryMap) : option MemoryEntry := List.find (fun e => bool_decide (me_kind e = KKernel)) m.
Definition devices (m : MemoryMap) : list MemoryEntry := List.filter (fun e => bool_decide (me_kind e = KDevice)) m.
Definition identity_mapped (m : MemoryMap) : list MemoryEntry := List.filter (fun e => bool_decide (me_kind e = KIdentityMap)) m.

Definition register_memory_region (base size : Z) (kind : BootloaderMemoryKind) : M MemoryMap unit :=
  if negb (bool_decide (kind = KNull)) && negb (size =? 0) then register base size kind else ret tt.

Definition register_bootloader_areas (areas : list BootloaderMemoryEntry) : M MemoryMap unit :=
  forM areas (fun e => register_memory_region (bme_base e) (bme_size e) (bme_kind e)).

(** The fields of [KernelArgs] that describe memory; [areas] is the array at
    [areas_base]. *)
Record KernelArgs := mkKernelArgs {
  areas : list BootloaderMemoryEntry;
  kernel_base : Z; kernel_size : Z;
  env_base : Z; env_size : Z;
  hwdesc_base : Z; hwdesc_size : Z;
  bootstrap_base : Z; bootstrap_size : Z;
}.

Definition register_memory_from_kernel_args (args : KernelArgs) : M MemoryMap unit :=
  register_bootloader_areas (areas args) ;;;
  register_memory_region (kernel_base args) (kernel_size args) KKernel ;;;
  register_memory_region (env_base args) (env_size args) KIdentityMap ;;;
  register_memory_region (hwdesc_base args) (hwdesc_size args) KIdentityMap ;;;
  register_memory_region (bootstrap_base args) (bootstrap_size args) KIdentityMap.

(** ** The areas *)

(** [rmm::MemoryArea], and the first [area_i] elements of [AREAS]. *)
Record MemoryArea := mkArea { ar_base : Z; ar_size : Z }.
Definition AREAS_LEN : nat := 512.

(** [*area_i -= 1; areas[other_i] = areas[*area_i];] *)
Definition delete_area (other_i : nat) (l : list MemoryArea) : list MemoryArea :=
  let n := (length l - 1)%nat in
  match l !! n with Some a => <[other_i := a]> (take n l) | None => l end.

(** The combining loop; [fuel] is [area_i - other_i], which every iteration
    decreases by one. *)
Fixpoint combine_loop (fuel other_i : nat) (l : list MemoryArea) (area : MemoryEntry) : list MemoryArea * MemoryEntry :=
  match fuel with
  | O => (l, area)
  | S fuel' =>
      match l !! other_i with
      | None => (l, area)
      | Some o =>
          let other := mkME (ar_base o) (saturating_add (ar_base o) (ar_size o)) KFree in
          match me_combine area other with
          | Some union => combine_loop fuel' other_i (delete_area other_i l) union
          | None => combine_loop fuel' (S other_i) l area
          end
      end
  end.

Definition push_area (area : MemoryEntry) : M (list MemoryArea) unit :=
  fun l =>
    let '(l, area) := combine_loop (length l) 0 l area in
    if (length l <? AREAS_LEN)%nat then Done (tt, l ++ [mkArea (me_start area) (me_end area - me_start area)]) else Panic.

(** The loop of [add_memory] over the reservations: [None] if it returns.
    [add_first] is the recursive call on the first part of a split block. *)
Fixpoint reserve_loop (dbg : bool) (add_first : MemoryEntry -> M (list MemoryArea) unit) (reservations : list MemoryEntry)
  (area : MemoryEntry) : M (list MemoryArea) (option MemoryEntry) :=
  match reservations with
  | [] => ret (Some area)
  | reservation :: reservations' =>
      let area := if (me_start reservation <? me_end area) && (me_end area <=? me_end reservation)
                  then mkME (me_start area) (me_start reservation) (me_kind area) else area in
      if me_end area <=? me_start area then ret None
      else
        let area := if (me_start reservation <=? me_start area) && (me_start area <? me_end reservation)
                    then mkME (me_end reservation) (me_end area) (me_kind area) else area in
        if me_end area <=? me_start area then ret None
        else
          let! area :=
            if (me_start area <=? me_start reservation) && (me_start reservation <? me_end area) then
              debug_assert dbg ((me_start area <? me_start reservation) && (me_end reservation <? me_end area)) ;;;
              add_first (mkME (me_start area) (me_start reservation) (me_kind area)) ;;;
              ret (mkME (me_end reservation) (me_end area) (me_kind area))
            else ret area in
          debug_assert dbg (match me_intersect area reservation with None => true | Some _ => false end) ;;;
          debug_assert dbg (me_start area <? me_end area) ;;;
          reserve_loop dbg add_first reservations' area
  end.

(** The depth of the recursion is bounded by [fuel]; running out is a panic. *)
Fixpoint add_memory (dbg : bool) (fuel : nat) (reservations : list MemoryEntry) (area : MemoryEntry)
  : M (list MemoryArea) unit :=
  match fuel with
  | O => panic
  | S fuel' =>
      let! rest := reserve_loop dbg (add_memory dbg fuel' reservations) reservations area in
      match rest with
      | None => ret tt
      | Some area => push_area area
      end
  end.

Definition by_base (a b : MemoryArea) : Prop := ar_base a <= ar_base b.
#[export] Instance by_base_dec a b : Decision (by_base a b).
Proof. unfold by_base. apply _. Defined.

(** [init] up to the point where the list of areas is complete. *)
Definition init_areas (dbg : bool) (args : KernelArgs) (low_limit high_limit : option Z) (m : MemoryMap) : outcome (list MemoryArea) :=
  match register_memory_from_kernel_args args m with
  | Panic => Panic
  | Done (_, m) =>
      let physmem_limit := mkME (align_up (default 0 low_limit)) (align_down (default usize_max high_limit)) KFree in
      let add area := match me_intersect area physmem_limit with
                      | Some area => add_memory dbg (S (length (non_free m))) (non_free m) area
                      | None => ret tt
                      end in
      match forM (free m) add [] with
      | Panic => Panic
      | Done (_, l) => Done (merge_sort by_base l)
      end
  end.
