(* ===== verification/BootMemorySpec.v ===== *)
(** * The areas found at boot are the free memory that nothing reserves *)

From S2P Require Import Prelude PageInfo BootMemory.
From stdpp Require Import sorting.
#[local] Open Scope Z_scope.

(** ** Lists of separate areas *)

Definition in_entry (x : Z) (e : MemoryEntry) : Prop := me_start e <= x < me_end e.
Definition in_area (x : Z) (a : MemoryArea) : Prop := ar_base a <= x < ar_base a + ar_size a.
Definition covers (l : list MemoryArea) (x : Z) : Prop := Exists (in_area x) l.

(** Between two areas there is at least one byte of neither. *)
Definition apart (a b : MemoryArea) : Prop := ar_base a + ar_size a < ar_base b \/ ar_base b + ar_size b < ar_base a.

Definition page_range (lo hi : Z) : Prop := 0 <= lo < hi /\ hi <= usize_max /\ lo mod PAGE_SIZE = 0 /\ hi mod PAGE_SIZE = 0.
Definition entry_ok (e : MemoryEntry) : Prop := page_range (me_start e) (me_end e).
Definition area_ok (a : MemoryArea) : Prop := page_range (ar_base a) (ar_base a + ar_size a).
Definition as_area (e : MemoryEntry) : MemoryArea := mkArea (me_start e) (me_end e - me_start e).

Record Sep (l : list MemoryArea) : Prop := {
  sep_ok : Forall area_ok l;
  sep_apart : ForallOrdPairs apart l
}.

Lemma apart_sym a b : apart a b -> apart b a.
Proof. unfold apart. lia. Qed.

Lemma pairs_perm l l' : l ≡ₚ l' -> ForallOrdPairs apart l -> ForallOrdPairs apart l'.
Proof.
  induction 1 as [|x l l' Hp IH|x y l|l1 l2 l3 _ IH1 _ IH2]; intros H; [done| | |auto].
  - inversion H as [|? ? Hx Hl]; subst. constructor; [|auto]. by rewrite <- Hp.
  - inversion H as [|? ? Hx Hl]; subst. inversion Hl as [|? ? Hy Hl']; subst. inversion Hx as [|? ? Hxy Hx']; subst.
    constructor; [constructor; [by apply apart_sym|done]|by constructor].
Qed.

Lemma Sep_perm l l' : l ≡ₚ l' -> Sep l -> Sep l'.
Proof. intros Hp [H1 H2]. split; [by rewrite <- Hp|by eapply pairs_perm]. Qed.

Lemma covers_perm l l' x : l ≡ₚ l' -> covers l x <-> covers l' x.
Proof. intros Hp. unfold covers. by rewrite Hp. Qed.

Lemma pairs_lookup l i j a b : ForallOrdPairs apart l -> l !! i = Some a -> l !! j = Some b -> i <> j -> apart a b.
Proof.
  intros H. revert i j. induction H as [|x l Hx _ IH]; intros i j Hi Hj Hne; [done|].
  destruct i as [|i], j as [|j]; simpl in *; simplify_eq.
  - by eapply Forall_lookup_1 in Hx.
  - apply apart_sym. by eapply Forall_lookup_1 in Hx.
  - eapply IH; [done|done|congruence].
Qed.

Lemma covers_cons a l x : covers (a :: l) x <-> in_area x a \/ covers l x.
Proof. unfold covers. apply Exists_cons. Qed.
Lemma covers_snoc a l x : covers (l ++ [a]) x <-> covers l x \/ in_area x a.
Proof. unfold covers. rewrite Exists_app, Exists_cons, Exists_nil. tauto. Qed.
Lemma in_as_area x e : in_area x (as_area e) <-> in_entry x e.
Proof. unfold in_area, in_entry, as_area. cbn [ar_base ar_size]. lia. Qed.
Lemma as_area_ok e : entry_ok e -> area_ok (as_area e).
Proof. unfold entry_ok, area_ok, as_area. cbn [ar_base ar_size]. by replace (me_start e + (me_end e - me_start e)) with (me_end e) by lia. Qed.

(** ** Combining *)

Lemma delete_area_perm i l o : l !! i = Some o -> l ≡ₚ o :: delete_area i l.
Proof.
  intros Ho. unfold delete_area. pose proof (lookup_lt_Some _ _ _ Ho) as Hi.
  destruct (lookup_lt_is_Some_2 l (length l - 1)) as [z Hz]; [lia|]. rewrite Hz.
  rewrite <- (take_drop_middle l (length l - 1) z Hz) at 1. rewrite (drop_ge l (S (length l - 1))) by lia.
  set (t := take (length l - 1) l). assert (Ht : length t = (length l - 1)%nat) by (unfold t; rewrite length_take; lia).
  destruct (decide (i = length l - 1)%nat) as [->|Hne].
  - assert (z = o) as -> by congruence. rewrite list_insert_ge by lia. by rewrite Permutation_app_comm.
  - assert (Hto : t !! i = Some o) by (unfold t; rewrite lookup_take_lt; [done|lia]).
    rewrite <- (take_drop_middle t i o Hto) at 1. rewrite insert_take_drop by lia. solve_Permutation.
Qed.

Lemma delete_area_before i j l o : l !! i = Some o -> (j < i)%nat -> delete_area i l !! j = l !! j.
Proof.
  intros Ho Hj. pose proof (lookup_lt_Some _ _ _ Ho). unfold delete_area.
  destruct (l !! (length l - 1)%nat); [|done]. rewrite list_lookup_insert_ne by lia. rewrite lookup_take_lt; [done|lia].
Qed.

Lemma delete_area_length i l o : l !! i = Some o -> S (length (delete_area i l)) = length l.
Proof. intros Ho. by rewrite (Permutation_length (delete_area_perm i l o Ho)). Qed.

Lemma combine_loop_ok fuel : forall i l area l' area', combine_loop fuel i l area = (l', area') ->
  fuel = (length l - i)%nat -> (i <= length l)%nat -> Sep l -> entry_ok area ->
  (forall j a, (j < i)%nat -> l !! j = Some a -> apart a (as_area area)) ->
  entry_ok area' /\ Sep (as_area area' :: l') /\ (length l' <= length l)%nat /\
  (forall x, covers (as_area area' :: l') x <-> covers (as_area area :: l) x).
Proof.
  induction fuel as [|fuel IH]; intros i l area l' area' Hrun Hf Hi HS Ha Hb; cbn [combine_loop] in Hrun.
  { injection Hrun as <- <-. split; [done|]. split; [|done]. split; [constructor; [by apply as_area_ok|apply HS]|].
    constructor; [|apply HS]. apply Forall_lookup_2. intros j a Hj. apply apart_sym, (Hb j a); [|done].
    apply lookup_lt_Some in Hj. lia. }
  destruct (lookup_lt_is_Some_2 l i) as [o Ho]; [lia|]. rewrite Ho in Hrun.
  pose proof (Forall_lookup_1 _ _ _ _ (sep_ok _ HS) Ho) as (O1 & O2 & O3 & O4). destruct Ha as (A1 & A2 & A3 & A4).
  assert (Hend : saturating_add (ar_base o) (ar_size o) = ar_base o + ar_size o) by (unfold saturating_add; lia).
  rewrite Hend in Hrun. unfold me_combine in Hrun. cbn [me_start me_end] in Hrun.
  destruct (Z.leb_spec (me_start area) (ar_base o + ar_size o)) as [T1|T1], (Z.leb_spec (ar_base o) (me_end area)) as [T2|T2]; cbn [andb] in Hrun.
  2-4: destruct (IH _ _ _ _ _ Hrun) as (R1 & R2 & R3 & R4); [lia|lia|done|done| |done]; intros j a Hj Hja;
    (destruct (decide (j = i)) as [->|]; [|apply (Hb j a); [lia|done]]); assert (a = o) as -> by congruence;
    unfold apart, as_area; cbn [ar_base ar_size]; lia.
  set (u := mkME _ _ _) in Hrun. pose proof (delete_area_perm i l o Ho) as Hp.
  assert (Hu : entry_ok u).
  { unfold entry_ok, page_range, u. cbn [me_start me_end]. split; [lia|]. split; [lia|].
    split; [destruct (Z.min_spec (me_start area) (ar_base o)) as [[_ ->]|[_ ->]]|destruct (Z.max_spec (me_end area) (ar_base o + ar_size o)) as [[_ ->]|[_ ->]]]; done. }
  pose proof (delete_area_length i l o Ho) as Hlen.
  assert (HSo : Sep (o :: delete_area i l)) by (by eapply Sep_perm).
  destruct (IH _ _ _ _ _ Hrun) as (R1 & R2 & R3 & R4); [lia|lia| |done| |].
  - destruct HSo as [S1 S2]. inversion S1; inversion S2; subst. by split.
  - intros j a Hj Hja. rewrite (delete_area_before i j l o Ho Hj) in Hja.
    pose proof (Hb j a Hj Hja) as B1. pose proof (pairs_lookup _ _ _ _ _ (sep_apart _ HS) Hja Ho ltac:(lia)) as B2.
    pose proof (Forall_lookup_1 _ _ _ _ (sep_ok _ HS) Hja) as (? & _). unfold apart, as_area, u in *. cbn [ar_base ar_size me_start me_end] in *. lia.
  - split; [done|]. split; [done|]. split; [lia|]. intros x. rewrite R4, !covers_cons. rewrite (covers_perm _ _ x Hp), covers_cons, !in_as_area.
    assert (Hin : in_entry x u <-> in_entry x area \/ in_area x o) by (unfold in_entry, in_area, u; cbn [me_start me_end]; lia). tauto.
Qed.

Lemma push_area_ok area l : Sep l -> entry_ok area -> (length l < AREAS_LEN)%nat ->
  exists l', push_area area l = Done (tt, l') /\ Sep l' /\ (length l' <= S (length l))%nat /\
    forall x, covers l' x <-> covers l x \/ in_entry x area.
Proof.
  intros HS Ha Hlen. unfold push_area. destruct (combine_loop (length l) 0 l area) as [l1 a1] eqn:Hrun.
  destruct (combine_loop_ok _ _ _ _ _ _ Hrun) as (R1 & R2 & R3 & R4); [lia|lia|done|done|intros; lia|].
  destruct (Nat.ltb_spec (length l1) AREAS_LEN); [|lia]. eexists. split; [reflexivity|].
  fold (as_area a1). split; [eapply Sep_perm; [|exact R2]; by rewrite Permutation_app_comm|].
  split; [rewrite length_app; simpl; lia|]. intros x. specialize (R4 x). rewrite !covers_cons, !in_as_area in R4.
  rewrite covers_snoc, in_as_area. tauto.
Qed.

(** ** Subtracting the reservations *)

Section count.
Context {A : Type}.
Definition count (P : A -> bool) (l : list A) : nat := length (List.filter P l).

Lemma count_mono P Q l : (forall x, P x = true -> Q x = true) -> (count P l <= count Q l)%nat.
Proof.
  intros H. unfold count. induction l as [|x l IH]; simpl; [lia|].
  specialize (H x). destruct (P x), (Q x); simpl; try lia; by specialize (H eq_refl).
Qed.

(** Two disjoint parts of [R] that both miss an element of it. *)
Lemma count_split P Q R l r : (forall x, x ∈ l -> P x = true -> R x = true /\ Q x = false) ->
  (forall x, x ∈ l -> Q x = true -> R x = true) -> r ∈ l -> R r = true -> P r = false -> Q r = false ->
  (count P l + count Q l + 1 <= count R l)%nat.
Proof.
  unfold count. intros HP HQ Hr HR HPr HQr.
  assert (Hle : forall l', (forall x, x ∈ l' -> x ∈ l) ->
            (length (List.filter P l') + length (List.filter Q l') <= length (List.filter R l'))%nat).
  { induction l' as [|x l' IH]; intros Hs; simpl; [lia|].
    specialize (IH (fun y Hy => Hs y (list_elem_of_further _ _ _ Hy))).
    specialize (HP x (Hs x (list_elem_of_here _ _))). specialize (HQ x (Hs x (list_elem_of_here _ _))).
    destruct (P x), (Q x), (R x); simpl; try lia; naive_solver. }
  apply list_elem_of_split in Hr as (l1 & l2 & ->). rewrite !List.filter_app. simpl. rewrite HR, HPr, HQr. rewrite !length_app. simpl.
  pose proof (Hle l1 ltac:(set_solver)). pose proof (Hle l2 ltac:(set_solver)). lia.
Qed.
End count.

(** Decide the comparisons of a goal. *)
Ltac ztest :=
  match goal with
  | |- context [?a <? ?b] => is_var a; is_var b; destruct (Z.ltb_spec a b); try (exfalso; lia)
  | |- context [?a <=? ?b] => is_var a; is_var b; destruct (Z.leb_spec a b); try (exfalso; lia)
  end.

Section reservations.
Context (dbg : bool) (rs : list MemoryEntry) (rs_ok : Forall entry_ok rs).

(** The reservations that would split a block. *)
Definition inside (area r : MemoryEntry) : bool := (me_start area <? me_start r) && (me_end r <? me_end area).
Definition splits (area : MemoryEntry) : nat := count (inside area) rs.
Definition unreserved (x : Z) : Prop := forall r, r ∈ rs -> ~ in_entry x r.
Definition disjoint_entry (a b : MemoryEntry) : Prop := me_end a <= me_start b \/ me_end b <= me_start a.

Definition shrunk (a b : MemoryEntry) : Prop := me_start b <= me_start a /\ me_end a <= me_end b.

Lemma splits_shrunk a b : shrunk a b -> (splits a <= splits b)%nat.
Proof. intros [H1 H2]. apply count_mono. intros r. unfold inside. rewrite !andb_true_iff, !Z.ltb_lt. lia. Qed.

(** What adding a block must do. *)
Definition adds (n : nat) (add : MemoryEntry -> M (list MemoryArea) unit) : Prop := forall area l,
  entry_ok area -> (splits area < n)%nat -> Sep l -> (length l + 1 + splits area <= AREAS_LEN)%nat ->
  exists l', add area l = Done (tt, l') /\ Sep l' /\ (length l' <= length l + 1 + splits area)%nat /\
    forall x, covers l' x <-> covers l x \/ (in_entry x area /\ unreserved x).

Definition rest_ok (r : option MemoryEntry) : Prop :=
  match r with None => True | Some a => entry_ok a /\ forall r', r' ∈ rs -> disjoint_entry a r' end.
Definition in_rest (x : Z) (r : option MemoryEntry) : Prop := match r with None => False | Some a => in_entry x a end.

Definition loop_post (area : MemoryEntry) (l : list MemoryArea) (r : option MemoryEntry) (l' : list MemoryArea) : Prop :=
  Sep l' /\ (length l' <= length l + splits area)%nat /\ rest_ok r /\
  forall x, (covers l' x \/ in_rest x r) <-> (covers l x \/ (in_entry x area /\ unreserved x)).

(** Cutting off what a reservation takes does not change what is to be added. *)
Lemma loop_post_shrunk a b l r l' : shrunk a b -> (forall x, in_entry x b -> unreserved x -> in_entry x a) ->
  loop_post a l r l' -> loop_post b l r l'.
Proof.
  intros Hs Hx (P1 & P2 & P3 & P4). pose proof (splits_shrunk a b Hs) as Hc. split; [done|]. split; [lia|]. split; [done|].
  intros x. rewrite P4. specialize (Hx x). destruct Hs. unfold in_entry in *. split; (intros [?|[? ?]]; [by left|right]); [split; [lia|done]|auto].
Qed.

(** Nothing is left of a block. *)
Lemma loop_post_none area l : Sep l -> (forall x, in_entry x area -> ~ unreserved x) -> loop_post area l None l.
Proof. intros HS Hx. split; [done|]. split; [lia|]. split; [done|]. intros x. specialize (Hx x). simpl. tauto. Qed.

Lemma split_count s e k r : entry_ok r -> r ∈ rs -> s < me_start r -> me_end r < e ->
  (splits (mkME s (me_start r) k) + splits (mkME (me_end r) e k) + 1 <= splits (mkME s e k))%nat.
Proof.
  intros (R1 & _) Hr Hs He. apply (count_split _ _ _ rs r); [| |done|..].
  - intros x Hx. pose proof (proj1 (Forall_forall _ _) rs_ok x Hx) as (X1 & _). unfold inside. cbn [me_start me_end].
    rewrite !andb_true_iff, andb_false_iff, !Z.ltb_lt, !Z.ltb_ge. lia.
  - intros x Hx. unfold inside. cbn [me_start me_end]. rewrite !andb_true_iff, !Z.ltb_lt. lia.
  - unfold inside. cbn [me_start me_end]. rewrite andb_true_iff, !Z.ltb_lt. lia.
  - unfold inside. cbn [me_start me_end]. rewrite andb_false_iff, !Z.ltb_ge. lia.
  - unfold inside. cbn [me_start me_end]. rewrite andb_false_iff, !Z.ltb_ge. lia.
Qed.

Lemma unreserved_not r x : r ∈ rs -> in_entry x r -> ~ unreserved x.
Proof. intros Hr Hx Hu. by apply (Hu r). Qed.

(** The end of an iteration, when the block no longer meets the reservation. *)
Lemma loop_next {S} a r (k : M S (option MemoryEntry)) s : entry_ok a -> disjoint_entry a r ->
  (debug_assert dbg (match me_intersect a r with None => true | Some _ => false end) ;;;
   debug_assert dbg (me_start a <? me_end a) ;;; k) s = k s.
Proof.
  intros (A1 & _) Hd. unfold me_intersect, disjoint_entry in *.
  destruct (Z.ltb_spec (Z.max (me_start a) (me_start r)) (Z.min (me_end a) (me_end r))); [lia|].
  destruct (Z.ltb_spec (me_start a) (me_end a)); [|lia]. by destruct dbg.
Qed.

Lemma shrunk_disjoint a b r : shrunk a b -> disjoint_entry b r -> disjoint_entry a r.
Proof. unfold shrunk, disjoint_entry. lia. Qed.

Lemma entry_ok_intro s e k : 0 <= s < e -> e <= usize_max -> s mod PAGE_SIZE = 0 -> e mod PAGE_SIZE = 0 -> entry_ok (mkME s e k).
Proof. done. Qed.

Lemma loop_ok add n : adds n add -> forall todo pre area l, rs = pre ++ todo -> entry_ok area ->
  (forall r, r ∈ pre -> disjoint_entry area r) -> (splits area <= n)%nat -> Sep l ->
  (length l + 1 + splits area <= AREAS_LEN)%nat ->
  exists r l', reserve_loop dbg add todo area l = Done (r, l') /\ loop_post area l r l'.
Proof.
  intros Hadd. induction todo as [|r todo IH]; intros pre area l Hrs Ha Hpre Hn HS Hlen.
  { exists (Some area), l. split; [done|]. rewrite app_nil_r in Hrs. subst pre. split; [done|]. split; [lia|]. split; [done|].
    intros x. simpl. split; [intros [?|Hx]; [by left|]|tauto]. right. split; [done|]. intros r Hr Hx'. specialize (Hpre r Hr).
    unfold disjoint_entry, in_entry in *. lia. }
  assert (Hr : r ∈ rs) by (rewrite Hrs; set_solver). pose proof (proj1 (Forall_forall _ _) rs_ok r Hr) as Hrok.
  assert (Hnext : forall a l0, shrunk a area -> entry_ok a -> disjoint_entry a r -> Sep l0 -> (length l0 + 1 + splits a <= AREAS_LEN)%nat ->
    exists o l', reserve_loop dbg add todo a l0 = Done (o, l') /\ loop_post a l0 o l').
  { intros a l0 Hs Hao Hd HS0 Hl0. pose proof (splits_shrunk _ _ Hs). apply (IH (pre ++ [r])); [by rewrite <- app_assoc|done| |lia|done|done].
    intros r' [Hr'|Hr'%list_elem_of_singleton]%elem_of_app; [|by subst]. eapply shrunk_disjoint; [exact Hs|auto]. }
  destruct area as [s e k]. destruct r as [rs_ re rk]. pose proof Ha as (A1 & A2 & A3 & A4). pose proof Hrok as (R1 & R2 & R3 & R4).
  cbn [me_start me_end] in *. cbn [reserve_loop me_start me_end me_kind].
  assert (Hcont : forall a, shrunk a (mkME s e k) -> entry_ok a -> disjoint_entry a (mkME rs_ re rk) ->
    (forall x, in_entry x (mkME s e k) -> unreserved x -> in_entry x a) ->
    exists o l', reserve_loop dbg add todo a l = Done (o, l') /\ loop_post (mkME s e k) l o l').
  { intros a Hs Hao Hd Hx. pose proof (splits_shrunk _ _ Hs). destruct (Hnext a l Hs Hao Hd HS ltac:(lia)) as (o & l' & Hrun & Hpost).
    exists o, l'. split; [done|]. by eapply loop_post_shrunk. }
  assert (Hres : forall x, rs_ <= x < re -> ~ unreserved x) by (intros x Hx; by apply (unreserved_not (mkME rs_ re rk))).
  assert (Hk : forall s' e', s <= s' < e' /\ e' <= e -> s' mod PAGE_SIZE = 0 -> e' mod PAGE_SIZE = 0 -> e' <= rs_ \/ re <= s' ->
    shrunk (mkME s' e' k) (mkME s e k) /\ entry_ok (mkME s' e' k) /\ disjoint_entry (mkME s' e' k) (mkME rs_ re rk)).
  { intros s' e' [? ?] ? ? ?. split; [split; cbn; lia|]. split; [apply entry_ok_intro; done || lia|done]. }
  assert (Hcase : (rs_ <= s /\ e <= re) \/ (s < rs_ < e /\ e <= re) \/ (rs_ <= s < re /\ re < e) \/ (s < rs_ /\ re < e) \/ (e <= rs_ \/ re <= s)) by lia.
  destruct Hcase as [C|[C|[C|[C|[C|C]]]]]; repeat (ztest; cbn [andb me_start me_end me_kind]).
  - exists None, l. split; [done|]. apply loop_post_none; [done|]. intros x Hx. apply Hres. unfold in_entry in Hx. cbn [me_start me_end] in Hx. lia.
  - destruct (Hk s rs_) as (K1 & K2 & K3); [lia|done|done|lia|]. rewrite bind_ret, loop_next by done. apply Hcont; try done.
    intros x Hx Hu. unfold in_entry in *. cbn [me_start me_end] in *. destruct (decide (x < rs_)); [lia|]. by destruct (Hres x ltac:(lia)).
  - destruct (Hk re e) as (K1 & K2 & K3); [lia|done|done|lia|]. rewrite bind_ret, loop_next by done. apply Hcont; try done.
    intros x Hx Hu. unfold in_entry in *. cbn [me_start me_end] in *. destruct (decide (re <= x)); [lia|]. by destruct (Hres x ltac:(lia)).
  - destruct (Hk s rs_) as (K1 & K2 & K3); [lia|done|done|lia|]. destruct (Hk re e) as (J1 & J2 & J3); [lia|done|done|lia|].
    pose proof (split_count s e k _ Hrok Hr ltac:(cbn; lia) ltac:(cbn; lia)) as Hsc. cbn [me_start me_end] in Hsc.
    destruct (Hadd (mkME s rs_ k) l K2 ltac:(lia) HS ltac:(lia)) as (l1 & Hl1 & HS1 & Hlen1 & Hcov1).
    destruct (Hnext (mkME re e k) l1 J1 J2 J3 HS1 ltac:(lia)) as (o & l' & Hrun & (P1 & P2 & P3 & P4)).
    exists o, l'. split.
    { rewrite bind_assoc, (bind_Done _ _ _ _ _ (debug_assert_true dbg true l eq_refl)), bind_assoc, (bind_Done _ _ _ _ _ Hl1), bind_ret, loop_next by done. exact Hrun. }
    split; [done|]. split; [lia|]. split; [done|]. intros x. rewrite P4, Hcov1. unfold in_entry in *. cbn [me_start me_end] in *.
    specialize (Hres x). destruct (decide (rs_ <= x < re)) as [Hd|Hd]; [tauto|].
    assert (s <= x < e <-> s <= x < rs_ \/ re <= x < e) as -> by lia. tauto.
  - destruct (Hk s e) as (K1 & K2 & K3); [lia|done|done|lia|]. rewrite bind_ret, loop_next by done. apply Hcont; done.
  - destruct (Hk s e) as (K1 & K2 & K3); [lia|done|done|lia|]. rewrite bind_ret, loop_next by done. apply Hcont; done.
Qed.

(** Adding a block adds what no reservation takes; the recursion is not deeper
    than the number of reservations inside the block. *)
Lemma add_memory_ok n : adds n (add_memory dbg n rs).
Proof.
  induction n as [|n IH]; intros area l Ha Hn HS Hlen; [lia|]. cbn [add_memory].
  destruct (loop_ok _ n IH rs [] area l eq_refl Ha) as (r & l1 & Hrun & (P1 & P2 & P3 & P4)); [set_solver|lia|done|done|].
  rewrite (bind_Done _ _ _ _ _ Hrun). destruct r as [a|].
  - destruct P3 as [Hao Hd]. destruct (push_area_ok a l1 P1 Hao ltac:(lia)) as (l2 & Hp & HS2 & Hl2 & Hc2).
    exists l2. split; [done|]. split; [done|]. split; [lia|]. intros x. rewrite Hc2. apply P4.
  - exists l1. split; [done|]. split; [done|]. split; [lia|]. intros x. rewrite <- P4. simpl. tauto.
Qed.

Lemma splits_le area : (splits area <= length rs)%nat.
Proof. unfold splits, count. apply List.filter_length_le. Qed.

(** Adding the free regions one after the other. *)
Lemma add_all_ok limit fs : Forall entry_ok fs -> (forall f e, f ∈ fs -> me_intersect f limit = Some e -> entry_ok e) ->
  forall l, Sep l -> (length l + length fs * (length rs + 1) <= AREAS_LEN)%nat ->
  exists l', forM fs (fun a => match me_intersect a limit with
                               | Some a => add_memory dbg (S (length rs)) rs a | None => ret tt end) l = Done (tt, l') /\
    Sep l' /\ forall x, covers l' x <-> covers l x \/ (Exists (in_entry x) fs /\ in_entry x limit /\ unreserved x).
Proof.
  induction fs as [|f fs IH]; intros Hfs Hcut l HS Hlen.
  - exists l. split; [done|]. split; [done|]. intros x. rewrite Exists_nil. tauto.
  - inversion Hfs as [|? ? Hf Hfs']; subst. cbn [forM length] in *.
    assert (Hstep : exists l1, (match me_intersect f limit with Some a => add_memory dbg (S (length rs)) rs a | None => ret tt end) l = Done (tt, l1) /\
      Sep l1 /\ (length l1 <= length l + 1 + length rs)%nat /\
      forall x, covers l1 x <-> covers l x \/ (in_entry x f /\ in_entry x limit /\ unreserved x)).
    { assert (Hin : forall x, in_entry x f /\ in_entry x limit <-> match me_intersect f limit with Some e => in_entry x e | None => False end).
      { intros x. unfold me_intersect, in_entry. destruct (Z.ltb_spec (Z.max (me_start f) (me_start limit)) (Z.min (me_end f) (me_end limit))); cbn [me_start me_end]; lia. }
      destruct (me_intersect f limit) as [e|] eqn:He.
      - pose proof (splits_le e). destruct (add_memory_ok (S (length rs)) e l) as (l1 & H1 & H2 & H3 & H4);
          [by eapply Hcut; [apply list_elem_of_here|]|lia|done|lia|].
        exists l1. split; [done|]. split; [done|]. split; [lia|]. intros x. rewrite H4. specialize (Hin x). tauto.
      - exists l. split; [done|]. split; [done|]. split; [lia|]. intros x. specialize (Hin x). tauto. }
    destruct Hstep as (l1 & H1 & HS1 & Hl1 & Hc1). rewrite (bind_Done _ _ _ _ _ H1).
    destruct (IH Hfs' (fun g e Hg => Hcut g e (list_elem_of_further _ _ _ Hg)) l1 HS1 ltac:(lia)) as (l' & H' & HS' & Hc').
    exists l'. split; [done|]. split; [done|]. intros x. rewrite Hc', Hc1, Exists_cons. tauto.
Qed.
End reservations.

(** ** Registering *)

Definition requests (args : KernelArgs) : list BootloaderMemoryEntry :=
  areas args ++ [mkBME (kernel_base args) (kernel_size args) KKernel; mkBME (env_base args) (env_size args) KIdentityMap;
                 mkBME (hwdesc_base args) (hwdesc_size args) KIdentityMap; mkBME (bootstrap_base args) (bootstrap_size args) KIdentityMap].

(** The entry made for a request. *)
Definition entry_of (q : BootloaderMemoryEntry) : option MemoryEntry :=
  if negb (bool_decide (bme_kind q = KNull)) && negb (bme_size q =? 0) then
    let e := saturating_add (bme_base q) (bme_size q) in
    let '(s, e) := if bool_decide (bme_kind q = KFree) then (align_up (bme_base q), align_down e)
                   else (align_down (bme_base q), align_up e) in
    if s <? e then Some (mkME s e (bme_kind q)) else None
  else None.

Definition register_request (q : BootloaderMemoryEntry) : M MemoryMap unit :=
  register_memory_region (bme_base q) (bme_size q) (bme_kind q).

Lemma register_all_ok qs : forall m, (length m + length qs <= MAP_ENTRIES)%nat ->
  forM qs register_request m = Done (tt, m ++ omap entry_of qs).
Proof.
  induction qs as [|q qs IH]; intros m Hm; [by rewrite app_nil_r|]. cbn [forM length] in *.
  assert (H : register_request q m = Done (tt, m ++ option_list (entry_of q))).
  { unfold register_request, register_memory_region, entry_of. destruct (negb _ && negb _); [|by rewrite app_nil_r].
    unfold register. destruct (Nat.leb_spec MAP_ENTRIES (length m)); [lia|].
    case_bool_decide; case_match; simpl; by rewrite ?app_nil_r. }
  rewrite (bind_Done _ _ _ _ _ H). cbn [omap list_omap]. rewrite IH.
  - rewrite <- app_assoc. do 3 f_equal. by destruct (entry_of q).
  - rewrite length_app. destruct (entry_of q); simpl; lia.
Qed.

Lemma forM_app_run {S A} (f : A -> M S unit) l1 l2 s : forM (l1 ++ l2) f s = (forM l1 f ;;; forM l2 f) s.
Proof.
  revert s. induction l1 as [|x l1 IH]; intros s; [done|]. cbn [forM app]. unfold bind in *.
  destruct (f x s) as [[[] s']|]; [apply IH|done].
Qed.

Lemma register_args_run args m : register_memory_from_kernel_args args m = forM (requests args) register_request m.
Proof.
  unfold requests. rewrite forM_app_run. unfold register_memory_from_kernel_args, register_bootloader_areas. unfold bind.
  change (forM (areas args) (fun e => register_memory_region (bme_base e) (bme_size e) (bme_kind e)) m) with (forM (areas args) register_request m).
  destruct (forM (areas args) register_request m) as [[[] m1]|]; [|done]. cbn [forM]. unfold bind, register_request. cbn [bme_base bme_size bme_kind].
  do 4 (match goal with |- context [register_memory_region ?b ?s ?k ?m] => destruct (register_memory_region b s k m) as [[[] ?]|]; [|done] end).
  done.
Qed.

Definition request_ok (q : BootloaderMemoryEntry) : Prop := 0 <= bme_base q <= usize_max /\ 0 <= bme_size q <= usize_max.

(** The last page of the address space is never used. *)
Definition LAST_PAGE : Z := 2 ^ 64 - PAGE_SIZE.
Definition page_start (x : Z) : Z := x / PAGE_SIZE * PAGE_SIZE.

(** The page of [x] lies in the region; the page meets the region. *)
Definition holds_page (q : BootloaderMemoryEntry) (x : Z) : Prop :=
  bme_base q <= page_start x /\ page_start x + PAGE_SIZE <= bme_base q + bme_size q.
Definition meets_page (q : BootloaderMemoryEntry) (x : Z) : Prop :=
  0 < bme_size q /\ bme_base q < page_start x + PAGE_SIZE /\ page_start x < bme_base q + bme_size q.

Ltac pages := unfold align_up, align_down, saturating_add, page_start, LAST_PAGE, PAGE_SIZE, usize_max in *; Z.div_mod_to_equations; lia.

Lemma align_down_range x : 0 <= x <= usize_max -> 0 <= align_down x <= x /\ align_down x mod PAGE_SIZE = 0.
Proof. intros H. split; [pages|]. unfold align_down. apply Z.mod_mul. done. Qed.
Lemma align_up_range x : 0 <= x <= usize_max -> 0 <= align_up x <= LAST_PAGE /\ align_up x mod PAGE_SIZE = 0.
Proof. intros H. split; [pages|]. unfold align_up. apply Z.mod_mul. done. Qed.
Lemma saturating_range x y : 0 <= x -> 0 <= y -> 0 <= saturating_add x y <= usize_max.
Proof. unfold saturating_add, usize_max. lia. Qed.

Lemma entry_of_ok q e : request_ok q -> entry_of q = Some e -> entry_ok e /\ me_kind e = bme_kind q.
Proof.
  intros [H1 H2]. unfold entry_of. destruct (negb _ && negb _); [|done].
  pose proof (saturating_range (bme_base q) (bme_size q) ltac:(lia) ltac:(lia)) as Hs.
  pose proof (align_down_range _ Hs). pose proof (align_up_range _ Hs). pose proof (align_down_range _ H1). pose proof (align_up_range _ H1).
  assert (LAST_PAGE <= usize_max) by (unfold LAST_PAGE, usize_max, PAGE_SIZE; lia).
  case_bool_decide; case_match eqn:Hlt; try done; apply Z.ltb_lt in Hlt; intros [= <-]; (split; [|done]); unfold entry_ok, page_range; cbn [me_start me_end].
  all: split; [lia|]; split; [lia|]; split; tauto.
Qed.

Lemma entry_of_free q x : request_ok q -> bme_kind q = KFree -> 0 <= x ->
  (exists e, entry_of q = Some e /\ in_entry x e) <-> x < LAST_PAGE /\ holds_page q x.
Proof.
  intros [H1 H2] Hk Hx. unfold entry_of, holds_page. rewrite Hk. rewrite bool_decide_eq_false_2, bool_decide_eq_true_2 by done. cbn [negb andb].
  destruct (Z.eqb_spec (bme_size q) 0) as [Hz|Hz]; cbn [negb].
  { split; [by intros (e & ? & _)|]. rewrite Hz. unfold PAGE_SIZE. lia. }
  destruct (Z.ltb_spec (align_up (bme_base q)) (align_down (saturating_add (bme_base q) (bme_size q)))) as [Hlt|Hlt].
  - split; [intros (e & [= <-] & Hin); unfold in_entry in Hin; cbn [me_start me_end] in Hin; pages|].
    intros Hp. eexists. split; [done|]. unfold in_entry. cbn [me_start me_end]. pages.
  - split; [by intros (e & ? & _)|]. pages.
Qed.

Lemma entry_of_reserved q x : request_ok q -> bme_kind q <> KFree -> bme_kind q <> KNull -> 0 <= x < LAST_PAGE ->
  (exists e, entry_of q = Some e /\ in_entry x e) <-> meets_page q x.
Proof.
  intros [H1 H2] Hf Hn Hx. unfold entry_of, meets_page. rewrite !bool_decide_eq_false_2 by done. cbn [negb andb].
  destruct (Z.eqb_spec (bme_size q) 0) as [Hz|Hz]; cbn [negb].
  { split; [by intros (e & ? & _)|]. rewrite Hz. lia. }
  destruct (Z.ltb_spec (align_down (bme_base q)) (align_up (saturating_add (bme_base q) (bme_size q)))) as [Hlt|Hlt].
  - split; [intros (e & [= <-] & Hin); unfold in_entry in Hin; cbn [me_start me_end] in Hin; pages|].
    intros Hp. eexists. split; [done|]. unfold in_entry. cbn [me_start me_end]. pages.
  - split; [by intros (e & ? & _)|]. pages.
Qed.

(** ** The result *)

Definition gap (a b : MemoryArea) : Prop := ar_base a + ar_size a < ar_base b.

Lemma sorted_gap l : StronglySorted by_base l -> Sep l -> StronglySorted gap l.
Proof.
  induction 1 as [|a l Hl IH Ha]; intros [S1 S2]; [constructor|]. inversion S1 as [|? ? O1 O2]; inversion S2 as [|? ? P1 P2]; subst.
  constructor; [by apply IH|]. rewrite Forall_forall in *. intros b Hb. specialize (Ha b Hb). specialize (P1 b Hb). specialize (O2 b Hb).
  destruct O2 as (? & _). unfold apart, by_base, gap in *. lia.
Qed.

#[local] Instance by_base_total : Total by_base.
Proof. intros a b. unfold by_base. lia. Qed.
#[local] Instance by_base_trans : Transitive by_base.
Proof. intros a b c. unfold by_base. lia. Qed.

Definition n_free (qs : list BootloaderMemoryEntry) : nat := length (List.filter (fun q => bool_decide (bme_kind q = KFree)) qs).
Definition n_reserved (qs : list BootloaderMemoryEntry) : nat := length (List.filter (fun q => negb (bool_decide (bme_kind q = KFree))) qs).

Lemma filter_omap_le (P : MemoryEntry -> bool) (Q : BootloaderMemoryEntry -> bool) qs :
  (forall q e, q ∈ qs -> entry_of q = Some e -> P e = Q q) -> (length (List.filter P (omap entry_of qs)) <= length (List.filter Q qs))%nat.
Proof.
  induction qs as [|q qs IH]; intros H; [done|]. cbn [omap list_omap List.filter].
  specialize (IH (fun q' e Hq => H q' e (list_elem_of_further _ _ _ Hq))).
  pose proof (fun e => H q e (list_elem_of_here _ _)) as Hq. destruct (entry_of q) as [e|]; [|destruct (Q q); simpl; lia].
  cbn [List.filter]. rewrite (Hq e eq_refl). destruct (Q q); simpl; lia.
Qed.

Lemma elem_of_lfilter {A} (P : A -> bool) l x : x ∈ List.filter P l <-> x ∈ l /\ P x = true.
Proof. rewrite !list_elem_of_In. apply List.filter_In. Qed.

Lemma intersect_ok f s e k : entry_ok f -> s mod PAGE_SIZE = 0 -> e mod PAGE_SIZE = 0 -> forall c, me_intersect f (mkME s e k) = Some c -> entry_ok c.
Proof.
  intros (F1 & F2 & F3 & F4) Hs He c. unfold me_intersect. cbn [me_start me_end]. case_match eqn:Hlt; [|done]. apply Z.ltb_lt in Hlt. intros [= <-].
  apply entry_ok_intro; [lia|lia|destruct (Z.max_spec (me_start f) s) as [[_ ->]|[_ ->]]; done|destruct (Z.min_spec (me_end f) e) as [[_ ->]|[_ ->]]; done].
Qed.

(** What [init] does once the map is complete. *)
Lemma areas_of_map dbg m s e : Forall entry_ok m -> s mod PAGE_SIZE = 0 -> e mod PAGE_SIZE = 0 ->
  (length (free m) * (length (non_free m) + 1) <= AREAS_LEN)%nat ->
  exists l, forM (free m) (fun a => match me_intersect a (mkME s e KFree) with
      | Some a => add_memory dbg (S (length (non_free m))) (non_free m) a | None => ret tt end) [] = Done (tt, l) /\ Sep l /\
    forall x, covers l x <-> Exists (in_entry x) (free m) /\ s <= x < e /\ unreserved (non_free m) x.
Proof.
  intros Hm Hs He Hn. assert (Hsub : forall P, Forall entry_ok (List.filter P m)).
  { intros P. apply Forall_forall. intros y [Hy _]%elem_of_lfilter. by apply (proj1 (Forall_forall _ _) Hm). }
  destruct (add_all_ok dbg (non_free m) (Hsub _) (mkME s e KFree) (free m) (Hsub _)) with (l := @nil MemoryArea) as (l & H1 & H2 & H3).
  - intros f c Hf. eapply intersect_ok; [|done|done]. by apply (proj1 (Forall_forall _ _) (Hsub is_free)).
  - split; constructor.
  - simpl. lia.
  - exists l. split; [exact H1|]. split; [done|]. intros x. rewrite H3. unfold covers. rewrite Exists_nil. unfold in_entry at 2. cbn [me_start me_end]. tauto.
Qed.

(** C40: the memory handed to the frame allocator at boot.  For a boot loader
    that reports at most 512 regions whose free and reserved parts can make at
    most 512 areas, [init] finds the areas without panicking.  They are whole
    pages, in increasing order, with a gap between any two, and they contain
    exactly the pages within the limits that lie wholly in one region reported
    free and meet no region reported otherwise: not the kernel, the
    environment, the hardware description or the initial file system. *)
Theorem boot_areas_exact dbg args lo hi : Forall request_ok (requests args) ->
  (length (requests args) <= MAP_ENTRIES)%nat ->
  (n_free (requests args) * (n_reserved (requests args) + 1) <= AREAS_LEN)%nat ->
  0 <= default 0 lo <= usize_max -> 0 <= default usize_max hi <= usize_max ->
  exists l, init_areas dbg args lo hi [] = Done l /\ StronglySorted gap l /\ Forall area_ok l /\
    forall x, 0 <= x -> (covers l x <->
      x < LAST_PAGE /\ align_up (default 0 lo) <= x < align_down (default usize_max hi) /\
      (exists q, q ∈ requests args /\ bme_kind q = KFree /\ holds_page q x) /\
      (forall q, q ∈ requests args -> bme_kind q <> KFree -> bme_kind q <> KNull -> ~ meets_page q x)).
Proof.
  intros Hq Hlen Hn Hlo Hhi. unfold init_areas. rewrite register_args_run, register_all_ok by done. cbn [app].
  set (qs := requests args) in *. set (m := omap entry_of qs). rewrite Forall_forall in Hq.
  assert (Hmem : forall e, e ∈ m <-> exists q, q ∈ qs /\ entry_of q = Some e) by (intros e; unfold m; by rewrite list_elem_of_omap).
  assert (Hok : forall q e, q ∈ qs -> entry_of q = Some e -> entry_ok e /\ me_kind e = bme_kind q) by (intros; apply entry_of_ok; auto).
  destruct (areas_of_map dbg m (align_up (default 0 lo)) (align_down (default usize_max hi))) as (l & -> & HS & Hc).
  - apply Forall_forall. intros e (q & Hqe & He)%Hmem. by apply (Hok q).
  - by apply align_up_range. - by apply align_down_range.
  - assert (length (free m) <= n_free qs)%nat by (apply filter_omap_le; intros q e Hqe He; unfold is_free; by rewrite (proj2 (Hok q e Hqe He))).
    assert (length (non_free m) <= n_reserved qs)%nat by (apply filter_omap_le; intros q e Hqe He; unfold is_free; by rewrite (proj2 (Hok q e Hqe He))).
    nia.
  - exists (merge_sort by_base l). split; [done|]. pose proof (merge_sort_Permutation by_base l) as Hp.
    assert (HS' : Sep (merge_sort by_base l)) by (eapply Sep_perm; [symmetry; exact Hp|done]).
    split; [apply sorted_gap; [apply (StronglySorted_merge_sort by_base)|done]|]. split; [apply HS'|].
    intros x Hx. rewrite (covers_perm _ _ x Hp), Hc, Exists_exists.
    assert (Hfree : (exists e, e ∈ free m /\ in_entry x e) <-> x < LAST_PAGE /\ exists q, q ∈ qs /\ bme_kind q = KFree /\ holds_page q x).
    { unfold free. setoid_rewrite elem_of_lfilter. setoid_rewrite Hmem. unfold is_free. setoid_rewrite bool_decide_eq_true. split.
      - intros (e & ((q & Hqe & He) & Hk) & Hin). rewrite (proj2 (Hok q e Hqe He)) in Hk.
        destruct (proj1 (entry_of_free q x (Hq q Hqe) Hk Hx)) as [? ?]; [by exists e|]. split; [done|]. by exists q.
      - intros [Hl (q & Hqe & Hk & Hh)]. destruct (proj2 (entry_of_free q x (Hq q Hqe) Hk Hx) (conj Hl Hh)) as (e & He & Hin).
        exists e. split; [|done]. split; [by exists q|]. by rewrite (proj2 (Hok q e Hqe He)). }
    assert (Hres : x < LAST_PAGE -> unreserved (non_free m) x <->
      (forall q, q ∈ qs -> bme_kind q <> KFree -> bme_kind q <> KNull -> ~ meets_page q x)).
    { intros Hl. unfold unreserved, non_free. setoid_rewrite elem_of_lfilter. setoid_rewrite Hmem. unfold is_free. split.
      - intros H q Hqe Hf Hk Hm. destruct (proj2 (entry_of_reserved q x (Hq q Hqe) Hf Hk (conj Hx Hl)) Hm) as (e & He & Hin).
        apply (H e); [|done]. split; [by exists q|]. rewrite (proj2 (Hok q e Hqe He)). by rewrite bool_decide_eq_false_2.
      - intros H e ((q & Hqe & He) & Hk) Hin. rewrite (proj2 (Hok q e Hqe He)) in Hk. apply negb_true_iff, bool_decide_eq_false in Hk.
        assert (Hnn : bme_kind q <> KNull) by (intros Hz; unfold entry_of in He; by rewrite bool_decide_eq_true_2 in He).
        apply (H q Hqe Hk Hnn). apply (entry_of_reserved q x (Hq q Hqe) Hk Hnn (conj Hx Hl)). by exists e. }
    tauto.
Qed.

Module BootWitnesses.

(** One free region with the kernel in its middle. *)
Definition args0 : KernelArgs :=
  mkKernelArgs [mkBME 0x100001 0x7ffff KFree] 0x120000 0x8000 0x130000 0x1000 0x140000 0 0x150000 0x1001.

Lemma boot_areas_exact_witness :
  init_areas true args0 (Some 0x100000) None [] =
    Done [mkArea 0x101000 0x1f000; mkArea 0x128000 0x8000; mkArea 0x131000 0x1f000; mkArea 0x152000 0x2e000] /\
  exists l, init_areas true args0 (Some 0x100000) None [] = Done l /\ StronglySorted gap l /\ Forall area_ok l.
Proof.
  split; [vm_compute; reflexivity|].
  destruct (boot_areas_exact true args0 (Some 0x100000) None) as (l & H1 & H2 & H3 & _).
  - repeat (constructor; [split; vm_compute; split; discriminate|]). constructor.
  - vm_compute. lia.
  - vm_compute. lia.
  - vm_compute. split; discriminate.
  - vm_compute. split; discriminate.
  - exists l. split; [exact H1|split; [exact H2|exact H3]].
Defined.

End BootWitnesses.
