(* ===== verification/FrameInit.v ===== *)
(** * Building the frame allocator at boot (src/memory/mod.rs, [init_sections], [init_mm])

    The free areas of the memory map are cut into sections, each with an array
    of [PageInfo]s; the pages the boot allocator has handed out are marked used,
    and every other page is put on a free list in blocks as large as alignment
    allows.

    The boot allocator ([rmm::BumpAllocator]) is an interface; the arrays it
    hands out are read through [bump_read]. *)

From S2P Require Import Prelude PageInfo FrameAllocator BootMemory.
From stdpp Require Import sorting.
#[local] Open Scope Z_scope.

Class BumpApi := {
  Bump : Type;
  free_areas : Bump -> list MemoryArea * Z;
  abs_offset : Bump -> Z;
  (** [allocate(FrameCount::new(n))] *)
  bump_allocate : Z -> Bump -> option (Z * Bump);
  (** the [PageInfo] in memory at a physical address *)
  bump_read : Z -> PageInfo
}.

Definition MAX_SECTION_SIZE : Z := Z.shiftl 1 27.
Definition MAX_SECTION_PAGE_COUNT : Z := MAX_SECTION_SIZE / PAGE_SIZE.
(** [size_of::<Section>()], [size_of::<PageInfo>()] *)
Definition SECTION_BYTES : Z := 24.
Definition PAGE_INFO_BYTES : Z := 16.

(** The order of [sections.sort_unstable_by_key(|s| s.base)]. *)
Definition section_le (s s' : Section_) : Prop := s_base s <= s_base s'.
#[export] Instance section_le_dec s s' : Decision (section_le s s').
Proof. unfold section_le. apply _. Defined.

Section init_sections.
Context {BA : BumpApi} (dbg : bool).

Definition free_areas_iter (b : Bump) : list MemoryArea :=
  let '(l, offset_into_first_free_area) := free_areas b in
  match l with
  | [] => []
  | a :: l' => mkArea (ar_base a + offset_into_first_free_area) (ar_size a - offset_into_first_free_area) :: l'
  end.

Definition section_count (area : MemoryArea) : Z :=
  let aligned_end := div_ceil (ar_base area + ar_size area) MAX_SECTION_SIZE * MAX_SECTION_SIZE in
  let aligned_start := ar_base area / MAX_SECTION_SIZE * MAX_SECTION_SIZE in
  (aligned_end - aligned_start) / MAX_SECTION_SIZE.

Definition max_section_count (l : list MemoryArea) : Z := foldr (fun a n => section_count a + n) 0 l.

(** *** Cutting the areas into sections *)

(** The boot allocator and [sections[..i]]. *)
Record Build := mkBuild { b_alloc : Bump; b_sections : list Section_ }.

Definition allocate_pages (n : Z) : M Build Z :=
  fun b => match bump_allocate n (b_alloc b) with
           | Some (base, a) => Done (base, mkBuild a (b_sections b))
           | None => Panic
           end.

Definition push_section (max : Z) (s : Section_) : M Build unit :=
  fun b => if Z.of_nat (length (b_sections b)) <? max
           then Done (tt, mkBuild (b_alloc b) (b_sections b ++ [s])) else Panic.

(** [while pages_left > 0]; each iteration takes at least one page. *)
Fixpoint split_area (fuel : nat) (max : Z) (base : Frame) (pages_left : Z) : M Build unit :=
  match fuel with
  | O => ret tt
  | S fuel' =>
      if 0 <? pages_left then
        let page_info_max_count := Z.min pages_left MAX_SECTION_PAGE_COUNT in
        let pages_to_next_section := (MAX_SECTION_SIZE - base mod MAX_SECTION_SIZE) / PAGE_SIZE in
        let page_info_count := Z.min page_info_max_count pages_to_next_section in
        let! array := allocate_pages (div_ceil (page_info_count * PAGE_INFO_BYTES) PAGE_SIZE) in
        let frames := map (fun i => bump_read (array + i * PAGE_INFO_BYTES)) (range page_info_count) in
        assert_ (forallb (fun p => (pi_next p =? 0) && (pi_refcount p =? 0)) frames) ;;;
        push_section max (mkSection base frames) ;;;
        let! base' := next_by base page_info_count in
        split_area fuel' max base' (pages_left - page_info_count)
      else ret tt
  end.

(** The inner [while] that joins adjacent areas. *)
Fixpoint join_areas (area : MemoryArea) (rest : list MemoryArea) : MemoryArea * list MemoryArea :=
  match rest with
  | next :: rest' =>
      if ar_base next =? ar_base area + ar_size area
      then join_areas (mkArea (ar_base area) (ar_size area + ar_size next)) rest'
      else (area, rest)
  | [] => (area, [])
  end.

(** [while let Some(area) = iter.next()]; each iteration takes at least one area. *)
Fixpoint build_sections (fuel : nat) (max : Z) (l : list MemoryArea) : M Build unit :=
  match fuel with
  | O => ret tt
  | S fuel' =>
      match l with
      | [] => ret tt
      | area :: rest =>
          if ar_size area =? 0 then build_sections fuel' max rest
          else
            let '(area, rest) := join_areas area rest in
            assert_ (ar_base area mod PAGE_SIZE =? 0) ;;;
            assert_ (ar_size area mod PAGE_SIZE =? 0) ;;;
            let! base := containing (ar_base area) in
            split_area (Z.to_nat (ar_size area / PAGE_SIZE)) max base (ar_size area / PAGE_SIZE) ;;;
            build_sections fuel' max rest
      end
  end.

(** *** Marking the pages the boot allocator used *)

(** The frames from offset [off] on, and whether the loop was left. *)
Fixpoint mark_frames (abs base : Z) (off : nat) (frames : list PageInfo) : list PageInfo * bool :=
  match frames with
  | [] => ([], false)
  | p :: frames' =>
      if abs <=? base + Z.of_nat off * PAGE_SIZE then (frames, true)
      else let '(l, stop) := mark_frames abs base (S off) frames' in (mkPageInfo RC_USED_NOT_FREE 0 :: l, stop)
  end.
Fixpoint mark_sections (abs : Z) (secs : list Section_) : list Section_ :=
  match secs with
  | [] => []
  | s :: secs' =>
      let '(l, stop) := mark_frames abs (s_base s) 0 (s_frames s) in
      mkSection (s_base s) l :: (if stop : bool then secs' else mark_sections abs secs')
  end.

(** *** Building the free lists *)

(** [first_pages] and [last_pages] beside the memory. *)
Record Lists := mkLists { l_mem : Memory; first_pages : list (option (Frame * InfoRef)); last_pages : list (option (Frame * InfoRef)) }.

Definition on_mem {A} (m : M Memory A) : M Lists A :=
  fun s => match m (l_mem s) with
           | Done (a, st) => Done (a, mkLists st (first_pages s) (last_pages s))
           | Panic => Panic
           end.

Definition append_page (page : Frame) (info : InfoRef) (order : nat) : M Lists unit :=
  fun s =>
    if page <? abs_off (l_mem s) then Done (tt, s)
    else
      (let! p := on_mem (load_info info) in
       debug_assert dbg (as_free p) ;;;
       debug_assert dbg (is_aligned_to_order page order) ;;;
       debug_assert dbg (pi_next p =? Z.of_nat order) ;;;
       debug_assert dbg (pi_refcount p =? 0) ;;;
       let! last_page := unwrap (last_pages s !! order) in
       modify (fun s => mkLists (l_mem s) (first_pages s) (<[order := Some (page, info)]> (last_pages s))) ;;;
       match last_page with
       | Some (last_frame, last_info) =>
           let! lp := on_mem (load_info last_info) in
           assert_ (as_free lp) ;;;
           debug_assert dbg (p2frame_order (free_next lp) =? order)%nat ;;;
           debug_assert dbg (bool_decide (p2frame_frame (free_next lp) = None)) ;;;
           on_mem (with_info last_info (set_next dbg (p2frame_new (Some page) order))) ;;;
           let! p := on_mem (load_info info) in
           assert_ (as_free p) ;;;
           on_mem (with_info info (set_prev dbg (p2frame_new (Some last_frame) order)))
       | None =>
           modify (fun s => mkLists (l_mem s) (<[order := Some (page, info)]> (first_pages s)) (last_pages s)) ;;;
           let! p := on_mem (load_info info) in
           assert_ (as_free p) ;;;
           on_mem (with_info info (set_prev dbg (p2frame_new None order))) ;;;
           let! p := on_mem (load_info info) in
           assert_ (as_free p) ;;;
           on_mem (with_info info (set_next dbg (p2frame_new None order)))
       end) s.

(** [frames[off].next.store(order); append_page(page, &frames[off], order)] *)
Definition store_append (page : Frame) (info : InfoRef) (order : nat) : M Lists unit :=
  on_mem (with_info info (store_next (Z.of_nat order))) ;;;
  append_page page info order.

(** The blocks of the largest order. *)
Fixpoint append_max (n : nat) (i : nat) (base : Frame) (lo off : nat) : M Lists unit :=
  match n with
  | O => ret tt
  | S n' =>
      let! page := next_by base (Z.of_nat off) in
      store_append page (i, lo + off)%nat MAX_ORDER ;;;
      append_max n' i base lo (off + 2 ^ MAX_ORDER)
  end.

(** [for order in 0..=MAX_ORDER] on section [i]; the slice [frames] is the
    [len] frames from index [lo] on, the first of which is [base]. *)
Fixpoint order_loop (orders : list nat) (i : nat) (base : Frame) (lo len : nat) : M Lists unit :=
  match orders with
  | [] => ret tt
  | order :: orders' =>
      let pages := (2 ^ order)%nat in
      debug_assert dbg (len mod pages =? 0)%nat ;;;
      debug_assert dbg (is_aligned_to_order base order) ;;;
      let! '(base, lo, len) :=
        if negb (len =? 0)%nat && negb (order =? MAX_ORDER)%nat && negb (is_aligned_to_order base (order + 1)) then
          store_append base (i, lo) order ;;;
          let! base' := next_by base (Z.of_nat pages) in
          assert_ (pages <=? len)%nat ;;;
          ret (base', lo + pages, len - pages)%nat
        else ret (base, lo, len) in
      let! end_ := if negb (len =? 0)%nat && negb (order =? MAX_ORDER)%nat then next_by base (Z.of_nat len) else ret base in
      let! len :=
        if negb (len =? 0)%nat && negb (order =? MAX_ORDER)%nat && negb (is_aligned_to_order end_ (order + 1)) then
          assert_ (pages <=? len)%nat ;;;
          let off := (len - pages)%nat in
          let! final_page := next_by base (Z.of_nat off) in
          store_append final_page (i, lo + off)%nat order ;;;
          ret off
        else ret len in
      if (len =? 0)%nat then ret tt
      else
        (if (order =? MAX_ORDER)%nat then
           debug_assert dbg (len mod pages =? 0)%nat ;;;
           debug_assert dbg (is_aligned_to_order base MAX_ORDER) ;;;
           append_max (Z.to_nat (div_ceil (Z.of_nat len) (Z.of_nat pages))) i base lo 0
         else ret tt) ;;;
        order_loop orders' i base lo len
  end.

Fixpoint section_loop (i : nat) (secs : list Section_) : M Lists unit :=
  match secs with
  | [] => ret tt
  | s :: secs' =>
      order_loop (seq 0 ORDER_COUNT) i (s_base s) 0 (length (s_frames s)) ;;;
      section_loop (S i) secs'
  end.

(** The loop over [last_pages]. *)
Fixpoint close_lists (order : nat) (l : list (option (Frame * InfoRef))) : M Lists unit :=
  match l with
  | [] => ret tt
  | None :: l' => close_lists (S order) l'
  | Some (frame, info) :: l' =>
      debug_assert dbg (is_aligned_to_order frame order) ;;;
      let! p := on_mem (load_info info) in
      assert_ (as_free p) ;;;
      debug_assert dbg (p2frame_order (free_prev p) =? order)%nat ;;;
      on_mem (with_info info (set_next dbg (p2frame_new None order))) ;;;
      close_lists (S order) l'
  end.

(** [st] is the memory before: [FREELIST] and [THE_ZEROED_FRAME] in their
    initial state and the contents of physical memory. *)
Definition init_sections (allocator : Bump) (st : Memory) : outcome (Bump * Memory) :=
  let l := free_areas_iter allocator in
  let max := max_section_count l in
  match (allocate_pages (div_ceil (max * SECTION_BYTES) PAGE_SIZE) ;;; build_sections (length l) max l) (mkBuild allocator []) with
  | Panic => Panic
  | Done (_, b) =>
      let abs := abs_offset (b_alloc b) in
      let secs := mark_sections abs (merge_sort section_le (b_sections b)) in
      let st1 := mkMemory secs abs (for_orders st) (used_frames st) (the_zeroed_frame st) (contents st) in
      let none := replicate ORDER_COUNT None in
      match (section_loop 0 secs ;;; (fun s => close_lists 0 (last_pages s) s)) (mkLists st1 none none) with
      | Panic => Panic
      | Done (_, s) => Done (b_alloc b, set_for_orders (map (fmap fst) (first_pages s)) (l_mem s))
      end
  end.

Definition init_mm (allocator : Bump) (st : Memory) : outcome Memory :=
  match init_sections allocator st with
  | Panic => Panic
  | Done (_, st) =>
      match (let! the_frame := allocate_frame dbg in
             let! the_frame := unwrap the_frame in
             let! the_info := get_page_info the_frame in
             let! the_info := unwrap the_info in
             with_info the_info (store_refcount (to_raw RefCount_One)) ;;;
             modify (set_zeroed_frame the_frame)) st with
      | Panic => Panic
      | Done (_, st) => Done st
      end
  end.
End init_sections.
