(* ===== verification/FrameInitSpec.v ===== *)
(** * The allocator built at boot satisfies its invariant

    The blocks put on the free lists are followed as a list [D] in the order of
    the calls of [append_page].  Each call appends one block; the blocks of a
    section tile it; so the final state has the invariant of BuddyInvariant.v,
    with the blocks that start below the boot allocator's offset used. *)

From S2P Require Import Prelude PageInfo FrameAllocator BuddyInvariant FrameAllocatorSpec BootMemory BootMemorySpec FrameInit.
From stdpp Require Import sorting.
#[local] Open Scope Z_scope.

Lemma strongly_sorted_lookup {A} (R : relation A) l :
  (forall i j x y, (i < j)%nat -> l !! i = Some x -> l !! j = Some y -> R x y) -> StronglySorted R l.
Proof.
  induction l as [|a l IH]; intros H; constructor.
  - apply IH. intros i j x y Hlt Hi Hj. apply (H (S i) (S j)); [lia|done|done].
  - apply Forall_lookup_2. intros j y Hj. apply (H 0%nat (S j)); [lia|done|done].
Qed.
Lemma strongly_sorted_inv {A} (R : relation A) l i j x y : StronglySorted R l -> (i < j)%nat -> l !! i = Some x -> l !! j = Some y -> R x y.
Proof.
  intros H. revert i j. induction H as [|a l _ IH Ha]; intros i j Hlt Hi Hj; [done|].
  destruct i as [|i], j as [|j]; simpl in *; simplify_eq; [lia|by eapply Forall_lookup_1|lia|by apply (IH i j); [lia|..]].
Qed.

(** ** Appending blocks *)

Section append.
Context (dbg : bool) (st1 : Memory).
Let abs : Z := abs_off st1.

(** The free blocks of order [o] among [D]. *)
Definition fl_of (D : list (Z * nat)) (o : nat) : list Z :=
  map fst (filter (fun b => b.2 = o /\ abs_off st1 <= b.1) D).

Lemma fl_of_snoc D a o o' :
  fl_of (D ++ [(a, o)]) o' = fl_of D o' ++ (if decide (o = o' /\ abs_off st1 <= a) then [a] else []).
Proof.
  unfold fl_of. rewrite filter_app, map_app. f_equal. unfold filter, list_filter. cbn [fst snd]. by case_decide.
Qed.

Lemma fl_of_in D a o : a ∈ fl_of D o <-> (a, o) ∈ D /\ abs_off st1 <= a.
Proof.
  unfold fl_of. rewrite list_elem_of_fmap. setoid_rewrite list_elem_of_filter. split.
  - intros ([a' o'] & -> & [Hk ?] & ?). simpl in *. by subst.
  - intros [H1 H2]. by exists (a, o).
Qed.

Lemma fl_of_nodup D o : NoDup D.*1 -> NoDup (fl_of D o).
Proof.
  induction D as [|[a k] D IH]; [intros; constructor|]. cbn [fmap list_fmap fst]. intros [Ha HD]%NoDup_cons. unfold fl_of in *.
  destruct (decide (k = o /\ abs_off st1 <= a)) as [Hd|Hd]; [rewrite filter_cons_True by done|rewrite filter_cons_False by done; by apply IH].
  cbn [map fst]. apply NoDup_cons. split; [|by apply IH].
  intros ([a' o'] & Hf & [_ Hx]%list_elem_of_filter)%list_elem_of_fmap. apply Ha, list_elem_of_fmap. by exists (a', o').
Qed.

Definition with_ref (f : option Z) : option (Frame * InfoRef) :=
  match f with Some a => (fun r => (a, r)) <$> locate (sections st1) a | None => None end.

Record Built (s : Lists) (D : list (Z * nat)) : Prop := {
  bt_layout : same_layout st1 (l_mem s);
  bt_orders : for_orders (l_mem s) = for_orders st1;
  bt_first : forall o, (o < ORDER_COUNT)%nat -> first_pages s !! o = Some (with_ref (head (fl_of D o)));
  bt_last : forall o, (o < ORDER_COUNT)%nat -> last_pages s !! o = Some (with_ref (last (fl_of D o)));
  bt_list : forall o, (o < ORDER_COUNT)%nat -> dseg (pinfo (l_mem s)) o None (fl_of D o) None;
  bt_same : forall f, aligned f -> f ∉ D.*1 -> pinfo (l_mem s) f = pinfo st1 f;
  bt_used : forall a o, (a, o) ∈ D -> a < abs -> exists p, pinfo (l_mem s) a = Some p /\ as_free p = false;
  bt_nodup : NoDup D.*1;
  bt_blocks : forall a o, (a, o) ∈ D -> (o < ORDER_COUNT)%nat /\ a mod order_size o = 0 /\ managed st1 a;
  bt_len : length (first_pages s) = ORDER_COUNT /\ length (last_pages s) = ORDER_COUNT
}.

Context (wf1 : wf_sections (sections st1)).
Context (info1 : forall f, aligned f -> managed st1 f ->
  pinfo st1 f = Some (if f <? abs then mkPageInfo RC_USED_NOT_FREE 0 else mkPageInfo 0 0)).

Lemma on_mem_run {A} (m : M Memory A) s a st : m (l_mem s) = Done (a, st) ->
  on_mem m s = Done (a, mkLists st (first_pages s) (last_pages s)).
Proof. intros H. unfold on_mem. by rewrite H. Qed.

Lemma built_packable s D a o : Built s D -> (a, o) ∈ D -> packable (Some a) o.
Proof.
  intros HB Ha. destruct (bt_blocks _ _ HB a o Ha) as (Ho & Hal & Hm). pose proof (aligned_order _ _ Hal) as Hp.
  destruct (managed_range _ _ wf1 Hp Hm). unfold packable, ORDER_COUNT, PAGE_SIZE in *. split; [lia|]. split; [lia|done].
Qed.

Lemma head_packable a o : (o < ORDER_COUNT)%nat -> a mod order_size o = 0 -> managed st1 a -> packable (Some a) o.
Proof.
  intros Ho Hal Hm. pose proof (aligned_order _ _ Hal) as Hp. destruct (managed_range _ _ wf1 Hp Hm).
  unfold packable, ORDER_COUNT, PAGE_SIZE in *. split; [lia|]. split; [lia|done].
Qed.

(** Writing one page info. *)
Lemma write_info st f r (m : M PageInfo unit) p p' : same_layout st1 st -> locate (sections st1) f = Some r ->
  pinfo st f = Some p -> m p = Done (tt, p') -> with_info r m st = Done (tt, sinfo f p' st).
Proof. intros HL Hr Hp Hm. eapply with_info_sinfo; [by rewrite (sl_locate _ _ HL)|done|done]. Qed.

Lemma read_info st f r p : same_layout st1 st -> locate (sections st1) f = Some r -> pinfo st f = Some p ->
  load_info r st = Done (p, st).
Proof. intros HL Hr Hp. eapply load_info_pinfo; [by rewrite (sl_locate _ _ HL)|done]. Qed.

Lemma on_read_run s f r p : same_layout st1 (l_mem s) -> locate (sections st1) f = Some r -> pinfo (l_mem s) f = Some p ->
  on_mem (load_info r) s = Done (p, s).
Proof. intros HL Hr Hp. rewrite (on_mem_run _ _ _ _ (read_info _ _ _ _ HL Hr Hp)). by destruct s. Qed.

Lemma pinfo_after st f p g : same_layout st1 st -> aligned f -> aligned g -> managed st1 f ->
  pinfo (sinfo f p st) g = if decide (g = f) then Some p else pinfo st g.
Proof.
  intros HL Hf Hg Hm. apply pinfo_sinfo; [by apply (sl_wf _ _ HL)|done|done|]. by apply (same_layout_managed _ _ _ HL).
Qed.

Lemma layout_sinfo st f p : same_layout st1 st -> same_layout st1 (sinfo f p st).
Proof. intros HL. eapply same_layout_trans; [exact HL|apply same_layout_sinfo]. Qed.

Lemma orders_sinfo st f p : for_orders (sinfo f p st) = for_orders st.
Proof. unfold sinfo. by destruct (locate _ _). Qed.

Lemma fl_of_aligned D s o x : Built s D -> x ∈ fl_of D o -> aligned x /\ managed st1 x.
Proof.
  intros HB [Hx _]%fl_of_in. destruct (bt_blocks _ _ HB _ _ Hx) as (_ & Hal & Hm). split; [by eapply aligned_order|done].
Qed.

(** A block that the boot allocator has used is only marked. *)
Lemma built_used s D a o : Built s D -> (o < ORDER_COUNT)%nat -> a mod order_size o = 0 -> managed st1 a -> a ∉ D.*1 -> a < abs ->
  Built (mkLists (sinfo a (mkPageInfo RC_USED_NOT_FREE (Z.of_nat o)) (l_mem s)) (first_pages s) (last_pages s)) (D ++ [(a, o)]).
Proof.
  intros HB Ho Hal Hm Hnew Hlow. pose proof (aligned_order _ _ Hal) as Hpa. pose proof (bt_layout _ _ HB) as HL.
  assert (Hfl : forall o', fl_of (D ++ [(a, o)]) o' = fl_of D o').
  { intros o'. rewrite fl_of_snoc, decide_False by (fold abs; lia). apply app_nil_r. }
  assert (Hp : forall g, aligned g -> pinfo (sinfo a (mkPageInfo RC_USED_NOT_FREE (Z.of_nat o)) (l_mem s)) g =
             if decide (g = a) then Some (mkPageInfo RC_USED_NOT_FREE (Z.of_nat o)) else pinfo (l_mem s) g) by (intros; by apply pinfo_after).
  destruct HB as [B1 B2 B3 B4 B5 B6 B7 B8 B9 B10]. split; cbn [l_mem first_pages last_pages].
  - by apply layout_sinfo.
  - by rewrite orders_sinfo.
  - intros o' Ho'. rewrite Hfl. by apply B3.
  - intros o' Ho'. rewrite Hfl. by apply B4.
  - intros o' Ho'. rewrite Hfl. eapply dseg_ext; [|by apply B5]. intros x Hx.
    assert (Hx' : (x, o') ∈ D) by (by apply fl_of_in in Hx as [? _]). destruct (B9 _ _ Hx') as (_ & Hxa & _).
    rewrite Hp by (by eapply aligned_order). rewrite decide_False; [done|]. intros ->. apply Hnew. apply list_elem_of_fmap. by exists (a, o').
  - intros f Hf. rewrite fmap_app, not_elem_of_app. cbn. intros [Hn1 Hn2]. rewrite Hp by done.
    rewrite decide_False by (intros ->; apply Hn2, list_elem_of_here). by apply B6.
  - intros b o' [Hb|Hb%list_elem_of_singleton]%elem_of_app Hlb.
    + destruct (B9 _ _ Hb) as (_ & Hba & _). rewrite Hp by (by eapply aligned_order). case_decide; [eexists; split; [done|reflexivity]|by eapply B7].
    + injection Hb as -> ->. rewrite Hp by done. rewrite decide_True by done. eexists. split; [done|reflexivity].
  - rewrite fmap_app. apply NoDup_app. split; [done|]. split; [|apply NoDup_singleton]. intros x Hx Hx'%list_elem_of_singleton. by subst.
  - intros b o' [Hb|Hb%list_elem_of_singleton]%elem_of_app; [by apply B9|]. by injection Hb as -> ->.
  - done.
Qed.

(** A free block at the end of its list: [l_mem s] changes in the new head and
    in the next link of the old last block. *)
Lemma built_free s D a o st' fp lp : Built s D -> (o < ORDER_COUNT)%nat -> a mod order_size o = 0 -> managed st1 a -> a ∉ D.*1 -> abs <= a ->
  same_layout st1 st' -> for_orders st' = for_orders st1 ->
  pinfo st' a = Some (mkPageInfo (p2frame_new (last (fl_of D o)) o) (p2frame_new None o)) ->
  (forall x p, last (fl_of D o) = Some x -> pinfo (l_mem s) x = Some p -> pinfo st' x = Some (mkPageInfo (pi_refcount p) (p2frame_new (Some a) o))) ->
  (forall g, aligned g -> g <> a -> Some g <> last (fl_of D o) -> pinfo st' g = pinfo (l_mem s) g) ->
  fp = (match fl_of D o with [] => <[o := with_ref (Some a)]> (first_pages s) | _ => first_pages s end) ->
  lp = <[o := with_ref (Some a)]> (last_pages s) ->
  Built (mkLists st' fp lp) (D ++ [(a, o)]).
Proof.
  intros HB Ho Hal Hm Hnew Habs HL' Hfo Hpa Hpl Hpo -> ->. pose proof (aligned_order _ _ Hal) as Haa.
  assert (Hfl : forall o', fl_of (D ++ [(a, o)]) o' = if decide (o' = o) then fl_of D o ++ [a] else fl_of D o').
  { intros o'. rewrite fl_of_snoc. destruct (decide (o' = o)) as [->|Hne]; [by rewrite decide_True|]. rewrite decide_False by naive_solver. apply app_nil_r. }
  assert (Hnd : forall o', NoDup (fl_of D o')).
  { intros o'. apply fl_of_nodup, HB. }
  assert (Hin : forall x o', x ∈ fl_of D o' -> x ∈ D.*1) by (intros x o' [Hx _]%fl_of_in; apply list_elem_of_fmap; by exists (x, o')).
  assert (Hcross : forall x o', x ∈ fl_of D o' -> o' <> o -> Some x <> last (fl_of D o)).
  { intros x o' [Hx _]%fl_of_in Hne Hl. symmetry in Hl. apply last_Some_elem_of, fl_of_in in Hl as [Hl _].
    apply Hne. pose proof (bt_nodup _ _ HB) as Hnd'. apply list_elem_of_lookup in Hx as [i Hi], Hl as [j Hj].
    assert (i = j) as ->; [|congruence]. eapply NoDup_lookup; [exact Hnd'|by rewrite list_lookup_fmap, Hi|by rewrite list_lookup_fmap, Hj]. }
  pose proof (fun o' x => fl_of_aligned D s o' x HB) as Hfa.
  destruct HB as [B1 B2 B3 B4 B5 B6 B7 B8 B9 B10]. split; cbn [l_mem first_pages last_pages].
  - done.
  - done.
  - intros o' Ho'. rewrite Hfl. destruct (decide (o' = o)) as [->|Hne].
    + destruct (fl_of D o) as [|y l] eqn:Hlo; cbn [app head]; [rewrite list_lookup_insert_eq by lia; done|]. rewrite B3 by done. by rewrite Hlo.
    + destruct (fl_of D o); [rewrite list_lookup_insert_ne by done|]; by apply B3.
  - intros o' Ho'. rewrite Hfl. destruct (decide (o' = o)) as [->|Hne].
    + rewrite last_snoc, list_lookup_insert_eq by lia. done.
    + rewrite list_lookup_insert_ne by done. by apply B4.
  - intros o' Ho'. rewrite Hfl. destruct (decide (o' = o)) as [->|Hne].
    + apply dseg_app. split; [|split; [|done]].
      * eapply dseg_change_next; [apply Hnd| |exact Hpl|by apply B5]. intros x Hx Hxl. apply Hpo; [by apply (Hfa o)| |done].
        intros ->. by apply Hnew, (Hin _ o).
      * cbn [head opt_or]. rewrite Hpa. do 2 f_equal. by destruct (last (fl_of D o)).
    + eapply dseg_ext; [|by apply B5]. intros x Hx. apply Hpo; [by apply (Hfa o')| |by eapply Hcross]. intros ->. by apply Hnew, (Hin _ o').
  - intros f Hf. rewrite fmap_app, not_elem_of_app. cbn. intros [Hn1 Hn2]. rewrite Hpo; [by apply B6|done|intros ->; apply Hn2, list_elem_of_here|].
    intros Hl. symmetry in Hl. apply last_Some_elem_of in Hl. by apply Hn1, (Hin _ o).
  - intros b o' [Hb|Hb%list_elem_of_singleton]%elem_of_app Hlb; [|injection Hb as -> ->; unfold abs in *; lia].
    destruct (B9 _ _ Hb) as (_ & Hba & _). rewrite Hpo; [by eapply B7|by eapply aligned_order|intros ->; unfold abs in *; lia|].
    intros Hl. symmetry in Hl. apply last_Some_elem_of, fl_of_in in Hl as [_ Hl]. unfold abs in *; lia.
  - rewrite fmap_app. apply NoDup_app. split; [done|]. split; [|apply NoDup_singleton]. intros x Hx Hx'%list_elem_of_singleton. by subst.
  - intros b o' [Hb|Hb%list_elem_of_singleton]%elem_of_app; [by apply B9|]. by injection Hb as -> ->.
  - destruct B10. rewrite length_insert. destruct (fl_of D o); rewrite ?length_insert; done.
Qed.

Lemma set_next_new p f o : packable f o -> (forall a, f = Some a -> a mod order_size o = 0) ->
  set_next dbg (p2frame_new f o) p = Done (tt, mkPageInfo (pi_refcount p) (p2frame_new f o)).
Proof. intros H1 H2. apply set_next_run. by apply p2frame_aligned_new. Qed.
Lemma set_prev_new p f o : packable f o -> (forall a, f = Some a -> a mod order_size o = 0) ->
  set_prev dbg (p2frame_new f o) p = Done (tt, mkPageInfo (p2frame_new f o) (pi_next p)).
Proof. intros H1 H2. apply set_prev_run. by apply p2frame_aligned_new. Qed.

(** Assertions that hold. *)
Lemma dbg_step {S A} b (k : M S A) s : b = true -> (debug_assert dbg b ;;; k) s = k s.
Proof. intros H. by rewrite (bind_Done _ _ _ _ _ (debug_assert_true dbg b s H)). Qed.
Lemma assert_step {S A} b (k : M S A) s : b = true -> (assert_ b ;;; k) s = k s.
Proof. by intros ->. Qed.

Lemma as_free_zero nx : as_free (mkPageInfo 0 nx) = true.
Proof. reflexivity. Qed.

Lemma p2frame_none o : p2frame_new None o = Z.of_nat o.
Proof. reflexivity. Qed.

(** The last block of a list, before another one follows. *)
Lemma last_info s D o x : Built s D -> (o < ORDER_COUNT)%nat -> last (fl_of D o) = Some x ->
  exists r, locate (sections st1) x = Some r /\ aligned x /\ managed st1 x /\ packable (Some x) o /\ x mod order_size o = 0 /\
    exists pv, pinfo (l_mem s) x = Some (mkPageInfo (p2frame_new pv o) (p2frame_new None o)) /\ packable pv o.
Proof.
  intros HB Ho Hl. pose proof (last_Some_elem_of _ _ Hl) as Hx. destruct (fl_of_aligned _ _ _ _ HB Hx) as [Ha [r Hr]].
  apply fl_of_in in Hx as [Hx _]. exists r. split; [done|]. split; [done|]. split; [by exists r|].
  split; [by eapply built_packable|]. split; [apply (bt_blocks _ _ HB _ _ Hx)|].
  apply last_Some in Hl as [l Hl]. pose proof (bt_list _ _ HB o Ho) as Hd. rewrite Hl in Hd. apply dseg_app in Hd as [_ [Hd _]].
  eexists. split; [exact Hd|]. destruct (last l) as [y|] eqn:Hy; [|by apply packable_None].
  apply last_Some_elem_of in Hy. cbn [opt_or]. eapply built_packable; [exact HB|].
  apply (fl_of_in D y o). rewrite Hl. apply elem_of_app. by left.
Qed.

(** One call of [append_page], with the store before it. *)
Lemma store_append_ok s D a o r : Built s D -> (o < ORDER_COUNT)%nat -> a mod order_size o = 0 -> a ∉ D.*1 ->
  locate (sections st1) a = Some r ->
  exists s', store_append dbg a r o s = Done (tt, s') /\ Built s' (D ++ [(a, o)]).
Proof.
  intros HB Ho Hal Hnew Hr. assert (Hm : managed st1 a) by (by exists r). pose proof (aligned_order _ _ Hal) as Haa.
  pose proof (bt_layout _ _ HB) as HL. pose proof (head_packable a o Ho Hal Hm) as Hpk. pose proof (packable_None o Ho) as Hpn.
  assert (Hp0 : pinfo (l_mem s) a = Some (if a <? abs then mkPageInfo RC_USED_NOT_FREE 0 else mkPageInfo 0 0)) by (rewrite (bt_same _ _ HB) by done; by apply info1).
  unfold store_append. rewrite (bind_Done _ _ _ _ _ (on_mem_run _ s _ _ (write_info _ _ _ (store_next (Z.of_nat o)) _ _ HL Hr Hp0 eq_refl))).
  set (p1 := mkPageInfo _ _). set (m1 := sinfo a p1 (l_mem s)). assert (HL1 : same_layout st1 m1) by (by apply layout_sinfo).
  assert (Hm1 : forall g, aligned g -> pinfo m1 g = if decide (g = a) then Some p1 else pinfo (l_mem s) g) by (intros; by apply pinfo_after).
  unfold append_page. cbn [l_mem first_pages last_pages]. rewrite (sl_off _ _ HL1). fold abs. unfold p1 in *. clear p1.
  destruct (Z.ltb_spec a abs) as [Hlow|Hhigh].
  { eexists. split; [reflexivity|]. by apply built_used. }
  cbn [pi_refcount] in *. set (p1 := mkPageInfo 0 (Z.of_nat o)) in *.
  assert (Hpa1 : pinfo m1 a = Some p1) by (rewrite Hm1 by done; by rewrite decide_True).
  set (s1 := mkLists m1 _ _). rewrite (bind_Done _ _ _ _ _ (on_read_run s1 a r p1 HL1 Hr Hpa1)).
  rewrite dbg_step by apply as_free_zero. rewrite dbg_step by (by apply is_aligned_spec).
  rewrite dbg_step by apply Z.eqb_refl. rewrite dbg_step by reflexivity.
  rewrite (bt_last _ _ HB o Ho). cbn [unwrap]. rewrite bind_ret. unfold modify at 1. unfold bind at 1. cbn [l_mem first_pages last_pages s1].
  assert (Href : Some (a, r) = with_ref (Some a)) by (unfold with_ref; by rewrite Hr). rewrite Href.
  destruct (last (fl_of D o)) as [x|] eqn:Hlast.
  - destruct (last_info s D o x HB Ho Hlast) as (rx & Hrx & Hxa & Hxm & Hxp & Hxal & pv & Hxi & Hpv).
    assert (Hxne : x <> a).
    { intros ->. apply Hnew. apply last_Some_elem_of, fl_of_in in Hlast as [Hl _]. apply list_elem_of_fmap. by exists (a, o). }
    unfold with_ref at 1. rewrite Hrx. cbn [fmap option_fmap option_map].
    set (s2 := mkLists m1 _ _). assert (Hx1 : pinfo m1 x = Some (mkPageInfo (p2frame_new pv o) (p2frame_new None o))) by (rewrite Hm1 by done; by rewrite decide_False).
    rewrite (bind_Done _ _ _ _ _ (on_read_run s2 x rx _ HL1 Hrx Hx1)).
    rewrite assert_step by (by apply as_free_packed). unfold free_next. cbn [pi_next].
    rewrite (p2frame_order_new _ _ Hpn), (p2frame_frame_new _ _ Hpn).
    rewrite dbg_step by apply Nat.eqb_refl. rewrite dbg_step by (by apply bool_decide_eq_true_2).
    rewrite (bind_Done _ _ _ _ _ (on_mem_run _ s2 _ _ (write_info _ _ _ _ _ _ HL1 Hrx Hx1
      (set_next_new _ (Some a) o Hpk ltac:(by intros ? [= <-]))))). cbn [pi_refcount s2 first_pages last_pages].
    set (p2 := mkPageInfo _ _). set (m2 := sinfo x p2 m1). assert (HL2 : same_layout st1 m2) by (by apply layout_sinfo).
    assert (Hm2 : forall g, aligned g -> pinfo m2 g = if decide (g = x) then Some p2 else pinfo m1 g) by (intros; by apply pinfo_after).
    assert (Hpa2 : pinfo m2 a = Some p1) by (rewrite Hm2 by done; by rewrite decide_False).
    set (s3 := mkLists m2 _ _). rewrite (bind_Done _ _ _ _ _ (on_read_run s3 a r p1 HL2 Hr Hpa2)).
    rewrite assert_step by apply as_free_zero.
    rewrite (on_mem_run _ s3 _ _ (write_info _ _ _ _ _ _ HL2 Hr Hpa2 (set_prev_new _ (Some x) o Hxp ltac:(by intros ? [= <-])))).
    eexists. split; [reflexivity|]. cbn [s3 first_pages last_pages pi_next p1].
    eapply built_free; try done; rewrite ?Hlast.
    + by apply layout_sinfo.
    + rewrite orders_sinfo. unfold m2. rewrite orders_sinfo. unfold m1. rewrite orders_sinfo. apply (bt_orders _ _ HB).
    + rewrite pinfo_after by done. by rewrite decide_True.
    + intros y p [= <-] Hy. rewrite pinfo_after by done. rewrite decide_False by done. rewrite Hm2 by done. rewrite decide_True by done.
      rewrite Hxi in Hy. by injection Hy as <-.
    + intros g Hg Hga Hgx. rewrite pinfo_after by done. rewrite decide_False by done. rewrite Hm2 by done. rewrite decide_False by congruence.
      rewrite Hm1 by done. by rewrite decide_False.
    + destruct (fl_of D o); [done|reflexivity].
  - assert (Hnil : fl_of D o = []) by (by apply last_None). cbn [with_ref]. unfold modify at 1. unfold bind at 1. cbn [l_mem first_pages last_pages].
    set (s2 := mkLists m1 _ _). rewrite (bind_Done _ _ _ _ _ (on_read_run s2 a r p1 HL1 Hr Hpa1)).
    rewrite assert_step by apply as_free_zero.
    rewrite (bind_Done _ _ _ _ _ (on_mem_run _ s2 _ _ (write_info _ _ _ _ _ _ HL1 Hr Hpa1 (set_prev_new _ None o Hpn ltac:(done))))).
    cbn [pi_next p1 s2 first_pages last_pages]. set (p2 := mkPageInfo _ _). set (m2 := sinfo a p2 m1). assert (HL2 : same_layout st1 m2) by (by apply layout_sinfo).
    assert (Hm2 : forall g, aligned g -> pinfo m2 g = if decide (g = a) then Some p2 else pinfo m1 g) by (intros; by apply pinfo_after).
    assert (Hpa2 : pinfo m2 a = Some p2) by (rewrite Hm2 by done; by rewrite decide_True).
    set (s3 := mkLists m2 _ _). rewrite (bind_Done _ _ _ _ _ (on_read_run s3 a r p2 HL2 Hr Hpa2)).
    rewrite assert_step by (by apply as_free_packed).
    rewrite (on_mem_run _ s3 _ _ (write_info _ _ _ _ _ _ HL2 Hr Hpa2 (set_next_new _ None o Hpn ltac:(done)))).
    eexists. split; [reflexivity|]. cbn [s3 first_pages last_pages pi_refcount p2].
    eapply built_free; try done; rewrite ?Hlast.
    + by apply layout_sinfo.
    + rewrite orders_sinfo. unfold m2. rewrite orders_sinfo. unfold m1. rewrite orders_sinfo. apply (bt_orders _ _ HB).
    + rewrite pinfo_after by done. by rewrite decide_True.
    + by intros ? ? [=].
    + intros g Hg Hga _. rewrite pinfo_after by done. rewrite decide_False by done. rewrite Hm2 by done. rewrite decide_False by done.
      rewrite Hm1 by done. by rewrite decide_False.
    + by rewrite Hnil.
Qed.

(** ** Tilings *)

Definition block_sep (a : Z) (o : nat) (b : Z) (o' : nat) : Prop := a + order_size o <= b \/ b + order_size o' <= a.

Record Tiles (bs : list (Z * nat)) (lo hi : Z) : Prop := {
  ti_in : forall a o, (a, o) ∈ bs -> (o < ORDER_COUNT)%nat /\ a mod order_size o = 0 /\ lo <= a /\ a + order_size o <= hi;
  ti_sep : forall a o b o', (a, o) ∈ bs -> (b, o') ∈ bs -> a <> b -> block_sep a o b o';
  ti_nodup : NoDup bs.*1;
  ti_cover : forall x, lo <= x < hi -> exists a o, (a, o) ∈ bs /\ in_block x a o
}.

Lemma Tiles_nil lo : Tiles [] lo lo.
Proof. split; [by intros ? ? ?%not_elem_of_nil|by intros ? ? ? ? ?%not_elem_of_nil|constructor|intros; lia]. Qed.

Lemma Tiles_single a o : (o < ORDER_COUNT)%nat -> a mod order_size o = 0 -> Tiles [(a, o)] a (a + order_size o).
Proof.
  intros Ho Ha. split.
  - intros b k Hb%list_elem_of_singleton. injection Hb as -> ->. split; [done|]. split; [done|lia].
  - intros b k c k' Hb%list_elem_of_singleton Hc%list_elem_of_singleton. injection Hb as -> ->. by injection Hc as -> ->.
  - apply NoDup_singleton.
  - intros x Hx. exists a, o. split; [apply list_elem_of_here|done].
Qed.

Lemma Tiles_bound bs lo hi a : Tiles bs lo hi -> a ∈ bs.*1 -> lo <= a < hi.
Proof.
  intros HT ([b o] & -> & Hb)%list_elem_of_fmap. destruct (ti_in _ _ _ HT _ _ Hb) as (_ & _ & ? & ?). cbn [fst].
  pose proof (order_size_pos o). lia.
Qed.

(** Two tilings side by side. *)
Lemma Tiles_app bs bs' lo mid hi : Tiles bs lo mid -> Tiles bs' mid hi -> lo <= mid <= hi -> Tiles (bs ++ bs') lo hi.
Proof.
  intros H1 H2 Hm. split.
  - intros a o [Ha|Ha]%elem_of_app; [destruct (ti_in _ _ _ H1 _ _ Ha) as (? & ? & ? & ?)|destruct (ti_in _ _ _ H2 _ _ Ha) as (? & ? & ? & ?)];
      (split; [done|]; split; [done|lia]).
  - intros a o b o' [Ha|Ha]%elem_of_app [Hb|Hb]%elem_of_app Hne; [by eapply (ti_sep _ _ _ H1)| | |by eapply (ti_sep _ _ _ H2)];
      unfold block_sep; [destruct (ti_in _ _ _ H1 _ _ Ha) as (_ & _ & ? & ?), (ti_in _ _ _ H2 _ _ Hb) as (_ & _ & ? & ?)|
                         destruct (ti_in _ _ _ H2 _ _ Ha) as (_ & _ & ? & ?), (ti_in _ _ _ H1 _ _ Hb) as (_ & _ & ? & ?)]; lia.
  - rewrite fmap_app. apply NoDup_app. split; [apply H1|]. split; [|apply H2]. intros x Hx Hx'.
    pose proof (Tiles_bound _ _ _ _ H1 Hx). pose proof (Tiles_bound _ _ _ _ H2 Hx'). lia.
  - intros x Hx. destruct (decide (x < mid)) as [Hd|Hd].
    + destruct (ti_cover _ _ _ H1 x ltac:(lia)) as (a & o & Ha & Hi). exists a, o. split; [apply elem_of_app; by left|done].
    + destruct (ti_cover _ _ _ H2 x ltac:(lia)) as (a & o & Ha & Hi). exists a, o. split; [apply elem_of_app; by right|done].
Qed.

Lemma Tiles_perm bs bs' lo hi : bs ≡ₚ bs' -> Tiles bs lo hi -> Tiles bs' lo hi.
Proof.
  intros Hp [T1 T2 T3 T4]. assert (Hin : forall x, x ∈ bs' <-> x ∈ bs) by (intros; by rewrite Hp). split.
  - intros a o Ha%Hin. by apply T1.
  - intros a o b o' Ha%Hin Hb%Hin. by apply T2.
  - by rewrite <- Hp.
  - intros x Hx. destruct (T4 x Hx) as (a & o & Ha & Hi). exists a, o. by rewrite Hin.
Qed.

(** ** One section *)

Lemma pages_size o : Z.of_nat (2 ^ o) * PAGE_SIZE = order_size o.
Proof. rewrite order_size_eq, Nat2Z.inj_pow. unfold PAGE_SIZE. lia. Qed.

(** The next address of the same alignment has the next larger alignment, if this one has not. *)
Lemma align_next a o : a mod order_size o = 0 -> is_aligned_to_order a (o + 1) = false -> (a + order_size o) mod order_size (S o) = 0.
Proof.
  intros Ha Hn. replace (o + 1)%nat with (S o) in Hn by lia. unfold is_aligned_to_order in Hn. apply Z.eqb_neq in Hn.
  rewrite order_size_S in *. pose proof (order_size_pos o) as Hp. apply Z.mod_divide in Ha as [k ->]; [|lia].
  destruct (Z.Even_or_Odd k) as [[j ->]|[j ->]].
  - exfalso. apply Hn. replace (2 * j * order_size o) with (j * (2 * order_size o)) by lia. apply Z.mod_mul. lia.
  - replace ((2 * j + 1) * order_size o + order_size o) with ((j + 1) * (2 * order_size o)) by lia. apply Z.mod_mul. lia.
Qed.
Lemma align_prev a o : a mod order_size o = 0 -> is_aligned_to_order a (o + 1) = false -> (a - order_size o) mod order_size (S o) = 0.
Proof.
  intros Ha Hn. pose proof (align_next a o Ha Hn) as H. pose proof (order_size_pos o). rewrite order_size_S in *.
  replace (a - order_size o) with (a + order_size o + (-1) * (2 * order_size o)) by lia. by rewrite Z.mod_add by lia.
Qed.

Lemma span_mult base len o : base mod order_size o = 0 -> (base + Z.of_nat len * PAGE_SIZE) mod order_size o = 0 -> (len mod 2 ^ o = 0)%nat.
Proof.
  intros Hb He. pose proof (order_size_pos o). rewrite Zplus_mod, Hb, Z.add_0_l, Z.mod_mod in He by lia.
  rewrite <- pages_size in He. rewrite Z.mul_mod_distr_r in He by (unfold PAGE_SIZE; lia || (assert (2 ^ o <> 0)%nat by (apply Nat.pow_nonzero; lia); lia)).
  rewrite <- Nat2Z.inj_mod in He. unfold PAGE_SIZE in He. lia.
Qed.

Lemma span_ge base len o : base mod order_size o = 0 -> (base + Z.of_nat len * PAGE_SIZE) mod order_size o = 0 -> len <> 0%nat -> (2 ^ o <= len)%nat.
Proof.
  intros Hb He Hn. pose proof (span_mult _ _ _ Hb He) as Hm. pose proof (Nat.mod_small len (2 ^ o)). lia.
Qed.

(** Section [i] starts at [sb] and has [n] frames. *)
Record section_at (i : nat) (sb : Z) (n : nat) : Prop := {
  sa_locate : forall j, (j < n)%nat -> locate (sections st1) (sb + Z.of_nat j * PAGE_SIZE) = Some (i, j);
  sa_pos : 0 < sb;
  sa_end : sb + Z.of_nat n * PAGE_SIZE <= 2 ^ 63
}.

(** No block of [D] starts in the range. *)
Definition untouched (D : list (Z * nat)) (lo hi : Z) : Prop := forall a, a ∈ D.*1 -> ~ (lo <= a < hi).

Lemma untouched_app D bs lo hi lo' hi' : untouched D lo hi -> Tiles bs lo' hi' -> (hi' <= lo \/ hi <= lo') -> untouched (D ++ bs) lo hi.
Proof.
  intros HD HT Hs a. rewrite fmap_app, elem_of_app. intros [Ha|Ha]; [by apply HD|]. pose proof (Tiles_bound _ _ _ _ HT Ha). lia.
Qed.
Lemma untouched_sub D lo hi lo' hi' : untouched D lo hi -> lo <= lo' -> hi' <= hi -> untouched D lo' hi'.
Proof. intros H H1 H2 a Ha. specialize (H a Ha). lia. Qed.

Section one_section.
Context (i : nat) (sb : Z) (n : nat) (HS : section_at i sb n).

Definition at_ (j : nat) : Z := sb + Z.of_nat j * PAGE_SIZE.

Lemma at_next j k {S} (s : S) : (j + k <= n)%nat -> next_by (at_ j) (Z.of_nat k) s = Done (at_ (j + k), s).
Proof.
  intros H. destruct HS as [_ H1 H2]. rewrite next_by_ok; [do 2 f_equal|..]; unfold at_, PAGE_SIZE in *; lia.
Qed.
Lemma at_plus j k : at_ (j + k) = at_ j + Z.of_nat k * PAGE_SIZE.
Proof. unfold at_. lia. Qed.

(** One block of the section. *)
Lemma append_at s D j o : Built s D -> (j < n)%nat -> (o < ORDER_COUNT)%nat -> at_ j mod order_size o = 0 -> at_ j ∉ D.*1 ->
  exists s', store_append dbg (at_ j) (i, j) o s = Done (tt, s') /\ Built s' (D ++ [(at_ j, o)]).
Proof. intros HB Hj Ho Ha Hn. apply store_append_ok; try done. by apply HS. Qed.

(** The first block of the rest, if it is not aligned to the next order. *)
Lemma first_step s D o j len : Built s D -> (o < MAX_ORDER)%nat -> (j + len <= n)%nat ->
  at_ j mod order_size o = 0 -> at_ (j + len) mod order_size o = 0 -> untouched D (at_ j) (at_ (j + len)) ->
  exists s' bs j' len',
    (if negb (len =? 0)%nat && negb (o =? MAX_ORDER)%nat && negb (is_aligned_to_order (at_ j) (o + 1)) then
       store_append dbg (at_ j) (i, j) o ;;;
       let! base' := next_by (at_ j) (Z.of_nat (2 ^ o)) in
       assert_ (2 ^ o <=? len)%nat ;;;
       ret (base', j + 2 ^ o, len - 2 ^ o)%nat
     else ret (at_ j, j, len)) s = Done ((at_ j', j', len'), s') /\
    Built s' (D ++ bs) /\ Tiles bs (at_ j) (at_ j') /\ (j' + len' = j + len)%nat /\ (j <= j')%nat /\
    (len' = 0%nat \/ at_ j' mod order_size (S o) = 0).
Proof.
  intros HB Ho Hjn Ha He HD. unfold MAX_ORDER in Ho. destruct (Nat.eqb_spec len 0) as [Hz|Hz]; cbn [negb andb].
  { exists s, [], j, len. rewrite app_nil_r. split; [done|]. split; [done|]. split; [apply Tiles_nil|]. split; [done|]. split; [lia|by left]. }
  destruct (Nat.eqb_spec o MAX_ORDER) as [Hm|Hm]; [unfold MAX_ORDER in Hm; lia|]. cbn [negb andb].
  destruct (is_aligned_to_order (at_ j) (o + 1)) eqn:Hal; cbn [negb].
  { exists s, [], j, len. rewrite app_nil_r. split; [done|]. split; [done|]. split; [apply Tiles_nil|]. split; [done|]. split; [lia|right].
    replace (S o) with (o + 1)%nat by lia. by apply is_aligned_spec. }
  assert (Hge : (2 ^ o <= len)%nat) by (apply (span_ge (at_ j)); [done|by rewrite <- at_plus|done]).
  assert (Hpos : (0 < 2 ^ o)%nat) by (apply Nat.neq_0_lt_0, Nat.pow_nonzero; lia).
  destruct (append_at s D j o HB) as (s' & Hrun & HB'); [lia|unfold ORDER_COUNT in *; lia|done| |].
  { intros Hin. apply (HD _ Hin). rewrite at_plus. unfold PAGE_SIZE. lia. }
  exists s', [(at_ j, o)], (j + 2 ^ o)%nat, (len - 2 ^ o)%nat.
  assert (Hnext : at_ (j + 2 ^ o) = at_ j + order_size o) by (by rewrite at_plus, pages_size).
  split.
  { rewrite (bind_Done _ _ _ _ _ Hrun), (bind_Done _ _ _ _ _ (at_next j (2 ^ o) s' ltac:(lia))). rewrite assert_step by (by apply Nat.leb_le). done. }
  split; [done|]. rewrite Hnext. split; [apply Tiles_single; [unfold ORDER_COUNT in *; lia|done]|]. split; [lia|]. split; [lia|]. right. by apply align_next.
Qed.

(** The last block of the rest. *)
Lemma last_step s D o j len : Built s D -> (o < MAX_ORDER)%nat -> (j + len <= n)%nat ->
  at_ j mod order_size o = 0 -> at_ (j + len) mod order_size o = 0 -> untouched D (at_ j) (at_ (j + len)) ->
  exists s' bs len',
    (let! end_ := if negb (len =? 0)%nat && negb (o =? MAX_ORDER)%nat then next_by (at_ j) (Z.of_nat len) else ret (at_ j) in
     if negb (len =? 0)%nat && negb (o =? MAX_ORDER)%nat && negb (is_aligned_to_order end_ (o + 1)) then
       assert_ (2 ^ o <=? len)%nat ;;;
       let off := (len - 2 ^ o)%nat in
       let! final_page := next_by (at_ j) (Z.of_nat off) in
       store_append dbg final_page (i, j + off)%nat o ;;;
       ret off
     else ret len) s = Done (len', s') /\
    Built s' (D ++ bs) /\ Tiles bs (at_ (j + len')) (at_ (j + len)) /\ (len' <= len)%nat /\
    (len' = 0%nat \/ at_ (j + len') mod order_size (S o) = 0).
Proof.
  intros HB Ho Hjn Ha He HD. unfold MAX_ORDER in Ho. destruct (Nat.eqb_spec len 0) as [Hz|Hz]; cbn [negb andb].
  { exists s, [], len. rewrite app_nil_r. split; [done|]. split; [done|]. split; [apply Tiles_nil|]. split; [lia|by left]. }
  destruct (Nat.eqb_spec o MAX_ORDER) as [Hm|Hm]; [unfold MAX_ORDER in Hm; lia|]. cbn [negb andb].
  rewrite (bind_Done _ _ _ _ _ (at_next j len s Hjn)).
  destruct (is_aligned_to_order (at_ (j + len)) (o + 1)) eqn:Hal; cbn [negb].
  { exists s, [], len. rewrite app_nil_r. split; [done|]. split; [done|]. split; [apply Tiles_nil|]. split; [lia|right].
    replace (S o) with (o + 1)%nat by lia. by apply is_aligned_spec. }
  assert (Hge : (2 ^ o <= len)%nat) by (apply (span_ge (at_ j)); [done|by rewrite <- at_plus|done]).
  assert (Hpos : (0 < 2 ^ o)%nat) by (apply Nat.neq_0_lt_0, Nat.pow_nonzero; lia).
  assert (Hprev : at_ (j + (len - 2 ^ o)) = at_ (j + len) - order_size o).
  { rewrite <- pages_size. unfold at_. rewrite !Nat2Z.inj_add, Nat2Z.inj_sub by done. lia. }
  assert (Hpa : at_ (j + (len - 2 ^ o)) mod order_size (S o) = 0) by (rewrite Hprev; by apply align_prev).
  destruct (append_at s D (j + (len - 2 ^ o)) o HB) as (s' & Hrun & HB'); [lia|unfold ORDER_COUNT in *; lia|by apply (aligned_down _ (S o)); [lia|]| |].
  { intros Hin. apply (HD _ Hin). rewrite !at_plus. unfold PAGE_SIZE. lia. }
  exists s', [(at_ (j + (len - 2 ^ o)), o)], (len - 2 ^ o)%nat. split.
  { rewrite assert_step by (by apply Nat.leb_le). cbn zeta. rewrite (bind_Done _ _ _ _ _ (at_next j (len - 2 ^ o) s ltac:(lia))).
    by rewrite (bind_Done _ _ _ _ _ Hrun). }
  split; [done|]. split; [|split; [lia|by right]].
  replace (at_ (j + len)) with (at_ (j + (len - 2 ^ o)) + order_size o) by lia.
  apply Tiles_single; [unfold ORDER_COUNT in *; lia|]. by apply (aligned_down _ (S o)); [lia|].
Qed.

Lemma append_max_ok k : forall s D j off, Built s D -> (j + off + k * 2 ^ MAX_ORDER <= n)%nat ->
  at_ (j + off) mod order_size MAX_ORDER = 0 -> untouched D (at_ (j + off)) (at_ (j + off + k * 2 ^ MAX_ORDER)) ->
  exists s' bs, append_max dbg k i (at_ j) j off s = Done (tt, s') /\ Built s' (D ++ bs) /\
    Tiles bs (at_ (j + off)) (at_ (j + off + k * 2 ^ MAX_ORDER)).
Proof.
  induction k as [|k IH]; intros s D j off HB Hn Ha HD.
  { exists s, []. rewrite app_nil_r. replace (j + off + 0 * 2 ^ MAX_ORDER)%nat with (j + off)%nat by lia. split; [done|]. split; [done|apply Tiles_nil]. }
  assert (Hpos : (0 < 2 ^ MAX_ORDER)%nat) by (apply Nat.neq_0_lt_0, Nat.pow_nonzero; lia). set (P := (2 ^ MAX_ORDER)%nat) in *.
  assert (HP : Z.of_nat P * PAGE_SIZE = order_size MAX_ORDER) by apply pages_size.
  assert (Hstep : at_ (j + (off + P)) = at_ (j + off) + order_size MAX_ORDER) by (rewrite <- HP; unfold at_; lia).
  cbn [append_max]. rewrite (bind_Done _ _ _ _ _ (at_next j off s ltac:(lia))).
  destruct (append_at s D (j + off) MAX_ORDER HB) as (s1 & Hrun & HB1); [lia|unfold MAX_ORDER, ORDER_COUNT; lia|done| |].
  { intros Hin. apply (HD _ Hin). rewrite (at_plus (j + off)). unfold PAGE_SIZE. lia. }
  rewrite (bind_Done _ _ _ _ _ Hrun).
  assert (HT1 : Tiles [(at_ (j + off), MAX_ORDER)] (at_ (j + off)) (at_ (j + (off + P)))).
  { rewrite Hstep. apply Tiles_single; [unfold MAX_ORDER, ORDER_COUNT; lia|done]. }
  replace (j + off + S k * P)%nat with (j + (off + P) + k * P)%nat in * by lia.
  destruct (IH s1 (D ++ [(at_ (j + off), MAX_ORDER)]) j (off + P)%nat HB1) as (s2 & bs & Hrun2 & HB2 & HT2); [lia| | |].
  - rewrite Hstep, Zplus_mod, Ha, Z.mod_same by (pose proof (order_size_pos MAX_ORDER); lia). done.
  - eapply untouched_app; [eapply untouched_sub; [exact HD| |lia]|exact HT1|lia]. pose proof (order_size_pos MAX_ORDER). lia.
  - exists s2, ([(at_ (j + off), MAX_ORDER)] ++ bs). fold P in Hrun2. split; [exact Hrun2|]. rewrite app_assoc. split; [done|].
    eapply Tiles_app; [exact HT1|exact HT2|]. rewrite (at_plus _ (k * P)). pose proof (order_size_pos MAX_ORDER). unfold PAGE_SIZE. lia.
Qed.

Lemma div_up_mult a b : 0 < b -> a mod b = 0 -> div_ceil a b = a / b.
Proof.
  intros Hb Ha. apply Z.mod_divide in Ha as [k ->]; [|lia]. unfold div_ceil. rewrite Z.div_mul by lia.
  replace (k * b + b - 1) with (b - 1 + k * b) by lia. rewrite Z.div_add, Z.div_small by lia. lia.
Qed.

(** The loop over the orders tiles what is left of the section. *)
Lemma order_loop_ok m : forall o s D j len, (o + S m = ORDER_COUNT)%nat -> Built s D -> (j + len <= n)%nat ->
  at_ j mod order_size o = 0 -> at_ (j + len) mod order_size o = 0 -> untouched D (at_ j) (at_ (j + len)) ->
  exists s' bs, order_loop dbg (seq o (S m)) i (at_ j) j len s = Done (tt, s') /\ Built s' (D ++ bs) /\
    Tiles bs (at_ j) (at_ (j + len)).
Proof.
  induction m as [|m IH]; intros o s D j len Ho HB Hn Ha He HD.
  - assert (o = MAX_ORDER) as -> by (unfold MAX_ORDER, ORDER_COUNT in *; lia). cbn [seq order_loop].
    assert (Hmod : (len mod 2 ^ MAX_ORDER = 0)%nat) by (apply (span_mult (at_ j)); [done|by rewrite <- at_plus]).
    rewrite dbg_step by (by rewrite Hmod). rewrite dbg_step by (by apply is_aligned_spec). rewrite Nat.eqb_refl.
    destruct (Nat.eqb_spec len 0) as [->|Hz]; cbn [negb andb]; rewrite bind_ret; cbn beta iota; rewrite andb_false_r; cbn [andb]; rewrite !bind_ret.
    { exists s, []. rewrite app_nil_r. split; [done|]. split; [done|]. replace (j + 0)%nat with j by lia. apply Tiles_nil. }
    set (k := Z.to_nat (div_ceil (Z.of_nat len) (Z.of_nat (2 ^ MAX_ORDER)))). assert (Hk : (k * 2 ^ MAX_ORDER = len)%nat).
    { unfold k. assert (Hp : (2 ^ MAX_ORDER <> 0)%nat) by (apply Nat.pow_nonzero; lia).
      rewrite div_up_mult; [|lia|by rewrite <- Nat2Z.inj_mod, Hmod]. rewrite <- Nat2Z.inj_div, Nat2Z.id.
      pose proof (Nat.div_mod len (2 ^ MAX_ORDER) Hp). lia. }
    destruct (append_max_ok k s D j 0 HB) as (s' & bs & Hrun & HB' & HT); rewrite ?Hk, ?Nat.add_0_r in *; try done.
    exists s', bs. split; [|done]. destruct (Nat.eqb_spec len 0); [lia|]. rewrite bind_assoc. rewrite dbg_step by (by rewrite Hmod). rewrite bind_assoc. rewrite dbg_step by (by apply is_aligned_spec).
    by rewrite (bind_Done _ _ _ _ _ Hrun).
  - assert (Hlt : (o < MAX_ORDER)%nat) by (unfold MAX_ORDER, ORDER_COUNT in *; lia).
    change (seq o (S (S m))) with (o :: seq (S o) (S m)). cbn [order_loop].
    assert (Hmod : (len mod 2 ^ o = 0)%nat) by (apply (span_mult (at_ j)); [done|by rewrite <- at_plus]).
    rewrite dbg_step by (by rewrite Hmod). rewrite dbg_step by (by apply is_aligned_spec).
    destruct (first_step s D o j len HB Hlt Hn Ha He HD) as (s1 & b1 & j1 & l1 & R1 & HB1 & T1 & Hjl & Hjj & Hz1).
    rewrite (bind_Done _ _ _ _ _ R1).
    assert (He1 : at_ (j1 + l1) mod order_size o = 0) by (by rewrite Hjl).
    assert (Ha1 : at_ j1 mod order_size o = 0).
    { destruct Hz1 as [Hz1|Hz1]; [by rewrite <- (Nat.add_0_r j1), <- Hz1 at 1|by apply (aligned_down _ (S o)); [lia|]]. }
    assert (Hle1 : at_ j <= at_ j1 <= at_ (j + len)) by (unfold at_, PAGE_SIZE; lia).
    assert (HD1 : untouched (D ++ b1) (at_ j1) (at_ (j1 + l1))).
    { rewrite Hjl. eapply untouched_app; [eapply untouched_sub; [exact HD|lia|lia]|exact T1|lia]. }
    destruct (last_step s1 (D ++ b1) o j1 l1 HB1 Hlt ltac:(lia) Ha1 He1 HD1) as (s2 & b2 & l2 & R2 & HB2 & T2 & Hl2 & Hz2).
    cbn beta iota in R2 |- *. rewrite <- bind_assoc. rewrite (bind_Done _ _ _ _ _ R2).
    assert (Hle2 : at_ j1 <= at_ (j1 + l2) <= at_ (j + len)) by (rewrite <- Hjl; unfold at_, PAGE_SIZE; lia).
    rewrite Hjl in T2. destruct (Nat.eqb_spec l2 0) as [->|Hz].
    { exists s2, (b1 ++ b2). rewrite Nat.add_0_r in *. split; [done|]. rewrite app_assoc. split; [done|]. by eapply Tiles_app. }
    destruct (Nat.eqb_spec o MAX_ORDER) as [|_]; [lia|]. rewrite bind_ret.
    destruct (IH (S o) s2 ((D ++ b1) ++ b2) j1 l2) as (s3 & b3 & R3 & HB3 & T3); [lia|done|lia|by destruct Hz1; [lia|]|by destruct Hz2|..].
    { eapply untouched_app; [eapply untouched_sub; [exact HD1|lia|rewrite Hjl; lia]|exact T2|lia]. }
    exists s3, (b1 ++ b2 ++ b3). split; [exact R3|]. rewrite !app_assoc. split; [done|].
    eapply (Tiles_perm (b1 ++ (b3 ++ b2))); [by rewrite <- app_assoc, (Permutation_app_comm b3)|].
    eapply Tiles_app; [exact T1| |lia]. by eapply Tiles_app.
Qed.
End one_section.

(** ** All sections *)

Definition s_end (s : Section_) : Z := s_base s + Z.of_nat (length (s_frames s)) * PAGE_SIZE.
Definition tiled (s : Section_) (bs : list (Z * nat)) : Prop := Tiles bs (s_base s) (s_end s).

Lemma section_loop_ok secs : forall i s D, Built s D ->
  (forall k sec, secs !! k = Some sec -> section_at (i + k) (s_base sec) (length (s_frames sec)) /\ s_base sec mod PAGE_SIZE = 0) ->
  StronglySorted (fun s s' => s_end s <= s_base s') secs ->
  (forall sec, sec ∈ secs -> untouched D (s_base sec) (s_end sec)) ->
  exists s' bss, section_loop dbg i secs s = Done (tt, s') /\ Built s' (D ++ concat bss) /\ Forall2 tiled secs bss.
Proof.
  induction secs as [|sec secs IH]; intros i s D HB Hat Hsort HD.
  { exists s, []. rewrite app_nil_r. split; [done|]. split; [done|constructor]. }
  cbn [section_loop]. destruct (Hat 0%nat sec eq_refl) as [Hs0 Hal]. rewrite Nat.add_0_r in Hs0.
  inversion Hsort as [|? ? Hsort' Hle]; subst. rewrite Forall_forall in Hle.
  assert (Hat0 : at_ (s_base sec) 0 = s_base sec) by (unfold at_; lia).
  destruct (order_loop_ok i (s_base sec) (length (s_frames sec)) Hs0 MAX_ORDER 0 s D 0 (length (s_frames sec))) as (s1 & bs & R1 & HB1 & T1).
  - reflexivity. - done. - lia.
  - rewrite Hat0. exact Hal.
  - cbn [Nat.add]. unfold at_. change (order_size 0) with PAGE_SIZE. rewrite Z.mod_add by done. exact Hal.
  - rewrite Hat0. apply HD, list_elem_of_here.
  - rewrite Hat0 in R1, T1. cbn [Nat.add] in T1. change (seq 0 ORDER_COUNT) with (seq 0 (S MAX_ORDER)). rewrite (bind_Done _ _ _ _ _ R1).
    destruct (IH (S i) s1 (D ++ bs) HB1) as (s2 & bss & R2 & HB2 & F2); [|done| |].
    + intros k sec' Hk. replace (S i + k)%nat with (i + S k)%nat by lia. by apply Hat.
    + intros sec' Hin. eapply untouched_app; [apply HD; by apply list_elem_of_further|exact T1|]. left.
      pose proof (Hle sec' Hin). unfold at_, s_end in *. lia.
    + exists s2, (bs :: bss). split; [exact R2|]. cbn [concat]. rewrite app_assoc. split; [done|]. by constructor.
Qed.

(** Writing the link that is there already. *)
Lemma sinfo_id st f p : pinfo st f = Some p -> sinfo f p st = st.
Proof.
  unfold pinfo, sinfo. destruct (locate (sections st) f) as [[x y]|]; [|done]. unfold lookup_info. cbn [fst snd]. intros Hp.
  destruct (sections st !! x) as [s|] eqn:Hs; [|done]. destruct st as [secs ao fo uf zf cs]. cbn [sections] in *. unfold set_sections. cbn. f_equal.
  unfold update_info. cbn [fst snd]. apply list_eq. intros k. destruct (decide (k = x)) as [->|Hne].
  - rewrite list_lookup_alter_eq, Hs. cbn. rewrite list_insert_id by done. by destruct s.
  - by rewrite list_lookup_alter_ne.
Qed.

Lemma close_lists_ok s D : Built s D -> forall l o, (forall k x, l !! k = Some x -> (o + k < ORDER_COUNT)%nat /\ x = with_ref (last (fl_of D (o + k)))) ->
  close_lists dbg o l s = Done (tt, s).
Proof.
  intros HB. induction l as [|x l IH]; intros o Hl; [done|]. destruct (Hl 0%nat x eq_refl) as [Ho ->]. rewrite Nat.add_0_r in *.
  assert (Hrest : close_lists dbg (S o) l s = Done (tt, s)).
  { apply IH. intros k y Hy. replace (S o + k)%nat with (o + S k)%nat by lia. by apply Hl. }
  destruct (last (fl_of D o)) as [x|] eqn:Hlast; cbn [with_ref close_lists]; [|exact Hrest].
  destruct (last_info s D o x HB Ho Hlast) as (r & Hr & Hxa & Hxm & Hxp & Hxal & pv & Hxi & Hpv).
  rewrite Hr. cbn [fmap option_fmap option_map close_lists].
  rewrite dbg_step by (by apply is_aligned_spec).
  rewrite (bind_Done _ _ _ _ _ (on_read_run s x r _ (bt_layout _ _ HB) Hr Hxi)).
  rewrite assert_step by (by apply as_free_packed). unfold free_prev. cbn [pi_refcount]. rewrite (p2frame_order_new _ _ Hpv).
  rewrite dbg_step by apply Nat.eqb_refl.
  rewrite (bind_Done _ _ _ _ _ (on_mem_run _ s _ _ (write_info _ _ _ _ _ _ (bt_layout _ _ HB) Hr Hxi
    (set_next_new _ None o (packable_None o Ho) ltac:(done))))).
  cbn [pi_refcount]. rewrite sinfo_id by done. by destruct s.
Qed.

(** ** The invariant *)

Definition tag_of (a : Z) : tag := if a <? abs then TUsed else TFree.
Definition blocks_of (D : list (Z * nat)) : gmap Z (nat * tag) := list_to_map (map (fun b => (b.1, (b.2, tag_of b.1))) D).
Definition used_of (D : list (Z * nat)) : gmap Z nat :=
  omap (fun b => match b.2 with TUsed => Some b.1 | _ => None end) (blocks_of D).

Lemma blocks_of_lookup D a o t : NoDup D.*1 -> blocks_of D !! a = Some (o, t) <-> (a, o) ∈ D /\ t = tag_of a.
Proof.
  intros Hnd. unfold blocks_of. rewrite <- elem_of_list_to_map.
  - rewrite list_elem_of_fmap. split.
    + intros ([b k] & [= -> -> ->] & Hb). done.
    + intros [Hb ->]. by exists (a, o).
  - replace ((map (fun b => (b.1, (b.2, tag_of b.1))) D).*1) with (D.*1); [done|]. change (map ?f ?l) with (f <$> l).
    rewrite <- list_fmap_compose. by apply list_fmap_ext.
Qed.

Lemma used_of_lookup D a o : used_of D !! a = Some o <-> blocks_of D !! a = Some (o, TUsed).
Proof.
  unfold used_of. rewrite lookup_omap. destruct (blocks_of D !! a) as [[k t]|]; cbn; [|done]. destruct t; cbn; naive_solver.
Qed.

Context (sorted1 : sorted_sections (sections st1)) (abs_min : 2 ^ 22 <= abs).

Lemma sections_at k sec : sections st1 !! k = Some sec -> section_at k (s_base sec) (length (s_frames sec)) /\ s_base sec mod PAGE_SIZE = 0.
Proof.
  intros Hk. destruct (wf1 _ _ Hk) as (W1 & W2 & W3). split; [|done]. split; [|done|done]. intros j Hj. by apply locate_complete.
Qed.

Lemma managed_section f : aligned f -> managed st1 f <-> exists sec, sec ∈ sections st1 /\ s_base sec <= f < s_end sec.
Proof.
  intros Hf. split.
  - intros [r Hr]. destruct (locate_addr _ _ _ wf1 Hf Hr) as (sec & Hs & -> & Hlt). exists sec.
    split; [by eapply list_elem_of_lookup_2|]. unfold s_end, PAGE_SIZE. lia.
  - intros (sec & [k Hk]%list_elem_of_lookup & Hin). destruct (sections_at k sec Hk) as [HS Hal].
    assert (Hq : (f - s_base sec) mod PAGE_SIZE = 0) by (rewrite Zminus_mod; unfold aligned in Hf; by rewrite Hf, Hal).
    apply Z.mod_divide in Hq as [q Hq]; [|done].
    assert (Hj : f = s_base sec + Z.of_nat (Z.to_nat q) * PAGE_SIZE /\ (Z.to_nat q < length (s_frames sec))%nat) by (unfold s_end, PAGE_SIZE in *; lia).
    destruct Hj as [-> Hj]. exists (k, Z.to_nat q). by apply (sa_locate _ _ _ HS).
Qed.

Section partition.
Context (bss : list (list (Z * nat))) (HF : Forall2 tiled (sections st1) bss).

Lemma tiled_in a o : (a, o) ∈ concat bss -> exists k sec bs, sections st1 !! k = Some sec /\ bss !! k = Some bs /\ tiled sec bs /\ (a, o) ∈ bs.
Proof.
  intros Ha. apply list_elem_of_In, List.in_concat in Ha as (bs & Hbs%list_elem_of_In & Ha%list_elem_of_In).
  apply list_elem_of_lookup in Hbs as [k Hk]. destruct (Forall2_lookup_r _ _ _ _ _ HF Hk) as (sec & Hs & Ht). by exists k, sec, bs.
Qed.

Lemma blocks_geom : NoDup (concat bss).*1 -> Geom (managed st1) abs (blocks_of (concat bss)).
Proof.
  intros Hnd. pose proof (fun a o t => proj1 (blocks_of_lookup (concat bss) a o t Hnd)) as HB. split.
  - intros a o t [Ha _]%HB. destruct (tiled_in a o Ha) as (k & sec & bs & _ & _ & HT & Hin). by apply (ti_in _ _ _ HT) in Hin as (? & _).
  - intros a o t [Ha _]%HB. destruct (tiled_in a o Ha) as (k & sec & bs & _ & _ & HT & Hin). by apply (ti_in _ _ _ HT) in Hin as (_ & ? & _).
  - intros a o t f [Ha _]%HB Hf Hin. destruct (tiled_in a o Ha) as (k & sec & bs & Hk & _ & HT & Hb). apply (ti_in _ _ _ HT) in Hb as (_ & _ & ? & ?).
    apply managed_section; [done|]. exists sec. split; [by eapply list_elem_of_lookup_2|]. unfold in_block in Hin. lia.
  - intros a o t [_ ->]%HB Ht. unfold tag_of in Ht. destruct (Z.ltb_spec a abs); [done|]. lia.
  - intros a o t b o' t' [Ha _]%HB [Hb _]%HB Hne.
    destruct (tiled_in a o Ha) as (k & sec & bs & Hk & Hbk & HT & Hin), (tiled_in b o' Hb) as (k' & sec' & bs' & Hk' & Hbk' & HT' & Hin').
    pose proof (ti_in _ _ _ HT _ _ Hin) as (_ & _ & ? & ?). pose proof (ti_in _ _ _ HT' _ _ Hin') as (_ & _ & ? & ?).
    destruct (Nat.lt_total k k') as [Hlt|[->|Hlt]].
    + destruct (proj2 sorted1 _ _ _ _ Hlt Hk Hk') as [_ ?]. unfold s_end in *. lia.
    + assert (bs' = bs) as -> by congruence. by apply (ti_sep _ _ _ HT).
    + destruct (proj2 sorted1 _ _ _ _ Hlt Hk' Hk) as [_ ?]. unfold s_end in *. lia.
  - intros f Hf Hm. apply managed_section in Hm as (sec & [k Hk]%list_elem_of_lookup & Hin); [|done].
    destruct (Forall2_lookup_l _ _ _ _ _ HF Hk) as (bs & Hbk & HT). destruct (ti_cover _ _ _ HT f Hin) as (a & o & Ha & Hb).
    exists a, o, (tag_of a). split; [|done]. apply blocks_of_lookup; [done|]. split; [|done].
    apply list_elem_of_In, List.in_concat. exists bs. split; apply list_elem_of_In; [by eapply list_elem_of_lookup_2|done].
Qed.
End partition.

Lemma with_ref_fst s D o : Built s D -> fst <$> with_ref (head (fl_of D o)) = head (fl_of D o).
Proof.
  intros HB. destruct (head (fl_of D o)) as [x|] eqn:Hx; [|done]. cbn [with_ref]. apply head_Some_elem_of in Hx.
  destruct (fl_of_aligned _ _ _ _ HB Hx) as [_ [r ->]]. done.
Qed.

(** What the loops of [init_sections] leave. *)
Lemma lists_heap : exists s U k,
  (section_loop dbg 0 (sections st1) ;;; (fun s => close_lists dbg 0 (last_pages s) s))
    (mkLists st1 (replicate ORDER_COUNT None) (replicate ORDER_COUNT None)) = Done (tt, s) /\
  same_layout st1 (l_mem s) /\
  heap (set_for_orders (map (fmap fst) (first_pages s)) (l_mem s)) U k /\ (forall a o, U !! a = Some o -> a < abs).
Proof.
  assert (H0 : Built (mkLists st1 (replicate ORDER_COUNT None) (replicate ORDER_COUNT None)) []).
  { split; cbn [l_mem first_pages last_pages]; try done.
    - intros o Ho. by apply lookup_replicate_2. - intros o Ho. by apply lookup_replicate_2.
    - by intros a o ?%not_elem_of_nil. - constructor. - by intros a o ?%not_elem_of_nil. }
  destruct (section_loop_ok (sections st1) 0 _ [] H0) as (s & bss & R1 & HB & HF).
  - intros k sec Hk. by apply sections_at.
  - apply strongly_sorted_lookup. intros i j x y Hlt Hi Hj. by apply (proj2 sorted1 i j x y).
  - by intros sec _ a ?%not_elem_of_nil.
  - cbn [app] in HB. set (D := concat bss) in *. exists s, (used_of D), (free_pages (fl_of D)).
    rewrite (bind_Done _ _ _ _ _ R1). rewrite (close_lists_ok s D HB).
    2: { intros k x Hx. cbn [Nat.add]. pose proof (lookup_lt_Some _ _ _ Hx) as Hk. rewrite (proj2 (bt_len _ _ HB)) in Hk. split; [done|].
         rewrite (bt_last _ _ HB k Hk) in Hx. by injection Hx as <-. }
    pose proof (bt_nodup _ _ HB) as Hnd. split; [done|]. split; [apply (bt_layout _ _ HB)|]. split.
    2: { intros a o [_ Ht]%used_of_lookup%blocks_of_lookup; [|done]. unfold tag_of in Ht. destruct (Z.ltb_spec a abs); [done|discriminate]. }
    exists (fl_of D), (blocks_of D). split; [|split; [|split; [apply used_of_lookup|done]]].
    2: { intros a o [_ Ht]%blocks_of_lookup; [|done]. unfold tag_of in Ht. by destruct (a <? abs). }
    pose proof (bt_layout _ _ HB) as HL. split.
    + by apply (sl_wf _ _ HL).
    + apply (Geom_layout st1); [by eapply same_layout_trans; [exact HL|apply same_layout_set_for_orders]|]. by apply blocks_geom.
    + split; cbn [for_orders set_for_orders].
      * rewrite length_map. apply HB.
      * intros o Ho. change (map ?f ?l) with (f <$> l). rewrite list_lookup_fmap, (bt_first _ _ HB o Ho). cbn. by rewrite (with_ref_fst s D o HB).
      * intros o Ho. apply (bt_list _ _ HB o Ho).
      * intros o a. rewrite fl_of_in, blocks_of_lookup by done. unfold tag_of. fold abs. destruct (Z.ltb_spec a abs); naive_solver lia.
      * intros o. by apply fl_of_nodup.
      * intros a o [Ha Ht]%blocks_of_lookup; [|done]. apply (bt_used _ _ HB a o Ha). unfold tag_of in Ht. by destruct (Z.ltb_spec a abs).
Qed.
End append.

(** ** Cutting areas into sections *)

(** Pages of the section that starts at [base] with [pages_left] pages to go. *)
Definition chunk_pages (base pages_left : Z) : Z :=
  Z.min (Z.min pages_left MAX_SECTION_PAGE_COUNT) ((MAX_SECTION_SIZE - base mod MAX_SECTION_SIZE) / PAGE_SIZE).

(** The sections of an area: their bases and numbers of pages. *)
Fixpoint chunks (fuel : nat) (base pages_left : Z) : list (Z * Z) :=
  match fuel with
  | O => []
  | S fuel' =>
      if 0 <? pages_left then
        (base, chunk_pages base pages_left) :: chunks fuel' (base + chunk_pages base pages_left * PAGE_SIZE) (pages_left - chunk_pages base pages_left)
      else []
  end.
Definition area_chunks (a : MemoryArea) : list (Z * Z) := chunks (Z.to_nat (ar_size a / PAGE_SIZE)) (ar_base a) (ar_size a / PAGE_SIZE).

Lemma chunk_pages_range base n : 0 <= base -> base mod PAGE_SIZE = 0 -> 0 < n -> 0 < chunk_pages base n <= n.
Proof.
  intros Hb Ha Hn. unfold chunk_pages, MAX_SECTION_PAGE_COUNT. change MAX_SECTION_SIZE with 134217728. unfold PAGE_SIZE in *.
  assert (134217728 / 4096 = 32768) as -> by reflexivity. Z.div_mod_to_equations. lia.
Qed.

(** The end of a section is the end of the area or a section boundary. *)
Lemma chunk_pages_end base n : 0 <= base -> base mod PAGE_SIZE = 0 -> 0 < n ->
  chunk_pages base n = n \/ base + chunk_pages base n * PAGE_SIZE = (base / MAX_SECTION_SIZE + 1) * MAX_SECTION_SIZE.
Proof.
  intros Hb Ha Hn. unfold chunk_pages, MAX_SECTION_PAGE_COUNT. change MAX_SECTION_SIZE with 134217728. unfold PAGE_SIZE in *.
  assert (134217728 / 4096 = 32768) as -> by reflexivity. Z.div_mod_to_equations. lia.
Qed.

(** Sections between two addresses. *)
Definition blocks_touched (lo hi : Z) : Z := div_ceil hi MAX_SECTION_SIZE - lo / MAX_SECTION_SIZE.

Lemma chunks_count fuel : forall base n, 0 <= base -> base mod PAGE_SIZE = 0 -> 0 <= n ->
  Z.of_nat (length (chunks fuel base n)) <= Z.max 0 (blocks_touched base (base + n * PAGE_SIZE)).
Proof.
  induction fuel as [|fuel IH]; intros base n Hb Ha Hn; cbn [chunks]; [simpl; lia|].
  destruct (Z.ltb_spec 0 n) as [Hp|Hp]; [|simpl; lia]. cbn [length].
  pose proof (chunk_pages_range base n Hb Ha Hp) as Hr. destruct (chunk_pages_end base n Hb Ha Hp) as [He|He].
  - rewrite He. destruct fuel; cbn [chunks]; [|destruct (Z.ltb_spec 0 (n - n)); [lia|]]; cbn [length];
      unfold blocks_touched, div_ceil; change MAX_SECTION_SIZE with 134217728; unfold PAGE_SIZE in *; Z.div_mod_to_equations; lia.
  - set (c := chunk_pages base n) in *.
    assert (Ha' : (base + c * PAGE_SIZE) mod PAGE_SIZE = 0) by (by rewrite Z.mod_add).
    pose proof (IH (base + c * PAGE_SIZE) (n - c) ltac:(unfold PAGE_SIZE in *; lia) Ha' ltac:(lia)) as H.
    replace (base + c * PAGE_SIZE + (n - c) * PAGE_SIZE) with (base + n * PAGE_SIZE) in H by lia.
    assert (Hs : (base + c * PAGE_SIZE) / MAX_SECTION_SIZE = base / MAX_SECTION_SIZE + 1) by (rewrite He; apply Z.div_mul; done).
    unfold blocks_touched in *. rewrite Hs in H.
    assert (Ht : base / MAX_SECTION_SIZE < div_ceil (base + n * PAGE_SIZE) MAX_SECTION_SIZE).
    { unfold div_ceil. change MAX_SECTION_SIZE with 134217728. unfold PAGE_SIZE in *. Z.div_mod_to_equations. lia. }
    lia.
Qed.

Lemma section_count_touched a : section_count a = blocks_touched (ar_base a) (ar_base a + ar_size a).
Proof.
  unfold section_count, blocks_touched. rewrite <- Z.mul_sub_distr_r. apply Z.div_mul. done.
Qed.

Definition chunk_end (c : Z * Z) : Z := c.1 + c.2 * PAGE_SIZE.
Definition chunk_before (c c' : Z * Z) : Prop := chunk_end c <= c'.1.

(** Chunks that lie in order between two addresses and cover what is between. *)
Record Chain (cs : list (Z * Z)) (lo hi : Z) : Prop := {
  ch_in : forall c, c ∈ cs -> lo <= c.1 /\ 0 < c.2 /\ c.1 mod PAGE_SIZE = 0 /\ chunk_end c <= hi;
  ch_sorted : StronglySorted chunk_before cs;
  ch_cover : forall x, lo <= x < hi -> exists c, c ∈ cs /\ c.1 <= x < chunk_end c
}.

Lemma chunks_chain fuel : forall base n, 0 <= base -> base mod PAGE_SIZE = 0 -> 0 <= n -> (Z.to_nat n <= fuel)%nat ->
  Chain (chunks fuel base n) base (base + n * PAGE_SIZE).
Proof.
  induction fuel as [|fuel IH]; intros base n Hb Ha Hn Hf; cbn [chunks].
  { assert (n = 0) as -> by lia. split; [by intros c ?%not_elem_of_nil|constructor|intros; lia]. }
  destruct (Z.ltb_spec 0 n) as [Hp|Hp]; [|assert (n = 0) as -> by lia; split; [by intros c ?%not_elem_of_nil|constructor|intros; lia]].
  pose proof (chunk_pages_range base n Hb Ha Hp) as Hr. set (c := chunk_pages base n) in *.
  assert (Ha' : (base + c * PAGE_SIZE) mod PAGE_SIZE = 0) by (by rewrite Z.mod_add).
  destruct (IH (base + c * PAGE_SIZE) (n - c)) as [C1 C2 C3]; [unfold PAGE_SIZE in *; lia|done|lia|lia|].
  replace (base + c * PAGE_SIZE + (n - c) * PAGE_SIZE) with (base + n * PAGE_SIZE) in * by lia. split.
  - intros c' [->|Hc']%elem_of_cons; [unfold chunk_end; cbn [fst snd]; unfold PAGE_SIZE in *; split; [lia|split; [lia|split; [done|lia]]]|].
    destruct (C1 c' Hc') as (? & ? & ? & ?). unfold PAGE_SIZE in *. split; [lia|done].
  - constructor; [done|]. apply Forall_forall. intros c' Hc'. destruct (C1 c' Hc') as (? & _). exact H.
  - intros x Hx. destruct (decide (x < base + c * PAGE_SIZE)) as [Hd|Hd].
    + exists (base, c). split; [apply list_elem_of_here|]. unfold chunk_end. cbn [fst snd]. lia.
    + destruct (C3 x ltac:(lia)) as (c' & Hc' & Hin). exists c'. split; [by apply list_elem_of_further|done].
Qed.

(** What is asked of the boot allocator. *)
Class BumpLaws {BA : BumpApi} := {
  bump_zeroed : forall n b base b', bump_allocate n b = Some (base, b') ->
    forall i, 0 <= i * PAGE_INFO_BYTES < n * PAGE_SIZE -> bump_read (base + i * PAGE_INFO_BYTES) = mkPageInfo 0 0;
  bump_mono : forall n b base b', bump_allocate n b = Some (base, b') -> abs_offset b <= abs_offset b'
}.

Section build.
Context {BA : BumpApi} {BL : BumpLaws}.

(** The allocator after it has served a list of requests. *)
Fixpoint serve (requests : list Z) (b : Bump) : option Bump :=
  match requests with
  | [] => Some b
  | n :: requests' => match bump_allocate n b with Some (_, b') => serve requests' b' | None => None end
  end.

Lemma serve_app r1 r2 b b' : serve (r1 ++ r2) b = Some b' <-> exists b1, serve r1 b = Some b1 /\ serve r2 b1 = Some b'.
Proof.
  revert b. induction r1 as [|n r1 IH]; intros b; cbn [serve app]; [naive_solver|].
  destruct (bump_allocate n b) as [[x b1]|]; [apply IH|naive_solver].
Qed.

Lemma serve_mono r : forall b b', serve r b = Some b' -> abs_offset b <= abs_offset b'.
Proof.
  induction r as [|n r IH]; intros b b'; cbn [serve]; [intros [= <-]; lia|].
  destruct (bump_allocate n b) as [[x b1]|] eqn:Hb; [|done]. intros H%IH. apply bump_mono in Hb. lia.
Qed.

Definition array_request (c : Z * Z) : Z := div_ceil (c.2 * PAGE_INFO_BYTES) PAGE_SIZE.
Definition section_of (c : Z * Z) : Section_ := mkSection c.1 (replicate (Z.to_nat c.2) (mkPageInfo 0 0)).

Lemma array_infos array c b b1 : 0 <= c -> bump_allocate (div_ceil (c * PAGE_INFO_BYTES) PAGE_SIZE) b = Some (array, b1) ->
  map (fun i => bump_read (array + i * PAGE_INFO_BYTES)) (range c) = replicate (Z.to_nat c) (mkPageInfo 0 0).
Proof.
  intros Hc Hb. apply list_eq. intros k. unfold range. rewrite map_map. change (map ?f ?l) with (f <$> l). rewrite list_lookup_fmap.
  destruct (decide (k < Z.to_nat c)%nat) as [Hk|Hk].
  - rewrite lookup_seq_lt by lia. cbn. rewrite lookup_replicate_2 by done. f_equal. apply (bump_zeroed _ _ _ _ Hb).
    unfold div_ceil, PAGE_INFO_BYTES, PAGE_SIZE. Z.div_mod_to_equations. lia.
  - rewrite lookup_seq_ge by lia. cbn. symmetry. apply lookup_ge_None. rewrite length_replicate. lia.
Qed.

Lemma split_area_ok fuel : forall max base n b b' secs, 0 < base -> base mod PAGE_SIZE = 0 -> 0 <= n -> base + n * PAGE_SIZE <= 2 ^ 63 ->
  serve (array_request <$> chunks fuel base n) b = Some b' ->
  Z.of_nat (length secs) + Z.of_nat (length (chunks fuel base n)) <= max ->
  split_area fuel max base n (mkBuild b secs) = Done (tt, mkBuild b' (secs ++ (section_of <$> chunks fuel base n))).
Proof.
  induction fuel as [|fuel IH]; intros max base n b b' secs Hb Ha Hn He Hs Hmax; cbn [chunks split_area] in *.
  { cbn in *. injection Hs as <-. by rewrite app_nil_r. }
  destruct (Z.ltb_spec 0 n) as [Hp|Hp]; [|cbn in *; injection Hs as <-; by rewrite app_nil_r].
  pose proof (chunk_pages_range base n ltac:(lia) Ha Hp) as Hr. fold (chunk_pages base n). set (c := chunk_pages base n) in *.
  cbn [fmap list_fmap serve] in Hs. unfold array_request at 1 in Hs. cbn [snd] in Hs.
  destruct (bump_allocate (div_ceil (c * PAGE_INFO_BYTES) PAGE_SIZE) b) as [[array b1]|] eqn:Hb1; [|done].
  unfold bind at 1, allocate_pages. cbn [b_alloc b_sections]. rewrite Hb1. rewrite (array_infos array c b b1 ltac:(lia) Hb1).
  rewrite assert_step. 2: { apply forallb_forall. intros p Hp'%list_elem_of_In. apply elem_of_replicate in Hp' as [-> _]. done. }
  cbn [length] in Hmax. unfold bind at 1, push_section. cbn [b_alloc b_sections]. destruct (Z.ltb_spec (Z.of_nat (length secs)) max); [|lia].
  rewrite (bind_Done _ _ _ _ _ (next_by_ok base c _ Hb ltac:(lia) ltac:(unfold PAGE_SIZE in *; lia))).
  change 4096 with PAGE_SIZE. erewrite IH; [|unfold PAGE_SIZE in *; lia|by rewrite Z.mod_add|lia|lia|exact Hs|rewrite length_app; cbn [length]; lia].
  rewrite <- app_assoc. reflexivity.
Qed.

(** The areas [init_sections] is given: whole pages, possibly none. *)
Definition good_area (a : MemoryArea) : Prop :=
  0 < ar_base a /\ ar_base a mod PAGE_SIZE = 0 /\ 0 <= ar_size a /\ ar_size a mod PAGE_SIZE = 0 /\ ar_base a + ar_size a <= 2 ^ 63.
Definition all_chunks (l : list MemoryArea) : list (Z * Z) := concat (map area_chunks l).

Lemma area_pages a : good_area a -> 0 <= ar_size a / PAGE_SIZE /\ ar_base a + ar_size a / PAGE_SIZE * PAGE_SIZE = ar_base a + ar_size a.
Proof. intros (_ & _ & Hs & Hm & _). unfold PAGE_SIZE in *. Z.div_mod_to_equations. lia. Qed.

Lemma area_chunks_count a : good_area a -> Z.of_nat (length (area_chunks a)) <= section_count a.
Proof.
  intros Hg. destruct (area_pages a Hg) as [Hn He]. destruct Hg as (H1 & H2 & H3 & H4 & H5). rewrite section_count_touched.
  pose proof (chunks_count (Z.to_nat (ar_size a / PAGE_SIZE)) (ar_base a) (ar_size a / PAGE_SIZE) ltac:(lia) H2 Hn) as H. fold (area_chunks a) in H. rewrite He in H.
  assert (0 <= blocks_touched (ar_base a) (ar_base a + ar_size a)); [|lia].
  unfold blocks_touched, div_ceil. change MAX_SECTION_SIZE with 134217728. Z.div_mod_to_equations. lia.
Qed.

Lemma area_chunks_chain a : good_area a -> Chain (area_chunks a) (ar_base a) (ar_base a + ar_size a).
Proof.
  intros Hg. destruct (area_pages a Hg) as [Hn He]. rewrite <- He. destruct Hg as (H1 & H2 & _). apply chunks_chain; [lia|done|done|lia].
Qed.

Lemma join_areas_gap a l : StronglySorted gap (a :: l) -> join_areas a l = (a, l).
Proof.
  intros H. destruct l as [|b l]; [done|]. cbn [join_areas]. inversion H as [|? ? _ Hf]; subst. inversion Hf as [|? ? Hg _]; subst.
  unfold gap in Hg. destruct (Z.eqb_spec (ar_base b) (ar_base a + ar_size a)); [lia|done].
Qed.

Lemma max_nonneg l : Forall good_area l -> 0 <= max_section_count l.
Proof. induction 1 as [|a l Ha _ IH]; cbn; [lia|]. pose proof (area_chunks_count a Ha). unfold max_section_count in IH. lia. Qed.

Lemma build_sections_ok fuel : forall l max b b' secs, (length l <= fuel)%nat -> Forall good_area l -> StronglySorted gap l ->
  serve (array_request <$> all_chunks l) b = Some b' -> Z.of_nat (length secs) + max_section_count l <= max ->
  build_sections fuel max l (mkBuild b secs) = Done (tt, mkBuild b' (secs ++ (section_of <$> all_chunks l))).
Proof.
  induction fuel as [|fuel IH]; intros l max b b' secs Hf Hg Hs Hserve Hmax.
  { destruct l; [|cbn in Hf; lia]. cbn in *. injection Hserve as <-. by rewrite app_nil_r. }
  destruct l as [|a l]; [cbn in *; injection Hserve as <-; by rewrite app_nil_r|]. cbn [build_sections].
  inversion Hg as [|? ? Ha Hg']; subst. pose proof (StronglySorted_inv Hs) as [Hs' _]. cbn [length] in Hf.
  unfold all_chunks in Hserve. cbn [map concat] in Hserve. fold (all_chunks l) in Hserve.
  rewrite fmap_app in Hserve. apply serve_app in Hserve as (b1 & Hs1 & Hs2). unfold max_section_count in Hmax. cbn [foldr] in Hmax. fold (max_section_count l) in Hmax.
  pose proof (area_chunks_count a Ha) as Hcount. destruct (area_pages a Ha) as [Hn He]. pose proof Ha as (G1 & G2 & G3 & G4 & G5).
  assert (Hall : all_chunks (a :: l) = area_chunks a ++ all_chunks l) by reflexivity. rewrite Hall, fmap_app.
  destruct (Z.eqb_spec (ar_size a) 0) as [Hz|Hz].
  - assert (Hnil : area_chunks a = []) by (unfold area_chunks; by rewrite Hz). rewrite Hnil in *. cbn [fmap list_fmap serve app length] in *. injection Hs1 as <-.
    apply IH; [lia|done|done|done|]. lia.
  - rewrite (join_areas_gap a l Hs). rewrite assert_step by (by apply Z.eqb_eq). rewrite assert_step by (by apply Z.eqb_eq).
    rewrite (bind_Done _ _ _ _ _ (containing_aligned (ar_base a) _ ltac:(lia) G2)).
    rewrite (bind_Done _ _ _ _ _ (split_area_ok _ max (ar_base a) (ar_size a / PAGE_SIZE) b b1 secs G1 G2 Hn ltac:(lia) Hs1 ltac:(fold (area_chunks a); pose proof (area_chunks_count a Ha); assert (0 <= max_section_count l) by (apply max_nonneg; done); lia))).
    fold (area_chunks a). rewrite app_assoc. apply IH; [lia|done|done|done|]. rewrite length_app, length_fmap. lia.
Qed.

Lemma all_chunks_chain l : Forall good_area l -> StronglySorted gap l ->
  (forall c, c ∈ all_chunks l -> 0 < c.1 /\ 0 < c.2 /\ c.1 mod PAGE_SIZE = 0 /\ chunk_end c <= 2 ^ 63) /\
  StronglySorted chunk_before (all_chunks l) /\
  (forall c, c ∈ all_chunks l -> exists a, a ∈ l /\ ar_base a <= c.1 /\ chunk_end c <= ar_base a + ar_size a) /\
  (forall x, covers l x -> exists c, c ∈ all_chunks l /\ c.1 <= x < chunk_end c).
Proof.
  induction 1 as [|a l Ha Hg IH]; intros Hs.
  { split; [by intros c ?%not_elem_of_nil|]. split; [constructor|]. split; [by intros c ?%not_elem_of_nil|]. intros x Hx. by apply Exists_nil in Hx. }
  apply StronglySorted_inv in Hs as [Hs Hgap]. destruct (IH Hs) as (I1 & I2 & I3 & I4). rewrite Forall_forall in Hgap.
  destruct (area_chunks_chain a Ha) as [C1 C2 C3]. destruct Ha as (G1 & G2 & G3 & G4 & G5).
  assert (Hall : all_chunks (a :: l) = area_chunks a ++ all_chunks l) by reflexivity. rewrite Hall. split; [|split; [|split]].
  - intros c [Hc|Hc]%elem_of_app; [|by apply I1]. destruct (C1 c Hc) as (? & ? & ? & ?). split; [lia|]. split; [done|]. split; [done|lia].
  - apply StronglySorted_app_2; [|done|done]. intros c c' Hc Hc'. destruct (C1 c Hc) as (_ & _ & _ & He).
    destruct (I3 c' Hc') as (a' & Ha' & Hb & _). specialize (Hgap a' Ha'). unfold gap, chunk_before in *. lia.
  - intros c [Hc|Hc]%elem_of_app.
    + exists a. split; [apply list_elem_of_here|]. by destruct (C1 c Hc) as (? & _ & _ & ?).
    + destruct (I3 c Hc) as (a' & Ha' & H). exists a'. split; [by apply list_elem_of_further|done].
  - intros x [Hx|Hx]%covers_cons.
    + destruct (C3 x Hx) as (c & Hc & Hin). exists c. split; [apply elem_of_app; by left|done].
    + destruct (I4 x Hx) as (c & Hc & Hin). exists c. split; [apply elem_of_app; by right|done].
Qed.
End build.

(** ** Marking *)

Definition marked (abs base : Z) (j : nat) (p : PageInfo) : PageInfo :=
  if base + Z.of_nat j * PAGE_SIZE <? abs then mkPageInfo RC_USED_NOT_FREE 0 else p.
Definition mark1 (abs : Z) (s : Section_) : Section_ := mkSection (s_base s) (imap (marked abs (s_base s)) (s_frames s)).

Lemma imap_id {A} (f : nat -> A -> A) l : (forall j x, l !! j = Some x -> f j x = x) -> imap f l = l.
Proof.
  intros H. apply list_eq. intros j. rewrite list_lookup_imap. destruct (l !! j) as [x|] eqn:Hx; cbn; [|done]. f_equal. by apply H.
Qed.

Lemma mark_frames_eq abs base frames : forall off, exists stop,
  mark_frames abs base off frames = (imap (fun j => marked abs base (off + j)) frames, stop) /\
  (stop = true -> exists j, (j < length frames)%nat /\ abs <= base + Z.of_nat (off + j) * PAGE_SIZE).
Proof.
  induction frames as [|p frames IH]; intros off; [by exists false|]. cbn [mark_frames].
  destruct (Z.leb_spec abs (base + Z.of_nat off * PAGE_SIZE)) as [Hle|Hlt].
  - exists true. split; [|intros _; exists 0%nat; rewrite Nat.add_0_r; cbn; split; [lia|done]]. f_equal. symmetry. apply imap_id.
    intros j x _. unfold marked. destruct (Z.ltb_spec (base + Z.of_nat (off + j) * PAGE_SIZE) abs); [unfold PAGE_SIZE in *; lia|done].
  - destruct (IH (S off)) as (stop & -> & Hs). exists stop. split.
    + f_equal. cbn [imap]. unfold marked at 2. rewrite Nat.add_0_r. destruct (Z.ltb_spec (base + Z.of_nat off * PAGE_SIZE) abs); [|lia]. f_equal.
      apply imap_ext. intros j x _. unfold compose. by replace (S off + j)%nat with (off + S j)%nat by lia.
    + intros H. destruct (Hs H) as (j & Hj & Hle). exists (S j). cbn [length]. split; [lia|]. by replace (off + S j)%nat with (S off + j)%nat by lia.
Qed.

Lemma mark_sections_eq abs secs : StronglySorted (fun s s' => s_end s <= s_base s') secs -> mark_sections abs secs = map (mark1 abs) secs.
Proof.
  induction 1 as [|s secs Hs IH Hf]; [done|]. cbn [mark_sections map].
  destruct (mark_frames_eq abs (s_base s) (s_frames s) 0) as (stop & -> & Hstop). cbn [Nat.add] in *. f_equal. destruct stop; [|exact IH].
  destruct (Hstop eq_refl) as (j & Hj & Hle). rewrite Forall_forall in Hf. symmetry. transitivity (map id secs); [|apply map_id].
  apply map_ext_in. intros s' Hs'%list_elem_of_In. specialize (Hf s' Hs'). unfold mark1. destruct s' as [b fr]. cbn [s_base s_frames] in *. unfold id. f_equal.
  apply imap_id. intros k x _. unfold marked. destruct (Z.ltb_spec (b + Z.of_nat k * PAGE_SIZE) abs); [|done]. unfold s_end, PAGE_SIZE in *. lia.
Qed.

Lemma mark1_end abs s : s_base (mark1 abs s) = s_base s /\ length (s_frames (mark1 abs s)) = length (s_frames s) /\ s_end (mark1 abs s) = s_end s.
Proof. unfold mark1, s_end. cbn [s_base s_frames]. by rewrite length_imap. Qed.

(** ** The sections of a list of chunks *)

Lemma section_le_total : Total section_le.
Proof. intros x y. unfold section_le. lia. Qed.
Lemma section_le_trans : Transitive section_le.
Proof. intros x y z H1 H2. unfold section_le in *. lia. Qed.

Section final.
Context (cs : list (Z * Z)) (ab : Z).
Context (cs_in : forall c, c ∈ cs -> 0 < c.1 /\ 0 < c.2 /\ c.1 mod PAGE_SIZE = 0 /\ chunk_end c <= 2 ^ 63).
Context (cs_sorted : StronglySorted chunk_before cs).

Definition raw_sections : list Section_ := section_of <$> cs.
Definition marked_sections : list Section_ := map (mark1 ab) raw_sections.

Lemma section_of_end c : 0 <= c.2 -> s_end (section_of c) = chunk_end c.
Proof. intros H. unfold s_end, section_of, chunk_end. cbn [s_base s_frames]. by rewrite length_replicate, Z2Nat.id. Qed.

Lemma chunks_lt i j c c' : (i < j)%nat -> cs !! i = Some c -> cs !! j = Some c' -> c.1 < c'.1 /\ chunk_end c <= c'.1.
Proof.
  intros Hlt Hi Hj. pose proof (strongly_sorted_inv _ _ _ _ _ _ cs_sorted Hlt Hi Hj) as H.
  destruct (cs_in c ltac:(by eapply list_elem_of_lookup_2)) as (_ & Hp & _). unfold chunk_before, chunk_end, PAGE_SIZE in *. lia.
Qed.

Lemma raw_sorted : StronglySorted (fun s s' => s_end s <= s_base s') raw_sections.
Proof.
  apply strongly_sorted_lookup. intros i j x y Hlt. unfold raw_sections. rewrite !list_lookup_fmap.
  intros (c & Hc & ->)%fmap_Some_1 (c' & Hc' & ->)%fmap_Some_1. destruct (chunks_lt i j c c' Hlt Hc Hc') as [_ H].
  rewrite section_of_end; [done|]. destruct (cs_in c ltac:(by eapply list_elem_of_lookup_2)) as (_ & ? & _). lia.
Qed.

(** The sections are built in order, so sorting them changes nothing. *)
Lemma raw_sort : merge_sort section_le raw_sections = raw_sections.
Proof.
  apply (StronglySorted_unique_strong section_le).
  - intros x y Hx Hy H1 H2. rewrite merge_sort_Permutation in Hx. apply list_elem_of_lookup in Hx as [i Hi], Hy as [j Hj].
    unfold raw_sections in Hi, Hj. rewrite list_lookup_fmap in Hi, Hj.
    destruct (cs !! i) as [c|] eqn:Hc, (cs !! j) as [c'|] eqn:Hc'; simplify_eq/=. unfold section_le in *. cbn [section_of s_base] in *.
    destruct (Nat.lt_total i j) as [Hlt|[->|Hlt]]; [destruct (chunks_lt _ _ _ _ Hlt Hc Hc'); lia|congruence|destruct (chunks_lt _ _ _ _ Hlt Hc' Hc); lia].
  - apply StronglySorted_merge_sort; [exact section_le_trans|exact section_le_total].
  - apply strongly_sorted_lookup. intros i j x y Hlt. unfold raw_sections. rewrite !list_lookup_fmap.
    intros (c & Hc & ->)%fmap_Some_1 (c' & Hc' & ->)%fmap_Some_1. destruct (chunks_lt i j c c' Hlt Hc Hc') as [H _]. unfold section_le. cbn. lia.
  - apply merge_sort_Permutation.
Qed.

Lemma marked_lookup i s : marked_sections !! i = Some s -> exists c, cs !! i = Some c /\ s_base s = c.1 /\ s_end s = chunk_end c /\
  Z.of_nat (length (s_frames s)) = c.2 /\ forall j, (j < length (s_frames s))%nat -> s_frames s !! j = Some (marked ab c.1 j (mkPageInfo 0 0)).
Proof.
  unfold marked_sections, raw_sections. rewrite map_map. change (map ?f ?l) with (f <$> l). rewrite list_lookup_fmap.
  destruct (cs !! i) as [c|] eqn:Hc; cbn; [|done]. intros [= <-]. exists c.
  destruct (cs_in c ltac:(by eapply list_elem_of_lookup_2)) as (_ & Hp & _). split; [done|]. split; [done|].
  destruct (mark1_end ab (section_of c)) as (_ & M2 & M3). split; [rewrite M3; apply section_of_end; lia|].
  split; [rewrite M2; cbn; rewrite length_replicate; lia|]. rewrite M2. cbn [section_of s_frames]. rewrite length_replicate. intros j Hj.
  unfold mark1. cbn [s_base s_frames section_of]. rewrite list_lookup_imap, lookup_replicate_2 by done. done.
Qed.

Lemma marked_wf : sorted_sections marked_sections.
Proof.
  split.
  - intros i s Hs. destruct (marked_lookup i s Hs) as (c & Hc & Hb & He & Hl & _).
    destruct (cs_in c ltac:(by eapply list_elem_of_lookup_2)) as (H1 & H2 & H3 & H4). rewrite Hb. split; [done|]. split; [done|].
    unfold s_end, chunk_end in *. lia.
  - intros i k s s' Hlt Hi Hk. destruct (marked_lookup i s Hi) as (c & Hc & Hb & He & _), (marked_lookup k s' Hk) as (c' & Hc' & Hb' & _).
    destruct (chunks_lt i k c c' Hlt Hc Hc') as [H1 H2]. fold (s_end s). rewrite Hb, Hb', He. done.
Qed.

Lemma marked_infos st f : sections st = marked_sections -> aligned f -> managed st f ->
  pinfo st f = Some (if f <? ab then mkPageInfo RC_USED_NOT_FREE 0 else mkPageInfo 0 0).
Proof.
  intros Hst Hf [r Hr]. rewrite Hst in Hr. destruct (locate_addr _ _ _ (proj1 marked_wf) Hf Hr) as (s & Hs & -> & Hlt).
  unfold pinfo. rewrite Hst, Hr. unfold lookup_info. rewrite Hs. destruct (marked_lookup _ _ Hs) as (c & _ & Hb & _ & _ & Hfr). rewrite (Hfr _ Hlt), Hb. done.
Qed.
End final.

(** The requests [init_sections] makes, in order. *)
Definition sections_requests (l : list MemoryArea) : list Z :=
  div_ceil (max_section_count l * SECTION_BYTES) PAGE_SIZE :: (array_request <$> all_chunks l).

Lemma sections_cover l ab f : Forall good_area l -> StronglySorted gap l ->
  (exists sec, sec ∈ marked_sections (all_chunks l) ab /\ s_base sec <= f < s_end sec) <-> covers l f.
Proof.
  intros Hg Hs. destruct (all_chunks_chain l Hg Hs) as (C1 & C2 & C3 & C4). split.
  - intros (sec & [k Hk]%list_elem_of_lookup & Hin). destruct (marked_lookup _ ab C1 k sec Hk) as (c & Hc & Hb & He & _).
    destruct (C3 c ltac:(by eapply list_elem_of_lookup_2)) as (a & Ha & H1 & H2). apply Exists_exists. exists a. split; [done|]. unfold in_area. lia.
  - intros Hc. destruct (C4 f Hc) as (c & [k Hk]%list_elem_of_lookup & Hin).
    destruct (lookup_lt_is_Some_2 (marked_sections (all_chunks l) ab) k) as [sec Hsec].
    { unfold marked_sections, raw_sections. rewrite length_map, length_fmap. by eapply lookup_lt_Some. }
    destruct (marked_lookup _ ab C1 k sec Hsec) as (c' & Hc' & Hb & He & _). assert (c' = c) as -> by congruence.
    exists sec. split; [by eapply list_elem_of_lookup_2|]. lia.
Qed.

(** C3: [init_sections] establishes the invariant of the frame allocator.
    Given free areas as the boot code finds them, and a boot allocator that has
    used the first 4 MiB and can serve the arrays, it finishes without panicking (none of its assertions
    fails in a debug build either), the allocator manages exactly the pages of
    the areas, all its free blocks are well linked, aligned and disjoint, and
    every page that is not on a free list lies in a block that starts below the
    boot allocator's final offset. *)
Theorem init_sections_heap {BA : BumpApi} {BL : BumpLaws} dbg allocator b' st :
  Forall good_area (free_areas_iter allocator) -> StronglySorted gap (free_areas_iter allocator) ->
  2 ^ 22 <= abs_offset allocator ->
  serve (sections_requests (free_areas_iter allocator)) allocator = Some b' ->
  exists st' U n, init_sections dbg allocator st = Done (b', st') /\ heap st' U n /\
    (forall a o, U !! a = Some o -> a < abs_offset b') /\ abs_off st' = abs_offset b' /\
    (forall f, aligned f -> managed st' f <-> covers (free_areas_iter allocator) f) /\
    contents st' = contents st /\ used_frames st' = used_frames st.
Proof.
  set (l := free_areas_iter allocator). intros Hg Hs Habs Hserve. destruct (all_chunks_chain l Hg Hs) as (C1 & C2 & _).
  pose proof (serve_mono _ _ _ Hserve) as Hmono. unfold sections_requests in Hserve. cbn [serve] in Hserve.
  destruct (bump_allocate (div_ceil (max_section_count l * SECTION_BYTES) PAGE_SIZE) allocator) as [[x b1]|] eqn:Hb1; [|done].
  unfold init_sections. fold l. unfold bind at 1, allocate_pages at 1. cbn [b_alloc b_sections]. rewrite Hb1.
  rewrite (build_sections_ok (length l) l _ b1 b' []) by (done || (cbn [length]; lia)). cbn [b_alloc b_sections app].
  change (section_of <$> all_chunks l) with (raw_sections (all_chunks l)). rewrite (raw_sort _ C1 C2), (mark_sections_eq _ _ (raw_sorted _ C1 C2)).
  fold (marked_sections (all_chunks l) (abs_offset b')).
  set (st1 := mkMemory _ _ _ _ _ _). pose proof (marked_wf _ (abs_offset b') C1 C2) as Hwf.
  destruct (lists_heap dbg st1 (proj1 Hwf)) as (s & U & k & Hrun & HL & Hheap & HU).
  - intros f Hf Hm. by apply (marked_infos (all_chunks l) (abs_offset b') C1 C2).
  - exact Hwf.
  - cbn [abs_off st1]. lia.
  - change (sections st1) with (marked_sections (all_chunks l) (abs_offset b')) in Hrun. rewrite Hrun.
    eexists _, U, k. split; [reflexivity|]. split; [exact Hheap|]. split; [exact HU|]. cbn [abs_off set_for_orders contents used_frames].
    split; [apply (sl_off _ _ HL)|]. split; [|split; [apply (sl_contents _ _ HL)|apply (sl_used _ _ HL)]].
    intros f Hf. rewrite <- (sections_cover l (abs_offset b') f Hg Hs). pose proof (managed_section st1 (proj1 Hwf) Hwf f Hf) as Hms.
    change (sections st1) with (marked_sections (all_chunks l) (abs_offset b')) in Hms. rewrite <- Hms.
    apply (same_layout_managed st1 _ f). eapply same_layout_trans; [exact HL|apply same_layout_set_for_orders].
Qed.

Module InitWitnesses.

(** A boot allocator over one area of five pages at 8 MiB, with a megabyte of
    its own below; it hands out zeroed pages from there. *)
#[local] Instance bump : BumpApi := {|
  Bump := Z;
  free_areas b := ([mkArea (8 * 2 ^ 20) (5 * PAGE_SIZE)], 0);
  abs_offset b := b;
  bump_allocate n b := if b + Z.max 0 n * PAGE_SIZE <=? 8 * 2 ^ 20 then Some (b, b + Z.max 0 n * PAGE_SIZE) else None;
  bump_read _ := mkPageInfo 0 0
|}.

#[local] Instance bump_laws : BumpLaws.
Proof.
  split; [done|]. intros n b base b'. cbn. unfold PAGE_SIZE. intros H. case_match; simplify_eq. lia.
Qed.

Definition empty_memory : Memory := mkMemory [] 0 (replicate ORDER_COUNT None) 0 None ∅.

Definition boot0 : @Bump bump := 7 * 2 ^ 20.
Definition boot1 : @Bump bump := 7 * 2 ^ 20 + 2 * PAGE_SIZE.

Lemma init_sections_heap_witness : exists st' U n,
  init_sections true boot0 empty_memory = Done (boot1, st') /\ heap st' U n /\
    (forall a o, U !! a = Some o -> a < abs_offset boot1) /\ abs_off st' = abs_offset boot1 /\
    (forall f, aligned f -> managed st' f <-> covers (free_areas_iter boot0) f) /\
    contents st' = contents empty_memory /\ used_frames st' = used_frames empty_memory.
Proof.
  apply (init_sections_heap true boot0 boot1 empty_memory).
  - repeat constructor; vm_compute; congruence.
  - repeat constructor.
  - vm_compute. congruence.
  - vm_compute. reflexivity.
Defined.

(** The five pages end up as a block of order 2 and one of order 0. *)
Example init_sections_runs :
  match init_sections true boot0 empty_memory with
  | Done (_, st) => take 3 (for_orders st) = [Some (8 * 2 ^ 20 + 4 * PAGE_SIZE); None; Some (8 * 2 ^ 20)]
  | Panic => False
  end.
Proof. vm_compute. reflexivity. Qed.
End InitWitnesses.
