(* ===== verification/Scheduler.v ===== *)
(** * The scheduler (src/context/switch.rs, src/context/mod.rs)

    The round-robin choice of the next context, the bookkeeping of a switch, and
    the creation of contexts.  A context is identified by the address of its
    lock, which is also its place in the ordered set [CONTEXTS].

    [switch] runs under [CONTEXT_SWITCH_LOCK] from the choice of the next context
    to [switch_finish_hook], so one call is one step of the machine.  The clock
    is read once for every context whose deadline is looked at and once at the
    end; the readings are arguments.  The change of registers and of the page
    table register ([arch::switch_to]) has no effect on this state. *)

From S2P Require Import Prelude PageInfo FrameAllocator Rmm OrdMap Grants CpuSet UserCopy Sync.

(** [cpu_stats::CpuState] *)
Inductive CpuState := CpuIdle | CpuKernel | CpuUser.

(** The counters of [CpuStats] that a switch updates. *)
Record CpuStats := mkStats {
  st_user : Z;
  st_kernel : Z;
  st_idle : Z;
  st_state : CpuState;
  st_context_switches : Z;
}.
Definition set_state (x : CpuState) (s : CpuStats) : CpuStats :=
  mkStats (st_user s) (st_kernel s) (st_idle s) x (st_context_switches s).
Definition add_time (nanos : Z) (s : CpuStats) : CpuStats :=
  match st_state s with
  | CpuIdle => mkStats (st_user s) (st_kernel s) (usize_add (st_idle s) nanos) (st_state s) (st_context_switches s)
  | CpuUser => mkStats (usize_add (st_user s) nanos) (st_kernel s) (st_idle s) (st_state s) (st_context_switches s)
  | CpuKernel => mkStats (st_user s) (usize_add (st_kernel s) nanos) (st_idle s) (st_state s) (st_context_switches s)
  end.
Definition add_context_switch_local (s : CpuStats) : CpuStats :=
  mkStats (st_user s) (st_kernel s) (st_idle s) (st_state s) (usize_add (st_context_switches s) 1).

(** [ContextSwitchPercpu] and the fields of [PercpuBlock] that a switch uses. *)
Record Percpu := mkPercpu {
  current_ctxt : option Z;
  idle_ctxt : option Z;
  pit_ticks : Z;
  percpu_switch_time : Z;
  percpu_inside_syscall : bool;
  percpu_being_sigkilled : bool;
  stats : CpuStats;
}.

Definition percpu_default : Percpu := mkPercpu None None 0 0 false false (mkStats 0 0 0 CpuIdle 0).

(** [contexts] is the set [CONTEXTS] in the order of addresses. *)
Record Machine := mkMachine {
  m_sched : Sched;
  contexts : list (Z * unit);
  percpus : gmap Z Percpu;
}.

Definition on_sched {A} (m : M Sched A) : M Machine A :=
  fun s => match m (m_sched s) with
           | Done (a, x) => Done (a, mkMachine x (contexts s) (percpus s))
           | Panic => Panic
           end.

(** [PercpuBlock::current()] *)
Definition percpu : M Machine Percpu := fun s => unwrap (percpus s !! this_cpu (m_sched s)) s.
Definition set_percpu (p : Percpu) : M Machine unit :=
  modify (fun s => mkMachine (m_sched s) (contexts s) (<[this_cpu (m_sched s) := p]> (percpus s))).
Definition set_contexts (l : list (Z * unit)) : M Machine unit :=
  modify (fun s => mkMachine (m_sched s) l (percpus s)).

(** [context::current()] *)
Definition current : M Machine Z :=
  let! p := percpu in unwrap (current_ctxt p).

(** ** Choosing the next context *)

Inductive UpdateResult := CanSwitch | Skip.

Definition affinity_contains (c : Ctx) : M Sched bool :=
  fun s => match cpu_contains (this_cpu s) (sched_affinity c) with
           | Done (b, _) => Done (b, s)
           | Panic => Panic
           end.

(** [now] is what [time::monotonic()] returns, if it is asked. *)
Definition update_runnable (now : Z) (cid : Z) : M Sched UpdateResult :=
  let! c := the_ctx cid in
  if running c then ret Skip
  else
    let! mine := affinity_contains c in
    if negb mine then ret Skip
    else
      (if is_soft_blocked (status c) then
         match wake c with
         | Some w => if w <=? now then update_ctx cid (set_wake None) ;;; unblock_no_ipi cid ;;; ret tt else ret tt
         | None => ret tt
         end
       else ret tt) ;;;
      let! c := the_ctx cid in
      ret (if is_runnable (status c) then CanSwitch else Skip).

Fixpoint find_next (clock : Z -> Z) (idle_context : Z) (skip_idle : bool) (l : list Z) : M Sched (option Z) :=
  match l with
  | [] => ret None
  | next :: l' =>
      if (next =? idle_context) && skip_idle then find_next clock idle_context false l'
      else
        let! r := update_runnable (clock next) next in
        match r with
        | CanSwitch => ret (Some next)
        | Skip => find_next clock idle_context skip_idle l'
        end
  end.

(** Addresses above the current one, then those below, then the idle context. *)
Definition candidates (l : list (Z * unit)) (prev idle_context : Z) : list Z :=
  map fst (from (prev + 1) l) ++ map fst (below prev l) ++ [idle_context].

(** ** Switching *)

Inductive SwitchResult := Switched | AllContextsIdle.

(** [self.switch_time.saturating_sub(t)] on [u128] *)
Definition elapsed (now since : Z) : Z := Z.max (now - since) 0.

Definition leave_ctx (switch_time_ : Z) (insys : bool) (c : Ctx) : Ctx :=
  mkCtx (status c) (status_reason c) false (cpu_id c) (switch_time c) (cpu_time c + elapsed switch_time_ (switch_time c))
        (sched_affinity c) insys (wake c) (userspace c) (being_sigkilled c) (preempt_locks c) (sig_pending c).
Definition enter_ctx (switch_time_ cpu : Z) (c : Ctx) : Ctx :=
  mkCtx (status c) (status_reason c) true (Some cpu) switch_time_ (cpu_time c)
        (sched_affinity c) (inside_syscall c) (wake c) (userspace c) (being_sigkilled c) (preempt_locks c) (sig_pending c).

(** [is_preemptable] *)
Definition is_preemptable (c : Ctx) : bool := preempt_locks c =? 0.

Definition switch (clock : Z -> Z) (now : Z) : M Machine SwitchResult :=
  let! p := percpu in
  set_percpu (mkPercpu (current_ctxt p) (idle_ctxt p) 0 (percpu_switch_time p) (percpu_inside_syscall p)
                       (percpu_being_sigkilled p) (add_context_switch_local (stats p))) ;;;
  let! s := get_state in
  let! prev := current in
  let! prev_context := on_sched (the_ctx prev) in
  if negb (is_preemptable prev_context) then ret AllContextsIdle
  else
    let! idle_context := unwrap (idle_ctxt p) in
    let! next_opt := on_sched (find_next clock idle_context true (candidates (contexts s) prev idle_context)) in
    let percpu_ms := elapsed now (percpu_switch_time p) mod 2 ^ 64 / 1000000 in
    let! p := percpu in
    let p1 := mkPercpu (current_ctxt p) (idle_ctxt p) (pit_ticks p) now (percpu_inside_syscall p)
                       (percpu_being_sigkilled p) (add_time percpu_ms (stats p)) in
    match next_opt with
    | Some next =>
        on_sched (update_ctx prev (leave_ctx now (percpu_inside_syscall p))) ;;;
        on_sched (fun x => update_ctx next (enter_ctx now (this_cpu x)) x) ;;;
        let! next_context := on_sched (the_ctx next) in
        set_percpu (mkPercpu (Some next) (idle_ctxt p1) (pit_ticks p1) (percpu_switch_time p1) (inside_syscall next_context)
                             (being_sigkilled next_context)
                             (set_state (if userspace next_context then CpuUser else CpuKernel) (stats p1))) ;;;
        ret Switched
    | None =>
        set_percpu (mkPercpu (current_ctxt p1) (idle_ctxt p1) (pit_ticks p1) (percpu_switch_time p1) (percpu_inside_syscall p1)
                             (percpu_being_sigkilled p1) (set_state CpuIdle (stats p1))) ;;;
        ret AllContextsIdle
    end.

(** ** Creating contexts *)

(** [context::init] on this CPU, the context at address [id]. *)
Definition init (id : Z) : M Machine unit :=
  let! cpu := gets (fun s => this_cpu (m_sched s)) in
  fun s =>
    match atomic_set cpu cpu_empty with
    | Panic => Panic
    | Done (_, affinity) =>
        let context := mkCtx Runnable ""%string true (Some cpu) 0 0 affinity false None false false 0 false in
        (on_sched (modify (set_ctx id context)) ;;;
         set_contexts (om_insert id tt (contexts s)) ;;;
         let! p := percpu in
         set_percpu (mkPercpu (Some id) (Some id) (pit_ticks p) (percpu_switch_time p) (percpu_inside_syscall p)
                              (percpu_being_sigkilled p) (stats p))) s
    end.

Definition set_userspace (b : bool) (c : Ctx) : Ctx :=
  mkCtx (status c) (status_reason c) (running c) (cpu_id c) (switch_time c) (cpu_time c) (sched_affinity c) (inside_syscall c)
        (wake c) b (being_sigkilled c) (preempt_locks c) (sig_pending c).

(** [context::spawn]: the arguments say whether the kernel stack, the new
    context and its address space could be allocated. *)
Definition spawn (stack_ok context_ok addr_space_ok : bool) (id : Z) (userspace_allowed : bool) : M Machine (result Error Z) :=
  if negb stack_ok then err ENOMEM
  else if negb context_ok then err ENOMEM
  else
    on_sched (modify (set_ctx id new_ctx)) ;;;
    let! s := get_state in
    set_contexts (om_insert id tt (contexts s)) ;;;
    if negb addr_space_ok then err ENOMEM
    else
      on_sched (update_ctx id (set_userspace userspace_allowed)) ;;;
      ok id.

Definition set_preempt (f : Z -> Z) (c : Ctx) : Ctx :=
  mkCtx (status c) (status_reason c) (running c) (cpu_id c) (switch_time c) (cpu_time c) (sched_affinity c) (inside_syscall c)
        (wake c) (userspace c) (being_sigkilled c) (f (preempt_locks c)) (sig_pending c).
(** [PreemptGuard::new] and its [drop] *)
Definition preempt_enter (cid : Z) : M Sched unit := update_ctx cid (set_preempt (fun n => usize_add n 1)).
Definition preempt_leave (cid : Z) : M Sched unit := update_ctx cid (set_preempt (fun n => usize_sub n 1)).

(** The end of [exit_this_context]: the context is dead, leaves the set of
    contexts and gives up the CPU for good ([unreachable!()] follows). *)
Definition exit_tail (clock : Z -> Z) (now : Z) : M Machine unit :=
  let! cid := current in
  on_sched (update_ctx cid (fun c => set_status Dead (status_reason c) c)) ;;;
  let! s := get_state in
  set_contexts (om_delete cid (contexts s)) ;;;
  let! r := switch clock now in
  match r with Switched => ret tt | AllContextsIdle => panic end.
