(* ===== verification/SchedulerSpec.v ===== *)
(** * Properties of the scheduler

    What one call of [switch] does, that no context ever runs on two CPUs, and
    that a context which stays eligible is not passed over for long. *)

From S2P Require Import Prelude PageInfo FrameAllocator Rmm OrdMap Grants CpuSet UserCopy Sync SyncSpec Scheduler.
From stdpp Require Import sorting.
#[local] Open Scope Z_scope.

(** ** What makes a context eligible *)

Definition mine (cpu : Z) (c : Ctx) : bool :=
  match cpu_contains cpu (sched_affinity c) with Done (b, _) => b | Panic => false end.
(** It sleeps and its deadline has passed. *)
Definition expired (now : Z) (c : Ctx) : bool :=
  is_soft_blocked (status c) && match wake c with Some w => w <=? now | None => false end.
Definition eligible (cpu now : Z) (c : Ctx) : bool :=
  negb (running c) && mine cpu c && (is_runnable (status c) || expired now c).
(** The context as it is when it is switched to. *)
Definition awake (now : Z) (c : Ctx) : Ctx :=
  if expired now c then set_status Runnable ""%string (set_wake None c) else c.

Definition affinity_ok (s : Sched) : Prop :=
  0 <= this_cpu s < MAX_CPU_COUNT /\ forall cid c, ctxs s !! cid = Some c -> cpu_wf (sched_affinity c).

Lemma cpu_contains_ok cpu s : 0 <= cpu < MAX_CPU_COUNT -> cpu_wf s -> exists b, cpu_contains cpu s = Done (b, s).
Proof.
  intros Hc Hw. destruct (parts_range cpu Hc) as (Hi & _ & _). destruct (wf_word _ _ Hw Hi) as (w & Hs & _).
  unfold cpu_contains, cpu_word, bind, get_state, unwrap. destruct (parts cpu) as [i b]. cbn in *. rewrite Hs. by eexists.
Qed.

Lemma affinity_contains_run s cid c : affinity_ok s -> ctxs s !! cid = Some c ->
  affinity_contains c s = Done (mine (this_cpu s) c, s).
Proof.
  intros [Hcpu Ha] Hc. unfold affinity_contains, mine.
  destruct (cpu_contains_ok _ _ Hcpu (Ha _ _ Hc)) as [b ->]. done.
Qed.

Lemma update_runnable_run now cid c s : affinity_ok s -> ctxs s !! cid = Some c ->
  update_runnable now cid s =
  Done (if eligible (this_cpu s) now c then (CanSwitch, set_ctx cid (awake now c) s) else (Skip, s)).
Proof.
  intros Ha Hc. unfold update_runnable, eligible. rewrite (bind_Done _ _ _ _ _ (the_ctx_run _ _ _ Hc)).
  destruct (running c); [done|]. rewrite (bind_Done _ _ _ _ _ (affinity_contains_run _ _ _ Ha Hc)).
  destruct (mine (this_cpu s) c); [|done]. cbn [negb andb]. unfold awake, expired.
  assert (Hrest : forall R, (ret tt ;;; let! c := the_ctx cid in ret (if is_runnable (status c) then CanSwitch else Skip)) s = R <->
    Done (if is_runnable (status c) then CanSwitch else Skip, s) = R).
  { intros R. rewrite bind_ret, (bind_Done _ _ _ _ _ (the_ctx_run _ _ _ Hc)). done. }
  destruct (status c) eqn:Hst; cbn [is_soft_blocked is_runnable andb orb].
  2: destruct (wake c) as [w|]; [destruct (w <=? now)|].
  2: { rewrite bind_assoc, (bind_Done _ _ _ _ _ (update_ctx_run _ _ _ _ Hc)), bind_assoc.
       unfold unblock_no_ipi, bind, ret. cbn [ctxs set_ctx set_wake status]. rewrite lookup_insert_eq. cbn [set_wake status].
       rewrite Hst. cbn [is_soft_blocked]. unfold the_ctx. cbn [ctxs set_ctx]. rewrite lookup_insert_eq. cbn.
       rewrite set_ctx_twice. done. }
  all: apply Hrest; try rewrite set_ctx_same by done; done.
Qed.

(** ** The choice, as a function *)

(** The round-robin order from [prev] on. *)
Definition rr_order (l : list (Z * unit)) (prev : Z) : list Z :=
  map fst (from (prev + 1) l) ++ map fst (below prev l).

(** The first eligible context that is not the idle one; else the idle one. *)
Definition choice (elig : Z -> bool) (idle : Z) (order : list Z) : option Z :=
  match List.find elig (List.filter (fun x => negb (x =? idle)) order) with
  | Some x => Some x
  | None => if bool_decide (idle ∈ order) && elig idle then Some idle else None
  end.

Fixpoint pick (elig : Z -> bool) (idle : Z) (skip : bool) (l : list Z) : option Z :=
  match l with
  | [] => None
  | x :: l' => if (x =? idle) && skip then pick elig idle false l'
               else if elig x then Some x else pick elig idle skip l'
  end.

Lemma pick_false elig idle l : pick elig idle false l = List.find elig l.
Proof. induction l as [|x l IH]; cbn; [done|]. by rewrite andb_false_r, IH. Qed.

Lemma pick_true elig idle l : NoDup l -> pick elig idle true (l ++ [idle]) = choice elig idle l.
Proof.
  unfold choice. induction 1 as [|x l Hx Hl IH]; cbn [app pick List.filter List.find].
  - rewrite Z.eqb_refl. cbn. by rewrite bool_decide_eq_false_2 by apply not_elem_of_nil.
  - rewrite andb_true_r. destruct (Z.eqb_spec x idle) as [->|Hne]; cbn [negb].
    + rewrite pick_false. rewrite bool_decide_eq_true_2 by apply list_elem_of_here.
      assert (Hf : List.filter (fun y => negb (y =? idle)) l = l).
      { clear IH Hl. induction l as [|y l IH]; cbn; [done|]. apply not_elem_of_cons in Hx as [Hy Hx].
        destruct (Z.eqb_spec y idle); [congruence|]. cbn. by rewrite IH. }
      rewrite Hf. clear. induction l as [|y l IH]; cbn; [by destruct (elig idle)|]. by destruct (elig y).
    + cbn [List.find]. destruct (elig x); [done|]. rewrite IH.
      destruct (List.find _ _); [done|].
      rewrite (bool_decide_ext (idle ∈ x :: l) (idle ∈ l)); [done|]. rewrite elem_of_cons. naive_solver.
Qed.

(** Eligibility of a context by its address. *)
Definition elig (s : Sched) (clock : Z -> Z) (cid : Z) : bool :=
  match ctxs s !! cid with Some c => eligible (this_cpu s) (clock cid) c | None => false end.

Lemma find_next_run clock idle skip l s : affinity_ok s -> Forall (fun cid => is_Some (ctxs s !! cid)) l ->
  find_next clock idle skip l s =
  Done (match pick (elig s clock) idle skip l with
        | Some x => (Some x, match ctxs s !! x with Some c => set_ctx x (awake (clock x) c) s | None => s end)
        | None => (None, s)
        end).
Proof.
  intros Ha Hl. revert skip. induction Hl as [|x l [c Hc] Hl IH]; intros skip; cbn [find_next pick]; [done|].
  destruct ((x =? idle) && skip); [apply IH|]. unfold bind. rewrite (update_runnable_run _ _ _ _ Ha Hc).
  unfold elig at 1. rewrite Hc. destruct (eligible _ _ c); [by rewrite Hc|apply IH].
Qed.

(** ** One switch *)

Lemma from_elem {V} k (m : list (Z * V)) e : sorted m -> e ∈ from k m <-> e ∈ m /\ k <= e.1.
Proof.
  intros Hs. destruct (sorted_split k m Hs) as (E & Hl & Hg). rewrite E at 2. rewrite elem_of_app. split.
  - intros He. split; [by right|]. by eapply keys_ge_elem.
  - intros [[He|He] Hk]; [|done]. pose proof (keys_lt_elem _ _ _ Hl He). lia.
Qed.
Lemma below_elem {V} k (m : list (Z * V)) e : sorted m -> e ∈ below k m <-> e ∈ m /\ e.1 < k.
Proof.
  intros Hs. destruct (sorted_split k m Hs) as (E & Hl & Hg). rewrite E at 2. rewrite elem_of_app. split.
  - intros He. split; [by left|]. by eapply keys_lt_elem.
  - intros [[He|He] Hk]; [done|]. pose proof (keys_ge_elem _ _ _ Hg He). lia.
Qed.

Lemma rr_order_elem l prev x : sorted l -> x ∈ rr_order l prev <-> (x, tt) ∈ l /\ x <> prev.
Proof.
  intros Hs. unfold rr_order. rewrite elem_of_app, !list_elem_of_fmap. split.
  - intros [([y []] & -> & He)|([y []] & -> & He)]; cbn.
    + apply (from_elem _ _ _ Hs) in He as [? ?]. split; [done|]. cbn in *. lia.
    + apply (below_elem _ _ _ Hs) in He as [? ?]. split; [done|]. cbn in *. lia.
  - intros [Hx Hne]. destruct (Z.lt_trichotomy x prev) as [Hlt|[?|Hgt]]; [|done|].
    + right. exists (x, tt). split; [done|]. by apply below_elem.
    + left. exists (x, tt). split; [done|]. apply from_elem; [done|]. split; [done|]. cbn. lia.
Qed.

(** [x] comes before [y] in the cyclic order that starts after [prev]. *)
Definition in_arc (prev y x : Z) : bool :=
  if prev <? y then (prev <? x) && (x <? y) else (prev <? x) || (x <? y).

Lemma sorted_strong {V} (m : list (Z * V)) : sorted m -> StronglySorted Z.lt (map fst m).
Proof.
  induction m as [|e m IH]; cbn; [constructor|]. intros [Hge Hs]. constructor; [by apply IH|].
  apply Forall_map. eapply Forall_impl; [exact Hge|]. cbn. intros; lia.
Qed.

Lemma sorted_parts k {V} (m : list (Z * V)) : sorted m -> sorted (below k m) /\ sorted (from k m).
Proof. intros Hs. destruct (sorted_split k m Hs) as (E & _ & _). rewrite E in Hs. by apply sorted_app in Hs as (? & ? & _). Qed.

Lemma StronglySorted_weaken {A} (R S : A -> A -> Prop) l :
  (forall x y, x ∈ l -> y ∈ l -> R x y -> S x y) -> StronglySorted R l -> StronglySorted S l.
Proof.
  intros HRS. induction 1 as [|x l Hl IH Hx]; constructor.
  - apply IH. intros y z Hy Hz. apply HRS; by apply list_elem_of_further.
  - apply Forall_forall. intros y Hy. rewrite Forall_forall in Hx.
    apply HRS; [apply list_elem_of_here|by apply list_elem_of_further|by apply Hx].
Qed.

Lemma rr_order_sorted l prev : sorted l -> StronglySorted (fun x y => in_arc prev y x = true) (rr_order l prev).
Proof.
  intros Hs. unfold rr_order. apply StronglySorted_app. split_and!.
  - intros x y [[x' []] [-> Hx]]%list_elem_of_fmap [[y' []] [-> Hy]]%list_elem_of_fmap.
    apply (from_elem _ _ _ Hs) in Hx as [_ Hx]. apply (below_elem _ _ _ Hs) in Hy as [_ Hy]. cbn in *. unfold in_arc.
    destruct (Z.ltb_spec prev y'); [lia|]. destruct (Z.ltb_spec prev x'); [done|lia].
  - apply (StronglySorted_weaken Z.lt); [|apply sorted_strong, (sorted_parts (prev + 1) l Hs)].
    intros x y [[x' []] [-> Hx]]%list_elem_of_fmap [[y' []] [-> Hy]]%list_elem_of_fmap Hlt.
    apply (from_elem _ _ _ Hs) in Hx as [_ Hx], Hy as [_ Hy]. cbn in *. unfold in_arc.
    destruct (Z.ltb_spec prev y'); [|lia]. apply andb_true_iff. split; apply Z.ltb_lt; lia.
  - apply (StronglySorted_weaken Z.lt); [|apply sorted_strong, (sorted_parts prev l Hs)].
    intros x y [[x' []] [-> Hx]]%list_elem_of_fmap [[y' []] [-> Hy]]%list_elem_of_fmap Hlt.
    apply (below_elem _ _ _ Hs) in Hx as [_ Hx], Hy as [_ Hy]. cbn in *. unfold in_arc.
    destruct (Z.ltb_spec prev y'); [lia|]. apply orb_true_iff. right. apply Z.ltb_lt. lia.
Qed.

Lemma rr_order_NoDup l prev : sorted l -> NoDup (rr_order l prev).
Proof.
  intros Hs. pose proof (rr_order_sorted l prev Hs) as H.
  assert (Hne : forall x, x ∈ rr_order l prev -> x <> prev) by (intros x Hx; by apply rr_order_elem in Hx as [_ ?]).
  induction H as [|x m Hm IH Hx]; constructor.
  - intros Hin. rewrite Forall_forall in Hx. specialize (Hx _ Hin). unfold in_arc in Hx.
    specialize (Hne x (list_elem_of_here _ _)). destruct (Z.ltb_spec prev x); lia.
  - apply IH. intros y Hy. by apply Hne, list_elem_of_further.
Qed.

(** This CPU has been initialised, runs [prev] and idles in [idle]. *)
Record cpu_ready (m : Machine) (prev idle : Z) : Prop := {
  cr_percpu : exists p, percpus m !! this_cpu (m_sched m) = Some p /\ current_ctxt p = Some prev /\ idle_ctxt p = Some idle;
  cr_prev : exists pc, ctxs (m_sched m) !! prev = Some pc /\ running pc = true;
  cr_idle : is_Some (ctxs (m_sched m) !! idle);
  cr_known : forall cid, (cid, tt) ∈ contexts m -> is_Some (ctxs (m_sched m) !! cid);
  cr_sorted : sorted (contexts m);
  cr_affinity : affinity_ok (m_sched m)
}.

(** The context [switch] is to choose. *)
Definition next_context (m : Machine) (clock : Z -> Z) (prev idle : Z) : option Z :=
  choice (elig (m_sched m) clock) idle (rr_order (contexts m) prev).

Definition current_of (m : Machine) (cpu : Z) : option Z :=
  match percpus m !! cpu with Some p => current_ctxt p | None => None end.

(** The machine after a switch from [prev] to [next]. *)
Record switched (m m' : Machine) (prev next : Z) (clock : Z -> Z) (now : Z) : Prop := {
  sw_ctxs : exists pc nc insys, ctxs (m_sched m) !! prev = Some pc /\ ctxs (m_sched m) !! next = Some nc /\
    ctxs (m_sched m') = <[next := enter_ctx now (this_cpu (m_sched m)) (awake (clock next) nc)]>
                          (<[prev := leave_ctx now insys pc]> (ctxs (m_sched m)));
  sw_cpu : this_cpu (m_sched m') = this_cpu (m_sched m);
  sw_contexts : contexts m' = contexts m;
  sw_current : current_of m' (this_cpu (m_sched m)) = Some next;
  sw_others : forall cpu, cpu <> this_cpu (m_sched m) -> percpus m' !! cpu = percpus m !! cpu;
  sw_idle : forall p, percpus m !! this_cpu (m_sched m) = Some p ->
    exists p', percpus m' !! this_cpu (m_sched m) = Some p' /\ idle_ctxt p' = idle_ctxt p
}.

(** The machine after a call of [switch] that found nothing to do. *)
Record unswitched (m m' : Machine) : Prop := {
  un_sched : m_sched m' = m_sched m;
  un_contexts : contexts m' = contexts m;
  un_current : forall cpu, current_of m' cpu = current_of m cpu;
  un_percpus : forall cpu, cpu <> this_cpu (m_sched m) -> percpus m' !! cpu = percpus m !! cpu;
  un_idle : forall p, percpus m !! this_cpu (m_sched m) = Some p ->
    exists p', percpus m' !! this_cpu (m_sched m) = Some p' /\ idle_ctxt p' = idle_ctxt p /\ current_ctxt p' = current_ctxt p
}.

Lemma find_elem {A} (f : A -> bool) l x : List.find f l = Some x -> x ∈ l /\ f x = true.
Proof. intros H. apply List.find_some in H as [H ?]. by apply list_elem_of_In in H. Qed.

Lemma choice_elem f idle l x : choice f idle l = Some x -> x ∈ l /\ f x = true.
Proof.
  unfold choice. destruct (List.find _ _) as [y|] eqn:Hf.
  - intros [= <-]. apply find_elem in Hf as [Hf ?]. split; [|done].
    apply list_elem_of_In, List.filter_In in Hf as [Hf _]. by apply list_elem_of_In.
  - destruct (bool_decide (idle ∈ l)) eqn:Hb; [|done]. cbn. destruct (f idle) eqn:?; [|done]. intros [= <-].
    by apply bool_decide_eq_true in Hb.
Qed.

Lemma percpu_run m p : percpus m !! this_cpu (m_sched m) = Some p -> percpu m = Done (p, m).
Proof. intros H. unfold percpu. by rewrite H. Qed.

Lemma candidates_known m prev idle : cpu_ready m prev idle ->
  Forall (fun cid => is_Some (ctxs (m_sched m) !! cid)) (candidates (contexts m) prev idle).
Proof.
  intros [_ _ Hi Hk Hs _]. apply Forall_forall. intros x. unfold candidates. rewrite app_assoc, elem_of_app.
  intros [Hx| ->%list_elem_of_singleton]; [|done]. apply Hk. by apply (rr_order_elem _ _ _ Hs) in Hx as [? _].
Qed.

Lemma choose_run m prev idle clock : cpu_ready m prev idle ->
  find_next clock idle true (candidates (contexts m) prev idle) (m_sched m) =
  Done (match next_context m clock prev idle with
        | Some x => (Some x, match ctxs (m_sched m) !! x with Some c => set_ctx x (awake (clock x) c) (m_sched m) | None => m_sched m end)
        | None => (None, m_sched m)
        end).
Proof.
  intros H. rewrite (find_next_run _ _ _ _ _ (cr_affinity _ _ _ H) (candidates_known _ _ _ H)). unfold candidates.
  rewrite app_assoc, pick_true; [done|]. apply (rr_order_NoDup _ _ (cr_sorted _ _ _ H)).
Qed.

(** What a call of [switch] does: it gives the CPU to the first eligible context
    in the round-robin order. *)
Lemma switch_run m prev idle clock now pc : cpu_ready m prev idle -> ctxs (m_sched m) !! prev = Some pc ->
  exists r m', switch clock now m = Done (r, m') /\
  match (if is_preemptable pc then next_context m clock prev idle else None) with
  | Some next => r = Switched /\ switched m m' prev next clock now
  | None => r = AllContextsIdle /\ unswitched m m'
  end.
Proof.
  intros H Hpc. pose proof H as [(p & Hp & Hcur & Hidle) _ _ _ Hs _]. unfold switch.
  rewrite (bind_Done _ _ _ _ _ (percpu_run _ _ Hp)). unfold set_percpu at 1. unfold bind at 1. cbn [modify].
  set (p0 := mkPercpu _ _ _ _ _ _ _). set (m1 := mkMachine _ _ _).
  assert (Hp1 : percpus m1 !! this_cpu (m_sched m1) = Some p0) by apply lookup_insert_eq.
  unfold bind at 1. cbn [get_state]. unfold bind at 1, current. rewrite (bind_Done _ _ _ _ _ (percpu_run _ _ Hp1)).
  cbn [current_ctxt p0]. rewrite Hcur. cbn [unwrap ret]. unfold bind at 1, on_sched at 1. cbn [m_sched m1].
  rewrite (the_ctx_run _ _ _ Hpc). fold m1. change (mkMachine (m_sched m) (contexts m1) (percpus m1)) with m1.
  destruct (is_preemptable pc); cbn [negb].
  2: { eexists _, _. split; [reflexivity|]. split; [done|]. unfold m1. split; cbn [m_sched contexts percpus]; [done|done|..].
       - intros cpu. unfold current_of. cbn [percpus]. destruct (decide (cpu = this_cpu (m_sched m))) as [->|Hne].
         + by rewrite lookup_insert_eq, Hp. + by rewrite lookup_insert_ne.
       - intros cpu Hne. by rewrite lookup_insert_ne.
       - intros q Hq. simplify_eq. rewrite lookup_insert_eq. by eexists. }
  rewrite Hidle. unfold unwrap. rewrite bind_ret. unfold bind at 1, on_sched at 1. cbn [m_sched contexts m1].
  rewrite (choose_run _ _ _ clock H). destruct (next_context m clock prev idle) as [next|] eqn:Hn.
  - destruct (choice_elem _ _ _ _ Hn) as [Hin Hel]. apply (rr_order_elem _ _ _ Hs) in Hin as [Hin Hne].
    unfold elig in Hel. destruct (ctxs (m_sched m) !! next) as [nc|] eqn:Hnc; [|done].
    set (m2 := mkMachine _ _ _). assert (Hp2 : percpus m2 !! this_cpu (m_sched m2) = Some p0) by apply lookup_insert_eq.
    rewrite (bind_Done _ _ _ _ _ (percpu_run _ _ Hp2)).
    unfold bind at 1, on_sched at 1.
    erewrite update_ctx_run by (cbn [m_sched m2 ctxs set_ctx]; rewrite lookup_insert_ne by done; exact Hpc).
    unfold bind at 1, on_sched at 1. cbn [m_sched contexts percpus].
    erewrite update_ctx_run by (cbn [m_sched m2 ctxs set_ctx]; rewrite lookup_insert_ne by congruence; apply lookup_insert_eq).
    unfold bind at 1, on_sched at 1. cbn [m_sched contexts percpus].
    erewrite the_ctx_run by (cbn [ctxs set_ctx]; apply lookup_insert_eq).
    unfold set_percpu, bind. cbn [modify ret m_sched contexts percpus]. eexists _, _. split; [reflexivity|]. split; [done|].
    split; cbn [m_sched contexts percpus this_cpu set_ctx ctxs m2].
    + eexists pc, nc, _. split; [done|]. split; [done|]. rewrite (insert_insert_ne _ prev next) by done. rewrite insert_insert_eq. reflexivity.
    + done.
    + done.
    + unfold current_of. cbn [percpus]. by rewrite lookup_insert_eq.
    + intros cpu Hc. unfold m1. cbn [percpus]. rewrite !lookup_insert_ne by done. done.
    + intros q Hq. simplify_eq. rewrite lookup_insert_eq. by eexists.
  - set (m2 := mkMachine _ _ _). assert (Hp2 : percpus m2 !! this_cpu (m_sched m2) = Some p0) by apply lookup_insert_eq.
    rewrite (bind_Done _ _ _ _ _ (percpu_run _ _ Hp2)). unfold set_percpu, bind. cbn [modify ret m_sched contexts percpus].
    eexists _, _. split; [reflexivity|]. split; [done|]. split; cbn [m_sched contexts percpus m2]; [done|done|..].
    + intros cpu. unfold current_of. cbn [percpus]. destruct (decide (cpu = this_cpu (m_sched m))) as [->|Hne].
      * rewrite lookup_insert_eq, Hp. done. * unfold m1. cbn [percpus]. by rewrite !lookup_insert_ne.
    + intros cpu Hc. unfold m1. cbn [percpus]. by rewrite !lookup_insert_ne.
    + intros q Hq. simplify_eq. rewrite lookup_insert_eq. by eexists.
Qed.

Lemma find_first {A} (f : A -> bool) (R : A -> A -> Prop) l x : StronglySorted R l -> List.find f l = Some x ->
  forall y, y ∈ l -> f y = true -> y = x \/ R x y.
Proof.
  induction 1 as [|z l Hl IH Hz]; cbn; [done|]. destruct (f z) eqn:Hf.
  - intros [= ->] y [->|Hy]%elem_of_cons _; [by left|]. right. by eapply Forall_forall in Hz.
  - intros Hx y [->|Hy]%elem_of_cons Hfy; [congruence|]. by apply IH.
Qed.

Lemma StronglySorted_filter {A} (R : A -> A -> Prop) f l : StronglySorted R l -> StronglySorted R (List.filter f l).
Proof.
  induction 1 as [|z l Hl IH Hz]; cbn; [constructor|]. destruct (f z); [|done]. constructor; [done|].
  rewrite Forall_forall in *. intros y Hy%list_elem_of_In. apply List.filter_In in Hy as [Hy _]. by apply Hz, list_elem_of_In.
Qed.

Lemma filter_elem f (l : list Z) x : x ∈ List.filter f l <-> x ∈ l /\ f x = true.
Proof. rewrite !list_elem_of_In. apply List.filter_In. Qed.

Lemma choice_first f R idle l next : StronglySorted R l -> choice f idle l = Some next ->
  forall x, x ∈ l -> x <> idle -> f x = true -> x = next \/ (next <> idle /\ R next x).
Proof.
  intros Hs Hc x Hx Hi Hf. unfold choice in Hc. destruct (List.find _ _) as [y|] eqn:Hy.
  - injection Hc as <-. assert (Hyi : y <> idle).
    { apply find_elem in Hy as [Hy _]. apply filter_elem in Hy as [_ Hy]. by destruct (Z.eqb_spec y idle). }
    destruct (find_first _ R _ _ (StronglySorted_filter _ _ _ Hs) Hy x) as [->|HR]; [|done|by left|by right].
    apply filter_elem. split; [done|]. by destruct (Z.eqb_spec x idle).
  - assert (Hin : In x (List.filter (fun x => negb (x =? idle)) l)).
    { apply List.filter_In. split; [by apply list_elem_of_In|]. by destruct (Z.eqb_spec x idle). }
    rewrite (List.find_none _ _ Hy _ Hin) in Hf. done.
Qed.

Lemma choice_none f idle l : choice f idle l = None -> forall x, x ∈ l -> f x = false.
Proof.
  unfold choice. destruct (List.find _ _) as [y|] eqn:Hy; [done|]. intros Hc x Hx.
  destruct (Z.eqb_spec x idle) as [->|Hne].
  - rewrite bool_decide_eq_true_2 in Hc by done. by destruct (f idle).
  - apply (List.find_none _ _ Hy), List.filter_In. split; [by apply list_elem_of_In|]. by destruct (Z.eqb_spec x idle).
Qed.

(** ** Bounded waiting *)

(** How many contexts come before [c] in the order that starts after [prev]. *)
Definition ahead (l : list (Z * unit)) (prev c : Z) : nat :=
  length (List.filter (fun e => in_arc prev c e.1) l).

Lemma filter_length_lt {A} (f g : A -> bool) l x : (forall y, f y = true -> g y = true) ->
  x ∈ l -> f x = false -> g x = true -> (length (List.filter f l) < length (List.filter g l))%nat.
Proof.
  intros Hfg Hx Hf Hg. induction l as [|y l IH]; [by apply not_elem_of_nil in Hx|].
  assert (Hle : (length (List.filter f l) <= length (List.filter g l))%nat).
  { clear -Hfg. induction l as [|z l IH]; cbn; [done|]. destruct (f z) eqn:E.
    - rewrite (Hfg _ E). cbn. lia. - destruct (g z); cbn; lia. }
  cbn. apply elem_of_cons in Hx as [->|Hx].
  - rewrite Hf, Hg. cbn. lia.
  - specialize (IH Hx). destruct (f y) eqn:E; [rewrite (Hfg _ E); cbn; lia|]. destruct (g y); cbn; lia.
Qed.

Lemma ahead_decreases l prev next c : (next, tt) ∈ l -> next <> c -> in_arc prev c next = true ->
  (ahead l next c < ahead l prev c)%nat.
Proof.
  intros Hn Hc Ha. apply (filter_length_lt _ _ _ (next, tt)); [|done|..]; cbn; unfold in_arc in *.
  - intros [y []]. cbn. destruct (Z.ltb_spec prev c), (Z.ltb_spec next c); rewrite ?andb_true_iff, ?orb_true_iff, ?Z.ltb_lt in *; lia.
  - destruct (Z.ltb_spec next c); rewrite ?andb_false_iff, ?orb_false_iff, ?Z.ltb_ge; lia.
  - done.
Qed.

Lemma ahead_bound l prev c : (c, tt) ∈ l -> c <> prev -> (ahead l prev c < length l)%nat.
Proof.
  intros Hc Hp. assert (Hall : List.filter (fun _ : Z * unit => true) l = l) by (clear; induction l; cbn; congruence).
  rewrite <- Hall at 2. apply (filter_length_lt _ _ _ (c, tt)); [done|done|cbn|done]. unfold in_arc.
  destruct (Z.ltb_spec prev c); rewrite ?andb_false_iff, ?orb_false_iff, ?Z.ltb_ge; lia.
Qed.

Lemma switched_current m prev idle clock now r m' c : cpu_ready m prev idle ->
  (exists pc, ctxs (m_sched m) !! prev = Some pc /\ is_preemptable pc = true) ->
  (c, tt) ∈ contexts m -> c <> idle -> elig (m_sched m) clock c = true -> switch clock now m = Done (r, m') ->
  c <> prev /\ exists next, current_of m' (this_cpu (m_sched m)) = Some next /\ (next, tt) ∈ contexts m /\
    (next = c \/ in_arc prev c next = true).
Proof.
  intros H (pc & Hpc & Hpre) Hin Hi Hel Hsw. destruct (switch_run m prev idle clock now pc H Hpc) as (r' & m1 & Hsw' & Hres).
  rewrite Hsw in Hsw'. injection Hsw' as <- <-. rewrite Hpre in Hres.
  assert (Hcp : c <> prev).
  { intros ->. unfold elig in Hel. destruct (cr_prev _ _ _ H) as (q & Hq & Hrun). rewrite Hq in Hel. unfold eligible in Hel. by rewrite Hrun in Hel. }
  split; [done|]. pose proof (cr_sorted _ _ _ H) as Hs. assert (Ho : c ∈ rr_order (contexts m) prev) by by apply rr_order_elem.
  unfold next_context in Hres. destruct (choice _ _ _) as [next|] eqn:Hch.
  - destruct Hres as [_ Hw]. exists next. split; [apply Hw|]. destruct (choice_elem _ _ _ _ Hch) as [Hn _].
    apply (rr_order_elem _ _ _ Hs) in Hn as [Hn _]. split; [done|].
    destruct (choice_first _ _ _ _ _ (rr_order_sorted _ prev Hs) Hch c Ho Hi Hel) as [->|[_ ?]]; [by left|by right].
  - rewrite (choice_none _ _ _ Hch c Ho) in Hel. done.
Qed.

(** [n] switches of one CPU from [m] to [m'] in which [c] was eligible and was
    not chosen.  Between two of them anything may happen that keeps the set of
    contexts and what this CPU runs. *)
Inductive passed_over (c : Z) : nat -> Machine -> Machine -> Prop :=
| po_zero m : passed_over c 0 m m
| po_switch n m m1 prev idle clock now r m2 m3 :
    passed_over c n m m1 -> cpu_ready m1 prev idle -> c <> idle ->
    (exists pc, ctxs (m_sched m1) !! prev = Some pc /\ is_preemptable pc = true) ->
    elig (m_sched m1) clock c = true ->
    switch clock now m1 = Done (r, m2) -> current_of m2 (this_cpu (m_sched m1)) <> Some c ->
    contexts m3 = contexts m2 -> this_cpu (m_sched m3) = this_cpu (m_sched m1) ->
    current_of m3 (this_cpu (m_sched m1)) = current_of m2 (this_cpu (m_sched m1)) ->
    passed_over c (S n) m m3.

Lemma switch_contexts m prev idle clock now r m' : cpu_ready m prev idle -> switch clock now m = Done (r, m') -> contexts m' = contexts m.
Proof.
  intros H Hsw. destruct (cr_prev _ _ _ H) as (pc & Hpc & _). destruct (switch_run m prev idle clock now pc H Hpc) as (r' & m1 & Hsw' & Hres).
  rewrite Hsw in Hsw'. injection Hsw' as <- <-. destruct (if is_preemptable pc then _ else None); destruct Hres as [_ Hw]; apply Hw.
Qed.

Lemma passed_over_measure c n m m' : passed_over c n m m' -> (c, tt) ∈ contexts m ->
  contexts m' = contexts m /\ (this_cpu (m_sched m') = this_cpu (m_sched m)) /\
  (n = 0%nat \/ exists p p', current_of m (this_cpu (m_sched m)) = Some p /\ p <> c /\ current_of m' (this_cpu (m_sched m)) = Some p' /\
     (n + ahead (contexts m) p' c <= ahead (contexts m) p c)%nat).
Proof.
  intros H Hc. induction H as [m|n m m1 prev idle clock now r m2 m3 Hpo IH Hr Hi Hpre Hel Hsw Hne Hct Hcpu Hcur]; [by auto|].
  destruct (IH Hc) as (Hct1 & Hcpu1 & IH'). rewrite <- Hct1 in Hc.
  destruct (switched_current _ _ _ _ _ _ _ _ Hr Hpre Hc Hi Hel Hsw) as (Hcp & next & Hn & Hin & Hor).
  destruct Hor as [->|Harc]; [congruence|]. rewrite (switch_contexts _ _ _ _ _ _ _ Hr Hsw) in Hct. split; [congruence|]. split; [congruence|]. right.
  assert (Hnc : next <> c) by congruence. pose proof (ahead_decreases _ _ _ _ Hin Hnc Harc) as Hd. rewrite Hct1 in Hd.
  assert (Hprev : current_of m1 (this_cpu (m_sched m1)) = Some prev).
  { destruct (cr_percpu _ _ _ Hr) as (p & Hp & Hcurp & _). unfold current_of. by rewrite Hp. }
  rewrite Hcpu1 in *. destruct IH' as [->|(p & p' & Hp & Hpc & Hp' & Hle)].
  - inversion Hpo; subst. exists prev, next. split; [done|]. split; [done|]. split; [congruence|]. lia.
  - exists p, next. split; [done|]. split; [done|]. split; [congruence|]. rewrite Hp' in Hprev. injection Hprev as <-. lia.
Qed.

(** ** All CPUs together *)

Definition on_cpu (cpu : Z) (m : Machine) : Machine :=
  mkMachine (mkSched (ctxs (m_sched m)) cpu (switch_pending (m_sched m)) (wakeup_ipis (m_sched m))) (contexts m) (percpus m).

(** The rest of the kernel does anything to the contexts but set [running] and
    [cpu_id], which only the scheduler writes. *)
Definition keeps_running (x y : Sched) : Prop :=
  forall cid, match ctxs x !! cid, ctxs y !! cid with
              | Some c, Some c' => running c' = running c /\ cpu_id c' = cpu_id c
              | None, None => True
              | _, _ => False
              end.

(** One CPU makes a step. *)
Inductive step (m : Machine) : Machine -> Prop :=
| st_init cpu id m' : ctxs (m_sched m) !! id = None -> current_of m cpu = None ->
    init id (on_cpu cpu m) = Done (tt, m') -> step m m'
| st_spawn cpu id a b c u r m' : ctxs (m_sched m) !! id = None -> spawn a b c id u (on_cpu cpu m) = Done (r, m') -> step m m'
| st_switch cpu prev idle clock now r m' : cpu_ready (on_cpu cpu m) prev idle -> switch clock now (on_cpu cpu m) = Done (r, m') -> step m m'
| st_exit cpu prev idle clock now m' : cpu_ready (on_cpu cpu m) prev idle -> exit_tail clock now (on_cpu cpu m) = Done (tt, m') -> step m m'
| st_kernel x : keeps_running (m_sched m) x -> step m (mkMachine x (contexts m) (percpus m))
| st_free cid c : ctxs (m_sched m) !! cid = Some c -> running c = false -> (cid, tt) ∉ contexts m ->
    step m (mkMachine (mkSched (delete cid (ctxs (m_sched m))) (this_cpu (m_sched m)) (switch_pending (m_sched m)) (wakeup_ipis (m_sched m)))
                      (contexts m) (percpus m)).

(** No context exists and no CPU has been initialised. *)
Definition booting (m : Machine) : Prop :=
  ctxs (m_sched m) = ∅ /\ contexts m = [] /\ forall cpu, current_of m cpu = None.
Definition reachable_machine (m : Machine) : Prop := exists m0, booting m0 /\ rtc step m0 m.

Record exclusive (m : Machine) : Prop := {
  ex_current : forall cpu cid, current_of m cpu = Some cid ->
    exists c, ctxs (m_sched m) !! cid = Some c /\ running c = true /\ cpu_id c = Some cpu;
  ex_running : forall cid c, ctxs (m_sched m) !! cid = Some c -> running c = true -> exists cpu, current_of m cpu = Some cid
}.

Lemma switched_others m m' prev next clock now cpu : switched m m' prev next clock now ->
  cpu <> this_cpu (m_sched m) -> current_of m' cpu = current_of m cpu.
Proof. intros H Hne. unfold current_of. by rewrite (sw_others _ _ _ _ _ _ H cpu Hne). Qed.

Lemma awake_running now c : running (awake now c) = running c /\ cpu_id (awake now c) = cpu_id c.
Proof. unfold awake. by destruct (expired now c). Qed.

Lemma switch_exclusive m prev idle clock now r m' : cpu_ready m prev idle -> exclusive m -> switch clock now m = Done (r, m') -> exclusive m'.
Proof.
  intros H [E1 E2] Hsw. destruct (cr_prev _ _ _ H) as (pc & Hpc & Hrun).
  destruct (switch_run m prev idle clock now pc H Hpc) as (r' & m1 & Hsw' & Hres).
  rewrite Hsw in Hsw'. injection Hsw' as <- <-.
  destruct (if is_preemptable pc then next_context m clock prev idle else None) as [next|] eqn:Hn; destruct Hres as [_ Hw].
  2: { split; intros *; rewrite (un_sched _ _ Hw); intros Hx.
       - rewrite (un_current _ _ Hw) in Hx. by apply E1.
       - intros Hy. destruct (E2 _ _ Hx Hy) as [cpu Hcpu]. exists cpu. by rewrite (un_current _ _ Hw). }
  destruct (is_preemptable pc); [|done]. destruct (choice_elem _ _ _ _ Hn) as [Hin Hel].
  apply (rr_order_elem _ _ _ (cr_sorted _ _ _ H)) in Hin as [_ Hne].
  destruct (sw_ctxs _ _ _ _ _ _ Hw) as (pc' & nc & insys & Hpc' & Hnc & Hctx). rewrite Hpc in Hpc'. injection Hpc' as <-.
  unfold elig in Hel. rewrite Hnc in Hel. unfold eligible in Hel. destruct (running nc) eqn:Hnr; [done|]. clear Hel.
  assert (Hprev : current_of m (this_cpu (m_sched m)) = Some prev).
  { destruct (cr_percpu _ _ _ H) as (p & Hp & Hc & _). unfold current_of. by rewrite Hp. }
  split.
  - intros cpu cid Hc. rewrite Hctx. destruct (decide (cpu = this_cpu (m_sched m))) as [->|Hcpu].
    + rewrite (sw_current _ _ _ _ _ _ Hw) in Hc. injection Hc as <-. rewrite lookup_insert_eq. by eexists.
    + rewrite (switched_others _ _ _ _ _ _ _ Hw Hcpu) in Hc. destruct (E1 _ _ Hc) as (c & Hcc & Hr & Hid).
      assert (cid <> next) by congruence.
      assert (cid <> prev). { intros ->. destruct (E1 _ _ Hprev) as (c2 & ? & _ & ?). congruence. }
      exists c. by rewrite !lookup_insert_ne.
  - intros cid c. rewrite Hctx. destruct (decide (cid = next)) as [->|Hcn].
    + intros _ _. exists (this_cpu (m_sched m)). apply Hw.
    + rewrite lookup_insert_ne by done. destruct (decide (cid = prev)) as [->|Hcp].
      * rewrite lookup_insert_eq. intros [= <-]. done.
      * rewrite lookup_insert_ne by done. intros Hcc Hr. destruct (E2 _ _ Hcc Hr) as [cpu Hcpu]. exists cpu.
        rewrite (switched_others _ _ _ _ _ _ _ Hw); [done|]. intros ->. congruence.
Qed.

Lemma exclusive_cpu cpu m : exclusive m -> exclusive (on_cpu cpu m).
Proof. intros [E1 E2]. split; [exact E1|exact E2]. Qed.

Lemma om_delete_keeps {V} k (m : list (Z * V)) : sorted m -> sorted (om_delete k m) /\ forall e, e ∈ om_delete k m -> e ∈ m.
Proof.
  intros Hs. destruct (sorted_split k m Hs) as (E & Hl & Hg). unfold om_delete. rewrite E in Hs.
  destruct (from k m) as [|[k' v] b] eqn:Hf.
  { rewrite app_nil_r. rewrite app_nil_r in E. rewrite <- E. rewrite app_nil_r, <- E in Hs. done. }
  destruct (Z.eqb_spec k' k) as [->|Hne].
  - split; [by apply sorted_mid in Hs as (_ & _ & _ & _ & ?)|]. intros e He. rewrite E.
    apply elem_of_app in He as [He|He]; apply elem_of_app; [by left|right; by apply list_elem_of_further].
  - rewrite <- E in *. done.
Qed.

Lemma init_exclusive cpu id m m' : ctxs (m_sched m) !! id = None -> current_of m cpu = None ->
  exclusive m -> init id (on_cpu cpu m) = Done (tt, m') -> exclusive m'.
Proof.
  intros Hid Hcpu [E1 E2]. unfold init, bind at 1. cbn [gets on_cpu m_sched this_cpu].
  destruct (atomic_set cpu cpu_empty) as [[[] aff]|]; [|done]. unfold on_sched, set_contexts, bind, percpu, modify. cbn [m_sched this_cpu set_ctx contexts percpus on_cpu].
  destruct (percpus m !! cpu) as [p|] eqn:Hp; [|done]. cbn [unwrap ret set_percpu modify]. unfold set_percpu, modify. cbn. intros [= <-].
  assert (Hcur : forall cpu' cid, current_of m cpu' = Some cid -> cpu' <> cpu /\ cid <> id).
  { intros cpu' cid Hc. split; [congruence|]. intros ->. destruct (E1 _ _ Hc) as (c & ? & _). congruence. }
  split; cbn [m_sched ctxs set_ctx].
  - intros cpu' cid. unfold current_of. cbn [percpus]. destruct (decide (cpu' = cpu)) as [->|Hne].
    + rewrite lookup_insert_eq. cbn. intros [= <-]. rewrite lookup_insert_eq. by eexists.
    + rewrite lookup_insert_ne by done. intros Hc. destruct (Hcur cpu' cid Hc). rewrite lookup_insert_ne by done. by apply E1.
  - intros cid c. destruct (decide (cid = id)) as [->|Hne].
    + intros _ _. exists cpu. unfold current_of. cbn [percpus]. by rewrite lookup_insert_eq.
    + rewrite lookup_insert_ne by done. intros Hc Hr. destruct (E2 _ _ Hc Hr) as [cpu' Hc']. exists cpu'.
      destruct (Hcur _ _ Hc'). unfold current_of in *. cbn [percpus]. by rewrite lookup_insert_ne.
Qed.

Lemma spawn_exclusive cpu id a b d u r m m' : ctxs (m_sched m) !! id = None -> exclusive m ->
  spawn a b d id u (on_cpu cpu m) = Done (r, m') -> exclusive m'.
Proof.
  intros Hid [E1 E2].
  assert (Hgen : forall c, running c = false -> exclusive (mkMachine (set_ctx id c (m_sched (on_cpu cpu m))) (om_insert id tt (contexts m)) (percpus m))).
  { intros c Hr. split; cbn [m_sched ctxs set_ctx on_cpu].
    - intros cpu' cid Hc. destruct (E1 _ _ Hc) as (c' & Hc' & ?). exists c'. rewrite lookup_insert_ne; [done|]. congruence.
    - intros cid c' Hc'. destruct (decide (cid = id)) as [->|Hne].
      + rewrite lookup_insert_eq in Hc'. injection Hc' as <-. congruence.
      + rewrite lookup_insert_ne in Hc' by done. by apply E2. }
  unfold spawn. destruct a; [|intros [= _ <-]; by apply exclusive_cpu]. destruct b; [|intros [= _ <-]; by apply exclusive_cpu].
  cbn [negb]. unfold bind, on_sched, modify, get_state, set_contexts. cbn [m_sched contexts percpus on_cpu].
  destruct d; cbn [negb]; [|intros [= _ <-]; by apply (Hgen new_ctx)].
  cbn [modify m_sched contexts percpus]. erewrite update_ctx_run by apply lookup_insert_eq. rewrite set_ctx_twice. intros [= _ <-].
  by apply (Hgen (set_userspace u new_ctx)).
Qed.

(** A context that dies keeps running until the switch. *)
Lemma exit_run m prev idle clock now : cpu_ready m prev idle -> exclusive m ->
  exists m1, cpu_ready m1 prev idle /\ exclusive m1 /\ this_cpu (m_sched m1) = this_cpu (m_sched m) /\
    contexts m1 = om_delete prev (contexts m) /\
    (exists pc, ctxs (m_sched m) !! prev = Some pc /\ m_sched m1 = set_ctx prev (set_status Dead (status_reason pc) pc) (m_sched m)) /\
    exit_tail clock now m = (let! r := switch clock now in match r with Switched => ret tt | AllContextsIdle => panic end) m1.
Proof.
  intros [(p & Hp & Hcur & Hidle) (pc & Hpc & Hrun) Hi Hk Hs [Ha1 Ha2]] [E1 E2].
  exists (mkMachine (set_ctx prev (set_status Dead (status_reason pc) pc) (m_sched m)) (om_delete prev (contexts m)) (percpus m)).
  destruct (om_delete_keeps prev (contexts m) Hs) as [Hs' Hsub].
  assert (Hlook : forall cid, is_Some (ctxs (m_sched m) !! cid) -> is_Some (<[prev := set_status Dead (status_reason pc) pc]> (ctxs (m_sched m)) !! cid)).
  { intros cid Hc. rewrite lookup_insert_is_Some. destruct (decide (prev = cid)); auto. }
  split_and!.
  - split; cbn [m_sched contexts percpus set_ctx this_cpu ctxs]; [by exists p|..].
    + eexists. rewrite lookup_insert_eq. by split.
    + by apply Hlook.
    + intros cid Hc. by apply Hlook, Hk, Hsub.
    + done.
    + split; [done|]. cbn [ctxs set_ctx]. intros cid c. destruct (decide (cid = prev)) as [->|Hne].
      * rewrite lookup_insert_eq. intros [= <-]. apply (Ha2 prev pc Hpc).
      * rewrite lookup_insert_ne by done. apply Ha2.
  - split; cbn [m_sched ctxs set_ctx].
    + intros cpu cid Hc. destruct (E1 _ _ Hc) as (c & Hcc & Hr & Hid). destruct (decide (cid = prev)) as [->|Hne].
      * rewrite lookup_insert_eq. simplify_eq. by eexists.
      * rewrite lookup_insert_ne by done. by exists c.
    + intros cid c. destruct (decide (cid = prev)) as [->|Hne].
      * intros _ _. by apply (E2 prev pc).
      * rewrite lookup_insert_ne by done. apply E2.
  - done.
  - done.
  - by exists pc.
  - unfold exit_tail, current. unfold bind at 1. rewrite (bind_Done _ _ _ _ _ (percpu_run _ _ Hp)), Hcur. cbn [unwrap ret].
    unfold bind at 1, on_sched at 1. rewrite (update_ctx_run _ _ _ _ Hpc). unfold bind at 1. cbn [get_state]. unfold bind at 1, set_contexts. cbn [modify contexts m_sched percpus]. done.
Qed.

Lemma reachable_exclusive m : reachable_machine m -> exclusive m.
Proof.
  intros (m0 & (B1 & B2 & B3) & Hr). assert (H0 : exclusive m0).
  { split; [intros cpu cid Hc; by rewrite B3 in Hc|]. intros cid c Hc. by rewrite B1, lookup_empty in Hc. }
  revert H0. clear B1 B2 B3. induction Hr as [|x y z Hxy _ IH]; [done|]. intros Hx. apply IH. clear IH.
  destruct Hxy as [cpu id m' H1 H2 H3|cpu id a b c u r m' H1 H2|cpu prev idle clock now r m' H1 H2|cpu prev idle clock now m' H1 H2|y Hk|cid c Hc Hr Hn].
  - by eapply init_exclusive. - by eapply spawn_exclusive.
  - eapply switch_exclusive; [exact H1|by apply exclusive_cpu|exact H2].
  - destruct (exit_run _ _ _ clock now H1 (exclusive_cpu _ _ Hx)) as (m1 & R1 & X1 & _ & _ & _ & E). rewrite E in H2.
    apply bind_Done_inv in H2 as (r & m2 & Hsw & H2). destruct r; [|done]. injection H2 as <-. by eapply switch_exclusive.
  - destruct Hx as [E1 E2]. split; cbn [m_sched].
    + intros cpu cid Hc. destruct (E1 cpu cid Hc) as (c & Hcc & Hr & Hi). specialize (Hk cid). rewrite Hcc in Hk.
      destruct (ctxs y !! cid) as [c'|]; [|done]. exists c'. destruct Hk. by split_and!; congruence.
    + intros cid c' Hc' Hr. specialize (Hk cid). rewrite Hc' in Hk. destruct (ctxs (m_sched x) !! cid) as [c|] eqn:Hcc; [|done].
      destruct Hk as [Hk _]. apply (E2 cid c Hcc). congruence.
  - destruct Hx as [E1 E2]. split; cbn [m_sched ctxs].
    + intros cpu y Hy. destruct (E1 cpu y Hy) as (c' & Hc' & ? & ?). exists c'. rewrite lookup_delete_ne; [done|]. congruence.
    + intros y c' [_ Hc']%lookup_delete_Some. by apply E2.
Qed.

(** ** Theorems *)

(** C13: [switch] is a round-robin scheduler.  On an initialised CPU whose
    current context can be preempted it does not panic.  It switches to an
    eligible context (not running, allowed on this CPU, runnable or sleeping with
    a deadline that has passed) such that every other eligible context, the idle
    one apart, comes later in the cyclic order of addresses that starts after
    the current one; the idle context is chosen only if no other is eligible.
    Only the two contexts involved change.  If it does not switch, no context is
    eligible and nothing changes. *)
Theorem switch_round_robin m prev idle clock now pc :
  cpu_ready m prev idle -> ctxs (m_sched m) !! prev = Some pc -> is_preemptable pc = true ->
  exists r m', switch clock now m = Done (r, m') /\
  ((r = Switched /\ exists next, switched m m' prev next clock now /\ next <> prev /\ (next, tt) ∈ contexts m /\
      elig (m_sched m) clock next = true /\
      forall x, (x, tt) ∈ contexts m -> x <> idle -> elig (m_sched m) clock x = true ->
        x = next \/ (next <> idle /\ in_arc prev x next = true)) \/
   (r = AllContextsIdle /\ unswitched m m' /\
      forall x, (x, tt) ∈ contexts m -> x <> prev -> elig (m_sched m) clock x = false)).
Proof.
  intros H Hpc Hpre. destruct (switch_run m prev idle clock now pc H Hpc) as (r & m' & Hsw & Hres). rewrite Hpre in Hres.
  pose proof (cr_sorted _ _ _ H) as Hs. exists r, m'. split; [done|]. unfold next_context in Hres.
  destruct (choice _ _ _) as [next|] eqn:Hch; destruct Hres as [-> Hw].
  - left. split; [done|]. exists next. destruct (choice_elem _ _ _ _ Hch) as [Hn Hel].
    apply (rr_order_elem _ _ _ Hs) in Hn as [Hn Hne]. split_and!; try done. intros x Hx Hi Hx'.
    apply (choice_first _ _ _ _ _ (rr_order_sorted _ prev Hs) Hch); [|done|done]. apply rr_order_elem; [done|]. split; [done|].
    intros ->. destruct (cr_prev _ _ _ H) as (q & Hq & Hrun). unfold elig in Hx'. rewrite Hq in Hx'. unfold eligible in Hx'. by rewrite Hrun in Hx'.
  - right. split_and!; try done. intros x Hx Hne. apply (choice_none _ _ _ Hch). by apply rr_order_elem.
Qed.

(** C14: No context runs on two CPUs.  In every state that any number of CPUs
    can reach by initialising themselves, creating contexts, switching, exiting,
    and by any other kernel code, the contexts that are marked running are
    exactly the current contexts of the CPUs, and a context is current on at most
    one CPU, the one its [cpu_id] names. *)
Theorem sched_exclusive m : reachable_machine m ->
  (forall cpu cpu' cid, current_of m cpu = Some cid -> current_of m cpu' = Some cid -> cpu = cpu') /\
  (forall cid c, ctxs (m_sched m) !! cid = Some c ->
     running c = true <-> exists cpu, current_of m cpu = Some cid /\ cpu_id c = Some cpu).
Proof.
  intros H. apply reachable_exclusive in H as [E1 E2]. split.
  - intros cpu cpu' cid H1 H2. destruct (E1 _ _ H1) as (c & Hc & _ & Hi), (E1 _ _ H2) as (c' & Hc' & _ & Hi'). congruence.
  - intros cid c Hc. split.
    + intros Hr. destruct (E2 _ _ Hc Hr) as [cpu Hcpu]. exists cpu. destruct (E1 _ _ Hcpu) as (c' & ? & ? & ?). split; congruence.
    + intros (cpu & Hcpu & _). destruct (E1 _ _ Hcpu) as (c' & ? & ? & ?). congruence.
Qed.

(** C15: Bounded waiting.  A context that stays eligible for a CPU is passed over
    by fewer switches of that CPU than there are contexts, whatever the other
    CPUs and the contexts do in between, as long as no context is created or
    removed and the current contexts can be preempted. *)
Theorem sched_bounded_waiting c n m m' :
  passed_over c n m m' -> (c, tt) ∈ contexts m -> (n < length (contexts m))%nat.
Proof.
  intros H Hc. destruct (passed_over_measure _ _ _ _ H Hc) as (_ & _ & [->|(p & p' & _ & Hp & _ & Hle)]).
  - apply list_elem_of_lookup in Hc as [i Hi]. apply lookup_lt_Some in Hi. lia.
  - pose proof (ahead_bound _ p c Hc). assert (c <> p) by congruence. lia.
Qed.

(** A context that exits gives up the CPU for good, provided the idle context of
    the CPU is there to take over. *)
Lemma exit_leaves m prev idle clock now pc : cpu_ready m prev idle -> exclusive m ->
  ctxs (m_sched m) !! prev = Some pc -> is_preemptable pc = true -> prev <> idle -> (idle, tt) ∈ contexts m ->
  elig (m_sched m) clock idle = true ->
  exists m', exit_tail clock now m = Done (tt, m') /\ current_of m' (this_cpu (m_sched m)) <> Some prev.
Proof.
  intros H X Hpc Hpre Hne Hin Hel. destruct (exit_run m prev idle clock now H X) as (m1 & R1 & _ & Hcpu & Hctx & (pc' & Hpc' & Hs1) & ->).
  rewrite Hpc in Hpc'. injection Hpc' as <-.
  assert (Hpc1 : ctxs (m_sched m1) !! prev = Some (set_status Dead (status_reason pc) pc)) by (rewrite Hs1; apply lookup_insert_eq).
  destruct (switch_run m1 prev idle clock now _ R1 Hpc1) as (r & m' & Hsw & Hres). change (is_preemptable (set_status Dead (status_reason pc) pc)) with (is_preemptable pc) in Hres.
  rewrite Hpre in Hres. rewrite (bind_Done _ _ _ _ _ Hsw). unfold next_context in Hres. destruct (choice _ _ _) as [next|] eqn:Hch; destruct Hres as [-> Hw].
  - exists m'. split; [done|]. rewrite <- Hcpu, (sw_current _ _ _ _ _ _ Hw). intros [= ->].
    destruct (choice_elem _ _ _ _ Hch) as [Hn _]. by apply (rr_order_elem _ _ _ (cr_sorted _ _ _ R1)) in Hn as [_ ?].
  - exfalso. assert (Hi : (idle, tt) ∈ contexts m1).
    { rewrite Hctx. clear -Hin Hne H. pose proof (cr_sorted _ _ _ H) as Hs. destruct (sorted_split prev _ Hs) as (E & Hl & Hg).
      unfold om_delete. rewrite E in Hin. apply elem_of_app in Hin as [?|Hin]; apply elem_of_app; [by left|right].
      destruct (from prev (contexts m)) as [|[k []] b]; [done|]. destruct (Z.eqb_spec k prev) as [->|]; [|done].
      apply elem_of_cons in Hin as [[= ->]|?]; done. }
    assert (Hf : elig (m_sched m1) clock idle = false).
    { apply (choice_none _ _ _ Hch). apply rr_order_elem; [apply R1|]. split; congruence. }
    unfold elig in *. rewrite Hs1 in Hf. cbn [set_ctx ctxs this_cpu] in Hf. rewrite lookup_insert_ne in Hf by done. congruence.
Qed.

(** On a CPU that was not initialised, which is what [kmain_ap] leaves behind,
    [switch] panics. *)
Lemma switch_uninitialised_panics m p clock now :
  percpus m !! this_cpu (m_sched m) = Some p -> current_ctxt p = None -> switch clock now m = Panic.
Proof.
  intros Hp Hc. unfold switch. rewrite (bind_Done _ _ _ _ _ (percpu_run _ _ Hp)). unfold set_percpu at 1. unfold bind at 1. cbn [modify].
  unfold bind at 1. cbn [get_state]. unfold bind at 1, current. erewrite bind_Done by (apply percpu_run, lookup_insert_eq).
  cbn [current_ctxt]. by rewrite Hc.
Qed.

Module SchedWitnesses.
(** Two contexts and an idle one on CPU 0. *)
Definition worker : Ctx := set_status Runnable ""%string new_ctx.
Definition booted : Machine :=
  mkMachine (mkSched (<[16 := enter_ctx 0 0 worker]> (<[32 := worker]> (<[48 := worker]> ∅))) 0 ∅ 0)
            [(16, tt); (32, tt); (48, tt)]
            (<[0 := mkPercpu (Some 16) (Some 48) 0 0 false false (mkStats 0 0 0 CpuKernel 0)]> ∅).

Lemma booted_ready : cpu_ready booted 16 48.
Proof.
  split.
  - eexists. by split_and!.
  - eexists. split; [vm_compute; reflexivity|done].
  - by eexists.
  - intros cid Hc. cbn in Hc. rewrite !elem_of_cons in Hc. destruct Hc as [[= ->]|[[= ->]|[[= ->]|[]%not_elem_of_nil]]]; by eexists.
  - cbn. unfold keys_ge. repeat constructor; cbn; lia.
  - split; [done|]. intros cid c Hc. unfold booted in Hc. cbn [m_sched ctxs] in Hc. rewrite !lookup_insert_Some, lookup_empty in Hc.
    assert (Hw : cpu_wf cpu_all) by (split; [done|repeat constructor; vm_compute; congruence]).
    destruct Hc as [[_ <-]|[_ [[_ <-]|[_ [[_ <-]|[_ ?]]]]]]; done.
Qed.

Lemma switch_round_robin_witness : exists r m', switch (fun _ => 0) 7 booted = Done (r, m') /\
  ((r = Switched /\ exists next, switched booted m' 16 next (fun _ => 0) 7 /\ next <> 16 /\ (next, tt) ∈ contexts booted /\
      elig (m_sched booted) (fun _ => 0) next = true /\
      forall x, (x, tt) ∈ contexts booted -> x <> 48 -> elig (m_sched booted) (fun _ => 0) x = true ->
        x = next \/ (next <> 48 /\ in_arc 16 x next = true)) \/
   (r = AllContextsIdle /\ unswitched booted m' /\
      forall x, (x, tt) ∈ contexts booted -> x <> 16 -> elig (m_sched booted) (fun _ => 0) x = false)).
Proof.
  apply (switch_round_robin booted 16 48 (fun _ => 0) 7 (enter_ctx 0 0 worker) booted_ready); vm_compute; reflexivity.
Defined.

Definition machine0 : Machine := mkMachine (mkSched ∅ 0 ∅ 0) [] (<[0 := percpu_default]> ∅).
Definition machine1 : Machine := match init 48 machine0 with Done (_, m) => m | Panic => machine0 end.
Lemma machine1_reachable : reachable_machine machine1.
Proof.
  exists machine0. split.
  - split; [done|]. split; [done|]. intros cpu. unfold current_of, machine0. cbn [percpus].
    destruct (decide (cpu = 0)) as [->|]; [by rewrite lookup_insert_eq|]. by rewrite lookup_insert_ne.
  - apply rtc_once. apply (st_init _ 0 48); vm_compute; reflexivity.
Qed.
Lemma sched_exclusive_witness : current_of machine1 0 = Some 48 /\
  (forall cpu cpu' cid, current_of machine1 cpu = Some cid -> current_of machine1 cpu' = Some cid -> cpu = cpu') /\
  (forall cid c, ctxs (m_sched machine1) !! cid = Some c ->
     running c = true <-> exists cpu, current_of machine1 cpu = Some cid /\ cpu_id c = Some cpu).
Proof. split; [vm_compute; reflexivity|]. apply (sched_exclusive machine1 machine1_reachable). Defined.

(** CPU 0 goes from 16 to 32, passing over 40. *)
Definition four : Machine :=
  mkMachine (set_ctx 40 worker (m_sched booted)) [(16, tt); (32, tt); (40, tt); (48, tt)] (percpus booted).
Lemma four_ready : cpu_ready four 16 48.
Proof.
  split.
  - eexists. by split_and!.
  - eexists. split; [vm_compute; reflexivity|done].
  - by eexists.
  - intros cid Hc. cbn in Hc. rewrite !elem_of_cons in Hc. destruct Hc as [[= ->]|[[= ->]|[[= ->]|[[= ->]|[]%not_elem_of_nil]]]]; by eexists.
  - cbn. unfold keys_ge. repeat constructor; cbn; lia.
  - split; [done|]. intros cid c Hc. unfold four in Hc. cbn [m_sched ctxs set_ctx] in Hc. destruct (decide (cid = 40)) as [->|].
    + rewrite lookup_insert_eq in Hc. injection Hc as <-. split; [done|repeat constructor; vm_compute; congruence].
    + rewrite lookup_insert_ne in Hc by done. by apply (cr_affinity _ _ _ booted_ready) in Hc.
Qed.
Lemma sched_bounded_waiting_witness : exists m', passed_over 40 1 four m' /\ (1 < length (contexts four))%nat.
Proof.
  destruct (switch (fun _ => 0) 7 four) as [[r m']|] eqn:E; [|by vm_compute in E]. exists m'.
  assert (H : passed_over 40 1 four m').
  { eapply (po_switch 40 0 four four 16 48 (fun _ => 0) 7 r m'); try done.
    - constructor.
    - apply four_ready.
    - eexists. split; vm_compute; reflexivity.
    - vm_compute in E. injection E as <- <-. vm_compute. congruence.
    - vm_compute in E. by injection E as <- <-. }
  split; [exact H|]. apply (sched_bounded_waiting 40 1 four m' H). apply list_elem_of_lookup. by exists 2%nat.
Defined.
End SchedWitnesses.
