(* ===== verification/Futex.v ===== *)
(** * Futexes (src/syscall/futex.rs)

    The table of waiters and the two operations.  [FUTEX_WAIT] is split where it
    gives up the CPU: [futex_enter] runs up to [context::switch], [futex_leave]
    what follows it.  Both critical sections run with the lock of [FUTEXES] held,
    so each is one step.

    What a call reads and does not change (the page table and the memory of the
    caller) is an argument of type [View]. *)

From S2P Require Import Prelude PageInfo FrameAllocator Rmm OrdMap Grants CpuSet UserCopy Sync Scheduler.

Record FutexEntry := mkEntry {
  target_virtaddr : Z;
  context_lock : Z;
  addr_space : Z;
}.
#[export] Instance FutexEntry_eq_dec : EqDecision FutexEntry.
Proof. solve_decision. Defined.

(** [FutexList], keyed by physical address, and the contexts. *)
Record FutexState := mkFS {
  futexes : gmap Z (list FutexEntry);
  f_sched : Sched;
}.

(** [translate] gives the physical address of a mapped page; [load_u32] reads
    physical memory, [load_u64] the memory of the current address space. *)
Record View := mkView {
  space : option Z;
  translate : Z -> option Z;
  load_u32 : Z -> Z;
  load_u64 : Z -> Z;
  user : UserMem;
}.

Inductive FutexOp := FUTEX_WAIT | FUTEX_WAIT64 | FUTEX_WAKE | FUTEX_OTHER.

Definition with_fsched {A} (m : M Sched A) : M FutexState A :=
  fun s => match m (f_sched s) with
           | Done (a, x) => Done (a, mkFS (futexes s) x)
           | Panic => Panic
           end.
Definition set_futexes (f : gmap Z (list FutexEntry)) : M FutexState unit := modify (fun s => mkFS f (f_sched s)).

Definition validate_and_translate_virt (v : View) (addr : Z) : option Z :=
  if USER_END_OFFSET <=? saturating_add addr 8 then None
  else
    let page := addr - addr mod PAGE_SIZE in
    let off := addr - page in
    (fun frame => frame + off) <$> translate v page.

(** ** Deadlines *)

(** [syscall::data::TimeSpec] *)
Record TimeSpec := mkTimeSpec { tv_sec : Z; tv_nsec : Z }.
Definition NANOS_PER_SEC : Z := 1000000000.
Definition TIMESPEC_SIZE : Z := 16.

Definition signed (bits x : Z) : Z := if x <? 2 ^ (bits - 1) then x else x - 2 ^ bits.
(** An [i64] and an [i32], then padding. *)
Definition timespec_of_bytes (l : list Z) : TimeSpec :=
  mkTimeSpec (signed 64 (from_ne_bytes (take 8 l))) (signed 32 (from_ne_bytes (take 4 (drop 8 l)))).

(** [+] and [*] on [u128]: overflow panics when overflow checks are on. *)
Definition u128 (dbg : bool) {S} (x : Z) : M S Z :=
  if (x <? 2 ^ 128) then ret x else if dbg then panic else ret (x mod 2 ^ 128).
Definition as_u128 (x : Z) : Z := x mod 2 ^ 128.

(** [tv_sec as u128 * NANOS_PER_SEC + tv_nsec as u128] *)
Definition deadline (dbg : bool) {S} (t : TimeSpec) : M S Z :=
  let! a := u128 dbg (as_u128 (tv_sec t) * NANOS_PER_SEC) in
  u128 dbg (a + as_u128 (tv_nsec t)).

(** A read of the caller's memory. *)
Definition read_user {S A} (v : View) (m : M UserMem A) : M S A :=
  fun s => match m (user v) with Done (a, _) => Done (a, s) | Panic => Panic end.

Definition read_timespec {S} (v : View) (buf : UserSlice) : M S (result Error TimeSpec) :=
  let? bytes := read_user v (limited buf TIMESPEC_SIZE (fun b => copy_to_slice b TIMESPEC_SIZE)) in
  ok (timespec_of_bytes bytes).

(** ** Waiting *)

(** The value in memory and the value expected. *)
Definition fetch (v : View) (op : FutexOp) (addr target_physaddr val : Z) : result Error (Z * Z) :=
  match op with
  | FUTEX_WAIT =>
      if negb (addr mod 4 =? 0) then Err EINVAL
      else Ok (load_u32 v target_physaddr, val mod 2 ^ 32)
  | _ =>
      if negb (addr mod 8 =? 0) then Err EINVAL
      else Ok (load_u64 v addr, val)
  end.

(** The critical section of [FUTEX_WAIT], after the deadline was read. *)
Definition enqueue (dbg : bool) (v : View) (cid space_ addr target_physaddr : Z) (op : FutexOp) (val : Z) (timeout_opt : option TimeSpec)
  : M FutexState (result Error unit) :=
  match fetch v op addr target_physaddr val with
  | Err e => err e
  | Ok (fetched, expected) =>
      if negb (fetched =? expected) then err EAGAIN
      else
        let! wake := match timeout_opt with Some t => (let! d := deadline dbg t in ret (Some d)) | None => ret None end in
        with_fsched (update_ctx cid (set_wake wake)) ;;;
        let! c := with_fsched (the_ctx cid) in
        if sig_pending c then err EINTR
        else
          with_fsched (block cid "futex") ;;;
          let! s := get_state in
          set_futexes (<[target_physaddr := default [] (futexes s !! target_physaddr) ++ [mkEntry addr cid space_]]> (futexes s)) ;;;
          ok tt
  end.

(** [Parked]: the context is to switch, then to call [futex_leave]. *)
Inductive Entered := Parked (timed : bool) | Returned (n : Z).

Definition futex_wait (dbg : bool) (v : View) (cid space_ addr target_physaddr : Z) (op : FutexOp) (val val2 : Z)
  : M FutexState (result Error Entered) :=
  let? buf := ret (us_new val2 TIMESPEC_SIZE) in
  let? timeout_opt :=
    match none_if_null buf with
    | None => ok None
    | Some buf => let? t := read_timespec v buf in ok (Some t)
    end in
  let? _ := enqueue dbg v cid space_ addr target_physaddr op val timeout_opt in
  ok (Parked (match timeout_opt with Some _ => true | None => false end)).

(** ** Waking *)

(** [Vec::swap_remove] *)
Definition swap_remove (i : nat) (l : list FutexEntry) : list FutexEntry :=
  match last l with
  | Some x => take (length l - 1) (<[i := x]> l)
  | None => []
  end.

(** [while i < futexes.len() && woken < val]: each iteration advances [i] or
    shortens the list. *)
Fixpoint wake_loop (fuel : nat) (target_virtaddr_ space_ val : Z) (i : nat) (woken : Z) (l : list FutexEntry)
  : M Sched (Z * list FutexEntry) :=
  match fuel with
  | O => ret (woken, l)
  | S fuel' =>
      match l !! i with
      | None => ret (woken, l)
      | Some e =>
          if woken <? val then
            if negb (target_virtaddr e =? target_virtaddr_) || negb (addr_space e =? space_)
            then wake_loop fuel' target_virtaddr_ space_ val (S i) woken l
            else
              unblock (context_lock e) ;;;
              wake_loop fuel' target_virtaddr_ space_ val i (woken + 1) (swap_remove i l)
          else ret (woken, l)
      end
  end.

Definition futex_wake (space_ target_virtaddr_ target_physaddr val : Z) : M FutexState Z :=
  let! s := get_state in
  match futexes s !! target_physaddr with
  | None => ret 0
  | Some l =>
      let! '(woken, l') := with_fsched (wake_loop (length l) target_virtaddr_ space_ val 0 0 l) in
      set_futexes (match l' with [] => delete target_physaddr (futexes s) | _ => <[target_physaddr := l']> (futexes s) end) ;;;
      ret woken
  end.

(** ** The system call *)

Definition futex_enter (dbg : bool) (v : View) (cid addr : Z) (op : FutexOp) (val val2 : Z) : M FutexState (result Error Entered) :=
  match space v with
  | None => err ESRCH
  | Some space_ =>
      match validate_and_translate_virt v addr with
      | None => err EFAULT
      | Some target_physaddr =>
          match op with
          | FUTEX_WAIT | FUTEX_WAIT64 =>
              futex_wait dbg v cid space_ addr target_physaddr op val val2
          | FUTEX_WAKE =>
              let! woken := futex_wake space_ addr target_physaddr val in
              ok (Returned woken)
          | FUTEX_OTHER => err EINVAL
          end
      end
  end.

(** After the switch: a timeout is recognised by [wake] having been cleared. *)
Definition futex_leave (cid : Z) (timed : bool) : M FutexState (result Error Z) :=
  let! c := with_fsched (the_ctx cid) in
  match wake c with
  | None => if timed then err ETIMEDOUT else ok 0
  | Some _ => ok 0
  end.
