(* ===== verification/FutexSpec.v ===== *)
(** * Properties of futexes

    What the two operations do, that a wake-up is not lost between a waiter's
    test of the futex word and its sleep, and three sequences in which a waiter
    sleeps on although the call that should wake it succeeded. *)

From S2P Require Import Prelude PageInfo FrameAllocator Rmm OrdMap Grants CpuSet UserCopy Sync SyncSpec Scheduler SchedulerSpec Futex.

(** ** Waking *)

Definition matches (virt sp : Z) (e : FutexEntry) : bool := (target_virtaddr e =? virt) && (addr_space e =? sp).

Lemma swap_remove_spec i l e : l !! i = Some e ->
  l ≡ₚ e :: swap_remove i l /\ S (length (swap_remove i l)) = length l /\ take i (swap_remove i l) = take i l.
Proof.
  intros Hi. pose proof (lookup_lt_Some _ _ _ Hi) as Hlt. destruct (exists_last (l := l)) as (l0 & x & ->); [by intros ->|].
  unfold swap_remove. rewrite last_snoc, length_app in *. cbn [length] in *. rewrite Nat.add_sub.
  destruct (decide (i < length l0)%nat) as [H|H].
  - rewrite insert_app_l by done. rewrite take_app_le by (rewrite length_insert; lia).
    rewrite take_ge by (rewrite length_insert; lia). rewrite lookup_app_l in Hi by done.
    rewrite length_insert. split; [|split; [lia|by rewrite take_insert_ge, take_app_le by lia]].
    rewrite (insert_take_drop l0 i x H). rewrite <- (take_drop_middle l0 i e Hi) at 1.
    rewrite <- app_assoc. cbn [app]. rewrite <- Permutation_middle. apply perm_skip, Permutation_app_head.
    by rewrite Permutation_app_comm.
  - assert (i = length l0) as -> by lia. rewrite lookup_app_r in Hi by lia. rewrite Nat.sub_diag in Hi. injection Hi as ->.
    rewrite insert_app_r_alt by lia. rewrite Nat.sub_diag. cbn [insert list_insert]. rewrite take_app_length.
    split; [by rewrite Permutation_app_comm|]. split; [lia|]. by rewrite take_ge.
Qed.

(** The effect of waking the contexts in [ws]. *)
Definition woke (s s' : Sched) (ws : list Z) : Prop :=
  this_cpu s' = this_cpu s /\ forall x, ctxs s' !! x = if decide (x ∈ ws) then woken <$> ctxs s !! x else ctxs s !! x.

Definition known (s : Sched) (l : list FutexEntry) : Prop := Forall (fun e => is_Some (ctxs s !! context_lock e)) l.

Lemma known_insert s s' cid c l : ctxs s' = <[cid := c]> (ctxs s) -> known s l -> known s' l.
Proof.
  intros E H. eapply Forall_impl; [exact H|]. intros e [c' Hc']. rewrite E. rewrite lookup_insert_is_Some.
  destruct (decide (cid = context_lock e)); eauto.
Qed.

Lemma wake_loop_run virt sp val : forall fuel i n l s, known s l -> (i <= length l)%nat -> (length l - i <= fuel)%nat ->
  Forall (fun e => matches virt sp e = false) (take i l) -> n <= val ->
  exists l' gone s', wake_loop fuel virt sp val i n l s = Done ((n + Z.of_nat (length gone), l'), s') /\
    l ≡ₚ gone ++ l' /\ Forall (fun e => matches virt sp e = true) gone /\ n + Z.of_nat (length gone) <= val /\
    (n + Z.of_nat (length gone) < val -> Forall (fun e => matches virt sp e = false) l') /\
    woke s s' (map context_lock gone).
Proof.
  assert (Hnil : forall s, woke s s []).
  { intros s. split; [done|]. intros x. by rewrite decide_False by apply not_elem_of_nil. }
  induction fuel as [|fuel IH]; intros i n l s Hk Hi Hf Ht Hn; cbn [wake_loop].
  { exists l, [], s. cbn. rewrite Z.add_0_r. split_and!; try done. intros _. by rewrite take_ge in Ht by lia. }
  destruct (l !! i) as [e|] eqn:He.
  2: { apply lookup_ge_None in He. exists l, [], s. cbn. rewrite Z.add_0_r. split_and!; try done. intros _. by rewrite take_ge in Ht by lia. }
  destruct (Z.ltb_spec n val) as [Hlt|Hge].
  2: { exists l, [], s. cbn. rewrite Z.add_0_r. split_and!; try done. intros. lia. }
  pose proof (lookup_lt_Some _ _ _ He) as Hil.
  destruct (matches virt sp e) eqn:Hm; unfold matches in Hm; destruct (target_virtaddr e =? virt) eqn:E1, (addr_space e =? sp) eqn:E2; try done; cbn [negb orb].
  2-4: destruct (IH (S i) n l s) as (l' & gone & s' & Hrun & ?); [done|lia|lia| |done|by exists l', gone, s'];
       erewrite take_S_r by done; apply Forall_app; split; [done|]; constructor; [|done]; unfold matches; by rewrite E1, E2.
  destruct (swap_remove_spec i l e He) as (Hp & Hlen & Htk).
  assert (Hke : is_Some (ctxs s !! context_lock e)) by (eapply Forall_lookup_1 in Hk; done). destruct Hke as [c Hc].
  destruct (unblock_run _ _ _ Hc) as (b & s1 & Hub & Hcpu & Hctx). rewrite (bind_Done _ _ _ _ _ Hub).
  destruct (IH i (n + 1) (swap_remove i l) s1) as (l' & gone & s' & Hrun & Hp' & Hg & Hle & Hno & Hw); [|lia|lia|by rewrite Htk|lia|].
  { eapply known_insert; [done|]. unfold known in *. rewrite Hp in Hk. by inversion Hk. }
  exists l', (e :: gone), s'. cbn [length map app]. replace (n + Z.of_nat (S (length gone))) with (n + 1 + Z.of_nat (length gone)) by lia.
  split_and!; try done.
  - by rewrite Hp, Hp'.
  - constructor; [|done]. unfold matches. by rewrite E1, E2.
  - destruct Hw as [Hw1 Hw2]. split; [congruence|]. intros x. rewrite Hw2, Hctx. destruct (decide (x = context_lock e)) as [->|Hne].
    + rewrite lookup_insert_eq, Hc. rewrite (decide_True (P := context_lock e ∈ context_lock e :: _)) by apply list_elem_of_here.
      cbn. case_decide; cbn; by rewrite ?woken_idem.
    + rewrite lookup_insert_ne by done. destruct (decide (x ∈ map context_lock gone)).
      * rewrite decide_True by by apply list_elem_of_further. done.
      * rewrite decide_False; [done|]. by intros [?|?]%elem_of_cons.
Qed.

Definition entries (s : FutexState) (phys : Z) : list FutexEntry := default [] (futexes s !! phys).
Definition fs_known (s : FutexState) : Prop := forall phys, known (f_sched s) (entries s phys).

Lemma futex_wake_run sp virt phys val s : fs_known s -> 0 <= val ->
  exists gone s', futex_wake sp virt phys val s = Done (Z.of_nat (length gone), s') /\
    entries s phys ≡ₚ gone ++ entries s' phys /\ (forall q, q <> phys -> entries s' q = entries s q) /\
    Forall (fun e => matches virt sp e = true) gone /\ Z.of_nat (length gone) <= val /\
    (Z.of_nat (length gone) < val -> Forall (fun e => matches virt sp e = false) (entries s' phys)) /\
    woke (f_sched s) (f_sched s') (map context_lock gone).
Proof.
  intros Hk Hv. unfold futex_wake, bind at 1, get_state. specialize (Hk phys). unfold entries in *.
  destruct (futexes s !! phys) as [l|] eqn:Hl; cbn [default] in *.
  2: { exists [], s. split; [done|]. rewrite Hl. cbn. split_and!; try done. all: intros x; by rewrite decide_False by apply not_elem_of_nil. }
  destruct (wake_loop_run virt sp val (length l) 0 0 l (f_sched s)) as (l' & gone & s' & Hrun & Hp & Hg & Hle & Hno & Hw); [done|lia|lia|done|done|].
  unfold bind at 1, with_fsched. rewrite Hrun. unfold set_futexes, bind, modify. cbn [ret].
  eexists gone, _. split; [reflexivity|]. cbn [futexes f_sched].
  assert (Hnew : default [] (match l' with [] => delete phys (futexes s) | _ => <[phys := l']> (futexes s) end !! phys) = l').
  { destruct l'; [by rewrite lookup_delete_eq|by rewrite lookup_insert_eq]. }
  rewrite Hnew. split_and!; try done. intros q Hq. destruct l'; [by rewrite lookup_delete_ne|by rewrite lookup_insert_ne].
Qed.

(** ** Waiting *)

Definition fblocked (s : FutexState) (cid : Z) : Prop := exists c, ctxs (f_sched s) !! cid = Some c /\ status c = Blocked.

Lemma block_run cid reason c s : ctxs s !! cid = Some c ->
  block cid reason s = Done (is_runnable (status c), if is_runnable (status c) then set_ctx cid (set_status Blocked reason c) s else s).
Proof. intros H. unfold block. rewrite H. by destruct (is_runnable (status c)). Qed.

(** The context as [FUTEX_WAIT] leaves it. *)
Definition parked (deadline_ : option Z) (c : Ctx) : Ctx :=
  let c := set_wake deadline_ c in
  if is_runnable (status c) then set_status Blocked "futex"%string c else c.

Lemma deadline_pure dbg {S} t (s : S) : (exists d, deadline dbg t s = Done (d, s)) \/ deadline dbg t s = Panic.
Proof.
  unfold deadline, bind, u128. destruct dbg, (as_u128 (tv_sec t) * NANOS_PER_SEC <? 2 ^ 128); cbn; [|by right|..].
  all: match goal with |- context [?x <? 2 ^ 128] => destruct (x <? 2 ^ 128) end; cbn; eauto.
Qed.

(** The deadline a call computes, [None] without a timeout. *)
Definition deadline_opt (dbg : bool) {S} (t : option TimeSpec) : M S (option Z) :=
  match t with Some t => (let! d := deadline dbg t in ret (Some d)) | None => ret None end.

Lemma deadline_opt_pure dbg {S} t (s : S) : (exists d, deadline_opt dbg t s = Done (d, s)) \/ deadline_opt dbg t s = Panic.
Proof.
  destruct t as [t|]; cbn; [|left; by eexists]. destruct (deadline_pure dbg t s) as [[d H]|H]; unfold bind; rewrite H; eauto.
Qed.

(** What the critical section of [FUTEX_WAIT] does once the word was found to
    hold the expected value. *)
Lemma enqueue_run dbg v cid sp addr phys op val t s c x d : ctxs (f_sched s) !! cid = Some c ->
  fetch v op addr phys val = Ok (x, x) -> deadline_opt dbg t s = Done (d, s) ->
  enqueue dbg v cid sp addr phys op val t s =
    if sig_pending c then Done (Err EINTR, mkFS (futexes s) (set_ctx cid (set_wake d c) (f_sched s)))
    else Done (Ok tt, mkFS (<[phys := entries s phys ++ [mkEntry addr cid sp]]> (futexes s)) (set_ctx cid (parked d c) (f_sched s))).
Proof.
  intros Hc Hf Hd. unfold enqueue. rewrite Hf, Z.eqb_refl. cbn [negb]. fold (@deadline_opt dbg FutexState t).
  rewrite (bind_Done _ _ _ _ _ Hd). unfold bind at 1, with_fsched at 1. rewrite (update_ctx_run _ _ _ _ Hc).
  unfold bind at 1, with_fsched at 1. cbn [f_sched futexes]. erewrite the_ctx_run by apply lookup_insert_eq.
  cbn [sig_pending set_wake]. destruct (sig_pending c); [done|].
  unfold bind at 1, with_fsched at 1. cbn [f_sched futexes]. erewrite block_run by apply lookup_insert_eq.
  unfold bind, get_state, set_futexes, modify. cbn [f_sched futexes set_wake status]. unfold parked, entries. cbn [set_wake status].
  destruct (is_runnable (status c)); [by rewrite set_ctx_twice|done].
Qed.

(** What it can do: nothing, set the deadline, or enter the caller. *)
Lemma enqueue_inv dbg v cid sp addr phys op val t s r s' : enqueue dbg v cid sp addr phys op val t s = Done (r, s') ->
  (exists e, r = Err e /\ s' = s) \/
  exists c d, ctxs (f_sched s) !! cid = Some c /\
    ((r = Err EINTR /\ s' = mkFS (futexes s) (set_ctx cid (set_wake d c) (f_sched s))) \/
     (r = Ok tt /\ s' = mkFS (<[phys := entries s phys ++ [mkEntry addr cid sp]]> (futexes s)) (set_ctx cid (parked d c) (f_sched s)))).
Proof.
  intros H. destruct (fetch v op addr phys val) as [[f x]|e] eqn:Hf.
  2: { unfold enqueue in H. rewrite Hf in H. injection H as <- <-. left. by exists e. }
  destruct (Z.eqb_spec f x) as [->|Hne].
  2: { unfold enqueue in H. rewrite Hf in H. destruct (Z.eqb_spec f x); [done|]. injection H as <- <-. left. by eexists. }
  destruct (deadline_opt_pure dbg t s) as [[d Hd]|Hd].
  2: { exfalso. unfold enqueue in H. rewrite Hf, Z.eqb_refl in H. cbn [negb] in H. fold (@deadline_opt dbg FutexState t) in H.
       unfold bind in H. by rewrite Hd in H. }
  destruct (ctxs (f_sched s) !! cid) as [c|] eqn:Hc.
  2: { exfalso. unfold enqueue in H. rewrite Hf, Z.eqb_refl in H. cbn [negb] in H. fold (@deadline_opt dbg FutexState t) in H.
       rewrite (bind_Done _ _ _ _ _ Hd) in H. unfold bind, with_fsched, update_ctx, the_ctx, bind in H. by rewrite Hc in H. }
  rewrite (enqueue_run _ _ _ _ _ _ _ _ _ _ _ _ _ Hc Hf Hd) in H. right. exists c, d. split; [done|].
  destruct (sig_pending c); injection H as <- <-; auto.
Qed.

Lemma read_timespec_pure {S} v buf (s : S) r s' : read_timespec v buf s = Done (r, s') -> s' = s.
Proof.
  intros (x & s1 & H1 & H2)%bind_Done_inv. unfold read_user in H1.
  destruct (limited _ _ _ (user v)) as [[y m]|]; [|done]. injection H1 as <- <-. by destruct y; injection H2 as _ <-.
Qed.

Lemma futex_wait_inv dbg v cid sp addr phys op val val2 s r s' :
  futex_wait dbg v cid sp addr phys op val val2 s = Done (r, s') ->
  (s' = s /\ exists e, r = Err e) \/
  exists t e, enqueue dbg v cid sp addr phys op val t s = Done (e, s') /\ (e = Ok tt \/ exists x, r = Err x).
Proof.
  unfold futex_wait, bind_result. rewrite bind_ret. destruct (us_new val2 TIMESPEC_SIZE) as [buf|e]; [|intros [= <- <-]; left; by eauto].
  intros (ot & s1 & Ht & Hrun)%bind_Done_inv.
  assert (s1 = s) as ->.
  { destruct (none_if_null buf); [|by injection Ht as _ <-]. apply bind_Done_inv in Ht as (x & s2 & Hx & Ht).
    apply read_timespec_pure in Hx as ->. by destruct x; injection Ht as _ <-. }
  destruct ot as [t|e]; [|injection Hrun as <- <-; left; by eauto]. right. apply bind_Done_inv in Hrun as (e & s1 & He & Hrun).
  exists t, e. destruct e as [[]|x]; injection Hrun as <- <-; eauto.
Qed.

(** ** Interleaving *)

(** A context between [futex_enter] and [futex_leave]; [w_put_back]: other code has
    put it back to sleep. *)
Record Waiter := mkWaiter { w_virt : Z; w_phys : Z; w_space : Z; w_timed : bool; w_put_back : bool }.
Definition mark_waiter (b : bool) (wt : Waiter) : Waiter :=
  mkWaiter (w_virt wt) (w_phys wt) (w_space wt) (w_timed wt) (b || w_put_back wt).
Record FWorld := mkFW { fs : FutexState; waiters : gmap Z Waiter }.

Definition wait_op (op : FutexOp) : Prop := op = FUTEX_WAIT \/ op = FUTEX_WAIT64.

Inductive fstep (w : FWorld) : FWorld -> Prop :=
| fs_wait dbg v cid sp phys addr op val val2 timed s' : waiters w !! cid = None -> wait_op op ->
    space v = Some sp -> validate_and_translate_virt v addr = Some phys ->
    futex_enter dbg v cid addr op val val2 (fs w) = Done (Ok (Parked timed), s') ->
    fstep w (mkFW s' (<[cid := mkWaiter addr phys sp timed false]> (waiters w)))
| fs_refused dbg v cid addr op val val2 e s' : waiters w !! cid = None ->
    futex_enter dbg v cid addr op val val2 (fs w) = Done (Err e, s') -> fstep w (mkFW s' (waiters w))
| fs_wake sp virt phys val n s' : 0 <= val -> futex_wake sp virt phys val (fs w) = Done (n, s') -> fstep w (mkFW s' (waiters w))
| fs_leave cid wt r s' : waiters w !! cid = Some wt -> ~ fblocked (fs w) cid ->
    futex_leave cid (w_timed wt) (fs w) = Done (r, s') -> fstep w (mkFW s' (delete cid (waiters w)))
| fs_kernel x : (** the scheduler, signals, debuggers, other code: anything may happen to the contexts, but those on a
                    list are kept alive by it *)
    (forall cid, is_Some (ctxs (f_sched (fs w)) !! cid) -> is_Some (ctxs x !! cid)) ->
    fstep w (mkFW (mkFS (futexes (fs w)) x)
      (map_imap (fun cid wt => Some (mark_waiter (put_back (f_sched (fs w)) x cid) wt)) (waiters w))).

Definition finitial (w : FWorld) : Prop := futexes (fs w) = ∅ /\ waiters w = ∅.
Definition freachable (w : FWorld) : Prop := exists w0, finitial w0 /\ rtc fstep w0 w.

(** A sleeping waiter is on the list, unless it was put back to sleep. *)
Record FInv (w : FWorld) : Prop := {
  fi_listed : forall cid wt, waiters w !! cid = Some wt -> w_put_back wt = false -> fblocked (fs w) cid ->
    mkEntry (w_virt wt) cid (w_space wt) ∈ entries (fs w) (w_phys wt);
  fi_known : fs_known (fs w)
}.

Lemma woke_blocked s s' x ws : woke (f_sched s) (f_sched s') ws -> fblocked s' x -> fblocked s x /\ x ∉ ws.
Proof.
  intros [_ Hw] (c & Hc & Hb). rewrite Hw in Hc. case_decide as Hd; [|split; [by exists c|done]].
  destruct (ctxs (f_sched s) !! x) as [c0|]; [|done]. injection Hc as <-. by apply woken_not_blocked in Hb.
Qed.

Lemma woke_known s s' ws l : woke s s' ws -> known s l -> known s' l.
Proof.
  intros [_ Hw] H. eapply Forall_impl; [exact H|]. cbn. intros e [c Hc]. rewrite Hw, Hc. case_decide; cbn; eauto.
Qed.

Lemma set_blocked cid c' f s x : fblocked (mkFS f (set_ctx cid c' (f_sched s))) x -> x = cid \/ fblocked s x.
Proof.
  intros (c & Hc & Hb). cbn [f_sched set_ctx ctxs] in Hc. destruct (decide (x = cid)) as [->|Hne]; [by left|].
  rewrite lookup_insert_ne in Hc by done. right. by exists c.
Qed.

Lemma set_known s cid c c' l : ctxs s !! cid = Some c -> known s l -> known (set_ctx cid c' s) l.
Proof. intros _. apply (known_insert s (set_ctx cid c' s) cid c'). done. Qed.

(** [FUTEX_WAIT] changes the caller's context and appends at most the caller's
    entry. *)
Lemma futex_wait_effect dbg v cid sp addr phys op val val2 s r s' : fs_known s ->
  futex_wait dbg v cid sp addr phys op val val2 s = Done (r, s') ->
  fs_known s' /\ (forall x, fblocked s' x -> x = cid \/ fblocked s x) /\
  (forall q e, e ∈ entries s q -> e ∈ entries s' q) /\
  ((exists e, r = Err e /\ forall x, fblocked s' x -> fblocked s x) \/ mkEntry addr cid sp ∈ entries s' phys).
Proof.
  intros Hk [[-> [e ->]]|(t & e & He & Hr)]%futex_wait_inv; [split_and!; eauto|].
  apply enqueue_inv in He as [(x & -> & ->)|(c & d & Hc & [[-> ->]|[-> ->]])].
  - destruct Hr as [?|[y ->]]; [done|]. split_and!; eauto.
  - destruct Hr as [?|[y ->]]; [done|]. split_and!; [intros q; by eapply set_known, Hk|intros x Hx; by eapply set_blocked|done|].
    left. exists y. split; [done|]. intros x (c' & Hc' & Hb). cbn [f_sched set_ctx ctxs] in Hc'. destruct (decide (x = cid)) as [->|Hne].
    + rewrite lookup_insert_eq in Hc'. injection Hc' as <-. by exists c.
    + rewrite lookup_insert_ne in Hc' by done. by exists c'.
  - assert (Hin : forall q, entries (mkFS (<[phys:=entries s phys ++ [mkEntry addr cid sp]]> (futexes s)) (set_ctx cid (parked d c) (f_sched s))) q
                  = if decide (q = phys) then entries s phys ++ [mkEntry addr cid sp] else entries s q).
    { intros q. unfold entries. cbn [futexes]. case_decide as Hq; [subst; by rewrite lookup_insert_eq|by rewrite lookup_insert_ne]. }
    split_and!.
    + intros q. rewrite Hin. cbn [f_sched]. case_decide; [|by eapply set_known, Hk]. apply Forall_app. split; [by eapply set_known, Hk|].
      constructor; [|done]. cbn. rewrite lookup_insert_eq. eauto.
    + intros x Hx. by eapply set_blocked.
    + intros q e He. rewrite Hin. case_decide; [subst; apply elem_of_app; by left|done].
    + right. rewrite Hin, decide_True by done. apply elem_of_app. right. apply list_elem_of_here.
Qed.

(** [futex_enter] is [FUTEX_WAIT], [FUTEX_WAKE] or an error that changes nothing. *)
Lemma futex_enter_inv dbg v cid addr op val val2 s r s' : futex_enter dbg v cid addr op val val2 s = Done (r, s') ->
  (s' = s /\ exists e, r = Err e) \/
  exists sp phys, space v = Some sp /\ validate_and_translate_virt v addr = Some phys /\
    (futex_wait dbg v cid sp addr phys op val val2 s = Done (r, s') \/
     exists n, r = Ok (Returned n) /\ futex_wake sp addr phys val s = Done (n, s')).
Proof.
  unfold futex_enter. destruct (space v) as [sp|]; [|intros [= <- <-]; left; by eauto].
  destruct (validate_and_translate_virt v addr) as [phys|]; [|intros [= <- <-]; left; by eauto].
  destruct op; [eauto 7..| |intros [= <- <-]; left; by eauto].
  intros (n & s1 & Hn & [= <- <-])%bind_Done_inv. right. exists sp, phys. eauto 6.
Qed.

Lemma FInv_step w w' : fstep w w' -> FInv w -> FInv w'.
Proof.
  intros Hst [I1 I2]. destruct Hst as [dbg v cid sp phys addr op val val2 timed s' Hnone Hop Hsp Htr Hrun|dbg v cid addr op val val2 e s' Hnone Hrun
    |sp virt phys val n s' Hv Hrun|cid wt r s' Hwt Hnb Hrun|x Hkn].
  - apply futex_enter_inv in Hrun as [[_ [? ?]]|(sp' & phys' & Hsp' & Htr' & [Hw|(n & ? & _)])]; [done| |done].
    assert (sp' = sp /\ phys' = phys) as [-> ->] by (split; congruence).
    destruct (futex_wait_effect _ _ _ _ _ _ _ _ _ _ _ _ I2 Hw) as (K & B & E & [(e & ? & _)|Hin]); [done|]. split; cbn [fs waiters]; [|exact K].
    intros x wt Hx Hpb Hb. destruct (decide (x = cid)) as [->|Hne].
    + rewrite lookup_insert_eq in Hx. injection Hx as <-. exact Hin.
    + rewrite lookup_insert_ne in Hx by done. destruct (B x Hb) as [?|Hb']; [done|]. by apply E, (I1 x wt).
  - apply futex_enter_inv in Hrun as [[-> _]|(sp' & phys' & Hsp' & Htr' & [Hw|(n & ? & _)])]; [by split| |done].
    destruct (futex_wait_effect _ _ _ _ _ _ _ _ _ _ _ _ I2 Hw) as (K & B & E & _). split; cbn [fs waiters]; [|exact K].
    intros x wt Hx Hpb Hb. destruct (B x Hb) as [->|Hb']; [congruence|]. by apply E, (I1 x wt).
  - destruct (futex_wake_run sp virt phys val _ I2 Hv) as (gone & s1 & Hrun' & Hp & Ho & _ & _ & _ & Hw).
    rewrite Hrun in Hrun'. injection Hrun' as _ <-. split; cbn [fs waiters].
    + intros x wt Hx Hpb Hb. destruct (woke_blocked _ _ _ _ Hw Hb) as [Hb' Hng]. specialize (I1 x wt Hx Hpb Hb').
      destruct (decide (w_phys wt = phys)) as [E|Hne]; [|by rewrite Ho]. rewrite E in *. rewrite Hp in I1.
      apply elem_of_app in I1 as [Hg|?]; [|done]. exfalso. apply Hng. apply list_elem_of_fmap. eexists. by split; [|exact Hg].
    + intros q. eapply woke_known; [exact Hw|]. destruct (decide (q = phys)) as [->|Hne]; [|rewrite Ho by done; apply I2].
      specialize (I2 phys). unfold known in *. rewrite Hp in I2. by apply Forall_app in I2 as [_ ?].
  - assert (s' = fs w) as ->.
    { unfold futex_leave, bind, with_fsched, the_ctx in Hrun. destruct (ctxs (f_sched (fs w)) !! cid) as [c|]; [|done]. cbn in Hrun.
      destruct (fs w). cbn in Hrun. repeat case_match; by injection Hrun as _ <-. }
    split; cbn [fs waiters]; [|exact I2]. intros x wt' [_ Hx]%lookup_delete_Some. by apply I1.
  - split; cbn [fs waiters].
    + intros cid wt. rewrite map_lookup_imap. intros (wt0 & Hx & [= <-])%bind_Some [Hn Hpb]%orb_false_elim Hb.
      apply (I1 cid wt0 Hx Hpb), asleep_spec. eapply put_back_false; [exact Hn|]. by apply asleep_spec.
    + intros q. eapply Forall_impl; [apply (I2 q)|]. intros e He. by apply Hkn.
Qed.

Lemma freachable_inv w : freachable w -> FInv w.
Proof.
  intros (w0 & [H1 H2] & Hr). assert (H0 : FInv w0).
  { split; [intros cid wt Hw; by rewrite H2, lookup_empty in Hw|]. intros q. unfold entries. rewrite H1, lookup_empty. by constructor. }
  clear H1 H2. induction Hr as [|x y z Hxy _ IH]; [done|]. apply IH. by eapply FInv_step.
Qed.

(** ** Theorems *)

(** [FUTEX_WAIT] tests and sleeps in one step: it is refused with [EAGAIN]
    if the word does not hold the expected value, with [EINTR] if a signal is
    pending, and otherwise blocks the caller with the given deadline and appends
    exactly the caller's entry to the list of the word's physical address. *)
Theorem futex_wait_correct dbg v cid sp addr phys op val t s c x y d : ctxs (f_sched s) !! cid = Some c ->
  fetch v op addr phys val = Ok (x, y) -> deadline_opt dbg t s = Done (d, s) ->
  exists r s', enqueue dbg v cid sp addr phys op val t s = Done (r, s') /\
  ((x <> y /\ r = Err EAGAIN /\ s' = s) \/
   (x = y /\ sig_pending c = true /\ r = Err EINTR /\ futexes s' = futexes s /\ f_sched s' = set_ctx cid (set_wake d c) (f_sched s)) \/
   (x = y /\ sig_pending c = false /\ r = Ok tt /\
    (forall q, entries s' q = if decide (q = phys) then entries s q ++ [mkEntry addr cid sp] else entries s q) /\
    f_sched s' = set_ctx cid (parked d c) (f_sched s) /\ (status c = Runnable -> fblocked s' cid))).
Proof.
  intros Hc Hf Hd. destruct (Z.eqb_spec x y) as [->|Hne].
  - rewrite (enqueue_run _ _ _ sp _ _ _ _ _ _ _ _ _ Hc Hf Hd). destruct (sig_pending c) eqn:Hsig.
    + eexists _, _. split; [reflexivity|]. right. left. by cbn.
    + eexists _, _. split; [reflexivity|]. right. right. cbn [f_sched]. split_and!; try done.
      * intros q. unfold entries. cbn [futexes]. case_decide as Hq; [subst; by rewrite lookup_insert_eq|by rewrite lookup_insert_ne].
      * intros Hst. eexists. cbn [f_sched set_ctx ctxs]. rewrite lookup_insert_eq. split; [done|]. unfold parked. cbn [set_wake status]. by rewrite Hst.
  - unfold enqueue. rewrite Hf. destruct (Z.eqb_spec x y); [done|]. cbn [negb]. eexists _, _. split; [reflexivity|]. by left.
Qed.

(** C17: [FUTEX_WAKE] terminates without panicking.  It removes at most [val]
    entries, all of them from the list of the word's physical address, returns
    their number, makes exactly their contexts runnable if they sleep, and touches
    no other context and no other list; and if it returns less than [val], no entry
    that the caller's own address space made for this virtual address is left.
    (That it passes over the waiters of other address spaces on a shared word, which
    the physical key is meant for, is [futex_shared_word_not_woken].) *)
Theorem futex_wake_correct sp virt phys val s : fs_known s -> 0 <= val ->
  exists gone s', futex_wake sp virt phys val s = Done (Z.of_nat (length gone), s') /\
    entries s phys ≡ₚ gone ++ entries s' phys /\ (forall q, q <> phys -> entries s' q = entries s q) /\
    Z.of_nat (length gone) <= val /\
    (Z.of_nat (length gone) < val -> forall e, e ∈ entries s' phys -> ~ (target_virtaddr e = virt /\ addr_space e = sp)) /\
    this_cpu (f_sched s') = this_cpu (f_sched s) /\
    (forall cid, ctxs (f_sched s') !! cid =
       match ctxs (f_sched s) !! cid with
       | Some c => Some (match status c with
                         | Blocked => if decide (cid ∈ map context_lock gone) then set_status Runnable ""%string c else c
                         | _ => c
                         end)
       | None => None
       end).
Proof.
  intros Hk Hv. destruct (futex_wake_run sp virt phys val s Hk Hv) as (gone & s' & Hrun & Hp & Ho & _ & Hle & Hno & Hc & Hw).
  exists gone, s'. split_and!; try done.
  - intros Hlt e He [<- <-]. specialize (Hno Hlt). rewrite Forall_forall in Hno. specialize (Hno e He).
    unfold matches in Hno. by rewrite !Z.eqb_refl in Hno.
  - intros cid. rewrite Hw. destruct (ctxs (f_sched s) !! cid) as [c|]; [|by case_decide]. unfold woken.
    cbn [fmap option_fmap option_map]. case_decide; destruct (status c); reflexivity.
Qed.

(** C16: no wake-up is lost.  In every interleaving of waits, wake-ups, timeouts,
    signals, stops and other kernel code, a call of [FUTEX_WAKE] that was not stopped
    by its count leaves no context of its address space asleep that waits at the same
    virtual address, provided that the page has still the frame it had when the
    context went to sleep (see [futex_copied_page_loses_waiter]) and that the context
    has not been put back to sleep by a stop that met its wake-up (see
    [futex_stop_loses_wakeup]). *)
Theorem futex_no_lost_wakeup w dbg v cid0 sp addr phys val val2 : freachable w -> 0 <= val ->
  space v = Some sp -> validate_and_translate_virt v addr = Some phys ->
  exists n s', futex_enter dbg v cid0 addr FUTEX_WAKE val val2 (fs w) = Done (Ok (Returned n), s') /\ n <= val /\
    (n < val -> forall cid wt, waiters w !! cid = Some wt -> w_space wt = sp -> w_virt wt = addr ->
       w_phys wt = phys -> w_put_back wt = false -> ~ fblocked s' cid).
Proof.
  intros Hr Hv Hsp Htr. destruct (freachable_inv w Hr) as [I1 I2].
  destruct (futex_wake_run sp addr phys val _ I2 Hv) as (gone & s' & Hrun & Hp & _ & _ & Hle & Hno & Hw).
  exists (Z.of_nat (length gone)), s'. split.
  { unfold futex_enter. rewrite Hsp, Htr, (bind_Done _ _ _ _ _ Hrun). done. }
  split; [done|]. intros Hlt cid wt Hwt <- <- <- Hpb Hb.
  destruct (woke_blocked _ _ _ _ Hw Hb) as [Hb' Hng]. specialize (I1 cid wt Hwt Hpb Hb'). rewrite Hp in I1.
  apply elem_of_app in I1 as [Hg|Hin].
  - apply Hng, list_elem_of_fmap. eexists. by split; [|exact Hg].
  - specialize (Hno Hlt). rewrite Forall_forall in Hno. specialize (Hno _ Hin). unfold matches in Hno. cbn in Hno. by rewrite !Z.eqb_refl in Hno.
Qed.

(** ** Sequences in which a waiter is forgotten *)

Module FutexTraces.

Definition ready : Ctx := set_status Runnable ""%string new_ctx.
Definition sched0 : Sched := mkSched (<[1 := ready]> (<[2 := ready]> (<[3 := ready]> ∅))) 0 ∅ 0.
(** Address space 7 maps the page 0x1000 at 0x80000, where the word is 5, and
    holds a [TimeSpec] of one second at 0x2000. *)
Definition view : View :=
  mkView (Some 7) (fun page => if page =? 0x1000 then Some 0x80000 else None) (fun _ => 5) (fun _ => 5)
         (mkUserMem (list_to_map (zip (addrs 0x2000 16) (to_ne_bytes 8 1 ++ to_ne_bytes 8 0))) ∅).
(** The page after a copy on write. *)
Definition view_moved : View :=
  mkView (Some 7) (fun page => if page =? 0x1000 then Some 0x90000 else None) (fun _ => 5) (fun _ => 5) (user view).

Definition after {S A} (m : M S A) (s : S) : S := match m s with Done (_, s') => s' | Panic => s end.

Definition s0 : FutexState := mkFS ∅ sched0.
Definition s1 : FutexState := after (futex_enter true view 1 0x1000 FUTEX_WAIT 5 0x2000) s0.
(** The deadline of context 1 passes. *)
Definition s2 : FutexState := mkFS (futexes s1) (after (update_runnable 2000000000 1) (f_sched s1)).
Definition s3 : FutexState := after (futex_enter true view 2 0x1000 FUTEX_WAIT 5 0) s2.
Definition s4 : FutexState := after (futex_wake 7 0x1000 0x80000 1) s3.

Definition waiter : Waiter := mkWaiter 0x1000 0x80000 7 false false.

Lemma trace_reachable : freachable (mkFW s3 {[2 := waiter]}).
Proof.
  exists (mkFW s0 ∅). split; [by split|].
  eapply rtc_l. { eapply (fs_wait _ true view 1 7 0x80000 0x1000 FUTEX_WAIT 5 0x2000 true s1); [done|by left|vm_compute; reflexivity..]. }
  eapply rtc_l. { apply (fs_kernel _ (f_sched s2)); cbn [waiters fs].
    intros cid [c Hc]. destruct (decide (cid = 1)) as [->|H1]; [by eexists|].
      destruct (decide (cid = 2)) as [->|H2]; [by eexists|]. destruct (decide (cid = 3)) as [->|H3]; [by eexists|]. exfalso.
      assert (Hs : f_sched s1 = set_ctx 1 (parked (Some 1000000000) ready) sched0) by (vm_compute; reflexivity).
      rewrite Hs in Hc. cbn [set_ctx ctxs sched0] in Hc. rewrite !lookup_insert_ne, lookup_empty in Hc by done. done. }
  cbn [waiters fs]. replace (map_imap _ _) with ({[1 := mkWaiter 0x1000 0x80000 7 true false]} : gmap Z Waiter) by (vm_compute; reflexivity).
  eapply rtc_l. { eapply (fs_leave _ 1 (mkWaiter 0x1000 0x80000 7 true false) (Err ETIMEDOUT) s2); cbn [waiters fs].
    - vm_compute. reflexivity.
    - intros (c & Hc & Hb). vm_compute in Hc. injection Hc as <-. done.
    - vm_compute. reflexivity. }
  eapply rtc_l. { eapply (fs_wait _ true view 2 7 0x80000 0x1000 FUTEX_WAIT 5 0 false s3); [vm_compute; reflexivity|by left|vm_compute; reflexivity..]. }
  cbn [waiters fs]. rewrite delete_singleton_eq. apply rtc_refl.
Qed.

(** A waiter that timed out stays on the list.  There is a reachable state in
    which exactly one context sleeps in a futex call, and a [FUTEX_WAKE] of one
    waiter of that word returns 1 and wakes nobody: it took the entry of a
    context that had returned with [ETIMEDOUT] before. *)
Theorem futex_timed_out_entry_absorbs_wake :
  exists w n s', freachable w /\ waiters w = {[2 := waiter]} /\ fblocked (fs w) 2 /\
    futex_wake 7 0x1000 0x80000 1 (fs w) = Done (n, s') /\ n = 1 /\ fblocked s' 2 /\
    ctxs (f_sched s') = ctxs (f_sched (fs w)).
Proof.
  exists (mkFW s3 {[2 := waiter]}), 1, s4. split; [apply trace_reachable|]. split; [done|]. cbn [fs].
  split; [eexists; split; vm_compute; reflexivity|]. split; [vm_compute; reflexivity|]. split; [done|].
  split; [eexists; split; vm_compute; reflexivity|]. vm_compute. reflexivity.
Qed.

Definition t1 : FutexState := after (futex_enter true view 1 0x1000 FUTEX_WAIT 5 0) s0.

(** A waiter is lost when its page moves.  After a context went to sleep on a
    word, the same address space wakes the same virtual address, but a copy on
    write has given the page another frame: the call finds no list, returns 0,
    and the waiter sleeps on.  The virtual address kept in the entry for this
    case is never looked up. *)
Theorem futex_copied_page_loses_waiter :
  exists w s', freachable w /\ waiters w = {[1 := waiter]} /\ fblocked (fs w) 1 /\
    space view_moved = Some (w_space waiter) /\ validate_and_translate_virt view_moved (w_virt waiter) <> None /\
    futex_enter true view_moved 2 (w_virt waiter) FUTEX_WAKE 1 0 (fs w) = Done (Ok (Returned 0), s') /\ fblocked s' 1.
Proof.
  exists (mkFW t1 {[1 := waiter]}), t1. split.
  { exists (mkFW s0 ∅). split; [by split|]. apply rtc_once.
    apply (fs_wait (mkFW s0 ∅) true view 1 7 0x80000 0x1000 FUTEX_WAIT 5 0 false t1); [done|by left|vm_compute; reflexivity..]. }
  split; [done|]. split; [eexists; split; vm_compute; reflexivity|]. split; [done|].
  split; [by vm_compute|]. split; [vm_compute; reflexivity|]. eexists; split; vm_compute; reflexivity.
Qed.

(** A word of a page that two address spaces share: the waiter is of space 7, and
    space 8 wakes the same physical word.  The call returns 0 and the waiter sleeps
    on, whether the virtual addresses agree or not: the address space is compared
    also where the physical addresses are equal. *)
Definition view_other (page0 : Z) : View :=
  mkView (Some 8) (fun page => if page =? page0 then Some 0x80000 else None) (fun _ => 5) (fun _ => 5) (user view).

Theorem futex_shared_word_not_woken :
  exists w, freachable w /\ waiters w = {[1 := waiter]} /\ fblocked (fs w) 1 /\
    validate_and_translate_virt (view_other 0x1000) 0x1000 = Some (w_phys waiter) /\
    futex_enter true (view_other 0x1000) 2 0x1000 FUTEX_WAKE 1 0 (fs w) = Done (Ok (Returned 0), fs w) /\
    validate_and_translate_virt (view_other 0x3000) 0x3000 = Some (w_phys waiter) /\
    futex_enter true (view_other 0x3000) 2 0x3000 FUTEX_WAKE 1 0 (fs w) = Done (Ok (Returned 0), fs w).
Proof.
  exists (mkFW t1 {[1 := waiter]}). split.
  { exists (mkFW s0 ∅). split; [by split|]. apply rtc_once.
    apply (fs_wait (mkFW s0 ∅) true view 1 7 0x80000 0x1000 FUTEX_WAIT 5 0 false t1); [done|by left|vm_compute; reflexivity..]. }
  split; [done|]. split; [eexists; split; vm_compute; reflexivity|]. split_and!; vm_compute; reflexivity.
Qed.

(** A stop that meets the wake-up.  Context 1 sleeps in a call; a debugger stops it
    ([try_stop_context] remembers that it was asleep), the wake-up takes its entry
    and leaves it stopped, and the debugger gives it the old status back: it sleeps
    and is on no list. *)
Definition stopped (x : Sched) (st : Status) : Sched := after (update_ctx 1 (set_status st "futex"%string)) x.
Definition t2 : FutexState := mkFS (futexes t1) (stopped (f_sched t1) (HardBlocked Stopped)).
Definition t3 : FutexState := after (futex_wake 7 0x1000 0x80000 1) t2.
Definition t4 : FutexState := mkFS (futexes t3) (stopped (f_sched t3) Blocked).
Definition stopped_waiter : Waiter := mkWaiter 0x1000 0x80000 7 false true.

Lemma stopped_known cid x st : ctxs x !! 1 <> None -> is_Some (ctxs x !! cid) -> is_Some (ctxs (stopped x st) !! cid).
Proof.
  intros H1 H. unfold stopped, after. destruct (ctxs x !! 1) as [c|] eqn:E; [|done].
  rewrite (update_ctx_run _ _ _ _ E). cbn [ctxs set_ctx]. apply lookup_insert_is_Some'. by right.
Qed.

Theorem futex_stop_loses_wakeup :
  exists w, freachable w /\ waiters w = {[1 := stopped_waiter]} /\ fblocked (fs w) 1 /\ futexes (fs w) = ∅.
Proof.
  exists (mkFW t4 {[1 := stopped_waiter]}). split; [|split; [done|split; [eexists; split; vm_compute; reflexivity|vm_compute; reflexivity]]].
  exists (mkFW s0 ∅). split; [by split|].
  eapply rtc_l. { apply (fs_wait (mkFW s0 ∅) true view 1 7 0x80000 0x1000 FUTEX_WAIT 5 0 false t1); [done|by left|vm_compute; reflexivity..]. }
  eapply rtc_l. { apply (fs_kernel _ (f_sched t2)). intros cid. apply (stopped_known cid (f_sched t1)). vm_compute. discriminate. }
  eapply rtc_l. { apply (fs_wake _ 7 0x1000 0x80000 1 1 t3); [lia|vm_compute; reflexivity]. }
  eapply rtc_l. { apply (fs_kernel _ (f_sched t4)). intros cid. apply (stopped_known cid (f_sched t3)). vm_compute. discriminate. }
  cbn [fs waiters]. replace (map_imap _ _) with ({[1 := stopped_waiter]} : gmap Z Waiter) by (vm_compute; reflexivity). apply rtc_refl.
Qed.

(** *** A deadline that outlives its call *)

(** The machine and the futexes share the contexts. *)
Definition with_futex {A} (m : M FutexState A) : M (Machine * gmap Z (list FutexEntry)) A :=
  fun s => match m (mkFS s.2 (m_sched s.1)) with
           | Done (a, f) => Done (a, (mkMachine (f_sched f) (contexts s.1) (percpus s.1), futexes f))
           | Panic => Panic
           end.
Definition with_machine {A} (m : M Machine A) : M (Machine * gmap Z (list FutexEntry)) A :=
  fun s => match m s.1 with Done (a, x) => Done (a, (x, s.2)) | Panic => Panic end.

Definition two : Machine :=
  mkMachine (mkSched (<[1 := enter_ctx 0 0 ready]> (<[2 := ready]> ∅)) 0 ∅ 0) [(1, tt); (2, tt)]
            (<[0 := mkPercpu (Some 1) (Some 2) 0 0 false false (mkStats 0 0 0 CpuKernel 0)]> ∅).

(** Context 1 waits on a futex with a deadline of one second; context 2 wakes it
    at once; context 1 returns from the call, then waits on a condition; at two
    seconds the scheduler looks at it again. *)
Definition late : M (Machine * gmap Z (list FutexEntry)) (Z * result Error Z * option WaitCondition * option Z * (bool * WaitCondition)) :=
  with_futex (futex_enter true view 1 0x1000 FUTEX_WAIT 5 0x2000) ;;;
  with_machine (switch (fun _ => 100) 100) ;;;
  let! n := with_futex (futex_wake 7 0x1000 0x80000 1) in
  with_machine (switch (fun _ => 200) 200) ;;;
  let! r := with_futex (futex_leave 1 true) in
  let! l := with_machine (on_sched (wait_enter 1 "pipe" [])) in
  with_machine (switch (fun _ => 300) 300) ;;;
  with_machine (switch (fun _ => 2000000000) 2000000000) ;;;
  let! cur := with_machine (fun m => Done (current_of m 0, m)) in
  ret (n, r, l, cur, wait_leave 1 (default [] l)).

(** The deadline of a futex call that was woken in time stays with the
    context, and cuts short the next wait that has none: context 1 is switched to
    although nobody notified it, and [WaitCondition::wait] reports an
    interruption, which its callers answer with [EINTR]. *)
Theorem futex_deadline_outlives_call :
  exists s, late (two, ∅) = Done ((1, Ok 0, Some [1], Some 1, (false, [])), s).
Proof. vm_compute. eexists. reflexivity. Qed.
End FutexTraces.

Module FutexWitnesses.
Import FutexTraces.

Lemma futex_wait_correct_witness : exists r s', enqueue true view 1 7 0x1000 0x80000 FUTEX_WAIT 5 None s0 = Done (r, s') /\
  ((5 <> 5 /\ r = Err EAGAIN /\ s' = s0) \/
   (5 = 5 /\ sig_pending ready = true /\ r = Err EINTR /\ futexes s' = futexes s0 /\ f_sched s' = set_ctx 1 (set_wake None ready) (f_sched s0)) \/
   (5 = 5 /\ sig_pending ready = false /\ r = Ok tt /\
    (forall q, entries s' q = if decide (q = 0x80000) then entries s0 q ++ [mkEntry 0x1000 1 7] else entries s0 q) /\
    f_sched s' = set_ctx 1 (parked None ready) (f_sched s0) /\ (status ready = Runnable -> fblocked s' 1))).
Proof. apply (futex_wait_correct true view 1 7 0x1000 0x80000 FUTEX_WAIT 5 None s0 ready 5 5 None); vm_compute; reflexivity. Defined.

Lemma s3_known : fs_known s3.
Proof. apply (freachable_inv _ trace_reachable). Qed.

(** Both entries of the word are taken, the stale one of context 1 too. *)
Lemma s3_woken : match futex_wake 7 0x1000 0x80000 2 s3 with Done (n, _) => n | Panic => 0 end = 2.
Proof. vm_compute. reflexivity. Qed.

Lemma futex_wake_correct_witness : exists gone s', futex_wake 7 0x1000 0x80000 2 s3 = Done (Z.of_nat (length gone), s') /\
    entries s3 0x80000 ≡ₚ gone ++ entries s' 0x80000 /\ Z.of_nat (length gone) <= 2 /\
    (ctxs (f_sched s') !! 2 = (set_status Runnable ""%string <$> ctxs (f_sched s3) !! 2)).
Proof.
  destruct (futex_wake_correct 7 0x1000 0x80000 2 s3 s3_known) as (gone & s' & H1 & H2 & _ & H4 & _ & _ & H7); [lia|].
  exists gone, s'. split_and!; [exact H1|exact H2|exact H4|]. rewrite H7. pose proof s3_woken as Hl. rewrite H1 in Hl.
  assert (Hg : 2 ∈ map context_lock gone).
  { assert (length (entries s' 0x80000) = 0%nat) as Hn.
    { apply Permutation_length in H2. rewrite length_app in H2. change (length (entries s3 0x80000)) with 2%nat in H2. lia. }
    apply length_zero_iff_nil in Hn. rewrite Hn, app_nil_r in H2. rewrite <- H2. apply list_elem_of_In. vm_compute. tauto. }
  vm_compute (ctxs (f_sched s3) !! 2). cbn [status]. rewrite decide_True by exact Hg. reflexivity.
Defined.

Lemma futex_no_lost_wakeup_witness : exists n s',
  futex_enter true view 3 0x1000 FUTEX_WAKE 9 0 s3 = Done (Ok (Returned n), s') /\ fblocked s3 2 /\ ~ fblocked s' 2.
Proof.
  destruct (futex_no_lost_wakeup (mkFW s3 {[2 := waiter]}) true view 3 7 0x1000 0x80000 9 0 trace_reachable) as (n & s' & H1 & H2 & H3);
    [lia|reflexivity|vm_compute; reflexivity|].
  exists n, s'. split; [exact H1|]. split; [eexists; split; vm_compute; reflexivity|].
  apply (H3 ltac:(vm_compute in H1; injection H1 as <- _; reflexivity) 2 waiter); reflexivity.
Defined.
End FutexWitnesses.
