(* ===== verification/Event.v ===== *)
(** * Event queues (src/event.rs, src/scheme/event.rs)

    The registry of which queue watches which file, the queues, and the
    propagation of events through queues that watch queues.

    A queue is a shared object: a context that reads it keeps it alive after it
    was closed, so [queue_heap] holds the objects and [queue_list] the ids in
    [QUEUES].  The bits of [EventFlags] and the order in which a hash map is
    iterated are parameters, as are the file table of the caller and the [fevent]
    operation of the schemes. *)

From S2P Require Import Prelude PageInfo FrameAllocator Rmm OrdMap Grants CpuSet UserCopy Sync.

Record RegKey := mkRegKey { rk_scheme : Z; rk_number : Z }.
Record QueueKey := mkQueueKey { qk_queue : Z; qk_id : Z; qk_data : Z }.
Record Event := mkEvent { ev_id : Z; ev_flags : Z; ev_data : Z }.

#[export] Instance RegKey_eq_dec : EqDecision RegKey.
Proof. solve_decision. Defined.
#[export] Instance QueueKey_eq_dec : EqDecision QueueKey.
Proof. solve_decision. Defined.
#[export] Instance Event_eq_dec : EqDecision Event.
Proof. solve_decision. Defined.
#[export] Instance RegKey_countable : Countable RegKey.
Proof.
  apply (inj_countable' (fun k => (rk_scheme k, rk_number k)) (fun p => mkRegKey p.1 p.2)). by intros [].
Defined.
#[export] Instance QueueKey_countable : Countable QueueKey.
Proof.
  apply (inj_countable' (fun k => (qk_queue k, qk_id k, qk_data k)) (fun p => mkQueueKey p.1.1 p.1.2 p.2)). by intros [].
Defined.

(** [HashMap<QueueKey, EventFlags>] *)
Abbreviation Watchers := (gmap QueueKey Z) (only parsing).

Record EventState := mkES {
  registry : gmap RegKey Watchers;
  queue_heap : gmap Z (@WaitQueue Event);
  queue_list : gset Z;
  NEXT_QUEUE_ID : Z;
  e_sched : Sched;
}.

(** The bits of [EventFlags] and the iteration order of hash maps. *)
Class EventParams := {
  EV_READ : Z;
  EV_WRITE : Z;
  iter_watchers : Watchers -> list (QueueKey * Z);
}.
Class EventLaws {EP : EventParams} := {
  iter_all : forall w, iter_watchers w ≡ₚ map_to_list w;
}.

(** [GlobalSchemes::Event.scheme_id()] *)
Definition EVENT_SCHEME : Z := 2.

Section event.
Context {EP : EventParams}.

Definition set_registry (r : gmap RegKey Watchers) : M EventState unit :=
  modify (fun s => mkES r (queue_heap s) (queue_list s) (NEXT_QUEUE_ID s) (e_sched s)).

Definition register (reg_key : RegKey) (queue_key : QueueKey) (flags : Z) : M EventState unit :=
  let! s := get_state in
  let entry := default ∅ (registry s !! reg_key) in
  set_registry (<[reg_key := if flags =? 0 then delete queue_key entry else <[queue_key := flags]> entry]> (registry s)).

Definition unregister_file (scheme number : Z) : M EventState unit :=
  let! s := get_state in set_registry (delete (mkRegKey scheme number) (registry s)).

(** The flags any queue wants of a file. *)
Definition wanted (s : EventState) (reg_key : RegKey) : Z :=
  match registry s !! reg_key with
  | Some queue_list => foldl (fun flags e => Z.lor flags e.2) 0 (iter_watchers queue_list)
  | None => 0
  end.

(** [sync]; [fevent] answers for the scheme of the file, [None] if the scheme is
    not there. *)
Definition sync (fevent : RegKey -> Z -> EventState -> option (result Error Z)) (reg_key : RegKey) : M EventState (result Error Z) :=
  fun s => match fevent reg_key (wanted s reg_key) s with
           | None => Done (Err EBADF, s)
           | Some r => Done (r, s)
           end.

(** ** Triggering *)

(** [queue.queue.send(event)] *)
Definition send_event (q : Z) (e : Event) : M EventState unit :=
  fun s =>
    match queue_heap s !! q with
    | None => Panic
    | Some wq =>
        match send e wq (e_sched s) with
        | Done ((_, wq'), x) => Done (tt, mkES (registry s) (<[q := wq']> (queue_heap s)) (queue_list s) (NEXT_QUEUE_ID s) x)
        | Panic => Panic
        end
    end.

(** The body of the loop over the watchers of a file: the queue to follow up. *)
Definition notify_watcher (flags : Z) (watcher : QueueKey * Z) : M EventState (list Z) :=
  let '(queue_key, queue_flags) := watcher in
  let common_flags := Z.land flags queue_flags in
  let! s := get_state in
  if negb (common_flags =? 0) && bool_decide (qk_queue queue_key ∈ queue_list s) then
    send_event (qk_queue queue_key) (mkEvent (qk_id queue_key) common_flags (qk_data queue_key)) ;;;
    ret [qk_queue queue_key]
  else ret [].

Fixpoint notify_watchers (flags : Z) (l : list (QueueKey * Z)) (todo : list Z) : M EventState (list Z) :=
  match l with
  | [] => ret todo
  | w :: l' => let! q := notify_watcher flags w in notify_watchers flags l' (todo ++ q)
  end.

Definition trigger_inner (reg_key : RegKey) (flags : Z) (todo : list Z) : M EventState (list Z) :=
  let! s := get_state in
  match registry s !! reg_key with
  | Some queue_list => notify_watchers flags (iter_watchers queue_list) todo
  | None => ret todo
  end.

(** [while let Some(queue_id) = todo.pop()].  Running out of fuel is a panic. *)
Fixpoint trigger_loop (fuel : nat) (todo : list Z) (done_ : gset Z) : M EventState unit :=
  match fuel with
  | O => panic
  | S fuel' =>
      match last todo with
      | None => ret tt
      | Some queue_id =>
          let todo := removelast todo in
          if bool_decide (queue_id ∈ done_) then trigger_loop fuel' todo done_
          else
            let! todo := trigger_inner (mkRegKey EVENT_SCHEME queue_id) EV_READ todo in
            trigger_loop fuel' todo ({[queue_id]} ∪ done_)
      end
  end.

(** The number of registrations. *)
Definition registrations (r : gmap RegKey Watchers) : nat := list_sum (map (fun e => size e.2) (map_to_list r)).

Definition trigger (scheme number flags : Z) : M EventState unit :=
  let! todo := trigger_inner (mkRegKey scheme number) flags [] in
  let! s := get_state in
  trigger_loop (S (length todo + registrations (registry s))) todo ∅.

(** ** Queues *)

(** [EventQueue::write] of one event: the descriptor is looked up in the
    caller's table by [file_of]. *)
Definition queue_write_one (file_of : Z -> option RegKey) (fevent : RegKey -> Z -> EventState -> option (result Error Z))
  (q : Z) (event : Event) : M EventState (result Error unit) :=
  match file_of (ev_id event) with
  | None => err EBADF
  | Some reg_key =>
      if (rk_scheme reg_key =? EVENT_SCHEME) && (rk_number reg_key =? q) then err EBADF
      else
        register reg_key (mkQueueKey q (ev_id event) (ev_data event)) (ev_flags event) ;;;
        let? flags := sync fevent reg_key in
        (if flags =? 0 then ret tt else trigger (rk_scheme reg_key) (rk_number reg_key) flags) ;;;
        ok tt
  end.

(** [EventScheme::kopen] *)
Definition event_open : M EventState (result Error Z) :=
  fun s =>
    let id := NEXT_QUEUE_ID s in
    Done (Ok id, mkES (registry s) (<[id := wq_new]> (queue_heap s)) ({[id]} ∪ queue_list s) (usize_add id 1) (e_sched s)).

Definition event_close (id : Z) : M EventState (result Error unit) :=
  fun s =>
    if bool_decide (id ∈ queue_list s)
    then Done (Ok tt, mkES (registry s) (queue_heap s) (queue_list s ∖ {[id]}) (NEXT_QUEUE_ID s) (e_sched s))
    else Done (Err EBADF, s).

(** The size of [syscall::data::Event] and its fields, three words. *)
Definition EVENT_SIZE : Z := 24.
Definition event_to_bytes (e : Event) : list Z := to_ne_bytes 8 (ev_id e) ++ to_ne_bytes 8 (ev_flags e) ++ to_ne_bytes 8 (ev_data e).
Definition event_of_bytes (l : list Z) : Event :=
  mkEvent (from_ne_bytes (take 8 l)) (from_ne_bytes (take 8 (drop 8 l))) (from_ne_bytes (take 8 (drop 16 l))).

(** One round of [EventScheme::kread], in the memory of the caller. *)
Definition event_read (id : Z) (pivot : nat) (buf : UserSlice) (nonblock : bool) : M (EventState * UserMem) (attempt Z) :=
  fun '(s, m) =>
    if bool_decide (id ∈ queue_list s) then
      match queue_heap s !! id with
      | None => Panic
      | Some wq =>
          match receive_into_user event_to_bytes EVENT_SIZE pivot buf (negb nonblock) wq m with
          | Done ((a, wq'), m') =>
              Done (a, (mkES (registry s) (<[id := wq']> (queue_heap s)) (queue_list s) (NEXT_QUEUE_ID s) (e_sched s), m'))
          | Panic => Panic
          end
      end
    else Done (Finished (Err EBADF), (s, m)).

(** [EventScheme::kwrite] over the chunks of the buffer: the number of events
    written, or the error of the first that fails. *)
Fixpoint event_write_chunks (file_of : Z -> option RegKey) (fevent : RegKey -> Z -> EventState -> option (result Error Z))
  (id : Z) (chunks : list UserSlice) (m : UserMem) (written : Z) : M EventState (result Error Z) :=
  match chunks with
  | [] => ok (written * EVENT_SIZE)
  | chunk :: chunks' =>
      match limited chunk EVENT_SIZE (fun b => copy_to_slice b EVENT_SIZE) m with
      | Panic => panic
      | Done (Err e, _) => err e
      | Done (Ok bytes, _) =>
          let? _ := queue_write_one file_of fevent id (event_of_bytes bytes) in
          event_write_chunks file_of fevent id chunks' m (written + 1)
      end
  end.

Definition event_write (file_of : Z -> option RegKey) (fevent : RegKey -> Z -> EventState -> option (result Error Z))
  (id : Z) (buf : UserSlice) (m : UserMem) : M EventState (result Error Z) :=
  let! s := get_state in
  if bool_decide (id ∈ queue_list s) then
    let! chunks := in_exact_chunks buf EVENT_SIZE in
    event_write_chunks file_of fevent id chunks m 0
  else err EBADF.

(** [EventScheme::fevent] *)
Definition event_fevent (id flags : Z) (s : EventState) : result Error Z :=
  if bool_decide (id ∈ queue_list s) then
    match queue_heap s !! id with
    | None => Err EBADF
    | Some wq =>
        let ready := if Z.land flags EV_WRITE =? EV_WRITE then EV_WRITE else 0 in
        Ok (if (Z.land flags EV_READ =? EV_READ) && negb (is_currently_empty wq) then Z.lor ready EV_READ else ready)
    end
  else Err EBADF.
End event.
