(* ===== verification/EventSpec.v ===== *)
(** * Properties of event queues

    The propagation of an event terminates, reaches exactly the queues that
    watch the file directly or through other queues, and hands each of them one
    event per registration that asks for it. *)

From S2P Require Import Prelude PageInfo FrameAllocator Rmm OrdMap Grants CpuSet UserCopy Sync SyncSpec Event.

(** ** Delivering a list of events *)

Definition cond_of (s : EventState) (q : Z) : WaitCondition :=
  match queue_heap s !! q with Some wq => condition wq | None => [] end.
Definition inner_of (s : EventState) (q : Z) : list Event :=
  match queue_heap s !! q with Some wq => wq_inner wq | None => [] end.
(** The events for queue [q] among those sent. *)
Definition for_queue (q : Z) (sent : list (Z * Event)) : list Event := map snd (List.filter (fun e => e.1 =? q) sent).
(** The contexts that wait on a queue that gets an event. *)
Definition waiting (s : EventState) (sent : list (Z * Event)) : list Z := concat (map (fun e => cond_of s e.1) sent).

Record delivered (s s' : EventState) (sent : list (Z * Event)) : Prop := {
  dl_registry : registry s' = registry s;
  dl_list : queue_list s' = queue_list s;
  dl_next : NEXT_QUEUE_ID s' = NEXT_QUEUE_ID s;
  dl_heap : forall q, is_Some (queue_heap s' !! q) <-> is_Some (queue_heap s !! q);
  dl_inner : forall q, is_Some (queue_heap s !! q) -> inner_of s' q = inner_of s q ++ for_queue q sent;
  dl_cond : forall q, cond_of s' q = if bool_decide (for_queue q sent = []) then cond_of s q else [];
  dl_ctxs : forall x, ctxs (e_sched s') !! x =
    if decide (x ∈ waiting s sent) then woken <$> ctxs (e_sched s) !! x else ctxs (e_sched s) !! x
}.

Lemma for_queue_app q a b : for_queue q (a ++ b) = for_queue q a ++ for_queue q b.
Proof. unfold for_queue. by rewrite List.filter_app, map_app. Qed.

Lemma for_queue_In q sent e : e ∈ for_queue q sent <-> (q, e) ∈ sent.
Proof.
  unfold for_queue. rewrite list_elem_of_fmap. split.
  - intros ([q' e'] & -> & H%list_elem_of_In). apply List.filter_In in H as [H Hq]. cbn in *. apply Z.eqb_eq in Hq as ->. by apply list_elem_of_In.
  - intros H. exists (q, e). split; [done|]. apply list_elem_of_In, List.filter_In. split; [by apply list_elem_of_In|]. cbn. by rewrite Z.eqb_refl.
Qed.

Lemma delivered_nil s : delivered s s [].
Proof. split; try done. intros q _. unfold for_queue. cbn. by rewrite app_nil_r. Qed.

Lemma waiting_elem s sent x : x ∈ waiting s sent <-> exists q e, (q, e) ∈ sent /\ x ∈ cond_of s q.
Proof.
  unfold waiting. rewrite list_elem_of_In, in_concat. split.
  - intros (l & Hl & Hx). apply in_map_iff in Hl as ([q e] & <- & He). exists q, e. split; by apply list_elem_of_In.
  - intros (q & e & He & Hx). exists (cond_of s q). split; [|by apply list_elem_of_In]. apply in_map_iff. exists (q, e). split; [done|by apply list_elem_of_In].
Qed.

Lemma delivered_trans s1 s2 s3 a b : delivered s1 s2 a -> delivered s2 s3 b -> delivered s1 s3 (a ++ b).
Proof.
  intros A B. split.
  - by rewrite (dl_registry _ _ _ B), (dl_registry _ _ _ A).
  - by rewrite (dl_list _ _ _ B), (dl_list _ _ _ A).
  - by rewrite (dl_next _ _ _ B), (dl_next _ _ _ A).
  - intros q. by rewrite (dl_heap _ _ _ B), (dl_heap _ _ _ A).
  - intros q Hq. rewrite (dl_inner _ _ _ B) by by apply (dl_heap _ _ _ A). rewrite (dl_inner _ _ _ A) by done.
    by rewrite for_queue_app, app_assoc.
  - intros q. rewrite (dl_cond _ _ _ B), (dl_cond _ _ _ A), for_queue_app.
    destruct (for_queue q a); cbn [app]; [done|]. rewrite (bool_decide_eq_false_2 (e :: l = [])) by done. by case_bool_decide.
  - intros x. rewrite (dl_ctxs _ _ _ B), (dl_ctxs _ _ _ A).
    assert (H : x ∈ waiting s1 (a ++ b) <-> x ∈ waiting s1 a \/ x ∈ waiting s2 b).
    { rewrite !waiting_elem. setoid_rewrite (dl_cond _ _ _ A). setoid_rewrite elem_of_app. split.
      - intros (q & e & [?|He] & Hx); [left; eauto|]. destruct (decide (for_queue q a = [])) as [Hn|Hn].
        + right. exists q, e. split; [done|]. by rewrite bool_decide_eq_true_2.
        + left. destruct (for_queue q a) as [|e' l] eqn:Hl; [done|]. exists q, e'. split; [|done].
          apply for_queue_In. rewrite Hl. apply list_elem_of_here.
      - intros [(q & e & He & Hx)|(q & e & He & Hx)]; [eauto|]. case_bool_decide; [eauto|by apply not_elem_of_nil in Hx]. }
    destruct (decide (x ∈ waiting s1 (a ++ b))) as [Hd|Hd]; rewrite H in Hd.
    + destruct (decide (x ∈ waiting s2 b)), (decide (x ∈ waiting s1 a)); try done.
      * destruct (ctxs (e_sched s1) !! x); cbn; [by rewrite woken_idem|done].
      * by destruct Hd.
    + rewrite !decide_False by tauto. done.
Qed.

Lemma send_run {T} (v : T) wq x : exists x' n, send v wq x = Done ((n, mkWaitQueue (wq_inner wq ++ [v]) []), x') /\
  forall y, ctxs x' !! y = if decide (y ∈ condition wq) then woken <$> ctxs x !! y else ctxs x !! y.
Proof.
  unfold send. destruct (notify_run (condition wq) x) as (x' & Hn & Hc). rewrite (bind_Done _ _ _ _ _ Hn). by eexists _, _.
Qed.

Lemma send_event_run q e s : is_Some (queue_heap s !! q) ->
  exists s', send_event q e s = Done (tt, s') /\ delivered s s' [(q, e)].
Proof.
  intros [wq Hq]. unfold send_event. rewrite Hq. destruct (send_run e wq (e_sched s)) as (x' & n & -> & Hx).
  eexists. split; [reflexivity|]. split; cbn [registry queue_list NEXT_QUEUE_ID queue_heap e_sched]; try done.
  - intros y. rewrite lookup_insert_is_Some. destruct (decide (q = y)) as [->|Hne]; [|tauto]. rewrite Hq. split; eauto.
  - intros y _. unfold inner_of. cbn [queue_heap]. unfold for_queue. cbn. destruct (Z.eqb_spec q y) as [->|Hne].
    + by rewrite lookup_insert_eq, Hq. + by rewrite lookup_insert_ne, app_nil_r.
  - intros y. unfold cond_of. cbn [queue_heap]. unfold for_queue. cbn. destruct (Z.eqb_spec q y) as [->|Hne]; cbn [map].
    + by rewrite lookup_insert_eq, bool_decide_eq_false_2. + by rewrite lookup_insert_ne, bool_decide_eq_true_2.
  - intros y. unfold waiting. cbn [map concat]. rewrite app_nil_r. unfold cond_of. cbn. rewrite Hq. apply Hx.
Qed.

(** ** One level *)

Section trigger.
Context {EP : EventParams}.

(** The event a watcher gets. *)
Definition event_for (listed : gset Z) (flags : Z) (w : QueueKey * Z) : option (Z * Event) :=
  let common := Z.land flags w.2 in
  if negb (common =? 0) && bool_decide (qk_queue w.1 ∈ listed)
  then Some (qk_queue w.1, mkEvent (qk_id w.1) common (qk_data w.1)) else None.

(** The events of one call of [trigger_inner]. *)
Definition sends (r : gmap RegKey (gmap QueueKey Z)) (listed : gset Z) (k : RegKey) (flags : Z) : list (Z * Event) :=
  match r !! k with Some w => omap (event_for listed flags) (iter_watchers w) | None => [] end.

(** The queues in the list exist. *)
Definition queues_ok (s : EventState) : Prop := forall q, q ∈ queue_list s -> is_Some (queue_heap s !! q).

Lemma queues_ok_delivered s s' sent : queues_ok s -> delivered s s' sent -> queues_ok s'.
Proof. intros H D q. rewrite (dl_list _ _ _ D), (dl_heap _ _ _ D). apply H. Qed.

Lemma notify_watchers_run flags l : forall todo s, queues_ok s ->
  exists s', notify_watchers flags l todo s = Done (todo ++ map fst (omap (event_for (queue_list s) flags) l), s') /\
    delivered s s' (omap (event_for (queue_list s) flags) l).
Proof.
  induction l as [|[k f] l IH]; intros todo s Hok; cbn [notify_watchers].
  { exists s. cbn. rewrite app_nil_r. split; [done|apply delivered_nil]. }
  unfold notify_watcher. cbn [omap list_omap].
  assert (He : event_for (queue_list s) flags (k, f) =
    if negb (Z.land flags f =? 0) && bool_decide (qk_queue k ∈ queue_list s)
    then Some (qk_queue k, mkEvent (qk_id k) (Z.land flags f) (qk_data k)) else None) by done.
  rewrite He. clear He. rewrite bind_assoc. unfold bind at 1. cbn [get_state].
  destruct (negb (Z.land flags f =? 0) && bool_decide (qk_queue k ∈ queue_list s)) eqn:Hg.
  - assert (Hin : qk_queue k ∈ queue_list s) by (apply andb_true_iff in Hg as [_ Hg]; by apply bool_decide_eq_true in Hg).
    destruct (send_event_run (qk_queue k) (mkEvent (qk_id k) (Z.land flags f) (qk_data k)) s (Hok _ Hin)) as (s1 & H1 & D1).
    rewrite bind_assoc, (bind_Done _ _ _ _ _ H1), bind_ret.
    destruct (IH (todo ++ [qk_queue k]) s1 (queues_ok_delivered _ _ _ Hok D1)) as (s2 & H2 & D2).
    exists s2. rewrite H2. rewrite (dl_list _ _ _ D1) in D2 |- *. rewrite <- app_assoc. cbn. split; [done|].
    apply (delivered_trans _ _ _ [_] _ D1 D2).
  - rewrite bind_ret, app_nil_r. by apply IH.
Qed.

Lemma trigger_inner_run k flags todo s : queues_ok s ->
  exists s', trigger_inner k flags todo s = Done (todo ++ map fst (sends (registry s) (queue_list s) k flags), s') /\
    delivered s s' (sends (registry s) (queue_list s) k flags).
Proof.
  intros Hok. unfold trigger_inner, sends, bind, get_state. destruct (registry s !! k) as [w|].
  - by apply notify_watchers_run.
  - exists s. cbn. rewrite app_nil_r. split; [done|apply delivered_nil].
Qed.

(** ** The work list *)

(** The follow-up of queue [q]. *)
Definition follow (s : EventState) (q : Z) : list (Z * Event) := sends (registry s) (queue_list s) (mkRegKey EVENT_SCHEME q) EV_READ.

Definition watchers_of (r : gmap RegKey (gmap QueueKey Z)) (k : RegKey) : gmap QueueKey Z := default ∅ (r !! k).

(** Registrations of queues that have not been followed up. *)
Definition pending_cost (dn : gset Z) (e : RegKey * gmap QueueKey Z) : nat :=
  if (rk_scheme e.1 =? EVENT_SCHEME) && bool_decide (rk_number e.1 ∉ dn) then size e.2 else 0%nat.
Definition cost (r : gmap RegKey (gmap QueueKey Z)) (dn : gset Z) : nat := list_sum (map (pending_cost dn) (map_to_list r)).

Lemma cost_le_registrations r dn : (cost r dn <= registrations r)%nat.
Proof.
  unfold cost, registrations. induction (map_to_list r) as [|e l IH]; [done|]. cbn [map list_sum fold_right].
  assert (pending_cost dn e <= size e.2)%nat by (unfold pending_cost; destruct (_ && _); lia). unfold list_sum in *. cbn [map fold_right] in *. lia.
Qed.

Lemma pending_cost_done q dn e : (pending_cost ({[q]} ∪ dn) e <= pending_cost dn e)%nat.
Proof. unfold pending_cost. destruct (rk_scheme e.1 =? EVENT_SCHEME); cbn; [|done]. do 2 case_bool_decide; try lia. set_solver. Qed.

Lemma cost_mono l q dn : (list_sum (map (pending_cost ({[q]} ∪ dn)) l) <= list_sum (map (pending_cost dn) l))%nat.
Proof. induction l as [|e l IH]; [done|]. pose proof (pending_cost_done q dn e). unfold list_sum in *. cbn [map fold_right] in *. lia. Qed.

Lemma cost_done l q dn w : NoDup l.*1 -> (mkRegKey EVENT_SCHEME q, w) ∈ l -> q ∉ dn ->
  (list_sum (map (pending_cost ({[q]} ∪ dn)) l) + size w <= list_sum (map (pending_cost dn) l))%nat.
Proof.
  intros Hnd Hin Hq. induction l as [|e l IH]; [by apply not_elem_of_nil in Hin|]. inversion Hnd as [|? ? He Hnd']; subst.
  apply elem_of_cons in Hin as [<-|Hin].
  - assert (pending_cost ({[q]} ∪ dn) (mkRegKey EVENT_SCHEME q, w) = 0%nat /\ pending_cost dn (mkRegKey EVENT_SCHEME q, w) = size w) as [H1 H2].
    { unfold pending_cost. cbn. rewrite bool_decide_eq_false_2 by set_solver. by rewrite bool_decide_eq_true_2. }
    pose proof (cost_mono l q dn). unfold list_sum in *. cbn [map fold_right] in *. lia.
  - specialize (IH Hnd' Hin). pose proof (pending_cost_done q dn e). unfold list_sum in *. cbn [map fold_right] in *. lia.
Qed.

Lemma omap_length {A B} (f : A -> option B) l : (length (omap f l) <= length l)%nat.
Proof. induction l as [|a l IH]; cbn; [done|]. destruct (f a); cbn; lia. Qed.

Context {EL : EventLaws}.

Lemma iter_length w : length (iter_watchers w) = size w.
Proof. rewrite (iter_all w). by rewrite length_map_to_list. Qed.

Lemma follow_cost r listed q dn : q ∉ dn ->
  (length (sends r listed (mkRegKey EVENT_SCHEME q) EV_READ) + cost r ({[q]} ∪ dn) <= cost r dn)%nat.
Proof.
  intros Hq. unfold sends. destruct (r !! mkRegKey EVENT_SCHEME q) as [w|] eqn:Hr.
  - pose proof (omap_length (event_for listed EV_READ) (iter_watchers w)) as Hl. rewrite iter_length in Hl.
    pose proof (cost_done (map_to_list r) q dn w (NoDup_fst_map_to_list r)) as Hc. unfold cost.
    specialize (Hc ltac:(by apply elem_of_map_to_list) Hq). lia.
  - cbn. apply cost_mono.
Qed.

(** The loop processes a list of distinct queues, each with its follow-up. *)
Lemma trigger_loop_run fuel : forall todo dn s, queues_ok s -> (length todo + cost (registry s) dn < fuel)%nat ->
  exists order s', trigger_loop fuel todo dn s = Done (tt, s') /\
    delivered s s' (concat (map (follow s) order)) /\ NoDup order /\ (forall q, q ∈ order -> q ∉ dn) /\
    (forall q, q ∈ todo -> q ∈ order \/ q ∈ dn) /\
    (forall q q', q ∈ order -> q' ∈ map fst (follow s q) -> q' ∈ order \/ q' ∈ dn) /\
    (forall P : Z -> Prop, (forall q, q ∈ todo -> P q) -> (forall q q', P q -> q' ∈ map fst (follow s q) -> P q') -> forall q, q ∈ order -> P q).
Proof.
  induction fuel as [|fuel IH]; intros todo dn s Hok Hf; [lia|]. cbn [trigger_loop].
  destruct (last todo) as [q|] eqn:Hl.
  2: { apply last_None in Hl as ->. exists [], s. split; [done|]. split; [apply delivered_nil|]. split; [constructor|].
       split_and!; intros; by match goal with H : _ ∈ [] |- _ => apply not_elem_of_nil in H end. }
  apply last_Some in Hl as [todo' ->]. rewrite removelast_last. rewrite length_app in Hf. cbn in Hf.
  case_bool_decide as Hq.
  - destruct (IH todo' dn s Hok) as (order & s' & Hrun & D & Hnd & Hdn & Htodo & Hcl & Hind); [lia|].
    exists order, s'. split_and!; try done.
    + intros y [?| ->%list_elem_of_singleton]%elem_of_app; [by apply Htodo|by right].
    + intros P H1 H2 y Hy. eapply Hind; [|exact H2|exact Hy]. intros z Hz. apply H1, elem_of_app. by left.
  - destruct (trigger_inner_run (mkRegKey EVENT_SCHEME q) EV_READ todo' s Hok) as (s1 & H1 & D1). fold (follow s q) in H1, D1.
    rewrite (bind_Done _ _ _ _ _ H1). pose proof (follow_cost (registry s) (queue_list s) q dn Hq) as Hc. fold (follow s q) in Hc.
    destruct (IH (todo' ++ map fst (follow s q)) ({[q]} ∪ dn) s1) as (order & s' & Hrun & D & Hnd & Hdn & Htodo & Hcl & Hind).
    { by eapply queues_ok_delivered. } { rewrite (dl_registry _ _ _ D1), length_app, length_map. lia. }
    assert (Hfol : follow s1 = follow s) by (unfold follow; by rewrite (dl_registry _ _ _ D1), (dl_list _ _ _ D1)).
    rewrite Hfol in *. exists (q :: order), s'. split; [exact Hrun|]. split; [by eapply delivered_trans|]. split_and!.
    + constructor; [|done]. intros Hin. specialize (Hdn q Hin). set_solver.
    + intros y [->|Hy]%elem_of_cons; [done|]. specialize (Hdn y Hy). set_solver.
    + intros y [Hy| ->%list_elem_of_singleton]%elem_of_app; [|left; apply list_elem_of_here].
      destruct (Htodo y) as [?|?]; [apply elem_of_app; by left|left; by apply list_elem_of_further|].
      destruct (decide (y = q)) as [->|]; [left; apply list_elem_of_here|right; set_solver].
    + intros y y' [->|Hy]%elem_of_cons Hy'.
      * destruct (Htodo y') as [?|?]; [apply elem_of_app; by right|left; by apply list_elem_of_further|].
        destruct (decide (y' = q)) as [->|]; [left; apply list_elem_of_here|right; set_solver].
      * destruct (Hcl y y' Hy Hy') as [?|?]; [left; by apply list_elem_of_further|].
        destruct (decide (y' = q)) as [->|]; [left; apply list_elem_of_here|right; set_solver].
    + intros P P1 P2 y [->|Hy]%elem_of_cons; [apply P1, elem_of_app; right; apply list_elem_of_here|].
      apply (Hind P); [|exact P2|exact Hy]. intros z [Hz|Hz]%elem_of_app; [apply P1, elem_of_app; by left|].
      apply (P2 q); [apply P1, elem_of_app; right; apply list_elem_of_here|done].
Qed.
End trigger.

Section theorems.
Context {EP : EventParams} {EL : EventLaws}.

(** Registration [k] of a file asks for one of [flags] and its queue is open. *)
Definition asks (s : EventState) (file : RegKey) (flags : Z) (k : QueueKey) : Prop :=
  exists w f, registry s !! file = Some w /\ w !! k = Some f /\ Z.land flags f <> 0 /\ qk_queue k ∈ queue_list s.

(** The queues that watch a file, directly or through other queues. *)
Inductive notified (s : EventState) (file : RegKey) (flags : Z) : Z -> Prop :=
| nt_direct k : asks s file flags k -> notified s file flags (qk_queue k)
| nt_through q k : notified s file flags q -> asks s (mkRegKey EVENT_SCHEME q) EV_READ k -> notified s file flags (qk_queue k).

Lemma sends_elem s file flags q e : (q, e) ∈ sends (registry s) (queue_list s) file flags <->
  exists w k f, registry s !! file = Some w /\ w !! k = Some f /\ Z.land flags f <> 0 /\ q ∈ queue_list s /\ q = qk_queue k /\
    e = mkEvent (qk_id k) (Z.land flags f) (qk_data k).
Proof.
  unfold sends. destruct (registry s !! file) as [w|] eqn:Hr.
  2: { split; [by intros ?%not_elem_of_nil|]. by intros (w & k & f & ? & _). }
  rewrite list_elem_of_omap. split.
  - intros ([k f] & Hin & He). rewrite (iter_all w), elem_of_map_to_list in Hin. unfold event_for in He. cbn in He.
    destruct (Z.eqb_spec (Z.land flags f) 0); [done|]. destruct (bool_decide (qk_queue k ∈ queue_list s)) eqn:Hb; [|done]. cbn in He.
    apply bool_decide_eq_true in Hb. injection He as <- <-. exists w, k, f. by split_and!.
  - intros (w' & k & f & [= <-] & Hk & Hf & Hq & -> & ->). exists (k, f). rewrite (iter_all w), elem_of_map_to_list. split; [done|].
    unfold event_for. cbn. destruct (Z.eqb_spec (Z.land flags f) 0); [done|]. by rewrite bool_decide_eq_true_2.
Qed.

Lemma sends_fst s file flags q : q ∈ map fst (sends (registry s) (queue_list s) file flags) <->
  exists k, asks s file flags k /\ q = qk_queue k.
Proof.
  rewrite list_elem_of_fmap. split.
  - intros ([q' e] & -> & (w & k & f & ? & ? & ? & ? & -> & _)%sends_elem). exists k. split; [|done]. by exists w, f.
  - intros (k & (w & f & ? & ? & ? & ?) & ->). eexists (_, _). split; [done|]. apply sends_elem. exists w, k, f. by split_and!.
Qed.

Lemma trigger_run scheme number flags s : queues_ok s ->
  exists order s', trigger scheme number flags s = Done (tt, s') /\ NoDup order /\
    (forall q, q ∈ order <-> notified s (mkRegKey scheme number) flags q) /\
    delivered s s' (sends (registry s) (queue_list s) (mkRegKey scheme number) flags ++ concat (map (follow s) order)).
Proof.
  intros Hok. unfold trigger. destruct (trigger_inner_run (mkRegKey scheme number) flags [] s Hok) as (s1 & H1 & D1).
  rewrite (bind_Done _ _ _ _ _ H1). cbn [app]. unfold bind at 1. cbn [get_state].
  set (todo := map fst _) in *.
  destruct (trigger_loop_run (S (length todo + registrations (registry s1))) todo ∅ s1) as (order & s' & Hrun & D & Hnd & _ & Htodo & Hcl & Hind).
  { by eapply queues_ok_delivered. } { pose proof (cost_le_registrations (registry s1) ∅). lia. }
  assert (Hfol : follow s1 = follow s) by (unfold follow; by rewrite (dl_registry _ _ _ D1), (dl_list _ _ _ D1)).
  rewrite Hfol in *. exists order, s'. split; [exact Hrun|]. split; [done|]. split; [|by eapply delivered_trans].
  assert (Hor : forall q : Z, q ∈ order \/ q ∈ (∅ : gset Z) -> q ∈ order) by set_solver.
  intros q. split.
  - apply Hind.
    + intros y Hy. apply sends_fst in Hy as (k & Hk & ->). by constructor.
    + intros y y' Hy Hy'. apply sends_fst in Hy' as (k & Hk & ->). by apply (nt_through _ _ _ y).
  - induction 1 as [k Hk|y k Hy IH Hk]; apply Hor.
    + apply Htodo, sends_fst. by exists k.
    + apply (Hcl y); [done|]. apply sends_fst. by exists k.
Qed.

(** C22: Event propagation is exact and terminates, also when queues watch each
    other in a cycle: [trigger] handles, once each, exactly the open queues that
    watch the file directly or through other queues; every open queue gets one
    event per registration that asks for the flags, of the file or of a handled
    queue; the contexts waiting on a queue that got an event are woken, and
    nothing else changes. *)
Theorem trigger_correct scheme number flags s : queues_ok s ->
  exists order s', trigger scheme number flags s = Done (tt, s') /\ NoDup order /\
    (forall q, q ∈ order <-> notified s (mkRegKey scheme number) flags q) /\
    delivered s s' (sends (registry s) (queue_list s) (mkRegKey scheme number) flags ++ concat (map (follow s) order)) /\
    (forall file fl q e, (q, e) ∈ sends (registry s) (queue_list s) file fl <->
       exists w k f, registry s !! file = Some w /\ w !! k = Some f /\ Z.land fl f <> 0 /\ q ∈ queue_list s /\ q = qk_queue k /\
         e = mkEvent (qk_id k) (Z.land fl f) (qk_data k)).
Proof.
  intros Hok. destruct (trigger_run scheme number flags s Hok) as (order & s' & H1 & H2 & H3 & H4). exists order, s'.
  split_and!; try done. intros file fl q e. apply sends_elem.
Qed.

(** Registering a file that is ready already is not missed: after a queue was
    told to watch a file for [flags], and the scheme of the file answers that some
    of them hold now, the queue holds an event for the registration. *)
Theorem event_write_not_missed file_of fevent q event file ready s :
  queues_ok s -> q ∈ queue_list s -> file_of (ev_id event) = Some file ->
  file <> mkRegKey EVENT_SCHEME q -> Z.land ready (ev_flags event) <> 0 ->
  (forall fl s', fevent file fl s' = Some (Ok ready)) ->
  exists s', queue_write_one file_of fevent q event s = Done (Ok tt, s') /\
    mkEvent (ev_id event) (Z.land ready (ev_flags event)) (ev_data event) ∈ inner_of s' q /\
    registry s' !! file ≫= lookup (mkQueueKey q (ev_id event) (ev_data event)) = Some (ev_flags event).
Proof.
  intros Hok Hq Hf Hne Hand Hfe. unfold queue_write_one. rewrite Hf.
  assert (Hself : (rk_scheme file =? EVENT_SCHEME) && (rk_number file =? q) = false).
  { apply andb_false_iff. destruct file as [sc n]. cbn. destruct (Z.eqb_spec sc EVENT_SCHEME) as [->|]; [|by left].
    destruct (Z.eqb_spec n q) as [->|]; [done|by right]. }
  rewrite Hself. assert (Hfl : ev_flags event <> 0) by (intros E; by rewrite E, Z.land_0_r in Hand).
  assert (Hrd : ready <> 0) by (intros ->; by rewrite Z.land_0_l in Hand).
  unfold register, bind, get_state, set_registry, modify. destruct (Z.eqb_spec (ev_flags event) 0); [done|].
  set (s1 := mkES _ _ _ _ _). unfold bind_result, bind, sync. rewrite Hfe. destruct (Z.eqb_spec ready 0); [done|].
  destruct (trigger_run (rk_scheme file) (rk_number file) ready s1 Hok) as (order & s' & Hrun & _ & _ & D). rewrite Hrun.
  exists s'. split; [done|]. replace (mkRegKey (rk_scheme file) (rk_number file)) with file in D by by destruct file.
  assert (Hreg : registry s1 !! file = Some (<[mkQueueKey q (ev_id event) (ev_data event) := ev_flags event]> (default ∅ (registry s !! file)))).
  { apply lookup_insert_eq. }
  split.
  - rewrite (dl_inner _ _ _ D) by by apply Hok. apply elem_of_app. right. rewrite for_queue_app. apply elem_of_app. left.
    apply for_queue_In, sends_elem. eexists _, (mkQueueKey q (ev_id event) (ev_data event)), (ev_flags event).
    split; [exact Hreg|]. rewrite lookup_insert_eq. by split_and!.
  - rewrite (dl_registry _ _ _ D), Hreg. cbn. by rewrite lookup_insert_eq.
Qed.
End theorems.

Module EventWitnesses.
#[local] Instance params : EventParams := {| EV_READ := 1; EV_WRITE := 2; iter_watchers := map_to_list |}.
#[local] Instance laws : EventLaws.
Proof. by split. Qed.

(** Queue 0 watches file (5, 3) and queue 1; queue 1 watches queue 0; context 9
    waits on queue 1. *)
Definition cyclic : EventState :=
  mkES (<[mkRegKey 5 3 := {[mkQueueKey 0 10 100 := 3]}]>
         (<[mkRegKey EVENT_SCHEME 0 := {[mkQueueKey 1 11 101 := 1]}]>
           {[mkRegKey EVENT_SCHEME 1 := {[mkQueueKey 0 12 102 := 1]}]}))
       (<[0 := wq_new]> (<[1 := mkWaitQueue [] [9]]> ∅)) {[0; 1]} 2
       (mkSched {[9 := set_status Blocked "EventQueue::read"%string new_ctx]} 0 ∅ 0).

Lemma cyclic_ok : queues_ok cyclic.
Proof. intros q Hq. unfold cyclic in *. cbn in *. assert (q = 0 \/ q = 1) as [->| ->] by set_solver; by eexists. Qed.

Lemma trigger_correct_witness : exists order s', trigger 5 3 1 cyclic = Done (tt, s') /\ NoDup order /\
    (forall q, q ∈ order <-> notified cyclic (mkRegKey 5 3) 1 q) /\
    delivered cyclic s' (sends (registry cyclic) (queue_list cyclic) (mkRegKey 5 3) 1 ++ concat (map (follow cyclic) order)) /\
    (forall file fl q e, (q, e) ∈ sends (registry cyclic) (queue_list cyclic) file fl <->
       exists w k f, registry cyclic !! file = Some w /\ w !! k = Some f /\ Z.land fl f <> 0 /\ q ∈ queue_list cyclic /\ q = qk_queue k /\
         e = mkEvent (qk_id k) (Z.land fl f) (qk_data k)).
Proof. apply (trigger_correct 5 3 1 cyclic cyclic_ok). Defined.

(** Each queue ends with one event per registration, and the reader is awake. *)
Example cyclic_runs :
  match trigger 5 3 1 cyclic with
  | Done (_, s) => inner_of s 0 = [mkEvent 10 1 100; mkEvent 12 1 102] /\ inner_of s 1 = [mkEvent 11 1 101] /\
                   (status <$> ctxs (e_sched s) !! 9) = Some Runnable
  | Panic => False
  end.
Proof. vm_compute. done. Qed.

Definition one_file (fd : Z) : option RegKey := if fd =? 4 then Some (mkRegKey 5 3) else None.
Lemma event_write_not_missed_witness : exists s', queue_write_one one_file (fun _ _ _ => Some (Ok 3)) 1 (mkEvent 4 1 77) cyclic = Done (Ok tt, s') /\
    mkEvent 4 1 77 ∈ inner_of s' 1 /\ registry s' !! mkRegKey 5 3 ≫= lookup (mkQueueKey 1 4 77) = Some 1.
Proof.
  apply (event_write_not_missed one_file (fun _ _ _ => Some (Ok 3)) 1 (mkEvent 4 1 77) (mkRegKey 5 3) 3 cyclic cyclic_ok); try done.
Defined.
End EventWitnesses.
