(* ===== verification/Schemes.v ===== *)
(** * The list of schemes (src/scheme/mod.rs)

    [SchemeList]: the schemes by id, the names of each namespace, and the
    counters that ids and namespaces are taken from.

    Hash maps are finite maps; [names] maps a namespace to its [IndexMap], of
    which only the contents are modelled, not the order of its entries.  A root
    scheme is identified by its immutable fields, a user scheme by a reference to
    its [UserInner]. *)

From S2P Require Import Prelude Rmm Sync.

Definition SCHEME_MAX_SCHEMES : Z := 65536.
Definition MAX_GLOBAL_SCHEMES : Z := 16.

Inductive GlobalSchemes :=
| GDebug | GEvent | GMemory | GNull | GPipe | GSerio | GIrq | GTime | GSys | GProc | GAcpi | GDtb.

Inductive KernelSchemes :=
| KRoot (scheme_ns scheme_id : Z)
| KUser (inner : Z)
| KGlobal (global : GlobalSchemes).

#[export] Instance GlobalSchemes_eq_dec : EqDecision GlobalSchemes.
Proof. solve_decision. Defined.
#[export] Instance KernelSchemes_eq_dec : EqDecision KernelSchemes.
Proof. solve_decision. Defined.

(** The features the kernel is built with. *)
Class BuildConfig := { cfg_acpi : bool; cfg_dtb : bool }.

(** [IndexMap<Box<str>, SchemeId>] *)
Abbreviation Names := (gmap string Z) (only parsing).

Record SchemeList := mkSL {
  map_ : gmap Z KernelSchemes;
  names : gmap Z Names;
  next_ns : Z;
  next_id : Z;
}.

Definition set_map (f : gmap Z KernelSchemes -> gmap Z KernelSchemes) : M SchemeList unit :=
  modify (fun s => mkSL (f (map_ s)) (names s) (next_ns s) (next_id s)).
Definition set_names (f : gmap Z Names -> gmap Z Names) : M SchemeList unit :=
  modify (fun s => mkSL (map_ s) (f (names s)) (next_ns s) (next_id s)).
Definition set_next_id (n : Z) : M SchemeList unit :=
  modify (fun s => mkSL (map_ s) (names s) (next_ns s) n).

Section schemes.
Context {BC : BuildConfig}.

(** The discriminants of [GlobalSchemes]. *)
Definition global_scheme_id (g : GlobalSchemes) : Z :=
  match g with
  | GDebug => 1 | GEvent => 2 | GMemory => 3 | GNull => 4 | GPipe => 5 | GSerio => 6
  | GIrq => 7 | GTime => 8 | GSys => 9 | GProc => 10 | GAcpi => 11
  | GDtb => if cfg_acpi then 12 else 11
  end.

(** ** Lookup *)

Definition sl_get (s : SchemeList) (id : Z) : option KernelSchemes := map_ s !! id.

Definition get_name (s : SchemeList) (ns : Z) (name : string) : option (Z * KernelSchemes) :=
  names_ ← names s !! ns;
  id ← names_ !! name;
  scheme ← sl_get s id;
  Some (id, scheme).

(** ** Adding schemes *)

(** [names.get_mut(&ns)], then [insert]: the previous value, or [None] if there
    is no such namespace. *)
Definition names_insert (ns : Z) (name : string) (id : Z) : M SchemeList (option (option Z)) :=
  let! s := get_state in
  match names s !! ns with
  | None => ret None
  | Some names_ => set_names <[ns := <[name := id]> names_]> ;;; ret (Some (names_ !! name))
  end.

Definition insert_global (ns : Z) (name : string) (global : GlobalSchemes) : M SchemeList unit :=
  let! prev := names_insert ns name (global_scheme_id global) in
  let! prev := unwrap prev in
  if prev then panic else ret tt.

(** [while self.map.contains_key(&SchemeId(self.next_id))].  Running out of fuel
    is a panic. *)
Fixpoint skip_used (fuel : nat) (m : gmap Z KernelSchemes) (id : Z) : M SchemeList Z :=
  match fuel with
  | O => panic
  | S fuel' => if bool_decide (is_Some (m !! id)) then skip_used fuel' m (usize_add id 1) else ret id
  end.

(** The id allocation that [insert_and_pass] and [reserve_scheme] both start
    with. *)
Definition alloc_id : M SchemeList Z :=
  let! s := get_state in
  let start := if SCHEME_MAX_SCHEMES <=? next_id s then 1 else next_id s in
  let! id := skip_used (S (size (map_ s))) (map_ s) start in
  set_next_id (usize_add id 1) ;;;
  ret id.

Definition name_exists (s : SchemeList) (ns : Z) (name : string) : bool :=
  match names s !! ns with Some names_ => bool_decide (is_Some (names_ !! name)) | None => false end.

(** [assert!(self.map.insert(id, scheme).is_none())] *)
Definition map_insert_new (id : Z) (scheme : KernelSchemes) : M SchemeList unit :=
  let! s := get_state in
  set_map <[id := scheme]> ;;;
  assert_ (bool_decide (map_ s !! id = None)).

Definition insert_and_pass {T} (ns : Z) (name : string) (scheme_fn : Z -> KernelSchemes * T) : M SchemeList (result Error (Z * T)) :=
  let! s := get_state in
  if name_exists s ns name then err EEXIST
  else
    let! id := alloc_id in
    let '(new_scheme, t) := scheme_fn id in
    map_insert_new id new_scheme ;;;
    let! prev := names_insert ns name id in
    match prev with
    | Some prev => assert_ (bool_decide (prev = None)) ;;; ok (id, t)
    | None => err ENODEV
    end.

Definition insert (ns : Z) (name : string) (scheme_fn : Z -> KernelSchemes) : M SchemeList (result Error Z) :=
  let? '(id, _) := insert_and_pass ns name (fun id => (scheme_fn id, tt)) in ok id.

Definition reserve_scheme (ns : Z) (name : string) : M SchemeList (result Error Z) :=
  let! s := get_state in
  if name_exists s ns name then err EEXIST
  else
    let! id := alloc_id in
    let! prev := names_insert ns name id in
    match prev with
    | Some prev => assert_ (bool_decide (prev = None)) ;;; ok id
    | None => err ENODEV
    end.

Definition complete_registration (id : Z) (scheme : KernelSchemes) : M SchemeList (result Error unit) :=
  map_insert_new id scheme ;;; ok tt.

(** ** Removing schemes *)

(** The body of the loop over the namespaces: collect the names of the id, then
    take them out one by one. *)
Definition remove_names (id : Z) (names_ : Names) : Names :=
  let remove := filter (fun kv : string * Z => kv.2 = id) (map_to_list names_) in
  foldl (fun names_ kv => delete kv.1 names_) names_ remove.

Definition sl_remove (id : Z) : M SchemeList unit :=
  let! s := get_state in
  set_map (delete id) ;;;
  assert_ (bool_decide (is_Some (map_ s !! id))) ;;;
  set_names (fmap (remove_names id)).

(** ** Namespaces *)

Definition insert_globals (ns : Z) : list (string * GlobalSchemes) -> M SchemeList unit :=
  fun l => forM l (fun g => insert_global ns g.1 g.2).

Definition new_null : M SchemeList unit :=
  set_names <[0 := ∅]> ;;;
  insert_globals 0 [("memory"%string, GMemory); ("pipe"%string, GPipe)].

Definition new_ns : M SchemeList Z :=
  let! s := get_state in
  let ns := next_ns s in
  put_state (mkSL (map_ s) (<[ns := ∅]> (names s)) (usize_add ns 1) (next_id s)) ;;;
  let! r := insert ns ""%string (KRoot ns) in
  (match r with Ok _ => ret tt | Err _ => panic end) ;;;
  insert_globals ns [("event"%string, GEvent); ("memory"%string, GMemory); ("pipe"%string, GPipe);
                     ("sys"%string, GSys); ("time"%string, GTime)] ;;;
  ret ns.

Definition new_root : M SchemeList unit :=
  let! ns := new_ns in
  insert_globals ns
    ((if cfg_dtb then [("kernel.dtb"%string, GDtb)] else []) ++
     (if cfg_acpi then [("kernel.acpi"%string, GAcpi)] else []) ++
     [("debug"%string, GDebug); ("irq"%string, GIrq); ("kernel.proc"%string, GProc); ("serio"%string, GSerio)]).

(** The kernel's own schemes, under their fixed ids. *)
Definition global_schemes : list GlobalSchemes :=
  [GDebug; GEvent; GMemory; GPipe; GSerio; GIrq; GTime; GSys; GProc] ++
  (if cfg_acpi then [GAcpi] else []) ++ (if cfg_dtb then [GDtb] else []).

(** [SchemeList::new] *)
Definition sl_new : outcome SchemeList :=
  let globals := foldl (fun m g => <[global_scheme_id g := KGlobal g]> m) ∅ global_schemes in
  match (new_null ;;; new_root) (mkSL globals ∅ 1 MAX_GLOBAL_SCHEMES) with
  | Done (_, s) => Done s
  | Panic => Panic
  end.

(** The loop of [make_ns]. *)
Fixpoint copy_names (from to : Z) (l : list string) : M SchemeList (result Error unit) :=
  match l with
  | [] => ok tt
  | name :: l' =>
      let! s := get_state in
      match get_name s from name with
      | None => err ENODEV
      | Some (id, _) =>
          let! prev := names_insert to name id in
          let! prev := unwrap prev in
          match prev with
          | Some _ => err EEXIST
          | None => copy_names from to l'
          end
      end
  end.

Definition make_ns (from : Z) (l : list string) : M SchemeList (result Error Z) :=
  let! to := new_ns in
  let? _ := copy_names from to l in
  ok to.
End schemes.
