(* ===== verification/SchemesSpec.v ===== *)
(** * Theorems about the list of schemes

    The names of every namespace resolve, a registration is invisible until it
    is complete and undone by removal, and a namespace made from a list of names
    holds those names and no others. *)

From S2P Require Import Prelude Rmm Sync Schemes.

(** ** Ids *)

Definition above (n : Z) (m : gmap Z KernelSchemes) : gmap Z KernelSchemes := filter (fun kv => n <= kv.1) m.

Lemma above_lookup n m i : above n m !! i = if decide (n <= i) then m !! i else None.
Proof.
  unfold above. case_decide as H.
  - destruct (m !! i) eqn:E; [by apply map_lookup_filter_Some|]. apply map_lookup_filter_None. by left.
  - apply map_lookup_filter_None. right. naive_solver.
Qed.
Lemma above_step n m : is_Some (m !! n) -> (size (above (n + 1) m) < size (above n m))%nat.
Proof.
  intros [k Hk]. apply map_subset_size. apply map_subset_alt. split.
  - apply map_subseteq_spec. intros i x. rewrite !above_lookup. repeat case_decide; naive_solver lia.
  - exists n. rewrite !above_lookup. rewrite decide_False by lia. rewrite decide_True by lia. split; [done|by eexists].
Qed.
Lemma above_size n m : (size (above n m) <= size m)%nat.
Proof. apply map_subseteq_size, map_filter_subseteq. Qed.

Lemma skip_used_run m : forall fuel n s, 0 <= n -> (size (above n m) < fuel)%nat -> n + Z.of_nat fuel < 2 ^ 64 ->
  exists id, skip_used fuel m n s = Done (id, s) /\ n <= id < n + Z.of_nat fuel /\ m !! id = None /\
             (forall j, n <= j < id -> is_Some (m !! j)).
Proof.
  induction fuel as [|fuel IH]; intros n s Hn Hf Hb; [lia|]. cbn [skip_used]. case_bool_decide as Hu.
  - pose proof (above_step n m Hu).
    rewrite (usize_add_small n 1) by (unfold usize_ok; lia).
    destruct (IH (n + 1) s) as (id & -> & Hr & Hid & Hall); [lia..|]. exists id. split_and!; [done|lia|lia|done|].
    intros j Hj. destruct (decide (j = n)) as [->|]; [done|]. apply Hall. lia.
  - exists n. split_and!; [done|lia|lia| |lia]. by apply eq_None_not_Some.
Qed.

(** A map that ids can still be allocated from without the counter wrapping. *)
Definition ids_left (s : SchemeList) : Prop := 1 <= next_id s /\ Z.of_nat (size (map_ s)) < 2 ^ 63.

Lemma alloc_id_run s : ids_left s -> exists id,
  alloc_id s = Done (id, mkSL (map_ s) (names s) (next_ns s) (id + 1)) /\ map_ s !! id = None /\ 1 <= id.
Proof.
  intros [H1 Hs]. unfold alloc_id, bind, get_state.
  assert (Hst : exists n, (if SCHEME_MAX_SCHEMES <=? next_id s then 1 else next_id s) = n /\ 1 <= n < SCHEME_MAX_SCHEMES).
  { eexists. split; [reflexivity|]. unfold SCHEME_MAX_SCHEMES. destruct (65536 <=? next_id s) eqn:E; lia. }
  destruct Hst as (n & -> & Hn). unfold SCHEME_MAX_SCHEMES in Hn.
  destruct (skip_used_run (map_ s) (S (size (map_ s))) n s) as (id & -> & Hr & Hid & _); [lia| |lia|].
  { pose proof (above_size n (map_ s)). lia. }
  exists id. unfold set_next_id, modify, ret. rewrite (usize_add_small id 1) by (unfold usize_ok; lia). split_and!; [done|done|lia].
Qed.

(** ** Names *)

(** What a name of a namespace stands for, whether or not the scheme is there. *)
Definition names_at (s : SchemeList) (ns : Z) (n : string) : option Z := names s !! ns ≫= lookup n.

Lemma get_name_at s ns n : get_name s ns n = id ← names_at s ns n; scheme ← map_ s !! id; Some (id, scheme).
Proof. unfold get_name, names_at, sl_get. by destruct (names s !! ns). Qed.
Lemma name_exists_at s ns n : name_exists s ns n = bool_decide (is_Some (names_at s ns n)).
Proof. unfold name_exists, names_at. by destruct (names s !! ns). Qed.

Definition with_name (ns : Z) (n : string) (id : Z) (s : SchemeList) : SchemeList :=
  mkSL (map_ s) (<[ns := <[n := id]> (default ∅ (names s !! ns))]> (names s)) (next_ns s) (next_id s).

Lemma with_name_at ns n id s ns' n' :
  names_at (with_name ns n id s) ns' n' = if decide (ns' = ns /\ n' = n) then Some id else names_at s ns' n'.
Proof.
  unfold names_at, with_name. cbn [names]. destruct (decide (ns' = ns)) as [->|].
  - rewrite lookup_insert_eq. cbn [mbind option_bind]. destruct (decide (n' = n)) as [->|].
    + rewrite decide_True by done. by rewrite lookup_insert_eq.
    + rewrite decide_False by naive_solver. rewrite lookup_insert_ne by done. by destruct (names s !! ns).
  - rewrite decide_False by naive_solver. by rewrite lookup_insert_ne.
Qed.

Lemma names_insert_run ns n id s : is_Some (names s !! ns) ->
  names_insert ns n id s = Done (Some (names_at s ns n), with_name ns n id s).
Proof. intros [nm H]. unfold names_insert, bind, get_state, names_at, with_name. rewrite H. reflexivity. Qed.
Lemma names_insert_none ns n id s : names s !! ns = None -> names_insert ns n id s = Done (None, s).
Proof. intros H. unfold names_insert, bind, get_state. by rewrite H. Qed.

Lemma remove_names_lookup id nm n :
  remove_names id nm !! n = if decide (nm !! n = Some id) then None else nm !! n.
Proof.
  unfold remove_names.
  assert (Hd : forall (l : list (string * Z)) (m : gmap string Z), foldl (fun names_ kv => delete kv.1 names_) m l !! n
             = if decide (n ∈ l.*1) then None else m !! n).
  { clear. induction l as [|[k v] l IH]; intros m; [by rewrite decide_False by apply not_elem_of_nil|].
    cbn [foldl fmap list_fmap fst]. rewrite IH. destruct (decide (n = k)) as [->|Hne].
    - rewrite (decide_True (P := k ∈ k :: l.*1)) by apply list_elem_of_here. rewrite lookup_delete_eq. by case_decide.
    - rewrite lookup_delete_ne by done. destruct (decide (n ∈ l.*1)) as [Hi|Hi].
      + by rewrite decide_True by (by apply list_elem_of_further).
      + rewrite decide_False; [done|]. by intros [?|?]%elem_of_cons. }
  rewrite Hd. apply decide_ext. rewrite list_elem_of_fmap. split.
  - intros ([k v] & -> & [Hv Hin]%list_elem_of_filter). apply elem_of_map_to_list in Hin. cbn in *. by subst.
  - intros Hn. exists (n, id). split; [done|]. apply list_elem_of_filter. split; [done|]. by apply elem_of_map_to_list.
Qed.

Lemma sl_remove_run id s : is_Some (map_ s !! id) ->
  sl_remove id s = Done (tt, mkSL (delete id (map_ s)) (remove_names id <$> names s) (next_ns s) (next_id s)).
Proof.
  intros H. unfold sl_remove, bind, get_state, set_map, modify, assert_. rewrite bool_decide_eq_true_2 by done. reflexivity.
Qed.
Lemma removed_at id m k n s ns name :
  names_at (mkSL m (remove_names id <$> names s) k n) ns name
  = if decide (names_at s ns name = Some id) then None else names_at s ns name.
Proof.
  unfold names_at. cbn [names]. rewrite lookup_fmap. destruct (names s !! ns) as [nm|]; [apply remove_names_lookup|done].
Qed.

Lemma map_insert_new_run id k s : map_ s !! id = None ->
  map_insert_new id k s = Done (tt, mkSL (<[id := k]> (map_ s)) (names s) (next_ns s) (next_id s)).
Proof. intros H. unfold map_insert_new, bind, get_state, set_map, modify, assert_. by rewrite bool_decide_eq_true_2. Qed.

Lemma reserve_run ns n s : ids_left s -> is_Some (names s !! ns) -> names_at s ns n = None -> exists id,
  reserve_scheme ns n s = Done (Ok id, with_name ns n id (mkSL (map_ s) (names s) (next_ns s) (id + 1))) /\
  map_ s !! id = None /\ 1 <= id.
Proof.
  intros Hi Hns Hn. destruct (alloc_id_run s Hi) as (id & Ha & Hid & Hpos). exists id. split; [|done].
  unfold reserve_scheme. rewrite (bind_Done _ _ s s s) by done. rewrite name_exists_at, Hn.
  rewrite bool_decide_eq_false_2 by (by intros [? ?]). rewrite (bind_Done _ _ _ _ _ Ha).
  rewrite (bind_Done _ _ _ _ _ (names_insert_run ns n id (mkSL (map_ s) (names s) (next_ns s) (id + 1)) Hns)).
  change (names_at (mkSL _ _ _ _) ns n) with (names_at s ns n). by rewrite Hn.
Qed.

(** ** The invariant *)

Section invariant.
Context {BC : BuildConfig}.

(** [R] is the set of ids that are reserved and not yet complete. *)
Record sl_wf (R : gset Z) (s : SchemeList) : Prop := mkWf {
  (** a name stands for a scheme, or for one that is being registered *)
  wf_resolve : forall ns n id, names_at s ns n = Some id -> is_Some (map_ s !! id) \/ id ∈ R;
  wf_spaces : forall ns, is_Some (names s !! ns) <-> 0 <= ns < next_ns s;
  (** the kernel's schemes keep their ids *)
  wf_globals : forall g, g ∈ global_schemes -> map_ s !! global_scheme_id g = Some (KGlobal g);
  wf_next_id : 1 <= next_id s;
  wf_next_ns : 1 <= next_ns s;
  wf_roots : forall id ns id', map_ s !! id = Some (KRoot ns id') -> id' = id /\ 1 <= ns < next_ns s;
  (** every namespace but the null namespace has a root scheme *)
  wf_root_name : forall ns, 1 <= ns < next_ns s -> exists id ns', names_at s ns ""%string = Some id /\ map_ s !! id = Some (KRoot ns' id);
  wf_null : names_at s 0 ""%string = None;
}.

(** A bound on memory that no machine reaches. *)
Definition small (s : SchemeList) : Prop := Z.of_nat (size (map_ s)) < 2 ^ 63 /\ next_ns s < 2 ^ 63.

(** The operations other components perform: registration goes through the root
    scheme of a namespace, and only user schemes are removed. *)
Inductive sl_step : SchemeList * gset Z -> SchemeList * gset Z -> Prop :=
| step_reserve s R rid ns n id s' :
    small s -> map_ s !! rid = Some (KRoot ns rid) -> reserve_scheme ns n s = Done (Ok id, s') -> sl_step (s, R) (s', {[id]} ∪ R)
| step_reserve_fails s R rid ns n e s' :
    small s -> map_ s !! rid = Some (KRoot ns rid) -> reserve_scheme ns n s = Done (Err e, s') -> sl_step (s, R) (s', R)
| step_complete s R id p r s' :
    id ∈ R -> complete_registration id (KUser p) s = Done (r, s') -> sl_step (s, R) (s', R ∖ {[id]})
| step_remove s R id p u s' :
    map_ s !! id = Some (KUser p) -> sl_remove id s = Done (u, s') -> sl_step (s, R) (s', R)
| step_make_ns s R from l r s' :
    small s -> is_Some (names s !! from) -> make_ns from l s = Done (r, s') -> sl_step (s, R) (s', R).

Inductive sl_reachable : SchemeList * gset Z -> Prop :=
| reach_new s : sl_new = Done s -> sl_reachable (s, ∅)
| reach_step x y : sl_reachable x -> sl_step x y -> sl_reachable y.

Lemma wf_ids_left R s : sl_wf R s -> small s -> ids_left s.
Proof. intros [] []. by split. Qed.

Lemma wf_with_name R s ns n id :
  sl_wf R s -> 1 <= ns < next_ns s -> (is_Some (map_ s !! id) \/ id ∈ R) ->
  (n = ""%string -> exists ns', map_ s !! id = Some (KRoot ns' id)) -> sl_wf R (with_name ns n id s).
Proof.
  intros W Hns Hid He. destruct W. split; cbn [with_name map_ names next_ns next_id]; try done.
  - intros ns' n' id'. rewrite with_name_at. case_decide; naive_solver.
  - intros ns'. rewrite <- wf_spaces0. destruct (decide (ns' = ns)) as [->|].
    + rewrite lookup_insert_eq. rewrite wf_spaces0. split; [lia|by eexists].
    + by rewrite lookup_insert_ne.
  - intros ns' Hns'. destruct (wf_root_name0 ns' Hns') as (i & ns'' & ? & ?). rewrite with_name_at. case_decide as E; [|by eauto].
    destruct E as [-> <-]. destruct He as [ns3 ?]; [done|]. by eauto.
  - rewrite with_name_at. rewrite decide_False by lia. done.
Qed.

Lemma wf_reserved R s id : sl_wf R s -> sl_wf ({[id]} ∪ R) s.
Proof. intros []. split; try done. intros ns n id' ?. destruct (wf_resolve0 ns n id'); set_solver. Qed.
Lemma wf_set_next_id R s k : sl_wf R s -> 1 <= k -> sl_wf R (mkSL (map_ s) (names s) (next_ns s) k).
Proof. intros [] ?. by split. Qed.

(** Adding a scheme under an id that is not in use. *)
Lemma wf_map_insert R s id k :
  sl_wf R s -> map_ s !! id = None -> (forall ns id', k = KRoot ns id' -> id' = id /\ 1 <= ns < next_ns s) ->
  sl_wf (R ∖ {[id]}) (mkSL (<[id := k]> (map_ s)) (names s) (next_ns s) (next_id s)).
Proof.
  intros [] Hn Hk. split; cbn [map_ names next_ns next_id]; try done.
  - intros ns n id' H%wf_resolve0. destruct (decide (id' = id)) as [->|]; [left; rewrite lookup_insert_eq; by eexists|].
    rewrite lookup_insert_ne by done. set_solver.
  - intros g Hg. rewrite lookup_insert_ne; [by apply wf_globals0|]. intros ->. apply wf_globals0 in Hg. congruence.
  - intros i ns i'. destruct (decide (i = id)) as [->|]; [rewrite lookup_insert_eq|rewrite lookup_insert_ne by done]; naive_solver.
  - intros ns Hns. destruct (wf_root_name0 ns Hns) as (i & ns' & ? & ?). exists i, ns'. split; [done|].
    rewrite lookup_insert_ne; [done|]. intros ->. congruence.
Qed.

Lemma wf_remove R s id p : sl_wf R s -> map_ s !! id = Some (KUser p) ->
  sl_wf R (mkSL (delete id (map_ s)) (remove_names id <$> names s) (next_ns s) (next_id s)).
Proof.
  intros [] Hu. split; cbn [map_ names next_ns next_id]; try done.
  - intros ns n id'. rewrite removed_at. case_decide as E; [done|]. intros H. destruct (decide (id' = id)) as [->|]; [done|].
    rewrite lookup_delete_ne by done. by eapply wf_resolve0.
  - intros ns. rewrite lookup_fmap, fmap_is_Some. apply wf_spaces0.
  - intros g Hg. rewrite lookup_delete_ne; [by apply wf_globals0|]. intros ->. apply wf_globals0 in Hg. congruence.
  - intros i ns i' [? ?]%lookup_delete_Some. by eapply wf_roots0.
  - intros ns Hns. destruct (wf_root_name0 ns Hns) as (i & ns' & Hi & Hr). assert (i <> id) by (intros ->; congruence).
    exists i, ns'. rewrite removed_at, Hi. rewrite decide_False by congruence. rewrite lookup_delete_ne by done. done.
  - rewrite removed_at, wf_null0. by case_decide.
Qed.

(** ** Namespaces *)

Definition with_names (ns : Z) (l : list (string * Z)) (s : SchemeList) : SchemeList :=
  foldl (fun s e => with_name ns e.1 e.2 s) s l.

Lemma with_names_fields ns l : forall s, map_ (with_names ns l s) = map_ s /\ next_ns (with_names ns l s) = next_ns s /\
  next_id (with_names ns l s) = next_id s.
Proof. induction l as [|e l IH]; intros s; [done|]. cbn [with_names foldl]. apply (IH (with_name ns e.1 e.2 s)). Qed.

Lemma with_names_at ns l : forall s ns' n, NoDup l.*1 ->
  names_at (with_names ns l s) ns' n
  = if decide (ns' = ns) then from_option Some (names_at s ns n) ((list_to_map l : gmap string Z) !! n) else names_at s ns' n.
Proof.
  induction l as [|[k v] l IH]; intros s ns' n Hnd; [cbn; case_decide; by subst|].
  inversion_clear Hnd as [|?? Hk Hnd']. cbn [with_names foldl fst snd]. fold (with_names ns l (with_name ns k v s)).
  rewrite IH by done. rewrite !with_name_at. cbn [list_to_map foldr]. case_decide as E; [subst|by rewrite decide_False by naive_solver].
  destruct (decide (n = k)) as [->|].
  - cbn [uncurry foldr list_to_map fst snd]. rewrite lookup_insert_eq. rewrite not_elem_of_list_to_map_1 by done. cbn. by rewrite decide_True.
  - cbn [uncurry foldr list_to_map fst snd]. rewrite lookup_insert_ne by done. by rewrite decide_False by naive_solver.
Qed.

Lemma with_name_space ns n id s : is_Some (names (with_name ns n id s) !! ns).
Proof. unfold with_name. cbn. rewrite lookup_insert_eq. by eexists. Qed.

Definition global_ids (l : list (string * GlobalSchemes)) : list (string * Z) := map (fun e => (e.1, global_scheme_id e.2)) l.

Lemma insert_globals_run ns l : forall s, is_Some (names s !! ns) -> NoDup l.*1 -> (forall n, n ∈ l.*1 -> names_at s ns n = None) ->
  insert_globals ns l s = Done (tt, with_names ns (global_ids l) s).
Proof.
  induction l as [|[k g] l IH]; intros s Hns Hnd Hno; [done|]. inversion_clear Hnd as [|?? Hk Hnd'].
  unfold insert_globals. cbn [forM]. cbn [fst snd]. unfold insert_global at 1. rewrite !bind_assoc.
  rewrite (bind_Done _ _ _ _ _ (names_insert_run ns k _ s Hns)). rewrite (Hno k) by (left; done).
  cbn [unwrap]. apply (IH (with_name ns k (global_scheme_id g) s)); [apply with_name_space|done|].
  intros n Hn. rewrite with_name_at. rewrite decide_False; [apply Hno; by right|]. intros [_ ->]. done.
Qed.

Lemma wf_with_names R ns l : forall s, sl_wf R s -> 1 <= ns < next_ns s ->
  Forall (fun e => is_Some (map_ s !! e.2) /\ e.1 <> ""%string) l -> sl_wf R (with_names ns l s).
Proof.
  induction l as [|e l IH]; intros s W Hns Hl; [done|]. inversion_clear Hl as [|?? [H1 H2] Hl'].
  cbn [with_names foldl]. apply (IH (with_name ns e.1 e.2 s)); [|done|done]. apply wf_with_name; [done|done|by left|done].
Qed.

(** What a new namespace holds besides its root scheme. *)
Definition common_names : list (string * GlobalSchemes) :=
  [("event"%string, GEvent); ("memory"%string, GMemory); ("pipe"%string, GPipe); ("sys"%string, GSys); ("time"%string, GTime)].
Definition built_in (rid : Z) : gmap string Z := <[""%string := rid]> (list_to_map (global_ids common_names)).

(** The state after [new_ns]. *)
Definition ns_added (rid : Z) (s : SchemeList) : SchemeList :=
  with_names (next_ns s) (global_ids common_names)
    (with_name (next_ns s) ""%string rid
       (mkSL (<[rid := KRoot (next_ns s) rid]> (map_ s)) (<[next_ns s := ∅]> (names s)) (next_ns s + 1) (rid + 1))).

Lemma common_global e : e ∈ common_names -> e.2 ∈ global_schemes /\ e.1 <> ""%string.
Proof. unfold common_names, global_schemes. rewrite !elem_of_cons, elem_of_nil. intros Hl. destruct_or?; subst; cbn; (split; [set_solver|done]). Qed.

Lemma insert_new_run ns n f s : ids_left s -> names s !! ns = Some ∅ -> exists id,
  insert ns n f s = Done (Ok id, with_name ns n id (mkSL (<[id := f id]> (map_ s)) (names s) (next_ns s) (id + 1))) /\
  map_ s !! id = None /\ 1 <= id.
Proof.
  intros Hi Hns. destruct (alloc_id_run s Hi) as (id & Ha & Hid & Hpos). exists id. split; [|done].
  assert (Hno : forall m k i, names_at (mkSL m (names s) k i) ns n = None) by (intros; unfold names_at; cbn; by rewrite Hns).
  unfold insert, bind_result. unfold insert_and_pass. rewrite (bind_assoc get_state). rewrite (bind_Done _ _ s s s) by done.
  rewrite name_exists_at. replace (names_at s ns n) with (@None Z) by (unfold names_at; by rewrite Hns).
  rewrite bool_decide_eq_false_2 by (by intros [? ?]). rewrite bind_assoc, (bind_Done _ _ _ _ _ Ha).
  rewrite bind_assoc, (bind_Done _ _ _ _ _ (map_insert_new_run id _ (mkSL (map_ s) _ _ _) Hid)). cbn [map_ names next_ns next_id].
  rewrite bind_assoc. erewrite bind_Done by (apply names_insert_run; cbn; rewrite Hns; by eexists).
  rewrite Hno. done.
Qed.

Lemma new_ns_run R s : sl_wf R s -> small s -> exists rid,
  new_ns s = Done (next_ns s, ns_added rid s) /\ map_ s !! rid = None /\ 1 <= rid.
Proof.
  intros W Hs. pose proof (wf_ids_left _ _ W Hs) as Hi. destruct Hs as [Hsz Hn]. pose proof (wf_next_ns _ _ W).
  set (s1 := mkSL (map_ s) (<[next_ns s := ∅]> (names s)) (next_ns s + 1) (next_id s)).
  destruct (insert_new_run (next_ns s) ""%string (KRoot (next_ns s)) s1) as (rid & Hr & Hrid & Hp); [done|cbn; by rewrite lookup_insert_eq|].
  exists rid. split; [|done]. unfold new_ns. rewrite (bind_Done _ _ s s s) by done. rewrite usize_add_small by lia.
  rewrite (bind_Done _ _ _ tt s1) by done. rewrite (bind_Done _ _ _ _ _ Hr). cbn beta iota. rewrite bind_ret.
  erewrite bind_Done; [reflexivity|]. apply insert_globals_run.
  - apply with_name_space.
  - apply (bool_decide_unpack _). by vm_compute.
  - intros n Hin. rewrite with_name_at. rewrite decide_False.
    + unfold names_at, s1. cbn [names]. by rewrite lookup_insert_eq.
    + intros [_ ->]. revert Hin. apply (bool_decide_unpack _). by vm_compute.
Qed.

Lemma common_nodup : NoDup (global_ids common_names).*1.
Proof. apply (bool_decide_unpack _). by vm_compute. Qed.

Lemma ns_added_at rid s ns n :
  names_at (ns_added rid s) ns n = if decide (ns = next_ns s) then built_in rid !! n else names_at s ns n.
Proof.
  unfold ns_added. rewrite with_names_at by apply common_nodup. rewrite !with_name_at. unfold built_in.
  case_decide as E; [subst|rewrite decide_False by naive_solver].
  - assert (Hz : forall n, names_at (mkSL (<[rid:=KRoot (next_ns s) rid]> (map_ s)) (<[next_ns s:=∅]> (names s)) (next_ns s + 1) (rid + 1)) (next_ns s) n = None)
      by (intros; unfold names_at; cbn; by rewrite lookup_insert_eq).
    rewrite Hz. destruct (decide (n = ""%string)) as [->|].
    + rewrite lookup_insert_eq. rewrite not_elem_of_list_to_map_1; [cbn; by rewrite decide_True|].
      apply (bool_decide_unpack _). by vm_compute.
    + rewrite lookup_insert_ne by done. rewrite decide_False by naive_solver. by destruct (_ !! n).
  - unfold names_at. cbn. by rewrite lookup_insert_ne.
Qed.
Lemma ns_added_fields rid s :
  map_ (ns_added rid s) = <[rid := KRoot (next_ns s) rid]> (map_ s) /\ next_ns (ns_added rid s) = next_ns s + 1.
Proof. unfold ns_added. destruct (with_names_fields (next_ns s) (global_ids common_names) (with_name (next_ns s) ""%string rid
  (mkSL (<[rid := KRoot (next_ns s) rid]> (map_ s)) (<[next_ns s := ∅]> (names s)) (next_ns s + 1) (rid + 1)))) as (-> & -> & _). done. Qed.

(** A new namespace whose root scheme is already there. *)
Lemma wf_new_space R s rid : sl_wf R s -> map_ s !! rid = None -> 1 <= rid ->
  sl_wf R (with_name (next_ns s) ""%string rid
    (mkSL (<[rid := KRoot (next_ns s) rid]> (map_ s)) (<[next_ns s := ∅]> (names s)) (next_ns s + 1) (rid + 1))).
Proof.
  intros W Hr Hp. pose proof W as []. assert (Hsp : names s !! next_ns s = None).
  { apply eq_None_not_Some. rewrite wf_spaces0. lia. }
  assert (Hne : forall ns n, names_at (mkSL (<[rid := KRoot (next_ns s) rid]> (map_ s)) (<[next_ns s := ∅]> (names s)) (next_ns s + 1) (rid + 1)) ns n
                = names_at s ns n).
  { intros ns n. unfold names_at. cbn. destruct (decide (ns = next_ns s)) as [->|]; [by rewrite lookup_insert_eq, Hsp|by rewrite lookup_insert_ne]. }
  split; cbn [with_name map_ names next_ns next_id].
  - intros ns n id. rewrite with_name_at, Hne. case_decide.
    + intros [= <-]. left. rewrite lookup_insert_eq. by eexists.
    + intros Hi%wf_resolve0. destruct (decide (id = rid)) as [->|]; [left; rewrite lookup_insert_eq; by eexists|by rewrite lookup_insert_ne].
  - intros ns. destruct (decide (ns = next_ns s)) as [->|].
    + rewrite lookup_insert_eq. split; [lia|by eexists].
    + rewrite !lookup_insert_ne by done. rewrite wf_spaces0. lia.
  - intros g Hg%wf_globals0. rewrite lookup_insert_ne by congruence. done.
  - lia.
  - lia.
  - intros i ns i'. destruct (decide (i = rid)) as [->|].
    + rewrite lookup_insert_eq. intros [= <- <-]. split; [done|lia].
    + rewrite lookup_insert_ne by done. intros [-> ?]%wf_roots0. split; [done|lia].
  - intros ns Hns. destruct (decide (ns = next_ns s)) as [->|].
    + exists rid, (next_ns s). rewrite with_name_at, decide_True by done. by rewrite lookup_insert_eq.
    + destruct (wf_root_name0 ns) as (i & ns' & Hi & Hri); [lia|]. exists i, ns'. rewrite with_name_at, decide_False by naive_solver.
      rewrite Hne. rewrite lookup_insert_ne by congruence. done.
  - rewrite with_name_at, decide_False by lia. by rewrite Hne.
Qed.

Lemma wf_ns_added R s rid : sl_wf R s -> map_ s !! rid = None -> 1 <= rid -> sl_wf R (ns_added rid s).
Proof.
  intros W Hr Hp. pose proof (wf_next_ns _ _ W). apply wf_with_names; [by apply wf_new_space|cbn; lia|].
  apply Forall_forall. unfold global_ids. intros e (g & -> & Hg)%list_elem_of_fmap. cbn [with_name map_ fst snd].
  destruct (common_global g Hg) as [Hin Hne]. split; [|done]. apply (wf_globals _ _ W) in Hin.
  rewrite lookup_insert_ne by congruence. by eexists.
Qed.

(** ** Copying names *)

(** [copy_names] either copies every name, or stops at one that is missing or
    already there; other namespaces, the schemes and the counters stay. *)
Lemma copy_names_run R from to l : forall s, sl_wf R s -> 1 <= to < next_ns s -> from <> to -> exists r s',
  copy_names from to l s = Done (r, s') /\ sl_wf R s' /\ map_ s' = map_ s /\ next_ns s' = next_ns s /\
  (forall ns n, ns <> to -> names_at s' ns n = names_at s ns n) /\
  match r with
  | Ok _ => NoDup l /\ (forall n, n ∈ l -> is_Some (get_name s from n) /\ names_at s to n = None) /\
            (forall n, names_at s' to n = if decide (n ∈ l) then fst <$> get_name s from n else names_at s to n)
  | Err e => (e = ENODEV /\ exists n, n ∈ l /\ get_name s from n = None) \/
             (e = EEXIST /\ ~ (NoDup l /\ forall n, n ∈ l -> names_at s to n = None))
  end.
Proof.
  induction l as [|x l IH]; intros s W Hto Hne; cbn [copy_names].
  { exists (Ok tt), s. do 5 (split; [done|]). split; [apply NoDup_nil_2|]. split; [by intros ? ?%not_elem_of_nil|]. intros n. by rewrite decide_False by apply not_elem_of_nil. }
  rewrite (bind_Done _ _ s s s) by done. destruct (get_name s from x) as [[id k]|] eqn:Hg.
  2:{ eexists _, s. split_and!; try done. left. split; [done|]. exists x. split; [left|done]. }
  pose proof Hg as Hg'. rewrite get_name_at in Hg'. destruct (names_at s from x) as [id'|] eqn:Hx; [|done]. cbn in Hg'.
  destruct (map_ s !! id') as [k'|] eqn:Hk; [|done]. cbn in Hg'. injection Hg' as -> ->.
  assert (Hsp : is_Some (names s !! to)) by (apply (wf_spaces _ _ W); lia).
  rewrite (bind_Done _ _ _ _ _ (names_insert_run to x id s Hsp)). cbn [unwrap]. rewrite bind_ret.
  set (s1 := with_name to x id s). assert (W1 : sl_wf R s1).
  { apply wf_with_name; [done|done|left; by eexists|]. intros ->.
    destruct (decide (from = 0)) as [->|]; [rewrite (wf_null _ _ W) in Hx; done|].
    assert (is_Some (names s !! from)) by (unfold names_at in Hx; destruct (names s !! from); by eauto).
    destruct (wf_root_name _ _ W from) as (i & ns' & Hi & Hr); [apply (wf_spaces _ _ W) in H; lia|]. simplify_eq. eauto. }
  assert (Hot : forall ns n, ns <> to -> names_at s1 ns n = names_at s ns n)
    by (intros; unfold s1; rewrite with_name_at, decide_False by naive_solver; done).
  destruct (names_at s to x) as [old|] eqn:Hold.
  { exists (Err EEXIST), s1. split_and!; try done. right. split; [done|]. intros [_ Hall]. specialize (Hall x). rewrite Hall in Hold; [done|left; done]. }
  destruct (IH s1) as (r & s' & Hrun & W' & Hm & Hn & Ho & Hr); [done|done|done|]. exists r, s'. cbn [copy_names]. rewrite Hrun.
  split_and!; [done|done|done|done|intros; rewrite Ho, Hot by done; done|].
  assert (Hgn : forall n, get_name s1 from n = get_name s from n) by (intros; rewrite !get_name_at, Hot by done; done).
  assert (Hat : forall n, n <> x -> names_at s1 to n = names_at s to n)
    by (intros; unfold s1; rewrite with_name_at, decide_False by naive_solver; done).
  assert (Hxx : names_at s1 to x = Some id) by (unfold s1; rewrite with_name_at, decide_True by done; done).
  destruct r as [u|e].
  - destruct Hr as (Hnd & Hall & Hres). assert (Hxl : x ∉ l) by (intros Hxl; apply Hall in Hxl as [_ ?]; congruence).
    split_and!; [by constructor| |].
    + intros n [->|Hn']%elem_of_cons; [rewrite Hg; split; [by eexists|done]|]. destruct (Hall n Hn') as [H1 H2]. rewrite Hgn in H1.
      split; [done|]. rewrite <- Hat; [done|]. intros ->. done.
    + intros n. rewrite Hres, Hgn. destruct (decide (n = x)) as [->|Hnx].
      * rewrite decide_False by done. rewrite (decide_True (P := x ∈ x :: l)) by (left; done). rewrite Hxx, Hg. done.
      * rewrite Hat by done. apply decide_ext. rewrite elem_of_cons. naive_solver.
  - destruct Hr as [(-> & n & Hn' & Hnone)|(-> & Hbad)]; [left|right]; (split; [done|]).
    + exists n. rewrite Hgn in Hnone. split; [by right|done].
    + intros [Hnd Hall]. inversion_clear Hnd as [|?? Hxl Hnd']. apply Hbad. split; [done|]. intros n Hn'. rewrite Hat; [apply Hall; by right|].
      intros ->. done.
Qed.

(** [make_ns] keeps the invariant. *)
Lemma make_ns_wf R s from l r s' : sl_wf R s -> small s -> is_Some (names s !! from) -> make_ns from l s = Done (r, s') -> sl_wf R s'.
Proof.
  intros W Hs Hf. destruct (new_ns_run R s W Hs) as (rid & Hrun & Hrid & Hp). pose proof (wf_ns_added R s rid W Hrid Hp) as W1.
  pose proof (wf_next_ns _ _ W). destruct (ns_added_fields rid s) as [_ Hn1]. unfold make_ns. rewrite (bind_Done _ _ _ _ _ Hrun).
  unfold bind_result. destruct (copy_names_run R from (next_ns s) l (ns_added rid s) W1) as (r1 & s1 & Hc & W' & _);
    [lia|apply (wf_spaces _ _ W) in Hf; lia|].
  rewrite (bind_Done _ _ _ _ _ Hc). destruct r1; by intros [= <- <-].
Qed.

(** [make_ns] while no registration is in progress, whatever its result. *)
Lemma make_ns_run s from l : sl_wf ∅ s -> small s -> is_Some (names s !! from) -> exists rid r s',
  make_ns from l s = Done (r, s') /\ map_ s !! rid = None /\
  map_ s' = <[rid := KRoot (next_ns s) rid]> (map_ s) /\
  (forall ns n, ns <> next_ns s -> get_name s' ns n = get_name s ns n) /\
  match r with
  | Ok to => to = next_ns s /\ NoDup l /\ (forall n, n ∈ l -> is_Some (get_name s from n) /\ built_in rid !! n = None) /\
             (forall n, names_at s' to n = if decide (n ∈ l) then fst <$> get_name s from n else built_in rid !! n)
  | Err e => (e = ENODEV /\ exists n, n ∈ l /\ get_name s from n = None) \/
             (e = EEXIST /\ ~ (NoDup l /\ forall n, n ∈ l -> built_in rid !! n = None))
  end.
Proof.
  intros W Hs Hf. destruct (new_ns_run ∅ s W Hs) as (rid & Hrun & Hrid & Hp). pose proof (wf_ns_added ∅ s rid W Hrid Hp) as W1.
  pose proof (wf_next_ns _ _ W). assert (Hne : from <> next_ns s) by (apply (wf_spaces _ _ W) in Hf; lia).
  destruct (ns_added_fields rid s) as [Hm1 Hn1].
  destruct (copy_names_run ∅ from (next_ns s) l (ns_added rid s) W1) as (r & s' & Hc & W' & Hm & Hn & Ho & Hr); [lia|done|].
  assert (Hkeep : forall id, is_Some (map_ s !! id) -> map_ (ns_added rid s) !! id = map_ s !! id).
  { intros id [k Hk]. rewrite Hm1, lookup_insert_ne by congruence. done. }
  assert (Hgn : forall s2 ns n, map_ s2 = map_ (ns_added rid s) -> names_at s2 ns n = names_at s ns n -> get_name s2 ns n = get_name s ns n).
  { intros s2 ns n E1 E2. rewrite !get_name_at, E1, E2. destruct (names_at s ns n) as [id|] eqn:Hid; [|done].
    cbn. rewrite Hkeep; [done|]. destruct (wf_resolve _ _ W _ _ _ Hid); [done|set_solver]. }
  assert (Hfrom : forall n, get_name (ns_added rid s) from n = get_name s from n).
  { intros n. apply Hgn; [done|]. by rewrite ns_added_at, decide_False. }
  assert (Hto : forall n, names_at (ns_added rid s) (next_ns s) n = built_in rid !! n) by (intros; by rewrite ns_added_at, decide_True).
  exists rid. unfold make_ns. rewrite (bind_Done _ _ _ _ _ Hrun). unfold bind_result. rewrite (bind_Done _ _ _ _ _ Hc).
  assert (Hoth : forall ns n, ns <> next_ns s -> get_name s' ns n = get_name s ns n).
  { intros ns n Hx. apply Hgn; [done|]. rewrite Ho, ns_added_at, decide_False by done. done. }
  rewrite Hm1 in Hm.
  destruct r as [u|e]; setoid_rewrite Hfrom in Hr; setoid_rewrite Hto in Hr; eexists _, s'; (do 4 (split; [done|])); [|exact Hr].
  destruct Hr as (? & ? & Hres). split_and!; [done|done|done|]. intros n. by rewrite Hres, Hfrom, Hto.
Qed.

Lemma built_in_lookup rid n : built_in rid !! n =
  if decide (n = ""%string) then Some rid else global_scheme_id <$> (list_to_map common_names : gmap string GlobalSchemes) !! n.
Proof.
  unfold built_in. case_decide as E; [subst; by rewrite lookup_insert_eq|]. rewrite lookup_insert_ne by done.
  rewrite <- lookup_fmap. by rewrite <- (list_to_map_fmap global_scheme_id common_names).
Qed.
Lemma built_in_none rid n : built_in rid !! n = None <-> n ∉ ""%string :: common_names.*1.
Proof.
  rewrite built_in_lookup, elem_of_cons. case_decide as E; [naive_solver|]. rewrite fmap_None, <- not_elem_of_list_to_map. naive_solver.
Qed.

(** ** Registration *)

(** [complete_registration], then the state of the list. *)
Definition registered (ns : Z) (n : string) (id p : Z) (s : SchemeList) : SchemeList :=
  with_name ns n id (mkSL (<[id := KUser p]> (map_ s)) (names s) (next_ns s) (id + 1)).

Lemma complete_run ns n id p s : map_ s !! id = None ->
  complete_registration id (KUser p) (with_name ns n id (mkSL (map_ s) (names s) (next_ns s) (id + 1)))
  = Done (Ok tt, registered ns n id p s).
Proof. intros H. unfold complete_registration. erewrite bind_Done; [|by apply map_insert_new_run]. done. Qed.

Lemma fresh_unnamed s id ns n : sl_wf ∅ s -> map_ s !! id = None -> names_at s ns n <> Some id.
Proof. intros W Hn Hi. destruct (wf_resolve _ _ W _ _ _ Hi) as [[k Hk]|?]; [congruence|set_solver]. Qed.

Lemma get_name_ext s s' ns n : names_at s' ns n = names_at s ns n -> (forall id, names_at s ns n = Some id -> map_ s' !! id = map_ s !! id) ->
  get_name s' ns n = get_name s ns n.
Proof. intros E1 E2. rewrite !get_name_at, E1. destruct (names_at s ns n) as [id|] eqn:Hid; [|done]. cbn. by rewrite E2. Qed.

(** [reserve_scheme] through a root scheme, whatever its result. *)
Lemma reserve_wf R s rid ns n r s' : sl_wf R s -> small s -> map_ s !! rid = Some (KRoot ns rid) ->
  reserve_scheme ns n s = Done (r, s') -> match r with Ok id => sl_wf ({[id]} ∪ R) s' | Err _ => sl_wf R s' end.
Proof.
  intros W Hs Hroot Hr. pose proof (wf_roots _ _ W _ _ _ Hroot) as [_ Hns]. assert (Hsp : is_Some (names s !! ns)) by (apply (wf_spaces _ _ W); lia).
  destruct (names_at s ns n) as [i|] eqn:Hn.
  - unfold reserve_scheme in Hr. rewrite (bind_Done _ _ s s s) in Hr by done. rewrite name_exists_at, Hn in Hr.
    rewrite bool_decide_eq_true_2 in Hr by (by eexists). by injection Hr as <- <-.
  - destruct (reserve_run ns n s (wf_ids_left _ _ W Hs) Hsp Hn) as (id & Hr' & Hid & Hp). rewrite Hr' in Hr. injection Hr as <- <-.
    apply wf_with_name; [apply wf_reserved, wf_set_next_id; [done|lia]|done|right; set_solver|]. intros ->.
    destruct (wf_root_name _ _ W ns Hns) as (i & ? & Hi & _). congruence.
Qed.

(** C28: Registering a user scheme.  In a well-formed list with no other
    registration in progress, a name that is not taken is reserved under an id
    that no scheme has; until the registration completes the name is taken (a
    second reservation fails with [EEXIST]) but opening it finds nothing; then it
    finds the new scheme, every other name of every namespace finding what it
    found before; and removing the scheme brings every lookup back to what it was. *)
Theorem scheme_register_roundtrip (s : SchemeList) (ns : Z) (n : string) (p : Z) :
  sl_wf ∅ s -> small s -> is_Some (names s !! ns) -> names_at s ns n = None ->
  exists id s1 s2 s3, reserve_scheme ns n s = Done (Ok id, s1) /\ sl_get s id = None /\
    reserve_scheme ns n s1 = Done (Err EEXIST, s1) /\ (forall ns' n', get_name s1 ns' n' = get_name s ns' n') /\
    complete_registration id (KUser p) s1 = Done (Ok tt, s2) /\
    (forall ns' n', get_name s2 ns' n' = if decide (ns' = ns /\ n' = n) then Some (id, KUser p) else get_name s ns' n') /\
    sl_remove id s2 = Done (tt, s3) /\ (forall ns' n', get_name s3 ns' n' = get_name s ns' n').
Proof.
  intros W Hs Hns Hn. destruct (reserve_run ns n s (wf_ids_left _ _ W Hs) Hns Hn) as (id & Hr & Hid & Hp).
  assert (Hfr : forall ns' n', names_at s ns' n' <> Some id) by (intros; by apply fresh_unnamed).
  eexists id, _, _, _. split_and!; [exact Hr|exact Hid| | |by apply complete_run| | |].
  - unfold reserve_scheme. rewrite (bind_Done _ _ _ _ _ eq_refl). rewrite name_exists_at, with_name_at, decide_True by done.
    by rewrite bool_decide_eq_true_2 by (by eexists).
  - intros ns' n'. rewrite !get_name_at, with_name_at. cbn [with_name map_]. destruct (decide (ns' = ns /\ n' = n)) as [[-> ->]|]; [|done].
    cbn. by rewrite Hid, Hn.
  - intros ns' n'. unfold registered. destruct (decide (ns' = ns /\ n' = n)) as [[-> ->]|Hne].
    + rewrite get_name_at, with_name_at, decide_True by done. cbn. by rewrite lookup_insert_eq.
    + apply get_name_ext; [by rewrite with_name_at, decide_False|]. intros i Hi. cbn. rewrite lookup_insert_ne; [done|]. intros ->. by eapply Hfr.
  - apply sl_remove_run. cbn. rewrite lookup_insert_eq. by eexists.
  - intros ns' n'. apply get_name_ext.
    + rewrite removed_at. unfold registered. rewrite with_name_at. destruct (decide (ns' = ns /\ n' = n)) as [[-> ->]|]; [by rewrite decide_True|].
      rewrite decide_False; [done|]. apply Hfr.
    + intros i Hi. cbn. rewrite lookup_delete_ne by (intros <-; by eapply Hfr). rewrite lookup_insert_ne; [done|]. intros <-. by eapply Hfr.
Qed.

(** C27: A namespace made from a list of names confines its processes to those
    schemes.  With no registration in progress [make_ns] never panics and leaves
    every lookup in the existing namespaces as it was.  It succeeds when all names
    exist in the namespace it copies from, are distinct and are none of the names
    every namespace has; the new namespace then finds, under a requested name, the
    scheme the old one finds, the kernel's five common schemes and a root scheme of
    its own, and nothing else.  Otherwise the error is [ENODEV] or [EEXIST]. *)
Theorem make_ns_confined (s : SchemeList) (from : Z) (l : list string) :
  sl_wf ∅ s -> small s -> is_Some (names s !! from) ->
  exists rid r s', make_ns from l s = Done (r, s') /\ sl_get s rid = None /\
    (forall ns n, ns <> next_ns s -> get_name s' ns n = get_name s ns n) /\
    match r with
    | Ok to => to = next_ns s /\ NoDup l /\ (forall n, n ∈ l -> is_Some (get_name s from n) /\ n ∉ ""%string :: common_names.*1) /\
        (forall n, get_name s' to n =
           if decide (n ∈ l) then get_name s from n
           else if decide (n = ""%string) then Some (rid, KRoot to rid)
           else (fun g => (global_scheme_id g, KGlobal g)) <$> (list_to_map common_names : gmap string GlobalSchemes) !! n)
    | Err e => (e = ENODEV /\ exists n, n ∈ l /\ get_name s from n = None) \/
               (e = EEXIST /\ ~ (NoDup l /\ forall n, n ∈ l -> n ∉ ""%string :: common_names.*1))
    end.
Proof.
  intros W Hs Hf. destruct (make_ns_run s from l W Hs Hf) as (rid & r & s' & Hrun & Hrid & Hm & Ho & Hr).
  exists rid, r, s'. split_and!; [done|done|done|].
  assert (Hb : forall n, built_in rid !! n = None <-> n ∉ ""%string :: common_names.*1) by apply built_in_none.
  destruct r as [to|e]; [|setoid_rewrite Hb in Hr; done].
  destruct Hr as (-> & Hnd & Hall & Hat). setoid_rewrite Hb in Hall. split_and!; [done|done|done|]. intros n.
  rewrite get_name_at, Hat. destruct (decide (n ∈ l)) as [Hin|Hin].
  - rewrite get_name_at. destruct (names_at s from n) as [id|] eqn:Hid; [cbn|done].
    destruct (map_ s !! id) as [k|] eqn:Hk; [cbn|done]. rewrite Hm, lookup_insert_ne by congruence. by rewrite Hk.
  - rewrite built_in_lookup. destruct (decide (n = ""%string)) as [->|]; [cbn; by rewrite Hm, lookup_insert_eq|].
    destruct (list_to_map common_names !! n) as [g|] eqn:Hg; [cbn|done]. apply elem_of_list_to_map_2 in Hg.
    destruct (common_global _ Hg) as [Hgl _]. apply (wf_globals _ _ W) in Hgl. cbn in Hgl. by rewrite Hm, lookup_insert_ne, Hgl by congruence.
Qed.

(** ** The initial list *)

Definition null_names : list (string * GlobalSchemes) := [("memory"%string, GMemory); ("pipe"%string, GPipe)].
Definition global_map : gmap Z KernelSchemes := foldl (fun m g => <[global_scheme_id g := KGlobal g]> m) ∅ global_schemes.
Definition null_list : SchemeList := with_names 0 (global_ids null_names) (mkSL global_map {[0 := ∅]} 1 MAX_GLOBAL_SCHEMES).
Definition root_names : list (string * GlobalSchemes) :=
  (if cfg_dtb then [("kernel.dtb"%string, GDtb)] else []) ++ (if cfg_acpi then [("kernel.acpi"%string, GAcpi)] else []) ++
  [("debug"%string, GDebug); ("irq"%string, GIrq); ("kernel.proc"%string, GProc); ("serio"%string, GSerio)].

Lemma global_map_lookup g : g ∈ global_schemes -> global_map !! global_scheme_id g = Some (KGlobal g).
Proof.
  unfold global_map, global_schemes, global_scheme_id. destruct cfg_acpi, cfg_dtb; cbn [app]; rewrite !elem_of_cons, elem_of_nil;
    intros Hg; destruct_or?; subst; by vm_compute.
Qed.
Lemma global_map_only i k : global_map !! i = Some k -> exists g, k = KGlobal g.
Proof.
  unfold global_map. generalize global_schemes. intros l. revert i.
  assert (H : forall l (m : gmap Z KernelSchemes), (forall i, m !! i = Some k -> exists g, k = KGlobal g) ->
    forall i, foldl (fun m g => <[global_scheme_id g := KGlobal g]> m) m l !! i = Some k -> exists g, k = KGlobal g).
  { clear. induction l as [|g l IH]; intros m Hm i; cbn [foldl]; [apply Hm|]. apply IH. intros j.
    destruct (decide (j = global_scheme_id g)) as [->|]; [rewrite lookup_insert_eq; intros [= <-]; by eexists|].
    rewrite lookup_insert_ne by done. apply Hm. }
  apply H. intros i. by rewrite lookup_empty.
Qed.

Lemma null_list_at ns n : names_at null_list ns n = if decide (ns = 0) then (list_to_map (global_ids null_names) : gmap string Z) !! n else None.
Proof.
  unfold null_list. rewrite with_names_at by (apply (bool_decide_unpack _); by vm_compute). unfold names_at. cbn [names].
  case_decide as E; [subst|rewrite lookup_singleton_ne by done; done]. rewrite lookup_singleton_eq. cbn [mbind option_bind].
  rewrite lookup_empty. by destruct (list_to_map (global_ids null_names) !! n).
Qed.

Lemma null_list_wf : sl_wf ∅ null_list.
Proof.
  destruct (with_names_fields 0 (global_ids null_names) (mkSL global_map {[0 := ∅]} 1 MAX_GLOBAL_SCHEMES)) as (Hm & Hn & Hi).
  fold null_list in Hm, Hn, Hi. cbn in Hm, Hn, Hi. split; rewrite ?Hm, ?Hn, ?Hi; try done.
  - intros ns n id. rewrite null_list_at. case_decide; [|done]. intros (g & [= -> ->] & Hg)%elem_of_list_to_map_2%list_elem_of_fmap. left.
    rewrite global_map_lookup; [by eexists|]. revert Hg. unfold null_names, global_schemes. rewrite !elem_of_cons, elem_of_nil.
    intros Hg; destruct_or?; subst; set_solver.
  - intros ns. cbn. destruct (decide (ns = 0)) as [->|]; [split; [lia|by eexists]|].
    rewrite !lookup_insert_ne by done. rewrite lookup_singleton_ne by done. split; [by intros [? ?]|lia].
  - apply global_map_lookup.
  - intros i ns i' (g & Hg)%global_map_only. done.
  - intros ns. change (next_ns null_list) with 1. lia.
Qed.

Lemma root_names_nodup : NoDup root_names.*1.
Proof. unfold root_names. destruct cfg_acpi, cfg_dtb; apply (bool_decide_unpack _); by vm_compute. Qed.
Lemma root_names_global e : e ∈ root_names -> e.2 ∈ global_schemes /\ e.1 <> ""%string /\ built_in 0 !! e.1 = None.
Proof.
  unfold root_names, global_schemes. rewrite built_in_none. destruct cfg_acpi, cfg_dtb; cbn [app]; rewrite !elem_of_cons, elem_of_nil; intros He;
    destruct_or?; subst; cbn; (split_and!; [set_solver|done|apply (bool_decide_unpack _); by vm_compute]).
Qed.

(** [SchemeList::new] gives a well-formed list. *)
Lemma sl_new_run : exists s, sl_new = Done s /\ sl_wf ∅ s.
Proof.
  destruct (new_ns_run ∅ null_list null_list_wf) as (rid & Hr & Hrid & Hp).
  { destruct (with_names_fields 0 (global_ids null_names) (mkSL global_map {[0 := ∅]} 1 MAX_GLOBAL_SCHEMES)) as (Hm & Hn & _).
    unfold small, null_list. rewrite Hm, Hn. cbn [map_ next_ns]. split; [|lia]. unfold global_map, global_schemes, global_scheme_id.
    destruct cfg_acpi, cfg_dtb; by vm_compute. }
  pose proof (wf_ns_added ∅ _ rid null_list_wf Hrid Hp) as W1.
  assert (Hn1 : next_ns null_list = 1) by done. rewrite Hn1 in Hr. destruct (ns_added_fields rid null_list) as [Hm1 Hnn]. rewrite Hn1 in *.
  exists (with_names 1 (global_ids root_names) (ns_added rid null_list)). split.
  - unfold sl_new. fold global_map. assert (H0 : new_null (mkSL global_map ∅ 1 MAX_GLOBAL_SCHEMES) = Done (tt, null_list)).
    { unfold new_null. erewrite bind_Done by reflexivity. cbn [map_ names next_ns next_id]. apply insert_globals_run.
      - cbn. by eexists.
      - apply (bool_decide_unpack _). by vm_compute.
      - intros n _. unfold names_at. cbn. done. }
    rewrite (bind_Done _ _ _ _ _ H0). unfold new_root. rewrite (bind_Done _ _ _ _ _ Hr). fold root_names. rewrite insert_globals_run; [done| |apply root_names_nodup|].
    + apply (wf_spaces _ _ W1). rewrite Hnn. lia.
    + intros n (e & -> & He)%list_elem_of_fmap. rewrite ns_added_at, decide_True by done. apply root_names_global in He as (_ & _ & Hb).
      rewrite built_in_none in Hb. by apply built_in_none.
  - apply wf_with_names; [done|rewrite Hnn; lia|]. apply Forall_forall. unfold global_ids. intros e (g & -> & Hg)%list_elem_of_fmap. cbn [fst snd].
    apply root_names_global in Hg as (Hg & Hne & _). split; [|done]. rewrite Hm1.
    pose proof (wf_globals _ _ null_list_wf _ Hg). rewrite lookup_insert_ne by congruence. by eexists.
Qed.

(** C26: Every list of schemes the kernel reaches is well formed.  Starting from
    [SchemeList::new], after any sequence of reservations, completions, removals of
    user schemes and new namespaces: every name of every namespace stands for a
    scheme, or for one whose registration is in progress; the kernel's own schemes
    are still at their fixed ids; every namespace but the null namespace has a root
    scheme, and every root scheme belongs to an existing namespace. *)
Theorem schemes_invariant (s : SchemeList) (R : gset Z) : sl_reachable (s, R) -> sl_wf R s.
Proof.
  enough (H : forall x, sl_reachable x -> sl_wf x.2 x.1) by apply (H (s, R)).
  induction 1 as [s0 Hnew|x y _ W Hst].
  - destruct sl_new_run as (s1 & Hs & W). rewrite Hs in Hnew. by injection Hnew as <-.
  - destruct Hst as [s0 R0 rid ns n id s' Hsm Hroot Hres|s0 R0 rid ns n e s' Hsm Hroot Hres|s0 R0 id p r s' Hid Hc|s0 R0 id p u s' Hu Hrm|s0 R0 from l r s' Hsm Hf Hmk]; cbn [fst snd] in *.
    + apply (reserve_wf _ _ _ _ _ _ _ W Hsm Hroot Hres).
    + apply (reserve_wf _ _ _ _ _ _ _ W Hsm Hroot Hres).
    + unfold complete_registration in Hc. apply bind_Done_inv in Hc as ([] & s1 & Hm & [= <- <-]).
      destruct (map_ s0 !! id) eqn:E.
      * unfold map_insert_new, bind, get_state, set_map, modify, assert_ in Hm. by rewrite bool_decide_eq_false_2 in Hm by congruence.
      * rewrite (map_insert_new_run _ _ _ E) in Hm. injection Hm as <-. by apply wf_map_insert.
    + rewrite sl_remove_run in Hrm by (by eexists). injection Hrm as <- <-. by eapply wf_remove.
    + by eapply make_ns_wf.
Qed.
End invariant.

Module SchemeWitnesses.
#[local] Instance desktop : BuildConfig := {| cfg_acpi := true; cfg_dtb := false |}.

Definition first_list : SchemeList := match sl_new with Done s => s | Panic => mkSL ∅ ∅ 0 0 end.
Lemma first_list_new : sl_new = Done first_list.
Proof. vm_compute. reflexivity. Qed.
Lemma first_list_wf : sl_wf ∅ first_list.
Proof. destruct sl_new_run as (s & Hs & W). rewrite first_list_new in Hs. by injection Hs as <-. Qed.
Lemma first_list_small : small first_list.
Proof. split; by vm_compute. Qed.

(** A scheme is registered in the root namespace and found there. *)
Lemma scheme_register_roundtrip_witness : exists id s1 s2 s3,
    reserve_scheme 1 "disk" first_list = Done (Ok id, s1) /\ sl_get first_list id = None /\
    reserve_scheme 1 "disk" s1 = Done (Err EEXIST, s1) /\ (forall ns' n', get_name s1 ns' n' = get_name first_list ns' n') /\
    complete_registration id (KUser 77) s1 = Done (Ok tt, s2) /\
    (forall ns' n', get_name s2 ns' n' = if decide (ns' = 1 /\ n' = "disk"%string) then Some (id, KUser 77) else get_name first_list ns' n') /\
    sl_remove id s2 = Done (tt, s3) /\ (forall ns' n', get_name s3 ns' n' = get_name first_list ns' n').
Proof.
  apply (scheme_register_roundtrip first_list 1 "disk" 77 first_list_wf first_list_small); [by eexists|by vm_compute].
Defined.

(** A namespace with [debug:] and the common schemes only. *)
Lemma make_ns_confined_witness : exists rid r s', make_ns 1 ["debug"%string] first_list = Done (r, s') /\ sl_get first_list rid = None /\
    (forall ns n, ns <> next_ns first_list -> get_name s' ns n = get_name first_list ns n) /\
    match r with
    | Ok to => to = next_ns first_list /\ NoDup ["debug"%string] /\ (forall n, n ∈ ["debug"%string] -> is_Some (get_name first_list 1 n) /\ n ∉ ""%string :: common_names.*1) /\
        (forall n, get_name s' to n =
           if decide (n ∈ ["debug"%string]) then get_name first_list 1 n
           else if decide (n = ""%string) then Some (rid, KRoot to rid)
           else (fun g => (global_scheme_id g, KGlobal g)) <$> (list_to_map common_names : gmap string GlobalSchemes) !! n)
    | Err e => (e = ENODEV /\ exists n, n ∈ ["debug"%string] /\ get_name first_list 1 n = None) \/
               (e = EEXIST /\ ~ (NoDup ["debug"%string] /\ forall n, n ∈ ["debug"%string] -> n ∉ ""%string :: common_names.*1))
    end.
Proof. apply (make_ns_confined first_list 1 ["debug"%string] first_list_wf first_list_small). by eexists. Defined.
Example make_ns_runs : match make_ns 1 ["debug"%string] first_list with
  | Done (Ok 2, s) => get_name s 2 "debug" = Some (1, KGlobal GDebug) /\ get_name s 2 "irq" = None
  | _ => False
  end.
Proof. by vm_compute. Qed.

Definition reserved_list : SchemeList := match reserve_scheme 1 "disk" first_list with Done (_, s) => s | Panic => first_list end.
Lemma schemes_invariant_witness : sl_wf {[17]} reserved_list.
Proof.
  apply (schemes_invariant reserved_list {[17]}). replace ({[17]} : gset Z) with ({[17]} ∪ ∅ : gset Z) by set_solver.
  apply (reach_step (first_list, ∅)).
  - apply reach_new. exact first_list_new.
  - apply (step_reserve first_list ∅ 16 1 "disk"); [exact first_list_small|by vm_compute|by vm_compute].
Defined.
End SchemeWitnesses.
