(* ===== verification/Files.v ===== *)
(** * File descriptions (src/context/file.rs)

    A file description is shared by the descriptors that refer to it: an [Arc] is
    an address in a heap of descriptions with their strong counts.  Dropping the
    last [Arc] frees the description without telling anyone; only [close] and
    [try_close] tell the scheme.  The flag bits are constants of the syscall
    crate. *)

From S2P Require Import Prelude PageInfo FrameAllocator Rmm OrdMap Grants CpuSet UserCopy Sync FdTbl Event.

(** Running an operation of a component inside a larger state. *)
Definition zoom {S A X} (get : S -> A) (put : A -> S -> S) (m : M A X) : M S X :=
  fun s => match m (get s) with Done (x, a) => Done (x, put a s) | Panic => Panic end.

Class FileFlags := {
  O_CLOEXEC : Z; O_NONBLOCK : Z; O_APPEND : Z; O_ACCMODE : Z; O_CREAT : Z; O_FSYNC : Z; O_EXLOCK : Z;
  (** [NewFdFlags::from_bits(fl)?.iter()], for each flag whether it is [POSITIONED] *)
  newfd_flags : Z -> option (list bool);
}.

(** [InternalFlags::POSITIONED] *)
Definition POSITIONED : Z := 1.

Record FileDescription := mkFD {
  offset : Z;
  fd_scheme : Z;
  number : Z;
  flags : Z;
  internal_flags : Z;
}.
#[export] Instance FileDescription_eq_dec : EqDecision FileDescription.
Proof. solve_decision. Defined.

Definition positioned (d : FileDescription) : bool := Z.land (internal_flags d) POSITIONED =? POSITIONED.

Section flags.
Context {FF : FileFlags}.

(** [FileDescription::rw_flags]; [rw] says whether [APPEND] and [NONBLOCK] are set. *)
Definition rw_flags (d : FileDescription) (append nonblock : bool) : Z :=
  let ret := Z.land (flags d) (Z.lxor (Z.lor O_NONBLOCK O_APPEND mod 2 ^ 32) (2 ^ 32 - 1)) in
  let ret := if append then Z.lor ret (O_APPEND mod 2 ^ 32) else ret in
  if nonblock then Z.lor ret (O_NONBLOCK mod 2 ^ 32) else ret.

(** [InternalFlags::from_extra0] *)
Definition from_extra0 (fl : Z) : option Z :=
  foldl (fun acc b => Z.lor acc (if b : bool then POSITIONED else 0)) 0 <$> newfd_flags fl.
End flags.

(** ** Shared descriptions *)

Record Heap := mkHeap { descs : gmap Z (FileDescription * Z); next_arc : Z }.

(** [Arc::new(RwLock::new(d))] *)
Definition arc_new (d : FileDescription) : M Heap Z :=
  fun h => Done (next_arc h, mkHeap (<[next_arc h := (d, 1)]> (descs h)) (next_arc h + 1)).
Definition arc_get (a : Z) : M Heap FileDescription :=
  fun h => match descs h !! a with Some (d, _) => Done (d, h) | None => Panic end.
(** [arc.write()] *)
Definition arc_write (a : Z) (f : FileDescription -> FileDescription) : M Heap unit :=
  fun h => match descs h !! a with Some (d, n) => Done (tt, mkHeap (<[a := (f d, n)]> (descs h)) (next_arc h)) | None => Panic end.
Definition strong_count (a : Z) : M Heap Z :=
  fun h => match descs h !! a with Some (_, n) => Done (n, h) | None => Panic end.
Definition arc_clone (a : Z) : M Heap Z :=
  fun h => match descs h !! a with Some (d, n) => Done (a, mkHeap (<[a := (d, n + 1)]> (descs h)) (next_arc h)) | None => Panic end.
(** [drop(arc)] *)
Definition arc_drop (a : Z) : M Heap unit :=
  fun h => match descs h !! a with
           | Some (d, n) => Done (tt, mkHeap (if n =? 1 then delete a (descs h) else <[a := (d, n - 1)]> (descs h)) (next_arc h))
           | None => Panic
           end.
(** [Arc::try_unwrap(arc).ok()] *)
Definition try_unwrap (a : Z) : M Heap (option FileDescription) :=
  fun h => match descs h !! a with
           | Some (d, n) => Done (if n =? 1 then Some d else None,
                                  mkHeap (if n =? 1 then delete a (descs h) else <[a := (d, n - 1)]> (descs h)) (next_arc h))
           | None => Panic
           end.

(** A file descriptor: the description it refers to and its close-on-exec flag. *)
Record FileDescriptor := mkDesc { description : Z; cloexec : bool }.
#[export] Instance FileDescriptor_eq_dec : EqDecision FileDescriptor.
Proof. solve_decision. Defined.

(** ** Closing *)

(** What closing a file needs of the rest of the kernel: the event registry, and
    the [close] operation of the scheme with an id ([None] if there is no such
    scheme). *)
Class CloseApi (W : Type) := {
  w_heap : W -> Heap;
  w_set_heap : Heap -> W -> W;
  w_events : W -> EventState;
  w_set_events : EventState -> W -> W;
  w_scheme_close : Z -> Z -> W -> option (outcome (result Error unit * W));
}.

Section close.
Context {W : Type} {CA : CloseApi W}.
Definition in_heap {A} (m : M Heap A) : M W A := zoom w_heap w_set_heap m.

(** [FileDescription::try_close] *)
Definition try_close (d : FileDescription) : M W (result Error unit) :=
  zoom w_events w_set_events (unregister_file (fd_scheme d) (number d)) ;;;
  fun w => match w_scheme_close (fd_scheme d) (number d) w with
           | None => Done (Err EBADF, w)
           | Some r => r
           end.

(** [FileDescriptor::close] *)
Definition fd_close (fd : FileDescriptor) : M W (result Error unit) :=
  let! file := in_heap (try_unwrap (description fd)) in
  match file with
  | Some d => let? _ := try_close d in ok tt
  | None => ok tt
  end.
End close.
