(* ===== verification/UserScheme.v ===== *)
(** * User-space schemes (src/scheme/user.rs)

    The requests a user-space scheme answers: the slab of request states, the
    queue the scheme reads, and the calls that block until a response arrives.

    A call is split where it gives up the CPU: [call_begin] runs up to the first
    [context::switch], [call_resume] is one round of the loop after it.  The slab
    and the layouts and numbers of the syscall crate are parameters, as are the
    address spaces of the caller and of the scheme, of which only unmapping and
    translation are used here. *)

From S2P Require Import Prelude PageInfo FrameAllocator Rmm OrdMap Grants CpuSet UserCopy Sync FdTbl Scheduler Event Files.

Inductive Opcode :=
| OOpen | OOpenAt | OUnlinkAt | OFsize | OFchmod | OFchown | OFcntl | OFevent | OFlink | OFrename | OFsync
| OFtruncate | OClose | OCloseMsg | ODup | OFpath | ORead | OWrite | OFutimens | OGetdents | OFstat | OFstatvfs
| OMmapPrep | ORequestMmap | OMunmap | OCall | OSendfd | ORecvfd | OCancel.
#[export] Instance Opcode_eq_dec : EqDecision Opcode.
Proof. solve_decision. Defined.

(** [oneway] is whether [SqeFlags::ONEWAY] is set. *)
Record Sqe := mkSqe { sqe_opcode : Opcode; oneway : bool; sqe_tag : Z; sqe_caller : Z; sqe_args : list Z }.

Inductive Response :=
| Regular (code extra0 : Z)
| RFd (description : Z)
| MultipleFds (fds : option (list Z)).

Inductive State :=
| Waiting (context : Z) (fds : option (list Z)) (callee_responsible : PageSpan) (canceling : bool) (timeout_expiry : option Z)
| Responded (r : Response)
| Fmap (context : Z)
| Placeholder.

Record UserInner := mkUserInner {
  root_id : Z;
  handle_id : Z;
  ui_name : string;
  ui_scheme_id : Z;
  supports_on_close : bool;
  ui_context : Z;
  todo : @WaitQueue Sqe;
  states : gmap Z State;
  unmounting : bool;
}.

(** [UserInner::new] *)
Definition ui_new (root scheme : Z) (new_close : bool) (handle : Z) (name : string) (context : Z) : UserInner :=
  mkUserInner root handle name scheme new_close context wq_new ∅ false.

(** A completion entry, as the scheme writes it. *)
Record Cqe := mkCqe { cqe_flags : Z; cqe_extra0 : Z; cqe_extra : Z; cqe_tag : Z; cqe_result : Z }.
Inductive CqeOpcode := RespondRegular | RespondWithFd | RespondWithMultipleFds | SendFevent | ObtainFd.
Inductive SchemeSocketCall := SObtainFd | SMoveFd.

(** The slab, and the numbers and layouts of the syscall crate. *)
Class UserParams := {
  (** the key [Slab::insert] uses *)
  vacant : gmap Z State -> Z;
  (** [Error::mux(Err(e))] and [Error::demux] *)
  mux_err : Error -> Z;
  demux : Z -> result Error Z;
  SQE_SIZE : Z;
  sqe_to_bytes : Sqe -> list Z;
  CQE_SIZE : Z;
  cqe_of_bytes : list Z -> Cqe;
  cqe_opcode : Z -> option CqeOpcode;
  event_flags_from_bits : Z -> option Z;
  fobtainfd_from_bits : Z -> option Z;
  MANUAL_FD : Z;
  socket_call : Z -> option SchemeSocketCall;
  UPPER_FDTBL_TAG : Z;
}.
Class UserLaws {UP : UserParams} := {
  vacant_free : forall m, m !! vacant m = None;
}.

(** The address spaces: [AddrSpace::current()], for the context it is called in. *)
Class SpaceApi (Mem : Type) := {
  current_munmap : Z -> PageSpan -> M Mem (result Error unit);
  current_translate : Z -> Z -> Mem -> result Error (option Z);
}.

Inductive ParsedCqe :=
| TriggerFevent (number flags : Z)
| RegularResponse (tag code extra0 : Z)
| ResponseWithFd (tag fd : Z)
| ResponseWithMultipleFds (tag num_fds : Z)
| PObtainFd (tag flags dst_fd_or_ptr : Z)
| ProvideMmap (tag offset base_addr page_count : Z).

Section user.
Context {EP : EventParams} {UP : UserParams} {Mem : Type} {SA : SpaceApi Mem}.

(** The scheme object with what its operations reach: events and the scheduler,
    the address spaces, the file descriptions, the descriptor table of each
    context, the [close] calls made to other schemes, [fmap_ret] of contexts. *)
Record UserState := mkUS {
  u_inner : UserInner;
  u_es : EventState;
  u_mem : Mem;
  u_heap : Heap;
  u_tables : gmap Z (@FdTbl FileDescriptor);
  u_closed : list (Z * Z);
  u_fmap_ret : gmap Z Z;
}.

Definition set_inner (i : UserInner) (s : UserState) : UserState :=
  mkUS i (u_es s) (u_mem s) (u_heap s) (u_tables s) (u_closed s) (u_fmap_ret s).
Definition set_es (e : EventState) (s : UserState) : UserState :=
  mkUS (u_inner s) e (u_mem s) (u_heap s) (u_tables s) (u_closed s) (u_fmap_ret s).
Definition set_umem (m : Mem) (s : UserState) : UserState :=
  mkUS (u_inner s) (u_es s) m (u_heap s) (u_tables s) (u_closed s) (u_fmap_ret s).
Definition set_uheap (h : Heap) (s : UserState) : UserState :=
  mkUS (u_inner s) (u_es s) (u_mem s) h (u_tables s) (u_closed s) (u_fmap_ret s).
Definition set_tables (t : gmap Z (@FdTbl FileDescriptor)) (s : UserState) : UserState :=
  mkUS (u_inner s) (u_es s) (u_mem s) (u_heap s) t (u_closed s) (u_fmap_ret s).
Definition log_close (scheme number : Z) (s : UserState) : UserState :=
  mkUS (u_inner s) (u_es s) (u_mem s) (u_heap s) (u_tables s) (u_closed s ++ [(scheme, number)]) (u_fmap_ret s).

Definition u_sched (s : UserState) : Sched := e_sched (u_es s).
Definition set_usched (x : Sched) (s : UserState) : UserState :=
  set_es (mkES (registry (u_es s)) (queue_heap (u_es s)) (queue_list (u_es s)) (NEXT_QUEUE_ID (u_es s)) x) s.
Definition in_sched {A} (m : M Sched A) : M UserState A := zoom u_sched set_usched m.
Definition in_events {A} (m : M EventState A) : M UserState A := zoom u_es set_es m.
Definition in_space {A} (m : M Mem A) : M UserState A := zoom u_mem set_umem m.
Definition in_table {A} (cid : Z) (m : M (@FdTbl FileDescriptor) A) : M UserState A :=
  fun s => match u_tables s !! cid with
           | None => Panic
           | Some t => match m t with Done (a, t') => Done (a, set_tables (<[cid := t']> (u_tables s)) s) | Panic => Panic end
           end.
(** The schemes a description belongs to are told of a [close]; what they do is
    outside this component. *)
#[export] Instance user_close_api : CloseApi UserState := {|
  w_heap := u_heap; w_set_heap := set_uheap; w_events := u_es; w_set_events := set_es;
  w_scheme_close := fun scheme number s => Some (Done (Ok tt, log_close scheme number s));
|}.

(** ** The slab of states and the queue *)

Definition set_states (f : gmap Z State -> gmap Z State) : M UserState unit :=
  modify (fun s => let i := u_inner s in
    set_inner (mkUserInner (root_id i) (handle_id i) (ui_name i) (ui_scheme_id i) (supports_on_close i) (ui_context i) (todo i)
                 (f (states i)) (unmounting i)) s).
Definition set_todo (q : @WaitQueue Sqe) (s : UserState) : UserState :=
  let i := u_inner s in
  set_inner (mkUserInner (root_id i) (handle_id i) (ui_name i) (ui_scheme_id i) (supports_on_close i) (ui_context i) q
               (states i) (unmounting i)) s.

(** [states[tag] = st]: indexing a vacant slot of the slab panics. *)
Definition write_state (tag : Z) (st : State) : M UserState unit :=
  let! s := get_state in
  if bool_decide (is_Some (states (u_inner s) !! tag)) then set_states <[tag := st]> else panic.

Definition next_id : M UserState (result Error Z) :=
  let! s := get_state in
  let idx := vacant (states (u_inner s)) in
  set_states <[idx := Placeholder]> ;;;
  if idx <? 2 ^ 32 then ok idx else err EAGAIN.

(** [self.todo.send(sqe, token)] *)
Definition send_todo (sqe : Sqe) : M UserState unit :=
  fun s => match send sqe (todo (u_inner s)) (u_sched s) with
           | Done ((_, q), x) => Done (tt, set_todo q (set_usched x s))
           | Panic => Panic
           end.
(** [event::trigger(self.root_id, self.handle_id, EVENT_READ)] *)
Definition trigger_read : M UserState unit :=
  let! s := get_state in in_events (trigger (root_id (u_inner s)) (handle_id (u_inner s)) EV_READ).

(** A [PreemptGuard] held while [m] runs. *)
Definition with_preempt {A} (cid : Z) (m : M UserState A) : M UserState A :=
  in_sched (preempt_enter cid) ;;;
  let! x := m in
  in_sched (preempt_leave cid) ;;;
  ret x.

(** ** Calls *)

Definition uid_gid_hack_merge (uid gid : Z) : Z := Z.lor uid (Z.shiftl gid 32).

(** [Args::args]: padded with zeros to six words, and cut there. *)
Definition args6 (l : list Z) : list Z := take 6 (l ++ replicate 6 0).

Record CallerCtx := mkCaller { c_pid : Z; c_uid : Z; c_gid : Z }.

(** The request [call_extended] makes. *)
Definition mk_sqe (ctx : CallerCtx) (opcode : Opcode) (args : list Z) (tag : Z) : Sqe :=
  mkSqe opcode false tag (c_pid ctx) (<[5%nat := uid_gid_hack_merge (c_uid ctx) (c_gid ctx)]> (args6 args)).

Definition timeout_expiry_of (timeout_ns : option Z) (now : Z) : option Z := (fun ns => now + ns) <$> timeout_ns.

(** What [call_extended_inner] does before the first switch, one atomic step after
    the other: the guard keeps the caller on its CPU, but not the other CPUs from
    seeing the state between two steps.  The deadline and the status are written
    under one lock. *)
Definition call_steps (cid : Z) (fds : option (list Z)) (sqe : Sqe) (timeout_expiry : option Z) : list (M UserState unit) :=
  [ in_sched (preempt_enter cid);
    (in_sched (update_ctx cid (set_wake timeout_expiry)) ;;; in_sched (block cid "UserInner::call") ;;; ret tt);
    write_state (sqe_tag sqe) (Waiting cid fds PageSpan_empty false timeout_expiry);
    send_todo sqe;
    trigger_read;
    in_sched (preempt_leave cid) ].

(** [call_extended_inner] up to the first switch. *)
Definition call_begin (cid : Z) (fds : option (list Z)) (sqe : Sqe) (timeout_ns : option Z) (now : Z) : M UserState (result Error unit) :=
  let! s := get_state in
  if unmounting (u_inner s) then err ENODEV
  else forM (call_steps cid fds sqe (timeout_expiry_of timeout_ns now)) (fun step => step) ;;; ok tt.

(** Dropping a response drops the descriptions it holds. *)
Definition drop_response (r : Response) : M UserState unit :=
  match r with
  | Regular _ _ => ret tt
  | RFd d => in_heap (arc_drop d)
  | MultipleFds fds => forM (default [] fds) (fun d => in_heap (arc_drop d))
  end.

(** A request that is refused drops the descriptions it was given. *)
Definition or_drop_fds {A} (fds : option (list Z)) (m : M UserState (result Error A)) : M UserState (result Error A) :=
  let! r := m in
  match r with
  | Err e => drop_response (MultipleFds fds) ;;; err e
  | Ok _ => ret r
  end.

Definition call_extended (cid : Z) (ctx : CallerCtx) (fds : option (list Z)) (opcode : Opcode) (args : list Z) (timeout_ns : option Z) (now : Z)
  : M UserState (result Error Sqe) :=
  or_drop_fds fds
    (let? tag := next_id in
     let sqe := mk_sqe ctx opcode args tag in
     let? _ := call_begin cid fds sqe timeout_ns now in
     ok sqe).

Inductive Resume :=
| RDone (r : result Error Response)
| RAgain.

Definition cancel_sqe (tag : Z) : Sqe := mkSqe OCancel true tag 0 [0; 0; 0; 0; 0; 0].

(** One round of the loop, when the caller runs again: the outcome and what is
    left of the span the caller is to unmap. *)
Definition call_resume (cid tag : Z) (timeout_expiry : option Z) (now : Z) (caller_responsible : PageSpan) : M UserState (Resume * PageSpan) :=
  let! s := get_state in
  let! c := in_sched (the_ctx cid) in
  match states (u_inner s) !! tag with
  | None => ret (RDone (Err EBADFD), caller_responsible)
  | Some (Waiting context fds callee_responsible true expiry) =>
      if being_sigkilled c then
        write_state tag (Waiting context fds caller_responsible true expiry) ;;;
        ret (RDone (Err EINTR), PageSpan_empty)
      else
        in_sched (block cid "UserInner::call (woken up after cancelation request)") ;;;
        ret (RAgain, caller_responsible)
  | Some (Waiting context fds callee_responsible false expiry) =>
      let '(callee, caller) := if being_sigkilled c then (caller_responsible, PageSpan_empty) else (callee_responsible, caller_responsible) in
      let timed_out := match expiry with Some e => e <=? now | None => false end in
      write_state tag (Waiting context fds callee true expiry) ;;;
      if negb timed_out && being_sigkilled c then ret (RDone (Err EINTR), caller)
      else
        with_preempt cid
          (send_todo (cancel_sqe tag) ;;;
           trigger_read ;;;
           in_sched (block cid "UserInner::call (spurious wakeup)")) ;;;
        ret (RAgain, caller)
  | Some Placeholder | Some (Fmap _) => ret (RDone (Err EBADFD), caller_responsible)
  | Some (Responded response) =>
      set_states (delete tag) ;;;
      match response with
      | Regular code _ =>
          let is_canceled := (code =? mux_err ECANCELED) || (code =? mux_err EINTR) in
          if is_canceled && bool_decide (is_Some timeout_expiry) && bool_decide (wake c = None)
          then ret (RDone (Err ETIMEDOUT), caller_responsible)
          else ret (RDone (Ok response), caller_responsible)
      | _ => ret (RDone (Ok response), caller_responsible)
      end
  end.

(** What [call] and [call_timeout] make of the response. *)
Definition call_response (r : Response) : result Error Z :=
  match r with Regular code _ => demux code | _ => Err EIO end.

(** ** Responses *)

Fixpoint unwrap_all (l : list Z) : M UserState (list FileDescription) :=
  match l with
  | [] => ret []
  | a :: l' =>
      let! d := in_heap (try_unwrap a) in
      let! ds := unwrap_all l' in
      ret (match d with Some d => d :: ds | None => ds end)
  end.

(** [ECANCELED] and [EINTR] of a request that is, or is not, being canceled. *)
Definition convert (canceling : bool) (r : Response) : Response :=
  match r with
  | Regular code extra0 =>
      let code := if canceling && (code =? mux_err ECANCELED) then mux_err EINTR else code in
      let code := if negb canceling && (code =? mux_err EINTR) then mux_err EIO else code in
      Regular code extra0
  | _ => r
  end.

(** [respond]; [cur] is the context of the scheme that writes the response. *)
Definition respond (cur tag : Z) (response : Response) : M UserState (result Error unit) :=
  let! s := get_state in
  match states (u_inner s) !! tag with
  | None | Some Placeholder => drop_response response ;;; err EBADFD
  | Some (Responded _) | Some (Fmap _) => drop_response response ;;; err EINVAL
  | Some (Waiting context fds callee_responsible canceling _) =>
      let response := convert canceling response in
      let '(response, fds) := match response with MultipleFds _ => (MultipleFds fds, None) | _ => (response, fds) end in
      let! to_close := unwrap_all (default [] fds) in
      (if bool_decide (is_Some (ctxs (u_sched s) !! context)) then
         set_states <[tag := Responded response]> ;;;
         in_sched (unblock context) ;;; ret tt
       else
         set_states (delete tag) ;;; drop_response response) ;;;
      let? _ := in_space (current_munmap cur callee_responsible) in
      forM to_close (fun d => try_close d ;;; ret tt) ;;;
      ok tt
  end.

(** ** The scheme's side of the socket *)

(** With the memory of the context that runs. *)
Definition in_user {A} (m : M UserState A) : M (UserState * UserMem) A := zoom fst (fun a p => (a, snd p)) m.
Definition in_umem {A} (m : M UserMem A) : M (UserState * UserMem) A := zoom snd (fun a p => (fst p, a)) m.

Definition parse_cqe (cqe : Cqe) : result Error ParsedCqe :=
  match cqe_opcode (Z.land (cqe_flags cqe) 7) with
  | None => Err EINVAL
  | Some RespondRegular => Ok (RegularResponse (cqe_tag cqe) (cqe_result cqe) (cqe_extra0 cqe))
  | Some RespondWithFd => Ok (ResponseWithFd (cqe_tag cqe) (cqe_result cqe))
  | Some RespondWithMultipleFds => Ok (ResponseWithMultipleFds (cqe_tag cqe) (cqe_result cqe))
  | Some SendFevent =>
      match event_flags_from_bits (cqe_tag cqe) with
      | Some flags => Ok (TriggerFevent (cqe_result cqe) flags)
      | None => Err EINVAL
      end
  | Some ObtainFd =>
      match fobtainfd_from_bits (cqe_extra cqe) with
      | Some flags => Ok (PObtainFd (cqe_tag cqe) flags (cqe_result cqe))
      | None => Err EINVAL
      end
  end.

(** [fds.take().ok_or(ENOENT)?] of the request with a tag. *)
Definition take_fds (tag : Z) : M UserState (result Error (list Z)) :=
  let! s := get_state in
  match states (u_inner s) !! tag with
  | None => err EINVAL
  | Some (Waiting context fds callee canceling expiry) =>
      set_states <[tag := Waiting context None callee canceling expiry]> ;;;
      ret (match fds with Some l => Ok l | None => Err ENOENT end)
  | Some _ => err ENOENT
  end.

(** The [ObtainFd] completion: [Vec::remove(0)] panics on an empty vector, and
    the other descriptions are dropped with it. *)
Definition handle_obtain (cur tag flags dst_fd_or_ptr : Z) : M (UserState * UserMem) (result Error unit) :=
  let? fds := in_user (take_fds tag) in
  match fds with
  | [] => panic
  | description :: rest =>
      in_user (forM rest (fun d => in_heap (arc_drop d))) ;;;
      if Z.land flags MANUAL_FD =? MANUAL_FD then
        let! r := in_user (in_table cur (insert_file UPPER_FDTBL_TAG dst_fd_or_ptr (mkDesc description true))) in
        in_user (match r with Some _ => ret tt | None => in_heap (arc_drop description) end) ;;;
        ok tt
      else
        let! r := in_user (in_table cur (add_file UPPER_FDTBL_TAG (mkDesc description true))) in
        match r with
        | None => in_user (in_heap (arc_drop description)) ;;; err EMFILE
        | Some fd =>
            match us_new dst_fd_or_ptr 8 with
            | Err e => err e
            | Ok buf => in_umem (write_usize buf fd)
            end
        end
  end.

(** The [ProvideMmap] completion. *)
Definition provide_mmap (cur tag offset base_addr page_count : Z) : M UserState (result Error unit) :=
  if negb (offset mod PAGE_SIZE =? 0) then err EINVAL
  else if negb (base_addr mod PAGE_SIZE =? 0) then err EINVAL
  else if negb (page_count =? 1) then err EINVAL
  else
    let! s := get_state in
    match states (u_inner s) !! tag with
    | None => err EINVAL
    | Some Placeholder => err EBADFD
    | Some (Waiting _ _ _ _ _) | Some (Responded _) => err EINVAL
    | Some (Fmap context) =>
        set_states (delete tag) ;;;
        if bool_decide (is_Some (ctxs (u_sched s) !! context)) then
          match current_translate cur base_addr (u_mem s) with
          | Err e => err e
          | Ok None => err EFAULT
          | Ok (Some frame) =>
              in_sched (update_ctx context (fun c => match status c with
                                                     | HardBlocked (AwaitingMmap _) => set_status Runnable (status_reason c) c
                                                     | _ => c
                                                     end)) ;;;
              modify (fun s => mkUS (u_inner s) (u_es s) (u_mem s) (u_heap s) (u_tables s) (u_closed s)
                                 (<[context := frame - frame mod PAGE_SIZE]> (u_fmap_ret s))) ;;;
              ok tt
          end
        else err ESRCH
    end.

Definition handle_parsed (cur : Z) (cqe : ParsedCqe) : M (UserState * UserMem) (result Error unit) :=
  match cqe with
  | RegularResponse tag code extra0 => in_user (respond cur tag (Regular code extra0))
  | ResponseWithFd tag fd =>
      let! file := in_user (in_table cur (remove_file UPPER_FDTBL_TAG fd)) in
      match file with
      | None => err EINVAL
      | Some file => in_user (respond cur tag (RFd (description file)))
      end
  | ResponseWithMultipleFds tag _ => in_user (respond cur tag (MultipleFds None))
  | PObtainFd tag flags dst => handle_obtain cur tag flags dst
  | ProvideMmap tag offset base_addr page_count => in_user (provide_mmap cur tag offset base_addr page_count)
  | TriggerFevent number flags =>
      let! s := get_state in
      in_user (in_events (trigger (ui_scheme_id (u_inner (fst s))) number flags)) ;;; ok tt
  end.

(** [UserInner::write] over the chunks of the buffer. *)
Fixpoint write_chunks (cur : Z) (chunks : list UserSlice) (bytes_read : Z) : M (UserState * UserMem) (result Error Z) :=
  match chunks with
  | [] => ok bytes_read
  | chunk :: chunks' =>
      let? bytes := in_umem (limited chunk CQE_SIZE (fun b => copy_to_slice b CQE_SIZE)) in
      let! r := match parse_cqe (cqe_of_bytes bytes) with
                | Ok p => handle_parsed cur p
                | Err e => err e
                end in
      match r with
      | Ok _ => write_chunks cur chunks' (bytes_read + CQE_SIZE)
      | Err e => if 0 <? bytes_read then ok bytes_read else err e
      end
  end.
Definition ui_write (cur : Z) (buf : UserSlice) : M (UserState * UserMem) (result Error Z) :=
  let! chunks := in_exact_chunks buf CQE_SIZE in
  write_chunks cur chunks 0.

(** One round of [UserInner::read]; [block_] was computed before the first. *)
Definition ui_read_blocks (nonblock : bool) (i : UserInner) : bool := negb (nonblock || unmounting i).
Definition ui_read (pivot : nat) (buf : UserSlice) (block_ : bool) : M (UserState * UserMem) (attempt Z) :=
  fun '(s, m) =>
    match receive_into_user sqe_to_bytes SQE_SIZE pivot buf block_ (todo (u_inner s)) m with
    | Panic => Panic
    | Done ((a, q), m') =>
        let a := match a with
                 | Finished (Err EAGAIN) => if unmounting (u_inner s) then Finished (Ok 0) else a
                 | _ => a
                 end in
        Done (a, (set_todo q s, m'))
    end.

Definition unmount : M UserState (result Error unit) :=
  modify (fun s => let i := u_inner s in
    set_inner (mkUserInner (root_id i) (handle_id i) (ui_name i) (ui_scheme_id i) (supports_on_close i) (ui_context i) (todo i)
                 (states i) true) s) ;;;
  let! s := get_state in
  in_sched (notify_signal (condition (todo (u_inner s)))) ;;;
  trigger_read ;;;
  ok tt.

Definition ui_fevent (i : UserInner) (flags : Z) : result Error Z :=
  Ok (if is_currently_empty (todo i) then 0 else Z.land EV_READ flags).

(** [request_fmap], for the context [cid] with its process and ids. *)
Definition request_fmap (cid : Z) (ctx : CallerCtx) (id required_page_count flags : Z) : M UserState (result Error unit) :=
  let? tag := next_id in
  write_state tag (Fmap cid) ;;;
  send_todo (mkSqe ORequestMmap false tag (c_pid ctx) [id; flags; required_page_count; 0; 0; uid_gid_hack_merge (c_uid ctx) (c_gid ctx)]) ;;;
  trigger_read ;;;
  ok tt.

(** ** Passing descriptors *)

Definition handle_movefd (descs_ : list Z) (request_id : Z) : M UserState (result Error Z) :=
  let! s := get_state in
  let drop_all := forM descs_ (fun d => in_heap (arc_drop d)) in
  match states (u_inner s) !! request_id with
  | None => drop_all ;;; err EINVAL
  | Some (Waiting context fds callee canceling expiry) =>
      set_states <[request_id := Waiting context (Some descs_) callee canceling expiry]> ;;;
      forM (default [] fds) (fun d => in_heap (arc_drop d)) ;;;
      ok (Z.of_nat (length descs_))
  | Some _ => drop_all ;;; err ENOENT
  end.

Definition call_fdwrite (descs_ : list Z) (metadata : list Z) : M UserState (result Error Z) :=
  let drop_all := forM descs_ (fun d => in_heap (arc_drop d)) in
  match metadata with
  | [] => drop_all ;;; err EINVAL
  | verb :: _ =>
      match socket_call verb with
      | Some SMoveFd =>
          match metadata with
          | [_; request_id] => handle_movefd descs_ request_id
          | _ => drop_all ;;; err EINVAL
          end
      | _ => drop_all ;;; err EINVAL
      end
  end.

(** Writing the new handles to the payload, chunk by chunk. *)
Fixpoint write_handles (l : list (Z * UserSlice)) : M UserMem (result Error unit) :=
  match l with
  | [] => ok tt
  | (h, chunk) :: l' => let? _ := copy_from_slice chunk (to_ne_bytes 8 h) in write_handles l'
  end.

Definition drop_arcs (l : list Z) : M (UserState * UserMem) unit := in_user (forM l (fun d => in_heap (arc_drop d))).

Definition bulk_add_fds (cur : Z) (descriptions : list Z) (payload : UserSlice) : M (UserState * UserMem) (result Error Z) :=
  let cnt := Z.of_nat (length descriptions) in
  if negb (us_len payload =? usize_mul cnt 8) then drop_arcs descriptions ;;; err EINVAL
  else if cnt =? 0 then ok 0
  else
    let files := map (fun d => mkDesc d true) descriptions in
    let! handles := in_user (in_table cur (bulk_add_files_posix files)) in
    match handles with
    | None => drop_arcs descriptions ;;; err EMFILE
    | Some handles =>
        let! chunks := in_exact_chunks payload 8 in
        let? _ := in_umem (write_handles (zip handles chunks)) in
        ok (Z.of_nat (length handles))
    end.

Definition bulk_insert_fds (cur : Z) (descriptions : list Z) (payload : UserSlice) : M (UserState * UserMem) (result Error Z) :=
  let cnt := Z.of_nat (length descriptions) in
  if negb (us_len payload =? usize_mul cnt 8) then drop_arcs descriptions ;;; err EINVAL
  else if cnt =? 0 then ok 0
  else
    let files := map (fun d => mkDesc d true) descriptions in
    let! chunks := in_exact_chunks payload 8 in
    let! first_fd := match chunks with [] => err EINVAL | c :: _ => in_umem (read_usize c) end in
    match first_fd with
    | Err e => drop_arcs descriptions ;;; err e
    | Ok first_fd =>
        if first_fd =? usize_max then
          let! handles := in_user (in_table cur (bulk_insert_files_upper UPPER_FDTBL_TAG files)) in
          match handles with
          | None => drop_arcs descriptions ;;; err EMFILE
          | Some handles =>
              let? _ := in_umem (write_handles (zip handles chunks)) in
              ok (Z.of_nat (length handles))
          end
        else
          let! handles := in_umem (usizes payload) in
          match handles with
          | Err e => drop_arcs descriptions ;;; err e
          | Ok handles =>
              let handles := map (fun i => Z.lor i UPPER_FDTBL_TAG) handles in
              let! r := in_user (in_table cur (bulk_insert_files_upper_manual UPPER_FDTBL_TAG files handles)) in
              match r with
              | Err e => drop_arcs descriptions ;;; err e
              | Ok _ => ok (Z.of_nat (length handles))
              end
          end
    end.

Definition handle_obtainfd (cur : Z) (payload : UserSlice) (request_id : Z) (upper : bool) : M (UserState * UserMem) (result Error Z) :=
  let? descriptions := in_user (take_fds request_id) in
  if upper then bulk_insert_fds cur descriptions payload else bulk_add_fds cur descriptions payload.

(** [call_fdread]; [upper] is whether [CallFlags::FD_UPPER] is set. *)
Definition call_fdread (cur : Z) (payload : UserSlice) (upper : bool) (metadata : list Z) : M (UserState * UserMem) (result Error Z) :=
  match metadata with
  | [] => err EINVAL
  | verb :: _ =>
      match socket_call verb with
      | Some SObtainFd =>
          match metadata with
          | [_; request_id] => handle_obtainfd cur payload request_id upper
          | _ => err EINVAL
          end
      | _ => err EINVAL
      end
  end.
End user.
