(* ===== verification/UserCalls.v ===== *)
(** * The operations of a user-space scheme (src/scheme/user.rs, [impl KernelScheme for UserScheme])

    The requests and the responses of the operations; the operations themselves,
    which also pass buffers, are in UserMethods. *)

From S2P Require Import Prelude PageInfo FrameAllocator Rmm OrdMap Grants CpuSet UserCopy Sync FdTbl Scheduler Event Files UserScheme.

Record Request := mkReq { rq_opcode : Opcode; rq_args : list Z; rq_fds : option (list Z); rq_timeout : option Z }.

Definition USER_SCHEME_TIMEOUT_NS : Z := 5000000000.

Inductive OpenResult :=
| SchemeLocal (number internal_flags : Z)
| External (description : Z).

Section calls.
Context {EP : EventParams} {UP : UserParams} {FF : FileFlags} {Mem : Type} {SA : SpaceApi Mem}.

Definition user_begin (cid : Z) (ctx : CallerCtx) (rq : Request) (now : Z) : M (@UserState Mem) (result Error Sqe) :=
  call_extended cid ctx (rq_fds rq) (rq_opcode rq) (rq_args rq) (rq_timeout rq) now.

(** A tag, then the request made with it: [call_extended] and [kcall]. *)
Definition begin_with (cid : Z) (fds : option (list Z)) (mk : Z -> Sqe) (timeout : option Z) (now : Z) : M (@UserState Mem) (result Error Sqe) :=
  or_drop_fds fds
    (let? tag := next_id in
     let? _ := call_begin cid fds (mk tag) timeout now in
     ok (mk tag)).

(** [kcall] builds its request itself: the words after the buffer are the
    metadata, and the caller's ids are not passed. *)
Definition kcall_sqe (pid id base len : Z) (metadata : list Z) (tag : Z) : Sqe :=
  mkSqe OCall false tag pid ([id; base; len] ++ take 3 (take 3 metadata ++ replicate 3 0)).

(** [close]: a message that is not answered, if the scheme asked for that. *)
Definition close_msg (id : Z) : Sqe := mkSqe OCloseMsg false 0 0 [id; 0; 0; 0; 0; 0].

(** ** Responses *)

(** [kopen] and, with the number [demux] gives, [kopenat] and [kdup]. *)
Definition kopen_response (r : Response) : result Error OpenResult :=
  match r with
  | Regular code fl =>
      match demux code with
      | Err e => Err e
      | Ok _ => match from_extra0 fl with Some f => Ok (SchemeLocal code f) | None => Err EINVAL end
      end
  | RFd desc => Ok (External desc)
  | MultipleFds _ => Err EIO
  end.
Definition open_response (r : Response) : result Error OpenResult :=
  match r with
  | Regular code fl =>
      match demux code with
      | Err e => Err e
      | Ok fd => match from_extra0 fl with Some f => Ok (SchemeLocal fd f) | None => Err EINVAL end
      end
  | RFd desc => Ok (External desc)
  | MultipleFds _ => Err EIO
  end.
Definition kfunmap_response (r : Response) : result Error unit :=
  match r with Regular _ _ => Ok tt | _ => Err EIO end.

(** [kfdread] after the response: the descriptors go to the caller's table. *)
Definition kfdread_response (cur : Z) (upper : bool) (payload : UserSlice) (r : Response) : M (@UserState Mem * UserMem) (result Error Z) :=
  match r with
  | Regular res _ => match demux res with Ok _ => err EIO | Err e => err e end
  | RFd d => in_user (in_heap (arc_drop d)) ;;; err EIO
  | MultipleFds None => ok 0
  | MultipleFds (Some descriptions) =>
      if upper then bulk_insert_fds cur descriptions payload else bulk_add_fds cur descriptions payload
  end.
End calls.
