(* ===== verification/UserSchemeSpec.v ===== *)
(** * Theorems about calls to user-space schemes

    The operations of a scheme, composed in any order, keep the calls in
    progress intact: every one has its slot, and a caller that sleeps has not
    been answered. *)

From S2P Require Import Prelude PageInfo FrameAllocator Rmm OrdMap Grants CpuSet UserCopy Sync SyncSpec FdTbl Scheduler Event EventSpec Files UserScheme UserCalls.

Section spec.
Context {EP : EventParams} {EL : EventLaws} {UP : UserParams} {UL : UserLaws} {Mem : Type} {SA : SpaceApi Mem}.
Abbreviation St := (@UserState Mem).

Definition ctx_of (s : St) (cid : Z) : option Ctx := ctxs (u_sched s) !! cid.
Definition slot (s : St) (tag : Z) : option State := states (u_inner s) !! tag.
Definition sleeping (s : St) (cid : Z) : Prop := status <$> ctx_of s cid = Some Blocked.

(** ** Operations that leave calls in progress intact *)

(** No context disappears or falls asleep; a waiting slot keeps waiting for its
    caller or is answered with the caller awake; an answered slot stays answered and
    a reserved one reserved. *)
Record calm (s s' : St) : Prop := mkCalm {
  cm_queues : queues_ok (u_es s) -> queues_ok (u_es s');
  cm_alive : forall cid, is_Some (ctx_of s cid) -> is_Some (ctx_of s' cid);
  cm_asleep : forall cid, sleeping s' cid -> sleeping s cid;
  cm_waiting : forall tag cid fds callee can ex, slot s tag = Some (Waiting cid fds callee can ex) -> is_Some (ctx_of s cid) ->
    (exists fds callee can ex, slot s' tag = Some (Waiting cid fds callee can ex)) \/
    ((exists r, slot s' tag = Some (Responded r)) /\ ~ sleeping s' cid);
  cm_responded : forall tag r, slot s tag = Some (Responded r) -> slot s' tag = Some (Responded r);
  cm_placeholder : forall tag, slot s tag = Some Placeholder -> slot s' tag = Some Placeholder;
}.

Lemma calm_refl s : calm s s.
Proof. split; try done. intros. left. eauto. Qed.
Lemma calm_trans s1 s2 s3 : calm s1 s2 -> calm s2 s3 -> calm s1 s3.
Proof.
  intros [a1 b1 c1 d1 e1 f1] [a2 b2 c2 d2 e2 f2]. split; [tauto|eauto|eauto| |eauto|eauto].
  intros tag cid fds callee can ex Hs Hc. destruct (d1 _ _ _ _ _ _ Hs Hc) as [(?&?&?&?&H)|[[r H] Hn]].
  - by eapply d2; eauto.
  - right. split; [by eauto|]. intros ?. by apply Hn, c2.
Qed.

(** An operation that is calm from every state; the state may hold more than the
    scheme, which [f] projects out. *)
Definition keeps_at {S A} (f : S -> St) (m : M S A) : Prop :=
  forall s a s', queues_ok (u_es (f s)) -> m s = Done (a, s') -> calm (f s) (f s').
Abbreviation keeps := (keeps_at (fun s => s)).

Section combinators.
Context {S : Type} (f : S -> St).
Lemma keeps_ret {A} (a : A) : keeps_at f (ret a).
Proof. intros s b s' _ [= <- <-]. apply calm_refl. Qed.
Lemma keeps_panic {A} : keeps_at f (@panic S A).
Proof. intros s a s' _ [=]. Qed.
Lemma keeps_get : keeps_at f get_state.
Proof. intros s b s' _ [= <- <-]. apply calm_refl. Qed.
Lemma keeps_bind {A B} (m : M S A) (k : A -> M S B) : keeps_at f m -> (forall a, keeps_at f (k a)) -> keeps_at f (bind m k).
Proof.
  intros Hm Hk s b s' Hq (a & s1 & H1 & H2)%bind_Done_inv. pose proof (Hm _ _ _ Hq H1) as C1.
  eapply calm_trans; [exact C1|]. eapply Hk; [by apply C1|done].
Qed.
Lemma keeps_bind_result {E A B} (m : M S (result E A)) (k : A -> M S (result E B)) :
  keeps_at f m -> (forall a, keeps_at f (k a)) -> keeps_at f (bind_result m k).
Proof. intros Hm Hk. apply keeps_bind; [done|]. intros [a|e]; [apply Hk|apply keeps_ret]. Qed.
Lemma keeps_forM {A} (l : list A) (g : A -> M S unit) : (forall a, keeps_at f (g a)) -> keeps_at f (forM l g).
Proof. intros Hf. induction l as [|a l IH]; [apply keeps_ret|]. cbn [forM]. apply keeps_bind; [apply Hf|done]. Qed.
End combinators.

Lemma keeps_run {A} (m : M St A) s a s' : m s = Done (a, s') -> queues_ok (u_es s) -> keeps m -> calm s s'.
Proof. intros H Hq Hk. by eapply Hk. Qed.

(** Changes that no call can see. *)
Lemma calm_same s s' : u_es s' = u_es s -> states (u_inner s') = states (u_inner s) -> calm s s'.
Proof.
  intros He Hs. split; unfold ctx_of, sleeping, u_sched, slot; rewrite ?He, ?Hs; try done; unfold ctx_of, u_sched; rewrite ?He; try done.
  intros. left. eauto.
Qed.
Lemma keeps_heap {A} (m : M Heap A) : keeps (in_heap m).
Proof. intros s a s' _. unfold in_heap, zoom. destruct (m _) as [[x h]|]; [|done]. intros [= <- <-]. by apply calm_same. Qed.
Lemma keeps_space {A} (m : M Mem A) : keeps (in_space m).
Proof. intros s a s' _. unfold in_space, zoom. destruct (m _) as [[x h]|]; [|done]. intros [= <- <-]. by apply calm_same. Qed.
Lemma keeps_table {A} cid (m : M (@FdTbl FileDescriptor) A) : keeps (in_table cid m).
Proof.
  intros s a s' _. unfold in_table. destruct (u_tables s !! cid); [|done]. destruct (m _) as [[x h]|]; [|done]. intros [= <- <-].
  by apply calm_same.
Qed.

(** Changes to the events and contexts only. *)
Lemma calm_sched s s' : states (u_inner s') = states (u_inner s) -> (queues_ok (u_es s) -> queues_ok (u_es s')) ->
  (forall x, ctx_of s' x = ctx_of s x \/ ctx_of s' x = woken <$> ctx_of s x) -> calm s s'.
Proof.
  intros Hst Hq Hx. split; unfold slot; rewrite ?Hst; try done.
  - intros cid [c Hc]. destruct (Hx cid) as [-> | ->]; rewrite Hc; by eexists.
  - intros cid. unfold sleeping. destruct (Hx cid) as [-> | ->]; [done|]. destruct (ctx_of s cid) as [c|]; [|done]. cbn.
    intros [= Hw]. by destruct (woken_not_blocked c).
  - intros. left. eauto.
Qed.

Lemma trigger_calm scheme number flags s u e' : queues_ok (u_es s) ->
  trigger scheme number flags (u_es s) = Done (u, e') -> calm s (set_es e' s).
Proof.
  intros Hq Ht. destruct (trigger_run scheme number flags (u_es s) Hq) as (order & e & Ht' & _ & _ & D). rewrite Ht' in Ht. injection Ht as <- <-.
  apply calm_sched; [done|intros _; by eapply queues_ok_delivered|]. intros x. unfold ctx_of, u_sched. cbn [set_es u_es].
  rewrite (dl_ctxs _ _ _ D). case_decide; auto.
Qed.

Lemma send_todo_run sqe s : exists s', send_todo sqe s = Done (tt, s') /\ calm s s' /\ u_es s' = mkES (registry (u_es s)) (queue_heap (u_es s)) (queue_list (u_es s)) (NEXT_QUEUE_ID (u_es s)) (e_sched (u_es s')) /\
  s' = set_todo (mkWaitQueue (wq_inner (todo (u_inner s)) ++ [sqe]) []) (set_usched (e_sched (u_es s')) s).
Proof.
  unfold send_todo. destruct (send_run sqe (todo (u_inner s)) (u_sched s)) as (x' & n & -> & Hx). eexists. split; [reflexivity|]. split; [|done].
  apply calm_sched; [done|done|]. intros x. unfold ctx_of, u_sched. cbn. rewrite Hx. case_decide; auto.
Qed.

Lemma keeps_send_todo sqe : keeps (send_todo sqe).
Proof. intros s a s' _ H. destruct (send_todo_run sqe s) as (s1 & H1 & C & _). rewrite H1 in H. by injection H as <- <-. Qed.
Lemma keeps_trigger scheme number fl : keeps (in_events (trigger scheme number fl)).
Proof.
  intros s a s' Hq. unfold in_events, zoom. destruct (trigger _ _ _ _) as [[u e]|] eqn:Ht; [|done]. intros [= <- <-]. by eapply trigger_calm.
Qed.
Lemma keeps_trigger_read : keeps trigger_read.
Proof. apply keeps_bind; [apply keeps_get|]. intros s. apply keeps_trigger. Qed.

(** The scheduler operations that only wake. *)
Lemma keeps_sched {A} (m : M Sched A) :
  (forall x a x', m x = Done (a, x') -> forall y, ctxs x' !! y = ctxs x !! y \/ ctxs x' !! y = woken <$> ctxs x !! y) -> keeps (in_sched m).
Proof.
  intros Hm s a s' Hq. unfold in_sched, zoom. destruct (m (u_sched s)) as [[u x]|] eqn:E; [|done]. intros [= <- <-].
  apply calm_sched; [done|done|]. intros y. apply (Hm _ _ _ E).
Qed.
Lemma keeps_unblock cid : keeps (in_sched (unblock cid)).
Proof.
  apply keeps_sched. intros x a x' H y. destruct (ctxs x !! cid) as [c|] eqn:Hc.
  - destruct (unblock_run cid c x Hc) as (b & x1 & H1 & _ & Hx). rewrite H1 in H. injection H as <- <-. rewrite Hx.
    destruct (decide (y = cid)) as [->|]; [rewrite lookup_insert_eq, Hc; by right|rewrite lookup_insert_ne by done; by left].
  - unfold unblock, unblock_no_ipi, bind in H. by rewrite Hc in H.
Qed.
Lemma keeps_notify_signal l : keeps (in_sched (notify_signal l)).
Proof.
  apply keeps_sched. intros x a x' H y. unfold notify_signal in H. destruct (wake_all_run l x) as (x1 & H1 & Hx).
  rewrite (bind_Done _ _ _ _ _ H1) in H. injection H as <- <-. rewrite Hx. case_decide; auto.
Qed.
Lemma keeps_unregister scheme number : keeps (zoom w_events w_set_events (unregister_file scheme number)).
Proof.
  intros s a s' Hq. unfold zoom. cbn. intros [= <- <-]. apply calm_sched; [done|done|]. intros x. by left.
Qed.
Lemma keeps_try_close d : keeps (try_close d).
Proof.
  apply keeps_bind; [apply keeps_unregister|]. intros _ s a s' _. cbn. intros [= <- <-]. by apply calm_same.
Qed.
Lemma keeps_unwrap_all l : keeps (unwrap_all l).
Proof.
  induction l as [|a l IH]; [apply keeps_ret|]. cbn [unwrap_all]. apply keeps_bind; [apply keeps_heap|]. intros d.
  apply keeps_bind; [done|]. intros ds. apply keeps_ret.
Qed.
Lemma keeps_drop_response r : keeps (drop_response r).
Proof. destruct r; cbn [drop_response]; [apply keeps_ret|apply keeps_heap|apply keeps_forM; intros; apply keeps_heap]. Qed.

(** ** Changes of slots *)

(** A slot that no call in progress looks at, or a waiting slot that keeps waiting. *)
Lemma calm_slot tag st s : 
  match slot s tag with
  | Some (Waiting cid _ _ _ _) => exists fds callee can ex, st = Waiting cid fds callee can ex
  | Some (Responded r) => st = Responded r
  | Some Placeholder => st = Placeholder
  | _ => True
  end -> forall a s', set_states <[tag := st]> s = Done (a, s') -> calm s s'.
Proof.
  intros H a s' [= <- <-]. split; try done.
  - intros t cid fds callee can ex Hs _. unfold slot in *. cbn. destruct (decide (t = tag)) as [->|]; [|rewrite lookup_insert_ne by done; left; eauto].
    rewrite Hs in H. destruct H as (?&?&?&?&->). rewrite lookup_insert_eq. left. eauto.
  - intros t r Hs. unfold slot in *. cbn. destruct (decide (t = tag)) as [->|]; [|by rewrite lookup_insert_ne].
    rewrite Hs in H. subst. by rewrite lookup_insert_eq.
  - intros t Hs. unfold slot in *. cbn. destruct (decide (t = tag)) as [->|]; [|by rewrite lookup_insert_ne].
    rewrite Hs in H. subst. by rewrite lookup_insert_eq.
Qed.
(** Removing a slot whose context is gone, or that is of no call. *)
Lemma calm_delete tag s :
  match slot s tag with
  | Some (Waiting cid _ _ _ _) => ctx_of s cid = None
  | Some (Responded _) | Some Placeholder => False
  | _ => True
  end -> forall a s', set_states (delete tag) s = Done (a, s') -> calm s s'.
Proof.
  intros H a s' [= <- <-]. split; try done.
  - intros t cid fds callee can ex Hs [c Hc]. unfold slot in *. cbn. destruct (decide (t = tag)) as [->|]; [|rewrite lookup_delete_ne by done; left; eauto].
    rewrite Hs in H. congruence.
  - intros t r Hs. unfold slot in *. cbn. destruct (decide (t = tag)) as [->|]; [by rewrite Hs in H|by rewrite lookup_delete_ne].
  - intros t Hs. unfold slot in *. cbn. destruct (decide (t = tag)) as [->|]; [by rewrite Hs in H|by rewrite lookup_delete_ne].
Qed.
(** Answering a waiting slot and waking its caller. *)
Lemma calm_answer tag cid fds callee can ex r s a s' : slot s tag = Some (Waiting cid fds callee can ex) ->
  (set_states <[tag := Responded r]> ;;; in_sched (unblock cid) ;;; ret tt) s = Done (a, s') -> calm s s'.
Proof.
  intros Hs. unfold set_states. rewrite (bind_Done _ _ _ _ _ eq_refl). set (s1 := set_inner _ _).
  intros (b & s2 & H1 & [= <- <-])%bind_Done_inv. unfold in_sched, zoom in H1. unfold u_sched in H1. cbn [s1 set_inner u_es] in H1.
  fold (u_sched s) in H1. destruct (ctxs (u_sched s) !! cid) as [c|] eqn:Hc.
  2:{ unfold unblock, unblock_no_ipi, bind in H1. by rewrite Hc in H1. }
  destruct (unblock_run cid c (u_sched s) Hc) as (b' & x1 & Hu & _ & Hx). rewrite Hu in H1. injection H1 as <- <-.
  assert (Hctx : forall y, ctx_of (set_usched x1 s1) y = if decide (y = cid) then Some (woken c) else ctx_of s y).
  { intros y. unfold ctx_of, u_sched. cbn. rewrite Hx. destruct (decide (y = cid)) as [->|]; [by rewrite lookup_insert_eq|by rewrite lookup_insert_ne]. }
  split; try done.
  - intros y Hy. rewrite Hctx. case_decide; [by eexists|done].
  - intros y. unfold sleeping. rewrite Hctx. case_decide; [|done]. cbn. intros [= Hw]. by destruct (woken_not_blocked c).
  - intros t cid' fds' callee' can' ex' Ht _. unfold slot. cbn. destruct (decide (t = tag)) as [->|]; [|rewrite lookup_insert_ne by done; left; eauto].
    rewrite lookup_insert_eq. right. rewrite Hs in Ht. injection Ht as <- <- <- <- <-. split; [by eexists|].
    unfold sleeping. rewrite Hctx, decide_True by done. cbn. intros [= Hw]. by destruct (woken_not_blocked c).
  - intros t r' Ht. unfold slot. cbn. destruct (decide (t = tag)) as [->|]; [congruence|by rewrite lookup_insert_ne].
  - intros t Ht. unfold slot. cbn. destruct (decide (t = tag)) as [->|]; [congruence|by rewrite lookup_insert_ne].
Qed.

(** ** The operations of a scheme keep every call *)

Lemma unwrap_all_same l : forall (s : St) a s', unwrap_all l s = Done (a, s') -> u_es s' = u_es s /\ u_inner s' = u_inner s.
Proof.
  induction l as [|x l IH]; intros s a s'; [by intros [= <- <-]|]. cbn [unwrap_all].
  intros (d & s1 & H1 & H2)%bind_Done_inv. apply bind_Done_inv in H2 as (ds & s2 & H2 & [= <- <-]).
  apply IH in H2 as [-> ->]. unfold in_heap, zoom in H1. destruct (try_unwrap _ _) as [[? ?]|]; [|done]. by injection H1 as <- <-.
Qed.

(** A waiting slot is answered, or removed with its context gone. *)
Lemma calm_settle tag cid fds callee can ex r (s s0 : St) a s' : u_es s0 = u_es s -> slot s tag = Some (Waiting cid fds callee can ex) ->
  queues_ok (u_es s) ->
  (if bool_decide (is_Some (ctxs (u_sched s0) !! cid)) then
     set_states <[tag := Responded r]> ;;; in_sched (unblock cid) ;;; ret tt
   else set_states (delete tag) ;;; drop_response r) s = Done (a, s') -> calm s s'.
Proof.
  intros He Hs Hq. unfold u_sched. rewrite He. fold (u_sched s). case_bool_decide as Hc; [by eapply calm_answer|].
  intros (u & s1 & H1 & H2)%bind_Done_inv. pose proof (fun H => calm_delete tag s H _ _ H1) as C. rewrite Hs in C.
  assert (C1 : calm s s1) by (apply C, eq_None_not_Some, Hc). eapply calm_trans; [exact C1|]. eapply keeps_drop_response; [by apply C1|exact H2].
Qed.

Lemma keeps_respond cur tag r : keeps (respond cur tag r).
Proof.
  intros s a s' Hq. unfold respond. rewrite (bind_Done _ _ s s s) by done. fold (slot s tag).
  assert (Hdrop : forall e, (drop_response r ;;; err e) s = Done (a, s') -> calm s s').
  { intros e H. apply (keeps_run _ _ _ _ H Hq). apply keeps_bind; [apply keeps_drop_response|]. intros _. apply keeps_ret. }
  destruct (slot s tag) as [[cid fds callee can ex|r0|c|]|] eqn:Hs; [|apply Hdrop..].
  destruct (match convert can r with MultipleFds _ => _ | _ => _ end) as [r1 fds1].
  intros (tc & s1 & H1 & H2)%bind_Done_inv. destruct (unwrap_all_same _ _ _ _ H1) as [He Hi].
  pose proof (keeps_unwrap_all _ _ _ _ Hq H1) as C1. apply bind_Done_inv in H2 as (u & s2 & H2 & H3).
  assert (C2 : calm s1 s2).
  { eapply (calm_settle tag cid); [by symmetry|unfold slot; rewrite Hi; exact Hs|by apply C1|exact H2]. }
  eapply calm_trans; [exact C1|]. eapply calm_trans; [exact C2|]. assert (Hq2 : queues_ok (u_es s2)) by (by apply C2, C1).
  apply (keeps_run _ _ _ _ H3 Hq2). apply keeps_bind_result; [apply keeps_space|]. intros _. apply keeps_bind; [|intros; apply keeps_ret].
  apply keeps_forM. intros d. apply keeps_bind; [apply keeps_try_close|intros; apply keeps_ret].
Qed.

Lemma keeps_take_fds tag : keeps (take_fds tag).
Proof.
  intros s a s' Hq. unfold take_fds. rewrite (bind_Done _ _ s s s) by done. fold (slot s tag).
  destruct (slot s tag) as [[cid fds callee can ex|r0|c|]|] eqn:Hs; try (intros [= <- <-]; apply calm_refl).
  intros (u & s1 & H1 & [= <- <-])%bind_Done_inv. eapply calm_slot; [|exact H1]. rewrite Hs. eauto.
Qed.

Lemma keeps_drops l : keeps (forM l (fun d => in_heap (arc_drop d))).
Proof. apply keeps_forM. intros. apply keeps_heap. Qed.

Lemma keeps_movefd ds tag : keeps (handle_movefd ds tag).
Proof.
  intros s a s' Hq. unfold handle_movefd. rewrite (bind_Done _ _ s s s) by done. fold (slot s tag).
  assert (Hdrop : forall e, (forM ds (fun d => in_heap (arc_drop d)) ;;; err e) s = Done (a, s') -> calm s s').
  { intros e H. apply (keeps_run _ _ _ _ H Hq). apply keeps_bind; [apply keeps_drops|intros; apply keeps_ret]. }
  destruct (slot s tag) as [[cid fds callee can ex|r0|c|]|] eqn:Hs; [|apply Hdrop..].
  intros (u & s1 & H1 & H2)%bind_Done_inv. assert (C1 : calm s s1) by (eapply calm_slot; [|exact H1]; rewrite Hs; eauto).
  eapply calm_trans; [exact C1|]. assert (Hq1 : queues_ok (u_es s1)) by (by apply C1). apply (keeps_run _ _ _ _ H2 Hq1). apply keeps_bind; [apply keeps_drops|intros; apply keeps_ret].
Qed.

Lemma keeps_call_fdwrite ds meta : keeps (call_fdwrite ds meta).
Proof.
  assert (Hd : forall e, keeps (forM ds (fun d => in_heap (arc_drop d)) ;;; @err St Error Z e)).
  { intros e. apply keeps_bind; [apply keeps_drops|intros; apply keeps_ret]. }
  unfold call_fdwrite. destruct meta as [|v [|id [|]]]; try apply Hd; destruct (socket_call v) as [[]|]; try apply Hd. apply keeps_movefd.
Qed.

Lemma vacant_slot s : slot s (vacant (states (u_inner s))) = None.
Proof. apply vacant_free. Qed.

Definition put_states (f : gmap Z State -> gmap Z State) (s : St) : St :=
  let i := u_inner s in
  set_inner (mkUserInner (root_id i) (handle_id i) (ui_name i) (ui_scheme_id i) (supports_on_close i) (ui_context i) (todo i)
               (f (states i)) (unmounting i)) s.
Lemma set_states_run f s : set_states f s = Done (tt, put_states f s).
Proof. reflexivity. Qed.

Lemma next_id_run s : let tag := vacant (states (u_inner s)) in
  next_id s = Done (if tag <? 2 ^ 32 then Ok tag else Err EAGAIN, put_states <[tag := Placeholder]> s).
Proof. cbn zeta. unfold next_id, bind, get_state. rewrite set_states_run. by destruct (_ <? _). Qed.

Lemma calm_new_slot st s : calm s (put_states <[vacant (states (u_inner s)) := st]> s).
Proof. eapply calm_slot; [|apply set_states_run]. by rewrite vacant_slot. Qed.
Lemma keeps_next_id : keeps next_id.
Proof. intros s a s' _. rewrite next_id_run. intros [= <- <-]. apply calm_new_slot. Qed.

Lemma write_state_run tag st s : is_Some (slot s tag) -> write_state tag st s = Done (tt, put_states <[tag := st]> s).
Proof. intros H. unfold write_state, bind, get_state. fold (slot s tag). by rewrite bool_decide_eq_true_2. Qed.
Lemma write_state_inv tag st s u s' : write_state tag st s = Done (u, s') -> is_Some (slot s tag) /\ s' = put_states <[tag := st]> s.
Proof. unfold write_state, bind, get_state. fold (slot s tag). case_bool_decide; [|done]. rewrite set_states_run. by intros [= <- <-]. Qed.

Lemma keeps_request_fmap cid ctx id n fl : keeps (request_fmap cid ctx id n fl).
Proof.
  intros s a s' Hq. unfold request_fmap, bind_result. rewrite (bind_Done _ _ _ _ _ (next_id_run s)). destruct (_ <? _).
  2:{ intros [= <- <-]. apply calm_new_slot. }
  set (tag := vacant _). set (s1 := put_states _ s). assert (Hsl : slot s1 tag = Some Placeholder) by (unfold slot, s1; cbn; apply lookup_insert_eq).
  rewrite (bind_Done _ _ _ _ _ (write_state_run tag (Fmap cid) s1 (ltac:(by eexists)))).
  assert (C : calm s (put_states <[tag := Fmap cid]> s1)).
  { replace (put_states <[tag := Fmap cid]> s1) with (put_states <[tag := Fmap cid]> s); [apply calm_new_slot|].
    unfold s1, put_states. cbn. by rewrite insert_insert_eq. }
  intros H. eapply calm_trans; [exact C|]. assert (Hq1 : queues_ok (u_es (put_states <[tag := Fmap cid]> s1))) by (by apply C).
  apply (keeps_run _ _ _ _ H Hq1). apply keeps_bind; [apply keeps_send_todo|]. intros _.
  apply keeps_bind; [apply keeps_trigger_read|intros; apply keeps_ret].
Qed.

Lemma keeps_unmount : keeps unmount.
Proof.
  apply keeps_bind. { intros s a s' _ [= <- <-]. by apply calm_same. }
  intros _. apply keeps_bind; [apply keeps_get|]. intros s. apply keeps_bind; [apply keeps_notify_signal|]. intros _.
  apply keeps_bind; [apply keeps_trigger_read|intros; apply keeps_ret].
Qed.

Lemma keeps_provide_mmap cur tag off base n : keeps (provide_mmap cur tag off base n).
Proof.
  unfold provide_mmap. destruct (negb _); [apply keeps_ret|]. destruct (negb _); [apply keeps_ret|]. destruct (negb _); [apply keeps_ret|].
  intros s a s' Hq. rewrite (bind_Done _ _ s s s) by done. fold (slot s tag).
  destruct (slot s tag) as [[cid fds callee can ex|r0|c|]|] eqn:Hs; try (intros [= <- <-]; apply calm_refl).
  rewrite (bind_Done _ _ _ _ _ (set_states_run _ s)). set (s1 := put_states _ s).
  assert (C : calm s s1) by (eapply calm_delete; [|apply set_states_run]; by rewrite Hs).
  case_bool_decide; [|by intros [= <- <-]]. destruct (current_translate _ _ _) as [[frame|]|e]; try (by intros [= <- <-]).
  intros (u & s2 & H1 & H2)%bind_Done_inv. apply bind_Done_inv in H2 as (u2 & s3 & [= <- <-] & [= <- <-]).
  eapply calm_trans; [exact C|]. eapply calm_trans; [|by apply calm_same].
  unfold in_sched, zoom in H1. destruct (update_ctx _ _ _) as [[v x]|] eqn:Hu; [|done]. injection H1 as <- <-.
  destruct (ctxs (u_sched s1) !! c) as [c0|] eqn:Hc0; [|unfold update_ctx, the_ctx, bind in Hu; by rewrite Hc0 in Hu].
  rewrite (update_ctx_run _ _ c0) in Hu by done. injection Hu as <- <-. split; try done.
  - intros y Hy. unfold ctx_of, u_sched. cbn. destruct (decide (y = c)) as [->|]; [rewrite lookup_insert_eq; by eexists|by rewrite lookup_insert_ne].
  - intros y. unfold sleeping, ctx_of, u_sched. cbn. destruct (decide (y = c)) as [->|]; [|by rewrite lookup_insert_ne].
    rewrite lookup_insert_eq. cbn. unfold u_sched in Hc0. cbn in Hc0. rewrite Hc0. cbn. by destruct (status c0) as [| |[]|] eqn:E; cbn; rewrite ?E.
  - intros. left. eauto.
Qed.

(** With the memory of the context that runs. *)
Abbreviation keepsU := (keeps_at (fst : St * UserMem -> St)).
Lemma keepsU_user {A} (m : M St A) : keeps m -> keepsU (in_user m).
Proof. intros Hm [s u] a [s' u'] Hq. unfold in_user, zoom. cbn. destruct (m s) as [[x s1]|] eqn:E; [|done]. intros [= <- <- <-]. by eapply Hm. Qed.
Lemma keepsU_umem {A} (m : M UserMem A) : keepsU (in_umem m).
Proof. intros [s u] a [s' u'] Hq. unfold in_umem, zoom. cbn. destruct (m u) as [[x s1]|] eqn:E; [|done]. intros [= <- <- <-]. apply calm_refl. Qed.
Lemma keepsU_chunks buf n : keepsU (in_exact_chunks buf n).
Proof. unfold in_exact_chunks, unwrap. destruct (mapM _ _); [apply keeps_ret|apply keeps_panic]. Qed.

Ltac keeps_tac :=
  repeat first
    [ apply keeps_ret | apply keeps_panic | apply keeps_get | apply keepsU_umem | apply keepsU_chunks | apply keeps_table | apply keeps_heap
    | apply keeps_respond | apply keeps_take_fds | apply keeps_provide_mmap | apply keeps_drops | apply keeps_trigger | apply keeps_call_fdwrite
    | apply keepsU_user | apply keeps_bind_result; [|intros ?] | apply keeps_bind; [|intros ?]
    | match goal with |- keeps_at _ (match ?x with _ => _ end) => destruct x end ].

Lemma keeps_handle_parsed cur p : keepsU (handle_parsed cur p).
Proof. unfold handle_parsed, handle_obtain, err, ok. destruct p; keeps_tac. Qed.
Lemma keeps_ui_write cur buf : keepsU (ui_write cur buf).
Proof.
  unfold ui_write. apply keeps_bind; [apply keepsU_chunks|]. intros chunks. generalize 0 at 1. induction chunks as [|c l IH]; intros n; [apply keeps_ret|].
  cbn [write_chunks]. apply keeps_bind_result; [apply keepsU_umem|]. intros bytes. apply keeps_bind.
  - destruct (parse_cqe _); [apply keeps_handle_parsed|apply keeps_ret].
  - intros [u|e]; [apply IH|]. destruct (0 <? n); apply keeps_ret.
Qed.
Lemma keeps_call_fdread cur payload upper meta : keepsU (call_fdread cur payload upper meta).
Proof.
  unfold call_fdread, handle_obtainfd, bulk_insert_fds, bulk_add_fds, drop_arcs, err, ok. destruct meta as [|v [|id [|]]]; keeps_tac.
Qed.
Lemma keeps_ui_read pivot buf b : keepsU (ui_read pivot buf b).
Proof.
  intros [s m] a [s' m'] Hq. unfold ui_read. destruct (receive_into_user _ _ _ _ _ _ _) as [[[x q] m1]|]; [|done].
  intros [= <- <- <-]. by apply calm_same.
Qed.
End spec.
