(* ===== verification/UserSchemeLts.v ===== *)
(** * Calls to user-space schemes, interleaved

    The callers of a scheme, the scheme itself and the scheduler, in any order.
    A caller that sleeps has a request the scheme can still answer, tags are
    never shared, and an answer is what the caller returns with. *)

From S2P Require Import Prelude PageInfo FrameAllocator Rmm OrdMap Grants CpuSet UserCopy Sync SyncSpec FdTbl Scheduler Event EventSpec Files UserScheme UserCalls UserSchemeSpec.

Section lts.
Context {EP : EventParams} {EL : EventLaws} {UP : UserParams} {UL : UserLaws} {Mem : Type} {SA : SpaceApi Mem}.
Abbreviation St := (@UserState Mem).

(** ** Pushing a request *)

(** [s'] is [s] after requests were queued: contexts may have been woken. *)
Record pushed (l : list Sqe) (s s' : St) : Prop := mkPushed {
  ps_states : states (u_inner s') = states (u_inner s);
  ps_todo : wq_inner (todo (u_inner s')) = wq_inner (todo (u_inner s)) ++ l;
  ps_unmounting : unmounting (u_inner s') = unmounting (u_inner s);
  ps_mem : u_mem s' = u_mem s;
  ps_heap : u_heap s' = u_heap s;
  ps_tables : u_tables s' = u_tables s;
  ps_closed : u_closed s' = u_closed s;
  ps_queues : queues_ok (u_es s');
  ps_ctx : forall y, ctx_of s' y = ctx_of s y \/ ctx_of s' y = woken <$> ctx_of s y;
}.

Lemma woken_or_trans (o1 o2 o3 : option Ctx) : o2 = o1 \/ o2 = woken <$> o1 -> o3 = o2 \/ o3 = woken <$> o2 -> o3 = o1 \/ o3 = woken <$> o1.
Proof. intros [-> | ->] [-> | ->]; auto. right. destruct o1; cbn; [by rewrite woken_idem|done]. Qed.

Lemma pushed_trans l1 l2 s1 s2 s3 : pushed l1 s1 s2 -> pushed l2 s2 s3 -> pushed (l1 ++ l2) s1 s3.
Proof.
  intros [a1 b1 c1 d1 e1 f1 g1 h1 i1] [a2 b2 c2 d2 e2 f2 g2 h2 i2]. split; try congruence.
  - by rewrite b2, b1, app_assoc.
  - exact h2.
  - intros y. by eapply woken_or_trans.
Qed.

Lemma send_pushed sqe s : queues_ok (u_es s) -> exists s', send_todo sqe s = Done (tt, s') /\ pushed [sqe] s s'.
Proof.
  intros Hq. destruct (send_todo_run sqe s) as (s1 & H1 & C1 & He & Hs1). exists s1. split; [done|].
  split; try (rewrite Hs1; done). unfold send_todo in H1.
  destruct (send_run sqe (todo (u_inner s)) (u_sched s)) as (x' & n & Hsend & Hx). rewrite Hsend in H1. injection H1 as <-.
  intros y. unfold ctx_of, u_sched. cbn. rewrite Hx. case_decide; auto.
Qed.
Lemma trigger_pushed s : queues_ok (u_es s) -> exists s', trigger_read s = Done (tt, s') /\ pushed [] s s'.
Proof.
  intros Hq. unfold trigger_read. rewrite (bind_Done _ _ s s s) by done.
  destruct (trigger_run (root_id (u_inner s)) (handle_id (u_inner s)) EV_READ (u_es s) Hq) as (order & e & Ht & _ & _ & D).
  unfold in_events, zoom. rewrite Ht. eexists. split; [reflexivity|]. split; cbn [set_es u_inner u_es u_mem u_heap u_tables u_closed]; try done.
  - by rewrite app_nil_r.
  - by eapply queues_ok_delivered.
  - intros y. unfold ctx_of, u_sched. cbn. rewrite (dl_ctxs _ _ _ D). case_decide; auto.
Qed.
Lemma push_run sqe s : queues_ok (u_es s) -> exists s', (send_todo sqe ;;; trigger_read) s = Done (tt, s') /\ pushed [sqe] s s'.
Proof.
  intros Hq. destruct (send_pushed sqe s Hq) as (s1 & H1 & P1). rewrite (bind_Done _ _ _ _ _ H1).
  destruct (trigger_pushed s1 (ps_queues _ _ _ P1)) as (s2 & H2 & P2). exists s2. split; [done|]. exact (pushed_trans _ _ _ _ _ P1 P2).
Qed.
Lemma pushed_asleep l s s' y : pushed l s s' -> sleeping s' y -> sleeping s y.
Proof.
  intros P. unfold sleeping. destruct (ps_ctx _ _ _ P y) as [-> | ->]; [done|]. destruct (ctx_of s y) as [c|]; [|done]. cbn.
  intros [= Hw]. by destruct (woken_not_blocked c).
Qed.

(** ** What a caller's step does to the other calls *)

(** [calm], but for the caller [cid] and its slot. *)
Record calm_other (cid tag : Z) (s s' : St) : Prop := mkCalmOther {
  co_queues : queues_ok (u_es s) -> queues_ok (u_es s');
  co_alive : forall y, is_Some (ctx_of s y) -> is_Some (ctx_of s' y);
  co_asleep : forall y, y <> cid -> sleeping s' y -> sleeping s y;
  co_slots : forall t, t <> tag -> slot s' t = slot s t;
}.

Lemma calm_other_trans cid tag s1 s2 s3 : calm_other cid tag s1 s2 -> calm_other cid tag s2 s3 -> calm_other cid tag s1 s3.
Proof. intros [a1 b1 c1 d1] [a2 b2 c2 d2]. split; [tauto|eauto|eauto|]. intros t Ht. by rewrite d2, d1. Qed.
Lemma calm_other_refl cid tag s : calm_other cid tag s s.
Proof. by split. Qed.
Lemma calm_other_put cid tag f s : (forall m t, t <> tag -> f m !! t = m !! t) -> calm_other cid tag s (put_states f s).
Proof. intros Hf. split; try done. intros t Ht. unfold slot. cbn. by apply Hf. Qed.
Lemma calm_other_push cid tag l s s' : pushed l s s' -> calm_other cid tag s s'.
Proof.
  intros P. split; [intros _; apply P| | |intros; unfold slot; by rewrite (ps_states _ _ _ P)].
  - intros y [c Hc]. destruct (ps_ctx _ _ _ P y) as [-> | ->]; rewrite Hc; by eexists.
  - intros y _. by eapply pushed_asleep.
Qed.

(** A change of the caller's own context. *)
Definition put_ctx (cid : Z) (c : Ctx) (s : St) : St := set_usched (set_ctx cid c (u_sched s)) s.
Lemma put_ctx_of cid c s y : ctx_of (put_ctx cid c s) y = if decide (y = cid) then Some c else ctx_of s y.
Proof. unfold ctx_of, put_ctx, u_sched. cbn. destruct (decide (y = cid)) as [->|]; [by rewrite lookup_insert_eq|by rewrite lookup_insert_ne]. Qed.
Lemma calm_other_ctx cid tag c s : calm_other cid tag s (put_ctx cid c s).
Proof.
  split; try done.
  - intros y Hy. rewrite put_ctx_of. case_decide; [by eexists|done].
  - intros y Hy. unfold sleeping. by rewrite put_ctx_of, decide_False.
Qed.
Lemma put_ctx_twice cid c c' s : put_ctx cid c (put_ctx cid c' s) = put_ctx cid c s.
Proof. unfold put_ctx. destruct s as [i e m h t cl fr]. cbn. unfold u_sched. cbn. by rewrite set_ctx_twice. Qed.

Lemma in_update_run cid f c (s : St) : ctx_of s cid = Some c -> in_sched (update_ctx cid f) s = Done (tt, put_ctx cid (f c) s).
Proof. intros H. unfold in_sched, zoom. by rewrite (update_ctx_run cid f c) by done. Qed.
Lemma in_the_ctx_run cid c (s : St) : ctx_of s cid = Some c -> in_sched (the_ctx cid) s = Done (c, s).
Proof.
  intros H. unfold in_sched, zoom. rewrite (the_ctx_run cid c) by done. destruct s as [i e m h t cl fr]. unfold set_usched. cbn.
  by destruct e.
Qed.
(** [block] of the context that runs. *)
Definition blocked (reason : string) (c : Ctx) : Ctx := if is_runnable (status c) then set_status Blocked reason c else c.
Lemma in_block_run cid reason c (s : St) : ctx_of s cid = Some c ->
  exists b, in_sched (block cid reason) s = Done (b, put_ctx cid (blocked reason c) s).
Proof.
  intros H. unfold in_sched, zoom, block. unfold ctx_of in H. rewrite H. unfold blocked. destruct (is_runnable (status c)); eexists; [done|].
  unfold put_ctx. by rewrite (set_ctx_same cid c) by done.
Qed.

(** ** The steps of a caller *)

(** What a step of a call does: it never fails, the other calls do not see it, the
    third one makes the request wait, and only the second one puts the caller to
    sleep. *)
Lemma step_run cid fds sqe ex n m (s : St) : call_steps cid fds sqe ex !! n = Some m -> queues_ok (u_es s) -> is_Some (ctx_of s cid) ->
  is_Some (slot s (sqe_tag sqe)) ->
  exists s', m s = Done (tt, s') /\ calm_other cid (sqe_tag sqe) s s' /\
    slot s' (sqe_tag sqe) = (if decide (n = 2%nat) then Some (Waiting cid fds PageSpan_empty false ex) else slot s (sqe_tag sqe)) /\
    (n <> 1%nat -> sleeping s' cid -> sleeping s cid).
Proof.
  intros Hm Hq [c Hc] Ht.
  assert (Hctx : forall g, status (g c) = status c -> exists s', in_sched (update_ctx cid g) s = Done (tt, s') /\
    calm_other cid (sqe_tag sqe) s s' /\ slot s' (sqe_tag sqe) = slot s (sqe_tag sqe) /\ (sleeping s' cid -> sleeping s cid)).
  { intros g Hg. rewrite (in_update_run cid g c s Hc). eexists. split_and!; [done|apply calm_other_ctx|done|].
    unfold sleeping. rewrite put_ctx_of, decide_True, Hc by done. cbn. by rewrite Hg. }
  assert (Hpush : forall l s', pushed l s s' -> calm_other cid (sqe_tag sqe) s s' /\ slot s' (sqe_tag sqe) = slot s (sqe_tag sqe) /\ (sleeping s' cid -> sleeping s cid)).
  { intros l s' P. split_and!; [by eapply calm_other_push|unfold slot; by rewrite (ps_states _ _ _ P)|by eapply pushed_asleep]. }
  destruct n as [|[|[|[|[|[|]]]]]]; cbn in Hm; try discriminate; injection Hm as <-.
  - destruct (Hctx (set_preempt (fun n => usize_add n 1)) eq_refl) as (s' & H1 & H2 & H3 & H4). exists s'. by split_and!.
  - rewrite (bind_Done _ _ _ _ _ (in_update_run cid _ c s Hc)). set (c1 := set_wake ex c). set (s1 := put_ctx cid c1 s).
    assert (H1 : ctx_of s1 cid = Some c1) by (unfold s1; by rewrite put_ctx_of, decide_True).
    destruct (in_block_run cid "UserInner::call" c1 s1 H1) as [b Hb]. rewrite (bind_Done _ _ _ _ _ Hb). unfold s1. rewrite put_ctx_twice.
    eexists. split_and!; [reflexivity|apply calm_other_ctx|done|done].
  - rewrite write_state_run by done. eexists. split_and!; [reflexivity|apply calm_other_put; intros; by rewrite lookup_insert_ne| |done].
    unfold slot. cbn. by rewrite lookup_insert_eq.
  - destruct (send_pushed sqe s Hq) as (s' & H & P). exists s'. destruct (Hpush _ _ P) as (? & ? & ?). by split_and!.
  - destruct (trigger_pushed s Hq) as (s' & H & P). exists s'. destruct (Hpush _ _ P) as (? & ? & ?). by split_and!.
  - destruct (Hctx (set_preempt (fun n => usize_sub n 1)) eq_refl) as (s' & H1 & H2 & H3 & H4). exists s'. by split_and!.
Qed.

Lemma call_extended_with cid ctx fds opcode args timeout now :
  call_extended (Mem := Mem) cid ctx fds opcode args timeout now = begin_with cid fds (mk_sqe ctx opcode args) timeout now.
Proof. reflexivity. Qed.
Lemma or_drop_fds_ok {A} fds (m : M St (result Error A)) s x s' : or_drop_fds fds m s = Done (Ok x, s') <-> m s = Done (Ok x, s').
Proof.
  unfold or_drop_fds. split.
  - intros (r & s1 & H1 & H)%bind_Done_inv. destruct r as [y|e]; [by injection H as <- <-|]. by apply bind_Done_inv in H as (? & ? & _ & H).
  - intros H. by rewrite (bind_Done _ _ _ _ _ H).
Qed.

(** A guarded operation. *)
Lemma with_preempt_run {A} cid (m : M St A) a c c' s s' : ctx_of s cid = Some c ->
  m (put_ctx cid (set_preempt (fun n => usize_add n 1) c) s) = Done (a, s') -> ctx_of s' cid = Some c' ->
  with_preempt cid m s = Done (a, put_ctx cid (set_preempt (fun n => usize_sub n 1) c') s').
Proof.
  intros Hc Hm Hc'. unfold with_preempt, preempt_enter, preempt_leave. rewrite (bind_Done _ _ _ _ _ (in_update_run cid _ c s Hc)).
  rewrite (bind_Done _ _ _ _ _ Hm). by rewrite (bind_Done _ _ _ _ _ (in_update_run cid _ c' s' Hc')).
Qed.

Definition canceled_code (r : Response) : bool :=
  match r with Regular code _ => (code =? mux_err ECANCELED) || (code =? mux_err EINTR) | _ => false end.

(** The caller finds its answer: the slot is freed. *)
Lemma resume_responded cid tag expiry now span r c (s : St) : ctx_of s cid = Some c -> slot s tag = Some (Responded r) ->
  call_resume cid tag expiry now span s =
    Done (RDone (if canceled_code r && bool_decide (is_Some expiry) && bool_decide (wake c = None) then Err ETIMEDOUT else Ok r), span,
          put_states (delete tag) s).
Proof.
  intros Hc Hs. unfold call_resume. rewrite (bind_Done _ _ s s s) by done. rewrite (bind_Done _ _ _ _ _ (in_the_ctx_run cid c s Hc)).
  unfold slot in Hs. rewrite Hs, (bind_Done _ _ _ _ _ (set_states_run _ s)). destruct r as [code ex0|d|l]; cbn [canceled_code]; [|done..].
  by destruct (_ && _).
Qed.

Definition is_timed_out (ex : option Z) (now : Z) : bool := match ex with Some e => e <=? now | None => false end.

(** The caller is woken without an answer: its request is canceled, or was
    already, and goes on waiting, unless the caller is being killed. *)
Lemma resume_waiting cid tag expiry now span fds callee can ex c (s : St) :
  queues_ok (u_es s) -> ctx_of s cid = Some c -> slot s tag = Some (Waiting cid fds callee can ex) ->
  let gives_up := being_sigkilled c && (can || negb (is_timed_out ex now)) in
  exists s', call_resume cid tag expiry now span s =
      Done (if gives_up then RDone (Err EINTR) else RAgain, if being_sigkilled c then PageSpan_empty else span, s') /\
    calm_other cid tag s s' /\ slot s' tag = Some (Waiting cid fds (if being_sigkilled c then span else callee) true ex) /\
    wq_inner (todo (u_inner s')) = wq_inner (todo (u_inner s)) ++ (if can || gives_up then [] else [cancel_sqe tag]).
Proof.
  intros Hq Hc Hs gives_up. unfold call_resume. rewrite (bind_Done _ _ s s s) by done. rewrite (bind_Done _ _ _ _ _ (in_the_ctx_run cid c s Hc)).
  unfold slot in Hs. rewrite Hs. unfold gives_up. destruct can.
  - destruct (being_sigkilled c); cbn [orb andb].
    + erewrite bind_Done by (apply write_state_run; by eexists). eexists. split; [reflexivity|]. split_and!.
      * apply calm_other_put. intros. by rewrite lookup_insert_ne.
      * unfold slot. cbn. by rewrite lookup_insert_eq.
      * cbn. by rewrite app_nil_r.
    + destruct (in_block_run cid "UserInner::call (woken up after cancelation request)" c s Hc) as [b Hb]. rewrite (bind_Done _ _ _ _ _ Hb).
      eexists. split; [reflexivity|]. split_and!; [apply calm_other_ctx|done|by rewrite app_nil_r].
  - set (callee' := if being_sigkilled c then span else callee).
    replace (if being_sigkilled c then (span, PageSpan_empty) else (callee, span)) with (callee', if being_sigkilled c then PageSpan_empty else span)
      by (unfold callee'; by destruct (being_sigkilled c)).
    cbn beta iota. fold (is_timed_out ex now).
    erewrite bind_Done by (apply write_state_run; by eexists). set (s1 := put_states _ s).
    assert (C1 : calm_other cid tag s s1) by (apply calm_other_put; intros; by rewrite lookup_insert_ne).
    assert (S1 : slot s1 tag = Some (Waiting cid fds callee' true ex)) by (unfold slot, s1; cbn; by rewrite lookup_insert_eq).
    cbn [orb]. rewrite (andb_comm (negb _)). destruct (being_sigkilled c && negb (is_timed_out ex now)).
    { eexists. split; [reflexivity|]. split_and!; [done|done|by rewrite app_nil_r]. }
    set (c1 := set_preempt (fun n => usize_add n 1) c).
    destruct (push_run (cancel_sqe tag) (put_ctx cid c1 s1)) as (s3 & Hp & P); [done|].
    assert (Hcx : exists c3, ctx_of s3 cid = Some c3).
    { destruct (ps_ctx _ _ _ P cid) as [H|H]; rewrite put_ctx_of, decide_True in H by done; eauto. }
    destruct Hcx as [c3 Hc3]. destruct (in_block_run cid "UserInner::call (spurious wakeup)" c3 s3 Hc3) as [b Hb].
    set (c4 := blocked _ c3) in Hb. assert (H4 : ctx_of (put_ctx cid c4 s3) cid = Some c4) by (by rewrite put_ctx_of, decide_True).
    assert (Hin : (send_todo (cancel_sqe tag) ;;; trigger_read ;;; in_sched (block cid "UserInner::call (spurious wakeup)")) (put_ctx cid c1 s1)
                  = Done (b, put_ctx cid c4 s3)).
    { rewrite <- Hb. transitivity (((send_todo (cancel_sqe tag) ;;; trigger_read) ;;; in_sched (block cid "UserInner::call (spurious wakeup)")) (put_ctx cid c1 s1));
        [symmetry; apply bind_assoc|]. by rewrite (bind_Done _ _ _ _ _ Hp). }
    erewrite bind_Done by (eapply with_preempt_run; [exact Hc|exact Hin|exact H4]). eexists. split; [reflexivity|]. split_and!.
    + apply (calm_other_trans _ _ _ s1); [done|]. apply (calm_other_trans _ _ _ (put_ctx cid c1 s1)); [apply calm_other_ctx|].
      apply (calm_other_trans _ _ _ s3); [by eapply calm_other_push|]. rewrite put_ctx_twice. apply calm_other_ctx.
    + unfold slot. cbn. rewrite (ps_states _ _ _ P). apply S1.
    + cbn. rewrite (ps_todo _ _ _ P). done.
Qed.

(** ** The system *)

(** How far a call is: it has a tag, or it has made so many of its steps. *)
Inductive Stage :=
| Tagged (fds : option (list Z)) (sqe : Sqe) (timeout : option Z)
| Steps (fds : option (list Z)) (sqe : Sqe) (made : nat).

(** A call in progress: its tag, its deadline, the span the caller is to unmap, how
    far it is, and whether other code put the caller back to sleep after the
    request was answered. *)
Record Call := mkCall { k_tag : Z; k_expiry : option Z; k_span : PageSpan; k_stage : Stage; k_put_back : bool }.
Definition Config : Type := St * gmap Z Call.

(** The step the caller makes next, before it first gives up the CPU. *)
Definition next_step (cid : Z) (k : Call) : option (M St unit) :=
  match k_stage k with
  | Tagged _ _ _ => None
  | Steps fds sqe n => call_steps cid fds sqe (k_expiry k) !! n
  end.
(** The caller has made all of them, and is in the loop. *)
Definition entered (cid : Z) (k : Call) : Prop :=
  match k_stage k with
  | Tagged _ _ _ => False
  | Steps _ _ _ => next_step cid k = None
  end.
Definition at_stage (st : Stage) (k : Call) : Call := mkCall (k_tag k) (k_expiry k) (k_span k) st (k_put_back k).

Definition is_answered (st : option State) : bool := match st with Some (Responded _) => true | _ => false end.
(** The mark of a call when the rest of the kernel changes the contexts. *)
Definition disturb (s : St) (x : Sched) (cid : Z) (k : Call) : Call :=
  mkCall (k_tag k) (k_expiry k) (k_span k) (k_stage k) (k_put_back k || put_back (u_sched s) x cid && is_answered (slot s (k_tag k))).

(** The steps; those of a caller in the loop carry its number. *)
Inductive step : option Z -> Config -> Config -> Prop :=
| S_call cid fds mk timeout span tag s s' calls :
    calls !! cid = None -> is_Some (ctx_of s cid) -> (forall tag, sqe_tag (mk tag) = tag) -> next_id s = Done (Ok tag, s') ->
    step None (s, calls) (s', <[cid := mkCall tag None span (Tagged fds (mk tag) timeout) false]> calls)
| S_call_fails fds e u s s1 s' calls :
    next_id s = Done (Err e, s1) -> drop_response (MultipleFds fds) s1 = Done (u, s') -> step None (s, calls) (s', calls)
| S_refused cid k fds sqe timeout u s s' calls :
    calls !! cid = Some k -> k_stage k = Tagged fds sqe timeout -> unmounting (u_inner s) = true ->
    drop_response (MultipleFds fds) s = Done (u, s') -> step None (s, calls) (s', delete cid calls)
| S_begin cid k fds sqe timeout now s calls :
    calls !! cid = Some k -> k_stage k = Tagged fds sqe timeout -> unmounting (u_inner s) = false ->
    step None (s, calls) (s, <[cid := mkCall (k_tag k) (timeout_expiry_of timeout now) (k_span k) (Steps fds sqe 0) (k_put_back k)]> calls)
(** The caller runs on its CPU, whatever its status. *)
| S_advance cid k fds sqe n m s s' calls :
    calls !! cid = Some k -> k_stage k = Steps fds sqe n -> next_step cid k = Some m -> m s = Done (tt, s') ->
    step None (s, calls) (s', <[cid := at_stage (Steps fds sqe (S n)) k]> calls)
| S_again cid k now span s s' calls :
    calls !! cid = Some k -> entered cid k -> ~ sleeping s cid ->
    call_resume cid (k_tag k) (k_expiry k) now (k_span k) s = Done (RAgain, span, s') ->
    step (Some cid) (s, calls) (s', <[cid := mkCall (k_tag k) (k_expiry k) span (k_stage k) false]> calls)
| S_return cid k now r span s s' calls :
    calls !! cid = Some k -> entered cid k -> ~ sleeping s cid ->
    call_resume cid (k_tag k) (k_expiry k) now (k_span k) s = Done (RDone r, span, s') ->
    step (Some cid) (s, calls) (s', delete cid calls)
| S_write cur buf m m' r s s' calls : ui_write cur buf (s, m) = Done (r, (s', m')) -> step None (s, calls) (s', calls)
| S_read pivot buf b m m' r s s' calls : ui_read pivot buf b (s, m) = Done (r, (s', m')) -> step None (s, calls) (s', calls)
| S_fdread cur payload upper meta m m' r s s' calls :
    call_fdread cur payload upper meta (s, m) = Done (r, (s', m')) -> step None (s, calls) (s', calls)
| S_fdwrite ds meta r s s' calls : call_fdwrite ds meta s = Done (r, s') -> step None (s, calls) (s', calls)
| S_request_fmap cid ctx id n fl r s s' calls : request_fmap cid ctx id n fl s = Done (r, s') -> step None (s, calls) (s', calls)
| S_unmount r s s' calls : unmount s = Done (r, s') -> step None (s, calls) (s', calls)
(** The rest of the kernel changes events and contexts at will; a context does not
    vanish during its own call. *)
| S_other e s calls :
    queues_ok e -> (forall cid k, calls !! cid = Some k -> is_Some (ctxs (e_sched e) !! cid)) ->
    step None (s, calls) (set_es e s, map_imap (fun cid k => Some (disturb s (e_sched e) cid k)) calls).

Inductive reachable : Config -> Prop :=
| reach_start s : queues_ok (u_es s) -> reachable (s, ∅)
| reach_one act x y : reachable x -> step act x y -> reachable y.

(** [begin_with], which the operations of a scheme run, is these steps in a row. *)
Lemma steps_trace cid fds sqe k l : forall n (s s' : St) calls, calls !! cid = Some k -> k_stage k = Steps fds sqe n ->
  drop n (call_steps cid fds sqe (k_expiry k)) = l -> forM l (fun m => m) s = Done (tt, s') ->
  rtc (step None) (s, calls) (s', <[cid := at_stage (Steps fds sqe (n + length l)) k]> calls).
Proof.
  revert k. induction l as [|m l IH]; intros k n s s' calls Hk Hst Hl.
  - intros [= <-]. rewrite Nat.add_0_r. replace (at_stage _ k) with k by (destruct k; cbn in *; by subst). by rewrite insert_id.
  - cbn [forM]. intros ([] & s1 & H1 & H2)%bind_Done_inv.
    assert (Hm : call_steps cid fds sqe (k_expiry k) !! n = Some m) by (rewrite <- (Nat.add_0_r n), <- lookup_drop, Hl; done).
    eapply rtc_l.
    + eapply (S_advance cid k fds sqe n m); [done|done| |exact H1]. unfold next_step. by rewrite Hst.
    + replace (<[cid := at_stage (Steps fds sqe (n + length (m :: l))) k]> calls)
        with (<[cid := at_stage (Steps fds sqe (S n + length l)) (at_stage (Steps fds sqe (S n)) k)]> (<[cid := at_stage (Steps fds sqe (S n)) k]> calls))
        by (rewrite insert_insert_eq; cbn [length at_stage k_tag k_expiry k_span k_put_back]; by rewrite Nat.add_succ_r).
      apply IH; [by rewrite lookup_insert_eq|done| |exact H2]. cbn [at_stage k_expiry].
      replace (S n) with (n + 1)%nat by lia. by rewrite <- drop_drop, Hl.
Qed.

Lemma begin_with_trace cid fds mk timeout now span sqe (s s' : St) calls : calls !! cid = None -> is_Some (ctx_of s cid) ->
  (forall tag, sqe_tag (mk tag) = tag) -> begin_with cid fds mk timeout now s = Done (Ok sqe, s') ->
  rtc (step None) (s, calls) (s', <[cid := mkCall (sqe_tag sqe) (timeout_expiry_of timeout now) span (Steps fds sqe 6) false]> calls).
Proof.
  intros Hno Ha Hmk. unfold begin_with. rewrite or_drop_fds_ok. unfold bind_result.
  rewrite (bind_Done _ _ _ _ _ (next_id_run s)). destruct (Z.ltb_spec (vacant (states (u_inner s))) (2 ^ 32)) as [Ht|]; [|done].
  set (tag := vacant _) in *. set (s1 := put_states _ s). intros (r & s2 & H1 & H2)%bind_Done_inv.
  unfold call_begin in H1. rewrite (bind_Done get_state _ s1 s1 s1) in H1 by done. destruct (unmounting (u_inner s1)) eqn:Hu; [by injection H1 as <- <-|].
  apply bind_Done_inv in H1 as ([] & s3 & H1 & [= <- <-]). injection H2 as <- <-. rewrite Hmk.
  eapply rtc_l; [apply (S_call cid fds mk timeout span tag s s1 calls Hno Ha Hmk); rewrite next_id_run; fold tag; by rewrite (proj2 (Z.ltb_lt _ _) Ht)|].
  eapply rtc_l; [eapply (S_begin cid _ fds (mk tag) timeout now s1); [by rewrite lookup_insert_eq|done|done]|].
  cbn [k_tag k_span k_put_back]. rewrite insert_insert_eq. set (k := mkCall tag _ span _ false).
  pose proof (steps_trace cid fds (mk tag) k _ 0 s1 s3 (<[cid := k]> calls) ltac:(by rewrite lookup_insert_eq) eq_refl eq_refl H1) as T.
  rewrite insert_insert_eq in T. exact T.
Qed.

Lemma reachable_rtc x y : reachable x -> rtc (step None) x y -> reachable y.
Proof. intros R. induction 1 as [|x y z H _ IH]; [done|]. by apply IH; eapply reach_one. Qed.

(** ** The invariant *)

(** The call of [cid] can be answered, or has been and [cid] is awake. *)
Definition answerable (s : St) (cid : Z) (k : Call) : Prop :=
  (exists fds callee can ex, slot s (k_tag k) = Some (Waiting cid fds callee can ex)) \/
  ((exists r, slot s (k_tag k) = Some (Responded r)) /\ (k_put_back k = false -> ~ sleeping s cid)).

(** Its slot is reserved until the third step is made. *)
Definition in_progress (s : St) (cid : Z) (k : Call) : Prop :=
  is_Some (ctx_of s cid) /\
  match k_stage k with
  | Tagged _ sqe _ => sqe_tag sqe = k_tag k /\ slot s (k_tag k) = Some Placeholder
  | Steps _ sqe n => sqe_tag sqe = k_tag k /\ if decide (n < 3)%nat then slot s (k_tag k) = Some Placeholder else answerable s cid k
  end.

Record calls_ok (x : Config) : Prop := mkOk {
  ok_queues : queues_ok (u_es x.1);
  ok_calls : forall cid k, x.2 !! cid = Some k -> in_progress x.1 cid k;
  ok_tags : forall cid cid' k k', x.2 !! cid = Some k -> x.2 !! cid' = Some k' -> k_tag k = k_tag k' -> cid = cid';
}.

Lemma in_progress_slot s cid k : in_progress s cid k -> is_Some (slot s (k_tag k)).
Proof.
  assert (Ha : answerable s cid k -> is_Some (slot s (k_tag k))) by (intros [(?&?&?&?&->)|[[r ->] _]]; by eexists).
  intros [_ H]. destruct (k_stage k); [by destruct H as [_ ->]|]. destruct H as [_ H]. case_decide; [by rewrite H|by apply Ha].
Qed.
Lemma entered_answerable s cid k : in_progress s cid k -> entered cid k -> answerable s cid k.
Proof.
  intros [_ H] He. unfold entered, next_step in He. destruct (k_stage k) as [|fds sqe n]; [done|]. destruct H as [_ H]. case_decide; [|done].
  exfalso. by destruct n as [|[|[|]]]; [..|lia].
Qed.
(** A call whose slot is past the reservation. *)
Lemma in_progress_answerable s cid k : in_progress s cid k -> slot s (k_tag k) <> Some Placeholder -> answerable s cid k.
Proof. intros [_ H] Hn. destruct (k_stage k); [by destruct H|]. destruct H as [_ H]. by case_decide. Qed.

Lemma in_progress_mono s s' cid k : is_Some (ctx_of s' cid) -> (slot s (k_tag k) = Some Placeholder -> slot s' (k_tag k) = Some Placeholder) ->
  (answerable s cid k -> answerable s' cid k) -> in_progress s cid k -> in_progress s' cid k.
Proof. intros Ha Hp Hs [_ H]. split; [done|]. destruct (k_stage k); [by destruct H; auto|]. destruct H. split; [done|]. case_decide; auto. Qed.
Lemma in_progress_calm s s' cid k : calm s s' -> in_progress s cid k -> in_progress s' cid k.
Proof.
  intros C H. pose proof (proj1 H) as Ha. revert H. apply in_progress_mono; [by apply C|apply C|].
  intros [(fds & callee & can & ex & Hs)|[[r Hr] Hn]].
  - destruct (cm_waiting _ _ C _ _ _ _ _ _ Hs Ha) as [(?&?&?&?&H)|[? H]]; [left; eauto|by right].
  - right. split; [exists r; by apply C|]. intros Hb H. by apply (Hn Hb), C.
Qed.
Lemma in_progress_other s s' me tag cid k : calm_other me tag s s' -> cid <> me -> k_tag k <> tag -> in_progress s cid k -> in_progress s' cid k.
Proof.
  intros C Hne Ht H. pose proof (proj1 H) as Ha. revert H. apply in_progress_mono; [by apply C| |]; unfold answerable; rewrite (co_slots _ _ _ _ C _ Ht); [done|].
  intros [?|[Hr Hn]]; [by left|right]. split; [done|]. intros Hb H. apply (Hn Hb). by eapply C.
Qed.
Lemma ok_calm s s' calls : calm s s' -> calls_ok (s, calls) -> calls_ok (s', calls).
Proof. intros C [Hq Hc Ht]. split; cbn in *; [by apply C| |done]. intros. by eapply in_progress_calm; eauto. Qed.
Lemma ok_delete s calls cid : calls_ok (s, calls) -> calls_ok (s, delete cid calls).
Proof.
  intros [Hq Hc Ht]. split; cbn in *; [done| |].
  - intros y k [_ Hy]%lookup_delete_Some. by apply Hc.
  - intros y y' k k' [_ Hy]%lookup_delete_Some [_ Hy']%lookup_delete_Some. by apply Ht.
Qed.

(** A step of the caller [cid]: the call with [tag] is new, goes on or ends. *)
Lemma ok_caller s s' calls calls' cid tag : calls_ok (s, calls) -> calm_other cid tag s s' ->
  (forall y, y <> cid -> calls' !! y = calls !! y) ->
  (forall y k, y <> cid -> calls !! y = Some k -> k_tag k <> tag) ->
  (forall k, calls' !! cid = Some k -> k_tag k = tag /\ in_progress s' cid k) -> calls_ok (s', calls').
Proof.
  intros [Hq Hc Ht] C Ho Hne Hme. cbn in *. split; cbn; [by apply C| |].
  - intros y k Hy. destruct (decide (y = cid)) as [->|Hy']; [by apply Hme|]. rewrite Ho in Hy by done.
    eapply in_progress_other; [exact C|done|by eapply Hne|by apply Hc].
  - intros y y' k k' Hy Hy' E. destruct (decide (y = cid)) as [->|H1], (decide (y' = cid)) as [->|H2]; [done| | |].
    + destruct (Hme _ Hy) as [E' _]. rewrite Ho in Hy' by done. destruct (Hne _ _ H2 Hy'). congruence.
    + destruct (Hme _ Hy') as [E' _]. rewrite Ho in Hy by done. destruct (Hne _ _ H1 Hy). congruence.
    + rewrite Ho in Hy, Hy' by done. by eapply Ht.
Qed.
(** The same for a call that goes on. *)
Lemma ok_goes_on s s' calls cid k k' : calls_ok (s, calls) -> calls !! cid = Some k -> k_tag k' = k_tag k -> calm_other cid (k_tag k) s s' ->
  in_progress s' cid k' -> calls_ok (s', <[cid := k']> calls).
Proof.
  intros O Hk E C H. apply (ok_caller s s' calls _ cid (k_tag k) O C).
  - intros y Hy. by rewrite lookup_insert_ne.
  - intros y k2 Hy Hk2 E'. apply Hy. by eapply (ok_tags _ O).
  - rewrite lookup_insert_eq. intros k2 [= <-]. done.
Qed.
Lemma ok_ends s s' calls cid k : calls_ok (s, calls) -> calls !! cid = Some k -> calm_other cid (k_tag k) s s' -> calls_ok (s', delete cid calls).
Proof.
  intros O Hk C. apply (ok_caller s s' calls _ cid (k_tag k) O C).
  - intros y Hy. by rewrite lookup_delete_ne.
  - intros y k2 Hy Hk2 E'. apply Hy. by eapply (ok_tags _ O).
  - by rewrite lookup_delete_eq.
Qed.

(** A step of a caller before it is in the loop. *)
Lemma advance_run s cid k fds sqe n m : queues_ok (u_es s) -> in_progress s cid k -> k_stage k = Steps fds sqe n -> next_step cid k = Some m ->
  exists s', m s = Done (tt, s') /\ calm_other cid (k_tag k) s s' /\ in_progress s' cid (at_stage (Steps fds sqe (S n)) k) /\
    (forall r, slot s (k_tag k) = Some (Responded r) -> slot s' (k_tag k) = Some (Responded r)).
Proof.
  intros Hq Hp Hst Hm. pose proof (in_progress_slot _ _ _ Hp) as Ht. destruct Hp as [Ha Hp]. unfold next_step in Hm. rewrite Hst in Hm, Hp.
  destruct Hp as [E Hp]. rewrite <- E in *. destruct (step_run cid fds sqe _ n m s Hm Hq Ha Ht) as (s' & H & C & Hs & Hsl).
  exists s'. split_and!; [done|done| |].
  - split; [by apply C|]. cbn [at_stage k_stage k_tag]. split; [done|]. unfold answerable in *. cbn [at_stage k_tag k_put_back]. rewrite <- E.
    destruct (decide (n = 2%nat)) as [->|Hn]; [rewrite decide_False by lia; left; eauto|]. rewrite Hs.
    destruct (decide (n < 3)%nat), (decide (S n < 3)%nat); try lia; [done|]. rewrite <- E in Hp.
    destruct Hp as [?|[? Hw]]; [by left|right]. split; [done|]. intros Hb Hx. apply (Hw Hb), Hsl; [lia|done].
  - intros r Hr. rewrite Hs, decide_False; [done|]. intros ->. rewrite decide_True in Hp by lia. congruence.
Qed.

(** What a caller in the loop does to its slot and to the others. *)
Lemma resume_calm s calls cid k now r span s' : calls_ok (s, calls) -> calls !! cid = Some k -> entered cid k ->
  call_resume cid (k_tag k) (k_expiry k) now (k_span k) s = Done (r, span, s') ->
  calm_other cid (k_tag k) s s' /\ (r = RAgain -> exists fds callee can ex, slot s' (k_tag k) = Some (Waiting cid fds callee can ex)).
Proof.
  intros O Hk He Hres. pose proof (ok_calls _ O _ _ Hk) as Hp. pose proof (ok_queues _ O) as Hq. cbn in Hp, Hq.
  destruct (entered_answerable _ _ _ Hp He) as [(fds & callee & can & ex & Hs)|[[r0 Hs] _]]; destruct Hp as [[c Hc] _].
  - destruct (resume_waiting cid _ (k_expiry k) now (k_span k) _ _ _ _ c s Hq Hc Hs) as (s1 & H1 & C & Hs1 & _). rewrite Hres in H1. injection H1 as _ _ ->. eauto 6.
  - rewrite (resume_responded _ _ _ _ _ r0 c) in Hres by done. injection Hres as <- _ <-. split; [|done]. apply calm_other_put. intros. by rewrite lookup_delete_ne.
Qed.

Lemma sleeping_asleep (s : St) cid : sleeping s cid <-> asleep (u_sched s) cid = true.
Proof.
  rewrite asleep_spec. unfold sleeping, ctx_of. split; [intros (c & ? & ?)%fmap_Some; eauto|intros (c & -> & Hc); cbn; by rewrite Hc].
Qed.
Lemma disturb_progress s e cid k : is_Some (ctxs (e_sched e) !! cid) -> in_progress s cid k -> in_progress (set_es e s) cid (disturb s (e_sched e) cid k).
Proof.
  intros Ha [_ H]. split; [done|]. cbn [disturb k_stage k_tag]. destruct (k_stage k); [done|]. destruct H as [E H]. split; [done|].
  case_decide; [done|]. destruct H as [?|[[r Hr] Hw]]; [by left|right]. split; [by exists r|]. cbn [disturb k_put_back]. rewrite Hr. cbn [is_answered].
  rewrite andb_true_r. intros [Hb Hp]%orb_false_iff Hs. apply (Hw Hb). apply sleeping_asleep. eapply put_back_false; [exact Hp|]. by apply sleeping_asleep in Hs.
Qed.

Lemma ok_step act x y : calls_ok x -> step act x y -> calls_ok y.
Proof.
  intros O Hst. revert O. destruct Hst as [cid fds mk timeout span tag s s' calls Hno Ha Hmk Hn|fds e u s s1 s' calls Hn Hd
    |cid k fds sqe timeout u s s' calls Hk Hst Hu Hd|cid k fds sqe timeout now s calls Hk Hst Hu|cid k fds sqe n m s s' calls Hk Hst Hm H
    |cid k now span s s' calls Hk He Hw Hres|cid k now r span s s' calls Hk He Hw Hres|cur buf m m' r s s' calls H|pivot buf b m m' r s s' calls H
    |cur payload upper meta m m' r s s' calls H|ds meta r s s' calls H|cid ctx id n fl r s s' calls H|r s s' calls H|e s calls Hq He];
    intros O; pose proof (ok_queues _ O) as Hqs; cbn [fst] in Hqs.
  - rewrite next_id_run in Hn. destruct (_ <? _); [|done]. injection Hn as <- <-. pose proof (vacant_slot s) as Hfree. set (tag := vacant _) in *.
    apply (ok_caller s _ calls _ cid tag O).
    + apply calm_other_put. intros. by rewrite lookup_insert_ne.
    + intros y Hy. by rewrite lookup_insert_ne.
    + intros y k Hy Hk E. apply (ok_calls _ O) in Hk. apply in_progress_slot in Hk as [st Hst]. cbn in Hst. congruence.
    + rewrite lookup_insert_eq. intros k [= <-]. split; [done|]. split; [done|]. cbn. split; [apply Hmk|]. unfold slot. cbn. apply lookup_insert_eq.
  - eapply ok_calm; [|done]. rewrite next_id_run in Hn. injection Hn as _ <-. eapply calm_trans; [apply calm_new_slot|].
    eapply keeps_drop_response; [|exact Hd]. by apply calm_new_slot.
  - apply ok_delete. eapply ok_calm; [|done]. by eapply keeps_drop_response.
  - eapply ok_goes_on; [done|done|done|apply calm_other_refl|]. destruct (ok_calls _ O _ _ Hk) as [Ha H]. rewrite Hst in H. split; [done|]. cbn. done.
  - destruct (advance_run s cid k fds sqe n m Hqs (ok_calls _ O _ _ Hk) Hst Hm) as (s1 & H1 & C & Hp & _). rewrite H in H1. injection H1 as <-.
    by eapply ok_goes_on.
  - destruct (resume_calm _ _ _ _ _ _ _ _ O Hk He Hres) as [C Hs]. eapply ok_goes_on; [done|done|done|done|]. destruct (ok_calls _ O _ _ Hk) as [Ha Hp].
    split; [by apply C|]. cbn. unfold entered, next_step in He. destruct (k_stage k) as [|fds sqe n]; [done|]. destruct Hp as [E _]. split; [done|].
    case_decide; [exfalso; by destruct n as [|[|[|]]]; [..|lia]|]. left. by apply Hs.
  - destruct (resume_calm _ _ _ _ _ _ _ _ O Hk He Hres) as [C _]. by eapply ok_ends.
  - eapply ok_calm; [|done]. exact (keeps_ui_write cur buf (s, m) _ (s', m') Hqs H).
  - eapply ok_calm; [|done]. exact (keeps_ui_read pivot buf b (s, m) _ (s', m') Hqs H).
  - eapply ok_calm; [|done]. exact (keeps_call_fdread cur payload upper meta (s, m) _ (s', m') Hqs H).
  - eapply ok_calm; [|done]. by eapply keeps_call_fdwrite.
  - eapply ok_calm; [|done]. by eapply keeps_request_fmap.
  - eapply ok_calm; [|done]. by eapply keeps_unmount.
  - destruct O as [_ Hc Ht]. cbn in *. split; cbn; [done| |].
    + intros cid k Hk. rewrite map_lookup_imap in Hk. destruct (calls !! cid) as [k0|] eqn:E; [|done]. injection Hk as <-. apply disturb_progress; eauto.
    + intros cid cid' k k' Hk Hk'. rewrite map_lookup_imap in Hk, Hk'. destruct (calls !! cid) as [k0|] eqn:E; [|done]. destruct (calls !! cid') as [k1|] eqn:E'; [|done].
      injection Hk as <-. injection Hk' as <-. cbn. by apply Ht.
Qed.

Lemma reachable_ok x : reachable x -> calls_ok x.
Proof.
  induction 1 as [s Hq|act x y _ IH Hst]; [|by eapply ok_step]. split; cbn; [done|by intros ? ? ?%lookup_empty_Some|by intros ? ? ? ? ?%lookup_empty_Some].
Qed.

(** C11: No answer is lost.  The steps of a call before it first gives up the CPU,
    spurious wake-ups, responses, cancellations, other operations of the scheme and
    the rest of the kernel may interleave in any way.  A step of a call never
    fails.  A context that has made them and sleeps has a request in the
    scheme's table that is waiting for exactly this context, so that a response
    will wake it; once the response is there the context is awake; and no two calls
    share a tag.  The exception is a context that other code puts back to sleep
    after its request was answered, as [try_stop_context] does when the response
    came while the context was stopped ([user_stop_loses_answer]). *)
Theorem user_no_lost_answer (s : St) (calls : gmap Z Call) (cid : Z) (k : Call) :
  reachable (s, calls) -> calls !! cid = Some k ->
  (forall m, next_step cid k = Some m -> exists s', m s = Done (tt, s')) /\
  (entered cid k -> sleeping s cid -> k_put_back k = false ->
     exists fds callee can ex, slot s (k_tag k) = Some (Waiting cid fds callee can ex)) /\
  (forall r, slot s (k_tag k) = Some (Responded r) -> sleeping s cid -> k_put_back k = true) /\
  (forall cid' k', calls !! cid' = Some k' -> k_tag k' = k_tag k -> cid' = cid).
Proof.
  intros R Hk. apply reachable_ok in R. pose proof (ok_calls _ R _ _ Hk) as Hp. pose proof (ok_queues _ R) as Hq. cbn in Hp, Hq. split_and!.
  - intros m Hm. destruct (k_stage k) as [|fds sqe n] eqn:Hst; [unfold next_step in Hm; by rewrite Hst in Hm|].
    destruct (advance_run s cid k fds sqe n m Hq Hp Hst Hm) as (s' & H & _). by exists s'.
  - intros He Hsl Hb. destruct (entered_answerable _ _ _ Hp He) as [?|[_ Hw]]; [done|]. by destruct (Hw Hb).
  - intros r Hr Hsl. destruct (in_progress_answerable _ _ _ Hp) as [(?&?&?&?&?)|[_ Hw]]; [congruence..|].
    destruct (k_put_back k); [done|]. by destruct (Hw eq_refl).
  - intros cid' k' Hk' E. by eapply (ok_tags _ R).
Qed.

(** ** Answers *)

(** What the caller gets for a response: [ECANCELED] and [EINTR] are adjusted, and
    [MultipleFds] carries the descriptors the scheme attached. *)
Definition answer (canceling : bool) (fds : option (list Z)) (r : Response) : Response :=
  match convert canceling r with MultipleFds _ => MultipleFds fds | r => r end.

Lemma respond_waiting cur tag r cid fds callee can ex res (s s' : St) : queues_ok (u_es s) ->
  slot s tag = Some (Waiting cid fds callee can ex) -> is_Some (ctx_of s cid) -> respond cur tag r s = Done (res, s') ->
  slot s' tag = Some (Responded (answer can fds r)) /\ ~ sleeping s' cid /\ calm s s'.
Proof.
  intros Hq Hs Ha H. pose proof (keeps_respond _ _ _ _ _ _ Hq H) as C.
  assert (Hr : slot s' tag = Some (Responded (answer can fds r))).
  { revert H. unfold respond. rewrite (bind_Done _ _ s s s) by done. fold (slot s tag). rewrite Hs.
    replace (match convert can r with MultipleFds _ => (MultipleFds fds, None) | _ => (convert can r, fds) end)
      with (answer can fds r, match convert can r with MultipleFds _ => None | _ => fds end) by (unfold answer; by destruct (convert can r)).
    intros (tc & s1 & H1 & H2)%bind_Done_inv. destruct (unwrap_all_same _ _ _ _ H1) as [He Hi].
    pose proof (keeps_unwrap_all _ _ _ _ Hq H1) as C1. rewrite bool_decide_eq_true_2 in H2 by done.
    apply bind_Done_inv in H2 as (u & s2 & H2 & H3).
    assert (C2 : calm s1 s2) by (eapply calm_answer; [unfold slot; rewrite Hi; exact Hs|exact H2]).
    assert (C3 : calm s2 s').
    { assert (Hq2 : queues_ok (u_es s2)) by (by apply C2, C1). apply (keeps_run _ _ _ _ H3 Hq2).
      apply keeps_bind_result; [apply keeps_space|]. intros _. apply keeps_bind; [|intros; apply keeps_ret].
      apply keeps_forM. intros d. apply keeps_bind; [apply keeps_try_close|intros; apply keeps_ret]. }
    apply C3. rewrite (bind_Done _ _ _ _ _ (set_states_run _ s1)) in H2. apply bind_Done_inv in H2 as (b & s3 & Hu & [= <- <-]).
    unfold in_sched, zoom in Hu. destruct (unblock _ _) as [[? x]|]; [|done]. injection Hu as <- <-. unfold slot. cbn. apply lookup_insert_eq. }
  split_and!; [done| |done]. destruct (cm_waiting _ _ C _ _ _ _ _ _ Hs Ha) as [(?&?&?&?&H')|[_ H']]; [congruence|done].
Qed.

(** Steps of everyone, but that [cid] does not run its loop. *)
Definition others (cid : Z) : Config -> Config -> Prop := rtc (fun x y => exists act, act <> Some cid /\ step act x y).
(** The same call, a few steps on and perhaps marked. *)
Definition same_call (k k' : Call) : Prop := k_tag k' = k_tag k /\ k_expiry k' = k_expiry k /\ k_span k' = k_span k.

Lemma answered_step act x y cid k r : calls_ok x -> act <> Some cid -> step act x y -> x.2 !! cid = Some k ->
  slot x.1 (k_tag k) = Some (Responded r) -> exists k', y.2 !! cid = Some k' /\ same_call k k' /\ slot y.1 (k_tag k) = Some (Responded r).
Proof.
  intros O Hact Hst. revert O Hact. destruct Hst as [me fds mk timeout span tag s s' calls Hno Ha Hmk Hn|fds e u s s1 s' calls Hn Hd
    |me k1 fds sqe timeout u s s' calls Hk1 Hst Hu Hd|me k1 fds sqe timeout now s calls Hk1 Hst Hu|me k1 fds sqe n m s s' calls Hk1 Hst Hm H
    |me k1 now span s s' calls Hk1 He Hw Hres|me k1 now r1 span s s' calls Hk1 He Hw Hres|cur buf m m' r1 s s' calls H|pivot buf b m m' r1 s s' calls H
    |cur payload upper meta m m' r1 s s' calls H|ds meta r1 s s' calls H|me ctx id n fl r1 s s' calls H|r1 s s' calls H|e s calls Hq He];
    intros O Hact Hk Hs; pose proof (ok_queues _ O) as Hqs; cbn [fst snd] in *.
  all: assert (Hcalm : forall s', calm s s' -> exists k', calls !! cid = Some k' /\ same_call k k' /\ slot s' (k_tag k) = Some (Responded r))
         by (intros t C; exists k; split_and!; [done|done|by apply C]).
  - rewrite next_id_run in Hn. destruct (_ <? _); [|done]. injection Hn as <- <-. exists k. rewrite lookup_insert_ne by congruence. split_and!; [done|done|].
    unfold slot. cbn. rewrite lookup_insert_ne; [done|]. intros E. pose proof (vacant_slot s). congruence.
  - apply Hcalm. rewrite next_id_run in Hn. injection Hn as _ <-. eapply calm_trans; [apply calm_new_slot|]. eapply keeps_drop_response; [|exact Hd]. by apply calm_new_slot.
  - destruct (decide (cid = me)) as [<-|Hne].
    + destruct (ok_calls _ O _ _ Hk) as [_ Hp]. rewrite Hk in Hk1. injection Hk1 as ->. cbn in Hp. rewrite Hst in Hp. destruct Hp. congruence.
    + rewrite lookup_delete_ne by done. apply Hcalm. by eapply keeps_drop_response.
  - destruct (decide (cid = me)) as [<-|Hne].
    + destruct (ok_calls _ O _ _ Hk) as [_ Hp]. rewrite Hk in Hk1. injection Hk1 as ->. cbn in Hp. rewrite Hst in Hp. destruct Hp. congruence.
    + exists k. by rewrite lookup_insert_ne.
  - destruct (advance_run s me k1 fds sqe n m Hqs (ok_calls _ O _ _ Hk1) Hst Hm) as (s1 & H1 & C & _ & Hsl). rewrite H in H1. injection H1 as <-.
    destruct (decide (cid = me)) as [<-|Hne].
    + rewrite Hk in Hk1. injection Hk1 as <-. rewrite lookup_insert_eq. eexists. split_and!; [done|done|by apply Hsl].
    + exists k. rewrite lookup_insert_ne by done. split_and!; [done|done|]. rewrite (co_slots _ _ _ _ C); [done|]. intros E. apply Hne. by eapply (ok_tags _ O).
  - assert (Hne : cid <> me) by congruence. exists k. rewrite lookup_insert_ne by done. destruct (resume_calm _ _ _ _ _ _ _ _ O Hk1 He Hres) as [C _].
    split_and!; [done|done|]. rewrite (co_slots _ _ _ _ C); [done|]. intros E. apply Hne. by eapply (ok_tags _ O).
  - assert (Hne : cid <> me) by congruence. exists k. rewrite lookup_delete_ne by done. destruct (resume_calm _ _ _ _ _ _ _ _ O Hk1 He Hres) as [C _].
    split_and!; [done|done|]. rewrite (co_slots _ _ _ _ C); [done|]. intros E. apply Hne. by eapply (ok_tags _ O).
  - apply Hcalm. exact (keeps_ui_write cur buf (s, m) _ (s', m') Hqs H).
  - apply Hcalm. exact (keeps_ui_read pivot buf b (s, m) _ (s', m') Hqs H).
  - apply Hcalm. exact (keeps_call_fdread cur payload upper meta (s, m) _ (s', m') Hqs H).
  - apply Hcalm. by eapply keeps_call_fdwrite.
  - apply Hcalm. by eapply keeps_request_fmap.
  - apply Hcalm. by eapply keeps_unmount.
  - eexists. rewrite map_lookup_imap, Hk. by split_and!.
Qed.

Lemma answered_others x y cid k r : others cid x y -> calls_ok x -> x.2 !! cid = Some k -> slot x.1 (k_tag k) = Some (Responded r) ->
  calls_ok y /\ exists k', y.2 !! cid = Some k' /\ same_call k k' /\ slot y.1 (k_tag k) = Some (Responded r).
Proof.
  intros Ho. revert k. induction Ho as [x|x y z (act & Hact & Hst) _ IH]; intros k O Hk Hs; [split; [done|]; exists k; by split_and!|].
  destruct (answered_step _ _ _ _ _ _ O Hact Hst Hk Hs) as (k1 & Hk1 & (E1 & E2 & E3) & Hs1). rewrite <- E1 in Hs1.
  destruct (IH k1 (ok_step _ _ _ O Hst) Hk1 Hs1) as (Oz & k2 & Hk2 & (F1 & F2 & F3) & Hs2). split; [done|]. exists k2.
  unfold same_call. by rewrite <- E1, <- E2, <- E3.
Qed.

(** C12: A response reaches the call it answers.  When the scheme responds to the
    tag of a call that waits, then, whatever everyone else does in between, the
    next time the caller runs its call returns that response (with
    [ECANCELED] and [EINTR] adjusted), or [ETIMEDOUT] if the response says that the
    request was canceled and the deadline has passed; the slot is free again.
    Until then the caller is awake, unless other code puts it back to sleep
    ([user_stop_loses_answer]). *)
Theorem user_call_answered (s : St) (calls : gmap Z Call) (cid : Z) (k : Call) cur r fds callee can ex res s1 y now :
  reachable (s, calls) -> calls !! cid = Some k -> slot s (k_tag k) = Some (Waiting cid fds callee can ex) ->
  respond cur (k_tag k) r s = Done (res, s1) -> others cid (s1, calls) y ->
  exists c k', ctx_of y.1 cid = Some c /\ y.2 !! cid = Some k' /\ same_call k k' /\ (k_put_back k' = false -> ~ sleeping y.1 cid) /\
    call_resume cid (k_tag k) (k_expiry k) now (k_span k) y.1 =
      Done (RDone (if canceled_code (answer can fds r) && bool_decide (is_Some (k_expiry k)) && bool_decide (wake c = None)
                   then Err ETIMEDOUT else Ok (answer can fds r)),
            k_span k, put_states (delete (k_tag k)) y.1).
Proof.
  intros R Hk Hs Hr Ho. apply reachable_ok in R. pose proof (ok_queues _ R) as Hq. destruct (ok_calls _ R _ _ Hk) as [Ha _]. cbn in Ha, Hq.
  destruct (respond_waiting _ _ _ _ _ _ _ _ _ _ _ Hq Hs Ha Hr) as (Hs1 & _ & C).
  destruct (answered_others _ _ _ _ _ Ho (ok_calm _ _ _ C R) Hk Hs1) as (Oy & k' & Hky & Hsame & Hsy).
  pose proof (ok_calls _ Oy _ _ Hky) as Hp. destruct (proj1 Hp) as [c Hc]. exists c, k'. split_and!; try done; [|by apply resume_responded].
  rewrite <- (proj1 Hsame) in Hsy. destruct (in_progress_answerable _ _ _ Hp) as [(?&?&?&?&?)|[_ ?]]; [congruence..|done].
Qed.

(** A deadline does not end a call.  A call whose request has not been
    answered does not return, however late it is woken: unless the caller is being
    killed, it asks for cancellation once and waits again.  ([USER_SCHEME_TIMEOUT_NS]
    and [call_timeout] promise [ETIMEDOUT] when the scheme does not respond.) *)
Theorem user_unanswered_call_waits (s : St) (calls : gmap Z Call) (cid : Z) (k : Call) fds callee can ex c now :
  reachable (s, calls) -> calls !! cid = Some k -> slot s (k_tag k) = Some (Waiting cid fds callee can ex) ->
  ctx_of s cid = Some c -> being_sigkilled c = false ->
  exists s', call_resume cid (k_tag k) (k_expiry k) now (k_span k) s = Done (RAgain, k_span k, s') /\
    slot s' (k_tag k) = Some (Waiting cid fds callee true ex) /\
    wq_inner (todo (u_inner s')) = wq_inner (todo (u_inner s)) ++ (if can then [] else [cancel_sqe (k_tag k)]).
Proof.
  intros R Hk Hs Hc Hkill. apply reachable_ok in R. pose proof (ok_queues _ R) as Hq. cbn in Hq.
  destruct (resume_waiting cid _ (k_expiry k) now (k_span k) _ _ _ _ c s Hq Hc Hs) as (s' & H1 & _ & H2 & H3).
  rewrite Hkill in *. cbn [andb] in *. rewrite orb_false_r in H3. exists s'. done.
Qed.

(** ** Corner cases *)

(** A caller that is being killed when it is woken after its deadline waits
    again, with its span handed to the scheme; when it is woken once more the span
    is overwritten with the empty one the caller has by then, and no one unmaps it. *)
Lemma user_killed_twice_loses_span cid tag expiry now now' span fds e c c2 (s s2 : St) :
  queues_ok (u_es s) -> ctx_of s cid = Some c -> being_sigkilled c = true -> e <= now ->
  slot s tag = Some (Waiting cid fds PageSpan_empty false (Some e)) ->
  exists s1, call_resume cid tag expiry now span s = Done (RAgain, PageSpan_empty, s1) /\
    slot s1 tag = Some (Waiting cid fds span true (Some e)) /\
    (slot s2 tag = slot s1 tag -> queues_ok (u_es s2) -> ctx_of s2 cid = Some c2 -> being_sigkilled c2 = true ->
     exists s3, call_resume cid tag expiry now' PageSpan_empty s2 = Done (RDone (Err EINTR), PageSpan_empty, s3) /\
       slot s3 tag = Some (Waiting cid fds PageSpan_empty true (Some e))).
Proof.
  intros Hq Hc Hk He Hs. destruct (resume_waiting cid tag expiry now span _ _ _ _ c s Hq Hc Hs) as (s1 & H1 & _ & Hs1 & _).
  cbn [is_timed_out] in H1. rewrite Hk, (proj2 (Z.leb_le e now) He) in *. cbn [andb orb negb] in *. exists s1. split_and!; [done|done|].
  intros E Hq2 Hc2 Hk2. rewrite Hs1 in E. destruct (resume_waiting cid tag expiry now' PageSpan_empty _ _ _ _ c2 s2 Hq2 Hc2 E) as (s3 & H3 & _ & Hs3 & _).
  rewrite Hk2 in *. cbn [andb orb] in *. eauto.
Qed.

(** Obtaining a descriptor of a request that came with an empty list of them
    panics in [Vec::remove(0)]. *)
Lemma user_obtain_empty_panics cur tag fl dst cid callee can ex (s : St) m :
  slot s tag = Some (Waiting cid (Some []) callee can ex) -> handle_parsed cur (PObtainFd tag fl dst) (s, m) = Panic.
Proof.
  intros Hs. unfold handle_parsed, handle_obtain, take_fds. unfold bind_result, bind at 1. unfold in_user, zoom. cbn [fst].
  rewrite (bind_Done _ _ s s s) by done. fold (slot s tag). rewrite Hs. rewrite (bind_Done _ _ _ _ _ (set_states_run _ s)). done.
Qed.

(** A call to a scheme that is being unmounted takes a slot and keeps it. *)
Lemma user_unmounting_leaks_slot cid ctx opcode args timeout now (s : St) : let tag := vacant (states (u_inner s)) in
  unmounting (u_inner s) = true -> tag < 2 ^ 32 ->
  exists s', call_extended cid ctx None opcode args timeout now s = Done (Err ENODEV, s') /\ slot s tag = None /\ slot s' tag = Some Placeholder.
Proof.
  intros tag Hu Ht. exists (put_states <[tag := Placeholder]> s). split_and!; [|apply vacant_slot|unfold slot; cbn; apply lookup_insert_eq].
  unfold call_extended, or_drop_fds, bind_result. rewrite bind_assoc, (bind_Done _ _ _ _ _ (next_id_run s)). fold tag. rewrite (proj2 (Z.ltb_lt _ _) Ht).
  unfold call_begin. rewrite !bind_assoc. rewrite (bind_Done get_state _ _ _ _ eq_refl). cbn. by rewrite Hu.
Qed.
End lts.

(** ** A scheme with one caller *)

Module UserWitnesses.
#[local] Instance ev : EventParams := {| EV_READ := 1; EV_WRITE := 2; iter_watchers := map_to_list |}.
#[local] Instance ev_laws : EventLaws.
Proof. split. intros w. reflexivity. Qed.
#[local] Instance params : UserParams := {|
  vacant := fun m => fresh (dom m : gset Z); mux_err := fun e => match e with ECANCELED => 1000 | EINTR => 1001 | EIO => 1002 | _ => 1003 end;
  demux := fun z => Ok z; SQE_SIZE := 64; sqe_to_bytes := fun _ => []; CQE_SIZE := 16; cqe_of_bytes := fun _ => mkCqe 0 0 0 0 0;
  cqe_opcode := fun _ => None; event_flags_from_bits := Some; fobtainfd_from_bits := Some; MANUAL_FD := 1; socket_call := fun _ => None;
  UPPER_FDTBL_TAG := 2 ^ 62 |}.
#[local] Instance laws : UserLaws.
Proof. split. intros m. apply (not_elem_of_dom (D := gset Z)). apply (is_fresh (dom m : gset Z)). Qed.
#[local] Instance no_memory : SpaceApi unit := {| current_munmap := fun _ _ => ok tt; current_translate := fun _ _ _ => Ok None |}.

Definition awake : Ctx := set_status Runnable "" new_ctx.
(** The scheme runs in context 1, its callers in contexts 7 and 8. *)
Definition idle : @UserState unit :=
  mkUS (ui_new 16 17 true 0 "disk" 1) (mkES ∅ ∅ ∅ 0 (mkSched {[1 := awake; 7 := awake; 8 := awake]} 0 ∅ 0)) tt (mkHeap ∅ 0) ∅ [] ∅.
Lemma idle_queues : queues_ok (u_es idle).
Proof. intros q Hq. cbn in Hq. set_solver. Qed.

Definition rq : Request := mkReq OFstat [5; 0x1000; 88] None (Some USER_SCHEME_TIMEOUT_NS).
Definition asked : @UserState unit := match user_begin 7 (mkCaller 3 0 0) rq 100 idle with Done (_, s) => s | Panic => idle end.
Definition the_sqe : Sqe := mk_sqe (mkCaller 3 0 0) OFstat [5; 0x1000; 88] 0.
Definition the_call : Call := mkCall 0 (Some 5000000100) (PageSpan_new (Page_containing_address 0x1000) 1) (Steps None the_sqe 6) false.
Lemma asked_reachable : reachable (asked, {[7 := the_call]}).
Proof.
  apply (reachable_rtc (idle, ∅)); [apply reach_start, idle_queues|].
  apply (begin_with_trace 7 None (mk_sqe (mkCaller 3 0 0) OFstat [5; 0x1000; 88]) (Some USER_SCHEME_TIMEOUT_NS) 100
           (PageSpan_new (Page_containing_address 0x1000) 1) the_sqe idle asked ∅); [done|by eexists|done|by vm_compute].
Qed.
Example asked_sleeps : sleeping asked 7 /\ slot asked 0 = Some (Waiting 7 None PageSpan_empty false (Some 5000000100)).
Proof. by vm_compute. Qed.

Lemma user_no_lost_answer_witness :
  sleeping asked 7 /\
  (forall m, next_step 7 the_call = Some m -> exists s', m asked = Done (tt, s')) /\
  (entered (Mem := unit) 7 the_call -> sleeping asked 7 -> k_put_back the_call = false ->
     exists fds callee can ex, slot asked (k_tag the_call) = Some (Waiting 7 fds callee can ex)) /\
  (forall r, slot asked (k_tag the_call) = Some (Responded r) -> sleeping asked 7 -> k_put_back the_call = true) /\
  (forall cid' k', ({[7 := the_call]} : gmap Z Call) !! cid' = Some k' -> k_tag k' = k_tag the_call -> cid' = 7).
Proof. split; [by vm_compute|]. apply (user_no_lost_answer asked {[7 := the_call]} 7 the_call asked_reachable). by vm_compute. Defined.

Definition answered : @UserState unit := match respond 1 0 (Regular 0 0) asked with Done (_, s) => s | Panic => asked end.
Definition calls : gmap Z Call := {[7 := the_call]}.
Lemma user_call_answered_witness : exists c k', ctx_of answered 7 = Some c /\ calls !! 7 = Some k' /\
    same_call the_call k' /\ (k_put_back k' = false -> ~ sleeping answered 7) /\
    call_resume 7 (k_tag the_call) (k_expiry the_call) 200 (k_span the_call) answered =
      Done (RDone (if canceled_code (answer false None (Regular 0 0)) && bool_decide (is_Some (k_expiry the_call)) && bool_decide (wake c = None)
                   then Err ETIMEDOUT else Ok (answer false None (Regular 0 0))),
            k_span the_call, put_states (delete (k_tag the_call)) answered).
Proof.
  refine (user_call_answered asked calls 7 the_call 1 (Regular 0 0) None PageSpan_empty false (Some 5000000100) (Ok tt) answered
           (answered, calls) 200 asked_reachable _ _ _ _); [by vm_compute..|apply rtc_refl].
Defined.

(** [try_stop_context] of the caller, around the response: the status that it saved
    before the response is written back after it. *)
Definition stopped_over : EventState :=
  let e := u_es answered in
  match ctxs (e_sched e) !! 7 with
  | Some c => mkES (registry e) (queue_heap e) (queue_list e) (NEXT_QUEUE_ID e) (set_ctx 7 (set_status Blocked (status_reason c) c) (e_sched e))
  | None => e
  end.
(** The answer of a caller that is stopped while the scheme responds is lost: the
    caller sleeps although its request has been answered, and nothing of the scheme
    will wake it. *)
Theorem user_stop_loses_answer : exists k, others 7 (answered, calls) (set_es stopped_over answered, {[7 := k]}) /\
  slot (set_es stopped_over answered) (k_tag k) = Some (Responded (Regular 0 0)) /\ sleeping (set_es stopped_over answered) 7.
Proof.
  exists (mkCall 0 (Some 5000000100) (k_span the_call) (Steps None the_sqe 6) true). split_and!; [|by vm_compute..].
  eapply rtc_once. exists None. split; [done|].
  replace {[7 := mkCall _ _ _ _ true]} with (map_imap (fun cid k => Some (disturb answered (e_sched stopped_over) cid k)) calls) by (by vm_compute).
  apply S_other.
  - assert (E : queue_list stopped_over = ∅) by (by vm_compute). intros q Hq. rewrite E in Hq. set_solver.
  - intros cid k. unfold calls. intros [<- <-]%lookup_singleton_Some. by eexists.
Qed.

(** Ten seconds later the call still waits. *)
Lemma user_unanswered_call_waits_witness : exists s', call_resume 7 0 (k_expiry the_call) 10000000000 (k_span the_call) asked = Done (RAgain, k_span the_call, s') /\
    slot s' 0 = Some (Waiting 7 None PageSpan_empty true (Some 5000000100)) /\
    wq_inner (todo (u_inner s')) = wq_inner (todo (u_inner asked)) ++ [cancel_sqe 0].
Proof.
  apply (user_unanswered_call_waits asked {[7 := the_call]} 7 the_call None PageSpan_empty false (Some 5000000100)
           (default awake (ctx_of asked 7)) 10000000000 asked_reachable); by vm_compute.
Defined.
End UserWitnesses.
