(* ===== verification/RootScheme.v ===== *)
(** * The root scheme (src/scheme/root.rs)

    The handles through which user-space schemes are created, served, unmounted
    and closed.  A [UserInner] is a shared object: [rs_inners] holds them by
    reference, also after their handle was closed, since callers keep them alive.
    Operations on a scheme handle are those of UserScheme.v on its object;
    [getdents] is not modelled. *)

From S2P Require Import Prelude PageInfo FrameAllocator Rmm OrdMap Grants CpuSet UserCopy Sync FdTbl Scheduler Event Schemes Files UserScheme UserCalls.
From Stdlib Require Import Ascii.

Inductive Handle :=
| HScheme (inner : Z)
| HFile (path : string)
| HList (ens : Z).

Record RootScheme := mkRoot {
  scheme_ns : Z;
  scheme_id : Z;
  rs_next_id : Z;
  handles : gmap Z Handle;
}.

(** [RootScheme::new] *)
Definition root_new (ns id : Z) : RootScheme := mkRoot ns id 0 ∅.

Record RootState := mkRS {
  rs_root : RootScheme;
  rs_list : SchemeList;
  rs_inners : gmap Z UserInner;
  rs_next_ref : Z;
}.

(** ** Paths *)

Definition slash : ascii := "/"%char.
Fixpoint trim_start (s : string) : string :=
  match s with
  | String c s' => if Ascii.eqb c slash then trim_start s' else s
  | EmptyString => s
  end.
Definition string_rev (s : string) : string := string_of_list_ascii (rev (list_ascii_of_string s)).
(** [trim_matches('/')] *)
Definition trim_both (s : string) : string := string_rev (trim_start (string_rev (trim_start s))).
Fixpoint has_slash (s : string) : bool :=
  match s with
  | String c s' => Ascii.eqb c slash || has_slash s'
  | EmptyString => false
  end.

Section root.
Context {FF : FileFlags} {EP : EventParams}.

Definition set_root (r : RootScheme) (s : RootState) : RootState := mkRS r (rs_list s) (rs_inners s) (rs_next_ref s).
Definition in_list {A} (m : M SchemeList A) : M RootState A :=
  zoom rs_list (fun l s => mkRS (rs_root s) l (rs_inners s) (rs_next_ref s)) m.
(** [self.next_id.fetch_add(1)] *)
Definition fetch_id : M RootState Z :=
  fun s => let r := rs_root s in
    Done (rs_next_id r, set_root (mkRoot (scheme_ns r) (scheme_id r) (usize_add (rs_next_id r) 1) (handles r)) s).
Definition set_handles (f : gmap Z Handle -> gmap Z Handle) : M RootState unit :=
  modify (fun s => let r := rs_root s in set_root (mkRoot (scheme_ns r) (scheme_id r) (rs_next_id r) (f (handles r))) s).
(** [Arc::new(UserInner::new(..))] *)
Definition inner_new (i : UserInner) : M RootState Z :=
  fun s => Done (rs_next_ref s, mkRS (rs_root s) (rs_list s) (<[rs_next_ref s := i]> (rs_inners s)) (rs_next_ref s + 1)).

Definition contains (flags bit : Z) : bool := Z.land flags bit =? bit.

(** [kopen]; [cur] and [ens] are the context that opens and its namespace. *)
Definition root_kopen (path : string) (flags uid cur ens : Z) : M RootState (result Error OpenResult) :=
  let path := trim_start path in
  if contains flags O_CREAT then
    if negb (uid =? 0) then err EACCES
    else if has_slash path then err EINVAL
    else
      let! id := fetch_id in
      if negb (contains flags O_FSYNC) then err EINVAL
      else
        let! s := get_state in
        let? sid := in_list (reserve_scheme (scheme_ns (rs_root s)) path) in
        let! p := inner_new (ui_new (scheme_id (rs_root s)) sid (contains flags O_EXLOCK) id path cur) in
        let? _ := in_list (complete_registration sid (KUser p)) in
        set_handles <[id := HScheme p]> ;;;
        ok (SchemeLocal id 0)
  else if String.eqb path "" then
    let! id := fetch_id in
    set_handles <[id := HList ens]> ;;;
    ok (SchemeLocal id POSITIONED)
  else
    let! id := fetch_id in
    set_handles <[id := HFile path]> ;;;
    ok (SchemeLocal id POSITIONED).

Definition root_close (file : Z) : M RootState (result Error unit) :=
  let! s := get_state in
  match handles (rs_root s) !! file with
  | None => err EBADF
  | Some handle =>
      set_handles (delete file) ;;;
      match handle with
      | HScheme p =>
          match rs_inners s !! p with
          | None => panic
          | Some i => in_list (sl_remove (ui_scheme_id i)) ;;; ok tt
          end
      | _ => ok tt
      end
  end.

(** [unlinkat]: the scheme to unmount.  [find] is the order in which the hash map
    of handles is searched. *)
Definition root_unlinkat (find : gmap Z Handle -> list (Z * Handle)) (fd : Z) (path : string) (uid : Z) (s : RootState) : result Error Z :=
  let path := trim_both path in
  match handles (rs_root s) !! fd with
  | None => Err ENOENT
  | Some (HList ens) =>
      if negb (uid =? 0) then Err EACCES
      else match get_name (rs_list s) ens path with
           | None => Err ENODEV
           | Some _ =>
               match list_find (fun e => match e.2 with
                                         | HScheme p => match rs_inners s !! p with Some i => bool_decide (path = ui_name i) | None => false end
                                         | _ => false
                                         end = true) (find (handles (rs_root s))) with
               | Some (_, (_, HScheme p)) => Ok p
               | _ => Err ENOENT
               end
           end
  | Some _ => Err EPERM
  end.

Definition get_handle (s : RootState) (file : Z) : result Error Handle :=
  match handles (rs_root s) !! file with Some h => Ok h | None => Err EBADF end.

(** The object that [kreadoff], [kwrite], [kfdwrite] and [kfdread] go to. *)
Definition root_stream (s : RootState) (file : Z) : result Error Z :=
  match get_handle s file with
  | Err e => Err e
  | Ok (HScheme p) => Ok p
  | Ok (HFile _) => Err EBADF
  | Ok (HList _) => Err EISDIR
  end.

Definition root_fsize (s : RootState) (file : Z) : result Error Z :=
  match get_handle s file with
  | Err e => Err e
  | Ok (HScheme _) | Ok (HFile _) => Err EBADF
  | Ok (HList _) => Ok 0
  end.

Definition root_fevent (s : RootState) (file flags : Z) : result Error Z :=
  match get_handle s file with
  | Err e => Err e
  | Ok (HScheme p) => match rs_inners s !! p with Some i => ui_fevent i flags | None => Err EBADF end
  | Ok _ => Err EBADF
  end.

Definition root_fsync (s : RootState) (file : Z) : result Error unit :=
  match get_handle s file with
  | Err e => Err e
  | Ok (HScheme _) => Ok tt
  | Ok _ => Err EBADF
  end.

(** [kfstat]: whether the mode is [MODE_DIR]; it is [MODE_FILE] otherwise. *)
Definition root_is_dir (s : RootState) (file : Z) : result Error bool :=
  match get_handle s file with
  | Err e => Err e
  | Ok (HList _) => Ok true
  | Ok _ => Ok false
  end.

Definition bytes_of (s : string) : list Z := map (fun c => Z.of_nat (nat_of_ascii c)) (list_ascii_of_string s).

Definition root_kfpath (s : RootState) (file : Z) (buf : UserSlice) : M UserMem (result Error Z) :=
  match get_handle s file with
  | Err e => err e
  | Ok h =>
      let? n := copy_common_bytes_from_slice buf (bytes_of ":") in
      match advance buf n with
      | None => err EINVAL
      | Some buf =>
          match h with
          | HScheme p =>
              match rs_inners s !! p with
              | None => panic
              | Some i => let? k := copy_common_bytes_from_slice buf (bytes_of (ui_name i)) in ok (n + k)
              end
          | HFile path => let? k := copy_common_bytes_from_slice buf (bytes_of path) in ok (n + k)
          | HList _ => ok n
          end
      end
  end.
End root.
