(* ===== verification/RootSchemeSpec.v ===== *)
(** * Theorems about the root scheme

    Creating and closing user-space schemes: the handles and the list of schemes
    agree, so that closing never fails an assertion. *)

From S2P Require Import Prelude PageInfo FrameAllocator Rmm OrdMap Grants CpuSet UserCopy Sync FdTbl Scheduler Event Schemes SchemesSpec Files UserScheme UserCalls RootScheme.

Section spec.
Context {BC : BuildConfig} {FF : FileFlags} {EP : EventParams}.

(** ** The invariant *)

(** Every scheme handle refers to an object that is registered under its id. *)
Record root_ok (s : RootState) : Prop := mkRootOk {
  ro_list : sl_wf ∅ (rs_list s);
  ro_root : map_ (rs_list s) !! scheme_id (rs_root s) = Some (KRoot (scheme_ns (rs_root s)) (scheme_id (rs_root s)));
  ro_handles : forall h p, handles (rs_root s) !! h = Some (HScheme p) ->
    exists i, rs_inners s !! p = Some i /\ map_ (rs_list s) !! ui_scheme_id i = Some (KUser p) /\ handle_id i = h;
  ro_refs : forall p, is_Some (rs_inners s !! p) -> p < rs_next_ref s;
  ro_ids : forall h, is_Some (handles (rs_root s) !! h) -> 0 <= h < rs_next_id (rs_root s);
  ro_next : 0 <= rs_next_id (rs_root s);
}.

(** Counters that do not wrap. *)
Definition root_small (s : RootState) : Prop := small (rs_list s) /\ rs_next_id (rs_root s) + 1 < 2 ^ 64.

(** ** Creating a scheme *)

(** The state after a user scheme was created. *)
Definition created (path : string) (flags cur sid : Z) (s : RootState) : RootState :=
  let r := rs_root s in
  mkRS (mkRoot (scheme_ns r) (scheme_id r) (rs_next_id r + 1) (<[rs_next_id r := HScheme (rs_next_ref s)]> (handles r)))
       (registered (scheme_ns r) path sid (rs_next_ref s) (rs_list s))
       (<[rs_next_ref s := ui_new (scheme_id r) sid (contains flags O_EXLOCK) (rs_next_id r) path cur]> (rs_inners s))
       (rs_next_ref s + 1).

Lemma root_space s : root_ok s -> 1 <= scheme_ns (rs_root s) < next_ns (rs_list s).
Proof. intros R. by apply (wf_roots _ _ (ro_list _ R) _ _ _ (ro_root _ R)). Qed.
Lemma root_space_names s : root_ok s -> is_Some (names (rs_list s) !! scheme_ns (rs_root s)).
Proof. intros R. apply (wf_spaces _ _ (ro_list _ R)). pose proof (root_space s R). lia. Qed.

Lemma root_create_run path flags cur ens s : root_ok s -> root_small s ->
  contains flags O_CREAT = true -> contains flags O_FSYNC = true -> has_slash (trim_start path) = false ->
  names_at (rs_list s) (scheme_ns (rs_root s)) (trim_start path) = None ->
  exists sid, root_kopen path flags 0 cur ens s = Done (Ok (SchemeLocal (rs_next_id (rs_root s)) 0), created (trim_start path) flags cur sid s) /\
    map_ (rs_list s) !! sid = None /\ 1 <= sid.
Proof.
  intros R [Hsm Hid] Hc Hf Hsl Hn. set (n := trim_start path) in *.
  destruct (reserve_run (scheme_ns (rs_root s)) n (rs_list s) (wf_ids_left _ _ (ro_list _ R) Hsm) (root_space_names s R) Hn) as (sid & Hr & Hsid & Hp).
  exists sid. split; [|done]. unfold root_kopen. fold n. rewrite Hc, Hsl. cbn [Z.eqb negb].
  rewrite (bind_Done fetch_id _ _ _ _ eq_refl). rewrite Hf. cbn [negb]. pose proof (ro_next _ R). rewrite usize_add_small by lia.
  rewrite (bind_Done get_state _ _ _ _ eq_refl). cbn [rs_root scheme_ns scheme_id set_root]. unfold bind_result.
  erewrite bind_Done; [|unfold in_list, zoom; cbn [rs_list set_root]; rewrite Hr; reflexivity]. cbn beta iota.
  erewrite bind_Done; [|reflexivity]. erewrite bind_Done; [|unfold in_list, zoom; cbn [rs_list set_root rs_next_ref]; rewrite complete_run by done; reflexivity].
  reflexivity.
Qed.

Lemma created_ok path flags cur sid s : root_ok s -> map_ (rs_list s) !! sid = None -> 1 <= sid -> path <> ""%string ->
  root_ok (created path flags cur sid s).
Proof.
  intros R Hsid Hp Hne. pose proof (ro_refs _ R) as Href. pose proof (ro_next _ R) as Hnx. assert (Hfr : rs_inners s !! rs_next_ref s = None).
  { apply eq_None_not_Some. intros H%Href. lia. }
  split; cbn [created rs_list rs_root rs_inners rs_next_ref handles rs_next_id scheme_id scheme_ns].
  - apply wf_with_name; [|cbn; by apply root_space|left; cbn; rewrite lookup_insert_eq; by eexists|done].
    replace ∅ with ((∅ : gset Z) ∖ {[sid]}) by set_solver. apply (wf_map_insert ∅ (mkSL _ _ _ (sid + 1))); [|done|done].
    apply wf_set_next_id; [apply R|lia].
  - cbn. rewrite lookup_insert_ne; [apply R|]. intros E. rewrite E in Hsid. by rewrite (ro_root _ R) in Hsid.
  - intros h p. destruct (decide (h = rs_next_id (rs_root s))) as [->|Hh].
    + rewrite lookup_insert_eq. intros [= <-]. eexists. rewrite lookup_insert_eq. split; [done|]. cbn. by rewrite lookup_insert_eq.
    + rewrite lookup_insert_ne by done. intros (i & Hi & Hm & Hd)%(ro_handles _ R). exists i. rewrite lookup_insert_ne by congruence.
      split; [done|]. cbn. rewrite lookup_insert_ne by congruence. done.
  - intros p. destruct (decide (p = rs_next_ref s)) as [->|]; [lia|]. rewrite lookup_insert_ne by done. intros H%Href. lia.
  - intros h. destruct (decide (h = rs_next_id (rs_root s))) as [->|]; [lia|]. rewrite lookup_insert_ne by done. intros H%(ro_ids _ R). lia.
  - lia.
Qed.

(** ** Closing *)

Definition without (file : Z) (f : SchemeList -> SchemeList) (s : RootState) : RootState :=
  let r := rs_root s in
  mkRS (mkRoot (scheme_ns r) (scheme_id r) (rs_next_id r) (delete file (handles r))) (f (rs_list s)) (rs_inners s) (rs_next_ref s).
Definition unlisted (id : Z) (l : SchemeList) : SchemeList := mkSL (delete id (map_ l)) (remove_names id <$> names l) (next_ns l) (Schemes.next_id l).

Lemma root_close_run file s : root_ok s ->
  root_close file s = match handles (rs_root s) !! file with
                      | None => Done (Err EBADF, s)
                      | Some (HScheme p) => match rs_inners s !! p with
                                            | Some i => Done (Ok tt, without file (unlisted (ui_scheme_id i)) s)
                                            | None => Panic
                                            end
                      | Some _ => Done (Ok tt, without file (fun l => l) s)
                      end.
Proof.
  intros R. unfold root_close. rewrite (bind_Done _ _ s s s) by done. destruct (handles (rs_root s) !! file) as [[p|path|ens]|] eqn:Hh; [|done..].
  destruct (ro_handles _ R _ _ Hh) as (i & Hi & Hm & _). rewrite Hi. unfold set_handles. rewrite (bind_Done _ _ _ _ _ eq_refl).
  erewrite bind_Done; [|unfold in_list, zoom; cbn [rs_list set_root]; rewrite sl_remove_run by (by eexists); reflexivity]. done.
Qed.

Lemma without_ok file f s : root_ok s -> sl_wf ∅ (f (rs_list s)) ->
  map_ (f (rs_list s)) !! scheme_id (rs_root s) = map_ (rs_list s) !! scheme_id (rs_root s) ->
  (forall h p i, h <> file -> handles (rs_root s) !! h = Some (HScheme p) -> rs_inners s !! p = Some i ->
     map_ (f (rs_list s)) !! ui_scheme_id i = map_ (rs_list s) !! ui_scheme_id i) -> root_ok (without file f s).
Proof.
  intros R Hw Hr Hh. split; cbn [without rs_list rs_root rs_inners rs_next_ref handles rs_next_id scheme_id scheme_ns];
    [done|rewrite Hr; apply (ro_root _ R)| |apply (ro_refs _ R)| |apply (ro_next _ R)].
  - intros h p [Hne Hp]%lookup_delete_Some. destruct (ro_handles _ R _ _ Hp) as (i & Hi & Hm & Hd). exists i. split; [done|].
    rewrite (Hh h p) by done. done.
  - intros h [x [_ Hx]%lookup_delete_Some]. apply (ro_ids _ R). by eexists.
Qed.

(** Closing a handle of the root scheme never fails an assertion: the object a
    scheme handle refers to is registered under its id, under no other handle, and
    the invariant that says so holds again afterwards.  The scheme is gone from the
    list, so that no name of any namespace finds it; its requests are left as they
    are, so a call that waits for an answer goes on waiting (and without the handle
    no answer can be written). *)
Theorem root_close_correct (file : Z) (s : RootState) : root_ok s ->
  exists r s', root_close file s = Done (r, s') /\ root_ok s' /\ rs_inners s' = rs_inners s /\
    (is_Some (handles (rs_root s) !! file) <-> r = Ok tt) /\ root_stream s' file = Err EBADF /\
    forall p, handles (rs_root s) !! file = Some (HScheme p) -> exists i, rs_inners s !! p = Some i /\
      map_ (rs_list s') !! ui_scheme_id i = None /\ (forall ns n, names_at (rs_list s') ns n <> Some (ui_scheme_id i)) /\
      (forall ns n k, get_name (rs_list s) ns n = Some k -> k.1 <> ui_scheme_id i -> get_name (rs_list s') ns n = Some k).
Proof.
  intros R. rewrite (root_close_run file s R). destruct (handles (rs_root s) !! file) as [[p|path|ens]|] eqn:Hh.
  - destruct (ro_handles _ R _ _ Hh) as (i & Hi & Hm & Hd). rewrite Hi. eexists _, _. split; [reflexivity|]. split; [|split; [done|]].
    + apply without_ok; [done|by eapply wf_remove; [apply R|]| |].
      * cbn. rewrite lookup_delete_ne; [done|]. intros E. rewrite E in Hm. by rewrite (ro_root _ R) in Hm.
      * intros h p' i' Hne Hp' Hi'. cbn. rewrite lookup_delete_ne; [done|]. intros E. destruct (ro_handles _ R _ _ Hp') as (i2 & Hi2 & Hm2 & Hd2).
        rewrite Hi' in Hi2. injection Hi2 as <-. rewrite <- E, Hm in Hm2. injection Hm2 as <-. congruence.
    + split; [split; [done|by eexists]|]. split; [unfold root_stream, get_handle; cbn; by rewrite lookup_delete_eq|]. intros p' [= <-]. exists i.
      split_and!; [done|cbn; apply lookup_delete_eq| |].
      * intros ns n. cbn. unfold unlisted. rewrite removed_at. case_decide; congruence.
      * intros ns n k Hk Hne. rewrite get_name_at in *. cbn [without rs_list]. unfold unlisted. rewrite removed_at.
        destruct (names_at (rs_list s) ns n) as [id|]; [|done]. cbn in Hk. destruct (map_ (rs_list s) !! id) as [k'|] eqn:Hk'; [|done].
        injection Hk as <-. cbn in Hne. rewrite decide_False by congruence. cbn. by rewrite lookup_delete_ne, Hk'.
  - eexists _, _. split; [reflexivity|]. split; [by apply without_ok; [|apply R|..]|]. split_and!; [done|split; [done|by eexists]| |done].
    unfold root_stream, get_handle. cbn. by rewrite lookup_delete_eq.
  - eexists _, _. split; [reflexivity|]. split; [by apply without_ok; [|apply R|..]|]. split_and!; [done|split; [done|by eexists]| |done].
    unfold root_stream, get_handle. cbn. by rewrite lookup_delete_eq.
  - eexists _, _. split; [reflexivity|]. split; [done|]. split_and!; [done| |unfold root_stream, get_handle; by rewrite Hh|done].
    split; [by intros [? ?]|done].
Qed.

(** The life of a user-space scheme.  The super-user creates a scheme under an
    unused name: it gets a handle, is found under its name in the namespace of the
    root scheme, and its object knows the handle and id by which its events and
    requests are routed; every other lookup is unchanged.  Closing the handle brings
    back every lookup of the state before. *)
Theorem root_scheme_lifecycle (path : string) (flags cur ens : Z) (s : RootState) :
  root_ok s -> root_small s -> contains flags O_CREAT = true -> contains flags O_FSYNC = true ->
  has_slash (trim_start path) = false -> trim_start path <> ""%string ->
  names_at (rs_list s) (scheme_ns (rs_root s)) (trim_start path) = None ->
  exists h p sid s1 s2, root_kopen path flags 0 cur ens s = Done (Ok (SchemeLocal h 0), s1) /\ root_ok s1 /\
    root_stream s1 h = Ok p /\
    rs_inners s1 !! p = Some (ui_new (scheme_id (rs_root s)) sid (contains flags O_EXLOCK) h (trim_start path) cur) /\
    (forall ns n, get_name (rs_list s1) ns n = if decide (ns = scheme_ns (rs_root s) /\ n = trim_start path) then Some (sid, KUser p) else get_name (rs_list s) ns n) /\
    root_close h s1 = Done (Ok tt, s2) /\ root_ok s2 /\ (forall ns n, get_name (rs_list s2) ns n = get_name (rs_list s) ns n).
Proof.
  intros R Hsm Hc Hf Hsl Hne Hn. destruct (root_create_run path flags cur ens s R Hsm Hc Hf Hsl Hn) as (sid & Hrun & Hsid & Hp).
  set (n0 := trim_start path) in *. pose proof (created_ok n0 flags cur sid s R Hsid Hp Hne) as R1.
  assert (Hfr : forall ns n, names_at (rs_list s) ns n <> Some sid) by (intros; apply fresh_unnamed; [apply R|done]).
  assert (Hh : handles (rs_root (created n0 flags cur sid s)) !! rs_next_id (rs_root s) = Some (HScheme (rs_next_ref s))) by apply lookup_insert_eq.
  pose proof (root_close_run (rs_next_id (rs_root s)) _ R1) as Hcl. rewrite Hh in Hcl. cbn [created rs_inners] in Hcl. rewrite lookup_insert_eq in Hcl.
  destruct (ro_handles _ R1 _ _ Hh) as (i & Hi & Hm & _). cbn [created rs_inners] in Hi. rewrite lookup_insert_eq in Hi. injection Hi as <-.
  eexists _, (rs_next_ref s), sid, _, _. split; [exact Hrun|]. split; [exact R1|]. split_and!.
  - unfold root_stream, get_handle. by rewrite Hh.
  - apply lookup_insert_eq.
  - intros ns n. cbn [created rs_list]. unfold registered. destruct (decide (ns = scheme_ns (rs_root s) /\ n = n0)) as [[-> ->]|Hx].
    + rewrite get_name_at, with_name_at, decide_True by done. cbn. by rewrite lookup_insert_eq.
    + apply get_name_ext; [by rewrite with_name_at, decide_False|]. intros j Hj. cbn. rewrite lookup_insert_ne; [done|]. intros ->. by eapply Hfr.
  - exact Hcl.
  - apply without_ok; [done|by eapply wf_remove; [apply R1|exact Hm]| |].
    + cbn. rewrite lookup_delete_ne; [done|]. cbn. intros E. pose proof (ro_root _ R). congruence.
    + intros h p i Hx Hp' Hi. destruct (ro_handles _ R1 _ _ Hp') as (i2 & Hi2 & Hm2 & Hd2). rewrite Hi in Hi2. injection Hi2 as <-.
      cbn. rewrite lookup_delete_ne; [done|]. intros E. cbn in E. rewrite <- E in Hm2. cbn in Hm2. rewrite lookup_insert_eq in Hm2. injection Hm2 as <-.
      cbn [created rs_inners] in Hi. rewrite lookup_insert_eq in Hi. injection Hi as <-. by cbn in Hd2.
  - intros ns n. apply get_name_ext.
    + cbn [without created rs_list]. unfold unlisted. cbn [ui_new ui_scheme_id]. rewrite removed_at. unfold registered. rewrite with_name_at.
      destruct (decide (ns = scheme_ns (rs_root s) /\ n = n0)) as [[-> ->]|]; [by rewrite decide_True|]. rewrite decide_False; [done|]. apply Hfr.
    + intros j Hj. cbn. rewrite lookup_delete_ne by (intros <-; by eapply Hfr). rewrite lookup_insert_ne; [done|]. intros <-. by eapply Hfr.
Qed.
End spec.

Module RootWitnesses.
Import SchemeWitnesses.
#[local] Existing Instance desktop.
#[local] Instance flag_bits : FileFlags := {|
  O_CLOEXEC := 0x1000000; O_NONBLOCK := 0x40000; O_APPEND := 0x80000; O_ACCMODE := 0x30000; O_CREAT := 0x2000000; O_FSYNC := 0x800000;
  O_EXLOCK := 0x200000; newfd_flags := fun fl => if fl =? 1 then Some [true] else if fl =? 0 then Some [] else None |}.

Definition boot : RootState := mkRS (root_new 1 16) first_list ∅ 0.
Lemma boot_ok : root_ok boot.
Proof.
  split; cbn [boot rs_list rs_root rs_inners rs_next_ref root_new handles rs_next_id scheme_id scheme_ns].
  - apply (first_list_wf).
  - by vm_compute.
  - by intros h p ?%lookup_empty_Some.
  - by intros p [? ?%lookup_empty_Some].
  - by intros h [? ?%lookup_empty_Some].
  - done.
Qed.
Lemma boot_small : root_small boot.
Proof. split; [apply first_list_small|done]. Qed.

Lemma root_scheme_lifecycle_witness : exists h p sid s1 s2, root_kopen "/disk" 0x2a00000 0 4 1 boot = Done (Ok (SchemeLocal h 0), s1) /\ root_ok s1 /\
    root_stream s1 h = Ok p /\
    rs_inners s1 !! p = Some (ui_new 16 sid (contains 0x2a00000 O_EXLOCK) h (trim_start "/disk") 4) /\
    (forall ns n, get_name (rs_list s1) ns n = if decide (ns = 1 /\ n = trim_start "/disk") then Some (sid, KUser p) else get_name (rs_list boot) ns n) /\
    root_close h s1 = Done (Ok tt, s2) /\ root_ok s2 /\ (forall ns n, get_name (rs_list s2) ns n = get_name (rs_list boot) ns n).
Proof. apply (root_scheme_lifecycle "/disk" 0x2a00000 4 1 boot boot_ok boot_small); by vm_compute. Defined.

Definition served : RootState := match root_kopen "disk" 0x2a00000 0 4 1 boot with Done (_, s) => s | Panic => boot end.
Lemma served_ok : root_ok served.
Proof.
  destruct (root_create_run "disk" 0x2a00000 4 1 boot boot_ok boot_small) as (sid & Hrun & Hsid & Hp); [by vm_compute..|].
  unfold served. rewrite Hrun. by apply created_ok; [apply boot_ok|..].
Qed.
Lemma root_close_correct_witness : exists r s', root_close 0 served = Done (r, s') /\ root_ok s' /\ rs_inners s' = rs_inners served /\
    (is_Some (handles (rs_root served) !! 0) <-> r = Ok tt) /\ root_stream s' 0 = Err EBADF /\
    forall p, handles (rs_root served) !! 0 = Some (HScheme p) -> exists i, rs_inners served !! p = Some i /\
      map_ (rs_list s') !! ui_scheme_id i = None /\ (forall ns n, names_at (rs_list s') ns n <> Some (ui_scheme_id i)) /\
      (forall ns n k, get_name (rs_list served) ns n = Some k -> k.1 <> ui_scheme_id i -> get_name (rs_list s') ns n = Some k).
Proof. apply (root_close_correct 0 served served_ok). Defined.
End RootWitnesses.
