(* ===== verification/FileOps.v ===== *)
(** * File system calls (src/syscall/fs.rs) and the scheme interface (src/scheme/mod.rs, [trait KernelScheme])

    Opening, duplicating, reading, seeking and closing files.  A scheme is a record
    of operations, the trait's default methods an instance of it; an operation of a
    scheme is one step here, and may change anything but the caller's descriptor
    table.  [get_file] clones the [Arc] of the description, which is dropped when the
    system call ends.

    The path syntax (redox_path), flag bits and command numbers are parameters. *)

From S2P Require Import Prelude PageInfo FrameAllocator Rmm OrdMap Grants CpuSet UserCopy Sync FdTbl Scheduler Event Schemes Files UserScheme UserCalls.
From Stdlib Require Import Ascii.

(** ** The rest of the kernel, as schemes see it *)

Record Kern {W : Type} := mkKern {
  k_list : SchemeList;
  k_es : EventState;
  k_heap : Heap;
  k_umem : UserMem;
  k_world : W;
}.
Arguments Kern W : clear implicits.

Definition in_kheap {W A} (m : M Heap A) : M (Kern W) A :=
  zoom k_heap (fun h k => mkKern W (k_list k) (k_es k) h (k_umem k) (k_world k)) m.
Definition in_kmem {W A} (m : M UserMem A) : M (Kern W) A :=
  zoom k_umem (fun m k => mkKern W (k_list k) (k_es k) (k_heap k) m (k_world k)) m.

Section fs.
Context {W : Type}.
Abbreviation K := (Kern W).

(** [trait KernelScheme] *)
Record KernelScheme := mkScheme {
  kopen : string -> Z -> CallerCtx -> M K (result Error OpenResult);
  kopenat : Z -> string -> Z -> Z -> CallerCtx -> M K (result Error OpenResult);
  kdup : Z -> UserSlice -> CallerCtx -> M K (result Error OpenResult);
  kwriteoff : Z -> UserSlice -> Z -> Z -> Z -> M K (result Error Z);
  kreadoff : Z -> UserSlice -> Z -> Z -> Z -> M K (result Error Z);
  kfstat : Z -> UserSlice -> M K (result Error unit);
  fsize : Z -> M K (result Error Z);
  ks_flink : Z -> string -> CallerCtx -> M K (result Error unit);
  ks_frename : Z -> string -> CallerCtx -> M K (result Error unit);
  ks_fcntl : Z -> Z -> Z -> M K (result Error Z);
  ks_unlinkat : Z -> string -> Z -> CallerCtx -> M K (result Error unit);
  ks_close : Z -> M K (result Error unit);
  kcall : Z -> UserSlice -> Z -> list Z -> M K (result Error Z);
  kfdwrite : Z -> list Z -> Z -> Z -> list Z -> M K (result Error Z);
  kfdread : Z -> UserSlice -> Z -> list Z -> M K (result Error Z);
}.

Definition u64_max : Z := 2 ^ 64 - 1.

(** The default methods of the trait, for a scheme with its own [kread] and
    [kwrite]. *)
Definition trait_defaults (kwrite kread : Z -> UserSlice -> Z -> Z -> M K (result Error Z)) : KernelScheme := {|
  kopen := fun _ _ _ => err ENOENT;
  kopenat := fun _ _ _ _ _ => err EOPNOTSUPP;
  kdup := fun _ _ _ => err EOPNOTSUPP;
  kwriteoff := fun id buf offset flags stored_flags => if negb (offset =? u64_max) then err ESPIPE else kwrite id buf flags stored_flags;
  kreadoff := fun id buf offset flags stored_flags => if negb (offset =? u64_max) then err ESPIPE else kread id buf flags stored_flags;
  kfstat := fun _ _ => err EBADF;
  fsize := fun _ => err ESPIPE;
  ks_flink := fun _ _ _ => err EBADF;
  ks_frename := fun _ _ _ => err EBADF;
  ks_fcntl := fun _ _ _ => ok 0;
  ks_unlinkat := fun _ _ _ _ => err ENOENT;
  ks_close := fun _ => ok tt;
  kcall := fun _ _ _ _ => err EOPNOTSUPP;
  kfdwrite := fun _ descs_ _ _ _ => forM descs_ (fun d => in_kheap (arc_drop d)) ;;; err EOPNOTSUPP;
  kfdread := fun _ _ _ _ => err EOPNOTSUPP;
|}.

(** The schemes, the path syntax and the constants of the syscall crate. *)
Class FsParams := {
  (** [Deref for KernelSchemes] *)
  scheme_ops : KernelSchemes -> KernelScheme;
  (** [RedoxPath::from_absolute(path)?.as_parts()] *)
  path_parts : string -> option (string * string);
  cache_invalidate : Z -> string -> string -> M K unit;
  F_DUPFD : Z; F_DUPFD_CLOEXEC : Z; F_GETFD : Z; F_SETFD : Z; F_GETFL : Z; F_SETFL : Z;
  SEEK_SET : Z; SEEK_CUR : Z; SEEK_END : Z;
  CF_READ : Z; CF_WRITE : Z; CF_FD : Z; CF_FD_CLONE : Z; CF_FD_EXCLUSIVE : Z; CF_CONSUME : Z;
  (** [SendFdFlags::from_bits]: whether [CLONE] and [EXCLUSIVE] are set *)
  sendfd_from_bits : Z -> option (bool * bool);
  (** [RwFlags::from_bits]: whether [APPEND] and [NONBLOCK] are set *)
  rw_from_bits : Z -> option (bool * bool);
  (** [offset_of!(Stat, st_dev)] *)
  ST_DEV_OFFSET : Z;
  FD_UPPER_TAG : Z;
}.
Context {FP : FsParams} {FF : FileFlags}.

(** The state of a system call: the kernel and the caller's descriptor table. *)
Record Fs := mkFs { f_k : K; f_table : @FdTbl FileDescriptor }.

Definition in_k {A} (m : M K A) : M Fs A := zoom f_k (fun k s => mkFs k (f_table s)) m.
Definition in_tbl {A} (m : M (@FdTbl FileDescriptor) A) : M Fs A := zoom f_table (fun t s => mkFs (f_k s) t) m.
Definition in_arcs {A} (m : M Heap A) : M Fs A := in_k (in_kheap m).

(** [scheme.close(number)] and the event registry, for [FileDescriptor::close]. *)
#[export] Instance fs_close_api : CloseApi K := {|
  w_heap := k_heap;
  w_set_heap := fun h k => mkKern W (k_list k) (k_es k) h (k_umem k) (k_world k);
  w_events := k_es;
  w_set_events := fun e k => mkKern W (k_list k) e (k_heap k) (k_umem k) (k_world k);
  w_scheme_close := fun scheme number k => (fun sch => ks_close (scheme_ops sch) number k) <$> sl_get (k_list k) scheme;
|}.

(** ** Looking up *)

(** [context.get_file(fd).ok_or(EBADF)?]: the [Arc] is cloned. *)
Definition get_fd (fd : Z) : M Fs (result Error FileDescriptor) :=
  let! s := get_state in
  match get_file FD_UPPER_TAG (f_table s) fd with
  | None => err EBADF
  | Some f => in_arcs (arc_clone (description f)) ;;; ok f
  end.

(** [scheme::schemes().get(id).ok_or(e)?] *)
Definition find_scheme (id : Z) (e : Error) : M Fs (result Error KernelScheme) :=
  let! s := get_state in
  match sl_get (k_list (f_k s)) id with
  | None => err e
  | Some sch => ok (scheme_ops sch)
  end.

(** [m] with the [Arc] dropped when it is done. *)
Definition dropping {A} (a : Z) (m : M Fs A) : M Fs A :=
  let! x := m in in_arcs (arc_drop a) ;;; ret x.

(** [file_op_generic_ext]; [op] owns the [Arc] it gets. *)
Definition file_op_generic_ext {T} (fd : Z) (op : KernelScheme -> Z -> FileDescription -> M Fs (result Error T)) : M Fs (result Error T) :=
  let? file := get_fd fd in
  let! desc := in_arcs (arc_get (description file)) in
  let! s := get_state in
  match sl_get (k_list (f_k s)) (fd_scheme desc) with
  | None => in_arcs (arc_drop (description file)) ;;; err EBADF
  | Some sch => op (scheme_ops sch) (description file) desc
  end.
Definition file_op_generic {T} (fd : Z) (op : KernelScheme -> Z -> M K (result Error T)) : M Fs (result Error T) :=
  file_op_generic_ext fd (fun s a desc => dropping a (in_k (op s (number desc)))).

(** ** Reading, writing, seeking *)

Definition io_offset (d : FileDescription) : Z := if positioned d then offset d else u64_max.
Definition set_offset (o : Z) (d : FileDescription) : FileDescription := mkFD o (fd_scheme d) (number d) (flags d) (internal_flags d).
Definition set_flags (f : Z) (d : FileDescription) : FileDescription := mkFD (offset d) (fd_scheme d) (number d) f (internal_flags d).

(** The offset of a positioned file moves by what was transferred. *)
Definition advance_offset (a : Z) (desc : FileDescription) (n : Z) : M Fs unit :=
  if positioned desc then in_arcs (arc_write a (fun d => set_offset (saturating_add (offset d) n) d)) else ret tt.

Definition sys_read (fd : Z) (buf : UserSlice) : M Fs (result Error Z) :=
  file_op_generic_ext fd (fun scheme a desc =>
    dropping a (let? n := in_k (kreadoff scheme (number desc) buf (io_offset desc) (flags desc) (flags desc)) in
                advance_offset a desc n ;;; ok n)).
Definition sys_write (fd : Z) (buf : UserSlice) : M Fs (result Error Z) :=
  file_op_generic_ext fd (fun scheme a desc =>
    dropping a (let? n := in_k (kwriteoff scheme (number desc) buf (io_offset desc) (flags desc) (flags desc)) in
                advance_offset a desc n ;;; ok n)).

(** The flags argument of [SYS_READ2] and [SYS_WRITE2]: all ones stands for the
    flags of the description. *)
Definition rw_arg (f : Z) (desc : FileDescription) : result Error Z :=
  if f =? usize_max then Ok (flags desc)
  else if f <? 2 ^ 32 then
    match rw_from_bits f with
    | Some (append, nonblock) => Ok (rw_flags desc append nonblock)
    | None => Err EINVAL
    end
  else Err EINVAL.

(** [SYS_READ2] and [SYS_WRITE2]: an explicit offset, which the description does
    not follow. *)
Definition sys_read2 (fd c d e f : Z) : M Fs (result Error Z) :=
  file_op_generic_ext fd (fun scheme a desc =>
    dropping a
      (let? fl := ret (rw_arg f desc) in
       let? buf := ret (us_new c d) in
       in_k (kreadoff scheme (number desc) buf e fl (flags desc)))).
Definition sys_write2 (fd c d e f : Z) : M Fs (result Error Z) :=
  file_op_generic_ext fd (fun scheme a desc =>
    dropping a
      (let? fl := ret (rw_arg f desc) in
       let? buf := ret (us_new c d) in
       in_k (kwriteoff scheme (number desc) buf e fl (flags desc)))).

(** [i64::checked_add_unsigned] *)
Definition checked_add_i64 (x y : Z) : option Z := if x + y <? 2 ^ 63 then Some (x + y) else None.

(** The new position, from the position, the size and the arguments of [lseek]. *)
Definition seek_to (pos whence cur : Z) (size : option Z) : result Error Z :=
  if whence =? SEEK_SET then Ok pos
  else if whence =? SEEK_CUR then match checked_add_i64 pos cur with Some p => Ok p | None => Err EOVERFLOW end
  else if whence =? SEEK_END then
    match size with
    | Some size => match checked_add_i64 pos size with Some p => Ok p | None => Err EOVERFLOW end
    | None => Err EINVAL
    end
  else Err EINVAL.

Definition lseek (fd pos whence : Z) : M Fs (result Error Z) :=
  file_op_generic_ext fd (fun scheme a desc =>
    dropping a
      (let? size := (if whence =? SEEK_END then let? n := in_k (fsize scheme (number desc)) in ok (Some n) else ok None) in
       let! d := in_arcs (arc_get a) in
       match seek_to pos whence (offset d) size with
       | Err e => err e
       | Ok new_pos =>
           if new_pos <? 0 then err EINVAL
           else in_arcs (arc_write a (set_offset new_pos)) ;;; ok new_pos
       end)).

(** ** Closing and duplicating *)

Definition close (fd : Z) : M Fs (result Error unit) :=
  let! file := in_tbl (remove_file FD_UPPER_TAG fd) in
  match file with
  | None => err EBADF
  | Some file => in_k (fd_close file)
  end.

(** The description for what a scheme opened. *)
Definition new_description (scheme flags_ : Z) (r : OpenResult) : M Fs Z :=
  match r with
  | SchemeLocal number internal => in_arcs (arc_new (mkFD 0 scheme number flags_ internal))
  | External desc => ret desc
  end.

Definition duplicate_file (me : CallerCtx) (fd : Z) (user_buf : UserSlice) (cloexec_ : bool) : M Fs (result Error FileDescriptor) :=
  let? file := get_fd fd in
  if us_is_empty user_buf then
    dropping (description file) (let! a := in_arcs (arc_clone (description file)) in ok (mkDesc a cloexec_))
  else
    dropping (description file)
      (let! d := in_arcs (arc_get (description file)) in
       let? scheme := find_scheme (fd_scheme d) EBADF in
       let? r := in_k (kdup scheme (number d) user_buf me) in
       let! a := new_description (fd_scheme d) (flags d) r in
       ok (mkDesc a cloexec_)).

(** A new descriptor; without room the description is dropped and not closed. *)
Definition install (add : FileDescriptor -> M (@FdTbl FileDescriptor) (option Z)) (file : FileDescriptor) : M Fs (result Error Z) :=
  let! r := in_tbl (add file) in
  match r with
  | Some fd => ok fd
  | None => in_arcs (arc_drop (description file)) ;;; err EMFILE
  end.

Definition dup (me : CallerCtx) (fd : Z) (buf : UserSlice) : M Fs (result Error Z) :=
  let? new_file := duplicate_file me fd buf false in
  install (add_file FD_UPPER_TAG) new_file.

Definition dup2 (me : CallerCtx) (fd new_fd : Z) (buf : UserSlice) : M Fs (result Error Z) :=
  if fd =? new_fd then ok new_fd
  else
    close new_fd ;;;
    let? new_file := duplicate_file me fd buf false in
    install (insert_file FD_UPPER_TAG new_fd) new_file.

(** ** Opening *)

(** [String::from_utf8]: the length of each sequence from its first byte, the
    range of the second, and continuation bytes for the rest. *)
Definition utf8_cont (b : Z) : bool := (0x80 <=? b) && (b <=? 0xbf).
Fixpoint utf8_valid (l : list Z) : bool :=
  match l with
  | [] => true
  | b :: l1 =>
      if b <? 0x80 then utf8_valid l1
      else
        match l1 with
        | b2 :: l2 =>
            if (0xc2 <=? b) && (b <=? 0xdf) && utf8_cont b2 then utf8_valid l2
            else
              match l2 with
              | b3 :: l3 =>
                  if (((b =? 0xe0) && (0xa0 <=? b2) && (b2 <=? 0xbf)) || ((0xe1 <=? b) && (b <=? 0xec) && utf8_cont b2)
                      || ((b =? 0xed) && (0x80 <=? b2) && (b2 <=? 0x9f)) || ((0xee <=? b) && (b <=? 0xef) && utf8_cont b2)) && utf8_cont b3
                  then utf8_valid l3
                  else
                    match l3 with
                    | b4 :: l4 =>
                        if (((b =? 0xf0) && (0x90 <=? b2) && (b2 <=? 0xbf)) || ((0xf1 <=? b) && (b <=? 0xf3) && utf8_cont b2)
                            || ((b =? 0xf4) && (0x80 <=? b2) && (b2 <=? 0x8f))) && utf8_cont b3 && utf8_cont b4
                        then utf8_valid l4 else false
                    | [] => false
                    end
              | [] => false
              end
        | [] => false
        end
  end.
Definition from_utf8 (l : list Z) : option string :=
  if utf8_valid l then Some (string_of_list_ascii (map (fun b => ascii_of_nat (Z.to_nat b)) l)) else None.

Definition PATH_MAX : Z := PAGE_SIZE.

Definition copy_path_to_buf (raw_path : UserSlice) (max_len : Z) : M UserMem (result Error string) :=
  if max_len <? us_len raw_path then err ENAMETOOLONG
  else
    let? bytes := copy_common_bytes_to_slice raw_path max_len in
    match from_utf8 bytes with
    | Some s => ok s
    | None => err EINVAL
    end.

Definition without_cloexec (flags_ : Z) : Z := Z.land flags_ (usize_not O_CLOEXEC) mod 2 ^ 32.
Definition has_cloexec (flags_ : Z) : bool := Z.land flags_ O_CLOEXEC =? O_CLOEXEC.

(** [open], for a caller in the namespace [scheme_ns]. *)
Definition open (me : CallerCtx) (scheme_ns : Z) (raw_path : UserSlice) (flags_ : Z) : M Fs (result Error Z) :=
  let? path := in_k (in_kmem (copy_path_to_buf raw_path PATH_MAX)) in
  match path_parts path with
  | None => err EINVAL
  | Some (scheme_name, reference) =>
      let! s := get_state in
      match get_name (k_list (f_k s)) scheme_ns scheme_name with
      | None => err ENODEV
      | Some (scheme_id, scheme) =>
          let? r := in_k (kopen (scheme_ops scheme) reference flags_ me) in
          let! a := new_description scheme_id (without_cloexec flags_) r in
          install (add_file FD_UPPER_TAG) (mkDesc a (has_cloexec flags_))
      end
  end.

Definition is_legacy (path : string) : bool :=
  String.prefix ":" path || String.eqb path "null:" || String.eqb path "sys:exe" || String.prefix "orbital:" path.

(** [CallerCtx::filter_uid_gid] *)
Definition filter_uid_gid (c : CallerCtx) (euid egid : Z) : CallerCtx :=
  if (c_uid c =? 0) && (c_gid c =? 0) then mkCaller (c_pid c) euid egid else c.

Definition openat (me : CallerCtx) (fh : Z) (raw_path : UserSlice) (flags_ fcntl_flags euid egid : Z) : M Fs (result Error Z) :=
  let? path := in_k (in_kmem (copy_path_to_buf raw_path PATH_MAX)) in
  if is_legacy path then err EINVAL
  else
    let? pipe := get_fd fh in
    let? file := dropping (description pipe)
      (let! d := in_arcs (arc_get (description pipe)) in
       let? scheme := find_scheme (fd_scheme d) EBADF in
       let? r := in_k (kopenat scheme (number d) path flags_ fcntl_flags (filter_uid_gid me euid egid)) in
       let! a := new_description (fd_scheme d) (without_cloexec flags_) r in
       ok (mkDesc a (has_cloexec flags_))) in
    install (add_file FD_UPPER_TAG) file.

Definition unlinkat (me : CallerCtx) (fh : Z) (raw_path : UserSlice) (flags_ euid egid : Z) : M Fs (result Error unit) :=
  let? path := in_k (in_kmem (copy_path_to_buf raw_path PATH_MAX)) in
  let? pipe := get_fd fh in
  dropping (description pipe)
    (let! d := in_arcs (arc_get (description pipe)) in
     let? scheme := find_scheme (fd_scheme d) EBADF in
     in_k (ks_unlinkat scheme (number d) path flags_ (filter_uid_gid me euid egid))).

(** The scheme that [flink] and [frename] resolve a path to. *)
Definition same_scheme {T} (scheme_ns fd : Z) (raw_path : UserSlice) (op : KernelScheme -> Z -> string -> string -> M K (result Error T))
  : M Fs (result Error T) :=
  let? file := get_fd fd in
  dropping (description file)
    (let? path := in_k (in_kmem (copy_path_to_buf raw_path PATH_MAX)) in
     match path_parts path with
     | None => err EINVAL
     | Some (scheme_name, reference) =>
         let! s := get_state in
         match get_name (k_list (f_k s)) scheme_ns scheme_name with
         | None => err ENODEV
         | Some (scheme_id, scheme) =>
             let! d := in_arcs (arc_get (description file)) in
             if negb (scheme_id =? fd_scheme d) then err EXDEV
             else in_k (op (scheme_ops scheme) (number d) scheme_name reference)
         end
     end).
Definition flink (me : CallerCtx) (scheme_ns fd : Z) (raw_path : UserSlice) : M Fs (result Error unit) :=
  same_scheme scheme_ns fd raw_path (fun scheme n _ reference => ks_flink scheme n reference me).
Definition frename (me : CallerCtx) (scheme_ns fd : Z) (raw_path : UserSlice) : M Fs (result Error unit) :=
  same_scheme scheme_ns fd raw_path (fun scheme n scheme_name reference =>
    let? _ := ks_frename scheme n reference me in
    cache_invalidate scheme_ns scheme_name reference ;;; ok tt).

(** ** Control *)

Definition set_cloexec (b : bool) (fd : Z) : M (@FdTbl FileDescriptor) unit :=
  fun t =>
    let '(l, i) := select_fdtbl FD_UPPER_TAG t fd in
    match l !! Z.to_nat i with
    | Some (Some f) => Done (tt, write_fdtbl FD_UPPER_TAG fd (<[Z.to_nat i := Some (mkDesc (description f) b)]> l) t)
    | _ => Done (tt, t)
    end.

Definition u32_not (x : Z) : Z := Z.lxor (x mod 2 ^ 32) (2 ^ 32 - 1).

Definition fcntl (me : CallerCtx) (fd cmd arg : Z) : M Fs (result Error Z) :=
  let? file := get_fd fd in
  dropping (description file)
    (let! d := in_arcs (arc_get (description file)) in
     if (cmd =? F_DUPFD) || (cmd =? F_DUPFD_CLOEXEC) then
       let? new_file := duplicate_file me fd us_empty (cmd =? F_DUPFD_CLOEXEC) in
       install (fun f => add_file_min FD_UPPER_TAG f arg) new_file
     else
       let? _ := (if negb (cmd =? F_GETFD) && negb (cmd =? F_SETFD) then
                    let? scheme := find_scheme (fd_scheme d) EBADF in
                    in_k (ks_fcntl scheme (number d) cmd arg)
                  else ok 0) in
       let! s := get_state in
       match get FD_UPPER_TAG (f_table s) fd with
       | Some (Some file) =>
           if cmd =? F_GETFD then ok (if cloexec file then O_CLOEXEC else 0)
           else if cmd =? F_SETFD then in_tbl (set_cloexec (has_cloexec arg) fd) ;;; ok 0
           else if cmd =? F_GETFL then ok (flags d)
           else if cmd =? F_SETFL then
             in_arcs (arc_write (description file)
                        (set_flags (Z.lor (Z.land (flags d) (O_ACCMODE mod 2 ^ 32)) (Z.land (arg mod 2 ^ 32) (u32_not O_ACCMODE))))) ;;;
             ok 0
           else err EINVAL
       | _ => err EBADF
       end).

(** [fstat]: the scheme id goes into the [st_dev] field. *)
Definition fstat (fd : Z) (user_buf : UserSlice) : M Fs (result Error unit) :=
  file_op_generic_ext fd (fun scheme a desc =>
    dropping a
      (let? _ := in_k (kfstat scheme (number desc) user_buf) in
       match advance user_buf ST_DEV_OFFSET ≫= fun b => limit b 8 with
       | None => err EIO
       | Some b => in_k (in_kmem (copy_from_slice b (to_ne_bytes 8 (fd_scheme desc))))
       end)).

(** ** Calls and passing descriptors *)

Definition cf_contains (flags_ bits : Z) : bool := Z.land flags_ bits =? bits.

(** With [CONSUME] the descriptor is removed, and its description dropped without
    being closed. *)
Definition call_normal (fd : Z) (payload : UserSlice) (flags_ : Z) (metadata : list Z) : M Fs (result Error Z) :=
  let? file := (if cf_contains flags_ CF_CONSUME then
                  let! f := in_tbl (remove_file FD_UPPER_TAG fd) in
                  match f with Some f => ok f | None => err EBADF end
                else get_fd fd) in
  dropping (description file)
    (let! d := in_arcs (arc_get (description file)) in
     let? scheme := find_scheme (fd_scheme d) EBADFD in
     in_k (kcall scheme (number d) payload flags_ metadata)).

Fixpoint clone_all (l : list FileDescriptor) : M Fs (list Z) :=
  match l with
  | [] => ret []
  | f :: l' => let! a := in_arcs (arc_clone (description f)) in let! r := clone_all l' in ret (a :: r)
  end.

Fixpoint counts (l : list Z) : M Fs (list Z) :=
  match l with
  | [] => ret []
  | a :: l' => let! n := in_arcs (strong_count a) in let! r := counts l' in ret (n :: r)
  end.

Definition fdwrite_inner (socket : Z) (target_fds : list Z) (flags_ arg : Z) (metadata : list Z) : M Fs (result Error Z) :=
  let? sock := get_fd socket in
  let! d := in_arcs (arc_get (description sock)) in
  in_arcs (arc_drop (description sock)) ;;;
  let? scheme := find_scheme (fd_scheme d) ENODEV in
  let? descs_ := (if cf_contains flags_ CF_FD_CLONE then
                    fun s => match bulk_get_files FD_UPPER_TAG (f_table s) target_fds with
                             | Panic => Panic
                             | Done (Err e) => Done (Err e, s)
                             | Done (Ok files) => (let! l := clone_all files in ok l) s
                             end
                  else
                    let? files := in_tbl (bulk_remove_files FD_UPPER_TAG target_fds) in ok (map description files)) in
  let! shared := counts descs_ in
  if cf_contains flags_ CF_FD_EXCLUSIVE && existsb (fun n => 1 <? n) shared
  then forM descs_ (fun a => in_arcs (arc_drop a)) ;;; err EBUSY
  else in_k (kfdwrite scheme (number d) descs_ (if cf_contains flags_ CF_FD_EXCLUSIVE then CF_FD_EXCLUSIVE else 0) arg metadata).

Definition call_fdwrite_sys (fd : Z) (payload : UserSlice) (flags_ : Z) (metadata : list Z) : M Fs (result Error Z) :=
  let? fds := in_k (in_kmem (usizes payload)) in
  let? _ := fdwrite_inner fd fds flags_ 0 metadata in
  ok (Z.of_nat (length fds)).

Definition call_fdread_sys (fd : Z) (payload : UserSlice) (flags_ : Z) (metadata : list Z) : M Fs (result Error Z) :=
  let? file := get_fd fd in
  let! d := in_arcs (arc_get (description file)) in
  in_arcs (arc_drop (description file)) ;;;
  let? scheme := find_scheme (fd_scheme d) ENODEV in
  in_k (kfdread scheme (number d) payload flags_ metadata).

(** The words of the metadata buffer, at most three. *)
Fixpoint words (n : nat) (l : list Z) : list Z :=
  match n with
  | O => []
  | S n' => from_ne_bytes (take 8 l) :: words n' (drop 8 l)
  end.

Definition call (fd : Z) (payload : UserSlice) (flags_ : Z) (metadata : UserSlice) : M Fs (result Error Z) :=
  let? bytes := in_k (in_kmem (copy_common_bytes_to_slice metadata 24)) in
  let meta := words (length bytes / 8) bytes in
  if cf_contains flags_ (Z.lor CF_WRITE CF_FD) then call_fdwrite_sys fd payload flags_ meta
  else if cf_contains flags_ (Z.lor CF_READ CF_FD) then call_fdread_sys fd payload flags_ meta
  else call_normal fd payload flags_ meta.

Definition sendfd (socket fd flags_raw arg : Z) : M Fs (result Error Z) :=
  match sendfd_from_bits flags_raw with
  | None => err EINVAL
  | Some (clone, exclusive) =>
      let f := Z.lor CF_FD CF_WRITE in
      let f := if clone then Z.lor f CF_FD_CLONE else f in
      let f := if exclusive then Z.lor f CF_FD_EXCLUSIVE else f in
      fdwrite_inner socket [fd] f arg []
  end.
End fs.
