(* ===== verification/FileOpsSpec.v ===== *)
(** * Theorems about file system calls

    Closing tells the scheme exactly when the last descriptor goes, duplicates
    share their position, and seeking stays within 63 bits. *)

From S2P Require Import Prelude PageInfo FrameAllocator Rmm OrdMap Grants CpuSet UserCopy Sync FdTbl FdTblSpec Scheduler Event Schemes Files UserScheme UserCalls FileOps.

Section spec.
Context {W : Type} {FP : @FsParams W} {FF : FileFlags}.
Context (tag_bit : Z).
Hypothesis tag_is_bit : FD_UPPER_TAG = 2 ^ tag_bit /\ 17 <= tag_bit < 64.
Abbreviation Fs := (@Fs W).
Abbreviation K := (Kern W).

Definition set_kheap (h : Heap) (k : K) : K := mkKern W (k_list k) (k_es k) h (k_umem k) (k_world k).
Definition file (s : Fs) (fd : Z) : option FileDescriptor := get_file FD_UPPER_TAG (f_table s) fd.
Definition desc (s : Fs) (a : Z) : option (FileDescription * Z) := descs (k_heap (f_k s)) !! a.

(** The kernel with one description replaced. *)
Definition with_desc (a : Z) (x : FileDescription * Z) (k : K) : K :=
  set_kheap (mkHeap (<[a := x]> (descs (k_heap k))) (next_arc (k_heap k))) k.

Lemma with_desc_twice a x y k : with_desc a x (with_desc a y k) = with_desc a x k.
Proof. unfold with_desc, set_kheap. cbn. by rewrite insert_insert_eq. Qed.

(** ** One file *)

Lemma in_arcs_run {A} (m : M Heap A) (s : Fs) x h : m (k_heap (f_k s)) = Done (x, h) -> in_arcs m s = Done (x, mkFs (set_kheap h (f_k s)) (f_table s)).
Proof. intros H. unfold in_arcs, in_k, in_kheap, zoom. by rewrite H. Qed.
Lemma arc_get_run a d n (s : Fs) : desc s a = Some (d, n) -> in_arcs (arc_get a) s = Done (d, s).
Proof.
  intros H. erewrite in_arcs_run; [|unfold arc_get; unfold desc in H; rewrite H; reflexivity]. destruct s as [[] ?]. done.
Qed.
Lemma arc_clone_run a d n (s : Fs) : desc s a = Some (d, n) ->
  in_arcs (arc_clone a) s = Done (a, mkFs (with_desc a (d, n + 1) (f_k s)) (f_table s)).
Proof. intros H. erewrite in_arcs_run; [|unfold arc_clone; unfold desc in H; rewrite H; reflexivity]. done. Qed.
Lemma arc_write_run a f d n (s : Fs) : desc s a = Some (d, n) ->
  in_arcs (arc_write a f) s = Done (tt, mkFs (with_desc a (f d, n) (f_k s)) (f_table s)).
Proof. intros H. erewrite in_arcs_run; [|unfold arc_write; unfold desc in H; rewrite H; reflexivity]. done. Qed.
Lemma arc_drop_run a d n (s : Fs) : desc s a = Some (d, n + 1) -> 1 <= n ->
  in_arcs (arc_drop a) s = Done (tt, mkFs (with_desc a (d, n) (f_k s)) (f_table s)).
Proof.
  intros H Hn. erewrite in_arcs_run; [|unfold arc_drop; unfold desc in H; rewrite H; reflexivity].
  rewrite (proj2 (Z.eqb_neq (n + 1) 1)) by lia. by replace (n + 1 - 1) with n by lia.
Qed.

(** [get_file], then the lookup of the scheme. *)
Lemma file_op_run {T} fd f d n sch op (s : Fs) : file s fd = Some f -> desc s (description f) = Some (d, n) ->
  sl_get (k_list (f_k s)) (fd_scheme d) = Some sch ->
  @file_op_generic_ext W FP T fd op s = op (scheme_ops sch) (description f) d (mkFs (with_desc (description f) (d, n + 1) (f_k s)) (f_table s)).
Proof.
  intros Hf Hd Hs. unfold file_op_generic_ext, get_fd, bind_result. rewrite bind_assoc. rewrite (bind_Done _ _ s s s) by done.
  unfold file in Hf. rewrite Hf. rewrite bind_assoc, (bind_Done _ _ _ _ _ (arc_clone_run _ _ _ _ Hd)). erewrite (bind_Done (ok f)) by reflexivity. cbn beta iota.
  erewrite bind_Done by (eapply arc_get_run; unfold desc; cbn; by rewrite lookup_insert_eq).
  erewrite (bind_Done get_state) by reflexivity. cbn [f_k with_desc set_kheap k_list]. by rewrite Hs.
Qed.
Lemma file_op_bad {T} fd op (s : Fs) : file s fd = None -> @file_op_generic_ext W FP T fd op s = Done (Err EBADF, s).
Proof. intros Hf. unfold file_op_generic_ext, get_fd, bind_result. rewrite bind_assoc, (bind_Done _ _ s s s) by done. unfold file in Hf. by rewrite Hf. Qed.

(** ** Seeking *)

(** What [lseek] computes: the base that [whence] names, [None] if there is none. *)
Definition seek_base (whence : Z) (cur : Z) (size : Z) : option Z :=
  if whence =? SEEK_SET then Some 0 else if whence =? SEEK_CUR then Some cur else if whence =? SEEK_END then Some size else None.
Definition seek_result (pos : Z) (base : option Z) : result Error Z :=
  match base with
  | None => Err EINVAL
  | Some b => if pos + b <? 0 then Err EINVAL else if pos + b <? 2 ^ 63 then Ok (pos + b) else Err EOVERFLOW
  end.

Lemma seek_to_result pos whence cur size r : - 2 ^ 63 <= pos < 2 ^ 63 -> 0 <= cur -> 0 <= size ->
  seek_to pos whence cur (if whence =? SEEK_END then Some size else None) = r ->
  match r with Ok p => if p <? 0 then Err EINVAL else Ok p | Err e => Err e end = seek_result pos (seek_base whence cur size).
Proof.
  intros Hp Hc Hs <-. unfold seek_to, seek_result, seek_base, checked_add_i64.
  destruct (whence =? SEEK_SET); [rewrite Z.add_0_r; destruct (Z.ltb_spec pos 0); [done|]; by rewrite (proj2 (Z.ltb_lt pos (2 ^ 63))) by lia|].
  destruct (whence =? SEEK_CUR).
  { destruct (Z.ltb_spec (pos + cur) (2 ^ 63)); [|rewrite (proj2 (Z.ltb_ge (pos + cur) 0)) by lia; done]. by destruct (pos + cur <? 0). }
  destruct (whence =? SEEK_END); [|done].
  destruct (Z.ltb_spec (pos + size) (2 ^ 63)); [|rewrite (proj2 (Z.ltb_ge (pos + size) 0)) by lia; done]. by destruct (pos + size <? 0).
Qed.

(** An operation of a scheme that leaves the file descriptions, the list of
    schemes and the registry alone. *)
Definition leaves (a : Z) (k k' : K) : Prop := descs (k_heap k') !! a = descs (k_heap k) !! a.

(** The end of a system call on a file: the clone of the [Arc] is dropped. *)
Lemma dropping_run {A} a d n (m : M Fs A) x (s s' : Fs) : m s = Done (x, s') -> desc s' a = Some (d, n + 1) -> 1 <= n ->
  dropping a m s = Done (x, mkFs (with_desc a (d, n) (f_k s')) (f_table s')).
Proof. intros Hm Hd Hn. unfold dropping. rewrite (bind_Done _ _ _ _ _ Hm). by rewrite (bind_Done _ _ _ _ _ (arc_drop_run _ _ _ _ Hd Hn)). Qed.

Lemma with_desc_at a x k t : desc (mkFs (with_desc a x k) t) a = Some x.
Proof. unfold desc. cbn. apply lookup_insert_eq. Qed.

(** The size [lseek] asks the scheme for, only with [SEEK_END]. *)
Definition size_step (whence size : Z) (scheme : KernelScheme) (d : FileDescription) (a : Z) (k k' : K) : Prop :=
  if whence =? SEEK_END then fsize scheme (number d) k = Done (Ok size, k') /\ leaves a k k' else k' = k.

(** C33: Seeking.  [lseek] moves the position of an open file to the offset counted
    from the start, the position or the size the scheme reports, and returns it; the
    position stays within [0, 2^63): a negative target is [EINVAL], one beyond is
    [EOVERFLOW], an unknown [whence] is [EINVAL], and then the position is kept.
    Nothing else of the file changes, and a descriptor that is not open is [EBADF]. *)
Theorem lseek_correct fd pos whence size f d n sch (s : Fs) k' : - 2 ^ 63 <= pos < 2 ^ 63 -> 0 <= offset d -> 0 <= size -> 1 <= n ->
  file s fd = Some f -> desc s (description f) = Some (d, n) -> sl_get (k_list (f_k s)) (fd_scheme d) = Some sch ->
  size_step whence size (scheme_ops sch) d (description f) (with_desc (description f) (d, n + 1) (f_k s)) k' ->
  let r := seek_result pos (seek_base whence (offset d) size) in
  lseek fd pos whence s =
    Done (r, mkFs (with_desc (description f) (match r with Ok p => set_offset p d | Err _ => d end, n) k') (f_table s)).
Proof.
  intros Hp Ho Hsz Hn Hf Hd Hs Hk r. unfold lseek. rewrite (file_op_run fd f d n sch) by done. set (a := description f) in *.
  set (k1 := with_desc a (d, n + 1) (f_k s)) in *. set (sz := if whence =? SEEK_END then Some size else None).
  assert (Hk' : desc (mkFs k' (f_table s)) a = Some (d, n + 1)).
  { unfold size_step in Hk. unfold desc. cbn. destruct (whence =? SEEK_END); [destruct Hk as [_ ->]|subst k']; apply lookup_insert_eq. }
  assert (H1 : (if whence =? SEEK_END then let? n := in_k (fsize (scheme_ops sch) (number d)) in ok (Some n) else @ok Fs Error _ None)
                 (mkFs k1 (f_table s)) = Done (Ok sz, mkFs k' (f_table s))).
  { unfold size_step, sz in *. destruct (whence =? SEEK_END); [|by subst]. destruct Hk as [Hk _]. unfold bind_result, bind, in_k, zoom. cbn [f_k]. by rewrite Hk. }
  pose proof (seek_to_result pos whence (offset d) size _ Hp Ho Hsz eq_refl) as Hr. fold sz in Hr. fold r in Hr.
  set (k2 := match r with Ok p => with_desc a (set_offset p d, n + 1) k' | Err _ => k' end).
  rewrite (dropping_run a (match r with Ok p => set_offset p d | Err _ => d end) n _ r _ (mkFs k2 (f_table s))); [| | |done].
  - unfold k2. destruct r; cbn [f_k f_table]; [by rewrite with_desc_twice|done].
  - unfold bind_result. rewrite (bind_Done _ _ _ _ _ H1). cbn beta iota. rewrite (bind_Done _ _ _ _ _ (arc_get_run _ _ _ _ Hk')). unfold k2.
    destruct (seek_to pos whence (offset d) sz) as [p|e]; [|by rewrite <- Hr]. destruct (p <? 0); [by rewrite <- Hr|]. rewrite <- Hr.
    by rewrite (bind_Done _ _ _ _ _ (arc_write_run _ (set_offset p) _ _ _ Hk')).
  - unfold k2. destruct r; [apply with_desc_at|exact Hk'].
Qed.

(** ** Reading *)

(** A read that transfers [m] bytes: the offset passed to the scheme, the new
    position, and the descriptor table. *)
Lemma sys_read_run fd buf m f d n sch (s : Fs) k' : 1 <= n ->
  file s fd = Some f -> desc s (description f) = Some (d, n) -> sl_get (k_list (f_k s)) (fd_scheme d) = Some sch ->
  kreadoff (scheme_ops sch) (number d) buf (io_offset d) (flags d) (flags d) (with_desc (description f) (d, n + 1) (f_k s)) = Done (Ok m, k') ->
  leaves (description f) (with_desc (description f) (d, n + 1) (f_k s)) k' ->
  sys_read fd buf s =
    Done (Ok m, mkFs (with_desc (description f) (if positioned d then set_offset (saturating_add (offset d) m) d else d, n) k') (f_table s)).
Proof.
  intros Hn Hf Hd Hs Hk Hl. unfold sys_read. rewrite (file_op_run fd f d n sch) by done. set (a := description f) in *.
  assert (Hk' : desc (mkFs k' (f_table s)) a = Some (d, n + 1)) by (unfold desc, leaves in *; cbn; rewrite Hl; apply lookup_insert_eq).
  set (d' := if positioned d then set_offset (saturating_add (offset d) m) d else d).
  rewrite (dropping_run a d' n _ (Ok m) _ (mkFs (if positioned d then with_desc a (d', n + 1) k' else k') (f_table s))); [| | |done].
  - cbn [f_k f_table]. destruct (positioned d); [by rewrite with_desc_twice|done].
  - unfold bind_result. erewrite bind_Done; [|unfold in_k, zoom; cbn [f_k]; rewrite Hk; reflexivity]. cbn [f_table]. unfold advance_offset, d'.
    destruct (positioned d); [|done]. by rewrite (bind_Done _ _ _ _ _ (arc_write_run _ _ _ _ _ Hk')).
  - unfold d'. destruct (positioned d); [apply with_desc_at|exact Hk'].
Qed.

(** ** Duplicating *)

Lemma dense_le (l : list (option FileDescriptor)) : forall i, (forall j, (j < i)%nat -> mjoin (l !! j) <> None) -> Z.of_nat i <= live l.
Proof.
  induction l as [|x l IH]; intros i Hi.
  - destruct i as [|i]; [done|]. destruct (Hi 0%nat); [lia|done].
  - destruct i as [|i]; [apply (live_nonneg tag_bit)|]. rewrite (live_cons tag_bit). assert (Z.of_nat i <= live l) by (apply IH; intros j Hj; apply (Hi (S j)); lia).
    destruct x; cbn [some1]; [lia|]. destruct (Hi 0%nat); [lia|done].
Qed.

(** The lowest free descriptor. *)
Lemma add_file_run f (t : @FdTbl FileDescriptor) : FdInv t -> active_count t < CONTEXT_MAX_FILES -> exists i t',
  add_file FD_UPPER_TAG f t = Done (Some i, t') /\ FdInv t' /\ usize_ok i /\ get_file FD_UPPER_TAG t i = None /\
  forall fd, usize_ok fd -> get_file FD_UPPER_TAG t' fd = if decide (fd = i) then Some f else get_file FD_UPPER_TAG t fd.
Proof.
  intros HI Hlt. pose proof (TAG_range _ _ tag_is_bit) as HT. pose proof (add_file_min_ok FD_UPPER_TAG tag_bit tag_is_bit f 0 t HI) as H.
  assert (H0 : usize_ok 0) by (unfold usize_ok; lia). specialize (H H0). assert (Hslot : slot_of FD_UPPER_TAG 0 = (true, 0%nat)) by done.
  rewrite Hslot in H. destruct H as [[_ [?|[? ?]]]|(i & t' & Hrun & HI' & Hno & Hu & _ & Hlow)]; [lia|unfold CONTEXT_MAX_FILES in *; lia|].
  assert (Hi : Z.of_nat i <= active_count t).
  { pose proof (fi_count _ HI). pose proof (live_nonneg tag_bit (upper_fdtbl t)). enough (Z.of_nat i <= live (posix_fdtbl t)) by lia.
    apply dense_le. intros j Hj. apply (Hlow j). lia. }
  destruct (slot_of_handle FD_UPPER_TAG tag_bit tag_is_bit (true, i)) as [Hs Hok]; [cbn; unfold CONTEXT_MAX_FILES in *; lia|].
  exists (handle_of FD_UPPER_TAG (true, i)), t'. split_and!; [exact Hrun|done|done| |].
  - rewrite get_file_at, Hs. exact Hno.
  - intros fd Hfd. rewrite !get_file_at, Hu. case_decide as E.
    + rewrite decide_True; [done|]. apply (slot_of_inj FD_UPPER_TAG tag_bit tag_is_bit); [done|done|]. by rewrite Hs.
    + rewrite decide_False; [done|]. intros ->. by rewrite Hs in E.
Qed.

Lemma dup_run me fd f d n (s : Fs) : FdInv (f_table s) -> active_count (f_table s) < CONTEXT_MAX_FILES -> 1 <= n ->
  file s fd = Some f -> desc s (description f) = Some (d, n) -> exists i t',
  dup me fd us_empty s = Done (Ok i, mkFs (with_desc (description f) (d, n + 1) (f_k s)) t') /\ FdInv t' /\ usize_ok i /\ file s i = None /\
  forall fd', usize_ok fd' -> get_file FD_UPPER_TAG t' fd' = if decide (fd' = i) then Some (mkDesc (description f) false) else file s fd'.
Proof.
  intros HI Hlt Hn Hf Hd. set (a := description f) in *. destruct (add_file_run (mkDesc a false) (f_table s) HI Hlt) as (i & t' & Hadd & HI' & Hok & Hno & Hget).
  exists i, t'. split_and!; [|done|done|done|done]. unfold dup, duplicate_file. unfold bind_result at 1. unfold bind_result at 1.
  assert (Hg : get_fd fd s = Done (Ok f, mkFs (with_desc a (d, n + 1) (f_k s)) (f_table s))).
  { unfold get_fd. rewrite (bind_Done _ _ s s s) by done. unfold file in Hf. rewrite Hf. by rewrite (bind_Done _ _ _ _ _ (arc_clone_run _ _ _ _ Hd)). }
  rewrite bind_assoc, (bind_Done _ _ _ _ _ Hg). cbn beta iota.
  assert (H2 : dropping a (let! x := in_arcs (arc_clone a) in ok (mkDesc x false)) (mkFs (with_desc a (d, n + 1) (f_k s)) (f_table s))
               = Done (@Ok Error _ (mkDesc a false), mkFs (with_desc a (d, n + 1) (f_k s)) (f_table s))).
  { rewrite (dropping_run a d (n + 1) _ (Ok (mkDesc a false)) _ (mkFs (with_desc a (d, n + 1 + 1) (f_k s)) (f_table s))); [| |apply with_desc_at|lia].
    - cbn [f_k f_table]. by rewrite with_desc_twice.
    - erewrite bind_Done by (eapply arc_clone_run, with_desc_at). cbn [f_k f_table]. by rewrite with_desc_twice. }
  rewrite (bind_Done _ _ _ _ _ H2). unfold install. erewrite bind_Done; [|unfold in_tbl, zoom; cbn [f_table]; rewrite Hadd; reflexivity]. done.
Qed.

(** Duplicates share their position.  [dup] of an open file gives the lowest
    free descriptor, refers it to the same description and leaves every other
    descriptor alone; a read through the new one starts at the position of the file,
    and afterwards the position that the next read through the old one starts from
    has moved by the bytes read (but not beyond [2^64 - 1]). *)
Theorem dup_shares_position me fd f d n sch buf m (s : Fs) k' :
  FdInv (f_table s) -> active_count (f_table s) < CONTEXT_MAX_FILES -> usize_ok fd -> 1 <= n -> positioned d = true ->
  file s fd = Some f -> desc s (description f) = Some (d, n) -> sl_get (k_list (f_k s)) (fd_scheme d) = Some sch ->
  kreadoff (scheme_ops sch) (number d) buf (offset d) (flags d) (flags d) (with_desc (description f) (d, n + 1 + 1) (f_k s)) = Done (Ok m, k') ->
  leaves (description f) (with_desc (description f) (d, n + 1 + 1) (f_k s)) k' ->
  exists fd2 s1 s2, dup me fd us_empty s = Done (Ok fd2, s1) /\ file s fd2 = None /\
    (forall fd', usize_ok fd' -> file s1 fd' = if decide (fd' = fd2) then Some (mkDesc (description f) false) else file s fd') /\
    sys_read fd2 buf s1 = Done (Ok m, s2) /\ (forall fd', file s2 fd' = file s1 fd') /\
    exists d2, file s2 fd = Some f /\ desc s2 (description f) = Some (d2, n + 1) /\ io_offset d2 = Z.min (offset d + m) (2 ^ 64 - 1).
Proof.
  intros HI Hlt Hok Hn Hpos Hf Hd Hs Hk Hl. destruct (dup_run me fd f d n s HI Hlt Hn Hf Hd) as (i & t' & Hdup & _ & Hi & Hno & Hget).
  set (a := description f) in *. set (s1 := mkFs (with_desc a (d, n + 1) (f_k s)) t') in *.
  assert (Hne : fd <> i) by (intros ->; congruence).
  assert (Hr : sys_read i buf s1 = Done (Ok m, mkFs (with_desc a (if positioned d then set_offset (saturating_add (offset d) m) d else d, n + 1) k') t')).
  { apply (sys_read_run i buf m (mkDesc a false) d (n + 1) sch s1 k'); [lia| |apply with_desc_at|done| |].
    - unfold file. cbn. rewrite Hget by done. by rewrite decide_True.
    - cbn [description s1 f_k]. rewrite with_desc_twice. unfold io_offset. by rewrite Hpos.
    - cbn [description s1 f_k]. by rewrite with_desc_twice. }
  rewrite Hpos in Hr. eexists i, s1, _. split_and!; [exact Hdup|exact Hno|exact Hget|exact Hr|done|].
  eexists. split_and!; [unfold file; cbn; rewrite Hget, decide_False by done; exact Hf|apply with_desc_at|].
  unfold io_offset. change (positioned (set_offset (saturating_add (offset d) m) d)) with (positioned d). rewrite Hpos. done.
Qed.

(** ** Closing *)

(** The kernel once the last reference to a description was closed. *)
Definition freed (a : Z) (d : FileDescription) (k : K) : K :=
  let e := k_es k in
  mkKern W (k_list k) (mkES (delete (mkRegKey (fd_scheme d) (number d)) (registry e)) (queue_heap e) (queue_list e) (NEXT_QUEUE_ID e) (e_sched e))
    (mkHeap (delete a (descs (k_heap k))) (next_arc (k_heap k))) (k_umem k) (k_world k).

Lemma close_run fd (s : Fs) : FdInv (f_table s) ->
  match file s fd with
  | None => close fd s = Done (Err EBADF, s)
  | Some f => exists t', FdInv t' /\ updated (f_table s) t' (slot_of FD_UPPER_TAG fd) None /\
      close fd s = match fd_close f (f_k s) with Done (r, k) => Done (r, mkFs k t') | Panic => Panic end
  end.
Proof.
  intros HI. pose proof (remove_file_ok FD_UPPER_TAG tag_bit tag_is_bit fd (f_table s) HI) as H. fold (file s fd) in H. unfold close.
  destruct (file s fd) as [f|].
  - destruct H as (t' & Hr & HI' & _ & Hu). exists t'. split_and!; [done|done|].
    erewrite bind_Done; [|unfold in_tbl, zoom; rewrite Hr; reflexivity]. unfold in_k, zoom. cbn [f_k f_table]. by destruct (fd_close f (f_k s)) as [[? ?]|].
  - erewrite bind_Done; [|unfold in_tbl, zoom; rewrite H; reflexivity]. by destruct s.
Qed.

Lemma fd_close_shared f d n (k : K) : descs (k_heap k) !! description f = Some (d, n) -> n <> 1 ->
  fd_close f k = Done (Ok tt, with_desc (description f) (d, n - 1) k).
Proof.
  intros Hd Hn. unfold fd_close. erewrite bind_Done; [|unfold in_heap, zoom; cbn [w_heap fs_close_api]; unfold try_unwrap; rewrite Hd; reflexivity].
  cbn beta iota. rewrite (proj2 (Z.eqb_neq n 1) Hn). done.
Qed.
Lemma fd_close_last f d (k : K) : descs (k_heap k) !! description f = Some (d, 1) ->
  fd_close f k = match sl_get (k_list k) (fd_scheme d) with
                 | None => Done (Err EBADF, freed (description f) d k)
                 | Some sch => match ks_close (scheme_ops sch) (number d) (freed (description f) d k) with Done (r, k') => Done (r, k') | Panic => Panic end
                 end.
Proof.
  intros Hd. unfold fd_close. erewrite bind_Done; [|unfold in_heap, zoom; cbn [w_heap fs_close_api]; unfold try_unwrap; rewrite Hd; reflexivity].
  cbn beta iota. unfold bind_result, bind at 1. unfold try_close, bind at 1. cbn.
  fold (freed (description f) d k). destruct (sl_get (k_list k) (fd_scheme d)) as [sch|]; [cbn|done].
  fold (freed (description f) d k). destruct (ks_close _ _ _) as [[[[]|e] k']|]; done.
Qed.

(** C32: Closing a descriptor.  [close] empties the slot of the descriptor and no
    other, and fails with [EBADF] if it is not open.  If others refer to the same
    description only the count goes down.  If it was the last reference the
    description is freed, its event registrations are removed and the scheme is told,
    once, to close the number; the result is the scheme's. *)
Theorem close_correct fd (s : Fs) : FdInv (f_table s) ->
  match file s fd with
  | None => close fd s = Done (Err EBADF, s)
  | Some f => exists t', FdInv t' /\ updated (f_table s) t' (slot_of FD_UPPER_TAG fd) None /\
      forall d n, desc s (description f) = Some (d, n) -> close fd s =
        if n =? 1 then
          match sl_get (k_list (f_k s)) (fd_scheme d) with
          | None => Done (Err EBADF, mkFs (freed (description f) d (f_k s)) t')
          | Some sch => match ks_close (scheme_ops sch) (number d) (freed (description f) d (f_k s)) with
                        | Done (r, k') => Done (r, mkFs k' t')
                        | Panic => Panic
                        end
          end
        else Done (Ok tt, mkFs (with_desc (description f) (d, n - 1) (f_k s)) t')
  end.
Proof.
  intros HI. pose proof (close_run fd s HI) as H. destruct (file s fd) as [f|]; [|done]. destruct H as (t' & HI' & Hu & Hc).
  exists t'. split_and!; [done|done|]. intros d n Hd. rewrite Hc. destruct (Z.eqb_spec n 1) as [->|Hn].
  - rewrite (fd_close_last f d) by done. destruct (sl_get _ _) as [sch|]; [|done]. by destruct (ks_close _ _ _) as [[? ?]|].
  - by rewrite (fd_close_shared f d n).
Qed.

(** A file that is closed while a call on it is in progress is never closed in
    the scheme.  A call holds a reference to the description; when the last
    descriptor is closed meanwhile, [close] succeeds without telling the scheme, and
    the reference the call drops at its end frees the description, with the scheme
    still not told and the event registrations still there. *)
Theorem close_during_call_not_told fd f d (s : Fs) : FdInv (f_table s) -> file s fd = Some f -> desc s (description f) = Some (d, 1) ->
  exists s1 t2 s3, get_fd fd s = Done (Ok f, s1) /\ close fd s1 = Done (Ok tt, mkFs (f_k s) t2) /\
    updated (f_table s) t2 (slot_of FD_UPPER_TAG fd) None /\
    in_arcs (arc_drop (description f)) (mkFs (f_k s) t2) = Done (tt, s3) /\ desc s3 (description f) = None /\
    k_world (f_k s3) = k_world (f_k s) /\ k_es (f_k s3) = k_es (f_k s).
Proof.
  intros HI Hf Hd. assert (Hg : get_fd fd s = Done (Ok f, mkFs (with_desc (description f) (d, 2) (f_k s)) (f_table s))).
  { unfold get_fd. rewrite (bind_Done _ _ s s s) by done. unfold file in Hf. rewrite Hf. by rewrite (bind_Done _ _ _ _ _ (arc_clone_run _ _ _ _ Hd)). }
  pose proof (close_run fd (mkFs (with_desc (description f) (d, 2) (f_k s)) (f_table s)) HI) as Hc. unfold file in Hf, Hc. cbn [f_table] in Hc.
  rewrite Hf in Hc. destruct Hc as (t2 & _ & Hu & Hc). cbn [f_k f_table] in *.
  assert (Hback : with_desc (description f) (d, 1) (f_k s) = f_k s).
  { unfold with_desc, set_kheap, desc in *. destruct s as [k tb]. cbn in *. rewrite insert_id by done. destruct k as [? ? [] ? ?]. done. }
  rewrite (fd_close_shared f d 2) in Hc by (first [done|cbn; apply lookup_insert_eq]). change (2 - 1) with 1 in Hc. rewrite with_desc_twice, Hback in Hc.
  eexists _, t2, _. split_and!; [exact Hg|exact Hc|exact Hu| | | |].
  - erewrite in_arcs_run; [reflexivity|]. unfold arc_drop. unfold desc in Hd. cbn [f_k]. rewrite Hd. reflexivity.
  - unfold desc. cbn. apply lookup_delete_eq.
  - done.
  - done.
Qed.

(** [dup2] from a descriptor that is not open still closes the target. *)
Lemma dup2_bad_fd_closes me fd new_fd buf r (s s1 : Fs) : fd <> new_fd -> close new_fd s = Done (r, s1) -> file s1 fd = None ->
  dup2 me fd new_fd buf s = Done (Err EBADF, s1).
Proof.
  intros Hne Hc Hf. unfold dup2. rewrite (proj2 (Z.eqb_neq fd new_fd) Hne). rewrite (bind_Done _ _ _ _ _ Hc). unfold duplicate_file, get_fd, bind_result.
  rewrite !bind_assoc, (bind_Done _ _ s1 s1 s1) by done. unfold file in Hf. by rewrite Hf.
Qed.
End spec.

Module FileWitnesses.
(** One scheme, whose files have 100 bytes; it keeps a log of what it closes. *)
Abbreviation Log := (list Z).
Definition disk : @KernelScheme Log := {|
  kopen := fun _ _ _ => ok (SchemeLocal 7 POSITIONED);
  kopenat := fun _ _ _ _ _ => err EOPNOTSUPP;
  kdup := fun _ _ _ => err EOPNOTSUPP;
  kwriteoff := fun _ _ _ _ _ => err EBADF;
  kreadoff := fun _ buf off _ _ => ok (Z.min (us_len buf) (100 - off));
  kfstat := fun _ _ => err EBADF;
  fsize := fun _ => ok 100;
  ks_flink := fun _ _ _ => err EBADF;
  ks_frename := fun _ _ _ => err EBADF;
  ks_fcntl := fun _ _ _ => ok 0;
  ks_unlinkat := fun _ _ _ _ => err ENOENT;
  ks_close := fun n => modify (fun k => mkKern Log (k_list k) (k_es k) (k_heap k) (k_umem k) (n :: k_world k)) ;;; ok tt;
  kcall := fun _ _ _ _ => err EOPNOTSUPP;
  kfdwrite := fun _ _ _ _ _ => err EOPNOTSUPP;
  kfdread := fun _ _ _ _ => err EOPNOTSUPP |}.
#[local] Instance params : @FsParams Log := {|
  scheme_ops := fun _ => disk; path_parts := fun _ => Some ("disk"%string, "x"%string); cache_invalidate := fun _ _ _ => ret tt;
  F_DUPFD := 0; F_DUPFD_CLOEXEC := 1030; F_GETFD := 1; F_SETFD := 2; F_GETFL := 3; F_SETFL := 4; SEEK_SET := 0; SEEK_CUR := 1; SEEK_END := 2;
  CF_READ := 1; CF_WRITE := 2; CF_FD := 4; CF_FD_CLONE := 8; CF_FD_EXCLUSIVE := 16; CF_CONSUME := 32; sendfd_from_bits := fun _ => None; rw_from_bits := fun _ => None;
  ST_DEV_OFFSET := 0; FD_UPPER_TAG := 2 ^ 62 |}.
Lemma fs_tag_ok : FD_UPPER_TAG = 2 ^ 62 /\ 17 <= 62 < 64.
Proof. split; [done|lia]. Qed.

Definition d0 : FileDescription := mkFD 10 20 7 0 1.
Definition table0 : @FdTbl FileDescriptor := mkFdTbl [Some (mkDesc 0 true)] [] 1.
Definition kern0 : Kern Log := mkKern Log (mkSL {[20 := KUser 0]} ∅ 1 21) (mkES ∅ ∅ ∅ 0 (mkSched ∅ 0 ∅ 0)) (mkHeap {[0 := (d0, 1)]} 1) (mkUserMem ∅ ∅) [].
Definition open0 : Fs := mkFs kern0 table0.
Lemma table0_inv : FdInv table0.
Proof. by split; vm_compute. Qed.

Lemma lseek_correct_witness :
  lseek 0 (-30) SEEK_END open0 = Done (seek_result (-30) (seek_base SEEK_END (offset d0) 100),
    mkFs (with_desc 0 (match seek_result (-30) (seek_base SEEK_END (offset d0) 100) with Ok p => set_offset p d0 | Err _ => d0 end, 1)
            (with_desc 0 (d0, 2) kern0)) table0).
Proof.
  apply (lseek_correct 62 0 (-30) SEEK_END 100 (mkDesc 0 true) d0 1 (KUser 0) open0 (with_desc 0 (d0, 2) kern0)); try lia; try done.
Defined.
Example lseek_runs : match lseek 0 (-30) SEEK_END open0 with Done (Ok 70, s) => (offset <$> (fst <$> desc s 0)) = Some 70 | _ => False end.
Proof. by vm_compute. Qed.

Lemma dup_shares_position_witness : exists fd2 s1 s2, dup (mkCaller 1 0 0) 0 us_empty open0 = Done (Ok fd2, s1) /\ file open0 fd2 = None /\
    (forall fd', usize_ok fd' -> file s1 fd' = if decide (fd' = fd2) then Some (mkDesc 0 false) else file open0 fd') /\
    sys_read fd2 (mkUserSlice 0 16) s1 = Done (Ok 16, s2) /\ (forall fd', file s2 fd' = file s1 fd') /\
    exists d2, file s2 0 = Some (mkDesc 0 true) /\ desc s2 0 = Some (d2, 2) /\ io_offset d2 = Z.min (10 + 16) (2 ^ 64 - 1).
Proof.
  apply (dup_shares_position 62 fs_tag_ok (mkCaller 1 0 0) 0 (mkDesc 0 true) d0 1 (KUser 0) (mkUserSlice 0 16) 16 open0 (with_desc 0 (d0, 3) kern0));
    [exact table0_inv|by vm_compute|done|lia|by vm_compute|by vm_compute|by vm_compute|by vm_compute|by vm_compute|by vm_compute].
Defined.

Lemma close_correct_witness : exists t', FdInv t' /\ updated table0 t' (slot_of FD_UPPER_TAG 0) None /\
  forall d n, desc open0 0 = Some (d, n) -> close 0 open0 =
    if n =? 1 then
      match sl_get (k_list kern0) (fd_scheme d) with
      | None => Done (Err EBADF, mkFs (freed 0 d kern0) t')
      | Some sch => match ks_close (scheme_ops sch) (number d) (freed 0 d kern0) with Done (r, k') => Done (r, mkFs k' t') | Panic => Panic end
      end
    else Done (Ok tt, mkFs (with_desc 0 (d, n - 1) kern0) t').
Proof. exact (close_correct 62 fs_tag_ok 0 open0 table0_inv). Defined.
Example close_runs : match close 0 open0 with Done (Ok tt, s) => k_world (f_k s) = [7] | _ => False end.
Proof. by vm_compute. Qed.

Lemma close_during_call_not_told_witness : exists s1 t2 s3, get_fd 0 open0 = Done (Ok (mkDesc 0 true), s1) /\ close 0 s1 = Done (Ok tt, mkFs kern0 t2) /\
    updated table0 t2 (slot_of FD_UPPER_TAG 0) None /\
    in_arcs (arc_drop 0) (mkFs kern0 t2) = Done (tt, s3) /\ desc s3 0 = None /\ k_world (f_k s3) = [] /\ k_es (f_k s3) = k_es kern0.
Proof. exact (close_during_call_not_told 62 fs_tag_ok 0 (mkDesc 0 true) d0 open0 table0_inv eq_refl eq_refl). Defined.

(** Without room for a descriptor the new reference is dropped. *)
Example dup_without_room_drops : match dup (mkCaller 1 0 0) 0 us_empty (mkFs kern0 (mkFdTbl [Some (mkDesc 0 true)] [] CONTEXT_MAX_FILES)) with
  | Done (Err EMFILE, s) => desc s 0 = Some (d0, 1)
  | _ => False
  end.
Proof. by vm_compute. Qed.
(** [sendfd] with [EXCLUSIVE] of a shared file fails, and the descriptor is gone. *)
Example sendfd_busy_loses_descriptor :
  match fdwrite_inner 1 [0] (Z.lor (Z.lor CF_FD CF_WRITE) CF_FD_EXCLUSIVE) 0 []
          (mkFs (with_desc 0 (d0, 3) kern0) (mkFdTbl [Some (mkDesc 0 true); Some (mkDesc 0 false)] [] 2)) with
  | Done (Err EBUSY, s) => file s 0 = None
  | _ => False
  end.
Proof. by vm_compute. Qed.
End FileWitnesses.
