(* ===== verification/Timeouts.v ===== *)
(** * Clocks, sleeping and timeouts (src/time.rs, src/syscall/time.rs, src/context/timeout.rs, src/scheme/time.rs)

    [nanosleep], the registry of timeouts that event queues wait for, and the
    [time:] scheme through which they are set.  The clock of the machine and the
    numbers of the clocks are parameters; [dbg] is whether arithmetic overflow
    panics.  [nanosleep] is split where it gives up the CPU. *)

From S2P Require Import Prelude PageInfo FrameAllocator Rmm OrdMap Grants CpuSet UserCopy Sync Event Futex Schemes.
From Stdlib Require Import Ascii.

Class ClockParams := { CLOCK_REALTIME : Z; CLOCK_MONOTONIC : Z }.

(** [monotonic()] at a moment, [START] and the resolution of the clock. *)
Record Clock := mkClock { monotonic : Z; START : Z; resolution : Z }.
Definition realtime (dbg : bool) {S} (c : Clock) : M S Z := u128 dbg (START c + monotonic c).

(** [sys_update_time_offset] *)
Definition sys_update_time_offset (buf : list Z) (c : Clock) : result Error Z * Clock :=
  if (length buf =? 16)%nat then (Ok 16, mkClock (monotonic c) (from_ne_bytes buf) (resolution c)) else (Err EINVAL, c).

(** [TimeSpec { tv_sec: (t / NANOS_PER_SEC) as i64, tv_nsec: (t % NANOS_PER_SEC) as i32 }] *)
Definition timespec_of (t : Z) : TimeSpec := mkTimeSpec (signed 64 (t / NANOS_PER_SEC mod 2 ^ 64)) (t mod NANOS_PER_SEC).
(** The bytes of a [TimeSpec]; the last four are padding. *)
Definition timespec_to_bytes (t : TimeSpec) : list Z :=
  to_ne_bytes 8 (tv_sec t mod 2 ^ 64) ++ to_ne_bytes 4 (tv_nsec t mod 2 ^ 32) ++ replicate 4 0.

Section clocks.
Context {CP : ClockParams}.

Definition clock_gettime (dbg : bool) (c : Clock) (clock : Z) (buf : UserSlice) : M UserMem (result Error unit) :=
  if clock =? CLOCK_REALTIME then let! t := realtime dbg c in copy_exactly buf (timespec_to_bytes (timespec_of t))
  else if clock =? CLOCK_MONOTONIC then copy_exactly buf (timespec_to_bytes (timespec_of (monotonic c)))
  else err EINVAL.

(** ** Sleeping *)

(** [nanosleep] up to the switch, for the request that was read: the deadline. *)
Definition nanosleep_begin (dbg : bool) (cid : Z) (req : TimeSpec) (start : Z) : M Sched (result Error Z) :=
  let! a := u128 dbg (as_u128 (tv_sec req) * NANOS_PER_SEC) in
  let! b := u128 dbg (start + a) in
  let! end_ := u128 dbg (b + as_u128 (tv_nsec req)) in
  let! c := the_ctx cid in
  if sig_pending c then err EINTR
  else
    update_ctx cid (set_wake (Some end_)) ;;;
    block cid "nanosleep" ;;;
    ok end_.

(** What is left of the time. *)
Definition remaining (end_ current : Z) : TimeSpec :=
  if current <? end_ then timespec_of (end_ - current) else mkTimeSpec 0 0.

(** [nanosleep] after the switch. *)
Definition nanosleep_end (cid end_ current : Z) (rem_buf : option UserSlice) : M (Sched * UserMem) (result Error unit) :=
  fun '(s, m) =>
    match ctxs s !! cid with
    | None => Panic
    | Some c =>
        let was_interrupted := bool_decide (is_Some (wake c)) in
        let s := set_ctx cid (set_wake None c) s in
        let finish m := Done (if was_interrupted then Err EINTR else Ok tt, (s, m)) in
        match rem_buf with
        | None => finish m
        | Some buf =>
            match copy_exactly buf (timespec_to_bytes (remaining end_ current)) m with
            | Panic => Panic
            | Done (Err e, m) => Done (Err e, (s, m))
            | Done (Ok _, m) => finish m
            end
        end
    end.

(** ** Timeouts *)

Record Timeout := mkTimeout { to_scheme_id : Z; event_id : Z; to_clock : Z; to_time : Z }.

Definition register_timeout (dbg : bool) (scheme_id event_id clock : Z) (time : TimeSpec) : M (list Timeout) unit :=
  let! ns := deadline dbg time in
  modify (fun registry => registry ++ [mkTimeout scheme_id event_id clock ns]).

(** Whether a timeout has elapsed; one of an unknown clock always has. *)
Definition should_trigger (mono real : Z) (t : Timeout) : bool :=
  if to_clock t =? CLOCK_MONOTONIC then to_time t <=? mono
  else if to_clock t =? CLOCK_REALTIME then to_time t <=? real
  else true.

Context {EP : EventParams}.

(** [TriggerAction]; the index is the one to look at next. *)
Inductive TriggerAction := Fire (t : Timeout) | SkipEntry | NoMore.
(** One turn with the registry locked. *)
Definition timeouts_check (mono real : Z) (i : nat) : M (list Timeout) (TriggerAction * nat) :=
  fun registry =>
    match registry !! i with
    | None => Done ((NoMore, i), registry)
    | Some t => if should_trigger mono real t then Done ((Fire t, i), delete i registry) else Done ((SkipEntry, S i), registry)
    end.
(** The loop of [trigger], when no one takes the registry between two turns; running
    out of fuel is a panic. *)
Fixpoint timeouts_loop (fuel : nat) (mono real : Z) (i : nat) : M (list Timeout * EventState) unit :=
  match fuel with
  | O => panic
  | S fuel' =>
      fun '(registry, e) =>
        match timeouts_check mono real i registry with
        | Panic => Panic
        | Done ((NoMore, _), registry) => Done (tt, (registry, e))
        | Done ((SkipEntry, i), registry) => timeouts_loop fuel' mono real i (registry, e)
        | Done ((Fire t, i), registry) =>
            match trigger (to_scheme_id t) (event_id t) EV_READ e with
            | Panic => Panic
            | Done (_, e') => timeouts_loop fuel' mono real i (registry, e')
            end
        end
  end.
Definition timeouts_trigger (mono real : Z) : M (list Timeout * EventState) unit :=
  fun '(registry, e) => timeouts_loop (S (length registry)) mono real 0 (registry, e).

(** ** The [time:] scheme *)

Inductive TimeSchemeKind := TDefault | TClockGettime | TClockGetres | TTimer.
Record TimeSchemeHandle := mkTimeHandle { th_clock : Z; th_kind : TimeSchemeKind }.
Record TimeScheme := mkTimeScheme { ts_next_id : Z; ts_handles : gmap Z TimeSchemeHandle }.

(** [path.split("/")] *)
Fixpoint split_slash (s : string) : string * list string :=
  match s with
  | EmptyString => (EmptyString, [])
  | String c s' =>
      let '(first, rest) := split_slash s' in
      if Ascii.eqb c "/"%char then (EmptyString, first :: rest) else (String c first, rest)
  end.

(** [str::parse::<usize>]: decimal digits, after an optional plus sign. *)
Definition digit (c : ascii) : option Z :=
  let n := Z.of_nat (nat_of_ascii c) in if (48 <=? n) && (n <=? 57) then Some (n - 48) else None.
Fixpoint parse_digits (acc : Z) (s : string) : option Z :=
  match s with
  | EmptyString => Some acc
  | String c s' =>
      match digit c with
      | Some d => if acc * 10 + d <? 2 ^ 64 then parse_digits (acc * 10 + d) s' else None
      | None => None
      end
  end.
Definition parse_usize (s : string) : option Z :=
  let body := match s with String c s' => if Ascii.eqb c "+"%char then s' else s | EmptyString => s end in
  match body with EmptyString => None | _ => parse_digits 0 body end.

Definition time_kind (part : option string) : option TimeSchemeKind :=
  match part with
  | None => Some TDefault
  | Some p =>
      if String.eqb p "" then Some TDefault
      else if String.eqb p "gettime" then Some TClockGettime
      else if String.eqb p "getres" then Some TClockGetres
      else if String.eqb p "timer" then Some TTimer
      else None
  end.

Definition time_kopen (path : string) : M TimeScheme (result Error Z) :=
  let '(first, rest) := split_slash path in
  match parse_usize first, time_kind (head rest) with
  | Some clock, Some kind =>
      if (clock =? CLOCK_REALTIME) || (clock =? CLOCK_MONOTONIC) then
        fun s => Done (Ok (ts_next_id s), mkTimeScheme (usize_add (ts_next_id s) 1) (<[ts_next_id s := mkTimeHandle clock kind]> (ts_handles s)))
      else err ENOENT
  | _, _ => err ENOENT
  end.

Definition time_close (id : Z) : M TimeScheme (result Error unit) :=
  fun s => match ts_handles s !! id with
           | None => Done (Err EBADF, s)
           | Some _ => Done (Ok tt, mkTimeScheme (ts_next_id s) (delete id (ts_handles s)))
           end.

(** [fevent] and [fsync]: whether the handle is open. *)
Definition time_fevent (s : TimeScheme) (id : Z) : result Error Z := if ts_handles s !! id then Ok 0 else Err EBADF.
Definition time_fsync (s : TimeScheme) (id : Z) : result Error unit := if ts_handles s !! id then Ok tt else Err EBADF.

(** The time a handle reads, [None] if it cannot be read. *)
Definition arch_time (dbg : bool) (c : Clock) (h : TimeSchemeHandle) : M UserMem (option Z) :=
  match th_kind h with
  | TDefault | TClockGettime =>
      if th_clock h =? CLOCK_REALTIME then let! t := realtime dbg c in ret (Some t)
      else if th_clock h =? CLOCK_MONOTONIC then ret (Some (monotonic c)) else ret None
  | TClockGetres => ret (if (th_clock h =? CLOCK_REALTIME) || (th_clock h =? CLOCK_MONOTONIC) then Some (resolution c) else None)
  | TTimer => ret None
  end.

(** [kread] over the chunks of the buffer; [clock] is the clock at each. *)
Fixpoint time_read_chunks (dbg : bool) (clock : nat -> Clock) (h : TimeSchemeHandle) (i : nat) (chunks : list UserSlice) : M UserMem (result Error Z) :=
  match chunks with
  | [] => ok (Z.of_nat i * TIMESPEC_SIZE)
  | chunk :: chunks' =>
      let! t := arch_time dbg (clock i) h in
      match t with
      | None => err EINVAL
      | Some t =>
          let? _ := copy_exactly chunk (timespec_to_bytes (timespec_of t)) in
          time_read_chunks dbg clock h (S i) chunks'
      end
  end.
Definition time_kread (dbg : bool) (clock : nat -> Clock) (s : TimeScheme) (id : Z) (buf : UserSlice) : M UserMem (result Error Z) :=
  match ts_handles s !! id with
  | None => err EBADF
  | Some h => let! chunks := in_exact_chunks buf TIMESPEC_SIZE in time_read_chunks dbg clock h 0 chunks
  end.

(** [GlobalSchemes::Time.scheme_id()] *)
Definition TIME_SCHEME : Z := 8.

(** [kwrite] over the chunks: each registers a timeout. *)
Fixpoint time_write_chunks (dbg : bool) (m : UserMem) (h : TimeSchemeHandle) (id : Z) (written : Z) (chunks : list UserSlice) : M (list Timeout) (result Error Z) :=
  match chunks with
  | [] => ok (written * TIMESPEC_SIZE)
  | chunk :: chunks' =>
      match limited chunk TIMESPEC_SIZE (fun b => copy_to_slice b TIMESPEC_SIZE) m with
      | Panic => panic
      | Done (Err e, _) => err e
      | Done (Ok bytes, _) =>
          match th_kind h with
          | TDefault | TTimer =>
              register_timeout dbg TIME_SCHEME id (th_clock h) (timespec_of_bytes bytes) ;;;
              time_write_chunks dbg m h id (written + 1) chunks'
          | _ => err EINVAL
          end
      end
  end.
Definition time_kwrite (dbg : bool) (m : UserMem) (s : TimeScheme) (id : Z) (buf : UserSlice) : M (list Timeout) (result Error Z) :=
  match ts_handles s !! id with
  | None => err EBADF
  | Some h => let! chunks := in_exact_chunks buf TIMESPEC_SIZE in time_write_chunks dbg m h id 0 chunks
  end.
End clocks.
