(* ===== verification/TimeoutsSpec.v ===== *)
(** * Theorems about clocks, sleeping and timeouts *)

From S2P Require Import Prelude PageInfo FrameAllocator Rmm OrdMap Grants CpuSet UserCopy Sync SyncSpec Scheduler SchedulerSpec Event EventSpec Futex Schemes Timeouts.

Section spec.
Context {CP : ClockParams} {EP : EventParams} {EL : EventLaws}.

(** ** Timeouts *)

(** The events of a list of timeouts, one after the other. *)
Definition fire (l : list Timeout) : M EventState unit := forM l (fun t => trigger (to_scheme_id t) (event_id t) EV_READ).

Lemma trigger_ok a b f e : queues_ok e -> exists e', trigger a b f e = Done (tt, e') /\ queues_ok e'.
Proof. intros Hq. destruct (trigger_run a b f e Hq) as (o & e' & H & _ & _ & D). exists e'. split; [done|]. by eapply queues_ok_delivered. Qed.

(** A timeout has elapsed when the clock it names shows its time or a later one; one
    that names neither of the two clocks counts as elapsed. *)
Definition has_elapsed (mono real : Z) (t : Timeout) : Prop :=
  (to_clock t = CLOCK_MONOTONIC /\ to_time t <= mono) \/
  (to_clock t = CLOCK_REALTIME /\ to_clock t <> CLOCK_MONOTONIC /\ to_time t <= real) \/
  (to_clock t <> CLOCK_MONOTONIC /\ to_clock t <> CLOCK_REALTIME).
#[global] Instance has_elapsed_dec mono real t : Decision (has_elapsed mono real t).
Proof. unfold has_elapsed. apply _. Defined.

Lemma should_trigger_spec mono real t : should_trigger mono real t = true <-> has_elapsed mono real t.
Proof.
  unfold should_trigger, has_elapsed. destruct (Z.eqb_spec (to_clock t) CLOCK_MONOTONIC), (Z.eqb_spec (to_clock t) CLOCK_REALTIME); rewrite ?Z.leb_le; tauto.
Qed.
Lemma should_trigger_false mono real t : should_trigger mono real t = false <-> ~ has_elapsed mono real t.
Proof. rewrite <- should_trigger_spec. by destruct (should_trigger mono real t). Qed.

(** One turn. *)
Lemma check_run mono real i registry :
  timeouts_check mono real i registry = Done (match registry !! i with
    | None => ((NoMore, i), registry)
    | Some t => if decide (has_elapsed mono real t) then ((Fire t, i), delete i registry) else ((SkipEntry, S i), registry)
    end).
Proof.
  unfold timeouts_check. destruct (registry !! i) as [t|]; [|done]. destruct (should_trigger mono real t) eqn:E.
  - rewrite decide_True; [done|by apply should_trigger_spec].
  - rewrite decide_False; [done|by apply should_trigger_false].
Qed.

Lemma timeouts_loop_run mono real : forall fuel pre l e, (length l < fuel)%nat -> queues_ok e ->
  exists e', fire (filter (has_elapsed mono real) l) e = Done (tt, e') /\
    timeouts_loop fuel mono real (length pre) (pre ++ l, e) = Done (tt, (pre ++ filter (fun t => ~ has_elapsed mono real t) l, e')).
Proof.
  induction fuel as [|fuel IH]; intros pre l e Hf Hq; [lia|]. cbn [timeouts_loop]. rewrite check_run. destruct l as [|t l].
  { exists e. rewrite app_nil_r. split; [done|]. rewrite lookup_ge_None_2 by lia. cbn. by rewrite app_nil_r. }
  rewrite list_lookup_middle by done. cbn [length] in Hf. destruct (decide (has_elapsed mono real t)) as [Ht|Ht].
  - destruct (trigger_ok (to_scheme_id t) (event_id t) EV_READ e Hq) as (e1 & He1 & Hq1). rewrite He1.
    destruct (IH pre l e1) as (e' & Hfire & Hrun); [lia|done|]. exists e'. rewrite filter_cons_True by done. rewrite filter_cons_False by tauto.
    split; [unfold fire; cbn [forM]; by rewrite (bind_Done _ _ _ _ _ He1)|]. by rewrite delete_middle.
  - destruct (IH (pre ++ [t]) l e) as (e' & Hfire & Hrun); [lia|done|]. exists e'.
    rewrite filter_cons_False by done. rewrite filter_cons_True by done. split; [done|].
    rewrite length_app, Nat.add_comm in Hrun. cbn [length Nat.add] in Hrun. by rewrite <- !app_assoc in Hrun.
Qed.

(** *** Walks that are interrupted

    The registry is locked for one turn at a time, and is not locked while an event
    is triggered: others register timeouts, and walk over them, in between. *)

(** A walk: the clocks it read when it began, the index it looks at next, the timeout
    whose event it is to trigger, and whether no other walk has removed an entry
    since it began. *)
Record Walk := mkWalk { w_mono : Z; w_real : Z; w_next : nat; w_firing : option Timeout; w_alone : bool }.
(** The registry, the events and the walks; and, for the record, all timeouts that
    were registered, and those that fired with the clocks of the walk. *)
Record TState := mkT {
  t_registry : list Timeout; t_events : EventState; t_walks : gmap Z Walk;
  t_registered : list Timeout; t_fired : list (Timeout * (Z * Z)) }.
Definition disturb (k : Walk) : Walk := mkWalk (w_mono k) (w_real k) (w_next k) (w_firing k) false.

Inductive t_step : TState -> TState -> Prop :=
| T_register dbg sid ev clock time l t s : register_timeout dbg sid ev clock time (t_registry s) = Done (tt, l) -> l = t_registry s ++ [t] ->
    t_step s (mkT l (t_events s) (t_walks s) (t_registered s ++ [t]) (t_fired s))
| T_begin w mono real s : t_walks s !! w = None ->
    t_step s (mkT (t_registry s) (t_events s) (<[w := mkWalk mono real 0 None true]> (t_walks s)) (t_registered s) (t_fired s))
| T_skip w k i l s : t_walks s !! w = Some k -> w_firing k = None -> timeouts_check (w_mono k) (w_real k) (w_next k) (t_registry s) = Done ((SkipEntry, i), l) ->
    t_step s (mkT l (t_events s) (<[w := mkWalk (w_mono k) (w_real k) i None (w_alone k)]> (t_walks s)) (t_registered s) (t_fired s))
| T_take w k t i l s : t_walks s !! w = Some k -> w_firing k = None -> timeouts_check (w_mono k) (w_real k) (w_next k) (t_registry s) = Done ((Fire t, i), l) ->
    t_step s (mkT l (t_events s) (<[w := mkWalk (w_mono k) (w_real k) i (Some t) (w_alone k)]> (disturb <$> t_walks s)) (t_registered s) (t_fired s))
| T_fire w k t e s : t_walks s !! w = Some k -> w_firing k = Some t -> trigger (to_scheme_id t) (event_id t) EV_READ (t_events s) = Done (tt, e) ->
    t_step s (mkT (t_registry s) e (<[w := mkWalk (w_mono k) (w_real k) (w_next k) None (w_alone k)]> (t_walks s)) (t_registered s)
                (t_fired s ++ [(t, (w_mono k, w_real k))]))
| T_end w k i l s : t_walks s !! w = Some k -> w_firing k = None -> timeouts_check (w_mono k) (w_real k) (w_next k) (t_registry s) = Done ((NoMore, i), l) ->
    t_step s (mkT l (t_events s) (delete w (t_walks s)) (t_registered s) (t_fired s))
| T_other e s : queues_ok e -> t_step s (mkT (t_registry s) e (t_walks s) (t_registered s) (t_fired s)).
Inductive t_reachable : TState -> Prop :=
| t_start e : queues_ok e -> t_reachable (mkT [] e ∅ [] [])
| t_one s s' : t_reachable s -> t_step s s' -> t_reachable s'.

(** The timeouts that are neither in the registry any more nor have fired yet. *)
Definition firing (m : gmap Z Walk) : list Timeout := omap (fun x => w_firing x.2) (map_to_list m).

Lemma firing_lookup m w k : m !! w = Some k -> firing m ≡ₚ option_list (w_firing k) ++ firing (delete w m).
Proof. intros H. unfold firing. rewrite <- (map_to_list_delete m w k H). cbn. by destruct (w_firing k). Qed.
Lemma firing_insert m w k : firing (<[w := k]> m) ≡ₚ option_list (w_firing k) ++ firing (delete w m).
Proof. rewrite (firing_lookup _ w k (lookup_insert_eq _ _ _)). by rewrite delete_insert_eq. Qed.
Lemma firing_disturb m : firing (disturb <$> m) = firing m.
Proof. unfold firing. rewrite map_to_list_fmap. induction (map_to_list m) as [|[i k] l IH]; [done|]. cbn. destruct (w_firing k); cbn; by rewrite IH. Qed.

(** A walk that is not disturbed leaves nothing behind it that has elapsed. *)
Definition walk_ok (registry : list Timeout) (k : Walk) : Prop :=
  (forall t, w_firing k = Some t -> has_elapsed (w_mono k) (w_real k) t) /\
  (w_alone k = true -> Forall (fun t => ~ has_elapsed (w_mono k) (w_real k) t) (take (w_next k) registry)).

Record t_inv (s : TState) : Prop := mkTInv {
  ti_events : queues_ok (t_events s);
  ti_all : t_registered s ≡ₚ t_registry s ++ firing (t_walks s) ++ (t_fired s).*1;
  ti_fired : Forall (fun x => has_elapsed x.2.1 x.2.2 x.1) (t_fired s);
  ti_walks : forall w k, t_walks s !! w = Some k -> walk_ok (t_registry s) k /\ (w_next k <= length (t_registry s) \/ w_alone k = false)%nat;
}.

Lemma t_step_inv s s' : t_inv s -> t_step s s' -> t_inv s'.
Proof.
  intros [E A F W] St. destruct St as [dbg sid ev clock time l t s _ ->|w mono real s Hw|w k i l s Hw Hf Hc|w k t i l s Hw Hf Hc|w k t e s Hw Hf Ht|w k i l s Hw Hf Hc|e s He].
  - split; cbn; [done|rewrite A; solve_Permutation|done|]. intros w k Hk. destruct (W _ _ Hk) as [[W1 W2] W3]. split; [split; [done|]|destruct W3; [left; rewrite length_app; cbn; lia|by right]].
    intros Ha. destruct W3; [|congruence]. rewrite take_app_le by lia. by apply W2.
  - split; cbn; [done| |done|].
    + rewrite A, firing_insert, delete_id by done. done.
    + intros w' k [[<- <-]|[_ Hk]]%lookup_insert_Some; [|by eapply W]. split; [split; [done|constructor]|left; cbn; lia].
  - rewrite check_run in Hc. destruct (t_registry s !! w_next k) as [t|] eqn:Hl; [|done]. destruct (decide _) as [|Hne]; [done|]. injection Hc as <- <-.
    destruct (W _ _ Hw) as [[W1 W2] W3]. split; cbn; [done| |done|].
    + rewrite A, (firing_lookup _ w k Hw), firing_insert, Hf. done.
    + intros w' k' [[<- <-]|[_ Hk]]%lookup_insert_Some; [|by eapply W]. split; [split; [done|]|left; cbn; apply lookup_lt_Some in Hl; lia].
      cbn. intros Ha. rewrite (take_S_r _ _ _ Hl). apply Forall_app. split; [by apply W2|by constructor].
  - rewrite check_run in Hc. destruct (t_registry s !! w_next k) as [t'|] eqn:Hl; [|done]. destruct (decide _) as [He|]; [|done]. injection Hc as <- <- <-.
    destruct (W _ _ Hw) as [[W1 W2] W3]. pose proof (delete_Permutation _ _ _ Hl) as Hp. split; cbn; [done| |done|].
    + rewrite A, firing_insert, (firing_lookup _ w k Hw), Hf. cbn [option_list w_firing app]. rewrite <- (firing_disturb (delete w _)), fmap_delete.
      rewrite Hp at 1. solve_Permutation.
    + intros w' k' [[<- <-]|[_ Hk]]%lookup_insert_Some.
      * split; [split; [by intros ? [= <-]|]|]; cbn.
        -- intros Ha. apply lookup_lt_Some in Hl as Hlt. rewrite delete_take_drop, take_app_length' by (rewrite length_take; lia). by apply W2.
        -- apply lookup_lt_Some in Hl as Hlt. left. rewrite length_delete by (by eexists). lia.
      * rewrite lookup_fmap in Hk. destruct (t_walks s !! w') as [k0|] eqn:Hk0; [|done]. injection Hk as <-. destruct (W _ _ Hk0) as [[? _] _].
        split; [by split|by right].
  - destruct (W _ _ Hw) as [[W1 W2] W3]. destruct (trigger_ok (to_scheme_id t) (event_id t) EV_READ (t_events s) E) as (e1 & He1 & Hq1). rewrite Ht in He1. injection He1 as <-.
    split; cbn; [done| | |].
    + rewrite A, (firing_lookup _ w k Hw), firing_insert, Hf, fmap_app. cbn. solve_Permutation.
    + apply Forall_app. split; [done|]. constructor; [|constructor]. cbn. by apply W1.
    + intros w' k' [[<- <-]|[_ Hk]]%lookup_insert_Some; [|by eapply W]. split; [by split|done].
  - rewrite check_run in Hc. destruct (t_registry s !! w_next k) as [t'|] eqn:Hl; [case_decide; done|]. injection Hc as <- <-. split; cbn; [done| |done|].
    + by rewrite A, (firing_lookup _ w k Hw), Hf.
    + intros w' k' [_ Hk]%lookup_delete_Some. by eapply W.
  - by split.
Qed.
Lemma t_reachable_inv s : t_reachable s -> t_inv s.
Proof. induction 1 as [e He|s s' _ IH St]; [|by eapply t_step_inv]. by split. Qed.

(** C34: Timeouts fire exactly when they have elapsed on the clock they name (one
    that names an unknown clock, at the next walk).
    - A walk over the registry that is not interrupted
      takes out the timeouts that have elapsed, triggers the event of
      each, in the order in which they were registered, and leaves the others; the
      loop, which removes entries while it walks over them, skips none and ends.
    - However registrations, the turns of any number of walks, which lock the
      registry one by one, and other events interleave: every timeout that was
      registered is in the registry, or was taken out by a walk that is about to
      trigger its event, or has fired, and only one of these, once for each
      registration; what has fired, or is about to, had elapsed on the clocks its
      walk read; and a walk that reaches the end of the registry, without another
      walk having removed an entry since it began, leaves none that had elapsed. *)
Theorem timeouts_trigger_exact (mono real : Z) (registry : list Timeout) (e : EventState) (s : TState) : queues_ok e -> t_reachable s ->
  (exists e', fire (filter (has_elapsed mono real) registry) e = Done (tt, e') /\
    timeouts_trigger mono real (registry, e) = Done (tt, (filter (fun t => ~ has_elapsed mono real t) registry, e'))) /\
  t_registered s ≡ₚ t_registry s ++ firing (t_walks s) ++ (t_fired s).*1 /\
  Forall (fun x => has_elapsed x.2.1 x.2.2 x.1) (t_fired s) /\
  forall w k, t_walks s !! w = Some k ->
    (forall t, w_firing k = Some t -> has_elapsed (w_mono k) (w_real k) t) /\
    (w_alone k = true -> (length (t_registry s) <= w_next k)%nat -> Forall (fun t => ~ has_elapsed (w_mono k) (w_real k) t) (t_registry s)).
Proof.
  intros Hq R. apply t_reachable_inv in R. split; [|split_and!; [apply R..|]].
  - apply (timeouts_loop_run mono real (S (length registry)) [] registry e); [lia|done].
  - intros w k Hk. destruct (ti_walks _ R _ _ Hk) as [[W1 W2] _]. split; [done|]. intros Ha Hl. specialize (W2 Ha). by rewrite take_ge in W2.
Qed.

(** ** Time values *)

(** The largest time a [TimeSpec] can hold. *)
Definition max_time : Z := 2 ^ 63 * NANOS_PER_SEC.

Lemma timespec_fields t : 0 <= t < max_time ->
  tv_sec (timespec_of t) = t / NANOS_PER_SEC /\ 0 <= t / NANOS_PER_SEC < 2 ^ 63 /\ 0 <= t mod NANOS_PER_SEC < NANOS_PER_SEC.
Proof.
  unfold max_time, NANOS_PER_SEC. intros Ht. assert (0 <= t / 1000000000 < 2 ^ 63) by (split; [apply Z.div_pos; lia|apply Z.div_lt_upper_bound; lia]).
  pose proof (Z.mod_pos_bound t 1000000000 ltac:(lia)). split_and!; try lia. cbn [timespec_of tv_sec]. unfold signed, NANOS_PER_SEC.
  rewrite (Z.mod_small _ (2 ^ 64)) by lia. by rewrite (proj2 (Z.ltb_lt _ (2 ^ (64 - 1)))) by lia.
Qed.

Lemma u128_small dbg {S} x (s : S) : x < 2 ^ 128 -> u128 dbg x s = Done (x, s).
Proof. intros H. unfold u128. by rewrite (proj2 (Z.ltb_lt _ _) H). Qed.
Lemma deadline_timespec {S} dbg t (s : S) : 0 <= t < max_time -> deadline dbg (timespec_of t) s = Done (t, s).
Proof.
  intros Ht. destruct (timespec_fields t Ht) as (Hsec & Hr & Hm). pose proof (Z.div_mod t NANOS_PER_SEC ltac:(done)) as Hd.
  unfold deadline, as_u128. rewrite Hsec. cbn [tv_nsec timespec_of]. unfold max_time, NANOS_PER_SEC in *.
  rewrite (Z.mod_small (t / _) (2 ^ 128)), (Z.mod_small (t mod _) (2 ^ 128)) by lia.
  rewrite (bind_Done _ _ _ _ _ (u128_small dbg (t / 1000000000 * 1000000000) s ltac:(lia))). rewrite u128_small by lia. do 2 f_equal. lia.
Qed.

(** Times survive the trip through user space: the [TimeSpec] the kernel writes
    for a time ([clock_gettime], the remaining time of [nanosleep]) reads back as the
    same [TimeSpec], and as a duration it is the original number of nanoseconds, for
    every time of fewer than [2^63] seconds, with and without overflow checks. *)
Theorem timespec_roundtrip {S} (dbg : bool) (t : Z) (s : S) : 0 <= t < max_time ->
  timespec_of_bytes (timespec_to_bytes (timespec_of t)) = timespec_of t /\
  Z.of_nat (length (timespec_to_bytes (timespec_of t))) = TIMESPEC_SIZE /\
  deadline dbg (timespec_of t) s = Done (t, s).
Proof.
  intros Ht. destruct (timespec_fields t Ht) as (Hsec & Hr & Hm). split_and!.
  - unfold timespec_of_bytes, timespec_to_bytes. rewrite take_app_length' by (by rewrite to_ne_length). rewrite drop_app_length' by (by rewrite to_ne_length).
    rewrite take_app_length' by (by rewrite to_ne_length). rewrite !from_to_ne. change (256 ^ Z.of_nat 8) with (2 ^ 64). change (256 ^ Z.of_nat 4) with (2 ^ 32).
    rewrite !Z.mod_mod by done. rewrite Hsec. cbn [tv_nsec timespec_of]. unfold NANOS_PER_SEC in *. rewrite (Z.mod_small (t / _)) by lia.
    rewrite (Z.mod_small (t mod 1000000000)) by lia. unfold signed. rewrite (proj2 (Z.ltb_lt (t / _) (2 ^ (64 - 1)))) by lia.
    rewrite (proj2 (Z.ltb_lt (t mod 1000000000) (2 ^ (32 - 1)))) by lia. unfold timespec_of. f_equal. unfold signed, NANOS_PER_SEC.
    rewrite (Z.mod_small (t / _)) by lia. by rewrite (proj2 (Z.ltb_lt (t / _) (2 ^ (64 - 1)))) by lia.
  - unfold timespec_to_bytes. rewrite !length_app, !to_ne_length. done.
  - by apply deadline_timespec.
Qed.

(** ** Sleeping *)

(** [nanosleep] sleeps until its deadline.  With no signal pending it puts the
    caller to sleep; as long as the deadline has not come the scheduler passes it
    over, on every CPU; from the deadline on the scheduler makes it runnable, and
    the call returns success with nothing remaining.  Woken before by something
    else, it returns [EINTR] with the time that is left. *)
Theorem nanosleep_until_deadline (dbg : bool) (cid : Z) (req : TimeSpec) (start : Z) (c : Ctx) (s : Sched) :
  ctxs s !! cid = Some c -> status c = Runnable -> sig_pending c = false -> 0 <= start ->
  0 <= tv_sec req < 2 ^ 63 -> 0 <= tv_nsec req < 2 ^ 31 -> start + tv_sec req * NANOS_PER_SEC + tv_nsec req < 2 ^ 128 ->
  let end_ := start + tv_sec req * NANOS_PER_SEC + tv_nsec req in
  exists s1 c1, nanosleep_begin dbg cid req start s = Done (Ok end_, s1) /\ ctxs s1 !! cid = Some c1 /\ status c1 = Blocked /\ wake c1 = Some end_ /\
    (forall s2 c2 now, ctxs s2 !! cid = Some c2 -> status c2 = Blocked -> wake c2 = Some end_ -> affinity_ok s2 ->
       (now < end_ -> update_runnable now cid s2 = Done (Skip, s2)) /\
       (end_ <= now -> running c2 = false -> mine (this_cpu s2) c2 = true -> exists s3 c3,
          update_runnable now cid s2 = Done (CanSwitch, s3) /\ ctxs s3 !! cid = Some c3 /\
          status c3 = Runnable /\ forall m, nanosleep_end cid end_ now None (s3, m) = Done (Ok tt, (set_ctx cid (set_wake None c3) s3, m)))) /\
    (forall s2 c2 now m, ctxs s2 !! cid = Some c2 -> wake c2 = Some end_ ->
       nanosleep_end cid end_ now None (s2, m) = Done (Err EINTR, (set_ctx cid (set_wake None c2) s2, m))) /\
    (forall now, end_ <= now -> remaining end_ now = mkTimeSpec 0 0) /\
    (forall now, 0 <= now < end_ -> end_ - now < max_time -> deadline dbg (remaining end_ now) s = Done (end_ - now, s)).
Proof.
  intros Hc Hr Hsig Hst Hsec Hns Hb end_.
  set (c1 := set_status Blocked "nanosleep" (set_wake (Some end_) c)).
  exists (set_ctx cid c1 s), c1. split_and!; [|cbn; apply lookup_insert_eq|done|done| | | |].
  - unfold nanosleep_begin, as_u128, NANOS_PER_SEC in *. rewrite !Z.mod_small by lia.
    rewrite (bind_Done _ _ _ _ _ (u128_small dbg (tv_sec req * 1000000000) s ltac:(lia))).
    rewrite (bind_Done _ _ _ _ _ (u128_small dbg (start + tv_sec req * 1000000000) s ltac:(lia))).
    rewrite (bind_Done _ _ _ _ _ (u128_small dbg end_ s Hb)). rewrite (bind_Done _ _ _ _ _ (the_ctx_run _ _ _ Hc)). rewrite Hsig.
    rewrite (bind_Done _ _ _ _ _ (update_ctx_run _ _ _ _ Hc)). unfold block, bind. cbn [ctxs set_ctx]. rewrite lookup_insert_eq.
    cbn [set_wake status]. rewrite Hr. cbn [is_runnable]. by rewrite set_ctx_twice.
  - intros s2 c2 now Hc2 Hs2 Hw2 Ha. pose proof (update_runnable_run now cid c2 s2 Ha Hc2) as Hrun. unfold eligible, awake, expired in Hrun.
    rewrite Hs2, Hw2 in Hrun. cbn [is_soft_blocked is_runnable andb orb] in Hrun. split.
    + intros Hlt. rewrite (proj2 (Z.leb_gt end_ now) Hlt), andb_false_r in Hrun. exact Hrun.
    + intros Hle Hnr Hm. rewrite (proj2 (Z.leb_le end_ now) Hle), Hnr, Hm in Hrun. eexists _, _. split_and!; [exact Hrun|cbn; apply lookup_insert_eq|done|].
      intros m. unfold nanosleep_end. cbn [ctxs set_ctx]. rewrite lookup_insert_eq. cbn [wake set_status set_wake]. done.
  - intros s2 c2 now m Hc2 Hw2. unfold nanosleep_end. rewrite Hc2, Hw2. done.
  - intros now Hle. unfold remaining. by rewrite (proj2 (Z.ltb_ge now end_) Hle).
  - intros now Hlt Hmax. unfold remaining. rewrite (proj2 (Z.ltb_lt now end_)) by lia. apply deadline_timespec. lia.
Qed.
End spec.

Module TimeWitnesses.
#[local] Instance clocks : ClockParams := {| CLOCK_REALTIME := 1; CLOCK_MONOTONIC := 4 |}.
#[local] Instance ev : EventParams := {| EV_READ := 1; EV_WRITE := 2; iter_watchers := map_to_list |}.
#[local] Instance ev_laws : EventLaws.
Proof. split. intros w. reflexivity. Qed.

Definition no_events : EventState := mkES ∅ ∅ ∅ 0 (mkSched ∅ 0 ∅ 0).
Definition set : list Timeout := [mkTimeout 8 1 4 50; mkTimeout 8 2 4 200; mkTimeout 8 3 1 90].
Lemma no_events_ok : queues_ok no_events.
Proof. intros q Hq. cbn in Hq. set_solver. Qed.
(** A timeout for the time 50 is registered and taken out by a walk at 100. *)
Definition first : Timeout := mkTimeout 8 1 4 50.
Definition taken : TState := mkT [] no_events {[0 := mkWalk 100 1000 0 (Some first) true]} [first] [].
Lemma taken_reachable : t_reachable taken.
Proof.
  eapply t_one; [eapply t_one; [eapply t_one; [apply (t_start no_events), no_events_ok|]|]|].
  - apply (T_register true 8 1 4 (mkTimeSpec 0 50) [first] first); [by vm_compute|done].
  - by apply (T_begin 0 100 1000).
  - apply (T_take 0 (mkWalk 100 1000 0 None true) first 0 []); [done|done|by vm_compute].
Qed.
Lemma timeouts_trigger_exact_witness :
  (exists e', fire (filter (has_elapsed 100 1000) set) no_events = Done (tt, e') /\
    timeouts_trigger 100 1000 (set, no_events) = Done (tt, (filter (fun t => ~ has_elapsed 100 1000 t) set, e'))) /\
  t_registered taken ≡ₚ t_registry taken ++ firing (t_walks taken) ++ (t_fired taken).*1 /\ has_elapsed 100 1000 first.
Proof.
  destruct (timeouts_trigger_exact 100 1000 set no_events taken no_events_ok taken_reachable) as (H1 & H2 & _ & H3).
  split_and!; [exact H1|exact H2|]. by apply (H3 0 (mkWalk 100 1000 0 (Some first) true)).
Defined.
Example timeouts_run : match timeouts_trigger 100 1000 (set, no_events) with Done (_, (l, _)) => l = [mkTimeout 8 2 4 200] | Panic => False end.
Proof. by vm_compute. Qed.

Lemma timespec_roundtrip_witness :
  timespec_of_bytes (timespec_to_bytes (timespec_of 1500000000)) = timespec_of 1500000000 /\
  Z.of_nat (length (timespec_to_bytes (timespec_of 1500000000))) = TIMESPEC_SIZE /\
  deadline true (timespec_of 1500000000) tt = Done (1500000000, tt).
Proof. apply (timespec_roundtrip true 1500000000 tt). by vm_compute. Defined.

Definition runner : Ctx := set_status Runnable "" new_ctx.
Definition one_cpu : Sched := mkSched {[7 := runner]} 0 ∅ 0.
Lemma nanosleep_until_deadline_witness : let end_ := 1000 + 2 * NANOS_PER_SEC + 5 in
  exists s1 c1, nanosleep_begin true 7 (mkTimeSpec 2 5) 1000 one_cpu = Done (Ok end_, s1) /\ ctxs s1 !! 7 = Some c1 /\ status c1 = Blocked /\ wake c1 = Some end_ /\
    (forall s2 c2 now, ctxs s2 !! 7 = Some c2 -> status c2 = Blocked -> wake c2 = Some end_ -> affinity_ok s2 ->
       (now < end_ -> update_runnable now 7 s2 = Done (Skip, s2)) /\
       (end_ <= now -> running c2 = false -> mine (this_cpu s2) c2 = true -> exists s3 c3,
          update_runnable now 7 s2 = Done (CanSwitch, s3) /\ ctxs s3 !! 7 = Some c3 /\
          status c3 = Runnable /\ forall m, nanosleep_end 7 end_ now None (s3, m) = Done (Ok tt, (set_ctx 7 (set_wake None c3) s3, m)))) /\
    (forall s2 c2 now m, ctxs s2 !! 7 = Some c2 -> wake c2 = Some end_ ->
       nanosleep_end 7 end_ now None (s2, m) = Done (Err EINTR, (set_ctx 7 (set_wake None c2) s2, m))) /\
    (forall now, end_ <= now -> remaining end_ now = mkTimeSpec 0 0) /\
    (forall now, 0 <= now < end_ -> end_ - now < max_time -> deadline true (remaining end_ now) one_cpu = Done (end_ - now, one_cpu)).
Proof. apply (nanosleep_until_deadline true 7 (mkTimeSpec 2 5) 1000 runner one_cpu); by vm_compute. Defined.
End TimeWitnesses.
