(* ===== verification/Capture.v ===== *)
(** * Captured buffers (src/scheme/user.rs, src/context/context.rs)

    How the buffers of a call reach a user-space scheme.  The whole pages of a
    buffer are lent to the scheme; its first and its last page, which also hold
    other data of the caller, are replaced by the caller's two kernel frames
    ([BorrowedHtBuf]), into and out of which the bytes are copied.  A
    [CaptureGuard] undoes the mapping when it is released or dropped.

    The bytes of a kernel frame are the number that [contents] holds for it, in
    little-endian order.  [dbg] is whether debug assertions are on. *)

From S2P Require Import Prelude PageInfo FrameAllocator Rmm OrdMap Grants CpuSet AddrSpace UserCopy Files.

(** [SyscallFrame] *)
Inductive SyscallFrame :=
| SFree (frame : Frame)
| SUsed (frame : Frame)
| SDummy.

(** [context::memory::DANGLING] *)
Definition DANGLING : Z := Z.shiftl 1 62.

Record BorrowedHtBuf := mkHt { ht_frame : Frame; head_and_not_tail : bool }.

Record CopyInfo := mkCopy { ci_src : option BorrowedHtBuf; ci_dst : option UserSlice }.
Definition no_copy : CopyInfo := mkCopy None None.

Record CaptureGuard := mkGuard {
  g_destroyed : bool;
  g_base : Z;
  g_len : Z;
  g_span : PageSpan;
  g_head : CopyInfo;
  g_tail : CopyInfo;
  g_addrsp : option Z;
}.

(** The first page of a range, the number of its pages and the offset in the
    first. *)
Definition page_range_containing (base size : Z) : Page * Z * Z :=
  let first_page := Page_containing_address base in
  let offset := base - Page_start_address first_page in
  (first_page, div_ceil (usize_add size offset) PAGE_SIZE, offset).

Section capture.
Context {PFA : PageFlagsApi} {MFA : MapFlagsApi} {PMA : PageMapperApi}.
Context (dbg : bool).

(** The address spaces, the memory of the caller, and the caller's
    [syscall_head] and [syscall_tail]. *)
Record CapState := mkCap {
  cap_k : Kernel;
  cap_um : UserMem;
  syscall_head : SyscallFrame;
  syscall_tail : SyscallFrame;
}.

Definition in_kernel {A} (m : M Kernel A) : M CapState A :=
  zoom cap_k (fun k s => mkCap k (cap_um s) (syscall_head s) (syscall_tail s)) m.
Definition in_caller {A} (m : M UserMem A) : M CapState A :=
  zoom cap_um (fun m s => mkCap (cap_k s) m (syscall_head s) (syscall_tail s)) m.

(** ** The caller's kernel frames *)

Definition slot_get (head : bool) (s : CapState) : SyscallFrame := if head then syscall_head s else syscall_tail s.
Definition slot_put (head : bool) (f : SyscallFrame) : M CapState unit :=
  modify (fun s => if head then mkCap (cap_k s) (cap_um s) f (syscall_tail s) else mkCap (cap_k s) (cap_um s) (syscall_head s) f).

(** [BorrowedHtBuf::head] and [BorrowedHtBuf::tail]: a frame that is not free
    is forgotten. *)
Definition ht_borrow (head : bool) : M CapState (result Error BorrowedHtBuf) :=
  let! s := get_state in
  match slot_get head s with
  | SFree frame => slot_put head (SUsed frame) ;;; ok (mkHt frame head)
  | SUsed _ | SDummy => slot_put head SDummy ;;; err EAGAIN
  end.
(** [Drop for BorrowedHtBuf] *)
Definition ht_drop (b : option BorrowedHtBuf) : M CapState unit :=
  match b with Some b => slot_put (head_and_not_tail b) (SFree (ht_frame b)) | None => ret tt end.
(** The frame is dropped when [m] fails. *)
Definition or_drop {A} (b : option BorrowedHtBuf) (m : M CapState (result Error A)) : M CapState (result Error A) :=
  let! r := m in
  match r with
  | Err e => ht_drop b ;;; err e
  | Ok _ => ret r
  end.

(** [buf()] and [buf_mut()] *)
Definition frame_bytes (m : Memory) (frame : Frame) : list Z :=
  to_ne_bytes (Z.to_nat PAGE_SIZE) (default 0 (contents m !! frame)).
Definition write_frame (frame : Frame) (bytes : list Z) : M CapState unit :=
  in_kernel (with_mem (modify (fun m => set_contents (<[frame := from_ne_bytes bytes]> (contents m)) m))).

(** ** Capturing *)

Definition prot_flags (READ WRITE : bool) : list MapFlag := (if READ then [PROT_READ] else []) ++ (if WRITE then [PROT_WRITE] else []).

(** The bytes [from] at an offset of the frame, and zeros around them; zeros
    only, if the scheme is not to read.  A copy that fails leaves what was
    between the zeros. *)
Definition fill_frame (READ : bool) (frame : Frame) (offset len : Z) (from : UserSlice) : M CapState (result Error unit) :=
  let zeros n := replicate (Z.to_nat n) 0 in
  if READ then
    let! s := get_state in
    let old := take (Z.to_nat len) (drop (Z.to_nat offset) (frame_bytes (mem (cap_k s)) frame)) in
    let around mid := zeros offset ++ mid ++ zeros (PAGE_SIZE - offset - len) in
    write_frame frame (around old) ;;;
    let? bytes := in_caller (copy_to_slice from len) in
    write_frame frame (around bytes) ;;;
    ok tt
  else write_frame frame (zeros PAGE_SIZE) ;;; ok tt.

(** One end of the buffer: a kernel frame, filled and mapped at [page]. *)
Definition capture_end (READ WRITE head : bool) (dst : Z) (page : Page) (offset len : Z) (from to : UserSlice) : M CapState (result Error CopyInfo) :=
  let? array := ht_borrow head in
  let frame := ht_frame array in
  or_drop (Some array)
    (let? _ := fill_frame READ frame offset len from in
     let! r := in_kernel (mmap dbg dst (Some page) 1 (mf_of (prot_flags READ WRITE ++ [MAP_FIXED_NOREPLACE]))
                 (fun dst_page page_flags => allocated_shared_one_page dbg frame dst_page page_flags dst true)) in
     match snd r with
     | Err e => err e
     | Ok _ => ok (mkCopy (Some array) (if WRITE then Some to else None))
     end).

(** The whole pages of the buffer, borrowed from the space [cur]. *)
Definition capture_middle (READ WRITE : bool) (cur dst : Z) (src_page dst_page : Page) (count : Z) : M CapState (result Error unit) :=
  if count =? 0 then ok tt
  else
    let! r := in_kernel (mmap dbg dst (Some dst_page) count (mf_of (prot_flags READ WRITE ++ [MAP_FIXED_NOREPLACE]))
                (fun dst_page _ => borrow dbg cur src_page dst_page count (mf_of (prot_flags READ WRITE)) dst true true)) in
    match snd r with Err e => err e | Ok _ => ok tt end.

(** [capture_inner] between different address spaces. *)
Definition capture_between (READ WRITE : bool) (cur dst : Z) (user_buf : UserSlice) : M CapState (result Error CaptureGuard) :=
  let '(src_page, page_count, offset) := page_range_containing (us_base user_buf) (us_len user_buf) in
  let align_offset := if offset =? 0 then 0 else PAGE_SIZE - offset in
  let! '(head_part, middle_tail_part) := unwrap (split_at user_buf (Z.min align_offset (us_len user_buf))) in
  let! dst_space := in_kernel (get_space dst) in
  match UserGrants_find_free (grants dst_space) (mmap_min dst_space) page_count with
  | None => err ENOMEM
  | Some free_span =>
      let? head :=
        (if us_is_empty head_part then ok no_copy
         else
           let len := Z.min (PAGE_SIZE - offset) (us_len user_buf) in
           let! from := unwrap (limit user_buf len) in
           capture_end READ WRITE true dst (span_base free_span) offset len from head_part) in
      let '(first_middle_dst_page, first_middle_src_page) :=
        (if us_is_empty head_part then (span_base free_span, src_page)
         else (Page_next_by (span_base free_span) 1, Page_next_by src_page 1)) in
      let middle_page_count := us_len middle_tail_part / PAGE_SIZE in
      let tail_size := us_len middle_tail_part mod PAGE_SIZE in
      let! '(_, tail_part) := unwrap (split_at middle_tail_part (middle_page_count * PAGE_SIZE)) in
      or_drop (ci_src head)
        (let? _ := capture_middle READ WRITE cur dst first_middle_src_page first_middle_dst_page middle_page_count in
         let? tail :=
           (if us_is_empty tail_part then ok no_copy
            else capture_end READ WRITE false dst (Page_next_by first_middle_dst_page middle_page_count) 0 tail_size tail_part tail_part) in
         let base := usize_add (Page_start_address (span_base free_span)) offset in
         let '(first_page, page_count, _) := page_range_containing base (us_len user_buf) in
         ok (mkGuard false base (us_len user_buf) (PageSpan_new first_page page_count) head tail (Some dst)))
  end.

(** [capture_inner]: [cur] is the current address space, [dst] that of the
    scheme's context if there still is one. *)
Definition capture_inner (READ WRITE : bool) (cur dst : option Z) (user_buf : UserSlice) : M CapState (result Error CaptureGuard) :=
  if us_is_empty user_buf then ok (mkGuard false DANGLING 0 PageSpan_empty no_copy no_copy None)
  else
    match cur, dst with
    | Some cur, Some dst =>
        if dst =? cur then ok (mkGuard false (us_base user_buf) (us_len user_buf) PageSpan_empty no_copy no_copy (Some dst))
        else capture_between READ WRITE cur dst user_buf
    | _, _ => err ESRCH
    end.

(** [copy_and_capture_tail], for a scheme whose context is gone ([None]) or has
    the address space [dst]: the rest of the frame keeps what it held. *)
Definition copy_and_capture_tail (dst : option (option Z)) (buf : list Z) : M CapState (result Error CaptureGuard) :=
  match dst with
  | None => err ENODEV
  | Some None => err ESRCH
  | Some (Some dst) =>
      let? tail := ht_borrow false in
      let tail_frame := ht_frame tail in
      or_drop (Some tail)
        (if PAGE_SIZE <? Z.of_nat (length buf) then err EINVAL
         else
           let! s := get_state in
           write_frame tail_frame (buf ++ drop (length buf) (frame_bytes (mem (cap_k s)) tail_frame)) ;;;
           let? dst_page := in_kernel (mmap_anywhere dbg dst 1 (mf_of [PROT_READ])
             (fun dst_page flags => allocated_shared_one_page dbg tail_frame dst_page flags dst true)) in
           let base := Page_start_address dst_page in
           let len := Z.of_nat (length buf) in
           let '(first_page, page_count, _) := page_range_containing base len in
           ok (mkGuard false base len (PageSpan_new first_page page_count) (mkCopy (Some tail) None) no_copy (Some dst)))
  end.

(** ** Releasing *)

(** Copying back one end of the buffer. *)
Definition copy_back (c : CopyInfo) (offset : Z) : M CapState (result Error unit) :=
  match ci_src c, ci_dst c with
  | Some src, Some dst =>
      let! s := get_state in
      in_caller (copy_from_slice dst (take (Z.to_nat (us_len dst)) (drop (Z.to_nat offset) (frame_bytes (mem (cap_k s)) (ht_frame src)))))
  | _, _ => ok tt
  end.

Definition release_inner (g : CaptureGuard) : M CapState (result Error unit) :=
  if g_destroyed g then ok tt
  else if g_base g =? DANGLING then ok tt
  else
    let? _ := copy_back (g_head g) (g_base g mod PAGE_SIZE) in
    let? _ := copy_back (g_tail g) 0 in
    match g_addrsp g with
    | Some addrsp =>
        if PageSpan_is_empty (g_span g) then ok tt
        else let? _ := in_kernel (munmap dbg addrsp (g_span g) true) in ok tt
    | None => ok tt
    end.

(** [release], and with the result ignored [drop]: the frames of the guard go
    back to the context. *)
Definition release (g : CaptureGuard) : M CapState (result Error unit) :=
  let! r := release_inner g in
  ht_drop (ci_src (g_head g)) ;;;
  ht_drop (ci_src (g_tail g)) ;;;
  ret r.
End capture.
