(* ===== verification/CaptureSpec.v ===== *)
(** * Theorems about captured buffers

    What a scheme gets to see of the buffer of a call, and what is left when the
    guard is released. *)

From S2P Require Import Prelude PageInfo FrameAllocator FrameAllocatorSpec FrameRefs Rmm OrdMap Grants GrantsSpec CpuSet AddrSpace AddrSpaceSpec UserCopy Files Capture.
Set Default Goal Selector "!".

(** ** Operations that leave something unchanged

    [keeps R m]: every run of [m] relates its states by the preorder [R]. *)

Definition keeps {S A} (R : S -> S -> Prop) (m : M S A) : Prop := forall s x s', m s = Done (x, s') -> R s s'.

Create HintDb keeps.

Section keeps.
Context {S : Type} (R : S -> S -> Prop) {HR : PreOrder R}.

Lemma keep_ret {A} (a : A) : keeps R (ret a).
Proof. intros s x s' [= <- <-]. reflexivity. Qed.
Lemma keep_panic {A} : keeps R (panic : M S A).
Proof. by intros s x s'. Qed.
Lemma keeps_unwrap {A} (o : option A) : keeps R (unwrap o).
Proof. destruct o; [apply keep_ret|apply keep_panic]. Qed.
Lemma keeps_gets {A} (f : S -> A) : keeps R (gets f).
Proof. intros s x s' [= <- <-]. reflexivity. Qed.
Lemma keeps_get_state : keeps R get_state.
Proof. intros s x s' [= <- <-]. reflexivity. Qed.
Lemma keeps_assert b : keeps R (assert_ b).
Proof. destruct b; [apply keep_ret|apply keep_panic]. Qed.
Lemma keeps_debug_assert d b : keeps R (debug_assert d b).
Proof. destruct d, b; first [apply keep_ret|apply keep_panic]. Qed.
Lemma keeps_err {E A} (e : E) : keeps R (err (A := A) e).
Proof. apply keep_ret. Qed.
Lemma keeps_ok {E A} (a : A) : keeps R (ok (E := E) a).
Proof. apply keep_ret. Qed.
Lemma keep_bind {A B} (m : M S A) (k : A -> M S B) : keeps R m -> (forall a, keeps R (k a)) -> keeps R (bind m k).
Proof. intros Hm Hk s x s' (a & s1 & H1 & H2)%bind_Done_inv. etransitivity; [by eapply Hm|by eapply Hk]. Qed.
Lemma keep_bind_result {E A B} (m : M S (result E A)) (k : A -> M S (result E B)) :
  keeps R m -> (forall a, keeps R (k a)) -> keeps R (bind_result m k).
Proof. intros Hm Hk. apply keep_bind; [done|]. intros []; [apply Hk|apply keep_ret]. Qed.
Lemma keep_forM {A} (l : list A) (f : A -> M S unit) : (forall a, keeps R (f a)) -> keeps R (forM l f).
Proof. intros Hf. induction l; [apply keep_ret|]. apply keep_bind; [done|by intros _]. Qed.
End keeps.
#[export] Hint Resolve keep_ret keep_panic keeps_unwrap keeps_gets keeps_get_state keeps_assert keeps_debug_assert keeps_err keeps_ok : keeps.
#[export] Hint Extern 0 (PreOrder _) => typeclasses eauto : keeps.

(** Goes through the binds and the cases of a definition. *)
Ltac keep := repeat first [match goal with |- forall _, _ => intro end | solve [eauto with keeps] | apply keep_bind | apply keep_bind_result | apply keep_forM | case_match].

(** *** The frame allocator does not write to memory when it frees. *)

Definition same_contents (m m' : Memory) : Prop := contents m' = contents m.
#[export] Instance same_contents_preorder : PreOrder same_contents.
Proof. split; [done|]. intros x y z. unfold same_contents. congruence. Qed.

Lemma keeps_modify_mem (f : Memory -> Memory) : (forall m, contents (f m) = contents m) -> keeps same_contents (modify f).
Proof. intros Hf s x s' [= <- <-]. apply Hf. Qed.
Lemma keeps_with_info {A} r (m : M PageInfo A) : keeps same_contents (with_info r m).
Proof. intros s x s'. unfold with_info. repeat case_match; [|done..]. by intros [= <- <-]. Qed.
Lemma keeps_load_info r : keeps same_contents (load_info r).
Proof. intros s x s'. unfold load_info. case_match; [|done]. by intros [= <- <-]. Qed.
#[export] Hint Resolve keeps_with_info keeps_load_info : keeps.
#[export] Hint Extern 1 (keeps same_contents (modify _)) => apply keeps_modify_mem; done : keeps.

Lemma keeps_offset_from a b : keeps same_contents (offset_from a b).
Proof. unfold offset_from. keep. Qed.
Lemma keeps_containing a : keeps same_contents (containing a).
Proof. unfold containing. keep. Qed.
Lemma keeps_next_by a n : keeps same_contents (next_by a n).
Proof. unfold next_by. keep. Qed.
#[export] Hint Resolve keeps_offset_from keeps_containing keeps_next_by : keeps.
Lemma keeps_page_info f : keeps same_contents (get_page_info f).
Proof. unfold get_page_info. keep. Qed.
#[export] Hint Resolve keeps_page_info : keeps.
Lemma keeps_free_info f : keeps same_contents (get_free_alloc_page_info f).
Proof. unfold get_free_alloc_page_info. keep. Qed.
Lemma keeps_order o f : keeps same_contents (set_order o f).
Proof. unfold set_order. keep. Qed.
Lemma keeps_get_order o : keeps same_contents (get_order o).
Proof. unfold get_order. keep. Qed.
#[export] Hint Resolve keeps_free_info keeps_order keeps_get_order : keeps.
Lemma keeps_unlink_sibling d a b o : keeps same_contents (unlink_sibling d a b o).
Proof. unfold unlink_sibling. keep. Qed.
#[export] Hint Resolve keeps_unlink_sibling : keeps.
Lemma keeps_merge d l : forall c o, keeps same_contents (merge_loop d l c o).
Proof. induction l as [|x l IH]; simpl; keep. Qed.
Lemma keeps_push d h o : keeps same_contents (push_head d h o).
Proof. unfold push_head. keep. Qed.
#[export] Hint Resolve keeps_merge keeps_push : keeps.
Lemma keeps_deallocate d f : keeps same_contents (deallocate_frame d f).
Proof. unfold deallocate_frame, deallocate_p2frame. keep. Qed.
#[export] Hint Resolve keeps_deallocate : keeps.
Lemma keeps_free_action {PFA : PageFlagsApi} {PMA : PageMapperApi} d f n : keeps same_contents (handle_free_action d f n).
Proof. unfold handle_free_action. keep. Qed.
#[export] Hint Resolve keeps_free_action : keeps.

(** *** The page tables and grants of address spaces *)

Section spec.
Context {PFA : PageFlagsApi} {PFL : PageFlagsLaws} {MFA : MapFlagsApi} {MFL : MapFlagsLaws} {PMA : PageMapperApi} {PML : PageMapperLaws}.

Definition core (a : AddrSpace) : PageTable * UserGrants * Z := (utable a, grants a, mmap_min a).
Definition same_cores (k k' : Kernel) : Prop :=
  contents (mem k') = contents (mem k) /\ forall s, core <$> spaces k' !! s = core <$> spaces k !! s.
#[export] Instance same_cores_preorder : PreOrder same_cores.
Proof. split; [done|]. intros x y z [H1 H2] [H3 H4]. split; [congruence|]. intros s. by rewrite H4. Qed.

Lemma keeps_with_mem {A} (m : M Memory A) : keeps same_contents m -> keeps same_cores (with_mem m).
Proof. intros Hm s x s'. unfold with_mem. destruct (m (mem s)) as [[y m']|] eqn:E; [|done]. intros [= <- <-]. split; [by eapply Hm|done]. Qed.
Hint Resolve keeps_with_mem : keeps.
Lemma keeps_get_space sid : keeps same_cores (get_space sid).
Proof. unfold get_space. keep. Qed.
Hint Resolve keeps_get_space : keeps.
Lemma put_space_core sid a b k : spaces k !! sid = Some a -> core b = core a -> same_cores k (set_spaces (<[sid := b]> (spaces k)) k).
Proof.
  intros Ha Hb. split; [done|]. intros s. simpl. destruct (decide (s = sid)) as [->|].
  - by rewrite lookup_insert_eq, Ha; simpl; rewrite Hb.
  - by rewrite lookup_insert_ne.
Qed.
Lemma keeps_update_space sid f : (forall a, core (f a) = core a) -> keeps same_cores (update_space sid f).
Proof.
  intros Hf s x s' (a & s1 & H1 & H2)%bind_Done_inv. unfold get_space in H1. apply bind_Done_inv in H1 as (k & s2 & [= <- <-] & H1).
  destruct (spaces s !! sid) as [b|] eqn:E; [|done]. injection H1 as <- <-. injection H2 as <- <-. by eapply put_space_core.
Qed.

Hint Extern 1 (keeps same_cores (update_space _ _)) => apply keeps_update_space; done : keeps.

Lemma keeps_flush d sid : keeps same_cores (Flusher_flush d sid).
Proof.
  intros k x k' H. unfold Flusher_flush in H. apply bind_Done_inv in H as (a & k1 & H1 & H).
  assert (k1 = k /\ spaces k !! sid = Some a) as [-> Ha].
  { unfold get_space in H1. apply bind_Done_inv in H1 as (k0 & k2 & [= <- <-] & H1). destruct (spaces k !! sid); [|done]. by injection H1 as <- <-. }
  assert (Hgo : forall q b k1 (l : list PageQueueEntry), (put_space sid (set_queue q b a) ;;;
      let! cpu := gets cur_cpu in
      modify (fun k => mkKernel (mem k) (spaces k) (cur_cpu k)
        (tlb_log k ++ map ShootdownIpi (filter (fun c => c <> cpu) (cpu_iter (used_by a))) ++ (if bool_decide (cpu ∈ cpu_iter (used_by a)) then [FlushLocal] else []))) ;;;
      forM l (fun entry => match entry with QFree base cnt => with_mem (handle_free_action d base cnt) | QOther _ => ret tt end)) k = Done (tt, k1) -> same_cores k k1).
  { intros q b k1 l Hr. apply bind_Done_inv in Hr as (u & k2 & [= <- <-] & Hr). apply bind_Done_inv in Hr as (c & k3 & [= <- <-] & Hr).
    apply bind_Done_inv in Hr as (u' & k4 & [= <- <-] & Hr). transitivity (set_spaces (<[sid := set_queue q b a]> (spaces k)) k); [by eapply put_space_core|].
    etransitivity; [|eapply (keep_forM same_cores); [|exact Hr]; keep]. done. }
  destruct x. destruct (pagequeue a) as [|e q] eqn:Eq; [destruct (dirty a)|].
  - by eapply Hgo.
  - by injection H as <-.
  - by eapply Hgo.
Qed.
Hint Resolve keeps_flush : keeps.
Lemma keeps_queue d sid f n act : keeps same_cores (Flusher_queue d sid f n act).
Proof. unfold Flusher_queue. keep. Qed.
Hint Resolve keeps_queue : keeps.

(** *** Pages gained by one space *)

Abbreviation tr t q := (pt_translate t (q * PAGE_SIZE)).
Abbreviation table k s := (utable <$> spaces k !! s).

(** Nothing changed but the table of [dst], and a page of it only to something
    that [T] allows. *)
Record lends (dst : Z) (T : Z -> Z -> PageFlags -> Prop) (k k' : Kernel) : Prop := {
  ld_contents : contents (mem k') = contents (mem k);
  ld_others : forall s, s <> dst -> table k' s = table k s;
  ld_dst : forall a, spaces k !! dst = Some a -> exists a', spaces k' !! dst = Some a' /\ grants a' = grants a /\ mmap_min a' = mmap_min a /\
    forall q, tr (utable a') q = tr (utable a) q \/ exists f fl, tr (utable a') q = Some (f, fl) /\ T q f fl;
}.
#[export] Instance lends_preorder dst T : PreOrder (lends dst T).
Proof.
  split.
  - intros k. split; [done|done|]. intros a Ha. exists a. split_and!; [done..|]. by left.
  - intros x y z [C1 O1 D1] [C2 O2 D2]. split; [congruence| |].
    + intros s Hs. by rewrite O2, O1.
    + intros a Ha. destruct (D1 a Ha) as (b & Hb & Hg & Hm & Hq). destruct (D2 b Hb) as (c & Hc & Hg' & Hm' & Hq').
      exists c. split_and!; [done|congruence|congruence|]. intros q. destruct (Hq' q) as [->|?]; [apply Hq|by right].
Qed.

Lemma cores_lends dst T k k' : same_cores k k' -> lends dst T k k'.
Proof.
  intros [Hc Hs]. split; [done| |].
  - intros s _. specialize (Hs s). destruct (spaces k' !! s) as [b|], (spaces k !! s) as [a|]; try done. unfold core in Hs. simpl in *. congruence.
  - intros a Ha. specialize (Hs dst). rewrite Ha in Hs. destruct (spaces k' !! dst) as [b|]; [|done]. unfold core in Hs. simpl in Hs.
    injection Hs as Hu Hg Hm. exists b. split_and!; [done..|]. intros q. left. by rewrite Hu.
Qed.
Lemma keeps_cores {A} dst T (m : M Kernel A) : keeps same_cores m -> keeps (lends dst T) m.
Proof. intros Hm k x k' H. by apply cores_lends, (Hm k x). Qed.

Lemma get_space_inv sid k a k' : get_space sid k = Done (a, k') -> k' = k /\ spaces k !! sid = Some a.
Proof.
  unfold get_space. intros (k0 & k1 & [= <- <-] & H)%bind_Done_inv. destruct (spaces k !! sid); [|done]. by injection H as <- <-.
Qed.
Lemma translate_inv sid va k r k' : translate sid va k = Done (r, k') -> k' = k /\ exists a, spaces k !! sid = Some a /\ r = pt_translate (utable a) va.
Proof. intros (a & k1 & [-> Ha]%get_space_inv & [= <- <-])%bind_Done_inv. eauto. Qed.

Lemma map_phys_inv sid q f fl k k' : map_phys sid (q * PAGE_SIZE) f fl k = Done (Some tt, k') ->
  exists a t', spaces k !! sid = Some a /\ k' = set_spaces (<[sid := set_utable t' a]> (spaces k)) k /\ table_change (utable a) t' q (Some (f, fl)).
Proof.
  intros (a & k1 & [-> Ha]%get_space_inv & H)%bind_Done_inv. destruct (pt_map_phys (utable a) (q * PAGE_SIZE) f fl) as [t'|] eqn:E; [|done].
  injection H as <-. exists a, t'. split_and!; [done..|]. intros p'.
  rewrite (translate_map _ _ _ _ _ _ (page_addr_aligned q) (page_addr_aligned p') E). unfold PAGE_SIZE. repeat case_decide; done || lia.
Qed.

Lemma map_phys_lends dst T q f fl : T q f fl -> keeps (lends dst T) (map_phys dst (q * PAGE_SIZE) f fl).
Proof.
  intros HT k [[]|] k' H.
  - apply map_phys_inv in H as (a & t' & Ha & -> & Ht). split; [done| |].
    + intros s Hs. simpl. by rewrite lookup_insert_ne.
    + intros b Hb. rewrite Ha in Hb. injection Hb as <-. exists (set_utable t' a). simpl. rewrite lookup_insert_eq. split_and!; [done..|].
      intros p'. specialize (Ht p'). case_decide; [subst; right; by exists f, fl|by left].
  - apply bind_Done_inv in H as (a & k1 & [-> Ha]%get_space_inv & H). case_match; [done|]. by injection H as <-.
Qed.

Lemma update_grant_lends src dst T b f : src <> dst -> keeps (lends dst T) (update_grant src b f).
Proof.
  intros Hne k x k' (a & k1 & [-> Ha]%get_space_inv & H)%bind_Done_inv. injection H as <- <-. split; [done| |].
  - intros s _. simpl. destruct (decide (s = src)) as [->|]; [by rewrite lookup_insert_eq, Ha|by rewrite lookup_insert_ne].
  - intros c Hc. exists c. simpl. rewrite lookup_insert_ne by done. split_and!; [done..|]. by left.
Qed.

Lemma keeps_for_flow {S A B} (R : S -> S -> Prop) {HR : PreOrder R} (l : list A) (body : A -> M S (flow B)) :
  (forall a, a ∈ l -> keeps R (body a)) -> keeps R (for_flow l body).
Proof.
  induction l as [|a l IH]; intros Hb; [apply keep_ret, HR|]. apply (keep_bind R); [apply Hb, list_elem_of_here|].
  intros [| |r]; [|by apply keep_ret..]. apply IH. intros b Hin. apply Hb. by apply list_elem_of_further.
Qed.

Lemma borrow_check_lends src dst T sb mf l : src <> dst -> forall prev, keeps (lends dst T) (borrow_check src sb mf l prev).
Proof.
  intros Hne. induction l as [|[b i] l IH]; intros prev; simpl; [apply keeps_ok, _|].
  repeat match goal with |- keeps _ (if ?b then _ else _) => destruct b; [apply keeps_err, _|] end.
  apply (keep_bind (lends dst T)); [|intros _; apply IH]. case_match; [by apply update_grant_lends|apply keep_ret, _].
Qed.

(** The pages of a borrowed range are mapped, if at all, to the frames the
    source has there, and not writable beyond the flags of the borrow. *)
Definition borrowed (ts : PageTable) (sb db n : Z) (mf : MapFlags) (q f : Z) (fl : PageFlags) : Prop :=
  db <= q < db + n /\ (has_write fl = true -> has_write (page_flags mf) = true) /\
  exists fl0, tr ts (q - db + sb) = Some (f, fl0).

Lemma elem_of_combine {A B C} (f : A -> B) (g : A -> C) l x y : (x, y) ∈ combine (map f l) (map g l) -> exists a, a ∈ l /\ x = f a /\ y = g a.
Proof.
  induction l as [|a l IH]; simpl; [by intros ?%not_elem_of_nil|]. intros [[= -> ->]|H]%elem_of_cons.
  - exists a. split; [apply list_elem_of_here|done].
  - destruct (IH H) as (b & ? & ?). exists b. split; [by apply list_elem_of_further|done].
Qed.
Lemma in_pages i (p : Z) (n b : Z) : span_ok (mkPageSpan b n) -> (i, p) ∈ combine (range n) (PageSpan_pages (mkPageSpan b n)) ->
  0 <= i < n /\ p = b + i.
Proof.
  intros (H1 & H2 & H3) (j & Hj%elem_of_seq & -> & ->)%elem_of_combine. simpl in *. rewrite page_next_by_ok by pages. lia.
Qed.

(** One page of the loop of [borrow]. *)
Definition borrow_page (dbg : bool) (src dst db : Z) (flags : PageFlags) (ip : Z * Z) : M Kernel (flow Error) :=
  let '(i, page) := ip in
  let! t := translate src (Page_start_address page) in
  match t with
  | None => ret Next
  | Some (phys, _) =>
      let! frame := containing phys in
      let! info := with_mem (get_page_info frame) in
      let! writable :=
        match info with
        | None => ret (Some true)
        | Some i =>
            let! r := with_mem (with_info i (add_ref RefKind_Shared)) in
            match r with
            | Err _ => ret None
            | Ok _ => let! p := with_mem (load_info i) in let! w := allows_writable p in ret (Some w)
            end
        end in
      match writable with
      | None => ret Next
      | Some writable =>
          let! m := map_phys dst (Page_start_address (Page_next_by db i)) phys (pf_write (has_write flags && writable) flags) in
          match m with
          | None => ret (Return ENOMEM)
          | Some _ => let! frame := containing phys in Flusher_queue dbg dst frame None TLB_NEW_MAPPING ;;; ret Next
          end
      end
  end.

Lemma run_keeps {S A} (R : S -> S -> Prop) (m : M S A) s x s' : m s = Done (x, s') -> keeps R m -> R s s'.
Proof. eauto. Qed.

Lemma borrow_page_lends dbg src sb db n mf dst ts i k x k' : 0 <= i < n -> span_ok (mkPageSpan sb n) -> span_ok (mkPageSpan db n) ->
  table k src = Some ts -> borrow_page dbg src dst db (page_flags mf) (i, sb + i) k = Done (x, k') -> lends dst (borrowed ts sb db n mf) k k'.
Proof.
  intros Hi (Hsb & Hs0 & Hs) (Hdb & Hd0 & Hd) Hx Hb. simpl in *. apply bind_Done_inv in Hb as (t & x1 & [-> (b & Hb1 & ->)]%translate_inv & Hb).
  rewrite Hb1 in Hx. injection Hx as Hx. rewrite Hx in Hb. rewrite start_address_user in Hb by lia.
  destruct (tr ts (sb + i)) as [[phys fl0]|] eqn:Etr; [|by injection Hb as <- <-].
  apply bind_Done_inv in Hb as (f & x2 & Hf & Hb). apply bind_Done_inv in Hb as (inf & x3 & Hinf & Hb).
  apply bind_Done_inv in Hb as (w & x4 & Hw & Hb).
  assert (same_cores k x4) as Hl3.
  { transitivity x2; [apply (run_keeps _ _ _ _ _ Hf); unfold containing; keep|].
    transitivity x3; [apply (run_keeps _ _ _ _ _ Hinf); keep|]. apply (run_keeps _ _ _ _ _ Hw). unfold allows_writable. keep. }
  transitivity x4; [by apply cores_lends|]. destruct w as [w|]; [|by injection Hb as <- <-].
  apply bind_Done_inv in Hb as (m & x5 & Hm & Hb). transitivity x5.
  - rewrite page_next_by_ok, start_address_user in Hm by pages. revert Hm. apply map_phys_lends. split; [lia|]. split.
    + rewrite has_write_write. by intros [? _]%andb_true_iff.
    + exists fl0. by replace (db + i - db + sb) with (sb + i) by lia.
  - apply cores_lends. destruct m as [[]|]; [|by injection Hb as <- <-]. apply (run_keeps _ _ _ _ _ Hb). unfold containing. keep.
Qed.

Lemma borrow_inv dbg src sb db n mf dst eager pin k r k' ts : src <> dst -> span_ok (mkPageSpan sb n) -> span_ok (mkPageSpan db n) ->
  table k src = Some ts -> borrow dbg src sb db n mf dst eager pin k = Done (r, k') ->
  lends dst (borrowed ts sb db n mf) k k' /\
  forall g, r = Ok g -> g = mkGrant db (mkGrantInfo n (page_flags mf) true (External src sb pin)).
Proof.
  intros Hne Hs Hd Hts H. unfold borrow in H. set (T := borrowed ts sb db n mf).
  apply bind_Done_inv in H as (a & k1 & [-> Ha]%get_space_inv & H).
  apply bind_Done_inv in H as (prev & k1 & Hc & H). apply (borrow_check_lends src dst T) in Hc; [|done].
  destruct prev as [[last|]|e].
  2,3: injection H as <- <-; by split.
  destruct (_ <? _); [injection H as <- <-; by split|].
  apply bind_Done_inv in H as (o & k2 & Hl & H).
  assert (Hk1 : table k1 src = Some ts) by (rewrite <- Hts; by apply (ld_others _ _ _ _ Hc)).
  assert (HR : lends dst T k1 k2).
  { destruct eager; [|by injection Hl as <- <-]. revert Hk1.
    set (R := fun x y : Kernel => table x src = Some ts -> lends dst T x y).
    assert (PreOrder R) as HRo.
    { split; [by intros x Hx|]. intros x y z H1 H2 Hx. specialize (H1 Hx). transitivity y; [done|]. apply H2. rewrite <- Hx.
      by apply (ld_others _ _ _ _ H1). }
    apply (keeps_for_flow R _ (borrow_page dbg src dst db (page_flags mf))) in Hl; [exact Hl|]. intros [i p] (j & Hin & _)%elem_of_take x y x' Hb Hx.
    apply list_elem_of_lookup_2, in_pages in Hin as [Hi ->]; [|done]. by eapply borrow_page_lends. }
  assert (lends dst T k k2) by (by transitivity k1).
  destruct o; injection H as <- <-; (split; [done|by intros ? [= <-]]).
Qed.

(** *** Mapping into a space *)

(** The space [dst] has gained a grant at the free pages [p], ..., [p + n - 1],
    and the contents of memory are [C]. *)
Record gained (dst : Z) (k k' : Kernel) (a a' : AddrSpace) (p n : Z) (A : Z -> Attr) (T : Z -> Z -> PageFlags -> Prop) (C : gmap Z Z) : Prop := {
  gn_space : spaces k' !! dst = Some a';
  gn_inv : GrantsSpec.Inv (grants a');
  gn_min : mmap_min a' = mmap_min a;
  gn_free : forall q, p <= q < p + n -> gview (grants a) q = None;
  gn_view : forall q, gview (grants a') q = if decide (p <= q < p + n) then Some (A q) else gview (grants a) q;
  gn_table : forall q, tr (utable a') q = tr (utable a) q \/ exists f fl, tr (utable a') q = Some (f, fl) /\ T q f fl;
  gn_contents : contents (mem k') = C;
  gn_others : forall s, s <> dst -> table k' s = table k s;
}.

(** [mmap] at a fixed free place: [map] builds the grant [G], and [D] holds of
    the table it leaves. *)
Lemma mmap_gain dbg dst p n fl map k r q k' a T D G : spaces k !! dst = Some a -> GrantsSpec.Inv (grants a) ->
  span_ok (mkPageSpan p n) -> 0 < n -> mf_contains fl MAP_FIXED_NOREPLACE = true -> Grant_span G = mkPageSpan p n ->
  (forall g k1, map p (page_flags fl) k = Done (Ok g, k1) -> lends dst T k k1 /\ g = G /\ forall t, table k1 dst = Some t -> D t) ->
  mmap dbg dst (Some p) n fl map k = Done (r, k') -> snd r = Ok q ->
  exists a', gained dst k k' a a' p n (attr_at (base G, info G)) T (contents (mem k)) /\ D (utable a').
Proof.
  intros Ha HI Hs Hn Hf HG Hmap H Hq. unfold mmap in H. rewrite (bind_Done _ _ _ _ _ (get_space_run _ _ _ Ha)), Hf in H.
  unfold PageSpan_new in H. destruct (UserGrants_conflicts (grants a) (mkPageSpan p n)) as [|c cs] eqn:Ec; [|injection H as <- <-; done].
  pose proof (proj1 (conflicts_nil _ _ HI Hs) Ec) as Hfree. rewrite bind_ret in H. cbn in H.
  apply bind_Done_inv in H as (g & k1 & Hm & H). apply bind_Done_inv in H as ([] & k2 & Hfl & H).
  destruct g as [g|e]; [|injection H as <- <-; done]. destruct (Hmap _ _ Hm) as (HL & -> & HD).
  assert (HL2 : same_cores k1 k2) by by apply (run_keeps _ _ _ _ _ Hfl), keeps_flush.
  assert (HL' : lends dst T k k2) by (transitivity k1; [done|by apply cores_lends]).
  destruct (ld_dst _ _ _ _ HL' a Ha) as (a2 & Ha2 & Hg2 & Hm2 & Hq2).
  assert (HD2 : D (utable a2)).
  { apply HD. pose proof (proj2 HL2 dst) as Hc. rewrite Ha2 in Hc. destruct (spaces k1 !! dst) as [b|]; [|done]. unfold core in Hc. simpl in *. congruence. }
  apply bind_Done_inv in H as ([] & k3 & Hi & H). injection H as <- <-.
  assert (HI2 : GrantsSpec.Inv (grants a2)) by by rewrite Hg2.
  destruct (insert_ok (grants a2) G HI2) as (ug' & Hr & HI' & Hv).
  { by rewrite HG. } { apply (f_equal span_count) in HG. simpl in HG. by rewrite HG. } { rewrite HG, Hg2. exact Hfree. }
  rewrite (with_grants_run _ _ _ _ _ _ Ha2 Hr) in Hi. injection Hi as <-.
  exists (set_grants ug' a2). split; [|done]. split; simpl; [apply lookup_insert_eq|done|done|exact Hfree| |done|by rewrite (ld_contents _ _ _ _ HL')|].
  - intros x. rewrite Hv, HG, Hg2. unfold in_span, span_end. simpl. done.
  - intros s Hne. rewrite lookup_insert_ne by done. by apply (ld_others _ _ _ _ HL').
Qed.

Lemma shared_page_inv dbg frame p fl dst pin k g k1 : 0 <= p < USER_END_PAGE -> allocated_shared_one_page dbg frame p fl dst pin k = Done (Ok g, k1) ->
  lends dst (fun q f fl' => q = p /\ f = frame /\ fl' = fl) k k1 /\ g = mkGrant p (mkGrantInfo 1 fl true (AllocatedShared pin)) /\
  forall t, table k1 dst = Some t -> tr t p = Some (frame, fl).
Proof.
  intros Hp H. unfold allocated_shared_one_page in H. set (T := fun q f fl' => _).
  apply bind_Done_inv in H as (i & k2 & H1 & H). apply bind_Done_inv in H as (j & k3 & H2 & H).
  apply bind_Done_inv in H as (r & k4 & H3 & H).
  assert (same_cores k k4) as Hc.
  { transitivity k2; [apply (run_keeps _ _ _ _ _ H1); keep|]. transitivity k3; [apply (run_keeps _ _ _ _ _ H2); keep|].
    apply (run_keeps _ _ _ _ _ H3). keep. }
  destruct r; [|done]. apply bind_Done_inv in H as (m & k5 & Hm & H). destruct m as [[]|]; [|done].
  apply bind_Done_inv in H as ([] & k6 & Hqu & [= <- <-]). rewrite start_address_user in Hm by done.
  apply (keeps_queue dbg) in Hqu. split_and!; [|done|].
  - transitivity k4; [by apply cores_lends|]. transitivity k5; [|by apply cores_lends]. revert Hm. by apply map_phys_lends.
  - intros t Ht. apply map_phys_inv in Hm as (sp & t' & Hsp & -> & Hch). pose proof (proj2 Hqu dst) as Hcq. simpl in Hcq. rewrite lookup_insert_eq in Hcq.
    destruct (spaces k6 !! dst) as [b|]; [|done]. injection Ht as <-. unfold core in Hcq. simpl in Hcq. injection Hcq as -> _ _.
    rewrite Hch. by rewrite decide_True.
Qed.

(** *** The two ends of a buffer *)

Definition zeros (n : Z) : list Z := replicate (Z.to_nat n) 0.

Definition filled (READ : bool) (m : UserMem) (from : UserSlice) (off len : Z) (bytes : list Z) : Prop :=
  if READ then exists ub, copy_from_user m (us_base from) (us_len from) = Some ub /\ us_len from = len /\ bytes = zeros off ++ ub ++ zeros (PAGE_SIZE - off - len)
  else bytes = zeros PAGE_SIZE.

Lemma write_frame_run f l (s : CapState) : write_frame f l s =
  Done (tt, mkCap (set_mem (set_contents (<[f := from_ne_bytes l]> (contents (mem (cap_k s)))) (mem (cap_k s))) (cap_k s)) (cap_um s) (syscall_head s) (syscall_tail s)).
Proof. done. Qed.

(** The state with other contents of memory. *)
Definition with_contents (c : gmap Z Z) (s : CapState) : CapState :=
  mkCap (set_mem (set_contents c (mem (cap_k s))) (cap_k s)) (cap_um s) (syscall_head s) (syscall_tail s).

Lemma fill_inv READ f off len from (s s' : CapState) : fill_frame READ f off len from s = Done (Ok tt, s') ->
  exists bytes, filled READ (cap_um s) from off len bytes /\ s' = with_contents (<[f := from_ne_bytes bytes]> (contents (mem (cap_k s)))) s.
Proof.
  unfold fill_frame. destruct READ.
  - rewrite (bind_Done get_state _ _ _ _ eq_refl), (bind_Done _ _ _ _ _ (write_frame_run _ _ _)). intros H.
    apply bind_Done_inv in H as (r & s1 & H1 & H). unfold in_caller, zoom, copy_to_slice in H1. simpl in H1.
    destruct (Z.eqb_spec (us_len from) len) as [Hl|]; [|injection H1 as <- <-; done]. simpl in H1.
    destruct (copy_from_user (cap_um s) (us_base from) (us_len from)) as [ub|] eqn:Ec; [|injection H1 as <- <-; done].
    injection H1 as <- <-. rewrite (bind_Done _ _ _ _ _ (write_frame_run _ _ _)) in H. injection H as <-.
    eexists. split; [by exists ub|]. unfold with_contents. simpl. by rewrite insert_insert_eq.
  - rewrite (bind_Done _ _ _ _ _ (write_frame_run _ _ _)). intros [= <-]. by eexists.
Qed.

(** The memory of the caller holds bytes. *)
Definition bytes_ok (m : UserMem) : Prop := forall x b, um_bytes m !! x = Some b -> 0 <= b < 256.

Lemma to_from_ne l : Forall (fun b => 0 <= b < 256) l -> to_ne_bytes (length l) (from_ne_bytes l) = l.
Proof.
  induction 1 as [|b l Hb _ IH]; simpl; [done|]. f_equal.
  - rewrite Z.mul_comm, Z.mod_add by done. by apply Z.mod_small.
  - rewrite Z.mul_comm, Z.div_add, Z.div_small by done. exact IH.
Qed.

Lemma copy_from_user_bytes m base len ub : copy_from_user m base len = Some ub -> 0 <= len ->
  Z.of_nat (length ub) = len /\ forall i, 0 <= i < len -> ub !! Z.to_nat i = um_bytes m !! (base + i).
Proof.
  unfold copy_from_user, addrs, range. intros H Hl. pose proof (length_mapM _ _ _ H) as Hlen. rewrite !length_map, length_seq in Hlen. split; [lia|].
  intros i Hi. apply mapM_Some_1 in H. destruct (lookup_lt_is_Some_2 ub (Z.to_nat i)) as [b Hb]; [lia|].
  assert (Hm : map (fun i => base + i) (map Z.of_nat (seq 0 (Z.to_nat len))) !! Z.to_nat i = Some (base + i)).
  { rewrite map_map, list_lookup_fmap, lookup_seq_lt by lia. simpl. f_equal. lia. }
  rewrite Hb. destruct (Forall2_lookup_l _ _ _ _ _ H Hm) as (b' & Hb' & He). rewrite Hb in Hb'. injection Hb' as <-. by rewrite <- He.
Qed.

Lemma filled_bytes READ m from off len bytes x0 : filled READ m from off len bytes -> bytes_ok m -> 0 <= off -> 0 <= len -> off + len <= PAGE_SIZE ->
  us_base from = x0 + off -> forall i, 0 <= i < PAGE_SIZE -> to_ne_bytes (Z.to_nat PAGE_SIZE) (from_ne_bytes bytes) !! Z.to_nat i =
    Some (if decide (READ = true /\ off <= i < off + len) then default 0 (um_bytes m !! (x0 + i)) else 0).
Proof.
  intros Hf Hm Ho Hl Hp Hx i Hi. unfold filled in Hf. destruct READ.
  - destruct Hf as (ub & Hu & Hlf & ->). rewrite Hlf in Hu. destruct (copy_from_user_bytes _ _ _ _ Hu Hl) as [Hn Hub].
    assert (Hlen : length (zeros off ++ ub ++ zeros (PAGE_SIZE - off - len)) = Z.to_nat PAGE_SIZE).
    { unfold zeros. rewrite !length_app, !length_replicate. lia. }
    assert (Hall : forall j b, ub !! j = Some b -> 0 <= b < 256).
    { intros j b Hb. pose proof (lookup_lt_Some _ _ _ Hb). apply (Hm (us_base from + Z.of_nat j)). rewrite <- Hub by lia. by rewrite Nat2Z.id. }
    rewrite <- Hlen, to_from_ne.
    2:{ rewrite !Forall_app. split_and!; [apply Forall_replicate; lia|by apply Forall_lookup|apply Forall_replicate; lia]. }
    case_decide as Hd.
    + destruct Hd as [_ Hd]. rewrite lookup_app_r by (unfold zeros; rewrite length_replicate; lia).
      rewrite lookup_app_l by (unfold zeros; rewrite length_replicate; lia). unfold zeros. rewrite length_replicate.
      replace (Z.to_nat i - Z.to_nat off)%nat with (Z.to_nat (i - off)) by lia. rewrite Hub, Hx by lia.
      replace (x0 + off + (i - off)) with (x0 + i) by lia. destruct (um_bytes m !! (x0 + i)) eqn:E; [done|].
      exfalso. specialize (Hub (i - off) ltac:(lia)). replace (us_base from + (i - off)) with (x0 + i) in Hub by lia. rewrite E in Hub.
      apply lookup_ge_None in Hub. lia.
    + assert (i < off \/ off + len <= i) as [Hlt|Hge] by (destruct (decide (i < off)); [by left|right]; destruct (decide (off + len <= i)); [done|]; exfalso; apply Hd; lia).
      * rewrite lookup_app_l by (unfold zeros; rewrite length_replicate; lia). apply lookup_replicate_2. lia.
      * unfold zeros. rewrite lookup_app_r by (rewrite length_replicate; lia). rewrite lookup_app_r by (rewrite length_replicate; lia).
        apply lookup_replicate_2. rewrite length_replicate. lia.
  - rewrite decide_False by (by intros [? _]). subst bytes. unfold zeros. rewrite <- (length_replicate (Z.to_nat PAGE_SIZE) 0) at 1.
    rewrite to_from_ne by (apply Forall_replicate; lia). apply lookup_replicate_2. lia.
Qed.

(** *** The stages of a capture *)

Lemma or_drop_ok {A} b (m : M CapState (result Error A)) s x s' : or_drop b m s = Done (Ok x, s') -> m s = Done (Ok x, s').
Proof.
  intros (r & s1 & H1 & H)%bind_Done_inv. destruct r as [y|e]; [by injection H as <- <-|].
  by apply bind_Done_inv in H as (? & ? & _ & H).
Qed.
Lemma ht_borrow_ok head s b s' : ht_borrow head s = Done (Ok b, s') ->
  exists f, slot_get head s = SFree f /\ b = mkHt f head /\ cap_k s' = cap_k s /\ cap_um s' = cap_um s /\ slot_get head s' = SUsed f /\
    slot_get (negb head) s' = slot_get (negb head) s.
Proof.
  unfold ht_borrow. rewrite (bind_Done get_state _ _ _ _ eq_refl). destruct (slot_get head s) eqn:E; [|done..].
  intros [= <- <-]. exists frame. by destruct head.
Qed.

Lemma gained_other k0 dst k k' a a' p n A T C : spaces k0 = spaces k -> gained dst k k' a a' p n A T C -> gained dst k0 k' a a' p n A T C.
Proof. intros He []. split; try done. intros s Hs. rewrite He. auto. Qed.
Lemma gained_refl dst k a p A T : spaces k !! dst = Some a -> GrantsSpec.Inv (grants a) -> gained dst k k a a p 0 A T (contents (mem k)).
Proof. intros Ha HI. split; try done; [lia|intros q; by rewrite decide_False by lia|by left]. Qed.

Definition end_flags (READ WRITE : bool) : PageFlags := page_flags (mf_of (prot_flags READ WRITE ++ [MAP_FIXED_NOREPLACE])).
Definition end_attr (READ WRITE : bool) : Attr := mkAttr (pf_data (end_flags READ WRITE)) true true SrcShared.
Definition lent_attr (READ WRITE : bool) (cur sp : Z) : Attr := mkAttr (pf_data (page_flags (mf_of (prot_flags READ WRITE)))) true true (SrcExternal cur sp).

Lemma noreplace READ WRITE : mf_contains (mf_of (prot_flags READ WRITE ++ [MAP_FIXED_NOREPLACE])) MAP_FIXED_NOREPLACE = true.
Proof. apply mf_contains_part, elem_of_app. right. apply list_elem_of_here. Qed.

Record end_stage (READ WRITE head : bool) (dst page off len : Z) (from to : UserSlice) (s s' : CapState) (a a' : AddrSpace) (c : CopyInfo) (f : Frame) (bytes : list Z) : Prop := {
  es_slot : slot_get head s = SFree f;
  es_used : slot_get head s' = SUsed f;
  es_other : slot_get (negb head) s' = slot_get (negb head) s;
  es_copy : c = mkCopy (Some (mkHt f head)) (if WRITE then Some to else None);
  es_um : cap_um s' = cap_um s;
  es_bytes : filled READ (cap_um s) from off len bytes;
  es_page : tr (utable a') page = Some (f, end_flags READ WRITE);
  es_gain : gained dst (cap_k s) (cap_k s') a a' page 1 (fun _ => end_attr READ WRITE)
              (fun q f' fl' => q = page /\ f' = f /\ fl' = end_flags READ WRITE) (<[f := from_ne_bytes bytes]> (contents (mem (cap_k s))));
}.

Lemma capture_end_inv dbg READ WRITE head dst page off len from to s c s' a : spaces (cap_k s) !! dst = Some a -> GrantsSpec.Inv (grants a) ->
  0 <= page < USER_END_PAGE -> capture_end dbg READ WRITE head dst page off len from to s = Done (Ok c, s') ->
  exists f bytes a', end_stage READ WRITE head dst page off len from to s s' a a' c f bytes.
Proof.
  intros Ha HI Hp H. unfold capture_end in H. apply bind_Done_inv in H as (b & s1 & Hb & H). destruct b as [b|]; [|done].
  apply ht_borrow_ok in Hb as (f & Hf & -> & Hk1 & Hu1 & Hs1 & Ho1). apply or_drop_ok in H. simpl in H.
  apply bind_Done_inv in H as (r & s2 & Hfill & H). destruct r as [[]|]; [|done]. apply fill_inv in Hfill as (bytes & Hbytes & ->).
  apply bind_Done_inv in H as (r & s3 & Hm & H). destruct (snd r) as [q|] eqn:Er; [|done]. injection H as <- <-.
  unfold in_kernel, zoom in Hm. set (s2 := with_contents _ s1) in *. destruct (mmap _ _ _ _ _ _ (cap_k s2)) as [[r' k3]|] eqn:Em; [|done].
  injection Hm as -> <-. assert (Ha2 : spaces (cap_k s2) !! dst = Some a) by (simpl; by rewrite Hk1).
  eapply (mmap_gain dbg dst page 1 _ _ _ _ q _ a (fun q f' fl' => q = page /\ f' = f /\ fl' = end_flags READ WRITE)
            (fun t => tr t page = Some (f, end_flags READ WRITE)) (mkGrant page (mkGrantInfo 1 (end_flags READ WRITE) true (AllocatedShared true)))) in Em;
    [|done|done|unfold span_ok; simpl; lia|lia|apply noreplace|done|by intros g k1 Hg; apply shared_page_inv in Hg|done].
  destruct Em as (a' & Hg & Hd). exists f, bytes, a'. rewrite Hu1 in Hbytes.
  split; try done.
  eapply gained_other; [|rewrite <- Hk1; exact Hg]. simpl. by rewrite Hk1.
Qed.

Lemma capture_middle_inv dbg READ WRITE cur dst sp dp n s x s' a ts : cur <> dst -> spaces (cap_k s) !! dst = Some a -> GrantsSpec.Inv (grants a) ->
  table (cap_k s) cur = Some ts -> span_ok (mkPageSpan sp n) -> span_ok (mkPageSpan dp n) ->
  capture_middle dbg READ WRITE cur dst sp dp n s = Done (Ok x, s') ->
  exists a', gained dst (cap_k s) (cap_k s') a a' dp n (fun q => lent_attr READ WRITE cur (q - dp + sp)) (borrowed ts sp dp n (mf_of (prot_flags READ WRITE)))
               (contents (mem (cap_k s))) /\ cap_um s' = cap_um s /\ syscall_head s' = syscall_head s /\ syscall_tail s' = syscall_tail s.
Proof.
  intros Hne Ha HI Hts Hs Hd H. unfold capture_middle in H. destruct (Z.eqb_spec n 0) as [->|Hn].
  { injection H as <- <-. exists a. split; [by apply gained_refl|done]. }
  apply bind_Done_inv in H as (r & s3 & Hm & H). destruct (snd r) as [q|] eqn:Er; [|done]. injection H as <- <-.
  unfold in_kernel, zoom in Hm. destruct (mmap _ _ _ _ _ _ (cap_k s)) as [[r' k3]|] eqn:Em; [|done]. injection Hm as -> <-.
  eapply (mmap_gain dbg dst dp n _ _ _ _ q _ a (borrowed ts sp dp n (mf_of (prot_flags READ WRITE))) (fun _ => True)
            (mkGrant dp (mkGrantInfo n (page_flags (mf_of (prot_flags READ WRITE))) true (External cur sp true)))) in Em;
    [|done|done|done|destruct Hs as (? & ? & ?); simpl in *; lia|apply noreplace|done| |done].
  - destruct Em as (a' & Hg & _). exists a'. split; [|done]. destruct Hg as [G1 G2 G3 G4 G5 G6 G7 G8]. split; try done.
    intros q'. rewrite G5. case_decide; [|done]. f_equal. unfold attr_at, lent_attr. simpl. do 2 f_equal. lia.
  - intros g k1 Hg. eapply borrow_inv in Hg; [|done..]. destruct Hg as [Hl Hg]. split_and!; [done|by apply Hg|done].
Qed.

(** How a buffer of [len] bytes at the offset [off] of its first page is cut:
    [h] bytes in [hp] head pages, [m] whole pages, [t] bytes in [tp] tail pages. *)
Definition cut (off len h hp m t tp : Z) : Prop :=
  0 <= off < PAGE_SIZE /\ 0 < len /\
  (hp = 0 /\ off = 0 /\ h = 0 \/ hp = 1 /\ 0 < off /\ h = Z.min (PAGE_SIZE - off) len) /\
  0 <= m /\ len - h = m * PAGE_SIZE + t /\ 0 <= t < PAGE_SIZE /\ (tp = 0 /\ t = 0 \/ tp = 1 /\ 0 < t).

Lemma cut_pages off len h hp m t tp : cut off len h hp m t tp -> div_ceil (len + off) PAGE_SIZE = hp + m + tp.
Proof.
  unfold cut, div_ceil, PAGE_SIZE. intros (Ho & Hl & Hh & Hm & He & Ht & Htp). symmetry. apply Z.div_unique with (r := len + off + 4096 - 1 - 4096 * (hp + m + tp)); lia.
Qed.

Lemma div_ceil_ge x : x <= div_ceil x PAGE_SIZE * PAGE_SIZE.
Proof. unfold div_ceil, PAGE_SIZE. pose proof (Z.div_mod (x + 4096 - 1) 4096 ltac:(done)). pose proof (Z.mod_pos_bound (x + 4096 - 1) 4096 ltac:(done)). lia. Qed.

Lemma cut_of off len : 0 <= off < PAGE_SIZE -> 0 < len -> let h := Z.min (if off =? 0 then 0 else PAGE_SIZE - off) len in let t := (len - h) mod PAGE_SIZE in
  cut off len h (if off =? 0 then 0 else 1) ((len - h) / PAGE_SIZE) t (if t =? 0 then 0 else 1).
Proof.
  intros Ho Hl h t. pose proof (Z.div_mod (len - h) PAGE_SIZE ltac:(done)) as Hd. pose proof (Z.mod_pos_bound (len - h) PAGE_SIZE ltac:(done)) as Hb.
  assert (0 <= h <= len) by (unfold h, PAGE_SIZE in *; destruct (off =? 0); lia). pose proof (Z.div_pos (len - h) PAGE_SIZE ltac:(lia) ltac:(done)) as Hq.
  unfold cut. split_and!; try lia; try done.
  - unfold h. destruct (Z.eqb_spec off 0); [left|right]; lia.
  - fold t in Hd, Hb. destruct (Z.eqb_spec t 0); [left|right]; lia.
Qed.

Lemma range_ok x n : 0 <= x -> 0 < n -> x + n <= USER_END_OFFSET ->
  page_range_containing x n = (x / PAGE_SIZE, div_ceil (n + x mod PAGE_SIZE) PAGE_SIZE, x mod PAGE_SIZE).
Proof.
  intros Hx Hn Hlt. unfold page_range_containing, Page_containing_address. change USER_END_OFFSET with (2 ^ 47) in *.
  pose proof (Z.div_mod x PAGE_SIZE ltac:(done)) as Hd. pose proof (Z.mod_pos_bound x PAGE_SIZE ltac:(done)) as Hb. unfold PAGE_SIZE in *.
  assert (x / 4096 < 2 ^ 35) by (apply Z.div_lt_upper_bound; lia). assert (0 <= x / 4096) by (apply Z.div_pos; lia).
  rewrite start_address_ok by (change USER_END_PAGE with (2 ^ 35) in *; pages). unfold PAGE_SIZE.
  replace (x - x / 4096 * 4096) with (x mod 4096) by lia. rewrite usize_add_small by lia. done.
Qed.

(** The state after the head, after the whole pages and at the end. *)
Record stages (READ WRITE : bool) (cur dst : Z) (buf : UserSlice) (s s' : CapState) (a : AddrSpace) (ts : PageTable) (g : CaptureGuard)
  (p0 h hp m t tp : Z) (s1 s2 : CapState) (a1 a2 a3 : AddrSpace) : Prop := {
  sg_cut : cut (us_base buf mod PAGE_SIZE) (us_len buf) h hp m t tp;
  sg_free : free_at (grants a) p0 (hp + m + tp);
  sg_guard : g_base g = p0 * PAGE_SIZE + us_base buf mod PAGE_SIZE /\ g_len g = us_len buf /\ g_span g = mkPageSpan p0 (hp + m + tp) /\
    g_destroyed g = false /\ g_addrsp g = Some dst;
  sg_head : (hp = 0 /\ s1 = s /\ a1 = a /\ g_head g = no_copy) \/
    hp = 1 /\ exists f bytes, end_stage READ WRITE true dst p0 (us_base buf mod PAGE_SIZE) h (mkUserSlice (us_base buf) h) (mkUserSlice (us_base buf) h) s s1 a a1 (g_head g) f bytes;
  sg_um : cap_um s1 = cap_um s;
  sg_middle : gained dst (cap_k s1) (cap_k s2) a1 a2 (p0 + hp) m (fun q => lent_attr READ WRITE cur (q - p0 + us_base buf / PAGE_SIZE))
                (borrowed ts (us_base buf / PAGE_SIZE + hp) (p0 + hp) m (mf_of (prot_flags READ WRITE))) (contents (mem (cap_k s1)));
  sg_same : cap_um s2 = cap_um s1 /\ syscall_head s2 = syscall_head s1 /\ syscall_tail s2 = syscall_tail s1;
  sg_tail : (tp = 0 /\ s' = s2 /\ a3 = a2 /\ g_tail g = no_copy) \/
    tp = 1 /\ exists f bytes, end_stage READ WRITE false dst (p0 + hp + m) 0 t (mkUserSlice (us_base buf + h + m * PAGE_SIZE) t)
                (mkUserSlice (us_base buf + h + m * PAGE_SIZE) t) s2 s' a2 a3 (g_tail g) f bytes;
}.

Lemma div_bounds x n : us_ok (mkUserSlice x n) -> 0 <= x / PAGE_SIZE /\ x = x / PAGE_SIZE * PAGE_SIZE + x mod PAGE_SIZE /\ 0 <= x mod PAGE_SIZE < PAGE_SIZE.
Proof.
  intros (H1 & H2 & H3). simpl in *. pose proof (Z.div_mod x PAGE_SIZE ltac:(done)). pose proof (Z.mod_pos_bound x PAGE_SIZE ltac:(done)).
  unfold PAGE_SIZE in *. split; [apply Z.div_pos; lia|lia].
Qed.

(** The first stage, for the part of the buffer before the first page border. *)
Lemma head_stage dbg READ WRITE dst p0 off len h hp base s c s1 a : spaces (cap_k s) !! dst = Some a -> GrantsSpec.Inv (grants a) -> 0 <= p0 < USER_END_PAGE ->
  0 < len -> (hp = 0 /\ off = 0 /\ h = 0 \/ hp = 1 /\ 0 < off /\ h = Z.min (PAGE_SIZE - off) len) -> 0 <= off < PAGE_SIZE ->
  (if us_is_empty (mkUserSlice base h) then ok no_copy
   else let! from := unwrap (limit (mkUserSlice base len) (Z.min (PAGE_SIZE - off) len)) in
        capture_end dbg READ WRITE true dst p0 off (Z.min (PAGE_SIZE - off) len) from (mkUserSlice base h)) s = Done (Ok c, s1) ->
  exists a1, spaces (cap_k s1) !! dst = Some a1 /\ GrantsSpec.Inv (grants a1) /\ cap_um s1 = cap_um s /\
    (forall x, x <> dst -> table (cap_k s1) x = table (cap_k s) x) /\
    ((hp = 0 /\ s1 = s /\ a1 = a /\ c = no_copy) \/
     hp = 1 /\ exists f bytes, end_stage READ WRITE true dst p0 off h (mkUserSlice base h) (mkUserSlice base h) s s1 a a1 c f bytes).
Proof.
  intros Ha HI Hp Hl Hh Ho H. unfold us_is_empty in H. simpl in H. destruct Hh as [(-> & -> & ->)|(-> & Hoff & ->)].
  - simpl in H. injection H as <- <-. exists a. split_and!; [done..|by left].
  - rewrite (proj2 (Z.eqb_neq _ _)) in H by (unfold PAGE_SIZE in *; lia). rewrite limit_some in H by (simpl; lia). cbn [unwrap] in H. rewrite bind_ret in H.
    eapply capture_end_inv in H; [|done..]. destruct H as (f & bytes & a1 & HE). exists a1.
    split_and!; [apply (gn_space _ _ _ _ _ _ _ _ _ _ (es_gain _ _ _ _ _ _ _ _ _ _ _ _ _ _ _ _ HE))|
      apply (gn_inv _ _ _ _ _ _ _ _ _ _ (es_gain _ _ _ _ _ _ _ _ _ _ _ _ _ _ _ _ HE))|apply HE|
      apply (gn_others _ _ _ _ _ _ _ _ _ _ (es_gain _ _ _ _ _ _ _ _ _ _ _ _ _ _ _ _ HE))|right; split; [done|by exists f, bytes]].
Qed.

(** The stages after the first. *)
Lemma rest_stage dbg READ WRITE cur dst p0 sp off hp m t tp tb len c1 s1 g s' a1 ts : cur <> dst -> spaces (cap_k s1) !! dst = Some a1 -> GrantsSpec.Inv (grants a1) ->
  table (cap_k s1) cur = Some ts -> 0 <= off < PAGE_SIZE -> 0 <= p0 -> 0 <= sp -> 0 <= m -> (tp = 0 /\ t = 0 \/ tp = 1 /\ 0 < t) -> p0 + (hp + m + tp) <= USER_END_PAGE ->
  div_ceil (len + off) PAGE_SIZE = hp + m + tp -> 0 <= hp -> 0 < len /\ sp + hp + m <= USER_END_PAGE /\ len < 2 ^ 47 ->
  (let? _ := capture_middle dbg READ WRITE cur dst (sp + hp) (p0 + hp) m in
   let? tail := (if us_is_empty (mkUserSlice tb t) then ok no_copy
                 else capture_end dbg READ WRITE false dst (Page_next_by (p0 + hp) m) 0 t (mkUserSlice tb t) (mkUserSlice tb t)) in
   let '(first_page, page_count, _) := page_range_containing (usize_add (Page_start_address p0) off) len in
   ok (mkGuard false (usize_add (Page_start_address p0) off) len (PageSpan_new first_page page_count) c1 tail (Some dst))) s1 = Done (Ok g, s') ->
  exists s2 a2 a3,
    gained dst (cap_k s1) (cap_k s2) a1 a2 (p0 + hp) m (fun q => lent_attr READ WRITE cur (q - p0 + sp)) (borrowed ts (sp + hp) (p0 + hp) m (mf_of (prot_flags READ WRITE)))
      (contents (mem (cap_k s1))) /\
    (cap_um s2 = cap_um s1 /\ syscall_head s2 = syscall_head s1 /\ syscall_tail s2 = syscall_tail s1) /\
    ((tp = 0 /\ s' = s2 /\ a3 = a2 /\ g_tail g = no_copy) \/
     tp = 1 /\ exists f bytes, end_stage READ WRITE false dst (p0 + hp + m) 0 t (mkUserSlice tb t) (mkUserSlice tb t) s2 s' a2 a3 (g_tail g) f bytes) /\
    g = mkGuard false (p0 * PAGE_SIZE + off) len (mkPageSpan p0 (hp + m + tp)) c1 (g_tail g) (Some dst).
Proof.
  intros Hne Ha HI Hts Ho Hp Hs Hm Htp Hpb Hn Hhp (Hl & Hsb & Hlb) H.
  apply bind_Done_inv in H as (r & s2 & Hmid & H). destruct r as [[]|]; [|done].
  eapply capture_middle_inv in Hmid; [|done..|unfold span_ok; simpl; lia|unfold span_ok; simpl; lia]. destruct Hmid as (a2 & HG & Hsame).
  apply bind_Done_inv in H as (r & s3 & Ht & H). destruct r as [c|]; [|done].
  assert (Hend : len + off <= (hp + m + tp) * PAGE_SIZE) by (rewrite <- Hn; apply div_ceil_ge).
  assert (Hsum : 0 <= p0 * PAGE_SIZE + off /\ p0 * PAGE_SIZE + off + len <= USER_END_OFFSET)
    by (change USER_END_OFFSET with (2 ^ 47); rewrite USER_END_PAGE_eq in *; unfold PAGE_SIZE in *; lia).
  rewrite start_address_ok in H by pages. rewrite usize_add_small, range_ok in H by (change USER_END_OFFSET with (2 ^ 47) in *; unfold PAGE_SIZE in *; lia).
  assert (Hdm : (p0 * PAGE_SIZE + off) / PAGE_SIZE = p0 /\ (p0 * PAGE_SIZE + off) mod PAGE_SIZE = off).
  { rewrite Z.add_comm, Z.div_add, Z.mod_add, Z.div_small, Z.mod_small by done. lia. }
  destruct Hdm as [Hdiv Hmod]. rewrite Hdiv, Hmod, Hn in H. injection H as <- <-.
  assert (HG' : gained dst (cap_k s1) (cap_k s2) a1 a2 (p0 + hp) m (fun q => lent_attr READ WRITE cur (q - p0 + sp))
    (borrowed ts (sp + hp) (p0 + hp) m (mf_of (prot_flags READ WRITE))) (contents (mem (cap_k s1)))).
  { destruct HG as [G1 G2 G3 G4 G5 G6 G7 G8]. split; try done. intros q. rewrite G5. case_decide; [|done]. do 2 f_equal. lia. }
  unfold us_is_empty in Ht. simpl in Ht. destruct Htp as [[-> ->]|[-> Ht0]].
  - simpl in Ht. injection Ht as <- <-. exists s2, a2, a2. split; [exact HG'|]. split; [exact Hsame|]. split; [by left|done].
  - rewrite (proj2 (Z.eqb_neq _ _)) in Ht by lia. rewrite page_next_by_ok in Ht by pages.
    eapply capture_end_inv in Ht; [|apply HG|apply HG|lia]. destruct Ht as (f & bytes & a3 & HE). exists s2, a2, a3.
    split; [exact HG'|]. split; [exact Hsame|]. split; [right; split; [done|by exists f, bytes]|done].
Qed.

Lemma capture_between_inv dbg READ WRITE cur dst buf s g s' a ts minp : cur <> dst -> us_ok buf -> 0 < us_len buf ->
  spaces (cap_k s) !! dst = Some a -> GrantsSpec.Inv (grants a) -> mmap_min a = minp * PAGE_SIZE -> 0 <= minp <= USER_END_PAGE ->
  table (cap_k s) cur = Some ts -> capture_between dbg READ WRITE cur dst buf s = Done (Ok g, s') ->
  exists p0 h hp m t tp s1 s2 a1 a2 a3, stages READ WRITE cur dst buf s s' a ts g p0 h hp m t tp s1 s2 a1 a2 a3.
Proof.
  intros Hne (Hb & Hl0 & Hend) Hl Ha HI Hmin Hminp Hts H. destruct buf as [base len]. simpl in *. unfold capture_between in H. cbn [us_base us_len] in H.
  rewrite range_ok in H by lia. destruct (div_bounds base len) as (Hd0 & Hd & Hm); [by split_and!|]. change USER_END_OFFSET with (2 ^ 47) in Hend.
  set (off := base mod PAGE_SIZE) in *. set (sp := base / PAGE_SIZE) in *.
  set (h := Z.min (if off =? 0 then 0 else PAGE_SIZE - off) len) in *.
  set (m := (len - h) / PAGE_SIZE). set (t := (len - h) mod PAGE_SIZE). set (hp := if off =? 0 then 0 else 1). set (tp := if t =? 0 then 0 else 1).
  assert (Hcut : cut off len h hp m t tp) by (by apply cut_of). pose proof Hcut as (Hc1 & Hc2 & Hh & Hc4 & Hc5 & Hc6 & Hc7).
  assert (Hhl : 0 <= h <= len) by (unfold PAGE_SIZE in *; lia).
  rewrite split_at_some in H by (simpl; lia). cbn [unwrap] in H. rewrite bind_ret in H. cbn [us_base us_len] in H.
  rewrite (usize_add_small base h) in H by lia. unfold usize_sub in H. rewrite wrap_small in H by lia.
  rewrite (bind_Done (in_kernel (get_space dst)) _ s a s) in H.
  2:{ unfold in_kernel, zoom. rewrite (get_space_run _ _ _ Ha). by destruct s. }
  fold m t in H. clearbody tp hp m t h. assert (Hmt : 0 <= m * PAGE_SIZE <= len - h) by (unfold PAGE_SIZE in *; lia).
  pose proof (cut_pages _ _ _ _ _ _ _ Hcut) as Hn. rewrite Hn in H.
  assert (Hnb : 0 < hp + m + tp <= USER_END_PAGE) by (rewrite USER_END_PAGE_eq; unfold PAGE_SIZE in *; lia).
  pose proof (find_free_cases (grants a) minp (hp + m + tp) None HI Hminp Hnb) as Hff. unfold UserGrants_find_free in H. rewrite Hmin in H.
  destruct (UserGrants_find_free_near (grants a) (minp * PAGE_SIZE) (hp + m + tp) None) as [fs|]; [|done].
  destruct Hff as (p0 & -> & _ & Hfree & _). destruct Hfree as (Hp0 & Hp1 & Hfree). cbn [span_base] in H.
  apply bind_Done_inv in H as (hd & s1 & Hhd & H). destruct hd as [c1|]; [|done].
  destruct (head_stage dbg READ WRITE dst p0 off len h hp base s c1 s1 a Ha HI ltac:(unfold PAGE_SIZE in *; lia) Hl Hh Hm Hhd) as
    (a1 & Ha1 & HI1 & Hu1 & Hot1 & Hst1).
  assert (Hpair : (if us_is_empty (mkUserSlice base h) then (p0, sp) else (Page_next_by p0 1, Page_next_by sp 1)) = (p0 + hp, sp + hp)).
  { unfold us_is_empty. simpl. destruct Hh as [(-> & _ & ->)|(-> & Ho & Hh)]; [simpl; f_equal; lia|].
    rewrite (proj2 (Z.eqb_neq _ _)) by (unfold PAGE_SIZE in *; lia). by rewrite !page_next_by_ok by (unfold PAGE_SIZE in *; pages). }
  rewrite Hpair in H. rewrite split_at_some in H by (simpl; lia). cbn [unwrap] in H. rewrite bind_ret in H. apply or_drop_ok in H. cbn [us_base us_len] in H.
  rewrite (usize_add_small (base + h) (m * PAGE_SIZE)) in H by lia. unfold usize_sub in H. rewrite wrap_small in H by lia.
  replace (len - h - m * PAGE_SIZE) with t in H by lia.
  assert (Hts1 : table (cap_k s1) cur = Some ts) by (rewrite Hot1 by done; exact Hts).
  destruct (rest_stage dbg READ WRITE cur dst p0 sp off hp m t tp (base + h + m * PAGE_SIZE) len c1 s1 g s' a1 ts
    Hne Ha1 HI1 Hts1 Hm ltac:(lia) Hd0 Hc4 Hc7 ltac:(lia) Hn ltac:(lia) ltac:(rewrite USER_END_PAGE_eq; unfold PAGE_SIZE in *; lia) H)
    as (s2 & a2 & a3 & HM & Hsame & HT & Hg).
  exists p0, h, hp, m, t, tp, s1, s2, a1, a2, a3. split; simpl; try done.
  - by rewrite Hg.
  - by replace (g_head g) with c1 by (by rewrite Hg).
Qed.

(** *** What the scheme sees *)

Definition outside (p n : Z) (a a' : AddrSpace) : Prop :=
  forall q, ~ p <= q < p + n -> gview (grants a') q = gview (grants a) q /\ tr (utable a') q = tr (utable a) q.

Lemma gained_outside dst k k' a a' p n A T C : gained dst k k' a a' p n A T C -> (forall q f fl, T q f fl -> p <= q < p + n) -> outside p n a a'.
Proof.
  intros HG HT q Hq. split.
  - rewrite (gn_view _ _ _ _ _ _ _ _ _ _ HG). by rewrite decide_False.
  - destruct (gn_table _ _ _ _ _ _ _ _ _ _ HG q) as [?|(f & fl & _ & Hf)]; [done|]. by apply HT in Hf.
Qed.
Lemma end_outside READ WRITE head dst page off len from to s s' a a' c f bytes :
  end_stage READ WRITE head dst page off len from to s s' a a' c f bytes -> outside page 1 a a'.
Proof. intros HE. eapply gained_outside; [apply HE|]. intros q f' fl (-> & _). lia. Qed.

(** The page [q] of the scheme holds a whole page of the buffer, the page [qs]
    of the caller, if anything. *)
Definition lent_page (READ WRITE : bool) (cur : Z) (ts : PageTable) (buf : UserSlice) (a' : AddrSpace) (q qs : Z) : Prop :=
  us_base buf <= qs * PAGE_SIZE /\ (qs + 1) * PAGE_SIZE <= us_base buf + us_len buf /\
  gview (grants a') q = Some (lent_attr READ WRITE cur qs) /\
  forall f fl, tr (utable a') q = Some (f, fl) ->
    (exists fl0, tr ts qs = Some (f, fl0)) /\ (has_write fl = true -> has_write (page_flags (mf_of (prot_flags READ WRITE))) = true).

(** The page [q] of the scheme is a kernel frame with the bytes of the buffer
    that are on the page [qs] of the caller, and zeros. *)
Definition copied_page (READ WRITE : bool) (buf : UserSlice) (s s' : CapState) (a' : AddrSpace) (q qs : Z) : Prop :=
  exists f, (syscall_head s = SFree f \/ syscall_tail s = SFree f) /\
    gview (grants a') q = Some (end_attr READ WRITE) /\ tr (utable a') q = Some (f, end_flags READ WRITE) /\
    forall i, 0 <= i < PAGE_SIZE -> frame_bytes (mem (cap_k s')) f !! Z.to_nat i =
      Some (if decide (READ = true /\ us_base buf <= qs * PAGE_SIZE + i < us_base buf + us_len buf) then default 0 (um_bytes (cap_um s) !! (qs * PAGE_SIZE + i)) else 0).

Lemma stages_outside READ WRITE cur dst buf s s' a ts g p0 h hp m t tp s1 s2 a1 a2 a3 :
  stages READ WRITE cur dst buf s s' a ts g p0 h hp m t tp s1 s2 a1 a2 a3 ->
  outside p0 hp a a1 /\ outside (p0 + hp) m a1 a2 /\ outside (p0 + hp + m) tp a2 a3.
Proof.
  intros HS. split_and!.
  - destruct (sg_head _ _ _ _ _ _ _ _ _ _ _ _ _ _ _ _ _ _ _ _ _ HS) as [(-> & _ & -> & _)|(-> & f & bytes & HE)]; [done|by eapply end_outside].
  - eapply gained_outside; [by eapply sg_middle|]. by intros q f fl (? & _).
  - destruct (sg_tail _ _ _ _ _ _ _ _ _ _ _ _ _ _ _ _ _ _ _ _ _ HS) as [(-> & _ & -> & _)|(-> & f & bytes & HE)]; [done|by eapply end_outside].
Qed.

Section pages.
Context {READ WRITE : bool} {cur dst : Z} {buf : UserSlice} {s s' : CapState} {a : AddrSpace} {ts : PageTable} {g : CaptureGuard}.
Context {p0 h hp m t tp : Z} {s1 s2 : CapState} {a1 a2 a3 : AddrSpace}.
Context (HS : stages READ WRITE cur dst buf s s' a ts g p0 h hp m t tp s1 s2 a1 a2 a3).
Context (Hbuf : us_ok buf).

Lemma stages_lent q : TableInv a -> p0 + hp <= q < p0 + hp + m -> lent_page READ WRITE cur ts buf a3 q (q - p0 + us_base buf / PAGE_SIZE).
Proof.
  intros HT Hq. destruct (stages_outside _ _ _ _ _ _ _ _ _ _ _ _ _ _ _ _ _ _ _ _ _ HS) as (O1 & O2 & O3).
  pose proof (sg_cut _ _ _ _ _ _ _ _ _ _ _ _ _ _ _ _ _ _ _ _ _ HS) as (C1 & C2 & C3 & C4 & C5 & C6 & C7).
  pose proof (sg_middle _ _ _ _ _ _ _ _ _ _ _ _ _ _ _ _ _ _ _ _ _ HS) as HM.
  destruct (sg_free _ _ _ _ _ _ _ _ _ _ _ _ _ _ _ _ _ _ _ _ _ HS) as (_ & _ & Hf).
  destruct buf as [bb bl]. destruct (div_bounds bb bl Hbuf) as (D1 & D2 & D3). cbn [us_base us_len] in *.
  set (off := bb mod PAGE_SIZE) in *. set (sp := bb / PAGE_SIZE) in *.
  destruct (O3 q ltac:(lia)) as [V3 T3]. destruct (O1 q ltac:(lia)) as [V1 T1]. split_and!; cbn [us_base us_len].
  - unfold PAGE_SIZE in *. lia.
  - unfold PAGE_SIZE in *. lia.
  - rewrite V3, (gn_view _ _ _ _ _ _ _ _ _ _ HM), decide_True by lia. done.
  - intros f fl Hfl. rewrite T3 in Hfl. destruct (gn_table _ _ _ _ _ _ _ _ _ _ HM q) as [He|(f' & fl' & He & _ & Hw & fl0 & Hsrc)].
    + rewrite He, T1, HT in Hfl by (apply Hf; lia). done.
    + rewrite Hfl in He. injection He as <- <-. replace (q - (p0 + hp) + (sp + hp)) with (q - p0 + sp) in Hsrc by lia. by split; [exists fl0|].
Qed.

Lemma stages_view q : p0 + hp <= q < p0 + hp + m -> gview (grants a3) q = Some (lent_attr READ WRITE cur (q - p0 + us_base buf / PAGE_SIZE)).
Proof.
  intros Hq. destruct (stages_outside _ _ _ _ _ _ _ _ _ _ _ _ _ _ _ _ _ _ _ _ _ HS) as (_ & _ & O3). destruct (O3 q ltac:(lia)) as [-> _].
  rewrite (gn_view _ _ _ _ _ _ _ _ _ _ (sg_middle _ _ _ _ _ _ _ _ _ _ _ _ _ _ _ _ _ _ _ _ _ HS)). by rewrite decide_True by lia.
Qed.

Lemma copied_page_of f bytes off len q qs a' from to page head sa sb b b' c : bytes_ok (cap_um s) -> cap_um sa = cap_um s ->
  end_stage READ WRITE head dst page off len from to sa sb b b' c f bytes ->
  0 <= off -> 0 <= len -> off + len <= PAGE_SIZE -> us_base from = qs * PAGE_SIZE + off ->
  (forall i, 0 <= i < PAGE_SIZE -> off <= i < off + len <-> us_base buf <= qs * PAGE_SIZE + i < us_base buf + us_len buf) ->
  contents (mem (cap_k s')) !! f = Some (from_ne_bytes bytes) -> (syscall_head s = SFree f \/ syscall_tail s = SFree f) ->
  gview (grants a') q = Some (end_attr READ WRITE) -> tr (utable a') q = Some (f, end_flags READ WRITE) ->
  copied_page READ WRITE buf s s' a' q qs.
Proof.
  intros Hb Hum HE Ho Hl Hp Hf Hin Hc Hslot Hv Ht. exists f. split_and!; [done..|]. intros i Hi. unfold frame_bytes. rewrite Hc. cbn [default id].
  pose proof (es_bytes _ _ _ _ _ _ _ _ _ _ _ _ _ _ _ _ HE) as Hfill. rewrite Hum in Hfill.
  etransitivity; [apply (filled_bytes _ _ _ _ _ _ _ Hfill Hb Ho Hl Hp Hf i Hi)|]. f_equal. specialize (Hin i Hi).
  destruct (decide (READ = true /\ off <= i < off + len)) as [[? ?]|Hn], (decide (READ = true /\ us_base buf <= qs * PAGE_SIZE + i < us_base buf + us_len buf)) as [[? ?]|Hn']; [done| | |done].
  - exfalso. apply Hn'. split; [done|by apply Hin].
  - exfalso. apply Hn. split; [done|by apply Hin].
Qed.

Context (Hbytes : bytes_ok (cap_um s)) (Hdist : forall f, syscall_head s = SFree f -> syscall_tail s <> SFree f).

Lemma stages_slots : cap_um s2 = cap_um s /\ syscall_tail s2 = syscall_tail s.
Proof.
  destruct (sg_same _ _ _ _ _ _ _ _ _ _ _ _ _ _ _ _ _ _ _ _ _ HS) as (U2 & _ & S2).
  destruct (sg_head _ _ _ _ _ _ _ _ _ _ _ _ _ _ _ _ _ _ _ _ _ HS) as [(_ & -> & _)|(_ & f & bytes & HE)]; [done|].
  rewrite U2, S2. split; [by apply HE|]. exact (es_other _ _ _ _ _ _ _ _ _ _ _ _ _ _ _ _ HE).
Qed.

Lemma stages_head : hp = 1 -> copied_page READ WRITE buf s s' a3 p0 (us_base buf / PAGE_SIZE).
Proof.
  intros Hhp. destruct (stages_outside _ _ _ _ _ _ _ _ _ _ _ _ _ _ _ _ _ _ _ _ _ HS) as (_ & O2 & O3). destruct stages_slots as [_ S2].
  pose proof (sg_cut _ _ _ _ _ _ _ _ _ _ _ _ _ _ _ _ _ _ _ _ _ HS) as (C1 & C2 & C3 & C4 & C5 & C6 & C7).
  pose proof (gn_contents _ _ _ _ _ _ _ _ _ _ (sg_middle _ _ _ _ _ _ _ _ _ _ _ _ _ _ _ _ _ _ _ _ _ HS)) as Hc2.
  destruct (sg_head _ _ _ _ _ _ _ _ _ _ _ _ _ _ _ _ _ _ _ _ _ HS) as [(? & _)|(_ & f & bytes & HE)]; [lia|].
  pose proof (es_gain _ _ _ _ _ _ _ _ _ _ _ _ _ _ _ _ HE) as HG. pose proof (es_slot _ _ _ _ _ _ _ _ _ _ _ _ _ _ _ _ HE) as Hs. simpl in Hs.
  destruct (O2 p0 ltac:(lia)) as [V2 T2]. destruct (O3 p0 ltac:(lia)) as [V3 T3].
  destruct (div_bounds (us_base buf) (us_len buf) ltac:(by destruct buf)) as (D1 & D2 & D3).
  eapply (copied_page_of f bytes _ h); [done|done|exact HE|lia|lia|lia|simpl; lia| | |by left| |].
  - intros i Hi. unfold PAGE_SIZE in *. lia.
  - assert (Hc1 : contents (mem (cap_k s2)) !! f = Some (from_ne_bytes bytes)).
    { rewrite Hc2, (gn_contents _ _ _ _ _ _ _ _ _ _ HG). apply lookup_insert_eq. }
    destruct (sg_tail _ _ _ _ _ _ _ _ _ _ _ _ _ _ _ _ _ _ _ _ _ HS) as [(_ & -> & _)|(_ & f2 & bytes2 & HE2)]; [done|].
    rewrite (gn_contents _ _ _ _ _ _ _ _ _ _ (es_gain _ _ _ _ _ _ _ _ _ _ _ _ _ _ _ _ HE2)). pose proof (es_slot _ _ _ _ _ _ _ _ _ _ _ _ _ _ _ _ HE2) as Hs2.
    simpl in Hs2. rewrite S2 in Hs2. rewrite lookup_insert_ne; [done|]. intros ->. by apply (Hdist f).
  - rewrite V3, V2, (gn_view _ _ _ _ _ _ _ _ _ _ HG), decide_True by lia. done.
  - rewrite T3, T2. apply HE.
Qed.

Lemma stages_tail : tp = 1 -> copied_page READ WRITE buf s s' a3 (p0 + hp + m) (us_base buf / PAGE_SIZE + hp + m).
Proof.
  intros Htp. pose proof (sg_cut _ _ _ _ _ _ _ _ _ _ _ _ _ _ _ _ _ _ _ _ _ HS) as (C1 & C2 & C3 & C4 & C5 & C6 & C7). destruct stages_slots as [U2 S2].
  destruct (sg_tail _ _ _ _ _ _ _ _ _ _ _ _ _ _ _ _ _ _ _ _ _ HS) as [(? & _)|(_ & f & bytes & HE)]; [lia|].
  pose proof (es_gain _ _ _ _ _ _ _ _ _ _ _ _ _ _ _ _ HE) as HG. pose proof (es_slot _ _ _ _ _ _ _ _ _ _ _ _ _ _ _ _ HE) as Hs. simpl in Hs.
  destruct (div_bounds (us_base buf) (us_len buf) ltac:(by destruct buf)) as (D1 & D2 & D3).
  eapply (copied_page_of f bytes 0 t); [done|done|exact HE|lia|lia|lia| | | |by right; rewrite <- S2| |].
  - simpl. unfold PAGE_SIZE in *. lia.
  - intros i Hi. unfold PAGE_SIZE in *. lia.
  - rewrite (gn_contents _ _ _ _ _ _ _ _ _ _ HG). apply lookup_insert_eq.
  - rewrite (gn_view _ _ _ _ _ _ _ _ _ _ HG), decide_True by lia. done.
  - apply HE.
Qed.

Lemma stages_final : spaces (cap_k s') !! dst = Some a3 /\ GrantsSpec.Inv (grants a3) /\ cap_um s' = cap_um s /\
  forall x, x <> dst -> table (cap_k s') x = table (cap_k s) x.
Proof.
  destruct stages_slots as [U2 _]. pose proof (sg_middle _ _ _ _ _ _ _ _ _ _ _ _ _ _ _ _ _ _ _ _ _ HS) as [M1 M2 _ _ _ _ _ M8].
  assert (H1 : forall x, x <> dst -> table (cap_k s1) x = table (cap_k s) x).
  { destruct (sg_head _ _ _ _ _ _ _ _ _ _ _ _ _ _ _ _ _ _ _ _ _ HS) as [(_ & -> & _)|(_ & f & bytes & HE)]; [done|].
    apply (gn_others _ _ _ _ _ _ _ _ _ _ (es_gain _ _ _ _ _ _ _ _ _ _ _ _ _ _ _ _ HE)). }
  destruct (sg_tail _ _ _ _ _ _ _ _ _ _ _ _ _ _ _ _ _ _ _ _ _ HS) as [(_ & -> & -> & _)|(_ & f & bytes & HE)].
  - split_and!; [done..|]. intros x Hx. by rewrite M8, H1.
  - destruct (es_gain _ _ _ _ _ _ _ _ _ _ _ _ _ _ _ _ HE) as [T1 T2 _ _ _ _ _ T8]. split_and!; [done..| |].
    + rewrite <- U2. by apply HE.
    + intros x Hx. by rewrite T8, M8, H1.
Qed.
End pages.

(** C8: [capture_inner], when it succeeds in lending the caller's nonempty
    buffer to a scheme in another address space: the guard's address range has
    the length of the buffer and its offset in the page; its pages were free and
    nothing else of the scheme's space, and no other space, has changed; and
    page by page the scheme sees the buffer and nothing but the buffer: a page
    that lies wholly inside it is lent, mapped to nothing but the caller's own
    frame and never writable beyond what the capture is for, and the first and
    the last page are kernel frames that hold the bytes of the buffer, where the
    scheme may read, and zeros.  The caller's memory is as before. *)
Theorem capture_confined dbg READ WRITE cur dst buf s g s' a ts minp :
  cur <> dst -> us_ok buf -> 0 < us_len buf -> bytes_ok (cap_um s) -> (forall f, syscall_head s = SFree f -> syscall_tail s <> SFree f) ->
  spaces (cap_k s) !! dst = Some a -> GrantsSpec.Inv (grants a) -> TableInv a -> mmap_min a = minp * PAGE_SIZE -> 0 <= minp <= USER_END_PAGE ->
  table (cap_k s) cur = Some ts -> capture_inner dbg READ WRITE (Some cur) (Some dst) buf s = Done (Ok g, s') ->
  exists a', let p0 := span_base (g_span g) in let n := span_count (g_span g) in
    spaces (cap_k s') !! dst = Some a' /\ GrantsSpec.Inv (grants a') /\ cap_um s' = cap_um s /\ (forall x, x <> dst -> table (cap_k s') x = table (cap_k s) x) /\
    g_base g = p0 * PAGE_SIZE + us_base buf mod PAGE_SIZE /\ g_len g = us_len buf /\ n = div_ceil (us_len buf + us_base buf mod PAGE_SIZE) PAGE_SIZE /\
    free_at (grants a) p0 n /\ outside p0 n a a' /\
    forall q, p0 <= q < p0 + n -> let qs := q - p0 + us_base buf / PAGE_SIZE in
      lent_page READ WRITE cur ts buf a' q qs \/ copied_page READ WRITE buf s s' a' q qs.
Proof.
  intros Hne Hok Hl Hb Hd Ha HI HT Hmin Hminp Hts H. unfold capture_inner, us_is_empty in H. rewrite (proj2 (Z.eqb_neq _ _)) in H by lia.
  rewrite (proj2 (Z.eqb_neq _ _)) in H by done.
  destruct (capture_between_inv _ _ _ _ _ _ _ _ _ _ _ _ Hne Hok Hl Ha HI Hmin Hminp Hts H) as (p0 & h & hp & m & t & tp & s1 & s2 & a1 & a2 & a3 & HS).
  destruct (stages_outside _ _ _ _ _ _ _ _ _ _ _ _ _ _ _ _ _ _ _ _ _ HS) as (O1 & O2 & O3). destruct (stages_final HS) as (F1 & F2 & F3 & F4).
  pose proof (sg_cut _ _ _ _ _ _ _ _ _ _ _ _ _ _ _ _ _ _ _ _ _ HS) as Hcut. pose proof Hcut as (C1 & C2 & C3 & C4 & C5 & C6 & C7).
  destruct (sg_guard _ _ _ _ _ _ _ _ _ _ _ _ _ _ _ _ _ _ _ _ _ HS) as (G1 & G2 & G3 & _). exists a3. rewrite G3. simpl.
  split_and!; [done..|by rewrite (cut_pages _ _ _ _ _ _ _ Hcut)|by eapply sg_free| |].
  - intros q Hq. destruct (O1 q ltac:(lia)) as [<- <-]. destruct (O2 q ltac:(lia)) as [<- <-]. apply O3. lia.
  - intros q Hq. destruct (decide (q < p0 + hp)) as [|Hh]; [|destruct (decide (q < p0 + hp + m)) as [|Hm]].
    + right. replace q with p0 by lia. replace (p0 - p0 + us_base buf / PAGE_SIZE) with (us_base buf / PAGE_SIZE) by lia. eapply stages_head; try done. lia.
    + left. eapply stages_lent; try done. lia.
    + right. replace q with (p0 + hp + m) by lia. replace (p0 + hp + m - p0 + us_base buf / PAGE_SIZE) with (us_base buf / PAGE_SIZE + hp + m) by lia.
      eapply stages_tail; try done. lia.
Qed.

(** *** Copying back *)

Definition same_slots (s s' : CapState) : Prop := syscall_head s' = syscall_head s /\ syscall_tail s' = syscall_tail s.

Lemma copy_back_frame c off s r s' : copy_back c off s = Done (r, s') -> cap_k s' = cap_k s /\ same_slots s s'.
Proof.
  unfold copy_back. destruct (ci_src c) as [b|], (ci_dst c) as [d|]; [|by intros [= _ <-]..].
  rewrite (bind_Done get_state _ _ _ _ eq_refl). unfold in_caller, zoom. destruct (copy_from_slice _ _ _) as [[r' m']|]; [|done]. by intros [= _ <-].
Qed.

Lemma copy_back_bytes f head d off s s' : 0 <= off -> 0 <= us_len d -> off + us_len d <= PAGE_SIZE ->
  copy_back (mkCopy (Some (mkHt f head)) (Some d)) off s = Done (Ok tt, s') ->
  forall x, um_bytes (cap_um s') !! x =
    if decide (in_slice x d) then frame_bytes (mem (cap_k s)) f !! Z.to_nat (off + (x - us_base d)) else um_bytes (cap_um s) !! x.
Proof.
  intros Ho Hl Hp. unfold copy_back. cbn [ci_src ci_dst ht_frame]. rewrite (bind_Done get_state _ _ _ _ eq_refl). unfold in_caller, zoom, copy_from_slice.
  set (bytes := take _ _). destruct (Z.eqb_spec (us_len d) (Z.of_nat (length bytes))) as [Hlen|]; [|done]. cbn [negb].
  destruct (copy_to_user (us_base d) bytes (cap_um s)) as [b m'] eqn:Er. destruct b; [|done]. intros [= <-] x. cbn [cap_um].
  destruct (copy_to_user_ok _ _ _ _ _ Er) as [(_ & _ & Hout) Hin]. specialize (Hin eq_refl). rewrite <- Hlen in *.
  unfold in_slice. case_decide as Hx; [|by apply Hout].
  destruct (copy_from_user_bytes _ _ _ _ Hin Hl) as [_ Hb]. specialize (Hb (x - us_base d) ltac:(lia)).
  replace (us_base d + (x - us_base d)) with x in Hb by lia. rewrite <- Hb. unfold bytes. rewrite lookup_take_lt by lia. rewrite lookup_drop. f_equal. lia.
Qed.

Lemma no_copy_back off s r s' : copy_back no_copy off s = Done (r, s') -> r = Ok tt /\ s' = s.
Proof. by intros [= <- <-]. Qed.

Lemma release_inv dbg g s s' : g_destroyed g = false -> g_base g <> DANGLING -> release dbg g s = Done (Ok tt, s') ->
  exists s1 s2, copy_back (g_head g) (g_base g mod PAGE_SIZE) s = Done (Ok tt, s1) /\ copy_back (g_tail g) 0 s1 = Done (Ok tt, s2) /\
    cap_um s' = cap_um s2 /\
    syscall_head s' = match ci_src (g_tail g), ci_src (g_head g) with
      | Some (mkHt f true), _ | _, Some (mkHt f true) => SFree f | _, _ => syscall_head s2 end /\
    syscall_tail s' = match ci_src (g_tail g), ci_src (g_head g) with
      | Some (mkHt f false), _ | _, Some (mkHt f false) => SFree f | _, _ => syscall_tail s2 end.
Proof.
  intros Hd Hb H. unfold release in H. apply bind_Done_inv in H as (r & s3 & Hi & H).
  unfold release_inner in Hi. rewrite Hd, (proj2 (Z.eqb_neq _ _) Hb) in Hi.
  apply bind_Done_inv in H as ([] & s4 & H1 & H). apply bind_Done_inv in H as ([] & s5 & H2 & [= -> <-]).
  apply bind_Done_inv in Hi as (r & s1 & C1 & Hi). destruct r as [[]|]; [|done].
  apply bind_Done_inv in Hi as (r & s2 & C2 & Hi). destruct r as [[]|]; [|done]. exists s1, s2. split; [done|]. split; [done|].
  assert (cap_um s3 = cap_um s2 /\ same_slots s2 s3) as (U3 & S3 & S3').
  { destruct (g_addrsp g); [|by injection Hi as <-]. destruct (PageSpan_is_empty _); [by injection Hi as <-|].
    apply bind_Done_inv in Hi as (r & s6 & Hm & Hi). unfold in_kernel, zoom in Hm. destruct (munmap _ _ _ _ _) as [[r' k']|]; [|done].
    injection Hm as <- <-. destruct r'; [|done]. by injection Hi as <-. }
  destruct (ci_src (g_head g)) as [[f []]|], (ci_src (g_tail g)) as [[f' []]|]; injection H1 as <-; injection H2 as <-; cbn; by rewrite ?U3, ?S3, ?S3'.
Qed.

(** Copying back one end, if there is one ([np] is 1). *)
Lemma end_back READ head dst page off len from d sa sb b b' c np s s' :
  (np = 0 /\ sb = sa /\ b' = b /\ c = no_copy) \/ np = 1 /\ (exists f bytes, end_stage READ true head dst page off len from d sa sb b b' c f bytes) ->
  0 <= off -> 0 <= us_len d -> off + us_len d <= PAGE_SIZE -> copy_back c off s = Done (Ok tt, s') ->
  cap_k s' = cap_k s /\ same_slots s s' /\ (forall x, ~ (np = 1 /\ in_slice x d) -> um_bytes (cap_um s') !! x = um_bytes (cap_um s) !! x) /\
  (np = 0 /\ c = no_copy /\ sb = sa \/ np = 1 /\ exists f, c = mkCopy (Some (mkHt f head)) (Some d) /\ slot_get head sa = SFree f /\ slot_get (negb head) sb = slot_get (negb head) sa /\
     tr (utable b') page = Some (f, end_flags READ true) /\ gview (grants b') page = Some (end_attr READ true) /\
     forall x, in_slice x d -> um_bytes (cap_um s') !! x = frame_bytes (mem (cap_k s)) f !! Z.to_nat (off + (x - us_base d))).
Proof.
  intros He Ho Hl Hp H. destruct (copy_back_frame _ _ _ _ _ H) as [Hk Hs]. split; [done|]. split; [done|]. destruct He as [(-> & -> & -> & ->)|(-> & f & bytes & HE)].
  - apply no_copy_back in H as [_ ->]. split; [done|by left].
  - pose proof (es_copy _ _ _ _ _ _ _ _ _ _ _ _ _ _ _ _ HE) as ->. pose proof (copy_back_bytes _ _ _ _ _ _ Ho Hl Hp H) as Hb. split.
    + intros x Hx. rewrite Hb, decide_False; [done|]. intros ?. by apply Hx.
    + right. split; [done|]. exists f. pose proof (es_gain _ _ _ _ _ _ _ _ _ _ _ _ _ _ _ _ HE) as HG. split_and!; [done|by apply HE..| |].
      * rewrite (gn_view _ _ _ _ _ _ _ _ _ _ HG). by rewrite decide_True by lia.
      * intros x Hx. by rewrite Hb, decide_True.
Qed.

(** Where an address of the buffer is. *)
Lemma cut_where base len h hp m t tp x : us_ok (mkUserSlice base len) -> cut (base mod PAGE_SIZE) len h hp m t tp -> base <= x < base + len ->
  let d := x / PAGE_SIZE - base / PAGE_SIZE in
  (hp = 1 /\ x < base + h /\ d = 0 /\ x mod PAGE_SIZE = base mod PAGE_SIZE + (x - base)) \/
  (base + h <= x < base + h + m * PAGE_SIZE /\ hp <= d < hp + m) \/
  (tp = 1 /\ base + h + m * PAGE_SIZE <= x /\ d = hp + m /\ x mod PAGE_SIZE = x - (base + h + m * PAGE_SIZE)).
Proof.
  intros Hok (C1 & C2 & C3 & C4 & C5 & C6 & C7) Hx. destruct (div_bounds _ _ Hok) as (D1 & D2 & D3). set (off := base mod PAGE_SIZE) in *. set (sp := base / PAGE_SIZE) in *.
  pose proof (Z.div_mod x PAGE_SIZE ltac:(done)) as E1. pose proof (Z.mod_pos_bound x PAGE_SIZE ltac:(done)) as E2.
  set (xo := x mod PAGE_SIZE) in *. set (xp := x / PAGE_SIZE) in *. clearbody off sp xo xp. intros d. unfold PAGE_SIZE, d in *.
  destruct (decide (x < base + h)); [left; lia|right]. destruct (decide (x < base + h + m * 4096)); [left|right]; lia.
Qed.

Section back.
Context {READ : bool} {cur dst : Z} {buf : UserSlice} {s s' : CapState} {a : AddrSpace} {ts : PageTable} {g : CaptureGuard}.
Context {p0 h hp m t tp : Z} {s1 s2 : CapState} {a1 a2 a3 : AddrSpace}.
Context (HS : stages READ true cur dst buf s s' a ts g p0 h hp m t tp s1 s2 a1 a2 a3).
Context (Hbuf : us_ok buf).
Abbreviation tb := (us_base buf + h + m * PAGE_SIZE).

Lemma stages_base : g_destroyed g = false /\ g_base g <> DANGLING /\ g_base g mod PAGE_SIZE = us_base buf mod PAGE_SIZE.
Proof.
  destruct (sg_guard _ _ _ _ _ _ _ _ _ _ _ _ _ _ _ _ _ _ _ _ _ HS) as (G1 & _ & _ & G4 & _). split; [done|]. rewrite G1.
  destruct (sg_free _ _ _ _ _ _ _ _ _ _ _ _ _ _ _ _ _ _ _ _ _ HS) as (F1 & F2 & _).
  pose proof (sg_cut _ _ _ _ _ _ _ _ _ _ _ _ _ _ _ _ _ _ _ _ _ HS) as (C1 & C2 & C3 & C4 & C5 & C6 & C7). split.
  - rewrite USER_END_PAGE_eq in F2. change DANGLING with (2 ^ 62). unfold PAGE_SIZE in *. lia.
  - rewrite Z.add_comm, Z.mod_add by done. by apply Z.mod_mod.
Qed.

Lemma stages_release dbg sb sc : release dbg g sb = Done (Ok tt, sc) ->
  (forall x, us_base buf <= x < us_base buf + h -> hp = 1 -> exists f, tr (utable a3) p0 = Some (f, end_flags READ true) /\
     um_bytes (cap_um sc) !! x = frame_bytes (mem (cap_k sb)) f !! Z.to_nat (us_base buf mod PAGE_SIZE + (x - us_base buf))) /\
  (forall x, tb <= x < tb + t -> tp = 1 -> exists f, tr (utable a3) (p0 + hp + m) = Some (f, end_flags READ true) /\
     um_bytes (cap_um sc) !! x = frame_bytes (mem (cap_k sb)) f !! Z.to_nat (x - tb)) /\
  (forall x, ~ (hp = 1 /\ us_base buf <= x < us_base buf + h) -> ~ (tp = 1 /\ tb <= x < tb + t) -> um_bytes (cap_um sc) !! x = um_bytes (cap_um sb) !! x) /\
  (hp = 1 -> gview (grants a3) p0 = Some (end_attr READ true)) /\ (tp = 1 -> gview (grants a3) (p0 + hp + m) = Some (end_attr READ true)) /\
  (syscall_head sb = syscall_head s' -> syscall_head sc = syscall_head s) /\ (syscall_tail sb = syscall_tail s' -> syscall_tail sc = syscall_tail s).
Proof.
  intros H. destruct stages_base as (B1 & B2 & B3). apply release_inv in H as (sd & se & Hh & Ht & Hum & Hsh & Hst); [|done..]. rewrite B3 in Hh.
  pose proof (sg_cut _ _ _ _ _ _ _ _ _ _ _ _ _ _ _ _ _ _ _ _ _ HS) as (C1 & C2 & C3 & C4 & C5 & C6 & C7).
  destruct (stages_outside _ _ _ _ _ _ _ _ _ _ _ _ _ _ _ _ _ _ _ _ _ HS) as (_ & O2 & O3).
  destruct (stages_slots HS) as [_ S2]. destruct (sg_same _ _ _ _ _ _ _ _ _ _ _ _ _ _ _ _ _ _ _ _ _ HS) as (_ & S2h & _).
  eapply end_back in Hh; [|eapply sg_head, HS|lia|simpl; lia|simpl; lia]. destruct Hh as (K1 & [N1 N1'] & R1 & E1).
  eapply end_back in Ht; [|eapply sg_tail, HS|lia|simpl; lia|simpl; lia]. destruct Ht as (K2 & [N2 N2'] & R2 & E2).
  rewrite K1 in E2. unfold in_slice in R1, R2, E1, E2. cbn [us_base us_len] in R1, R2, E1, E2. rewrite Hum.
  split_and!.
  - intros x Hx Hhp. destruct E1 as [[? _]|(_ & f & _ & _ & _ & Htr & _ & Hby)]; [lia|]. exists f. destruct (O2 p0 ltac:(lia)) as [_ T2]. destruct (O3 p0 ltac:(lia)) as [_ T3].
    rewrite T3, T2. split; [done|]. rewrite R2, Hby; [done|lia|unfold PAGE_SIZE in *; lia].
  - intros x Hx Htp. destruct E2 as [[? _]|(_ & f & _ & _ & _ & Htr & _ & Hby)]; [lia|]. exists f. split; [done|]. rewrite Hby by lia. done.
  - intros x Hnh Hnt. by rewrite R2, R1.
  - intros Hhp. destruct E1 as [[? _]|(_ & f & _ & _ & _ & _ & Hv & _)]; [lia|]. destruct (O2 p0 ltac:(lia)) as [V2 _]. destruct (O3 p0 ltac:(lia)) as [V3 _]. by rewrite V3, V2.
  - intros Htp. by destruct E2 as [[? _]|(_ & f & _ & _ & _ & _ & Hv & _)]; [lia|].
  - intros He. destruct E1 as [(_ & Ec & Es)|(_ & f & Ec & Es & _)], E2 as [(_ & Ec' & Es')|(_ & f' & Ec' & _ & Es' & _)]; rewrite Ec, Ec' in Hsh; simpl in *; congruence.
  - intros He. destruct E1 as [(_ & Ec & _)|(_ & f & Ec & _)], E2 as [(_ & Ec' & Es')|(_ & f' & Ec' & Es' & _)]; rewrite Ec, Ec' in Hst; simpl in *; congruence.
Qed.
End back.

(** [CaptureGuard::release], after a capture that the scheme may write to:
    once it succeeds, the caller's bytes of the buffer on the pages that were
    replaced by kernel frames are the bytes the scheme left at the same offset
    of its page, whatever happened in between; no other byte of the caller is
    written, neither next to the buffer on these pages nor on the lent pages,
    which need no copy; and the kernel frames are free for the next call. *)
Lemma release_copies_back dbg READ cur dst buf s g s1 a a1 ts minp s2 s3 :
  cur <> dst -> us_ok buf -> 0 < us_len buf -> spaces (cap_k s) !! dst = Some a -> GrantsSpec.Inv (grants a) ->
  mmap_min a = minp * PAGE_SIZE -> 0 <= minp <= USER_END_PAGE -> table (cap_k s) cur = Some ts ->
  capture_inner dbg READ true (Some cur) (Some dst) buf s = Done (Ok g, s1) -> spaces (cap_k s1) !! dst = Some a1 ->
  release dbg g s2 = Done (Ok tt, s3) ->
  let page x := span_base (g_span g) + (x / PAGE_SIZE - us_base buf / PAGE_SIZE) in
  let copied x := in_slice x buf /\ gview (grants a1) (page x) = Some (end_attr READ true) in
  (forall x, copied x -> exists f fl, tr (utable a1) (page x) = Some (f, fl) /\
     um_bytes (cap_um s3) !! x = frame_bytes (mem (cap_k s2)) f !! Z.to_nat (x mod PAGE_SIZE)) /\
  (forall x, ~ copied x -> um_bytes (cap_um s3) !! x = um_bytes (cap_um s2) !! x) /\
  (syscall_head s2 = syscall_head s1 -> syscall_head s3 = syscall_head s) /\ (syscall_tail s2 = syscall_tail s1 -> syscall_tail s3 = syscall_tail s).
Proof.
  intros Hne Hok Hl Ha HI Hmin Hminp Hts H Ha1 Hrel. unfold capture_inner, us_is_empty in H. rewrite (proj2 (Z.eqb_neq _ _)) in H by lia.
  rewrite (proj2 (Z.eqb_neq _ _)) in H by done.
  destruct (capture_between_inv _ _ _ _ _ _ _ _ _ _ _ _ Hne Hok Hl Ha HI Hmin Hminp Hts H) as (p0 & h & hp & m & t & tp & t1 & t2 & b1 & b2 & b3 & HS).
  destruct (stages_final HS) as (F1 & _). rewrite F1 in Ha1. injection Ha1 as ->. destruct (stages_release HS dbg s2 s3 Hrel) as (Rh & Rt & Ro & Vh & Vt & Sh & St).
  pose proof (sg_cut _ _ _ _ _ _ _ _ _ _ _ _ _ _ _ _ _ _ _ _ _ HS) as Hcut. pose proof Hcut as (C1 & C2 & C3 & C4 & C5 & C6 & C7).
  destruct (sg_guard _ _ _ _ _ _ _ _ _ _ _ _ _ _ _ _ _ _ _ _ _ HS) as (_ & _ & G3 & _). intros page copied. unfold copied, page, in_slice. rewrite G3. simpl.
  assert (Hw : forall x, _) by (intros x; exact (cut_where (us_base buf) (us_len buf) h hp m t tp x ltac:(by destruct buf) Hcut)). simpl in Hw.
  split_and!; [| |done..].
  - intros x [Hx Hv]. destruct (Hw x Hx) as [(W1 & W2 & W3 & W4)|[(W1 & W2)|(W1 & W2 & W3 & W4)]].
    + destruct (Rh x ltac:(lia) W1) as (f & Hf & Hb). exists f, (end_flags READ true). rewrite W3, W4. by rewrite Z.add_0_r.
    + exfalso. rewrite (stages_view HS) in Hv by lia. done.
    + destruct (Rt x ltac:(lia) W1) as (f & Hf & Hb). exists f, (end_flags READ true). rewrite W3, W4. by rewrite Z.add_assoc.
  - assert (Hm0 : 0 <= h /\ 0 <= m * PAGE_SIZE) by (unfold PAGE_SIZE in *; lia).
    intros x Hn. apply Ro; intros (Hp & Hx); apply Hn; (split; [lia|]); destruct (Hw x ltac:(lia)) as [(W1 & W2 & W3 & W4)|[(W1 & W2)|(W1 & W2 & W3 & W4)]]; try lia.
    + rewrite W3, Z.add_0_r. auto.
    + rewrite W3, Z.add_assoc. auto.
Qed.
End spec.

(** *** A failed copy back

    [destroyed] is set before the copies: a guard whose copy back fails never
    unmaps its pages, but its frames go back to the context. *)
Lemma release_fault_keeps_pages `{PageFlagsApi} `{MapFlagsApi} `{PageMapperApi} dbg g s e s1 : g_destroyed g = false -> g_base g <> DANGLING ->
  copy_back (g_head g) (g_base g mod PAGE_SIZE) s = Done (Err e, s1) ->
  exists s', release dbg g s = Done (Err e, s') /\ cap_k s' = cap_k s.
Proof.
  intros Hd Hb Hc. unfold release, release_inner. rewrite Hd, (proj2 (Z.eqb_neq _ _) Hb).
  assert (Hi : forall k, (let? _ := copy_back (g_head g) (g_base g mod PAGE_SIZE) in k) s = Done (Err (A := unit) e, s1)).
  { intros k. unfold bind_result. by rewrite (bind_Done _ _ _ _ _ Hc). }
  rewrite (bind_Done _ _ _ _ _ (Hi _)). destruct (copy_back_frame _ _ _ _ _ Hc) as [<- _].
  destruct (ci_src (g_head g)) as [[f []]|], (ci_src (g_tail g)) as [[f' []]|]; by eexists.
Qed.

(** ** Runs *)

Module CaptureExamples.
Import SimpleFlags AddrSpaceWitnesses.

Definition after {S A} (m : M S A) (s : S) : S := match m s with Done (_, s') => s' | Panic => s end.
Definition outcome_of {S A} (m : M S A) (s : S) : option A := match m s with Done (x, _) => Some x | Panic => None end.

(** The caller has the space 1, with four pages at page 1, and the kernel frames
    [hf] and [tf]; the scheme has the space 2. *)
Definition hf : Frame := 0x401000.
Definition tf : Frame := 0x402000.
Definition spaces0 : Kernel :=
  after mmap0 (mkKernel (after (raii_allocate false ;;; raii_allocate false) mem0) {[ 1 := AddrSpace_new; 2 := AddrSpace_new ]} 0 []).
Definition bytes0 : UserMem := mkUserMem (list_to_map (map (fun i => (0x3000 + i, 1 + i)) (range 16))) ∅.
Definition caller : CapState := mkCap spaces0 bytes0 (SFree hf) (SFree tf).

(** What the scheme has at a page, and the start of a frame. *)
Definition scheme_page (s : CapState) (q : Z) : option (Attr * option Z) :=
  match spaces (cap_k s) !! 2 with
  | Some a => (fun x => (x, fst <$> pt_translate (utable a) (q * PAGE_SIZE))) <$> gview (grants a) q
  | None => None
  end.
Definition starts (s : CapState) (f : Frame) (n : nat) : list Z := take n (frame_bytes (mem (cap_k s)) f).

Lemma caller_spaces : exists a ts, spaces (cap_k caller) !! 2 = Some a /\ grants a = UserGrants_new /\ utable a = utable AddrSpace_new /\ mmap_min a = 1 * PAGE_SIZE /\
  utable <$> spaces (cap_k caller) !! 1 = Some ts.
Proof. exists AddrSpace_new. eexists. split_and!; vm_compute; reflexivity. Qed.

Lemma caller_bytes : bytes_ok (cap_um caller).
Proof.
  intros x b Hx. apply elem_of_list_to_map_2 in Hx.
  assert (Forall (fun e => 0 <= e.2 < 256) (map (fun i => (0x3000 + i, 1 + i)) (range 16))) as Hall by (vm_compute; repeat constructor; discriminate).
  rewrite Forall_forall in Hall. exact (Hall _ Hx).
Qed.
Lemma caller_distinct : forall f, syscall_head caller = SFree f -> syscall_tail caller <> SFree f.
Proof. by intros f [= <-]. Qed.

(** A page and two bytes of the next, for the scheme to read and to write. *)
Definition buf : UserSlice := mkUserSlice 0x2000 0x1002.

Lemma captured_run : exists g s', capture_inner false true true (Some 1) (Some 2) buf caller = Done (Ok g, s') /\ g_span g = mkPageSpan 1 2 /\
  exists a, spaces (cap_k s') !! 2 = Some a.
Proof.
  assert (H : match capture_inner false true true (Some 1) (Some 2) buf caller with
    Done (Ok g, s) => match spaces (cap_k s) !! 2 with Some _ => Some (g_span g) | None => None end | _ => None end = Some (mkPageSpan 1 2)) by by vm_compute.
  destruct (capture_inner false true true (Some 1) (Some 2) buf caller) as [[[g|e] s']|]; [|done..].
  exists g, s'. split; [done|]. destruct (spaces (cap_k s') !! 2) as [a|]; [|done]. injection H as H. split; [done|by exists a].
Qed.

(** The pages 1 and 2 of the scheme are a page of the buffer and a copy of its
    last two bytes, the rest zeros. *)
Lemma capture_confined_witness : exists g s', capture_inner false true true (Some 1) (Some 2) buf caller = Done (Ok g, s') /\
  exists a', spaces (cap_k s') !! 2 = Some a' /\ g_base g = 0x1000 /\ copied_page true true buf caller s' a' 2 3.
Proof.
  destruct captured_run as (g & s' & Hrun & Hsp & _). destruct caller_spaces as (a & ts & Ha & Hg & Hu & Hm & Hts). exists g, s'. split; [done|].
  destruct (capture_confined false true true 1 2 buf caller g s' a ts 1) as (a' & Ha' & _ & _ & _ & Hb & _ & _ & _ & _ & Hp).
  - lia.
  - unfold us_ok. cbn [us_base us_len buf]. unfold USER_END_OFFSET, PML4_SIZE. lia.
  - reflexivity.
  - exact caller_bytes.
  - exact caller_distinct.
  - exact Ha.
  - rewrite Hg. apply new_inv.
  - intros p _. by rewrite Hu.
  - exact Hm.
  - rewrite USER_END_PAGE_eq. lia.
  - exact Hts.
  - exact Hrun.
  - exists a'. rewrite Hsp in Hb, Hp. split; [exact Ha'|]. split; [exact Hb|].
    specialize (Hp 2 ltac:(simpl; lia)). cbv zeta in Hp. change (2 - span_base (mkPageSpan 1 2) + us_base buf / PAGE_SIZE) with 3 in Hp.
    destruct Hp as [(_ & H & _)|H]; [|exact H]. exfalso. cbn [us_base us_len buf] in H. unfold PAGE_SIZE in H. lia.
Defined.

(** The scheme overwrites the two copied bytes with 77 and 78. *)
Definition scheme_writes (s : CapState) : CapState := after (write_frame tf [77; 78]) s.

Lemma release_copies_back_witness : exists g s1 s3, capture_inner false true true (Some 1) (Some 2) buf caller = Done (Ok g, s1) /\
  release false g (scheme_writes s1) = Done (Ok tt, s3) /\ syscall_tail s3 = SFree tf /\
  um_bytes (cap_um s3) !! 0x3002 = um_bytes (cap_um (scheme_writes s1)) !! 0x3002 /\ um_bytes (cap_um s3) !! 0x3000 = Some 77.
Proof.
  destruct captured_run as (g & s1 & Hrun & _ & a1 & Ha1). destruct caller_spaces as (a & ts & Ha & Hg & Hu & Hm & Hts).
  assert (Hr : (fun s => match s with Some (s1, g) => outcome_of (release false g) (scheme_writes s1) | None => None end)
    (match capture_inner false true true (Some 1) (Some 2) buf caller with Done (Ok g, s) => Some (s, g) | _ => None end) = Some (Ok tt)) by by vm_compute.
  assert (Hb : (fun s => match s with Some (s1, g) => um_bytes (cap_um (after (release false g) (scheme_writes s1))) !! 0x3000 | None => None end)
    (match capture_inner false true true (Some 1) (Some 2) buf caller with Done (Ok g, s) => Some (s, g) | _ => None end) = Some 77) by by vm_compute.
  rewrite Hrun in Hr, Hb. unfold outcome_of in Hr. unfold after at 1 in Hb. destruct (release false g (scheme_writes s1)) as [[r s3]|] eqn:Hrel; [|done]. injection Hr as ->.
  exists g, s1, s3. split; [exact Hrun|]. split; [exact Hrel|].
  destruct (release_copies_back false true 1 2 buf caller g s1 a a1 ts 1 (scheme_writes s1) s3) as (_ & Hout & _ & Ht).
  - lia.
  - unfold us_ok. cbn [us_base us_len buf]. unfold USER_END_OFFSET, PML4_SIZE. lia.
  - reflexivity.
  - exact Ha.
  - rewrite Hg. apply new_inv.
  - exact Hm.
  - rewrite USER_END_PAGE_eq. lia.
  - exact Hts.
  - exact Hrun.
  - exact Ha1.
  - exact Hrel.
  - split; [exact (Ht eq_refl)|]. split; [|exact Hb]. apply Hout. intros [Hin _]. unfold in_slice in Hin. cbn [us_base us_len buf] in Hin. lia.
Defined.

(** A path that is empty: the guard has no pages to unmap, so that the page that
    was mapped for it stays in the scheme's space, pinned, while the frame
    behind it is the caller's for the next call; the path of that call, which
    may be meant for another scheme, can be read there. *)
Definition empty_path : CapState :=
  match copy_and_capture_tail false (Some (Some 2)) [] caller with Done (Ok g, s) => after (release false g) s | _ => caller end.
Theorem empty_path_leaks_frame :
  outcome_of (copy_and_capture_tail false (Some (Some 2)) []) caller <> None /\ syscall_tail empty_path = SFree tf /\
  scheme_page caller 1 = None /\ scheme_page empty_path 1 = Some (end_attr true false, Some tf) /\
  starts (after (copy_and_capture_tail false (Some (Some 2)) [112; 119]) empty_path) tf 2 = [112; 119].
Proof. split_and!; by vm_compute. Qed.

(** A path shorter than what the frame held before: the scheme also sees the
    rest. *)
Theorem path_capture_shows_old_bytes :
  let first := match copy_and_capture_tail false (Some (Some 2)) [115; 101; 99; 114; 101; 116] caller with Done (Ok g, s) => after (release false g) s | _ => caller end in
  let second := after (copy_and_capture_tail false (Some (Some 2)) [47]) first in
  scheme_page first 1 = None /\ scheme_page second 1 = Some (end_attr true false, Some tf) /\ starts second tf 7 = [47; 101; 99; 114; 101; 116; 0].
Proof. split_and!; by vm_compute. Qed.

(** A buffer the scheme is to write to, from the end of the caller's last page
    to pages that are not mapped: the capture fails, and the page for its head
    stays in the scheme's space, pinned and writable, on a kernel frame that the
    caller's next call uses again. *)
Definition bad_buf : UserSlice := mkUserSlice 0x4ff0 0x1010.
Theorem failed_capture_leaks_frame :
  let s := after (capture_inner false false true (Some 1) (Some 2) bad_buf) caller in
  outcome_of (capture_inner false false true (Some 1) (Some 2) bad_buf) caller = Some (Err EINVAL) /\ syscall_head s = SFree hf /\
  scheme_page caller 1 = None /\ scheme_page s 1 = Some (end_attr false true, Some hf).
Proof. split_and!; by vm_compute. Qed.
End CaptureExamples.
