(* ===== verification/UserMethods.v ===== *)
(** * The operations of a user-space scheme, with their buffers (src/scheme/user.rs, [impl KernelScheme for UserScheme])

    Each operation upgrades the reference to the scheme ([ENODEV] if it is gone),
    captures what it passes to the scheme, makes one request with the address the
    scheme sees, waits for the response, releases the capture and interprets the
    response.  [Method] says what an operation does at each of these points;
    [method_begin] runs one up to the first switch to another context and
    [method_resume] is one round of its loop after that. *)

From S2P Require Import Prelude PageInfo FrameAllocator Rmm OrdMap Grants CpuSet AddrSpace UserCopy Sync FdTbl Scheduler Event Files UserScheme UserCalls Capture.

(** What an operation passes: nothing, a path, or a buffer of the caller. *)
Inductive Payload :=
| PNone
| PPath (path : list Z)
| PBuf (READ WRITE : bool) (buf : UserSlice).

(** [md_sqe] builds the request from the base and the length of the captured
    memory and the tag; [md_releases] is whether the guard is released explicitly
    ([address.release()?]) before the result is looked at, or dropped. *)
Record Method (A : Type) := mkMethod {
  md_payload : Payload;
  md_fds : option (list Z);
  md_sqe : Z -> Z -> Z -> Sqe;
  md_timeout : option Z;
  md_releases : bool;
  md_response : Response -> result Error A;
}.
Arguments mkMethod {A}.
Arguments md_payload {A}. Arguments md_fds {A}. Arguments md_sqe {A}. Arguments md_timeout {A}. Arguments md_releases {A}. Arguments md_response {A}.

(** A call that waits: its tag, its deadline and its captured memory. *)
Record Pending := mkPending { pd_tag : Z; pd_expiry : option Z; pd_guard : CaptureGuard }.
Inductive Progress (A : Type) :=
| Returned (r : result Error A)
| Pend (p : Pending).
Arguments Returned {A}. Arguments Pend {A}.

(** No capture: [&mut PageSpan::empty()]. *)
Definition no_guard : CaptureGuard := mkGuard true 0 0 PageSpan_empty no_copy no_copy None.
Definition set_span (span : PageSpan) (g : CaptureGuard) : CaptureGuard :=
  mkGuard (g_destroyed g) (g_base g) (g_len g) span (g_head g) (g_tail g) (g_addrsp g).

Definition result_map {A B} (f : A -> B) (r : result Error A) : result Error B := match r with Ok a => Ok (f a) | Err e => Err e end.

Section methods.
Context {PFA : PageFlagsApi} {MFA : MapFlagsApi} {PMA : PageMapperApi} {EP : EventParams} {UP : UserParams} {FF : FileFlags}.
Context (dbg : bool).

(** The address space of a context. *)
Context (space_of : Z -> option Z).

(** [AddrSpace::current()] for the modelled address spaces. *)
#[export] Instance kernel_spaces : SpaceApi Kernel := {|
  current_munmap := fun cid span =>
    match space_of cid with
    | None => err ESRCH
    | Some sid => let? _ := munmap dbg sid span true in ok tt
    end;
  current_translate := fun cid va k =>
    match space_of cid with
    | None => Err ESRCH
    | Some sid =>
        match spaces k !! sid with
        | None => Err ESRCH
        | Some a => Ok (fst <$> pt_translate (utable a) va)
        end
    end;
|}.

(** The scheme, and the memory and the kernel frames of the caller. *)
Record MState := mkMS {
  ms_user : @UserState Kernel;
  ms_um : UserMem;
  ms_head : SyscallFrame;
  ms_tail : SyscallFrame;
}.
Definition cap_of (s : MState) : CapState := mkCap (u_mem (ms_user s)) (ms_um s) (ms_head s) (ms_tail s).
Definition put_cap (c : CapState) (s : MState) : MState :=
  mkMS (set_umem (cap_k c) (ms_user s)) (cap_um c) (syscall_head c) (syscall_tail c).
Definition in_cap {A} (m : M CapState A) : M MState A := zoom cap_of put_cap m.
Definition in_scheme {A} (m : M (@UserState Kernel) A) : M MState A :=
  zoom ms_user (fun u s => mkMS u (ms_um s) (ms_head s) (ms_tail s)) m.

(** ** Running an operation *)

Definition capture (cid : Z) (p : Payload) : M MState (result Error CaptureGuard) :=
  let! s := get_state in
  let context := ui_context (u_inner (ms_user s)) in
  let alive := bool_decide (is_Some (ctxs (u_sched (ms_user s)) !! context)) in
  match p with
  | PNone => ok no_guard
  | PPath path => in_cap (copy_and_capture_tail dbg (if alive then Some (space_of context) else None) path)
  | PBuf READ WRITE buf => in_cap (capture_inner dbg READ WRITE (space_of cid) (if alive then space_of context else None) buf)
  end.

(** The end of an operation, with what is left of the span the caller is to
    unmap.  A response that is not passed on is dropped. *)
Definition method_end {A} (md : Method A) (g : CaptureGuard) (span : PageSpan) (r : result Error Response) : M MState (result Error A) :=
  let! released := in_cap (release dbg (set_span span g)) in
  let r' := match (if md_releases md then released else Ok tt), r with
            | Err e, _ | Ok _, Err e => Err e
            | Ok _, Ok response => md_response md response
            end in
  match r', r with
  | Err _, Ok response => in_scheme (drop_response response)
  | _, _ => ret tt
  end ;;;
  ret r'.

Definition method_begin {A} (alive : bool) (cid now : Z) (md : Method A) : M MState (Progress A) :=
  if negb alive then ret (Returned (Err ENODEV))
  else
    let! g := capture cid (md_payload md) in
    match g with
    | Err e => ret (Returned (Err e))
    | Ok g =>
        let! b := in_scheme (begin_with cid (md_fds md) (md_sqe md (g_base g) (g_len g)) (md_timeout md) now) in
        match b with
        | Ok sqe => ret (Pend (mkPending (sqe_tag sqe) (timeout_expiry_of (md_timeout md) now) g))
        | Err e => let! r := method_end md g (g_span g) (Err e) in ret (Returned r)
        end
    end.

Definition method_resume {A} (cid now : Z) (md : Method A) (p : Pending) : M MState (Progress A) :=
  let! '(r, span) := in_scheme (call_resume cid (pd_tag p) (pd_expiry p) now (g_span (pd_guard p))) in
  match r with
  | RAgain => ret (Pend (mkPending (pd_tag p) (pd_expiry p) (set_span span (pd_guard p))))
  | RDone r => let! r := method_end md (pd_guard p) span r in ret (Returned r)
  end.

(** ** The operations *)

(** [inner.call_extended(ctx, None, ...)], and with the response of [call] *)
Definition request {A} (ctx : CallerCtx) (opcode : Opcode) (p : Payload) (args : Z -> Z -> list Z) (timeout : option Z) (releases : bool)
  (response : Response -> result Error A) : Method A :=
  mkMethod p None (fun base len => mk_sqe ctx opcode (args base len)) timeout releases response.
Definition plain (ctx : CallerCtx) (opcode : Opcode) (args : list Z) : Method Z :=
  request ctx opcode PNone (fun _ _ => args) None false call_response.
Definition discard {A} (r : Response) (k : Response -> result Error A) : result Error unit := result_map (fun _ => tt) (k r).
Definition T : option Z := Some USER_SCHEME_TIMEOUT_NS.
Definition to_unit (r : Response) : result Error unit := discard r call_response.
Definition plain_unit (ctx : CallerCtx) (opcode : Opcode) (args : list Z) : Method unit :=
  request ctx opcode PNone (fun _ _ => args) None false to_unit.

Definition user_kopen (ctx : CallerCtx) (path : list Z) (flags : Z) : Method OpenResult :=
  request ctx OOpen (PPath path) (fun base len => [base; len; flags]) T false kopen_response.
Definition user_kopenat (ctx : CallerCtx) (file : Z) (path : list Z) (flags fcntl_flags : Z) : Method OpenResult :=
  request ctx OOpenAt (PPath path) (fun base len => [file; base; len; flags; fcntl_flags]) T true open_response.
Definition user_unlinkat (ctx : CallerCtx) (file : Z) (path : list Z) (flags : Z) : Method unit :=
  request ctx OUnlinkAt (PPath path) (fun base len => [file; base; len; flags]) None false to_unit.
Definition user_fsize (ctx : CallerCtx) (file : Z) : Method Z := plain ctx OFsize [file].
Definition user_fchmod (ctx : CallerCtx) (file mode : Z) : Method unit := plain_unit ctx OFchmod [file; mode].
(** [fchown] lets only the super-user change to other ids than its own, which it
    checks before anything else. *)
Definition user_fchown (ctx : CallerCtx) (file uid gid : Z) : result Error (Method unit) :=
  if negb (c_uid ctx =? 0) && (negb (uid =? c_uid ctx) || negb (gid =? c_gid ctx)) then Err EPERM
  else Ok (plain_unit ctx OFchown [file; uid; gid]).
Definition user_fcntl (ctx : CallerCtx) (file cmd arg : Z) : Method Z := plain ctx OFcntl [file; cmd; arg].
(** [truncate] is [EventFlags::from_bits_truncate] *)
Definition user_fevent (truncate : Z -> Z) (ctx : CallerCtx) (file flags : Z) : Method Z :=
  request ctx OFevent PNone (fun _ _ => [file; flags]) None false (fun r => result_map truncate (call_response r)).
Definition user_flink (ctx : CallerCtx) (file : Z) (path : list Z) : Method unit :=
  request ctx OFlink (PPath path) (fun base len => [file; base; len]) None false to_unit.
Definition user_frename (ctx : CallerCtx) (file : Z) (path : list Z) : Method unit :=
  request ctx OFrename (PPath path) (fun base len => [file; base; len]) None false to_unit.
Definition user_fsync (ctx : CallerCtx) (file : Z) : Method unit := plain_unit ctx OFsync [file].
Definition user_ftruncate (ctx : CallerCtx) (file len : Z) : Method unit := plain_unit ctx OFtruncate [file; len].

Definition user_close (alive : bool) (cid : Z) (ctx : CallerCtx) (id now : Z) : M MState (Progress unit) :=
  let! s := get_state in
  if negb alive then ret (Returned (Err ENODEV))
  else if negb (supports_on_close (u_inner (ms_user s))) then method_begin alive cid now (plain_unit ctx OClose [id])
  else
    in_scheme (send_todo (close_msg id)) ;;;
    in_scheme trigger_read ;;;
    ret (Returned (Ok tt)).

Definition user_kdup (ctx : CallerCtx) (file : Z) (buf : UserSlice) : Method OpenResult :=
  request ctx ODup (PBuf true false buf) (fun base len => [file; base; len]) T true open_response.
Definition user_kfpath (ctx : CallerCtx) (file : Z) (buf : UserSlice) : Method Z :=
  request ctx OFpath (PBuf false true buf) (fun base len => [file; base; len]) T true call_response.
Definition user_kreadoff (ctx : CallerCtx) (file : Z) (buf : UserSlice) (offset call_flags : Z) : Method Z :=
  request ctx ORead (PBuf false true buf) (fun base len => [file; base; len; offset; call_flags]) None true call_response.
Definition user_kwriteoff (ctx : CallerCtx) (file : Z) (buf : UserSlice) (offset call_flags : Z) : Method Z :=
  request ctx OWrite (PBuf true false buf) (fun base len => [file; base; len; offset; call_flags]) None true call_response.
Definition user_kfutimens (ctx : CallerCtx) (file : Z) (buf : UserSlice) : Method Z :=
  request ctx OFutimens (PBuf true false buf) (fun base len => [file; base; len]) None true call_response.
Definition user_getdents (ctx : CallerCtx) (file : Z) (buf : UserSlice) (header_size opaque_id_start : Z) : Method Z :=
  request ctx OGetdents (PBuf false true buf) (fun base len => [file; base; len; header_size; opaque_id_start]) T true call_response.
Definition user_kfstat (ctx : CallerCtx) (file : Z) (stat : UserSlice) : Method unit :=
  request ctx OFstat (PBuf false true stat) (fun base len => [file; base; len]) T true to_unit.
Definition user_kfstatvfs (ctx : CallerCtx) (file : Z) (stat : UserSlice) : Method unit :=
  request ctx OFstatvfs (PBuf false true stat) (fun base len => [file; base; len]) T true to_unit.
Definition user_kfunmap (ctx : CallerCtx) (number offset size flags : Z) : Method unit :=
  request ctx OMunmap PNone (fun _ _ => [number; size; flags; offset]) None false kfunmap_response.
Definition user_kcall (ctx : CallerCtx) (id : Z) (payload : UserSlice) (metadata : list Z) : Method Z :=
  mkMethod (PBuf true true payload) None (fun base len => kcall_sqe (c_pid ctx) id base len metadata) None false call_response.
Definition user_kfdwrite (ctx : CallerCtx) (number : Z) (descs_ : list Z) (sendfd_flags arg : Z) : Method Z :=
  mkMethod PNone (Some descs_) (fun _ _ => mk_sqe ctx OSendfd [number; sendfd_flags; arg; Z.of_nat (length descs_)]) None false call_response.
(** [kfdread] up to the response, which [kfdread_response] handles; the payload
    is whole words, which is checked once the scheme is known to be there. *)
Definition user_kfdread (ctx : CallerCtx) (id payload_len recvfd_flags : Z) : result Error (Method Response) :=
  if negb (payload_len mod 8 =? 0) then Err EINVAL
  else Ok (request ctx ORecvfd PNone (fun _ _ => [id; recvfd_flags; payload_len / 8]) None false Ok).
End methods.
