(* ===== verification/UserMethodsSpec.v ===== *)
(** * Theorems about the operations of user-space schemes

    What a caller gets from an operation that passes a buffer, and what becomes
    of the buffer when the caller is killed. *)

From S2P Require Import Prelude PageInfo FrameAllocator FrameAllocatorSpec FrameRefs Rmm OrdMap Grants GrantsSpec CpuSet AddrSpace AddrSpaceSpec UserCopy Sync FdTbl Scheduler Event Files UserScheme UserCalls Capture CaptureSpec UserMethods.
Set Default Goal Selector "!".

Section spec.
Context {PFA : PageFlagsApi} {PFL : PageFlagsLaws} {MFA : MapFlagsApi} {MFL : MapFlagsLaws} {PMA : PageMapperApi} {PML : PageMapperLaws}.
Context {EP : EventParams} {UP : UserParams} {FF : FileFlags}.
Context (dbg : bool) (space_of : Z -> option Z).
Abbreviation SA := (kernel_spaces dbg space_of).

Abbreviation slot s tag := (states (u_inner s) !! tag).
Abbreviation ctx_at s cid := (ctxs (u_sched s) !! cid).

(** ** The parts of an operation *)

Lemma in_cap_inv {A} (m : M CapState A) s x s' : in_cap m s = Done (x, s') -> exists c, m (cap_of s) = Done (x, c) /\ s' = put_cap c s.
Proof. unfold in_cap, zoom. destruct (m (cap_of s)) as [[y c]|]; [|done]. intros [= <- <-]. by exists c. Qed.
Lemma in_scheme_inv {A} (m : M (@UserState Kernel) A) s x s' : in_scheme m s = Done (x, s') ->
  exists u, m (ms_user s) = Done (x, u) /\ s' = mkMS u (ms_um s) (ms_head s) (ms_tail s).
Proof. unfold in_scheme, zoom. destruct (m (ms_user s)) as [[y u]|]; [|done]. intros [= <- <-]. by exists u. Qed.
Lemma cap_of_put c s : cap_of (put_cap c s) = c.
Proof. by destruct c. Qed.

Definition same_umem (s s' : @UserState Kernel) : Prop := u_mem s' = u_mem s.
#[local] Instance same_umem_preorder : PreOrder same_umem.
Proof. split; [done|]. intros x y z. unfold same_umem. congruence. Qed.

Lemma keeps_in_heap {A} (m : M Heap A) : keeps same_umem (in_heap m).
Proof. intros s x s'. unfold in_heap, zoom. destruct (m _) as [[]|]; [|done]. by intros [= _ <-]. Qed.
Lemma keeps_in_sched {A} (m : M Sched A) : keeps same_umem (in_sched m).
Proof. intros s x s'. unfold in_sched, zoom. destruct (m _) as [[]|]; [|done]. by intros [= _ <-]. Qed.
Lemma keeps_in_events {A} (m : M EventState A) : keeps same_umem (in_events m).
Proof. intros s x s'. unfold in_events, zoom. destruct (m _) as [[]|]; [|done]. by intros [= _ <-]. Qed.
Lemma keeps_set_states f : keeps same_umem (set_states f).
Proof. by intros s x s' [= _ <-]. Qed.
Lemma umem_send_todo sqe : keeps same_umem (send_todo sqe).
Proof. intros s x s'. unfold send_todo. destruct (send _ _ _) as [[[]]|]; [|done]. by intros [= _ <-]. Qed.
Hint Resolve keeps_in_heap keeps_in_sched keeps_in_events keeps_set_states umem_send_todo : keeps.
Lemma keeps_drop_resp r : keeps same_umem (drop_response r).
Proof. unfold drop_response. keep. Qed.
Lemma keeps_write_st tag st : keeps same_umem (write_state tag st).
Proof. unfold write_state. keep. Qed.
Lemma keeps_close_one d : keeps same_umem (try_close d).
Proof.
  unfold try_close. apply (keep_bind same_umem); [intros s x s'; unfold zoom; destruct (unregister_file _ _ _) as [[]|]; [|done]; by intros [= _ <-]|].
  by intros _ s x s' [= _ <-].
Qed.
Lemma umem_trigger : keeps same_umem trigger_read.
Proof. unfold trigger_read. keep. Qed.
Lemma keeps_ids : keeps same_umem next_id.
Proof. unfold next_id. keep. Qed.
Hint Resolve keeps_drop_resp keeps_write_st keeps_close_one umem_trigger keeps_ids : keeps.
Lemma keeps_unwraps l : keeps same_umem (unwrap_all l).
Proof. induction l; simpl; keep. Qed.
Hint Resolve keeps_unwraps : keeps.
Lemma keeps_begin cid fds mk timeout now : keeps same_umem (begin_with cid fds mk timeout now).
Proof. unfold begin_with, or_drop_fds, call_begin, with_preempt. keep. Qed.

Lemma set_span_same g : set_span (g_span g) g = g.
Proof. by destruct g. Qed.

Lemma resume_answered cid tag expiry now span code extra c (u : @UserState Kernel) :
  slot u tag = Some (Responded (Regular code extra)) -> ctx_at u cid = Some c -> code <> mux_err ECANCELED -> code <> mux_err EINTR ->
  exists u', call_resume cid tag expiry now span u = Done ((RDone (Ok (Regular code extra)), span), u') /\ u_mem u' = u_mem u /\ slot u' tag = None.
Proof.
  intros Hs Hc H1 H2. unfold call_resume. rewrite (bind_Done get_state _ _ _ _ eq_refl).
  assert (Ht : in_sched (the_ctx cid) u = Done (c, u)).
  { unfold in_sched, zoom, the_ctx. rewrite Hc. by destruct u as [? []]. }
  rewrite (bind_Done _ _ _ _ _ Ht), Hs. eexists. split; [|split].
  - rewrite (bind_Done _ _ _ _ _ eq_refl). rewrite (proj2 (Z.eqb_neq _ _) H1), (proj2 (Z.eqb_neq _ _) H2). reflexivity.
  - done.
  - simpl. apply lookup_delete_eq.
Qed.

Lemma method_begin_inv {A} cid now (md : Method A) READ WRITE buf s p s1 cur dst : md_payload md = PBuf READ WRITE buf ->
  space_of cid = Some cur -> is_Some (ctx_at (ms_user s) (ui_context (u_inner (ms_user s)))) -> space_of (ui_context (u_inner (ms_user s))) = Some dst ->
  method_begin dbg space_of true cid now md s = Done (Pend p, s1) ->
  exists c, capture_inner dbg READ WRITE (Some cur) (Some dst) buf (cap_of s) = Done (Ok (pd_guard p), c) /\ cap_of s1 = c.
Proof.
  intros Hp Hcid Hal Hdst H. unfold method_begin in H. cbn [negb] in H. apply bind_Done_inv in H as (g & s2 & Hc & H).
  unfold capture in Hc. rewrite (bind_Done get_state _ _ _ _ eq_refl), Hp, bool_decide_true, Hcid, Hdst in Hc by done.
  apply in_cap_inv in Hc as (c & Hc & ->). destruct g as [g|e]; [|done]. exists c.
  apply bind_Done_inv in H as (b & s3 & Hb & H). apply in_scheme_inv in Hb as (u & Hb & ->).
  assert (Hu : u_mem u = cap_k c) by (apply (keeps_begin _ _ _ _ _ _ _ _ Hb)).
  destruct b as [sqe|e].
  - injection H as <- <-. split; [done|]. unfold cap_of. cbn. rewrite Hu. by destruct c.
  - by apply bind_Done_inv in H as (r & s4 & _ & H).
Qed.

(** C10: an operation of a user-space scheme that passes a buffer for the scheme
    to write to ([read], [fpath], [getdents], [fstat], [fstatvfs]), from its
    start to its return: when the scheme has answered with a code and the
    operation succeeds, its result is the one the code stands for, its slot is
    free again, and the caller's buffer holds what the scheme wrote: on the pages
    that were copied the bytes of the scheme's page at the same offset, as they
    are when the caller resumes, and on the lent pages what is there already;
    nothing else of the caller's memory is written. *)
Theorem user_read_returns {A} cid now now' (md : Method A) READ buf s p s1 s2 s3 v cur dst a a1 ts minp code extra c :
  md_payload md = PBuf READ true buf -> md_releases md = true -> space_of cid = Some cur ->
  is_Some (ctx_at (ms_user s) (ui_context (u_inner (ms_user s)))) -> space_of (ui_context (u_inner (ms_user s))) = Some dst ->
  cur <> dst -> us_ok buf -> 0 < us_len buf -> spaces (u_mem (ms_user s)) !! dst = Some a -> GrantsSpec.Inv (grants a) ->
  mmap_min a = minp * PAGE_SIZE -> 0 <= minp <= USER_END_PAGE -> utable <$> spaces (u_mem (ms_user s)) !! cur = Some ts ->
  method_begin dbg space_of true cid now md s = Done (Pend p, s1) -> spaces (u_mem (ms_user s1)) !! dst = Some a1 ->
  slot (ms_user s2) (pd_tag p) = Some (Responded (Regular code extra)) -> ctx_at (ms_user s2) cid = Some c ->
  code <> mux_err ECANCELED -> code <> mux_err EINTR ->
  method_resume dbg cid now' md p s2 = Done (Returned (Ok v), s3) ->
  let page x := span_base (g_span (pd_guard p)) + (x / PAGE_SIZE - us_base buf / PAGE_SIZE) in
  let copied x := in_slice x buf /\ gview (grants a1) (page x) = Some (end_attr READ true) in
  md_response md (Regular code extra) = Ok v /\ slot (ms_user s3) (pd_tag p) = None /\
  (forall x, copied x -> exists f fl, pt_translate (utable a1) (page x * PAGE_SIZE) = Some (f, fl) /\
     um_bytes (ms_um s3) !! x = frame_bytes (mem (u_mem (ms_user s2))) f !! Z.to_nat (x mod PAGE_SIZE)) /\
  (forall x, ~ copied x -> um_bytes (ms_um s3) !! x = um_bytes (ms_um s2) !! x).
Proof.
  intros Hp Hrel Hcid Hal Hdst Hne Hok Hl Ha HI Hmin Hminp Hts Hb Ha1 Hs2 Hc2 Hn1 Hn2 Hr.
  destruct (method_begin_inv _ _ _ _ _ _ _ _ _ _ _ Hp Hcid Hal Hdst Hb) as (k1 & Hcap & Hk1).
  unfold method_resume in Hr. destruct (resume_answered cid (pd_tag p) (pd_expiry p) now' (g_span (pd_guard p)) code extra c _ Hs2 Hc2 Hn1 Hn2) as (u & Hu & Hum & Hslot).
  apply bind_Done_inv in Hr as ([r span] & s4 & H1 & Hr). apply in_scheme_inv in H1 as (u' & H1 & ->). rewrite Hu in H1. injection H1 as <- <- <-.
  apply bind_Done_inv in Hr as (r & s5 & H2 & [= -> <-]). unfold method_end in H2. rewrite set_span_same, Hrel in H2.
  apply bind_Done_inv in H2 as (rel & s6 & H2 & H3). apply in_cap_inv in H2 as (k3 & H2 & ->).
  destruct rel as [[]|e]; [|by apply bind_Done_inv in H3 as (? & ? & _ & H3)].
  destruct (md_response md (Regular code extra)) as [w|e] eqn:Ew; [|by apply bind_Done_inv in H3 as (? & ? & _ & H3)].
  injection H3 as -> <-. rewrite <- Hk1 in Hcap.
  destruct (release_copies_back dbg READ cur dst buf (cap_of s) (pd_guard p) (cap_of s1) a a1 ts minp _ k3 Hne Hok Hl Ha HI Hmin Hminp Hts Hcap Ha1 H2) as (R1 & R2 & _).
  intros page copied. split_and!; [done|done| |exact R2]. intros x Hx. destruct (R1 x Hx) as (f & fl & Hf & Hb'). exists f, fl. split; [done|].
  rewrite <- Hum. exact Hb'.
Qed.

(** ** A caller that is killed *)

Lemma copy_back_total c off s : exists r s', copy_back c off s = Done (r, s').
Proof.
  unfold copy_back. destruct (ci_src c), (ci_dst c); try by eexists _, _. rewrite (bind_Done get_state _ _ _ _ eq_refl).
  unfold in_caller, zoom, copy_from_slice. destruct (negb _); [by eexists _, _|]. destruct (copy_to_user _ _ _) as [[] ?]; by eexists _, _.
Qed.

Lemma ht_drop_run b c : exists c', ht_drop b c = Done (tt, c') /\ cap_k c' = cap_k c.
Proof. destruct b as [[f []]|]; by eexists. Qed.

(** Without a span to unmap a release leaves the address spaces alone. *)
Lemma release_empty g c : g_span g = PageSpan_empty -> exists r c', release dbg g c = Done (r, c') /\ cap_k c' = cap_k c.
Proof.
  intros Hg. assert (Hi : exists r c1, release_inner dbg g c = Done (r, c1) /\ cap_k c1 = cap_k c).
  { unfold release_inner. destruct (g_destroyed g); [by eexists _, _|]. destruct (_ =? _); [by eexists _, _|].
    destruct (copy_back_total (g_head g) (g_base g mod PAGE_SIZE) c) as (r1 & c1 & H1). destruct (copy_back_frame _ _ _ _ _ H1) as [K1 _].
    unfold bind_result. rewrite (bind_Done _ _ _ _ _ H1). destruct r1 as [[]|e]; [|by eexists _, _].
    destruct (copy_back_total (g_tail g) 0 c1) as (r2 & c2 & H2). destruct (copy_back_frame _ _ _ _ _ H2) as [K2 _].
    rewrite (bind_Done _ _ _ _ _ H2). destruct r2 as [[]|e]; [|eexists _, _; split; [reflexivity|congruence]].
    rewrite Hg. eexists _, c2. split; [by destruct (g_addrsp g)|congruence]. }
  destruct Hi as (r & c1 & H1 & K1). unfold release. rewrite (bind_Done _ _ _ _ _ H1).
  destruct (ht_drop_run (ci_src (g_head g)) c1) as (c2 & H2 & K2). destruct (ht_drop_run (ci_src (g_tail g)) c2) as (c3 & H3 & K3).
  rewrite (bind_Done _ _ _ _ _ H2), (bind_Done _ _ _ _ _ H3). eexists _, c3. split; [done|congruence].
Qed.

Lemma resume_killed cid tag expiry now span fds callee ex c (u : @UserState Kernel) :
  slot u tag = Some (Waiting cid fds callee false ex) -> ctx_at u cid = Some c -> being_sigkilled c = true -> (forall e, ex = Some e -> now < e) ->
  exists u', call_resume cid tag expiry now span u = Done ((RDone (Err EINTR), PageSpan_empty), u') /\ u_mem u' = u_mem u /\
    slot u' tag = Some (Waiting cid fds span true ex).
Proof.
  intros Hs Hc Hk He. unfold call_resume. rewrite (bind_Done get_state _ _ _ _ eq_refl).
  assert (Ht : in_sched (the_ctx cid) u = Done (c, u)).
  { unfold in_sched, zoom, the_ctx. rewrite Hc. by destruct u as [? []]. }
  rewrite (bind_Done _ _ _ _ _ Ht), Hs, Hk. eexists. split; [|split].
  - unfold write_state. rewrite bind_assoc, (bind_Done get_state _ _ _ _ eq_refl), bool_decide_true by (rewrite Hs; by eexists).
    rewrite (bind_Done _ _ _ _ _ eq_refl). replace (match ex with Some e => e <=? now | None => false end) with false; [reflexivity|].
    destruct ex as [e|]; [|done]. symmetry. apply Z.leb_gt. by apply He.
  - done.
  - simpl. apply lookup_insert_eq.
Qed.

Lemma respond_unmaps cur sid tag response cid fds span can ex (u u' : @UserState Kernel) : slot u tag = Some (Waiting cid fds span can ex) -> space_of cur = Some sid ->
  respond (SA := SA) cur tag response u = Done (Ok tt, u') -> exists files, munmap dbg sid span true (u_mem u) = Done (Ok files, u_mem u').
Proof.
  intros Hs Hcur H. unfold respond in H. rewrite (bind_Done get_state _ _ _ _ eq_refl), Hs in H.
  destruct (match convert can response with MultipleFds _ => _ | _ => _ end) as [r1 fds1].
  apply bind_Done_inv in H as (tc & u1 & H1 & H). apply keeps_unwraps in H1.
  apply bind_Done_inv in H as ([] & u2 & H2 & H).
  assert (K2 : same_umem u1 u2) by (apply (run_keeps _ _ _ _ _ H2); keep).
  apply bind_Done_inv in H as (r & u3 & H3 & H). unfold in_space, zoom, current_munmap, kernel_spaces in H3. rewrite Hcur in H3.
  unfold bind_result in H3. unfold bind at 1 in H3. rewrite K2, H1 in H3. destruct (munmap dbg sid span true (u_mem u)) as [[[files|e] k']|] eqn:Em; [| |done].
  - injection H3 as <- <-. exists files. f_equal. f_equal. symmetry.
    assert (K4 : same_umem (set_umem k' u2) u') by (apply (run_keeps _ _ _ _ _ H); keep). exact K4.
  - injection H3 as <- <-. done.
Qed.

(** A caller that is killed while it waits in an operation of a user-space
    scheme returns with an error at once and leaves the memory it passed mapped
    in the scheme's address space, its frames included: nothing is unmapped
    behind the scheme's back.  The duty to unmap it is in the slot of the call,
    and an answer to the call that succeeds, whenever it comes, unmaps just these
    pages from the address space of the context that answers. *)
Theorem user_killed_caller_leaves_pages {A} cid now (md : Method A) p s c fds callee ex :
  slot (ms_user s) (pd_tag p) = Some (Waiting cid fds callee false ex) -> ctx_at (ms_user s) cid = Some c -> being_sigkilled c = true ->
  (forall e, ex = Some e -> now < e) ->
  (exists e s1, method_resume dbg cid now md p s = Done (Returned (Err e), s1) /\ u_mem (ms_user s1) = u_mem (ms_user s) /\
     slot (ms_user s1) (pd_tag p) = Some (Waiting cid fds (g_span (pd_guard p)) true ex)) /\
  (forall u u' cur sid response fds', slot u (pd_tag p) = Some (Waiting cid fds' (g_span (pd_guard p)) true ex) -> space_of cur = Some sid ->
     respond (SA := SA) cur (pd_tag p) response u = Done (Ok tt, u') ->
     exists files, munmap dbg sid (g_span (pd_guard p)) true (u_mem u) = Done (Ok files, u_mem u')).
Proof.
  intros Hs Hc Hk He. split; [|intros u u' cur sid response fds' H1 H2 H3; by eapply respond_unmaps].
  destruct (resume_killed cid (pd_tag p) (pd_expiry p) now (g_span (pd_guard p)) fds callee ex c (ms_user s) Hs Hc Hk He) as (u & Hu & Hm & Hsl).
  unfold method_resume, in_scheme at 1, zoom at 1. unfold bind at 1. rewrite Hu. unfold method_end.
  set (s2 := mkMS u _ _ _). destruct (release_empty (set_span PageSpan_empty (pd_guard p)) (cap_of s2) eq_refl) as (r & k & Hr & Hkk).
  assert (Hin : in_cap (release dbg (set_span PageSpan_empty (pd_guard p))) s2 = Done (r, put_cap k s2)) by (unfold in_cap, zoom; by rewrite Hr).
  rewrite !bind_assoc, (bind_Done _ _ _ _ _ Hin). destruct (md_releases md), r as [[]|e]; (eexists _, _; split; [reflexivity|]); cbn; by rewrite Hkk.
Qed.
End spec.

(** ** A read of a page and two bytes *)

Module MethodWitnesses.
Import SimpleFlags AddrSpaceWitnesses CaptureExamples.
#[local] Instance ev : EventParams := {| EV_READ := 1; EV_WRITE := 2; iter_watchers := map_to_list |}.
#[local] Instance params : UserParams := {|
  vacant := fun m => fresh (dom m : gset Z); mux_err := fun e => match e with ECANCELED => 1000000 | EINTR => 1000001 | EIO => 1000002 | _ => 1000003 end;
  demux := fun z => Ok z; SQE_SIZE := 64; sqe_to_bytes := fun _ => []; CQE_SIZE := 16; cqe_of_bytes := fun _ => mkCqe 0 0 0 0 0;
  cqe_opcode := fun _ => None; event_flags_from_bits := Some; fobtainfd_from_bits := Some; MANUAL_FD := 1; socket_call := fun _ => None;
  UPPER_FDTBL_TAG := 2 ^ 62 |}.

(** The scheme is context 1 in the space 2, the caller context 7 in the space 1. *)
Definition in_space_of (cid : Z) : option Z := if cid =? 7 then Some 1 else if cid =? 1 then Some 2 else None.
Definition awake : Ctx := set_status Runnable "" new_ctx.
Definition idle : MState :=
  mkMS (mkUS (ui_new 16 17 true 0 "disk" 1) (mkES ∅ ∅ ∅ 0 (mkSched {[1 := awake; 7 := awake]} 0 ∅ 0)) (cap_k caller) (mkHeap ∅ 0) ∅ [] ∅)
    (cap_um caller) (SFree hf) (SFree tf).
Definition the_read : Method Z := user_kreadoff (mkCaller 3 0 0) 5 buf 0 0.

Definition begun : outcome (Progress Z * MState) := method_begin false in_space_of true 7 100 the_read idle.
(** The scheme has written 77 and 78 to its second page and answers. *)
Definition answer (p : Pending) (s : MState) : option MState :=
  match respond (SA := kernel_spaces false in_space_of) 1 (pd_tag p) (Regular 0x1002 0) (ms_user (put_cap (scheme_writes (cap_of s)) s)) with
  | Done (_, u) => Some (mkMS u (ms_um s) (ms_head s) (ms_tail s))
  | Panic => None
  end.

(** The run, checked at each point. *)
Definition run_ok : bool :=
  match begun with
  | Done (Pend p, s1) =>
      match spaces (u_mem (ms_user s1)) !! 2, answer p s1 with
      | Some _, Some s2 =>
          match states (u_inner (ms_user s2)) !! pd_tag p, ctxs (u_sched (ms_user s2)) !! 7, method_resume false 7 200 the_read p s2 with
          | Some (Responded (Regular code extra)), Some _, Done (Returned (Ok v), s3) =>
              (code =? 0x1002) && (extra =? 0) && (v =? 0x1002) && bool_decide (um_bytes (ms_um s3) !! 0x3000 = Some 77)
          | _, _, _ => false
          end
      | _, _ => false
      end
  | _ => false
  end.
Lemma run_checked : run_ok = true.
Proof. by vm_compute. Qed.

Lemma the_run : exists p s1 a1 s2 c s3, begun = Done (Pend p, s1) /\ spaces (u_mem (ms_user s1)) !! 2 = Some a1 /\
  states (u_inner (ms_user s2)) !! pd_tag p = Some (Responded (Regular 0x1002 0)) /\ ctxs (u_sched (ms_user s2)) !! 7 = Some c /\
  method_resume false 7 200 the_read p s2 = Done (Returned (Ok 0x1002), s3) /\ um_bytes (ms_um s3) !! 0x3000 = Some 77.
Proof.
  pose proof run_checked as H. unfold run_ok in H. destruct begun as [[[r|p] s1]|]; [done| |done].
  destruct (spaces (u_mem (ms_user s1)) !! 2) as [a1|] eqn:Ha; [|done]. destruct (answer p s1) as [s2|]; [|done].
  destruct (states (u_inner (ms_user s2)) !! pd_tag p) as [[|[code extra| |]| |]|] eqn:Hs; try done.
  destruct (ctxs (u_sched (ms_user s2)) !! 7) as [c|] eqn:Hc; [|done].
  destruct (method_resume false 7 200 the_read p s2) as [[[[v|]|] s3]|] eqn:Hr; try done.
  apply andb_true_iff in H as [[[->%Z.eqb_eq ->%Z.eqb_eq]%andb_true_iff ->%Z.eqb_eq]%andb_true_iff H%bool_decide_eq_true].
  by exists p, s1, a1, s2, c, s3.
Qed.

Lemma user_read_returns_witness : exists p s1 s2 s3, begun = Done (Pend p, s1) /\ method_resume false 7 200 the_read p s2 = Done (Returned (Ok 0x1002), s3) /\
  md_response the_read (Regular 0x1002 0) = Ok 0x1002 /\ states (u_inner (ms_user s3)) !! pd_tag p = None /\
  um_bytes (ms_um s3) !! 0x3000 = Some 77 /\ um_bytes (ms_um s3) !! 0x3002 = um_bytes (ms_um s2) !! 0x3002.
Proof.
  destruct the_run as (p & s1 & a1 & s2 & c & s3 & Hb & Ha1 & Hs & Hc & Hr & H77). destruct caller_spaces as (a & ts & Ha & Hg & Hu & Hm & Hts).
  exists p, s1, s2, s3. split; [exact Hb|]. split; [exact Hr|].
  destruct (user_read_returns false in_space_of 7 100 200 the_read false buf idle p s1 s2 s3 0x1002 1 2 a a1 ts 1 0x1002 0 c) as (R1 & R2 & _ & R4).
  - reflexivity.
  - reflexivity.
  - reflexivity.
  - exists awake. reflexivity.
  - reflexivity.
  - lia.
  - unfold us_ok. cbn [us_base us_len buf]. unfold USER_END_OFFSET, PML4_SIZE. lia.
  - reflexivity.
  - exact Ha.
  - rewrite Hg. apply new_inv.
  - exact Hm.
  - rewrite USER_END_PAGE_eq. lia.
  - exact Hts.
  - exact Hb.
  - exact Ha1.
  - exact Hs.
  - exact Hc.
  - discriminate.
  - discriminate.
  - exact Hr.
  - split; [exact R1|]. split; [exact R2|]. split; [exact H77|]. apply R4. intros [Hin _]. unfold in_slice in Hin. cbn [us_base us_len buf] in Hin. lia.
Defined.

(** The same read, its caller killed while it waits. *)
Definition dying : Ctx := mkCtx Runnable "" false None 0 0 cpu_all false None false true 0 false.
Definition killed (s : MState) : MState :=
  mkMS (set_usched (set_ctx 7 dying (u_sched (ms_user s))) (ms_user s)) (ms_um s) (ms_head s) (ms_tail s).

Lemma the_killed_run : exists p s fds callee, ctxs (u_sched (ms_user s)) !! 7 = Some dying /\ g_span (pd_guard p) = mkPageSpan 1 2 /\
  states (u_inner (ms_user s)) !! pd_tag p = Some (Waiting 7 fds callee false None).
Proof.
  assert (H : match begun with
    | Done (Pend p, s) =>
        match states (u_inner (ms_user (killed s))) !! pd_tag p, ctxs (u_sched (ms_user (killed s))) !! 7 with
        | Some (Waiting cid fds callee false None), Some c => cid = 7 /\ c = dying /\ g_span (pd_guard p) = mkPageSpan 1 2
        | _, _ => False
        end
    | _ => False
    end) by by vm_compute.
  destruct begun as [[[r|p] s1]|]; try done.
  destruct (states (u_inner (ms_user (killed s1))) !! pd_tag p) as [[cid fds callee [] []| | |]|] eqn:Hs; try done.
  destruct (ctxs (u_sched (ms_user (killed s1))) !! 7) as [c|] eqn:Hc; [|done]. destruct H as (-> & -> & Hg). by exists p, (killed s1), fds, callee.
Qed.

Lemma user_killed_caller_leaves_pages_witness : exists p s e s1 fds, method_resume false 7 200 the_read p s = Done (Returned (Err e), s1) /\
  u_mem (ms_user s1) = u_mem (ms_user s) /\ states (u_inner (ms_user s1)) !! pd_tag p = Some (Waiting 7 fds (mkPageSpan 1 2) true None).
Proof.
  destruct the_killed_run as (p & s & fds & callee & Hc & Hg & Hs). exists p, s.
  destruct (user_killed_caller_leaves_pages false in_space_of 7 200 the_read p s dying fds callee None Hs Hc eq_refl) as [(e & s1 & H1 & H2 & H3) _].
  - intros e He. discriminate He.
  - exists e, s1, fds. rewrite Hg in H3. exact (conj H1 (conj H2 H3)).
Defined.
End MethodWitnesses.
