(* ===== verification/Fmap.v ===== *)
(** * Mapping files of user-space schemes (src/context/memory.rs, src/scheme/user.rs)

    [Grant::borrow_fmap] maps pages of a scheme's address space into the address
    space of a caller; [fmap_inner] asks the scheme for the place of the file in
    its memory and then maps it.

    The flusher of the source space is detached between its uses: its state is a
    value that [borrow_fmap] carries along and drops at the end, which does not
    flush it. *)

From S2P Require Import Prelude PageInfo FrameAllocator Rmm OrdMap Grants CpuSet AddrSpace PageFault UserCopy Sync FdTbl Scheduler Event Files UserScheme UserCalls Capture UserMethods.

Inductive MmapMode := MCow | MShared.
#[export] Instance MmapMode_eq_dec : EqDecision MmapMode.
Proof. solve_decision. Defined.

(** The source: the first page, the mode and the address space. *)
Record BorrowedFmapSource := mkFmapSource { fs_base : Page; fs_mode : MmapMode; fs_space : Z }.

Section fmap.
Context {PFA : PageFlagsApi} {MFA : MapFlagsApi} {PMA : PageMapperApi} {EP : EventParams} {UP : UserParams} {FF : FileFlags}.
Context (dbg : bool).
(** The request to the owner of a file for one page, as in PageFault. *)
Context (fmap_page : GrantFileRef -> Z -> MapFlags -> M Kernel (result PfError Frame)).

(** ** [Grant::borrow_fmap] *)

Definition FlusherState : Type := list PageQueueEntry * bool.

(** [Flusher { active_cpus, state }], then [detach()] *)
Definition attached (sid : Z) (state : FlusherState) (m : M Kernel unit) : M Kernel FlusherState :=
  update_space sid (set_queue (fst state) (snd state)) ;;;
  m ;;;
  let! a := get_space sid in
  update_space sid (set_queue [] false) ;;;
  ret (pagequeue a, dirty a).

(** The frame of a source page, which is faulted in if it is not present; for a
    private mapping a present page is made read-only in the source. *)
Definition fmap_source_frame (src : BorrowedFmapSource) (src_page : Page) : M Kernel (result Error Frame) :=
  let! present :=
    match fs_mode src with
    | MShared => let! t := translate (fs_space src) (Page_start_address src_page) in ret (fst <$> t)
    | MCow => let! t := remap_with (fs_space src) (Page_start_address src_page) (pf_write false) in ret (snd <$> t)
    end in
  match present with
  | Some phys => let! frame := containing phys in ok frame
  | None =>
      let! r := correct_inner dbg fmap_page RECURSION_LEVELS (fs_space src) src_page AccessRead in
      ret (map_err (fun _ => EIO) r)
  end.

(** A shared reference on it, for which a frame that is counted as
    copy-on-write is copied first. *)
Definition fmap_ref (src : BorrowedFmapSource) (src_page : Page) (new_flags : PageFlags) (frame : Frame) (state : FlusherState)
  : M Kernel (result Error (Frame * FlusherState)) :=
  let! page_info := with_mem (get_page_info frame) in
  match page_info with
  | None => ok (frame, state)
  | Some page_info =>
      let! r := with_mem (with_info page_info (add_ref RefKind_Shared)) in
      match r with
      | Ok _ => ok (frame, state)
      | Err CowToShared =>
          let! c := with_mem (cow dbg frame page_info RefKind_Shared) in
          match c with
          | Err _ => err ENOMEM
          | Ok c =>
              let! o := remap_with_full (fs_space src) (Page_start_address src_page) (fun _ flags => (new_frame c, flags)) in
              let! '(old_flags, _) := unwrap o in
              let! state := attached (fs_space src) state
                (Flusher_queue dbg (fs_space src) frame None (change_of_flags old_flags new_flags) ;;;
                 match old_frame c with
                 | Some old_frame => Flusher_queue dbg (fs_space src) old_frame None TLB_FREE
                 | None => ret tt
                 end) in
              ok (new_frame c, state)
          end
      | Err SharedToCow => panic
      | Err RcOverflow => err ENOMEM
      end
  end.

Definition fmap_borrow_page (src : BorrowedFmapSource) (dst : Z) (span : PageSpan) (new_flags : PageFlags) (dst_page : Page) (state : FlusherState)
  : M Kernel (result Error FlusherState) :=
  let src_page := Page_next_by (fs_base src) (Page_offset_from dst_page (span_base span)) in
  let is_cow := bool_decide (fs_mode src = MCow) in
  let? frame := fmap_source_frame src src_page in
  let? '(frame, state) := fmap_ref src src_page new_flags frame state in
  let! m := map_phys dst (Page_start_address dst_page) frame (pf_write (has_write new_flags && negb is_cow) new_flags) in
  let! _ := unwrap m in
  Flusher_queue dbg dst frame None TLB_NEW_MAPPING ;;;
  ok state.

Fixpoint fmap_borrow_pages (src : BorrowedFmapSource) (dst : Z) (span : PageSpan) (new_flags : PageFlags) (pages : list Page) (state : FlusherState)
  : M Kernel (result Error FlusherState) :=
  match pages with
  | [] => ok state
  | dst_page :: pages' =>
      let? state := fmap_borrow_page src dst span new_flags dst_page state in
      fmap_borrow_pages src dst span new_flags pages' state
  end.

Definition borrow_fmap (span : PageSpan) (new_flags : PageFlags) (file_ref : GrantFileRef) (src : option BorrowedFmapSource) (dst : Z)
  : M Kernel (result Error Grant) :=
  let? _ :=
    match src with
    | Some src => fmap_borrow_pages src dst span new_flags (PageSpan_pages span) ([], false)
    | None => ok ([], false)
    end in
  ok (mkGrant (span_base span) (mkGrantInfo (span_count span) new_flags true (FmapBorrowed file_ref 0))).

(** ** [fmap_inner] *)

(** [syscall::Map], and [MapFlags::bits] *)
Record Map_ := mkMap { map_offset : Z; map_size : Z; map_flags_ : MapFlags; map_address : Z }.
Context (mf_bits : MapFlags -> Z).
Context (space_of : Z -> option Z).
Abbreviation MSt := (@MState PFA PMA).

(** [FdTbl::find_by_scheme]: the first descriptor, lower table first, whose
    description is the one of the number in the scheme. *)
Definition refers_to (h : Heap) (scheme number_ : Z) (fd : FileDescriptor) : bool :=
  match descs h !! Files.description fd with
  | Some (d, _) => (fd_scheme d =? scheme) && (number d =? number_)
  | None => false
  end.
Definition find_by_scheme (h : Heap) (scheme number_ : Z) (t : @FdTbl FileDescriptor) : option FileDescriptor :=
  List.find (refers_to h scheme number_) (omap id (posix_fdtbl t ++ upper_fdtbl t)).

(** What [fmap_inner] holds while it waits for the scheme. *)
Record FmapCall := mkFmapCall {
  fc_tag : Z;
  fc_desc : Z;
  fc_src : Z;
  fc_dst : Z;
  fc_map : Map_;
}.

(** Up to the first switch. *)
Definition fmap_begin (cid : Z) (ctx : CallerCtx) (dst_addr_space file : Z) (map : Map_) (now : Z) : M MSt (result Error FmapCall) :=
  let! s := get_state in
  let u := ms_user s in
  let context := ui_context (u_inner u) in
  if map_size map =? 0 then err EINVAL
  else if negb (map_address map mod PAGE_SIZE =? 0) then err EINVAL
  else if negb (map_offset map mod PAGE_SIZE =? 0) then err EINVAL
  else if negb (bool_decide (is_Some (ctxs (u_sched u) !! context))) then err ENODEV
  else
    match space_of context with
    | None => err ESRCH
    | Some src_address_space =>
        if src_address_space =? dst_addr_space then err EBUSY
        else
          let! t := unwrap (u_tables u !! cid) in
          match find_by_scheme (u_heap u) (ui_scheme_id (u_inner u)) file t with
          | None => err EBADF
          | Some desc =>
              let! desc := in_scheme (in_heap (arc_clone (Files.description desc))) in
              let! b := in_scheme (begin_with cid None
                (fun tag => mkSqe OMmapPrep false tag (c_pid ctx)
                   [file; map_size map; mf_bits (map_flags_ map); map_offset map; 0; uid_gid_hack_merge (c_uid ctx) (c_gid ctx)]) None now) in
              match b with
              | Err e => in_scheme (in_heap (arc_drop desc)) ;;; err e
              | Ok sqe => ok (mkFmapCall (sqe_tag sqe) desc src_address_space dst_addr_space map)
              end
          end
    end.

(** After the response: the files whose mappings were replaced, and the address. *)
Definition fmap_end (c : FmapCall) (r : result Error Response) : M MSt (list UnmapResult * result Error Z) :=
  let map := fc_map c in
  let drop_desc := in_scheme (in_heap (arc_drop (fc_desc c))) in
  let fixed := mf_contains (map_flags_ map) MAP_FIXED || mf_contains (map_flags_ map) MAP_FIXED_NOREPLACE in
  let page_count := div_ceil (map_size map) PAGE_SIZE in
  let dst_base := if negb (map_address map =? 0) || fixed then Some (Page_containing_address (map_address map)) else None in
  let base_addr :=
    match r with
    | Err e => Err e
    | Ok response => call_response response
    end in
  match base_addr with
  | Err e =>
      drop_desc ;;;
      match r with Ok response => in_scheme (drop_response response) | Err _ => ret tt end ;;;
      ret ([], Err e)
  | Ok base_addr =>
      if negb (base_addr mod PAGE_SIZE =? 0) then drop_desc ;;; ret ([], Err EINVAL)
      else
        let src := mkFmapSource (Page_containing_address base_addr)
                     (if mf_contains (map_flags_ map) MAP_SHARED then MShared else MCow) (fc_src c) in
        let file_ref := mkFileRef (fc_desc c) (map_offset map) in
        let! '(notify_files, page) := in_scheme (in_space (mmap dbg (fc_dst c) dst_base page_count (map_flags_ map)
          (fun dst_base flags => borrow_fmap (PageSpan_new dst_base page_count) flags file_ref (Some src) (fc_dst c)))) in
        match page with
        | Err e => drop_desc ;;; ret ([], Err e)
        | Ok page => ret (notify_files, Ok (Page_start_address page))
        end
  end.

(** A round of the loop in between. *)
Definition fmap_resume (cid now : Z) (c : FmapCall) : M MSt (option (list UnmapResult * result Error Z)) :=
  let! '(r, _) := in_scheme (call_resume cid (fc_tag c) None now PageSpan_empty) in
  match r with
  | RAgain => ret None
  | RDone r => let! x := fmap_end c r in ret (Some x)
  end.
End fmap.
