(* ===== verification/FmapSpec.v ===== *)
(** * Theorems about mapped files of user-space schemes *)

From S2P Require Import Prelude PageInfo FrameAllocator FrameAllocatorSpec FrameRefs Rmm OrdMap Grants GrantsSpec CpuSet AddrSpace AddrSpaceSpec PageFault UserCopy Sync FdTbl Scheduler Event Files UserScheme UserCalls Capture CaptureSpec UserMethods Fmap.
Set Default Goal Selector "!".

Section spec.
Context {PFA : PageFlagsApi} {PFL : PageFlagsLaws} {MFA : MapFlagsApi} {MFL : MapFlagsLaws} {PMA : PageMapperApi} {PML : PageMapperLaws}.
Context (dbg : bool) (fmap_page : GrantFileRef -> Z -> MapFlags -> M Kernel (result PfError Frame)).
Abbreviation tr t q := (pt_translate t (q * PAGE_SIZE)).

(** ** Changes of one space

    Only the table of [sid] changed, and only at pages of which [P] holds. *)
Record moves (sid : Z) (P : Z -> Prop) (k k' : Kernel) : Prop := {
  mv_others : forall s, s <> sid -> core <$> spaces k' !! s = core <$> spaces k !! s;
  mv_space : forall a, spaces k !! sid = Some a -> exists a', spaces k' !! sid = Some a' /\ grants a' = grants a /\ mmap_min a' = mmap_min a /\
    forall q, ~ P q -> tr (utable a') q = tr (utable a) q;
}.
#[local] Instance moves_preorder sid P : PreOrder (moves sid P).
Proof.
  split.
  - intros k. split; [done|]. intros a Ha. by exists a.
  - intros x y z [O1 S1] [O2 S2]. split.
    + intros s Hs. by rewrite O2, O1.
    + intros a Ha. destruct (S1 a Ha) as (b & Hb & G1 & M1 & T1). destruct (S2 b Hb) as (c & Hc & G2 & M2 & T2).
      exists c. split_and!; [done|congruence|congruence|]. intros q Hq. by rewrite T2, T1.
Qed.

Lemma cores_moves sid P k k' : (forall s, core <$> spaces k' !! s = core <$> spaces k !! s) -> moves sid P k k'.
Proof.
  intros H. split; [auto|]. intros a Ha. specialize (H sid). rewrite Ha in H. destruct (spaces k' !! sid) as [b|]; [|done].
  unfold core in H. simpl in H. injection H as H1 H2 H3. exists b. split_and!; [done..|]. intros q _. by rewrite H1.
Qed.
Lemma moves_cores {A} sid P (m : M Kernel A) : keeps same_cores m -> keeps (moves sid P) m.
Proof. intros Hm k x k' H. apply cores_moves. by apply (Hm k x). Qed.
Lemma moves_mem {A} sid P (m : M Memory A) : keeps (moves sid P) (with_mem m).
Proof. intros k x k'. unfold with_mem. destruct (m (mem k)) as [[y m']|]; [|done]. intros [= <- <-]. by apply cores_moves. Qed.
Hint Resolve moves_mem : keeps.
Hint Extern 2 (keeps (moves _ _) _) => apply moves_cores; solve [eauto with keeps] : keeps.

Lemma moves_queue sid P d s f n act : keeps (moves sid P) (Flusher_queue d s f n act).
Proof. apply moves_cores, keeps_queue. Qed.
Lemma moves_flush sid P d s : keeps (moves sid P) (Flusher_flush d s).
Proof. apply moves_cores, keeps_flush. Qed.
Lemma moves_get sid P s : keeps (moves sid P) (get_space s).
Proof. apply moves_cores, keeps_get_space. Qed.
Lemma moves_translate sid P s va : keeps (moves sid P) (translate s va).
Proof. unfold translate. apply keep_bind; [apply _|apply moves_get|]. intros a. apply keep_ret, _. Qed.
Hint Resolve moves_queue moves_flush moves_get moves_translate : keeps.

(** A change of the table of [sid] at one page. *)
Lemma moves_table sid q t' x k a : spaces k !! sid = Some a -> table_change (utable a) t' q x ->
  moves sid (eq q) k (set_spaces (<[sid := set_utable t' a]> (spaces k)) k).
Proof.
  intros Ha Ht. split.
  - intros s Hs. simpl. by rewrite lookup_insert_ne.
  - intros b Hb. rewrite Ha in Hb. injection Hb as <-. exists (set_utable t' a). simpl. rewrite lookup_insert_eq. split_and!; [done..|].
    intros q' Hq. specialize (Ht q'). by rewrite decide_False in Ht by congruence.
Qed.
Lemma moves_map_phys sid q f fl : keeps (moves sid (eq q)) (map_phys sid (q * PAGE_SIZE) f fl).
Proof.
  intros k [[]|] k' H.
  - apply map_phys_inv in H as (a & t' & Ha & -> & Ht). by eapply moves_table.
  - apply bind_Done_inv in H as (a & k1 & [-> Ha]%get_space_inv & H). case_match; [done|]. by injection H as <-.
Qed.
Hint Resolve moves_map_phys : keeps.

Lemma remap_full_inv sid q f k r k' : remap_with_full sid (q * PAGE_SIZE) f k = Done (r, k') ->
  (r = None /\ k' = k) \/ exists a t' pa fl, spaces k !! sid = Some a /\ tr (utable a) q = Some (pa, fl) /\ r = Some (fl, pa) /\
    k' = set_spaces (<[sid := set_utable t' a]> (spaces k)) k /\ table_change (utable a) t' q (Some (f pa fl)).
Proof.
  intros (a & k1 & [-> Ha]%get_space_inv & H)%bind_Done_inv. destruct (tr (utable a) q) as [[pa fl]|] eqn:E.
  - destruct (translate_remap _ _ _ _ f (page_addr_aligned q) E) as (t' & Hr & Ht). rewrite Hr in H. injection H as <- <-.
    right. exists a, t', pa, fl. split_and!; [done..|]. intros q'. rewrite Ht by apply page_addr_aligned. unfold PAGE_SIZE. repeat case_decide; done || lia.
  - rewrite (remap_present _ _ f (page_addr_aligned q) E) in H. injection H as <- <-. by left.
Qed.

(** ** A source page *)

(** [f] is the frame that the address [pa] of a translation lies in. *)
Definition frame_at (pa : Z) (f : Frame) : Prop := f = pa \/ f = Z.land pa (usize_not PAGE_MASK).
Definition page_at (k : Kernel) (sid q : Z) (f : Frame) : Prop := exists a pa fl, spaces k !! sid = Some a /\ tr (utable a) q = Some (pa, fl) /\ frame_at pa f.

Lemma containing_inv {S} pa f (s s' : S) : containing pa s = Done (f, s') -> s' = s /\ frame_at pa f.
Proof.
  unfold containing. destruct (nonzero _) as [x|] eqn:E; [|done]. intros [= <- <-]. split; [done|]. right. unfold nonzero in E. case_match; [done|]. by injection E.
Qed.

Lemma page_at_cores k k' sid q f : (forall s, core <$> spaces k' !! s = core <$> spaces k !! s) -> page_at k sid q f -> page_at k' sid q f.
Proof.
  intros H (a & pa & fl & Ha & Ht & Hf). specialize (H sid). rewrite Ha in H. destruct (spaces k' !! sid) as [b|] eqn:Eb; [|done].
  unfold core in H. simpl in H. injection H as H _ _. exists b, pa, fl. by rewrite Eb, H.
Qed.
Lemma page_at_moves k k' sid P s q f : moves sid P k k' -> s <> sid \/ ~ P q -> page_at k s q f -> page_at k' s q f.
Proof.
  intros [O S] Hor (a & pa & fl & Ha & Ht & Hf). destruct (decide (s = sid)) as [->|Hs].
  - destruct Hor as [?|Hq]; [done|]. destruct (S a Ha) as (b & Hb & _ & _ & T). exists b, pa, fl. by rewrite T.
  - specialize (O s Hs). rewrite Ha in O. destruct (spaces k' !! s) as [b|] eqn:Eb; [|done].
    unfold core in O. simpl in O. injection O as O _ _. exists b, pa, fl. by rewrite Eb, O.
Qed.
Lemma map_phys_page sid q f fl k k' : map_phys sid (q * PAGE_SIZE) f fl k = Done (Some tt, k') ->
  exists a', spaces k' !! sid = Some a' /\ tr (utable a') q = Some (f, fl).
Proof.
  intros (a & t' & Ha & -> & Ht)%map_phys_inv. exists (set_utable t' a). simpl. rewrite lookup_insert_eq. split; [done|]. rewrite Ht. by rewrite decide_True.
Qed.

(** The grant of a page, if there is one, is memory of the space's own. *)
Definition own_page (a : AddrSpace) (q : Z) : Prop :=
  forall b i, UserGrants_contains (grants a) q = Some (b, i) -> match provider i with Allocated _ _ | AllocatedShared _ => True | _ => False end.

Lemma moves_zeroed sid q fl w : 0 <= q < USER_END_PAGE -> keeps (moves sid (eq q)) (map_zeroed dbg sid q fl w).
Proof. intros Hq. unfold map_zeroed. rewrite start_address_user by done. keep. Qed.
Hint Resolve moves_zeroed : keeps.

Lemma fault_in n sid q k a f k' : spaces k !! sid = Some a -> 0 <= q < USER_END_PAGE -> own_page a q ->
  correct_inner dbg fmap_page n sid q AccessRead k = Done (Ok f, k') -> moves sid (eq q) k k' /\ page_at k' sid q f.
Proof.
  intros Ha Hq Hown H.
  assert (He : exists gi, match provider gi with Allocated _ _ | AllocatedShared _ => True | _ => False end /\
    (let! r := (let! t := translate sid (Page_start_address q) in
       let! faulting := match t with None => ret None | Some (phys, _) => let! f := containing phys in let! i := with_mem (get_page_info f) in ret (Some (f, i)) end in
       let? '(frame, allow_writable) := correct_allocated dbg sid q (Grants.flags gi) AccessRead faulting in
       let! m := map_phys sid (Page_start_address q) frame (pf_write (has_write (Grants.flags gi) && allow_writable) (Grants.flags gi)) in
       match m with None => err Oom | Some _ => ok frame end) in
     Flusher_flush dbg sid ;;; ret r) k = Done (Ok f, k')).
  { destruct n; cbn [correct_inner] in H; apply bind_Done_inv in H as (a' & k1 & [-> Ha']%get_space_inv & H); rewrite Ha in Ha'; injection Ha' as <-;
      (destruct (UserGrants_contains (grants a) q) as [[gb gi]|] eqn:Eg; [|by apply bind_Done_inv in H as (r & k2 & [= <- <-] & (u & k3 & _ & [=])%bind_Done_inv)]);
      specialize (Hown _ _ Eg); exists gi; (destruct (provider gi); [split; [done|exact H]|split; [done|exact H]|done..]). }
  destruct He as (gi & _ & Hr). apply bind_Done_inv in Hr as (r & k1 & Hr & H1). apply bind_Done_inv in H1 as ([] & k2 & Hfl & [= -> <-]).
  assert (Hc : forall s, core <$> spaces k2 !! s = core <$> spaces k1 !! s) by (by apply (keeps_flush dbg sid) in Hfl as [_ ?]).
  apply bind_Done_inv in Hr as (t & k3 & [-> Ht]%translate_inv & Hr). apply bind_Done_inv in Hr as (ft & k4 & Hft & Hr).
  apply bind_Done_inv in Hr as (ca & k5 & Hca & Hr). destruct ca as [[f' w]|]; [|done]. apply bind_Done_inv in Hr as (m & k6 & Hm & Hr).
  destruct m as [[]|]; [|done]. injection Hr as -> <-. rewrite start_address_user in Hm by done. split.
  - transitivity k4; [apply (run_keeps _ _ _ _ _ Hft); unfold containing; keep|].
    transitivity k5; [apply (run_keeps _ _ _ _ _ Hca); unfold correct_allocated, allows_writable; keep|].
    transitivity k6; [by apply moves_map_phys in Hm|by apply cores_moves].
  - eapply page_at_cores; [exact Hc|]. apply map_phys_page in Hm as (a' & Ha' & Htr). exists a', f, (pf_write (has_write (Grants.flags gi) && w) (Grants.flags gi)).
    split_and!; [done..|by left].
Qed.

Lemma source_frame_inv src q k a f k' : spaces k !! fs_space src = Some a -> 0 <= q < USER_END_PAGE -> own_page a q ->
  fmap_source_frame dbg fmap_page src q k = Done (Ok f, k') -> moves (fs_space src) (eq q) k k' /\ page_at k' (fs_space src) q f.
Proof.
  intros Ha Hq Hown H. unfold fmap_source_frame in H. apply bind_Done_inv in H as (present & k1 & H1 & H).
  rewrite start_address_user in H1 by done.
  assert (Hp : moves (fs_space src) (eq q) k k1 /\ (exists a', spaces k1 !! fs_space src = Some a' /\ grants a' = grants a) /\
    forall pa, present = Some pa -> exists a' fl, spaces k1 !! fs_space src = Some a' /\ tr (utable a') q = Some (pa, fl)).
  { destruct (fs_mode src).
    - apply bind_Done_inv in H1 as (r & k2 & Hr & [= <- <-]). unfold remap_with in Hr. apply remap_full_inv in Hr as [[-> ->]|(b & t' & pa & fl & Hb & Htr & -> & -> & Ht)].
      + split_and!; [done|by exists a|done].
      + rewrite Ha in Hb. injection Hb as <-. split_and!; [by eapply moves_table|simpl; rewrite lookup_insert_eq; by eexists|].
        intros pa' [= <-]. exists (set_utable t' a), (pf_write false fl). simpl. rewrite lookup_insert_eq. split; [done|]. rewrite Ht. by rewrite decide_True.
    - apply bind_Done_inv in H1 as (r & k2 & [-> (b & Hb & ->)]%translate_inv & [= <- <-]). rewrite Ha in Hb. injection Hb as <-. split_and!; [done|by exists a|].
      intros pa Hpa. destruct (tr (utable a) q) as [[x fl]|] eqn:E; [|done]. injection Hpa as <-. by exists a, fl. }
  destruct Hp as (Hmv & (a1 & Ha1 & Hg1) & Hpa). destruct present as [pa|].
  - apply bind_Done_inv in H as (f' & k2 & [-> Hf]%containing_inv & [= -> <-]). split; [done|]. destruct (Hpa pa eq_refl) as (a' & fl & Ha' & Htr). by exists a', pa, fl.
  - apply bind_Done_inv in H as (r & k2 & Hr & H). destruct r as [f'|]; [|done]. injection H as -> <-.
    destruct (fault_in _ _ _ _ _ _ _ Ha1 Hq ltac:(unfold own_page; by rewrite Hg1) Hr) as [Hmv2 Hpg]. split; [by transitivity k1|done].
Qed.

Lemma attached_cores sid st m k st' k' : keeps same_cores m -> attached sid st m k = Done (st', k') -> forall s, core <$> spaces k' !! s = core <$> spaces k !! s.
Proof.
  intros Hm H. apply (run_keeps same_cores) in H; [by apply H|]. unfold attached. apply keep_bind; [apply _|by apply keeps_update_space|]. intros _.
  apply keep_bind; [apply _|done|]. intros _. apply keep_bind; [apply _|apply keeps_get_space|]. intros b.
  apply keep_bind; [apply _|by apply keeps_update_space|]. intros _. apply keep_ret, _.
Qed.

Lemma fmap_ref_inv src q nf f st k f' st' k' : 0 <= q < USER_END_PAGE -> page_at k (fs_space src) q f ->
  fmap_ref dbg src q nf f st k = Done (Ok (f', st'), k') -> moves (fs_space src) (eq q) k k' /\ page_at k' (fs_space src) q f'.
Proof.
  intros Hq Hpg H. unfold fmap_ref in H. apply bind_Done_inv in H as (pi & k1 & H1 & H).
  assert (E1 : forall s, core <$> spaces k1 !! s = core <$> spaces k !! s).
  { unfold with_mem in H1. destruct (get_page_info f (mem k)) as [[y m']|]; [|done]. by injection H1 as <- <-. }
  destruct pi as [pi|]; [|injection H as -> <- <-; split; [by apply cores_moves|by eapply page_at_cores]].
  apply bind_Done_inv in H as (r & k2 & H2 & H).
  assert (E2 : forall s, core <$> spaces k2 !! s = core <$> spaces k !! s).
  { intros s. rewrite <- E1. unfold with_mem in H2. destruct (with_info _ _ (mem k1)) as [[y m']|]; [|done]. by injection H2 as <- <-. }
  destruct r as [u|[]]; [injection H as -> <- <-; split; [by apply cores_moves|by eapply page_at_cores]| |done|done].
  apply bind_Done_inv in H as (c & k3 & H3 & H).
  assert (E3 : forall s, core <$> spaces k3 !! s = core <$> spaces k !! s).
  { intros s. rewrite <- E2. unfold with_mem in H3. destruct (cow _ _ _ _ (mem k2)) as [[y m']|]; [|done]. by injection H3 as <- <-. }
  destruct c as [c|]; [|done]. rewrite start_address_user in H by done. apply bind_Done_inv in H as (o & k4 & H4 & H).
  apply remap_full_inv in H4 as [[-> _]|(b & t' & pa & fl & Hb & Htr & -> & -> & Ht)]; [done|]. cbn [unwrap] in H. rewrite bind_ret in H.
  apply bind_Done_inv in H as (st2 & k5 & H5 & [= <- <- <-]).
  pose proof (fun Hm => attached_cores _ _ _ _ _ _ Hm H5) as E5. specialize (E5 ltac:(apply keep_bind; [apply _|apply keeps_queue|intros _; destruct (old_frame c); [apply keeps_queue|apply keep_ret, _]])).
  split.
  - transitivity k3; [by apply cores_moves|]. etransitivity; [by eapply moves_table|]. by apply cores_moves.
  - eapply page_at_cores; [exact E5|]. exists (set_utable t' b), (new_frame c), fl. simpl. rewrite lookup_insert_eq. split_and!; [done| |by left].
    rewrite Ht. by rewrite decide_True.
Qed.

(** ** All pages *)

(** Two tables changed, each at some pages. *)
Record moves2 (src dst : Z) (P Q : Z -> Prop) (k k' : Kernel) : Prop := {
  m2_others : forall s, s <> src -> s <> dst -> core <$> spaces k' !! s = core <$> spaces k !! s;
  m2_spaces : forall s R a, (s = src /\ R = P) \/ (s = dst /\ R = Q) -> spaces k !! s = Some a ->
    exists a', spaces k' !! s = Some a' /\ grants a' = grants a /\ mmap_min a' = mmap_min a /\ forall q, ~ R q -> tr (utable a') q = tr (utable a) q;
}.
#[local] Instance moves2_preorder src dst P Q : PreOrder (moves2 src dst P Q).
Proof.
  split.
  - intros k. split; [done|]. intros s R a _ Ha. by exists a.
  - intros x y z [O1 S1] [O2 S2]. split.
    + intros s H1 H2. by rewrite O2, O1.
    + intros s R a HR Ha. destruct (S1 s R a HR Ha) as (b & Hb & G1 & M1 & T1). destruct (S2 s R b HR Hb) as (c & Hc & G2 & M2 & T2).
      exists c. split_and!; [done|congruence|congruence|]. intros q Hq. by rewrite T2, T1.
Qed.
Lemma moves_moves2 src dst sid (P Q R : Z -> Prop) k k' : src <> dst -> (sid = src /\ forall q, R q -> P q) \/ (sid = dst /\ forall q, R q -> Q q) ->
  moves sid R k k' -> moves2 src dst P Q k k'.
Proof.
  intros Hne Hor [O S]. split.
  - intros s H1 H2. apply O. destruct Hor as [[-> _]|[-> _]]; done.
  - intros s X a HX Ha. destruct (decide (s = sid)) as [->|Hs].
    + destruct (S a Ha) as (a' & Ha' & Hg & Hm & Ht). exists a'. split_and!; [done..|]. intros q Hq. apply Ht. intros HR. apply Hq.
      destruct Hor as [[E1 HP]|[E1 HQ]], HX as [[E2 ->]|[E2 ->]]; subst; [auto|done|done|auto].
    + specialize (O s Hs). rewrite Ha in O. destruct (spaces k' !! s) as [a'|]; [|done]. unfold core in O. simpl in O. injection O as O1 O2 O3.
      exists a'. split_and!; [done..|]. intros q _. by rewrite O1.
Qed.

Section pages.
Context (src : BorrowedFmapSource) (dst : Z) (span : PageSpan) (nf : PageFlags).
Context (Hne : fs_space src <> dst) (Hs : span_ok span) (Hsrc : span_ok (mkPageSpan (fs_base src) (span_count span))).
Definition src_of (p : Z) : Z := fs_base src + (p - span_base span).
Definition fmap_flags : PageFlags := pf_write (has_write nf && negb (bool_decide (fs_mode src = MCow))) nf.

(** The page [p] of the mapping and the page of the source it was made from
    have the same frame. *)
Definition shared_frame (k : Kernel) (p : Z) : Prop :=
  exists f a, page_at k (fs_space src) (src_of p) f /\ spaces k !! dst = Some a /\ tr (utable a) p = Some (f, fmap_flags).

Lemma borrow_page_inv p st k st' k' b : span_base span <= p < span_base span + span_count span -> spaces k !! fs_space src = Some b -> own_page b (src_of p) ->
  fmap_borrow_page dbg fmap_page src dst span nf p st k = Done (Ok st', k') ->
  moves2 (fs_space src) dst (eq (src_of p)) (eq p) k k' /\ shared_frame k' p.
Proof.
  intros Hp Hb Hown H. destruct Hs as (S1 & S2 & S3), Hsrc as (R1 & R2 & R3). simpl in R1, R2, R3. unfold fmap_borrow_page in H.
  assert (Hsp : 0 <= src_of p < USER_END_PAGE) by (unfold src_of; lia).
  assert (E : Page_next_by (fs_base src) (Page_offset_from p (span_base span)) = src_of p) by (unfold Page_offset_from, usize_sub; rewrite wrap_small by pages; apply page_next_by_ok; pages).
  rewrite E in H. apply bind_Done_inv in H as (r & k1 & H1 & H). destruct r as [f|]; [|done].
  destruct (source_frame_inv _ _ _ _ _ _ Hb Hsp Hown H1) as [M1 P1]. apply bind_Done_inv in H as (r & k2 & H2 & H). destruct r as [[f' st2]|]; [|done].
  destruct (fmap_ref_inv _ _ _ _ _ _ _ _ _ Hsp P1 H2) as [M2 P2]. rewrite start_address_user in H by lia.
  apply bind_Done_inv in H as (m & k3 & H3 & H). destruct m as [[]|]; [|done]. cbn [unwrap] in H. rewrite bind_ret in H.
  apply bind_Done_inv in H as ([] & k4 & H4 & [= <- <-]). pose proof (moves_map_phys _ _ _ _ _ _ _ H3) as M3.
  assert (M4 : forall s, core <$> spaces k4 !! s = core <$> spaces k3 !! s) by (by apply (keeps_queue dbg) in H4 as [_ ?]). split.
  - transitivity k2; [eapply (moves_moves2 _ _ (fs_space src) _ _ (eq (src_of p))); [done|by left|by transitivity k1]|].
    eapply (moves_moves2 _ _ dst _ _ (eq p)); [done|by right|]. transitivity k3; [done|by apply cores_moves].
  - apply map_phys_page in H3 as (a & Ha & Ht). exists f'. specialize (M4 dst) as Hd. rewrite Ha in Hd. destruct (spaces k4 !! dst) as [a'|] eqn:Ea'; [|done].
    unfold core in Hd. simpl in Hd. injection Hd as Hu _ _. exists a'. split_and!; [|done|by rewrite Hu].
    eapply page_at_cores; [exact M4|]. eapply page_at_moves; [exact M3|by left|done].
Qed.

Lemma shared_frame_later p k k' P Q : moves2 (fs_space src) dst P Q k k' -> ~ P (src_of p) -> ~ Q p -> shared_frame k p -> shared_frame k' p.
Proof.
  intros [_ S] HP HQ (f & a & (b & pa & fl & Hb & Hpa & Hf) & Ha & Ht).
  destruct (S (fs_space src) P b ltac:(by left) Hb) as (b' & Hb' & _ & _ & T1). destruct (S dst Q a ltac:(by right) Ha) as (a' & Ha' & _ & _ & T2).
  exists f, a'. split_and!; [|done|by rewrite T2]. exists b', pa, fl. by rewrite T1.
Qed.

Lemma borrow_pages_inv pages : forall st k st' k' b, NoDup pages -> Forall (fun p => span_base span <= p < span_base span + span_count span /\ own_page b (src_of p)) pages ->
  spaces k !! fs_space src = Some b -> fmap_borrow_pages dbg fmap_page src dst span nf pages st k = Done (Ok st', k') ->
  moves2 (fs_space src) dst (fun q => exists p, p ∈ pages /\ q = src_of p) (fun q => q ∈ pages) k k' /\ forall p, p ∈ pages -> shared_frame k' p.
Proof.
  induction pages as [|p pages IH]; intros st k st' k' b Hnd Hall Hb H.
  { injection H as <- <-. split; [done|]. by intros p ?%not_elem_of_nil. }
  apply NoDup_cons in Hnd as [Hni Hnd]. apply Forall_cons in Hall as [[Hp Hown] Hall]. cbn [fmap_borrow_pages] in H.
  apply bind_Done_inv in H as (r & k1 & H1 & H). destruct r as [st1|]; [|done].
  destruct (borrow_page_inv _ _ _ _ _ _ Hp Hb Hown H1) as [M1 P1]. destruct (m2_spaces _ _ _ _ _ _ M1 (fs_space src) _ b ltac:(by left) Hb) as (b1 & Hb1 & G1 & _).
  destruct (IH st1 k1 st' k' b1 Hnd) as [M2 P2]; [|done|exact H|].
  { eapply Forall_impl; [exact Hall|]. intros q [? Ho]. split; [done|]. unfold own_page. by rewrite G1. }
  split.
  - transitivity k1.
    + destruct M1 as [O S]. split; [done|]. intros s R a HR Ha. destruct HR as [[-> ->]|[-> ->]].
      * destruct (S _ _ a ltac:(by left) Ha) as (a' & ? & ? & ? & T). exists a'. split_and!; [done..|]. intros q Hq. apply T. intros <-. apply Hq. exists p. split; [apply list_elem_of_here|done].
      * destruct (S _ _ a ltac:(by right) Ha) as (a' & ? & ? & ? & T). exists a'. split_and!; [done..|]. intros q Hq. apply T. intros <-. apply Hq, list_elem_of_here.
    + destruct M2 as [O S]. split; [done|]. intros s R a HR Ha. destruct HR as [[-> ->]|[-> ->]].
      * destruct (S _ _ a ltac:(by left) Ha) as (a' & ? & ? & ? & T). exists a'. split_and!; [done..|]. intros q Hq. apply T. intros (p' & ? & ->). apply Hq. exists p'. split; [by apply list_elem_of_further|done].
      * destruct (S _ _ a ltac:(by right) Ha) as (a' & ? & ? & ? & T). exists a'. split_and!; [done..|]. intros q Hq. apply T. intros ?. apply Hq. by apply list_elem_of_further.
  - intros q [->|Hq]%elem_of_cons; [|by apply P2]. eapply shared_frame_later; [exact M2| |exact Hni|exact P1].
    intros (p' & Hp' & E). apply Hni. unfold src_of in E. by replace p with p' by lia.
Qed.
End pages.

Lemma pages_nodup s : span_ok s -> NoDup (PageSpan_pages s).
Proof.
  intros (H1 & H2 & H3). unfold PageSpan_pages. apply NoDup_fmap_2_strong; [|apply NoDup_seq].
  intros i j Hi%elem_of_seq Hj%elem_of_seq E. rewrite !page_next_by_ok in E by pages. lia.
Qed.

(** C31: [Grant::borrow_fmap], when it maps pages of a scheme's own memory into the
    address space of a caller and succeeds: every page of the mapping has the
    frame that the page of the scheme has, so that both see the same memory; it
    is mapped with the flags asked for, except that a private mapping
    ([MmapMode::Cow]) is never writable; and nothing else has changed, neither the
    grants of any space, nor a page of the caller outside the mapping, nor a page
    of the scheme outside the source, nor any other space.  The grant it returns
    records the file. *)
Theorem borrow_fmap_shares span nf r src dst k g k' a b :
  fs_space src <> dst -> span_ok span -> span_ok (mkPageSpan (fs_base src) (span_count span)) ->
  spaces k !! fs_space src = Some b -> spaces k !! dst = Some a -> (forall p, in_span p span -> own_page b (src_of src span p)) ->
  borrow_fmap dbg fmap_page span nf r (Some src) dst k = Done (Ok g, k') ->
  g = mkGrant (span_base span) (mkGrantInfo (span_count span) nf true (FmapBorrowed r 0)) /\
  (forall p, in_span p span -> shared_frame src dst span nf k' p) /\
  (forall s, s <> fs_space src -> s <> dst -> core <$> spaces k' !! s = core <$> spaces k !! s) /\
  (exists a', spaces k' !! dst = Some a' /\ grants a' = grants a /\ forall q, ~ in_span q span -> tr (utable a') q = tr (utable a) q) /\
  (exists b', spaces k' !! fs_space src = Some b' /\ grants b' = grants b /\
     forall q, ~ fs_base src <= q < fs_base src + span_count span -> tr (utable b') q = tr (utable b) q) /\
  (fs_mode src = MCow -> has_write (fmap_flags src nf) = false).
Proof.
  intros Hne Hs Hsrc Hb Ha Hown H. unfold borrow_fmap in H. apply bind_Done_inv in H as (st & k1 & H & H1). destruct st as [st|]; [|done]. injection H1 as <- <-.
  assert (Hin : forall p, p ∈ PageSpan_pages span <-> in_span p span) by (intros p; by apply pages_elem).
  destruct (borrow_pages_inv src dst span nf Hne Hs Hsrc (PageSpan_pages span) ([], false) k st k1 b) as [[O S] P].
  - by apply pages_nodup.
  - apply Forall_forall. intros p Hp%Hin. split; [exact Hp|by apply Hown].
  - done.
  - exact H.
  - destruct (S dst _ a ltac:(by right) Ha) as (a' & Ha' & Ga & _ & Ta). destruct (S (fs_space src) _ b ltac:(by left) Hb) as (b' & Hb' & Gb & _ & Tb).
    split_and!; [done| |done| | |].
    + intros p Hp. by apply P, Hin.
    + exists a'. split_and!; [done..|]. intros q Hq. apply Ta. by rewrite Hin.
    + exists b'. split_and!; [done..|]. intros q Hq. apply Tb. intros (p & Hp%Hin & ->). apply Hq. unfold src_of, in_span, span_end in *. lia.
    + intros Hm. unfold fmap_flags. rewrite has_write_write, bool_decide_true by done. by rewrite andb_false_r.
Qed.
End spec.

(** ** A page request cannot be answered

    No completion a scheme can write is taken as a [ProvideMmap], which is the
    only one that ends the wait for a page of a file. *)
Lemma parse_cqe_no_mmap `{UserParams} cqe tag offset base_addr page_count : parse_cqe cqe <> Ok (ProvideMmap tag offset base_addr page_count).
Proof. unfold parse_cqe. repeat case_match; done. Qed.

(** ** Runs *)

Module FmapExamples.
Import SimpleFlags AddrSpaceWitnesses CaptureExamples.

(** The scheme has the space 2 with two pages at page 1; the caller the space 1. *)
Definition scheme_mem : Kernel :=
  after (mmap false 2 None 2 prot_rw (fun page pfl => zeroed false (PageSpan_new page 2) pfl 2 false))
    (mkKernel mem0 {[ 1 := AddrSpace_new; 2 := AddrSpace_new ]} 0 []).
Definition no_page (r : GrantFileRef) (i : Z) (f : @MapFlags map_flags_api) : M Kernel (result PfError Frame) := err Segv.
Definition the_file : GrantFileRef := mkFileRef 3 0.
Definition shared_src : BorrowedFmapSource := mkFmapSource 1 MShared 2.
Definition rw : @PageFlags page_flags_api := page_flags prot_rw.
Definition one_page : outcome (result Error Grant * Kernel) := borrow_fmap false no_page (PageSpan_new 5 1) rw the_file (Some shared_src) 1 scheme_mem.

Lemma one_page_run : exists g k', one_page = Done (Ok g, k').
Proof.
  assert (H : match one_page with Done (Ok _, _) => true | _ => false end = true) by by vm_compute.
  destruct one_page as [[[g|] k']|]; [|done..]. by exists g, k'.
Qed.
Lemma scheme_spaces : exists a b, spaces scheme_mem !! 1 = Some a /\ spaces scheme_mem !! 2 = Some b /\
  match UserGrants_contains (grants b) 1 with Some (_, i) => exists c d, provider i = Allocated c d | None => False end.
Proof.
  assert (H : match spaces scheme_mem !! 1, spaces scheme_mem !! 2 with
    | Some _, Some b => match UserGrants_contains (grants b) 1 with Some (_, i) => match provider i with Allocated _ _ => true | _ => false end | None => false end
    | _, _ => false end = true) by by vm_compute.
  destruct (spaces scheme_mem !! 1) as [a|]; [|done]. destruct (spaces scheme_mem !! 2) as [b|]; [|done]. exists a, b. split; [done|]. split; [done|].
  destruct (UserGrants_contains (grants b) 1) as [[x i]|]; [|done]. destruct (provider i); try done. by eexists _, _.
Qed.

Lemma borrow_fmap_shares_witness : exists g k', one_page = Done (Ok g, k') /\
  g = mkGrant 5 (mkGrantInfo 1 rw true (FmapBorrowed the_file 0)) /\ shared_frame shared_src 1 (PageSpan_new 5 1) rw k' 5.
Proof.
  destruct one_page_run as (g & k' & H). destruct scheme_spaces as (a & b & Ha & Hb & Hg). exists g, k'. split; [exact H|].
  destruct (borrow_fmap_shares false no_page (PageSpan_new 5 1) rw the_file shared_src 1 scheme_mem g k' a b) as (H1 & H2 & _).
  - discriminate.
  - unfold span_ok. cbn [PageSpan_new span_base span_count]. rewrite USER_END_PAGE_eq. lia.
  - unfold span_ok. cbn [PageSpan_new span_base span_count shared_src fs_base]. rewrite USER_END_PAGE_eq. lia.
  - exact Hb.
  - exact Ha.
  - intros p Hp. assert (E : p = 5) by (unfold in_span, span_end in Hp; cbn [PageSpan_new span_base span_count] in Hp; lia). subst p.
    intros x i Hc. change (src_of shared_src (PageSpan_new 5 1) 5) with 1 in Hc. rewrite Hc in Hg. destruct Hg as (c & d & Hg). rewrite Hg. exact I.
  - exact H.
  - split; [exact H1|]. apply H2. unfold in_span, span_end. cbn [PageSpan_new span_base span_count]. lia.
Defined.

(** The count of a frame, and what a space maps at a page and whether a grant
    covers it. *)
Definition count_of (k : Kernel) (f : Frame) : option RefCount :=
  match get_page_info f (mem k) with
  | Done (Some i, m) => match load_info i m with Done (p, _) => refcount p | Panic => None end
  | _ => None
  end.
Definition look (k : Kernel) (sid q : Z) : option (option Z * bool) :=
  (fun a => (fst <$> pt_translate (utable a) (q * PAGE_SIZE), bool_decide (is_Some (gview (grants a) q)))) <$> spaces k !! sid.

(** A page of the scheme that shares the frame of zeroes is copied for the
    mapping: the scheme maps the copy then, but the reference it had on the old
    frame is never returned, since the flusher that should is dropped. *)
Theorem fmap_loses_reference :
  let k' := match one_page with Done (_, k') => k' | Panic => scheme_mem end in
  look scheme_mem 2 1 = Some (Some zf, true) /\ look k' 2 1 = Some (Some 0x401000, true) /\ look k' 1 5 = Some (Some 0x401000, false) /\
  count_of scheme_mem zf = count_of k' zf.
Proof. split_and!; by vm_compute. Qed.

(** A mapping of three pages of which the scheme has two: it fails, and the two
    pages stay mapped in the caller's space without a grant. *)
Theorem failed_fmap_leaves_pages :
  let m := mmap false 1 None 3 prot_rw (fun page pfl => borrow_fmap false no_page (PageSpan_new page 3) pfl the_file (Some shared_src) 1) in
  snd <$> outcome_of m scheme_mem = Some (Err EIO) /\ look (after m scheme_mem) 1 1 = Some (Some 0x401000, false) /\
  look (after m scheme_mem) 1 2 = Some (Some 0x402000, false) /\ look (after m scheme_mem) 2 1 = Some (Some 0x401000, true).
Proof. split_and!; by vm_compute. Qed.
End FmapExamples.
