(* ===== verification/OrderedLocks.v ===== *)
(** * Locks with levels (src/sync/ordered.rs)

    Every lock has a level as a type parameter, and taking it consumes a token
    that must be of a lower level. The tokens and the bounds [LP: Lower<L>] exist
    only while the kernel is compiled: here they are a checker, [check], on the
    programs that take and release locks, and the locks themselves a machine of
    threads that run such programs. A guard is dropped before the token it was
    made from can be used again, so that guards are scopes.

    The locks of the spin crate, which is not part of the source, are the type
    class [SpinApi]. *)

From S2P Require Import Prelude.

(** ** Levels *)

Inductive Level := L0 | L1 | L2 | L3 | L4 | L5.
#[export] Instance Level_eq_dec : EqDecision Level.
Proof. solve_decision. Defined.

(** The implementations [impl Lower<b> for a]. *)
Definition lower (a b : Level) : bool :=
  match a, b with
  | L0, (L1 | L2 | L3 | L4 | L5) => true
  | L1, (L2 | L3 | L4 | L5) => true
  | L2, (L3 | L4 | L5) => true
  | L3, (L4 | L5) => true
  | L4, L5 => true
  | _, _ => false
  end.

(** [impl Higher<b> for a where b: Lower<a>] *)
Definition higher (a b : Level) : bool := lower b a.

(** ** The locks *)

Inductive Kind := KMutex | KRwLock.
#[export] Instance Kind_eq_dec : EqDecision Kind.
Proof. solve_decision. Defined.

(** The type of a lock: [Mutex<L, T>] or [RwLock<L, T>]. *)
Record LockDecl := mkDecl { ld_kind : Kind; ld_level : Level }.

Inductive Access := Shared | Exclusive.
#[export] Instance Access_eq_dec : EqDecision Access.
Proof. solve_decision. Defined.

(** The blocking methods, with the lock they belong to and the access they give. *)
Inductive Op := OLock | ORead | OWrite.
Definition op_kind (o : Op) : Kind := match o with OLock => KMutex | _ => KRwLock end.
Definition op_access (o : Op) : Access := match o with ORead => Shared | _ => Exclusive end.

(** [spin::Mutex] and [spin::RwLock]: a lock has any number of readers or one
    writer; an attempt to get it succeeds exactly when that stays so. *)
Class SpinApi := {
  Raw : Type;
  raw_new : Raw;
  try_acquire : Access -> Raw -> option Raw;
  unlock : Access -> Raw -> Raw;
  readers : Raw -> nat;
  writer : Raw -> bool;
  raw_new_free : readers raw_new = 0%nat /\ writer raw_new = false;
  acquire_shared r : if writer r then try_acquire Shared r = None
    else exists r', try_acquire Shared r = Some r' /\ readers r' = S (readers r) /\ writer r' = false;
  acquire_exclusive r : if writer r || negb (readers r =? 0)%nat then try_acquire Exclusive r = None
    else exists r', try_acquire Exclusive r = Some r' /\ readers r' = 0%nat /\ writer r' = true;
  unlock_shared r : writer r = false -> (0 < readers r)%nat ->
    readers (unlock Shared r) = pred (readers r) /\ writer (unlock Shared r) = false;
  unlock_exclusive r : writer r = true -> readers r = 0%nat ->
    readers (unlock Exclusive r) = 0%nat /\ writer (unlock Exclusive r) = false
}.

(** A guard that is alive: the lock and the access. *)
Definition Guard : Type := nat * Access.

Section locks.
Context {SA : SpinApi} {T : Type}.

(** ** Programs

    Locks are named by their position in the list of the declared ones. [Lock]
    makes a guard, whose scope is the body; [TryLock] is a match on the result of
    [try_lock]; [Downgrade] reborrows the token at a higher level; [Deref]
    branches on the contents that a guard gives access to, [DerefMut] changes
    them. [WriteArc] is [write_arc], which takes no token. *)
Inductive prog :=
  | Ret
  | DerefMut (l : nat) (f : T -> T) (k : prog)
  | Deref (l : nat) (p : T -> bool) (k1 k2 : prog)
  | Lock (o : Op) (l : nat) (body k : prog)
  | TryLock (l : nat) (some none k : prog)
  | Downgrade (L : Level) (body k : prog)
  | CheckNoLocks (k : prog)
  | WriteArc (l : nat) (body k : prog).

(** The lock is of the kind, and the token of a level below it: [LP: Lower<L>]. *)
Definition may_lock (decls : list LockDecl) (kind : Kind) (L : Level) (l : nat) : option Level :=
  d ← decls !! l;
  if bool_decide (ld_kind d = kind) && lower L (ld_level d) then Some (ld_level d) else None.

(** What the types accept for a function that has a token of level [L] and the
    guards [held]. The token of the new guard ([LockToken::downgraded]) has the
    level of the lock. *)
Fixpoint check (decls : list LockDecl) (held : list Guard) (L : Level) (p : prog) : bool :=
  match p with
  | Ret => true
  | DerefMut l _ k => bool_decide ((l, Exclusive) ∈ held) && check decls held L k
  | Deref l _ k1 k2 => bool_decide (l ∈ held.*1) && check decls held L k1 && check decls held L k2
  | Lock o l body k =>
      match may_lock decls (op_kind o) L l with
      | Some L' => check decls ((l, op_access o) :: held) L' body && check decls held L k
      | None => false
      end
  | TryLock l some none k =>
      match may_lock decls KMutex L l with
      | Some L' => check decls ((l, Exclusive) :: held) L' some && check decls held L none && check decls held L k
      | None => false
      end
  | Downgrade L' body k => higher L' L && check decls held L' body && check decls held L k
  | CheckNoLocks k => bool_decide (L = L0) && check decls held L k
  | WriteArc l body k =>
      match decls !! l with
      | Some d => bool_decide (ld_kind d = KRwLock) && check decls ((l, Exclusive) :: held) L body && check decls held L k
      | None => false
      end
  end.

(** A thread starts with a [CleanLockToken], whose [token()] is of level [L0]. *)
Definition check_thread (decls : list LockDecl) (p : prog) : bool := check decls [] L0 p.

(** No use of the unsafe [write_arc]. *)
Fixpoint tokens_only (p : prog) : bool :=
  match p with
  | Ret => true
  | DerefMut _ _ k | CheckNoLocks k => tokens_only k
  | Deref _ _ k1 k2 | Lock _ _ k1 k2 | Downgrade _ k1 k2 => tokens_only k1 && tokens_only k2
  | TryLock _ k1 k2 k3 => tokens_only k1 && tokens_only k2 && tokens_only k3
  | WriteArc _ _ _ => false
  end.

(** ** The machine *)

Record Cell := mkCell { raw : Raw; contents : T }.

(** What is to be done when the current scope ends. *)
Inductive Frame := FGuard (l : nat) (a : Access) (k : prog) | FScope (k : prog).

Record Thread := mkThread { cur : prog; frames : list Frame }.
Record Config := mkConfig { cells : list Cell; threads : list Thread }.

(** [Mutex::new], [RwLock::new] *)
Definition new_lock (val : T) : Cell := mkCell raw_new val.

(** One attempt of [lock], [read], [write] or [try_lock]. *)
Definition try_take (a : Access) (l : nat) (cs : list Cell) : option (list Cell) :=
  c ← cs !! l; r ← try_acquire a (raw c); Some (<[l := mkCell r (contents c)]> cs).

(** The drop of a guard. *)
Definition drop_guard (a : Access) (l : nat) (cs : list Cell) : option (list Cell) :=
  c ← cs !! l; Some (<[l := mkCell (unlock a (raw c)) (contents c)]> cs).

(** One step of a thread. There is none if it has ended, and none while it spins
    on a lock that it cannot get. *)
Definition tstep (cs : list Cell) (th : Thread) : option (list Cell * Thread) :=
  let fs := frames th in
  match cur th with
  | Ret =>
      match fs with
      | [] => None
      | FGuard l a k :: fs => cs ← drop_guard a l cs; Some (cs, mkThread k fs)
      | FScope k :: fs => Some (cs, mkThread k fs)
      end
  | DerefMut l f k => c ← cs !! l; Some (<[l := mkCell (raw c) (f (contents c))]> cs, mkThread k fs)
  | Deref l p k1 k2 => c ← cs !! l; Some (cs, mkThread (if p (contents c) then k1 else k2) fs)
  | Lock o l body k => cs ← try_take (op_access o) l cs; Some (cs, mkThread body (FGuard l (op_access o) k :: fs))
  | TryLock l some none k =>
      match try_take Exclusive l cs with
      | Some cs => Some (cs, mkThread some (FGuard l Exclusive k :: fs))
      | None => Some (cs, mkThread none (FScope k :: fs))
      end
  | Downgrade _ body k => Some (cs, mkThread body (FScope k :: fs))
  | CheckNoLocks k => Some (cs, mkThread k fs)
  | WriteArc l body k => cs ← try_take Exclusive l cs; Some (cs, mkThread body (FGuard l Exclusive k :: fs))
  end.

(** Any thread may go next. *)
Inductive cstep : Config -> Config -> Prop :=
  | CStep i c th cs' th' :
      threads c !! i = Some th -> tstep (cells c) th = Some (cs', th') ->
      cstep c (mkConfig cs' (<[i := th']> (threads c))).

Definition start (vals : list T) (ps : list prog) : Config :=
  mkConfig (new_lock <$> vals) ((fun p => mkThread p []) <$> ps).

(** ** What is said of a configuration *)

Definition finished (th : Thread) : bool :=
  match cur th, frames th with Ret, [] => true | _, _ => false end.

Definition frame_guard (f : Frame) : option Guard :=
  match f with FGuard l a _ => Some (l, a) | FScope _ => None end.
(** The guards of a thread that are alive, the youngest first. *)
Definition guards (th : Thread) : list Guard := omap frame_guard (frames th).
Definition all_guards (ths : list Thread) : list Guard := ths ≫= guards.
(** The accesses to a lock that all threads together have. *)
Definition holders (l : nat) (gs : list Guard) : list Access :=
  omap (fun g => if bool_decide (g.1 = l) then Some g.2 else None) gs.

(** The number of steps a program can take at most. *)
Fixpoint psize (p : prog) : nat :=
  match p with
  | Ret => 0
  | DerefMut _ _ k | CheckNoLocks k => S (psize k)
  | Deref _ _ k1 k2 => S (psize k1 + psize k2)
  | Lock _ _ body k | Downgrade _ body k | WriteArc _ body k => S (S (psize body + psize k))
  | TryLock _ some none k => S (S (psize some + psize none + psize k))
  end.
Definition fsize (f : Frame) : nat := match f with FGuard _ _ k | FScope k => S (psize k) end.
Definition tsize (th : Thread) : nat := psize (cur th) + sum_list_with fsize (frames th).
Definition csize (c : Config) : nat := sum_list_with tsize (threads c).

(** What a thread does next is backed by a guard it has. *)
Definition next_guarded (th : Thread) : Prop :=
  match cur th with
  | DerefMut l _ _ => (l, Exclusive) ∈ guards th
  | Deref l _ _ _ => l ∈ (guards th).*1
  | CheckNoLocks _ => guards th = []
  | _ => True
  end.

End locks.

#[global] Arguments prog : clear implicits.
#[global] Arguments Thread : clear implicits.
#[global] Arguments Frame : clear implicits.
#[global] Arguments Config {SA} T.
#[global] Arguments Cell {SA} T.

(** ** An instance: the number of readers, and whether there is a writer *)

Definition counting_acquire (a : Access) (r : nat * bool) : option (nat * bool) :=
  match a with
  | Shared => if r.2 then None else Some (S r.1, false)
  | Exclusive => if r.2 || negb (r.1 =? 0)%nat then None else Some (0%nat, true)
  end.
Definition counting_unlock (a : Access) (r : nat * bool) : nat * bool :=
  match a with Shared => (pred r.1, r.2) | Exclusive => (r.1, false) end.

Module CountingLock.
#[export] Instance counting : SpinApi.
Proof.
  refine {| Raw := nat * bool; raw_new := (0%nat, false); try_acquire := counting_acquire; unlock := counting_unlock;
    readers := fst; writer := snd |}.
  - done.
  - intros [n []]; cbn; eauto.
  - intros [[] []]; cbn; eauto.
  - intros [n []]; cbn; naive_solver.
  - intros [n []]; cbn; naive_solver.
Defined.
End CountingLock.
