(* ===== verification/OrderedLocksSpec.v ===== *)
(** * Properties of locks with levels

    Threads that the types accept, and that use no lock without a token, never
    deadlock. The proof is in three parts: a step keeps the threads well typed
    and the locks in agreement with the guards that are alive; a well-typed
    thread that cannot go on waits for a lock above all those it has; so the
    thread that waits at the highest level waits for a thread that can go on. *)

From S2P Require Import Prelude OrderedLocks.

(** ** Levels *)

Definition lnum (L : Level) : nat := match L with L0 => 0 | L1 => 1 | L2 => 2 | L3 => 3 | L4 => 4 | L5 => 5 end.

Lemma lower_lt a b : lower a b = true <-> (lnum a < lnum b)%nat.
Proof. destruct a, b; cbn; split; intros; (done || lia). Qed.
Lemma lnum_bound L : (lnum L <= 5)%nat.
Proof. destruct L; cbn; lia. Qed.
Lemma lnum_0 L : lnum L = 0%nat -> L = L0.
Proof. by destruct L. Qed.

Section spec.
Context {SA : SpinApi} {T : Type} (decls : list LockDecl).
Implicit Types (cs : list (Cell T)) (th : Thread T).

Lemma may_lock_Some kind L l L' : may_lock decls kind L l = Some L' ->
  exists d, decls !! l = Some d /\ ld_level d = L' /\ (lnum L < lnum L')%nat.
Proof.
  unfold may_lock. destruct (decls !! l) as [d|]; cbn; [|done]. destruct (_ && _) eqn:E; [|done].
  intros [= <-]. apply andb_true_iff in E as [_ E%lower_lt]. eauto.
Qed.

(** ** Typing of threads

    The frames of a thread give the level of its token. *)
Inductive frames_ok : list (Frame T) -> Level -> Prop :=
  | fo_nil : frames_ok [] L0
  | fo_guard L l a d k fs : frames_ok fs L -> decls !! l = Some d -> (lnum L < lnum (ld_level d))%nat ->
      check decls (omap frame_guard fs) L k = true -> tokens_only k = true ->
      frames_ok (FGuard l a k :: fs) (ld_level d)
  | fo_scope L L' k fs : frames_ok fs L -> (lnum L <= lnum L')%nat ->
      check decls (omap frame_guard fs) L k = true -> tokens_only k = true ->
      frames_ok (FScope k :: fs) L'.

Definition thread_at (th : Thread T) (L : Level) : Prop :=
  frames_ok (frames th) L /\ check decls (guards th) L (cur th) = true /\ tokens_only (cur th) = true.
Definition thread_ok (th : Thread T) : Prop := exists L, thread_at th L.

(** The guards of a thread are at most at the level of its token. *)
Lemma frames_level fs L l a : frames_ok fs L -> (l, a) ∈ omap frame_guard fs ->
  exists d, decls !! l = Some d /\ (0 < lnum (ld_level d) <= lnum L)%nat.
Proof.
  induction 1 as [|L l' a' d k fs Hf IH Hd Hl _ _|L L' k fs Hf IH Hl _ _]; cbn; [by rewrite elem_of_nil| |].
  - rewrite elem_of_cons. intros [[= -> ->]|Hin]; [exists d; split; [done|lia]|].
    destruct (IH Hin) as (d' & ? & ?). exists d'. split; [done|lia].
  - intros Hin. destruct (IH Hin) as (d' & ? & ?). exists d'. split; [done|lia].
Qed.

Lemma frames_L0 fs : frames_ok fs L0 -> omap frame_guard fs = [].
Proof.
  intros Hf. destruct (omap frame_guard fs) as [|[l a] gs] eqn:E; [done|].
  destruct (frames_level fs L0 l a Hf) as (d & _ & H); [rewrite E; apply list_elem_of_here|]. cbn in H. lia.
Qed.

Ltac split_andb := repeat match goal with
  | H : _ && _ = true |- _ => apply andb_true_iff in H as [? ?]
  | H : bool_decide _ = true |- _ => apply bool_decide_eq_true in H
  end.

(** A step keeps a thread well typed. *)
Lemma tstep_typed cs th cs' th' : thread_ok th -> tstep cs th = Some (cs', th') -> thread_ok th'.
Proof.
  intros [L (Hf & Hc & Ht)]. destruct th as [p fs]. unfold tstep, guards in *; cbn in *.
  destruct p as [|l f k|l f k1 k2|o l body k|l k1 k2 k|L' body k|k|l body k]; cbn in *; split_andb.
  - destruct fs as [|[l a k|k] fs]; [done| |]; inversion Hf; subst.
    + destruct (drop_guard a l cs); [|done]. intros [= -> <-]. by eexists.
    + intros [= -> <-]. by eexists.
  - destruct (cs !! l); [|done]. intros [= <- <-]. by eexists.
  - destruct (cs !! l) as [c|]; [|done]. intros [= <- <-]. exists L. split; [done|]. by destruct (f (contents c)).
  - destruct (may_lock _ _ _ _) as [L'|] eqn:E; [|done]. destruct (may_lock_Some _ _ _ _ E) as (d & Hd & <- & Hl).
    split_andb. destruct (try_take _ _ _); [|done]. intros [= -> <-]. exists (ld_level d). split; [by econstructor|done].
  - destruct (may_lock _ _ _ _) as [L'|] eqn:E; [|done]. destruct (may_lock_Some _ _ _ _ E) as (d & Hd & <- & Hl).
    split_andb. destruct (try_take _ _ _); intros [= <- <-].
    + exists (ld_level d). split; [by econstructor|done].
    + exists L. split; [by econstructor|done].
  - intros [= <- <-]. exists L'. split; [|done]. econstructor; try done. apply Nat.lt_le_incl. by apply lower_lt.
  - intros [= <- <-]. by exists L.
  - done.
Qed.

(** Access goes through guards, and [check_no_locks] is only reached without any. *)
Lemma thread_ok_guarded th : thread_ok th -> next_guarded th.
Proof.
  intros [L (Hf & Hc & _)]. unfold next_guarded. destruct (cur th); cbn in *; try done; split_andb; try done.
  subst L. by apply frames_L0.
Qed.

(** ** The locks and the guards that are alive *)

Definition view_ok (r : Raw) (hs : list Access) : Prop :=
  (writer r = false /\ readers r = length hs /\ Forall (.= Shared) hs) \/
  (writer r = true /\ readers r = 0%nat /\ hs = [Exclusive]).
Definition cells_ok cs (gs : list Guard) : Prop :=
  length cs = length decls /\ forall l c, cs !! l = Some c -> view_ok (raw c) (holders l gs).

#[local] Instance view_ok_proper r : Proper ((≡ₚ) ==> iff) (view_ok r).
Proof.
  assert (Hi : forall h1 h2, h1 ≡ₚ h2 -> view_ok r h1 -> view_ok r h2).
  { intros h1 h2 Hp [(Hw & Hr & Hs)|(Hw & Hr & ->)]; [left|right].
    - split_and!; [done|by rewrite <- Hp|by rewrite <- Hp].
    - split_and!; [done|done|by symmetry; apply Permutation_singleton_l]. }
  intros h1 h2 Hp. split; by apply Hi.
Qed.

Lemma holders_perm l gs gs' : gs ≡ₚ gs' -> holders l gs ≡ₚ holders l gs'.
Proof. unfold holders. by intros ->. Qed.

Lemma cells_ok_perm cs gs gs' : gs ≡ₚ gs' -> cells_ok cs gs -> cells_ok cs gs'.
Proof. intros Hp [Hn Hv]. split; [done|]. intros l c Hl. rewrite <- (holders_perm l _ _ Hp). by apply Hv. Qed.

(** A lock is changed together with the guards. *)
Lemma cells_ok_update cs gs gs' l c' : cells_ok cs gs -> (forall j, j <> l -> holders j gs' = holders j gs) ->
  view_ok (raw c') (holders l gs') -> cells_ok (<[l := c']> cs) gs'.
Proof.
  intros [Hn Hv] Ho Hl. split; [by rewrite length_insert|].
  intros j c Hj. destruct (decide (j = l)) as [->|Hjl].
  - apply list_lookup_insert_Some in Hj as [(_ & <- & _)|[? _]]; done.
  - rewrite list_lookup_insert_ne in Hj by done. rewrite Ho by done. by apply Hv.
Qed.

Lemma holders_cons_ne l j a gs : j <> l -> holders j ((l, a) :: gs) = holders j gs.
Proof. intros H. unfold holders; cbn. by rewrite bool_decide_false. Qed.
Lemma holders_cons l a gs : holders l ((l, a) :: gs) = a :: holders l gs.
Proof. unfold holders; cbn. by rewrite bool_decide_true. Qed.

Lemma try_acquire_view a r r' hs : view_ok r hs -> try_acquire a r = Some r' -> view_ok r' (a :: hs).
Proof.
  intros Hv. destruct a.
  - pose proof (acquire_shared r) as Ha. destruct Hv as [(Hw & Hr & Hs)|(Hw & Hr & ->)]; rewrite Hw in Ha; [|congruence].
    destruct Ha as (r2 & -> & Hr2 & Hw2). intros [= <-]. left. split_and!; [done|cbn; lia|by constructor].
  - pose proof (acquire_exclusive r) as Ha. destruct Hv as [(Hw & Hr & Hs)|(Hw & Hr & ->)]; rewrite Hw, Hr in Ha; [|cbn in Ha; congruence].
    destruct hs; cbn in Ha; [|congruence]. destruct Ha as (r2 & -> & Hr2 & Hw2). intros [= <-]. by right.
Qed.

(** A lock that cannot be had is had by somebody. *)
Lemma try_acquire_None a r hs : view_ok r hs -> try_acquire a r = None -> hs <> [].
Proof.
  intros [(Hw & Hr & Hs)|(Hw & Hr & Hs)] Hn Hnil; [|congruence]. rewrite Hnil in Hr; cbn in Hr. destruct a.
  - pose proof (acquire_shared r) as Ha. rewrite Hw in Ha. destruct Ha as (? & ? & _). congruence.
  - pose proof (acquire_exclusive r) as Ha. rewrite Hw, Hr in Ha. destruct Ha as (? & ? & _). congruence.
Qed.

Lemma unlock_view a r hs : view_ok r (a :: hs) -> view_ok (unlock a r) hs.
Proof.
  intros [(Hw & Hr & Hs)|(Hw & Hr & [= -> ->])].
  - apply Forall_cons in Hs as [-> Hs]. cbn in Hr. destruct (unlock_shared r Hw ltac:(lia)) as [H1 H2].
    left. split_and!; [done|lia|done].
  - destruct (unlock_exclusive r Hw Hr) as [H1 H2]. left. split_and!; [done|done|constructor].
Qed.

Lemma try_take_ok a l cs cs' gs : cells_ok cs gs -> try_take a l cs = Some cs' -> cells_ok cs' ((l, a) :: gs).
Proof.
  intros Hok. unfold try_take. destruct (cs !! l) as [c|] eqn:Hl; cbn; [|done].
  destruct (try_acquire a (raw c)) as [r|] eqn:Ha; cbn; [|done]. intros [= <-].
  apply (cells_ok_update cs gs); [done|intros; by apply holders_cons_ne|].
  rewrite holders_cons; cbn. destruct Hok as [_ Hv]. by eapply try_acquire_view; [apply Hv|].
Qed.

Lemma drop_guard_ok a l cs cs' gs : cells_ok cs ((l, a) :: gs) -> drop_guard a l cs = Some cs' -> cells_ok cs' gs.
Proof.
  intros Hok. unfold drop_guard. destruct (cs !! l) as [c|] eqn:Hl; cbn; [|done]. intros [= <-].
  apply (cells_ok_update cs ((l, a) :: gs)); [done|intros; by rewrite holders_cons_ne|].
  cbn. apply unlock_view. rewrite <- holders_cons. destruct Hok as [_ Hv]. by apply Hv.
Qed.

Lemma deref_mut_ok cs gs l c v : cells_ok cs gs -> cs !! l = Some c -> cells_ok (<[l := mkCell (raw c) v]> cs) gs.
Proof. intros Hok Hl. apply (cells_ok_update cs gs); [done|done|]. destruct Hok as [_ Hv]. by apply (Hv l c). Qed.

(** The guards of all threads, those of one of them first. *)
Lemma all_guards_split i th ths : ths !! i = Some th ->
  exists others, all_guards ths ≡ₚ guards th ++ others /\ forall th', all_guards (<[i := th']> ths) ≡ₚ guards th' ++ others.
Proof.
  intros Hi. exists (all_guards (take i ths) ++ all_guards (drop (S i) ths)).
  pose proof (lookup_lt_Some _ _ _ Hi) as Hlt. unfold all_guards. split.
  - rewrite <- (take_drop_middle ths i th Hi) at 1. rewrite bind_app, bind_cons. by rewrite Permutation_app_swap_app.
  - intros th'. rewrite insert_take_drop by done. rewrite bind_app, bind_cons. by rewrite Permutation_app_swap_app.
Qed.

Lemma tstep_cells cs th cs' th' others : cells_ok cs (guards th ++ others) -> tstep cs th = Some (cs', th') ->
  cells_ok cs' (guards th' ++ others).
Proof.
  destruct th as [p fs]. unfold tstep, guards; cbn.
  destruct p as [|l f k|l f k1 k2|o l body k|l k1 k2 k|L' body k|k|l body k]; intros Hok.
  - destruct fs as [|[l a k|k] fs]; [done| |]; cbn in *.
    + destruct (drop_guard a l cs) eqn:E; cbn; [|done]. intros [= -> <-]; cbn. by eapply drop_guard_ok.
    + by intros [= -> <-].
  - destruct (cs !! l) as [c|] eqn:E; cbn; [|done]. intros [= <- <-]; cbn. by apply deref_mut_ok.
  - destruct (cs !! l) as [c|] eqn:E; cbn; [|done]. by intros [= <- <-].
  - destruct (try_take _ _ _) eqn:E; cbn; [|done]. intros [= -> <-]; cbn. by eapply try_take_ok.
  - destruct (try_take _ _ _) eqn:E; intros [= <- <-]; cbn; [by eapply try_take_ok|done].
  - by intros [= <- <-].
  - by intros [= <- <-].
  - destruct (try_take _ _ _) eqn:E; cbn; [|done]. intros [= -> <-]; cbn. by eapply try_take_ok.
Qed.

(** ** The invariant of the machine *)

Definition config_ok (c : Config T) : Prop := Forall thread_ok (threads c) /\ cells_ok (cells c) (all_guards (threads c)).

Lemma start_guards (ps : list (prog T)) : all_guards ((fun p => mkThread p []) <$> ps) = [].
Proof. induction ps as [|p ps IH]; [done|exact IH]. Qed.

Lemma start_ok vals ps : length vals = length decls ->
  Forall (fun p => check_thread decls p = true /\ tokens_only p = true) ps -> config_ok (start vals ps).
Proof.
  intros Hn Hp. split; cbn [start threads cells].
  - apply Forall_fmap. apply (Forall_impl _ _ _ Hp). intros p [Hc Ht]. exists L0. split_and!; [constructor|done|done].
  - rewrite start_guards.
    split; [by rewrite length_fmap|]. intros l c Hl. apply list_lookup_fmap_Some in Hl as (v & -> & _).
    left; cbn. destruct raw_new_free as [-> ->]. by split_and!.
Qed.

Lemma cstep_ok (c c' : Config T) : cstep c c' -> config_ok c -> config_ok c'.
Proof.
  intros [i c0 th cs' th' Hi Hs] [Ht Hc]. destruct (all_guards_split i th _ Hi) as (others & Ho & Ho'). split; cbn.
  - apply Forall_insert; [done|]. eapply tstep_typed, Hs. by eapply Forall_lookup_1.
  - apply (cells_ok_perm _ _ _ (symmetry (Ho' th'))). eapply tstep_cells, Hs. by apply (cells_ok_perm _ _ _ Ho).
Qed.

Lemma config_ok_reachable (c c' : Config T) : rtc cstep c c' -> config_ok c -> config_ok c'.
Proof. induction 1; eauto using cstep_ok. Qed.

(** ** Progress *)

Definition waits_for th (l : nat) : Prop := exists o body k, cur th = Lock o l body k.

(** A thread that cannot go on has ended, or waits for a lock above all it has,
    which somebody else or itself has. *)
Lemma thread_stuck cs th L gs : thread_at th L -> cells_ok cs gs -> tstep cs th = None ->
  finished th = true \/ exists l d, waits_for th l /\ decls !! l = Some d /\ (lnum L < lnum (ld_level d))%nat /\ holders l gs <> [].
Proof.
  intros (Hf & Hc & Ht) [Hn Hv]. destruct th as [p fs]. unfold tstep, finished, guards in *; cbn in *.
  assert (Hcell : forall l d, decls !! l = Some d -> is_Some (cs !! l)).
  { intros l d Hl. apply lookup_lt_is_Some. rewrite Hn. by apply lookup_lt_is_Some. }
  assert (Hheld : forall l, l ∈ (omap frame_guard fs).*1 -> is_Some (cs !! l)).
  { intros l ([? a] & -> & Hg)%list_elem_of_fmap. destruct (frames_level _ _ _ _ Hf Hg) as (d & Hd & _). by eapply Hcell. }
  destruct p as [|l f k|l f k1 k2|o l body k|l k1 k2 k|L' body k|k|l body k]; cbn in *; split_andb; try done.
  - destruct fs as [|[l a k|k] fs]; [by left| |done]. destruct (Hheld l) as [c Hl]; [apply list_elem_of_here|].
    unfold drop_guard. by rewrite Hl.
  - destruct (Hheld l) as [c ->]; [|done]. apply list_elem_of_fmap. by exists (l, Exclusive).
  - by destruct (Hheld l) as [c ->].
  - destruct (may_lock _ _ _ _) as [L'|] eqn:E; [|done]. destruct (may_lock_Some _ _ _ _ E) as (d & Hd & <- & Hl).
    destruct (Hcell l d Hd) as [c Hcl]. unfold try_take. rewrite Hcl; cbn.
    destruct (try_acquire _ _) eqn:Ea; [done|]. intros _. right. exists l, d. split_and!; [by eexists _, _, _|done|done|].
    by eapply try_acquire_None; [apply Hv|].
  - by destruct (try_take _ _ _).
Qed.

Lemma holders_elem l gs : holders l gs <> [] -> exists a, (l, a) ∈ gs.
Proof.
  intros H. destruct (holders l gs) as [|a hs] eqn:E; [done|]. exists a.
  assert (Ha : a ∈ holders l gs) by (rewrite E; apply list_elem_of_here).
  apply list_elem_of_omap in Ha as ([l' a'] & Hin & Hg). cbn in Hg. case_bool_decide; [|done]. by simplify_eq.
Qed.

(** Among threads that cannot go on, nobody waits: by induction on the levels
    above the lock. *)
Lemma nobody_waits (c : Config T) : config_ok c -> (forall th, th ∈ threads c -> tstep (cells c) th = None) ->
  forall n th l d, (5 - lnum (ld_level d) < n)%nat -> th ∈ threads c -> waits_for th l -> decls !! l = Some d ->
  holders l (all_guards (threads c)) <> [] -> False.
Proof.
  intros [Ht Hc] Hstuck n. induction n as [|n IH]; intros th l d Hn Hth Hw Hd Hh; [lia|].
  destruct (holders_elem _ _ Hh) as [a Ha]. apply list_elem_of_bind in Ha as (th2 & Hg & Hin).
  pose proof Ht as [L2 H2]%(fun H => proj1 (Forall_forall _ _) H th2 Hin).
  destruct (frames_level _ _ _ _ (proj1 H2) Hg) as (d' & Hd' & Hl2). simplify_eq.
  destruct (thread_stuck _ _ _ _ H2 Hc (Hstuck _ Hin)) as [Hfin|(l2 & d2 & Hw2 & Hd2 & Hl & Hh2)].
  - unfold finished, guards in *. destruct (cur th2); try done. destruct (frames th2); [|done]. by apply elem_of_nil in Hg.
  - pose proof (lnum_bound (ld_level d2)). apply (IH th2 l2 d2); [lia|done..].
Qed.

Lemma progress (c : Config T) : config_ok c -> Forall (fun th => finished th = true) (threads c) \/ exists c', cstep c c'.
Proof.
  intros Hok. destruct (decide (Forall (fun th => tstep (cells c) th = None) (threads c))) as [Hs|Hs].
  - rewrite Forall_forall in Hs. left. apply Forall_forall. intros th Hth. destruct Hok as [Ht Hc].
    pose proof Ht as [L HL]%(fun H => proj1 (Forall_forall _ _) H th Hth).
    destruct (thread_stuck _ _ _ _ HL Hc (Hs _ Hth)) as [|(l & d & Hw & Hd & _ & Hh)]; [done|].
    exfalso. by eapply (nobody_waits c (conj Ht Hc) Hs (S (5 - lnum (ld_level d))) th l d); [lia|..].
  - right. apply not_Forall_Exists in Hs; [|intros ?; apply _]. apply Exists_exists in Hs as (th & Hin & Hs).
    apply list_elem_of_lookup in Hin as [i Hi]. cbn in Hs. destruct (tstep (cells c) th) as [[cs' th']|] eqn:E; [|done].
    eexists. by eapply CStep.
Qed.

(** ** Termination *)

Lemma tstep_size cs th cs' th' : tstep cs th = Some (cs', th') -> (tsize th' < tsize th)%nat.
Proof.
  destruct th as [p fs]. unfold tstep, tsize; cbn.
  destruct p as [|l f k|l f k1 k2|o l body k|l k1 k2 k|L' body k|k|l body k]; cbn.
  - destruct fs as [|[l a k|k] fs]; [done| |]; cbn.
    + destruct (drop_guard a l cs); cbn; [|done]. intros [= -> <-]; cbn. lia.
    + intros [= -> <-]; cbn. lia.
  - destruct (cs !! l); cbn; [|done]. intros [= <- <-]; cbn. lia.
  - destruct (cs !! l) as [c|]; cbn; [|done]. intros [= <- <-]; cbn. destruct (f (contents c)); lia.
  - destruct (try_take _ _ _); cbn; [|done]. intros [= -> <-]; cbn. lia.
  - destruct (try_take _ _ _); intros [= <- <-]; cbn; lia.
  - intros [= <- <-]; cbn. lia.
  - intros [= <- <-]; cbn. lia.
  - destruct (try_take _ _ _); cbn; [|done]. intros [= -> <-]; cbn. lia.
Qed.

Lemma cstep_size (c c' : Config T) : cstep c c' -> (csize c' < csize c)%nat.
Proof.
  intros [i c0 th cs' th' Hi Hs%tstep_size]. unfold csize; cbn. pose proof (lookup_lt_Some _ _ _ Hi) as Hlt.
  rewrite insert_take_drop by done. rewrite <- (take_drop_middle _ i th Hi) at 3.
  rewrite !sum_list_with_app; cbn. lia.
Qed.

Lemma nsteps_size n (c c' : Config T) : nsteps cstep n c c' -> (n + csize c' <= csize c)%nat.
Proof. induction 1 as [|n c1 c2 c3 Hs%cstep_size _ IH]; lia. Qed.

(** ** The end: all locks are free *)

Lemma finished_guards ths : Forall (fun th => finished th = true) ths -> all_guards ths = [].
Proof.
  induction 1 as [|[p fs] ths Hf _ IH]; [done|]. unfold finished in Hf; cbn in Hf.
  destruct p; try done. destruct fs; [|done]. apply IH.
Qed.

Lemma view_exclusive r hs : view_ok r hs -> Exclusive ∈ hs -> hs = [Exclusive].
Proof. intros [(_ & _ & Hs)|(_ & _ & ->)] Hin; [|done]. rewrite Forall_forall in Hs. by apply Hs in Hin. Qed.

(** C9: threads whose programs the token types accept, and which use no
    [write_arc], never deadlock, however their steps interleave. In every
    configuration that is reachable from the start: a thread that changes the
    contents of a lock has it exclusively, one that looks at them has a guard, one
    that passes [check_no_locks] holds no lock; exclusive access excludes every
    other; some thread can make a step unless all have ended; and there are at most
    as many further steps as the programs are long, so that every run ends, with
    all threads ended and all locks free. *)
Theorem ordered_locks_sound vals (ps : list (prog T)) c :
  length vals = length decls ->
  Forall (fun p => check_thread decls p = true /\ tokens_only p = true) ps ->
  rtc cstep (start vals ps) c ->
  Forall next_guarded (threads c) /\
  (forall l, Exclusive ∈ holders l (all_guards (threads c)) -> holders l (all_guards (threads c)) = [Exclusive]) /\
  (Forall (fun th => finished th = true) (threads c) \/ exists c', cstep c c') /\
  (forall n c', nsteps cstep n c c' -> (n <= csize c)%nat) /\
  (Forall (fun th => finished th = true) (threads c) ->
   Forall (fun x => readers (raw x) = 0%nat /\ writer (raw x) = false) (cells c)).
Proof.
  intros Hn Hp Hr. pose proof (config_ok_reachable _ _ Hr (start_ok _ _ Hn Hp)) as Hok. pose proof Hok as [Ht [Hl Hv]].
  split_and!.
  - by apply (Forall_impl _ _ _ Ht), thread_ok_guarded.
  - intros l Hin. destruct (cells c !! l) as [x|] eqn:E; [by eapply view_exclusive; [apply (Hv _ _ E)|]|].
    destruct (holders_elem l (all_guards (threads c))) as [a Ha]; [intros Hnil; rewrite Hnil in Hin; by apply elem_of_nil in Hin|].
    apply list_elem_of_bind in Ha as (th & Hg & Hth). pose proof Ht as [L HL]%(fun H => proj1 (Forall_forall _ _) H th Hth).
    destruct (frames_level _ _ _ _ (proj1 HL) Hg) as (d & Hd%lookup_lt_Some & _). apply lookup_ge_None in E. lia.
  - by apply progress.
  - intros n c' Hs%nsteps_size. lia.
  - intros Hf. rewrite (finished_guards _ Hf) in Hv. apply Forall_lookup. intros l x Hx.
    destruct (Hv l x Hx) as [(Hw & Hr' & _)|(_ & _ & Hc)]; [by rewrite Hr'|done].
Qed.

End spec.

(** ** Examples *)

Module LockExamples.
Import CountingLock.
#[local] Open Scope Z_scope.

(** The locks of the examples in the documentation: two mutexes and, for
    [write_arc], two locks of readers and writers at the same level. *)
Definition decls : list LockDecl := [mkDecl KMutex L1; mkDecl KMutex L2; mkDecl KRwLock L4; mkDecl KRwLock L4].
Definition vals : list Z := [42; 43; 0; 0].

(** The first example of the documentation: both mutexes in their order, then
    the second alone. *)
Definition in_order : prog Z :=
  Lock OLock 0 (Lock OLock 1 (DerefMut 1 (fun _ => 11) (DerefMut 0 (fun _ => 12) Ret)) Ret)
    (CheckNoLocks (Lock OLock 1 (DerefMut 1 (fun _ => 13) Ret) Ret)).
(** The second, which is to be refused. *)
Definition wrong_order : prog Z :=
  Lock OLock 1 (Lock OLock 0 (DerefMut 1 (fun _ => 11) (DerefMut 0 (fun _ => 12) Ret)) Ret) Ret.
(** Readers, an attempt that may fail and a higher token. *)
Definition reader : prog Z :=
  Downgrade L1 (TryLock 1 (DerefMut 1 (fun x => x + 1) Ret) Ret Ret)
    (Lock ORead 2 (Deref 2 (fun x => x =? 0) Ret Ret) Ret).

Lemma documented_examples : check_thread decls in_order = true /\ check_thread decls wrong_order = false.
Proof. by vm_compute. Qed.

Definition started : Config Z := start vals [in_order; reader; in_order].
Lemma ordered_locks_sound_witness :
  (Forall (fun th => finished th = true) (threads started) \/ exists c', cstep started c') /\
  (forall n c', nsteps cstep n started c' -> (n <= 44)%nat).
Proof.
  destruct (ordered_locks_sound decls vals [in_order; reader; in_order] started) as (_ & _ & Hp & Hs & _).
  - reflexivity.
  - repeat constructor.
  - constructor.
  - split; [exact Hp|]. intros n c' Hn. specialize (Hs n c' Hn). vm_compute in Hs. lia.
Defined.

(** [write_arc] is accepted in any order, and two threads can wait for each
    other for ever. *)
Definition switch_a : prog Z := WriteArc 2 (WriteArc 3 Ret Ret) Ret.
Definition switch_b : prog Z := WriteArc 3 (WriteArc 2 Ret Ret) Ret.

Lemma write_arc_deadlock :
  check_thread decls switch_a = true /\ check_thread decls switch_b = true /\
  exists c, rtc cstep (start vals [switch_a; switch_b]) c /\ ~ (exists c', cstep c c') /\
    Forall (fun th => finished th = false) (threads c).
Proof.
  split_and!; [done..|]. eexists. split_and!.
  - eapply rtc_l; [eapply (CStep 0); reflexivity|]. eapply rtc_l; [eapply (CStep 1); reflexivity|]. apply rtc_refl.
  - intros [c' Hs]. inversion Hs as [i c0 th cs' th' Hi Ht]; subst; cbn in *.
    destruct i as [|[|i]]; cbn in Hi; simplify_eq; done.
  - by repeat constructor.
Qed.
End LockExamples.
