(* ===== verification/MemoryScheme.v ===== *)
(** * The memory scheme (src/scheme/memory.rs)

    A handle is a number that says what kind of memory it maps; the scheme has
    no state of its own. Its operations work on the address spaces. The files
    that a mapping displaces are returned to be notified
    ([handle_notify_files]). *)

From S2P Require Import Prelude PageInfo FrameAllocator Rmm OrdMap Grants CpuSet AddrSpace UserCopy Sync.
From Stdlib Require Import Ascii.
#[local] Open Scope Z_scope.

Inductive HandleTy := Allocated_ | PhysBorrow | Translation.
Inductive MemoryType := Writeback | Uncacheable | WriteCombining | DeviceMemory.
#[export] Instance HandleTy_eq_dec : EqDecision HandleTy.
Proof. solve_decision. Defined.
#[export] Instance MemoryType_eq_dec : EqDecision MemoryType.
Proof. solve_decision. Defined.

Definition handle_ty_raw (t : HandleTy) : Z := match t with Allocated_ => 0 | PhysBorrow => 1 | Translation => 2 end.
Definition memory_type_raw (t : MemoryType) : Z :=
  match t with Writeback => 0 | Uncacheable => 1 | WriteCombining => 2 | DeviceMemory => 3 end.

(** [HandleFlags] has the one flag [PHYS_CONTIGUOUS]. *)
Definition PHYS_CONTIGUOUS : Z := 1.

Definition from_raw (raw : Z) : option (HandleTy * MemoryType * bool) :=
  ty ← (if Z.land raw 0xFF =? 0 then Some Allocated_
        else if Z.land raw 0xFF =? 1 then Some PhysBorrow
        else if Z.land raw 0xFF =? 2 then Some Translation
        else None);
  mt ← (let m := Z.land (Z.shiftr raw 8) 0xFF in
        if m =? 0 then Some Writeback
        else if m =? 1 then Some Uncacheable
        else if m =? 2 then Some WriteCombining
        else if m =? 3 then Some DeviceMemory
        else None);
  Some (ty, mt, Z.testbit (Z.shiftr raw 16) 0).

(** [u32::try_from(id).ok().and_then(from_raw)] *)
Definition handle_of (id : Z) : option (HandleTy * MemoryType * bool) :=
  if id <? 2 ^ 32 then from_raw id else None.

(** ** Opening *)

(** [trim_start_matches('/')] *)
Fixpoint trim_slashes (s : string) : string :=
  match s with
  | String c s' => if Ascii.eqb c "/"%char then trim_slashes s' else s
  | EmptyString => EmptyString
  end.

(** [split_once(sep).unwrap_or((s, ""))] *)
Fixpoint split_once (sep : ascii) (s : string) : string * string :=
  match s with
  | EmptyString => (EmptyString, EmptyString)
  | String c s' =>
      if Ascii.eqb c sep then (EmptyString, s')
      else let '(a, b) := split_once sep s' in (String c a, b)
  end.

(** [split(',')] *)
Fixpoint split_commas (s : string) : list string :=
  match s with
  | EmptyString => [EmptyString]
  | String c s' =>
      let l := split_commas s' in
      if Ascii.eqb c ","%char then EmptyString :: l
      else match l with x :: l' => String c x :: l' | [] => [String c EmptyString] end
  end.

(** The [filter_map] and [collect] over the flags: whether [phys_contiguous] is
    there, [None] if there is a flag that is not known. *)
Fixpoint collect_flags (l : list string) : option bool :=
  match l with
  | [] => Some false
  | x :: l' =>
      if String.eqb x "phys_contiguous" then b ← collect_flags l'; Some true
      else if String.eqb x "" then collect_flags l'
      else None
  end.

(** What a path asks for. *)
Definition parse_path (path : string) : option (HandleTy * MemoryType * bool) :=
  let path := trim_slashes path in
  let '(before_memty, memty_str) := split_once "@"%char path in
  let '(before_ty, type_str) := split_once "?"%char memty_str in
  ty ← (if String.eqb before_memty "" || String.eqb before_memty "zeroed" then Some Allocated_
        else if String.eqb before_memty "physical" then Some PhysBorrow
        else if String.eqb before_memty "translation" then Some Translation
        else None);
  mt ← (if String.eqb before_ty "" || String.eqb before_ty "wb" then Some Writeback
        else if String.eqb before_ty "wc" then Some WriteCombining
        else if String.eqb before_ty "uc" then Some Uncacheable
        else if String.eqb before_ty "dev" then Some DeviceMemory
        else None);
  fl ← collect_flags (split_commas type_str);
  Some (ty, mt, fl).

Definition memory_kopen (path : string) (uid : Z) : result Error Z :=
  if (64 <? String.length path)%nat then Err ENOENT
  else
    match parse_path path with
    | None => Err ENOENT
    | Some (handle_ty, mem_ty, fl) =>
        if negb (uid =? 0) && (fl || negb (bool_decide (handle_ty = Allocated_ /\ mem_ty = Writeback))) then Err EACCES
        else Ok (Z.lor (Z.lor (handle_ty_raw handle_ty) (Z.shiftl (memory_type_raw mem_ty) 8))
                       (Z.shiftl (if fl then PHYS_CONTIGUOUS else 0) 16))
    end.

(** ** Mapping *)

(** [syscall::Map] *)
Section memory.
Context {PFA : PageFlagsApi} {MFA : MapFlagsApi} {PMA : PageMapperApi}.
Context (dbg : bool).

Record Map := mkMap { map_offset : Z; map_size : Z; map_flags_ : MapFlags; map_address : Z }.

Definition fixed (fl : MapFlags) : bool := mf_contains fl MAP_FIXED || mf_contains fl MAP_FIXED_NOREPLACE.

(** A mapping made by [AddrSpace::mmap], its address and the files to be
    notified; after an error the files are dropped. *)
Definition mapped_at (r : list UnmapResult * result Error Page) : result Error (Z * list UnmapResult) :=
  match r.2 with Ok page => Ok (Page_start_address page, r.1) | Err e => Err e end.

Definition fmap_anonymous (sid : Z) (map : Map) (is_phys_contiguous : bool) : M Kernel (result Error (Z * list UnmapResult)) :=
  match PageSpan_validate_nonempty (map_address map) (map_size map) with
  | None => err EINVAL
  | Some span =>
      if span_count span =? 0 then err EINVAL
      else if is_phys_contiguous && mf_contains (map_flags_ map) MAP_SHARED then err EOPNOTSUPP
      else
        let requested := if negb (map_address map =? 0) || fixed (map_flags_ map) then Some (span_base span) else None in
        let! r := mmap dbg sid requested (span_count span) (map_flags_ map) (fun dst_page fl =>
          let span := PageSpan_new dst_page (span_count span) in
          if is_phys_contiguous then zeroed_phys_contiguous dbg span fl sid
          else zeroed dbg span fl sid (mf_contains (map_flags_ map) MAP_SHARED)) in
        ret (mapped_at r)
  end.

(** [PageFlags::custom_flag] of the rmm crate *)
Context (custom_flag : Z -> bool -> PageFlags -> PageFlags).
Definition NO_CACHE : Z := Z.shiftl 1 4.
Definition HUGE_PAGE : Z := Z.shiftl 1 7.

(** The flags of the memory type, on x86_64. *)
Definition type_flags (memory_type : MemoryType) (fl : PageFlags) : PageFlags :=
  match memory_type with
  | Writeback => fl
  | WriteCombining => custom_flag HUGE_PAGE true fl
  | Uncacheable => custom_flag NO_CACHE true fl
  | DeviceMemory => fl
  end.

(** [MemoryScheme::physmap]; [current] is the address space of the caller. *)
Definition memory_physmap (current : option Z) (physical_address size : Z) (fl : MapFlags) (memory_type : MemoryType) : M Kernel (result Error Z) :=
  if (Z.shiftl 1 52 <? saturating_add physical_address size) || negb (physical_address mod PAGE_SIZE =? 0) then err EINVAL
  else if negb (size mod PAGE_SIZE =? 0) then err EINVAL
  else
    let page_count := div_ceil size PAGE_SIZE in
    if page_count =? 0 then err EINVAL
    else
      match current with
      | None => err ESRCH
      | Some sid =>
          let? base_page := mmap_anywhere dbg sid page_count fl (fun dst_page page_flags =>
            let! frame := containing physical_address in
            physmap dbg frame (PageSpan_new dst_page page_count) (type_flags memory_type page_flags) sid (FlusherOf sid)) in
          ok (Page_start_address base_page)
      end.

Definition memory_kfmap (current : option Z) (id sid : Z) (map : Map) : M Kernel (result Error (Z * list UnmapResult)) :=
  match handle_of id with
  | None => err EBADF
  | Some (Allocated_, _, fl) => fmap_anonymous sid map fl
  | Some (PhysBorrow, mem_ty, _) =>
      let? addr := memory_physmap current (map_offset map) (map_size map) (map_flags_ map) mem_ty in ok (addr, [])
  | Some (Translation, _, _) => err EOPNOTSUPP
  end.

(** ** The other operations *)

(** The physical address that a translation handle answers with; [virt] is what
    the payload holds, and the answer is written back into it. *)
Definition memory_translate (current : option Z) (id virt : Z) : M Kernel (result Error Z) :=
  match handle_of id with
  | None => err EBADF
  | Some (Translation, _, _) =>
      match current with
      | None => err ESRCH
      | Some sid =>
          let! t := translate sid virt in
          match t with Some (phys, _) => ok phys | None => err ENOENT end
      end
  | Some _ => err EOPNOTSUPP
  end.

(** [kcall] with the payload in user memory; the handle is checked before the
    payload is read. *)
Definition memory_kcall (current : option Z) (id : Z) (payload : UserSlice) : M (Kernel * UserMem) (result Error Z) :=
  fun '(k, u) =>
    match handle_of id with
    | None => Done (Err EBADF, (k, u))
    | Some (Translation, _, _) =>
        match read_usize payload u with
        | Done (Ok virt, u) =>
            match memory_translate current id virt k with
            | Done (Ok phys, k) =>
                match write_usize payload phys u with
                | Done (Ok _, u) => Done (Ok 0, (k, u))
                | Done (Err e, u) => Done (Err e, (k, u))
                | Panic => Panic
                end
            | Done (Err e, k) => Done (Err e, (k, u))
            | Panic => Panic
            end
        | Done (Err e, u) => Done (Err e, (k, u))
        | Panic => Panic
        end
    | Some _ => Done (Err EOPNOTSUPP, (k, u))
    end.

(** [kfstatvfs]: block size, blocks and free blocks, from the counts of frames. *)
Definition memory_kfstatvfs (used free : Z) : list Z := [PAGE_SIZE; usize_add used free; free; free].

End memory.
