(* ===== verification/MemorySchemeSpec.v ===== *)
(** * Properties of the memory scheme

    What the handle of a path stands for, that without privileges only
    anonymous memory can be opened, and that no memory of the allocator is
    mapped by its physical address. *)

From S2P Require Import Prelude PageInfo FrameAllocator BuddyInvariant Rmm OrdMap Grants CpuSet AddrSpace AddrSpaceSpec UserCopy Sync MemoryScheme.
#[local] Open Scope Z_scope.

Definition encode (ty : HandleTy) (mt : MemoryType) (fl : bool) : Z :=
  Z.lor (Z.lor (handle_ty_raw ty) (Z.shiftl (memory_type_raw mt) 8)) (Z.shiftl (if fl then PHYS_CONTIGUOUS else 0) 16).

Lemma handle_of_encode ty mt fl : handle_of (encode ty mt fl) = Some (ty, mt, fl).
Proof. by destruct ty, mt, fl. Qed.

Section spec.
Context {PFA : PageFlagsApi} {MFA : MapFlagsApi} {PMA : PageMapperApi}.
Context (dbg : bool) (custom_flag : Z -> bool -> PageFlags -> PageFlags).

(** The number of a handle of the memory scheme stands for exactly what
    its path asked for; and a caller that is not root gets no other handle than
    that of anonymous memory, which maps fresh zeroed pages and never memory at a
    physical address of the caller's choice. *)
Theorem memory_open_confined path uid id : memory_kopen path uid = Ok id ->
  exists ty mt fl, parse_path path = Some (ty, mt, fl) /\ handle_of id = Some (ty, mt, fl) /\
    (uid <> 0 -> id = 0 /\ forall current sid map k,
       memory_kfmap dbg custom_flag current id sid map k = fmap_anonymous dbg sid map false k).
Proof.
  unfold memory_kopen. case_match; [done|]. destruct (parse_path path) as [[[ty mt] fl]|] eqn:Hp; [|done].
  destruct (negb (uid =? 0) && _) eqn:E; [done|]. intros [= <-]. fold (encode ty mt fl).
  exists ty, mt, fl. split_and!; [done|apply handle_of_encode|].
  intros Hu. apply Z.eqb_neq in Hu. rewrite Hu in E. cbn in E. apply orb_false_iff in E as [-> E].
  rewrite negb_false_iff, bool_decide_eq_true in E. destruct E as [-> ->]. done.
Qed.

(** ** Physical memory *)

(** A loop that ends without [return], over a body that does not change the
    state: no element made it return. *)
Lemma for_flow_none {S A R} (body : A -> M S (flow R)) l s s' :
  (forall x s1 f s2, body x s1 = Done (f, s2) -> s2 = s1 /\ f <> Break) ->
  for_flow l body s = Done (None, s') -> s' = s /\ forall x, x ∈ l -> body x s = Done (Next, s).
Proof.
  intros Hb. revert s. induction l as [|x l IH]; intros s; cbn.
  - intros [= ->]. split; [done|]. intros x Hx. by apply elem_of_nil in Hx.
  - intros (f & s1 & Hx & Hr)%bind_Done_inv. destruct (Hb _ _ _ _ Hx) as [-> Hf]. destruct f; [|done|done].
    destruct (IH _ Hr) as [-> Hl]. split; [done|]. intros y [->|Hy]%elem_of_cons; [done|by apply Hl].
Qed.

Lemma with_mem_page_info f (k : Kernel) : with_mem (get_page_info f) k = Done (locate (sections (mem k)) f, k).
Proof. unfold with_mem. rewrite get_page_info_eq. by destruct k. Qed.

(** [Grant::physmap] refuses memory the allocator knows. *)
Lemma physmap_no_ram frame span fl sid flusher k g k' :
  physmap dbg frame span fl sid flusher k = Done (Ok g, k') ->
  forall i, i ∈ range (span_count span) -> exists f, next_by frame i k = Done (f, k) /\ locate (sections (mem k)) f = None.
Proof.
  unfold physmap. intros (r & k1 & Hr & Hk)%bind_Done_inv. destruct r as [e|]; [done|].
  apply for_flow_none in Hr as [-> Hl].
  - intros i Hi. specialize (Hl i Hi). apply bind_Done_inv in Hl as (f & k2 & Hf & Hl).
    exists f. assert (k2 = k) as -> by (revert Hf; unfold next_by, unwrap; repeat case_match; by intros [= _ ->]).
    split; [done|]. unfold bind in Hl. rewrite with_mem_page_info in Hl. by destruct (locate _ f).
  - intros i s1 f s2 (f0 & s3 & Hf & H)%bind_Done_inv.
    assert (s3 = s1) as -> by (revert Hf; unfold next_by, unwrap; repeat case_match; by intros [= _ ->]).
    unfold bind in H. rewrite with_mem_page_info in H. destruct (locate _ f0); cbn in H; by injection H as <- <-.
Qed.

(** [mmap_anywhere] makes the grant in the state it starts in. *)
Lemma mmap_anywhere_map sid n fl mk k page k' : mmap_anywhere dbg sid n fl mk k = Done (Ok page, k') ->
  exists p pf g k1, mk p pf k = Done (Ok g, k1).
Proof.
  unfold mmap_anywhere, mmap. intros ([files r] & k1 & H & Hr)%bind_Done_inv. cbn in Hr. injection Hr as -> ->.
  apply bind_Done_inv in H as (a & k2 & Ha & H).
  assert (k2 = k) as -> by (revert Ha; unfold get_space, bind, get_state, unwrap; repeat case_match; by intros [= _ ->]).
  rewrite bind_ret in H. destruct (UserGrants_find_free _ _ _); [|done].
  apply bind_Done_inv in H as ([g|e] & k3 & Hm & H); [by eauto|].
  apply bind_Done_inv in H as (u & k4 & _ & H). done.
Qed.

(** What [physmap] maps is not memory of the allocator. *)
Lemma memory_physmap_no_ram cur pa size fl mt k va k' : 0 <= pa < 2 ^ 64 ->
  memory_physmap dbg custom_flag cur pa size fl mt k = Done (Ok va, k') ->
  forall i, i ∈ range (div_ceil size PAGE_SIZE) ->
  exists frame f, containing pa k = Done (frame, k) /\ next_by frame i k = Done (f, k) /\ locate (sections (mem k)) f = None.
Proof.
  intros Hpa. unfold memory_physmap. do 3 (case_match; [done|]).
  destruct cur as [sid|]; [|done]. intros (r & k1 & Hm & Hk)%bind_Done_inv. destruct r as [page|]; [|done].
  apply mmap_anywhere_map in Hm as (p & pf & g & k2 & Hm). apply bind_Done_inv in Hm as (frame & k3 & Hf & Hm).
  assert (k3 = k) as -> by (revert Hf; unfold containing, unwrap; repeat case_match; by intros [= _ ->]).
  intros i Hi. destruct (physmap_no_ram _ _ _ _ _ _ _ _ Hm i Hi) as (f & Hn & Hl). by exists frame, f.
Qed.
End spec.

(** ** Examples *)

Module MemoryExamples.
Import SimpleFlags AddrSpaceWitnesses.

Lemma memory_paths :
  memory_kopen "zeroed@wb?phys_contiguous" 0 = Ok 65536 /\ memory_kopen "zeroed@wb?phys_contiguous" 1000 = Err EACCES /\
  memory_kopen "/physical@uc" 0 = Ok 257 /\ memory_kopen "physical" 1000 = Err EACCES /\ memory_kopen "zeroed@wb?x" 0 = Err ENOENT.
Proof. by vm_compute. Qed.

Lemma memory_open_confined_witness :
  handle_of 0 = Some (Allocated_, Writeback, false).
Proof.
  destruct (memory_open_confined false (fun _ _ f => f) "zeroed" 1000 0 eq_refl) as (ty & mt & fl & Hp & Hh & _).
  rewrite Hh, <- Hp. reflexivity.
Defined.

(** The spaces 1, of the caller, and 2. *)
Definition two : Kernel := mkKernel mem0 {[ 1 := AddrSpace_new; 2 := AddrSpace_new ]} 0 [].
Definition physical (pa : Z) (k : Kernel) : outcome (result Error (Z * list UnmapResult) * Kernel) :=
  memory_kfmap false (fun _ _ f => f) (Some 1) 1 2 (mkMap pa 4096 [PROT_READ] 0) k.
Definition grants_of (sid : Z) (o : outcome (result Error (Z * list UnmapResult) * Kernel)) : option nat :=
  match o with Done (Ok _, k) => (fun a => length (inner (grants a))) <$> spaces k !! sid | _ => None end.

(** A mapping of physical memory asked for in the space 2 is made in the
    caller's space 1. *)
Lemma physical_ignores_space : grants_of 1 (physical 0xFED00000 two) = Some 1%nat /\ grants_of 2 (physical 0xFED00000 two) = Some 0%nat.
Proof. by vm_compute. Qed.

(** The physical address 0 stops the kernel. *)
Lemma physical_zero_panics : physical 0 two = Panic.
Proof. by vm_compute. Qed.

End MemoryExamples.
