(* ===== verification/Registers.v ===== *)
(** * Saved registers of a context (src/arch/x86_64/interrupt/handler.rs,
    src/context/arch/x86_64.rs)

    The registers of a context in user space lie at the top of its kernel stack
    as an [InterruptStack]; its floating-point registers are in [kfx], the bases
    of its thread-local segments in the architecture's part of the context. The
    process scheme reads and writes all three.

    [IntRegisters], [FloatRegisters] and [EnvRegisters] belong to the syscall
    crate; their fields are those the kernel names. *)

From S2P Require Import Prelude PageInfo FrameAllocator Rmm.
#[local] Open Scope Z_scope.

(** ** The interrupt stack *)

Record PreservedRegisters := mkPreserved { r15 : Z; r14 : Z; r13 : Z; r12 : Z; rbp : Z; rbx : Z }.
Record ScratchRegisters := mkScratch {
  r11 : Z; r10 : Z; r9 : Z; r8 : Z; rsi : Z; rdi : Z; rdx : Z; rcx : Z; rax : Z
}.
Record IretRegisters := mkIret { rip : Z; cs : Z; rflags : Z; rsp : Z; ss : Z }.
Record InterruptStack := mkStack { preserved : PreservedRegisters; scratch : ScratchRegisters; iret : IretRegisters }.

(** [IntRegisters], in the order of [save] *)
Record IntRegisters := mkInt {
  i_preserved : PreservedRegisters;
  i_scratch : ScratchRegisters;
  i_rip : Z; i_cs : Z; i_rflags : Z; i_rsp : Z; i_ss : Z
}.

Definition FLAGS_IF : Z := Z.shiftl 1 9.
Definition GDT_USER_DATA : Z := 4.
Definition GDT_USER_CODE : Z := 5.
Definition FLAG_SINGLESTEP : Z := Z.shiftl 1 8.

(** [InterruptStack::default()] *)
Definition stack_zero : InterruptStack :=
  mkStack (mkPreserved 0 0 0 0 0 0) (mkScratch 0 0 0 0 0 0 0 0 0) (mkIret 0 0 0 0 0).

Definition set_iret (f : IretRegisters -> IretRegisters) (s : InterruptStack) : InterruptStack :=
  mkStack (preserved s) (scratch s) (f (iret s)).

(** [InterruptStack::init] *)
Definition stack_init (s : InterruptStack) : InterruptStack :=
  set_iret (fun i => mkIret (rip i) (Z.lor (Z.shiftl GDT_USER_CODE 3) 3) FLAGS_IF (rsp i) (Z.lor (Z.shiftl GDT_USER_DATA 3) 3)) s.

Definition frame_pointer (s : InterruptStack) : Z := rbp (preserved s).
Definition stack_pointer (s : InterruptStack) : Z := rsp (iret s).
Definition instr_pointer (s : InterruptStack) : Z := rip (iret s).
Definition sig_archdep_reg (s : InterruptStack) : Z := rflags (iret s).
Definition set_stack_pointer (x : Z) : InterruptStack -> InterruptStack :=
  set_iret (fun i => mkIret (rip i) (cs i) (rflags i) x (ss i)).
Definition set_instr_pointer (x : Z) : InterruptStack -> InterruptStack :=
  set_iret (fun i => mkIret x (cs i) (rflags i) (rsp i) (ss i)).
Definition set_arg1 (arg_opt : option Z) (s : InterruptStack) : InterruptStack :=
  match arg_opt with
  | Some arg =>
      let c := scratch s in
      mkStack (preserved s) (mkScratch (r11 c) (r10 c) (r9 c) (r8 c) arg (rdi c) (rdx c) (rcx c) (rax c)) (iret s)
  | None => s
  end.

(** [InterruptStack::save] *)
Definition save (s : InterruptStack) : IntRegisters :=
  mkInt (preserved s) (scratch s) (rip (iret s)) (cs (iret s)) (rflags (iret s)) (rsp (iret s)) (ss (iret s)).

Definition ALLOWED_RFLAGS : Z := 0xDD5.

(** [InterruptStack::load]: the segments stay, and so do the flags that are not
    allowed to be changed. *)
Definition load (all : IntRegisters) (s : InterruptStack) : InterruptStack :=
  mkStack (i_preserved all) (i_scratch all)
    (mkIret (i_rip all) (cs (iret s))
       (Z.lor (Z.land (rflags (iret s)) (usize_not ALLOWED_RFLAGS)) (Z.land (i_rflags all) ALLOWED_RFLAGS))
       (i_rsp all) (ss (iret s))).

Definition set_singlestep (enabled : bool) : InterruptStack -> InterruptStack :=
  set_iret (fun i => mkIret (rip i) (cs i)
    (if enabled then Z.lor (rflags i) FLAG_SINGLESTEP else Z.land (rflags i) (usize_not FLAG_SINGLESTEP)) (rsp i) (ss i)).

(** ** Floating-point registers

    The fields that are neither [_reserved] nor [st_space] are copied as they
    are. *)
Record FloatRegisters := mkFloat { fl_reserved : Z; st_space : list Z; fl_rest : list Z }.

Definition u128_not (x : Z) : Z := Z.lxor x (2 ^ 128 - 1).
Definition ST_RESERVED : Z := 0xFFFFFFFFFFFF00000000000000000000.

Definition get_fx_regs (kfx : FloatRegisters) : FloatRegisters :=
  mkFloat 0 (map (fun st => Z.land st (u128_not ST_RESERVED)) (st_space kfx)) (fl_rest kfx).

(** [old_st] is the [st_space] of the new registers. *)
Definition set_fx_regs (new kfx : FloatRegisters) : FloatRegisters :=
  let old_st := st_space new in
  mkFloat (fl_reserved kfx)
    (zip_with (fun new_st old_st => Z.lor (Z.land new_st (u128_not ST_RESERVED)) (Z.land old_st ST_RESERVED)) (st_space new) old_st)
    (fl_rest new).

(** ** Segment bases *)

Record EnvRegisters := mkEnv { fsbase : Z; gsbase : Z }.

(** The architecture's part of a context, with its floating-point registers. *)
Record ArchContext := mkArch { a_fsbase : Z; a_gsbase : Z; userspace_io_allowed : bool; kfx : FloatRegisters }.
Definition set_kfx (f : FloatRegisters) (a : ArchContext) : ArchContext :=
  mkArch (a_fsbase a) (a_gsbase a) (userspace_io_allowed a) f.
Definition set_bases (e : EnvRegisters) (a : ArchContext) : ArchContext :=
  mkArch (fsbase e) (gsbase e) (userspace_io_allowed a) (kfx a).

Section env.
(** [RmmA::virt_is_valid] *)
Context (virt_is_valid : Z -> bool).

Definition env_valid (e : EnvRegisters) : bool := virt_is_valid (fsbase e) && virt_is_valid (gsbase e).

Definition read_env (a : ArchContext) : EnvRegisters := mkEnv (a_fsbase a) (a_gsbase a).
(** [Context::write_env_regs] *)
Definition write_env (e : EnvRegisters) (a : ArchContext) : result Error ArchContext :=
  if env_valid e then Ok (set_bases e a) else Err EINVAL.

(** [write_current_env_regs]: the registers of the CPU as well. *)
Definition write_current_env (e : EnvRegisters) (msr : EnvRegisters) (a : ArchContext) : result Error (EnvRegisters * ArchContext) :=
  if env_valid e then Ok (e, set_bases e a) else Err EINVAL.
End env.

(** ** Properties *)

Definition is_u64 (x : Z) : Prop := 0 <= x < 2 ^ 64.

Lemma u64_high x i : is_u64 x -> 64 <= i -> Z.testbit x i = false.
Proof.
  intros Hx Hi. destruct (decide (x = 0)) as [->|Hz]; [apply Z.bits_0|].
  apply Z.bits_above_log2; [apply Hx|]. apply Z.log2_lt_pow2; [unfold is_u64 in Hx; lia|].
  apply Z.lt_le_trans with (2 ^ 64); [apply Hx|]. apply Z.pow_le_mono_r; lia.
Qed.

(** Replacing the bits of a mask. *)
Lemma masked_bits x y mask i : is_u64 x -> is_u64 mask -> 0 <= i ->
  Z.testbit (Z.lor (Z.land x (usize_not mask)) (Z.land y mask)) i = if Z.testbit mask i then Z.testbit y i else Z.testbit x i.
Proof.
  intros Hx Hm Hi. rewrite Z.lor_spec, !Z.land_spec. destruct (Z.lt_ge_cases i 64).
  - rewrite testbit_usize_not by lia. destruct (Z.testbit x i), (Z.testbit y i), (Z.testbit mask i); done.
  - rewrite (u64_high x i), (u64_high mask i) by done. cbn. by destruct (Z.testbit y i).
Qed.

Lemma masked_same x mask : is_u64 x -> is_u64 mask -> Z.lor (Z.land x (usize_not mask)) (Z.land x mask) = x.
Proof. intros Hx Hm. apply Z.bits_inj'. intros i Hi. rewrite masked_bits by done. by destruct (Z.testbit mask i). Qed.

(** The mask of [set_fx_regs] takes the reserved bits from the new registers:
    it changes nothing. *)
Lemma masked_u128 x : 0 <= x < 2 ^ 128 -> Z.lor (Z.land x (u128_not ST_RESERVED)) (Z.land x ST_RESERVED) = x.
Proof.
  intros Hx. rewrite <- Z.land_lor_distr_r. replace (Z.lor _ _) with (Z.ones 128) by reflexivity.
  rewrite Z.land_ones by lia. by apply Z.mod_small.
Qed.

(** So the reserved bits of the registers that were there before are lost, and
    those of the caller are kept. *)
Lemma set_fx_regs_unmasked new old : Forall (fun st => 0 <= st < 2 ^ 128) (st_space new) ->
  set_fx_regs new old = mkFloat (fl_reserved old) (st_space new) (fl_rest new).
Proof.
  intros H. unfold set_fx_regs. f_equal. induction H as [|st l Hst _ IH]; [done|].
  cbn [zip_with]. f_equal; [by apply masked_u128|exact IH].
Qed.

(** C37: what a debugger writes to the integer registers of a context cannot
    raise the privileges the context returns to user space with: the code and
    stack segments stay as they are, and of the flags only the arithmetic ones,
    direction and trap change, bit by bit; the interrupt flag and the I/O
    privilege level are kept. Everything else is taken over as it was written,
    and reads back; writing back what was read changes nothing. *)
Theorem load_confined all s : is_u64 (rflags (iret s)) ->
  let s' := load all s in
  cs (iret s') = cs (iret s) /\ ss (iret s') = ss (iret s) /\
  (forall i, 0 <= i -> Z.testbit (rflags (iret s')) i =
     if bool_decide (i ∈ [0; 2; 4; 6; 7; 8; 10; 11]) then Z.testbit (i_rflags all) i else Z.testbit (rflags (iret s)) i) /\
  save s' = mkInt (i_preserved all) (i_scratch all) (i_rip all) (cs (iret s)) (rflags (iret s')) (i_rsp all) (ss (iret s)) /\
  load (save s) s = s.
Proof.
  intros Hf s'. split_and!; try done.
  - intros i Hi. cbn [s' load iret rflags]. rewrite masked_bits by done.
    destruct (Z.lt_ge_cases i 12) as [Hlt|Hge].
    + assert (Hi' : i ∈ map Z.of_nat (seq 0 12)) by (apply list_elem_of_fmap; exists (Z.to_nat i); rewrite elem_of_seq; lia).
      cbn in Hi'. rewrite !elem_of_cons, elem_of_nil in Hi'. destruct_or! Hi'; by subst.
    + rewrite bool_decide_false by (rewrite !elem_of_cons, elem_of_nil; lia).
      rewrite Z.bits_above_log2; [done|done|]. change (Z.log2 ALLOWED_RFLAGS) with 11. lia.
  - destruct s as [p c [ip c0 f sp s0]]. unfold load, save; cbn [preserved scratch iret rip cs rflags rsp ss i_preserved i_scratch i_rip i_rflags i_rsp].
    by rewrite masked_same.
Qed.

(** The registers of a new context. *)
Definition new_stack : InterruptStack := stack_init stack_zero.
Definition all_flags : IntRegisters := mkInt (preserved new_stack) (scratch new_stack) 0x1000 0 (2 ^ 64 - 1) 0x2000 0.
Lemma load_confined_witness :
  Z.testbit (rflags (iret (load all_flags new_stack))) 9 = true /\ Z.testbit (rflags (iret (load all_flags new_stack))) 12 = false /\
  cs (iret (load all_flags new_stack)) = 43.
Proof.
  destruct (load_confined all_flags new_stack) as (Hc & _ & Hb & _); [by vm_compute|].
  rewrite Hc, !Hb by lia. by vm_compute.
Defined.
