(* ===== verification/ProcScheme.v ===== *)
(** * The process scheme (src/scheme/proc.rs)

    Handles of this scheme are capabilities to a context: to its address space,
    file table, registers, signal handler and status. A process manager opens
    the one authority handle, makes contexts with it and hands out the rest.

    [Arc]s to address spaces and file tables are their keys; whether there still
    is one is read off the state: the handles, the contexts, the space of this
    CPU and the grants that borrow from a space. The calls of other schemes that
    the operations cause are recorded in [p_log]. Where the code gives up a
    context's lock to take it again, [others] is what the rest of the system does
    in between.

    Structures and constants of the syscall crate are the type class
    [ProcParams]. *)

From S2P Require Import Timeouts FileOps UserCalls.
From S2P Require Import Prelude PageInfo FrameAllocator Rmm OrdMap Grants CpuSet AddrSpace PageFault UserCopy Sync FdTbl Scheduler Schemes Files Registers MemoryScheme.
From Stdlib Require Import Ascii.
From stdpp Require Import pretty.
#[local] Open Scope Z_scope.

(** ** The syscall crate *)

Definition EOWNERDEAD : Error := Errno 130.
Definition ENOTRECOVERABLE : Error := Errno 131.

Inductive ContextVerb := VStop | VUnstop | VInterrupt | VForceKill.
Inductive ContextStatus := CRunnable | CBlocked | CNotYetStarted | CStopped | CDead | CForceKilled | CUnhandledExcp | COther.

Record SetSighandlerData := mkSigData {
  sd_user_handler : Z; sd_excp_handler : Z; sd_thread_control_addr : Z; sd_proc_control_addr : Z
}.
Record ProcSchemeAttrs := mkAttrs { at_pid : Z; at_euid : Z; at_egid : Z; at_ens : Z; at_debug_name : list Z }.
Record GrantDesc := mkGrantDesc { gd_base : Z; gd_size : Z; gd_flags : list (GrantFlag * bool); gd_offset : Z }.

(** A structure that is copied to and from user memory. *)
Record Codec (A : Type) := mkCodec { size_of : Z; of_bytes : list Z -> A; to_bytes : A -> list Z }.
#[global] Arguments size_of {A}.
#[global] Arguments of_bytes {A}.
#[global] Arguments to_bytes {A}.

Class ProcParams {MFA : MapFlagsApi} := {
  ADDRSPACE_OP_MMAP : Z; ADDRSPACE_OP_TRANSFER : Z; ADDRSPACE_OP_MUNMAP : Z; ADDRSPACE_OP_MPROTECT : Z;
  (** [MapFlags::from_bits] *)
  mf_from_bits : Z -> option MapFlags;
  (** [ContextVerb::try_from_raw], [ContextStatus as usize] *)
  verb_of : Z -> option ContextVerb;
  status_raw : ContextStatus -> Z;
  (** [ProcSchemeVerb::try_from_raw]: whether it is [Iopl], the only verb *)
  is_iopl : Z -> bool;
  int_codec : Codec IntRegisters;
  float_codec : Codec FloatRegisters;
  env_codec : Codec EnvRegisters;
  sig_codec : Codec SetSighandlerData;
  attr_codec : Codec ProcSchemeAttrs;
  grant_codec : Codec GrantDesc;
  (** [size_of::<Sigcontrol>()], [size_of::<SigProcControl>()] *)
  SIGCONTROL_SIZE : Z;
  SIGPROCCONTROL_SIZE : Z;
}.

(** ** Handles *)

Inductive RegsKind := RFloat | RInt | REnv.

Inductive ContextHandle :=
| HAuthority
| HAttr
| HStatus (privileged : bool)
| HRegs (kind : RegsKind)
| HSighandler
| HStart
| HNewFiletable (filetable : Z) (binary_format : bool) (data : list Z)
| HFiletable (filetable : Z) (binary_format : bool) (data : list Z)
| HAddrSpace (addrspace : Z)
| HCurrentAddrSpace
| HAwaitingAddrSpaceChange (new new_sp new_ip : Z) (arg1 : option Z)
| HCurrentFiletable
| HAwaitingFiletableChange (new_ft : Z)
| HOpenViaDup
| HSchedAffinity
| HMmapMinAddr (addrspace : Z).

Record Handle := mkHandle { h_context : Z; h_kind : ContextHandle }.

(** The address space and the file table a handle keeps alive. *)
Definition handle_space (k : ContextHandle) : option Z :=
  match k with
  | HAddrSpace a | HAwaitingAddrSpaceChange a _ _ _ | HMmapMinAddr a => Some a
  | _ => None
  end.
Definition handle_table (k : ContextHandle) : option Z :=
  match k with HNewFiletable t _ _ | HAwaitingFiletableChange t => Some t | _ => None end.

(** ** The state *)

Record SignalState := mkSignalState {
  user_handler : Z;
  excp_handler : option Z;
  thread_control : Frame;
  proc_control : Frame;
  threadctl_off : Z;
  procctl_off : Z;
}.

(** The fields of [Context] that the scheduler does not use; [pc_excp] is the
    exception of [Status::Dead], [pc_stack] the registers on the kernel stack. *)
Record ProcCtx := mkPctx {
  pc_sig : option SignalState;
  pc_excp : option (list Z);
  pc_addr_space : option Z;
  pc_files : Z;
  pc_name : list Z;
  pc_owner : option Z;
  pc_ens : Z;
  pc_euid : Z;
  pc_egid : Z;
  pc_pid : Z;
  pc_arch : ArchContext;
  pc_stack : option InterruptStack;
}.

Definition set_pc_sig (x : option SignalState) (c : ProcCtx) : ProcCtx :=
  mkPctx x (pc_excp c) (pc_addr_space c) (pc_files c) (pc_name c) (pc_owner c) (pc_ens c) (pc_euid c) (pc_egid c) (pc_pid c) (pc_arch c) (pc_stack c).
Definition set_pc_space (x : option Z) (c : ProcCtx) : ProcCtx :=
  mkPctx (pc_sig c) (pc_excp c) x (pc_files c) (pc_name c) (pc_owner c) (pc_ens c) (pc_euid c) (pc_egid c) (pc_pid c) (pc_arch c) (pc_stack c).
Definition set_pc_files (x : Z) (c : ProcCtx) : ProcCtx :=
  mkPctx (pc_sig c) (pc_excp c) (pc_addr_space c) x (pc_name c) (pc_owner c) (pc_ens c) (pc_euid c) (pc_egid c) (pc_pid c) (pc_arch c) (pc_stack c).
Definition set_pc_attrs (name : list Z) (pid ens euid egid : Z) (c : ProcCtx) : ProcCtx :=
  mkPctx (pc_sig c) (pc_excp c) (pc_addr_space c) (pc_files c) name (pc_owner c) ens euid egid pid (pc_arch c) (pc_stack c).
Definition set_pc_arch (f : ArchContext -> ArchContext) (c : ProcCtx) : ProcCtx :=
  mkPctx (pc_sig c) (pc_excp c) (pc_addr_space c) (pc_files c) (pc_name c) (pc_owner c) (pc_ens c) (pc_euid c) (pc_egid c) (pc_pid c) (f (pc_arch c)) (pc_stack c).
Definition set_pc_stack (f : InterruptStack -> InterruptStack) (c : ProcCtx) : ProcCtx :=
  mkPctx (pc_sig c) (pc_excp c) (pc_addr_space c) (pc_files c) (pc_name c) (pc_owner c) (pc_ens c) (pc_euid c) (pc_egid c) (pc_pid c) (pc_arch c) (f <$> pc_stack c).

(** [CONTEXT_NAME_CAPAC] *)
Definition CONTEXT_NAME_CAPAC : Z := 32.

(** Calls that leave the scheme. *)
Inductive Effect :=
| Notify (r : UnmapResult)
| PtraceAddrSpaceSwitch.

Abbreviation Table := (@FdTbl FileDescriptor) (only parsing).

Section proc.
Context {PFA : PageFlagsApi} {MFA : MapFlagsApi} {PMA : PageMapperApi} {PP : ProcParams}.
Context (dbg : bool).
Context (fmap_page : GrantFileRef -> Z -> MapFlags -> M Kernel (result PfError Frame)).
Context (virt_is_valid : Z -> bool).

Record Proc := mkProc {
  p_machine : Machine;
  p_kern : Kernel;
  p_heap : Heap;
  p_schemes : SchemeList;
  p_user : UserMem;
  p_ctx : gmap Z ProcCtx;
  p_tables : gmap Z Table;
  p_handles : gmap Z Handle;
  p_next_id : Z;
  p_lock : bool;
  p_cur_space : option Z;
  p_msr : EnvRegisters;
  p_log : list Effect;
}.

Definition set_machine (x : Machine) (s : Proc) : Proc :=
  mkProc x (p_kern s) (p_heap s) (p_schemes s) (p_user s) (p_ctx s) (p_tables s) (p_handles s) (p_next_id s) (p_lock s) (p_cur_space s) (p_msr s) (p_log s).
Definition set_kern (x : Kernel) (s : Proc) : Proc :=
  mkProc (p_machine s) x (p_heap s) (p_schemes s) (p_user s) (p_ctx s) (p_tables s) (p_handles s) (p_next_id s) (p_lock s) (p_cur_space s) (p_msr s) (p_log s).
Definition set_heap (x : Heap) (s : Proc) : Proc :=
  mkProc (p_machine s) (p_kern s) x (p_schemes s) (p_user s) (p_ctx s) (p_tables s) (p_handles s) (p_next_id s) (p_lock s) (p_cur_space s) (p_msr s) (p_log s).
Definition set_user (x : UserMem) (s : Proc) : Proc :=
  mkProc (p_machine s) (p_kern s) (p_heap s) (p_schemes s) x (p_ctx s) (p_tables s) (p_handles s) (p_next_id s) (p_lock s) (p_cur_space s) (p_msr s) (p_log s).
Definition set_pctx (x : gmap Z ProcCtx) (s : Proc) : Proc :=
  mkProc (p_machine s) (p_kern s) (p_heap s) (p_schemes s) (p_user s) x (p_tables s) (p_handles s) (p_next_id s) (p_lock s) (p_cur_space s) (p_msr s) (p_log s).
Definition set_tables (x : gmap Z Table) (s : Proc) : Proc :=
  mkProc (p_machine s) (p_kern s) (p_heap s) (p_schemes s) (p_user s) (p_ctx s) x (p_handles s) (p_next_id s) (p_lock s) (p_cur_space s) (p_msr s) (p_log s).
Definition set_handles (x : gmap Z Handle) (s : Proc) : Proc :=
  mkProc (p_machine s) (p_kern s) (p_heap s) (p_schemes s) (p_user s) (p_ctx s) (p_tables s) x (p_next_id s) (p_lock s) (p_cur_space s) (p_msr s) (p_log s).
Definition set_next (x : Z) (s : Proc) : Proc :=
  mkProc (p_machine s) (p_kern s) (p_heap s) (p_schemes s) (p_user s) (p_ctx s) (p_tables s) (p_handles s) x (p_lock s) (p_cur_space s) (p_msr s) (p_log s).
Definition set_lock (x : bool) (s : Proc) : Proc :=
  mkProc (p_machine s) (p_kern s) (p_heap s) (p_schemes s) (p_user s) (p_ctx s) (p_tables s) (p_handles s) (p_next_id s) x (p_cur_space s) (p_msr s) (p_log s).
Definition set_cur_space (x : option Z) (s : Proc) : Proc :=
  mkProc (p_machine s) (p_kern s) (p_heap s) (p_schemes s) (p_user s) (p_ctx s) (p_tables s) (p_handles s) (p_next_id s) (p_lock s) x (p_msr s) (p_log s).
Definition set_msr (x : EnvRegisters) (s : Proc) : Proc :=
  mkProc (p_machine s) (p_kern s) (p_heap s) (p_schemes s) (p_user s) (p_ctx s) (p_tables s) (p_handles s) (p_next_id s) (p_lock s) (p_cur_space s) x (p_log s).
Definition add_log (x : list Effect) (s : Proc) : Proc :=
  mkProc (p_machine s) (p_kern s) (p_heap s) (p_schemes s) (p_user s) (p_ctx s) (p_tables s) (p_handles s) (p_next_id s) (p_lock s) (p_cur_space s) (p_msr s) (p_log s ++ x).

Definition in_machine {A} : M Machine A -> M Proc A := zoom p_machine set_machine.
Definition in_kern {A} : M Kernel A -> M Proc A := zoom p_kern set_kern.
Definition in_pheap {A} : M Heap A -> M Proc A := zoom p_heap set_heap.
Definition in_user {A} : M UserMem A -> M Proc A := zoom p_user set_user.

(** A context, with the parts of it that the scheduler has and those it has not. *)
Definition sched_part (cid : Z) : M Proc Ctx := in_machine (on_sched (the_ctx cid)).
Definition update_sched (cid : Z) (f : Ctx -> Ctx) : M Proc unit := in_machine (on_sched (update_ctx cid f)).
Definition proc_part (cid : Z) : M Proc ProcCtx := fun s => unwrap (p_ctx s !! cid) s.
Definition update_proc (cid : Z) (f : ProcCtx -> ProcCtx) : M Proc unit :=
  let! c := proc_part cid in modify (fun s => set_pctx (<[cid := f c]> (p_ctx s)) s).
Definition cur_context : M Proc Z := in_machine current.
Definition put_status (st : Status) (c : Ctx) : Ctx := set_status st (status_reason c) c.

(** ** Address spaces and file tables that are not used any more *)

Definition borrows_from (sid : Z) (a : AddrSpace) : bool :=
  existsb (fun '(_, i) => match provider i with Grants.External a' _ _ => a' =? sid | _ => false end) (inner (grants a)).
Definition space_used (s : Proc) (sid : Z) : bool :=
  bool_decide (p_cur_space s = Some sid) ||
  existsb (fun '(_, h) => bool_decide (handle_space (h_kind h) = Some sid)) (map_to_list (p_handles s)) ||
  existsb (fun '(_, c) => bool_decide (pc_addr_space c = Some sid)) (map_to_list (p_ctx s)) ||
  existsb (fun '(_, a) => borrows_from sid a) (map_to_list (spaces (p_kern s))).
Definition table_used (s : Proc) (t : Z) : bool :=
  existsb (fun '(_, h) => bool_decide (handle_table (h_kind h) = Some t)) (map_to_list (p_handles s)) ||
  existsb (fun '(_, c) => pc_files c =? t) (map_to_list (p_ctx s)).

(** [handle_notify_files] *)
Definition notify_files (l : list UnmapResult) : M Proc unit := modify (add_log (map Notify l)).
(** [Vec<UnmapResult>] dropped: the descriptions lose a reference. *)
Definition drop_results (l : list UnmapResult) : M Proc unit :=
  forM l (fun r => match file_desc r with Some f => in_pheap (arc_drop (Grants.description f)) | None => ret tt end).

(** An [Arc<AddrSpaceWrapper>] dropped; [Drop for AddrSpace] tells the owners of
    the files. *)
Definition release_space (sid : Z) : M Proc unit :=
  let! used := gets (fun s => space_used s sid) in
  if used then ret tt
  else
    let! rs := in_kern (AddrSpace_drop dbg sid) in
    in_kern (modify (fun k => set_spaces (delete sid (spaces k)) k)) ;;;
    notify_files rs.

(** The descriptors of a table. *)
Definition table_fds (t : Table) : list FileDescriptor := omap id (posix_fdtbl t ++ upper_fdtbl t).

(** An [Arc<RwLock<FdTbl>>] dropped: a table that nobody uses any more is freed
    with its descriptors, which are not closed. *)
Definition release_table (t : Z) : M Proc unit :=
  let! used := gets (fun s => table_used s t) in
  if used then ret tt
  else
    let! table := fun s => unwrap (p_tables s !! t) s in
    modify (fun s => set_tables (delete t (p_tables s)) s) ;;;
    forM (table_fds table) (fun fd => in_pheap (arc_drop (Files.description fd))).

Definition release_handle (h : Handle) : M Proc unit :=
  (match handle_space (h_kind h) with Some a => release_space a | None => ret tt end) ;;;
  match handle_table (h_kind h) with Some t => release_table t | None => ret tt end.

(** [Weak::upgrade] of a file table *)
Definition upgrade (t : Z) : M Proc (result Error Z) :=
  let! used := gets (fun s => table_used s t) in if used then ok t else err EOWNERDEAD.

(** Where the next space or table is allocated. *)
Definition fresh_key {A} (m : gmap Z A) : Z := map_fold (fun k _ n => Z.max n (k + 1)) 1 m.

(** ** The context of a handle *)

Definition is_current_context (c : Ctx) (cpu : Z) : bool := running c && bool_decide (cpu_id c = Some cpu).

(** Run an operation on the CPUs that use a space. *)
Definition in_used_by (sid : Z) (m : M LogicalCpuSet unit) : M Kernel unit :=
  let! a := get_space sid in
  fun k => match m (used_by a) with
           | Done (_, cpus) => put_space sid (mkAddrSpace (utable a) (grants a) cpus (mmap_min a) (pagequeue a) (dirty a)) k
           | Panic => Panic
           end.

(** [Context::set_addr_space]; the space it returns has yet to be dropped. *)
Definition set_addr_space (cid : Z) (addr_space : option Z) : M Proc (option Z) :=
  let! c := sched_part cid in
  let! pc := proc_part cid in
  if match pc_addr_space pc, addr_space with Some old, Some new => old =? new | _, _ => false end then ret addr_space
  else
    let! cpu := gets (fun s => this_cpu (m_sched (p_machine s))) in
    (if is_current_context c cpu then
       (match pc_addr_space pc with
        | Some prev_addrsp =>
            let! cur := gets p_cur_space in
            assert_ (bool_decide (cur = Some prev_addrsp)) ;;;
            in_kern (in_used_by prev_addrsp (atomic_clear cpu))
        | None => ret tt
        end) ;;;
       modify (set_cur_space addr_space) ;;;
       match addr_space with
       | Some new => in_kern (in_used_by new (atomic_set cpu))
       | None => ret tt
       end
     else assert_ (negb (running c))) ;;;
    update_proc cid (set_pc_space addr_space) ;;;
    ret (pc_addr_space pc).

(** [Context::regs], [regs_mut] *)
Definition regs (cid : Z) : M Proc (option InterruptStack) :=
  let! c := sched_part cid in
  let! pc := proc_part cid in
  ret (if userspace c then pc_stack pc else None).

Section stop.
(** What happens between stopping a context and taking its lock again: at least
    the loop that gives up the CPU while the context still runs. *)
Context (others : M Proc unit).

Definition try_stop_context {T} (cid : Z) (callback : M Proc (result Error T)) : M Proc (result Error T) :=
  let! cur := cur_context in
  if cid =? cur then callback
  else
    let! c := sched_part cid in
    update_sched cid (put_status (HardBlocked NotYetStarted)) ;;;
    others ;;;
    let! c' := sched_part cid in
    assert_ (negb (running c')) ;;;
    let! r := callback in
    update_sched cid (put_status (status c)) ;;;
    ret r.

Definition write_env_regs (cid : Z) (e : EnvRegisters) : M Proc (result Error unit) :=
  let write (pc : ProcCtx) :=
    match write_env virt_is_valid e (pc_arch pc) with
    | Ok a => update_proc cid (set_pc_arch (fun _ => a)) ;;; ok tt
    | Err er => err er
    end in
  let! cur := cur_context in
  if cid =? cur then
    let! pc := proc_part cid in
    let! msr := gets p_msr in
    match write_current_env virt_is_valid e msr (pc_arch pc) with
    | Ok (msr, a) => modify (set_msr msr) ;;; update_proc cid (set_pc_arch (fun _ => a)) ;;; ok tt
    | Err er => err er
    end
  else try_stop_context cid (let! pc := proc_part cid in write pc).

Definition read_env_regs (cid : Z) : M Proc (result Error EnvRegisters) :=
  let! cur := cur_context in
  if cid =? cur then let! msr := gets p_msr in ok msr
  else try_stop_context cid (let! pc := proc_part cid in ok (read_env (pc_arch pc))).

(** ** Opening *)

(** [NEXT_ID.fetch_add(1)] *)
Definition take_id : M Proc Z :=
  let! id := gets p_next_id in modify (set_next (usize_add id 1)) ;;; ret id.
Definition put_handle (id : Z) (h : Handle) : M Proc unit :=
  modify (fun s => set_handles (<[id := h]> (p_handles s)) s).
Definition get_handle (id : Z) : M Proc (result Error Handle) :=
  let! hs := gets p_handles in ok_or (hs !! id) EBADF.

Definition internal (positioned : bool) : Z := if positioned then POSITIONED else 0.
Definition new_handle (h : Handle) (positioned : bool) : M Proc (result Error (Z * Z)) :=
  let! id := take_id in put_handle id h ;;; ok (id, internal positioned).

(** [context.get_file(fd)], then the scheme of its description. *)
Context (FD_UPPER_TAG : Z).
Definition extract_scheme_number (fd : Z) : M Proc (result Error (KernelSchemes * Z)) :=
  let! cur := cur_context in
  let! pc := proc_part cur in
  let! table := fun s => unwrap (p_tables s !! pc_files pc) s in
  let? file := ok_or (get_file FD_UPPER_TAG table fd) EBADF in
  let! desc := in_pheap (arc_get (Files.description file)) in
  let! schemes := gets p_schemes in
  let? scheme := ok_or (sl_get schemes (fd_scheme desc)) ENODEV in
  ok (scheme, number desc).
Definition verify_scheme (scheme : KernelSchemes) : result Error unit :=
  if bool_decide (scheme = KGlobal GProc) then Ok tt else Err EBADF.

(** [path.strip_prefix(p)] *)
Fixpoint strip_prefix (p s : string) : option string :=
  match p, s with
  | EmptyString, _ => Some s
  | String a p', String b s' => if Ascii.eqb a b then strip_prefix p' s' else None
  | String _ _, EmptyString => None
  end.

(** The text around the first dash. *)
Fixpoint split_dash (s : string) : option (string * string) :=
  match s with
  | EmptyString => None
  | String c s' => if Ascii.eqb c "-"%char then Some (EmptyString, s') else '(a, b) ← split_dash s'; Some (String c a, b)
  end.

(** The handles that need the authority: "auth-<fd>-attrs" and "auth-<fd>-status". *)
Definition open_privileged (nonprefix : string) : M Proc (result Error ContextHandle) :=
  match split_dash nonprefix with
  | None => err ENOENT
  | Some (fd_str, actual_name) =>
      let? auth_fd := ok_or (parse_usize fd_str) ENOENT in
      let? kind := ok_or (if String.eqb actual_name "attrs" then Some HAttr
                          else if String.eqb actual_name "status" then Some (HStatus true) else None) ENOENT in
      let? '(scheme, number_) := extract_scheme_number auth_fd in
      let? _ := ret (verify_scheme scheme) in
      let! hs := gets p_handles in
      match hs !! number_ with
      | Some (mkHandle _ HAuthority) => ok kind
      | _ => err ENOENT
      end
  end.

Definition space_of_context (cid : Z) : M Proc (result Error Z) :=
  let! pc := proc_part cid in ok_or (pc_addr_space pc) ENOENT.

Definition openat_context (path : string) (cid : Z) : M Proc (result Error (option (ContextHandle * bool))) :=
  let simple (k : ContextHandle) (positioned : bool) := ok (Some (k, positioned)) in
  if String.eqb path "addrspace" then let? a := space_of_context cid in simple (HAddrSpace a) true
  else if String.eqb path "filetable" then let! pc := proc_part cid in simple (HFiletable (pc_files pc) false []) true
  else if String.eqb path "filetable-binary" then let! pc := proc_part cid in simple (HFiletable (pc_files pc) true []) true
  else if String.eqb path "current-addrspace" then simple HCurrentAddrSpace false
  else if String.eqb path "current-filetable" then simple HCurrentFiletable false
  else if String.eqb path "regs/float" then simple (HRegs RFloat) false
  else if String.eqb path "regs/int" then simple (HRegs RInt) false
  else if String.eqb path "regs/env" then simple (HRegs REnv) false
  else if String.eqb path "sighandler" then simple HSighandler false
  else if String.eqb path "start" then simple HStart false
  else if String.eqb path "open_via_dup" then simple HOpenViaDup false
  else if String.eqb path "mmap-min-addr" then let? a := space_of_context cid in simple (HMmapMinAddr a) false
  else if String.eqb path "sched-affinity" then simple HSchedAffinity true
  else if String.eqb path "status" then simple (HStatus false) false
  else
    match strip_prefix "auth-" path with
    | Some nonprefix => let? kind := open_privileged nonprefix in simple kind false
    | None => ok None
    end.

(** What a new context gets: the address of its lock, and whether its parts can
    be allocated. *)
Record SpawnEnv := mkSpawn { sp_id : Z; sp_stack_ok : bool; sp_context_ok : bool; sp_addr_space_ok : bool }.

Definition kfx_zero : FloatRegisters := mkFloat 0 (replicate 8 0) [].
(** The fields that [Context::new] sets here, and those of a spawned context: an
    empty address space, and registers to enter user space with. *)
Definition pctx_new (owner files : Z) : ProcCtx :=
  mkPctx None None None files [] (Some owner) 0 0 0 0 (mkArch 0 0 false kfx_zero) None.
Definition pctx_spawned (owner files space : Z) : ProcCtx :=
  mkPctx None None (Some space) files [] (Some owner) 0 0 0 0 (mkArch 0 0 false kfx_zero) (Some (stack_init stack_zero)).

(** [context::spawn(true, Some(owner), ret)] *)
Definition spawn_context (sp : SpawnEnv) (owner : Z) : M Proc (result Error Z) :=
  let! r := in_machine (Scheduler.spawn (sp_stack_ok sp) (sp_context_ok sp) (sp_addr_space_ok sp) (sp_id sp) true) in
  if sp_stack_ok sp && sp_context_ok sp then
    let! t := gets (fun s => fresh_key (p_tables s)) in
    modify (fun s => set_tables (<[t := FdTbl_new]> (p_tables s)) s) ;;;
    match r with
    | Err e => modify (fun s => set_pctx (<[sp_id sp := pctx_new owner t]> (p_ctx s)) s) ;;; err e
    | Ok cid =>
        let! a := gets (fun s => fresh_key (spaces (p_kern s))) in
        in_kern (put_space a AddrSpace_new) ;;;
        modify (fun s => set_pctx (<[cid := pctx_spawned owner t a]> (p_ctx s)) s) ;;;
        ok cid
    end
  else ret r.

Inductive OpenTy := Ctxt (cid : Z) | Auth.

(** The contents of a file table as they are read: the numbers of the open
    descriptors, as words or as lines of text. *)
Definition to_bytes_of (s : string) : list Z := map (fun c => Z.of_nat (nat_of_ascii c)) (list_ascii_of_string s).
Definition open_fds (t : Table) : list Z := omap (fun '(i, fd) => (fun _ => i) <$> fd) (enumerate FD_UPPER_TAG t).
Definition filetable_data (binary_format : bool) (t : Table) : list Z :=
  if binary_format then concat (map (to_ne_bytes 8) (open_fds t))
  else concat (map (fun i => to_bytes_of (pretty (Z.to_N i)) ++ [10]) (open_fds t)).

(** The data is read when the handle is opened. *)
Definition fill_data (kind : ContextHandle) : M Proc (result Error ContextHandle) :=
  match kind with
  | HFiletable t b _ =>
      let? t := upgrade t in
      let! table := fun s => unwrap (p_tables s !! t) s in
      ok (HFiletable t b (filetable_data b table))
  | HNewFiletable t b _ =>
      let! table := fun s => unwrap (p_tables s !! t) s in
      ok (HNewFiletable t b (filetable_data b table))
  | _ => ok kind
  end.

Definition open_inner (sp : SpawnEnv) (ty : OpenTy) (operation_str : option string) : M Proc (result Error (Z * Z)) :=
  match operation_str with
  | None => err EINVAL
  | Some operation_name =>
      match ty with
      | Ctxt cid =>
          let? r := openat_context operation_name cid in
          match r with
          | Some (kind, positioned) =>
              let? kind := fill_data kind in
              new_handle (mkHandle cid kind) positioned
          | None => err EINVAL
          end
      | Auth =>
          if String.eqb operation_name "new-context" then
            let! id := take_id in
            if id =? 0 then err EMFILE
            else
              let? cid := spawn_context sp id in
              put_handle id (mkHandle cid HOpenViaDup) ;;;
              ok (id, 0)
          else if String.eqb operation_name "cur-context" then
            let! cur := cur_context in new_handle (mkHandle cur HOpenViaDup) false
          else err ENOENT
      end
  end.

Definition kopen (path : string) : M Proc (result Error OpenResult) :=
  if negb (String.eqb path "authority") then err ENOENT
  else
    let! locked := gets p_lock in
    modify (set_lock true) ;;;
    if locked then err EEXIST
    else
      let! id := take_id in
      let! cur := cur_context in
      put_handle id (mkHandle cur HAuthority) ;;;
      ok (SchemeLocal id 0).

Definition fevent (id : Z) : M Proc (result Error Z) := let? _ := get_handle id in ok 0.

(** ** Closing *)

(** The change of address space that was asked for takes effect. *)
Definition apply_addr_space (cid new new_sp new_ip : Z) (arg1 : option Z) : M Proc (result Error (option Z)) :=
  let! r := regs cid in
  match r with
  | None => err EBADFD
  | Some _ =>
      update_proc cid (set_pc_stack (fun st => set_arg1 arg1 (set_stack_pointer new_sp (set_instr_pointer new_ip st)))) ;;;
      let! old := set_addr_space cid (Some new) in
      ok old
  end.

Definition close (id : Z) : M Proc (result Error unit) :=
  let? handle := get_handle id in
  modify (fun s => set_handles (delete id (p_handles s)) s) ;;;
  match h_kind handle with
  | HAwaitingAddrSpaceChange new new_sp new_ip arg1 =>
      let! r := try_stop_context (h_context handle) (apply_addr_space (h_context handle) new new_sp new_ip arg1) in
      match r with
      | Err e => release_space new ;;; err e
      | Ok old =>
          (match old with Some a => release_space a | None => ret tt end) ;;;
          modify (add_log [PtraceAddrSpaceSwitch]) ;;;
          ok tt
      end
  | HAwaitingFiletableChange new_ft =>
      let! pc := proc_part (h_context handle) in
      update_proc (h_context handle) (set_pc_files new_ft) ;;;
      release_table (pc_files pc) ;;;
      ok tt
  | _ => release_handle handle ;;; ok tt
  end.

(** ** Duplicating *)

(** [FdTbl::clone]: every descriptor's description gets a reference. *)
Definition clone_table (t : Z) : M Proc Z :=
  let! table := fun s => unwrap (p_tables s !! t) s in
  forM (table_fds table) (fun fd => let! _ := in_pheap (arc_clone (Files.description fd)) in ret tt) ;;;
  let! new := gets (fun s => fresh_key (p_tables s)) in
  modify (fun s => set_tables (<[new := table]> (p_tables s)) s) ;;;
  ret new.

(** [usize::from_str_radix(s, 16)] *)
Definition hex_digit (c : ascii) : option Z :=
  let n := Z.of_nat (nat_of_ascii c) in
  if (48 <=? n) && (n <=? 57) then Some (n - 48)
  else if (97 <=? n) && (n <=? 102) then Some (n - 87)
  else if (65 <=? n) && (n <=? 70) then Some (n - 55)
  else None.
Fixpoint hex_digits (acc : Z) (s : string) : option Z :=
  match s with
  | EmptyString => Some acc
  | String c s' => d ← hex_digit c; if acc * 16 + d <? 2 ^ 64 then hex_digits (acc * 16 + d) s' else None
  end.
Definition from_hex (s : string) : option Z :=
  let body := match s with String c s' => if Ascii.eqb c "+"%char then s' else s | EmptyString => s end in
  match body with EmptyString => None | _ => hex_digits 0 body end.

(** "grant-fd-<address>": the file that is mapped there. *)
Definition grant_fd (addrspace : Z) (rest : list Z) : M Proc (result Error OpenResult) :=
  let? text := ok_or (from_utf8 rest) EINVAL in
  let? page_addr := ok_or (from_hex text) EINVAL in
  if negb (page_addr mod PAGE_SIZE =? 0) then err EINVAL
  else
    let! a := in_kern (get_space addrspace) in
    match UserGrants_contains (grants a) (Page_containing_address page_addr) with
    | None => err EINVAL
    | Some (_, i) =>
        match info_file_ref i with
        | None => err EBADF
        | Some r => let! d := in_pheap (arc_clone (Grants.description r)) in ok (UserCalls.External d)
        end
    end.

Definition dup_addrspace (cid addrspace : Z) (buf : list Z) : M Proc (result Error OpenResult) :=
  let local (kind : ContextHandle) :=
    let? '(r, fl) := new_handle (mkHandle cid kind) true in ok (SchemeLocal r fl) in
  let prefix := to_bytes_of "grant-fd-" in
  if bool_decide (buf = to_bytes_of "empty") then
    let! a := gets (fun s => fresh_key (spaces (p_kern s))) in
    in_kern (put_space a AddrSpace_new) ;;;
    local (HAddrSpace a)
  else if bool_decide (buf = to_bytes_of "exclusive") then
    let! new := gets (fun s => fresh_key (spaces (p_kern s))) in
    let? a := in_kern (try_clone dbg addrspace new) in
    local (HAddrSpace a)
  else if bool_decide (buf = to_bytes_of "mmap-min-addr") then local (HMmapMinAddr addrspace)
  else if bool_decide (take (length prefix) buf = prefix) then grant_fd addrspace (drop (length prefix) buf)
  else err EINVAL.

Definition nonempty (s : string) : option string := if String.eqb s "" then None else Some s.

Definition kdup (sp : SpawnEnv) (old_id : Z) (raw_buf : UserSlice) : M Proc (result Error OpenResult) :=
  let? info := get_handle old_id in
  if 64 <? us_len raw_buf then err EINVAL
  else
    let? buf := in_user (copy_to_slice raw_buf (us_len raw_buf)) in
    let named (ty : OpenTy) :=
      let? name := ok_or (from_utf8 buf) EINVAL in
      let? '(r, fl) := open_inner sp ty (nonempty name) in
      ok (SchemeLocal r fl) in
    match h_kind info with
    | HAuthority => named Auth
    | HOpenViaDup => named (Ctxt (h_context info))
    | HFiletable filetable binary_format data =>
        if negb (bool_decide (buf = to_bytes_of "copy")) then err EINVAL
        else
          let? t := upgrade filetable in
          let! new_filetable := clone_table t in
          let? '(r, fl) := new_handle (mkHandle (h_context info) (HNewFiletable new_filetable binary_format data)) true in
          ok (SchemeLocal r fl)
    | HAddrSpace addrspace => dup_addrspace (h_context info) addrspace buf
    | _ => err EINVAL
    end.

(** ** Mapping *)

(** [AddrSpace::current()] *)
Definition current_space : M Proc (result Error Z) :=
  let! cur := cur_context in let! pc := proc_part cur in ok_or (pc_addr_space pc) ESRCH.

(** The files a mapping displaced are told, or dropped after an error. *)
Definition finish_mapping (r : list UnmapResult * result Error Page) : M Proc (result Error Z) :=
  match r.2 with
  | Ok page => notify_files r.1 ;;; ok (Page_start_address page)
  | Err e => drop_results r.1 ;;; err e
  end.

(** Memory of another address space: borrowed, or moved if [consume]. *)
Definition fmap_addrspace (addrspace dst : Z) (map : Map) (consume : bool) : M Proc (result Error Z) :=
  if addrspace =? dst then err EBUSY
  else
    let? requested := ret (validate_region (map_address map) (map_size map)) in
    let? src_span := ok_or (PageSpan_validate_nonempty (map_offset map) (map_size map)) EINVAL in
    let requested_dst_base := if negb (map_address map =? 0) || fixed (map_flags_ map) then Some (span_base requested) else None in
    if span_count src_span =? 0 then err EINVAL
    else
      let! r := in_kern (
        if consume then move dbg dst (Some addrspace) src_span requested_dst_base (span_count src_span) (map_flags_ map)
        else mmap dbg dst requested_dst_base (span_count src_span) (map_flags_ map) (fun dst_page _ =>
               borrow dbg addrspace (span_base src_span) dst_page (span_count src_span) (map_flags_ map) dst true false)) in
      finish_mapping r.

(** A page of the signal control area, in the space of the caller. *)
Definition fmap_sighandler (cid offset_ : Z) : M Proc (result Error Z) :=
  let! pc := proc_part cid in
  let? sig := ok_or (pc_sig pc) EBADF in
  let? frame := ok_or (if offset_ =? 0 then Some (thread_control sig)
                       else if offset_ =? PAGE_SIZE then Some (proc_control sig) else None) EINVAL in
  let? sid := current_space in
  let! r := in_kern (mmap dbg sid None 1 (mf_of [PROT_READ; PROT_WRITE]) (fun page fl => allocated_shared_one_page dbg frame page fl sid false)) in
  match r.2 with Ok page => ok (Page_start_address page) | Err e => err e end.

Definition kfmap (id dst : Z) (map : Map) (consume : bool) : M Proc (result Error Z) :=
  let? handle := get_handle id in
  match h_kind handle with
  | HAddrSpace addrspace => fmap_addrspace addrspace dst map consume
  | HSighandler => fmap_sighandler (h_context handle) (map_offset map)
  | _ => err EBADF
  end.

(** ** Writing *)

(** What a write returns; [Exits]: the context ends in [exit_this_context]. *)
Inductive Written := Wrote (n : Z) | Exits.
Definition wrote (n : Z) : M Proc (result Error Written) := ok (Wrote n).

(** [buf.usizes()], read one by one *)
Definition next_word (l : list UserSlice) : M Proc (result Error (Z * list UserSlice)) :=
  match l with
  | [] => err EINVAL
  | s :: l' => let? x := in_user (read_usize s) in ok (x, l')
  end.
Definition next_words (n : nat) (l : list UserSlice) : M Proc (result Error (list Z * list UserSlice)) :=
  (fix go n l :=
     match n with
     | O => ok ([], l)
     | S n' => let? '(x, l) := next_word l in let? '(xs, l) := go n' l in ok (x :: xs, l)
     end) n l.

Definition read_exact {A} (c : Codec A) (buf : UserSlice) : M Proc (result Error A) :=
  in_user (limited buf (size_of c) (fun s => let? b := copy_to_slice s (size_of c) in ok (of_bytes c b))).

(** The [kfmap] of the schemes other than this one and the memory scheme. *)
Context (scheme_kfmap : KernelSchemes -> Z -> Z -> Map -> bool -> M Proc (result Error Z)).
Context (custom_flag : Z -> bool -> PageFlags -> PageFlags).

Definition mapped_memory (r : result Error (Z * list UnmapResult)) : M Proc (result Error Z) :=
  match r with Ok (addr, files) => notify_files files ;;; ok addr | Err e => err e end.

Definition dispatch_kfmap (scheme : KernelSchemes) (number_ addrspace : Z) (map : Map) (consume : bool) : M Proc (result Error Z) :=
  match scheme with
  | KGlobal GProc => kfmap number_ addrspace map consume
  | KGlobal GMemory =>
      let! cur := cur_context in
      let! pc := proc_part cur in
      let! r := in_kern (memory_kfmap dbg custom_flag (pc_addr_space pc) number_ addrspace map) in
      mapped_memory r
  | _ => scheme_kfmap scheme number_ addrspace map consume
  end.

(** [ADDRSPACE_OP_MMAP], [ADDRSPACE_OP_TRANSFER]: the result is the address. *)
Definition addrspace_map (op addrspace : Z) (l : list UserSlice) : M Proc (result Error Written) :=
  let? '(fd, l) := next_word l in
  let? '(offset_, l) := next_word l in
  let? '(address, l) := next_word l in
  let? '(size, l) := next_word l in
  let? page_span := ret (validate_region address size) in
  let? '(raw_flags, l) := next_word l in
  let? fl := ok_or (mf_from_bits raw_flags) EINVAL in
  let map := mkMap offset_ (usize_mul (span_count page_span) PAGE_SIZE) fl (Page_start_address (span_base page_span)) in
  let? addr :=
    if fd =? usize_max then
      if op =? ADDRSPACE_OP_TRANSFER then err EOPNOTSUPP
      else let! r := in_kern (fmap_anonymous dbg addrspace map false) in mapped_memory r
    else
      let? '(scheme, number_) := extract_scheme_number fd in
      dispatch_kfmap scheme number_ addrspace map (op =? ADDRSPACE_OP_TRANSFER) in
  wrote addr.

Definition write_addrspace (addrspace : Z) (buf : UserSlice) : M Proc (result Error Written) :=
  let! l := in_user (in_exact_chunks buf 8) in
  let? '(op, l) := next_word l in
  if (op =? ADDRSPACE_OP_MMAP) || (op =? ADDRSPACE_OP_TRANSFER) then addrspace_map op addrspace l
  else if op =? ADDRSPACE_OP_MUNMAP then
    let? '(args, _) := next_words 2 l in
    let? page_span := ret (validate_region (nth 0 args 0) (nth 1 args 0)) in
    let? files := in_kern (munmap dbg addrspace page_span false) in
    drop_results files ;;;
    wrote 24
  else if op =? ADDRSPACE_OP_MPROTECT then
    let? '(args, l) := next_words 2 l in
    let? page_span := ret (validate_region (nth 0 args 0) (nth 1 args 0)) in
    let? '(raw_flags, _) := next_word l in
    let? fl := ok_or (mf_from_bits raw_flags) EINVAL in
    let? _ := in_kern (mprotect dbg addrspace page_span fl) in
    wrote 32
  else err EINVAL.

Definition write_regs (cid : Z) (kind : RegsKind) (buf : UserSlice) : M Proc (result Error Written) :=
  match kind with
  | RFloat =>
      let? r := read_exact float_codec buf in
      try_stop_context cid (
        update_proc cid (set_pc_arch (fun a => set_kfx (set_fx_regs r (kfx a)) a)) ;;;
        wrote (size_of float_codec))
  | RInt =>
      let? r := read_exact int_codec buf in
      try_stop_context cid (
        let! st := regs cid in
        match st with
        | None => err ENOTRECOVERABLE
        | Some _ => update_proc cid (set_pc_stack (load r)) ;;; wrote (size_of int_codec)
        end)
  | REnv =>
      let? r := read_exact env_codec buf in
      let? _ := write_env_regs cid r in
      wrote (size_of env_codec)
  end.

(** [RaiiFrame]s dropped *)
Definition drop_frame (f : Frame) : M Proc unit := in_kern (with_mem (raii_drop dbg f)).
Definition drop_sig (s : option SignalState) : M Proc unit :=
  match s with Some s => drop_frame (thread_control s) ;;; drop_frame (proc_control s) | None => ret tt end.

Definition validate_off (addr sz : Z) : result Error Z :=
  let off := addr mod PAGE_SIZE in
  if (off mod 8 =? 0) && (off + sz <=? PAGE_SIZE) then Ok off else Err EINVAL.

(** The signal state of a context that names both control areas; the first frame
    is given back if the second cannot be had. *)
Definition make_sig (cid : Z) (data : SetSighandlerData) : M Proc (result Error SignalState) :=
  let! pc := proc_part cid in
  let? addrsp := ok_or (pc_addr_space pc) ESRCH in
  let? threadctl := ret (validate_off (sd_thread_control_addr data) SIGCONTROL_SIZE) in
  let? procctl := ret (validate_off (sd_proc_control_addr data) SIGPROCCONTROL_SIZE) in
  let? handler := ok_or (nonzero (sd_user_handler data)) EINVAL in
  let? tc := in_kern (borrow_frame_enforce_rw_allocated dbg fmap_page addrsp (Page_containing_address (sd_thread_control_addr data))) in
  let! r := in_kern (borrow_frame_enforce_rw_allocated dbg fmap_page addrsp (Page_containing_address (sd_proc_control_addr data))) in
  match r with
  | Err e => drop_frame tc ;;; err e
  | Ok pctl => ok (mkSignalState handler (nonzero (sd_excp_handler data)) tc pctl threadctl procctl)
  end.

Definition write_sighandler (cid : Z) (buf : UserSlice) : M Proc (result Error Written) :=
  let? data := read_exact sig_codec buf in
  if (USER_END_OFFSET <=? sd_user_handler data) || (USER_END_OFFSET <=? sd_excp_handler data) then err EPERM
  else if (USER_END_OFFSET <=? sd_thread_control_addr data) || (USER_END_OFFSET <=? sd_proc_control_addr data) then err EFAULT
  else
    let? state :=
      if negb (sd_thread_control_addr data =? 0) && negb (sd_proc_control_addr data =? 0)
      then let? s := make_sig cid data in ok (Some s) else ok None in
    let! pc := proc_part cid in
    update_proc cid (set_pc_sig state) ;;;
    drop_sig (pc_sig pc) ;;;
    wrote (size_of sig_codec).

Definition write_start (cid : Z) (buf : UserSlice) : M Proc (result Error Written) :=
  let! c := sched_part cid in
  match status c with
  | HardBlocked NotYetStarted => update_sched cid (put_status Runnable) ;;; wrote (us_len buf)
  | _ => err EINVAL
  end.

(** The table of another handle is to become that of the context. *)
Definition write_filetable (id cid : Z) (buf : UserSlice) : M Proc (result Error Written) :=
  let? filetable_fd := in_user (read_usize buf) in
  let? '(scheme, number_) := extract_scheme_number filetable_fd in
  let? _ := ret (verify_scheme scheme) in
  let? entry := get_handle number_ in
  let? filetable :=
    match h_kind entry with
    | HFiletable t _ _ => upgrade t
    | HNewFiletable t binary_format data =>
        put_handle number_ (mkHandle cid (HFiletable t binary_format data)) ;;; ok t
    | _ => err EBADF
    end in
  let? _ := get_handle id in
  put_handle id (mkHandle cid (HAwaitingFiletableChange filetable)) ;;;
  wrote 8.

Definition write_current_addrspace (id cid : Z) (buf : UserSlice) : M Proc (result Error Written) :=
  let! l := in_user (in_exact_chunks buf 8) in
  let? '(args, l) := next_words 3 l in
  let? arg1 := match l with [] => ok None | s :: _ => let? x := in_user (read_usize s) in ok (Some x) end in
  let? '(scheme, number_) := extract_scheme_number (nth 0 args 0) in
  let? _ := ret (verify_scheme scheme) in
  let? entry := get_handle number_ in
  match h_kind entry with
  | HAddrSpace addrspace =>
      let? _ := get_handle id in
      put_handle id (mkHandle cid (HAwaitingAddrSpaceChange addrspace (nth 1 args 0) (nth 2 args 0) arg1)) ;;;
      wrote (match arg1 with Some _ => 32 | None => 24 end)
  | _ => err EBADF
  end.

Definition write_mmap_min (addrspace : Z) (buf : UserSlice) : M Proc (result Error Written) :=
  let? val := in_user (read_usize buf) in
  if negb (val mod PAGE_SIZE =? 0) || (USER_END_OFFSET <? val) then err EINVAL
  else
    in_kern (update_space addrspace (fun a => mkAddrSpace (utable a) (grants a) (used_by a) val (pagequeue a) (dirty a))) ;;;
    wrote 8.

Definition set_affinity (m : LogicalCpuSet) (c : Ctx) : Ctx :=
  mkCtx (status c) (status_reason c) (running c) (cpu_id c) (switch_time c) (cpu_time c) m (inside_syscall c) (wake c)
        (userspace c) (being_sigkilled c) (preempt_locks c) (sig_pending c).
(** [RawMask]: one word for each of [SET_WORDS] *)
Fixpoint mask_words (n : nat) (l : list Z) : list Z :=
  match n with O => [] | S n' => from_ne_bytes (take 8 l) :: mask_words n' (drop 8 l) end.
Definition mask_size : Z := 8 * Z.of_nat SET_WORDS.
Definition write_affinity (cid : Z) (buf : UserSlice) : M Proc (result Error Written) :=
  let? b := in_user (limited buf mask_size (fun s => copy_to_slice s mask_size)) in
  update_sched cid (set_affinity (mask_words SET_WORDS b)) ;;;
  wrote mask_size.

(** *** Status verbs *)

Definition set_killed (c : Ctx) : Ctx :=
  mkCtx Runnable (status_reason c) (running c) (cpu_id c) (switch_time c) (cpu_time c) (sched_affinity c) (inside_syscall c) (wake c)
        (userspace c) true (preempt_locks c) (sig_pending c).

(** A context that kills itself may name memory to be unmapped first. *)
Definition kill_self (cid : Z) (l : list UserSlice) : M Proc (result Error Written) :=
  match l with
  | [] => ok Exits
  | s :: l' =>
      let? base := in_user (read_usize s) in
      let? '(size, _) := next_word l' in
      if 0 <? size then
        let! pc := proc_part cid in
        let? addrsp := ok_or (pc_addr_space pc) ESRCH in
        let? span := ok_or (PageSpan_validate_nonempty base size) EINVAL in
        let? res := in_kern (munmap dbg addrsp span false) in
        notify_files res ;;;
        ok Exits
      else ok Exits
  end.

Definition write_status (cid : Z) (privileged : bool) (buf : UserSlice) : M Proc (result Error Written) :=
  let! l := in_user (in_exact_chunks buf 8) in
  let? '(user_data, l) := next_word l in
  let? verb := ok_or (verb_of user_data) EINVAL in
  match verb with
  | VStop =>
      if negb privileged then err EPERM
      else
        let! c := sched_part cid in
        match status c with
        | Dead => err EOWNERDEAD
        | HardBlocked (AwaitingMmap _) => panic
        | _ => update_sched cid (put_status (HardBlocked Stopped)) ;;; wrote 8
        end
  | VUnstop =>
      if negb privileged then err EPERM
      else
        let! c := sched_part cid in
        (match status c with
         | HardBlocked Stopped => update_sched cid (put_status Runnable)
         | _ => ret tt
         end) ;;;
        wrote 8
  | VInterrupt => let! _ := in_machine (on_sched (unblock cid)) in wrote 8
  | VForceKill =>
      let! cur := cur_context in
      if cid =? cur then kill_self cid l
      else update_sched cid set_killed ;;; wrote 8
  end.

Definition write_attr (cid : Z) (buf : UserSlice) : M Proc (result Error Written) :=
  let? info := read_exact attr_codec buf in
  let name := at_debug_name info in
  let len := Z.min (default (Z.of_nat (length name)) (Z.of_nat <$> (fst <$> list_find (.= 0) name))) CONTEXT_NAME_CAPAC in
  let debug_name := take (Z.to_nat len) name in
  if negb (utf8_valid debug_name) then err EINVAL
  else
    update_proc cid (set_pc_attrs debug_name (at_pid info) (at_ens info) (at_euid info) (at_egid info)) ;;;
    wrote (size_of attr_codec).

Definition kwriteoff (id : Z) (buf : UserSlice) : M Proc (result Error Written) :=
  let? handle := get_handle id in
  let cid := h_context handle in
  match h_kind handle with
  | HAddrSpace addrspace => write_addrspace addrspace buf
  | HRegs kind => write_regs cid kind buf
  | HSighandler => write_sighandler cid buf
  | HStart => write_start cid buf
  | HFiletable _ _ _ | HNewFiletable _ _ _ => err EBADF
  | HCurrentFiletable => write_filetable id cid buf
  | HCurrentAddrSpace => write_current_addrspace id cid buf
  | HMmapMinAddr addrspace => write_mmap_min addrspace buf
  | HSchedAffinity => write_affinity cid buf
  | HStatus privileged => write_status cid privileged buf
  | HAttr => write_attr cid buf
  | _ => err EBADF
  end.

(** ** Reading *)

(** [read_from] *)
Definition read_from (dst : UserSlice) (src : list Z) (offset_ : Z) : M Proc (result Error Z) :=
  let avail_src := if offset_ <=? Z.of_nat (length src) then drop (Z.to_nat offset_) src else [] in
  in_user (copy_common_bytes_from_slice dst avail_src).

Definition read_regs (cid : Z) (kind : RegsKind) (buf : UserSlice) : M Proc (result Error Z) :=
  let? output :=
    match kind with
    | RFloat => let! pc := proc_part cid in ok (to_bytes float_codec (get_fx_regs (kfx (pc_arch pc))))
    | RInt =>
        try_stop_context cid (
          let! st := regs cid in
          match st with
          | None => let! c := sched_part cid in assert_ (negb (running c)) ;;; err ENOTRECOVERABLE
          | Some st => ok (to_bytes int_codec (save st))
          end)
    | REnv => let? e := read_env_regs cid in ok (to_bytes env_codec e)
    end in
  in_user (copy_common_bytes_from_slice buf output).

(** The descriptor of a grant; the offset is all ones for memory that no file
    backs. *)
Definition grant_desc (e : Page * GrantInfo) : GrantDesc :=
  mkGrantDesc (Page_start_address e.1) (usize_mul (page_count e.2) PAGE_SIZE) (grant_flags e.2)
    (match info_file_ref e.2 with Some f => base_offset f | None => 2 ^ 64 - 1 end).

(** Copies as many descriptors as fit. *)
Fixpoint copy_descs (l : list (list Z * UserSlice)) : M UserMem (result Error unit) :=
  match l with
  | [] => ok tt
  | (src, chunk) :: l' => let? _ := copy_exactly chunk src in copy_descs l'
  end.

Definition read_addrspace (addrspace : Z) (buf : UserSlice) (offset_ : Z) : M Proc (result Error Z) :=
  let grants_to_skip := offset_ / size_of grant_codec in
  let! a := in_kern (get_space addrspace) in
  let dst := map grant_desc (take 16 (drop (Z.to_nat grants_to_skip) (inner (grants a)))) in
  let! chunks := in_user (in_exact_chunks buf (size_of grant_codec)) in
  let? _ := in_user (copy_descs (combine (map (to_bytes grant_codec) dst) chunks)) in
  ok (usize_mul (Z.of_nat (length dst)) (size_of grant_codec)).

Definition context_status (c : Ctx) : ContextStatus :=
  match status c with
  | Runnable => if being_sigkilled c then CForceKilled else CRunnable
  | Dead => if being_sigkilled c then CForceKilled else CDead
  | Blocked => CBlocked
  | HardBlocked NotYetStarted => CNotYetStarted
  | HardBlocked Stopped => CStopped
  | HardBlocked (AwaitingMmap _) => COther
  end.

Definition read_status (cid : Z) (buf : UserSlice) : M Proc (result Error Z) :=
  let! c := sched_part cid in
  let! pc := proc_part cid in
  match status c, pc_excp pc with
  | Dead, Some excp =>
      let? '(status_, payload) := ok_or (split_at buf 8) EINVAL in
      let? _ := in_user (copy_from_slice status_ (to_ne_bytes 8 (status_raw CUnhandledExcp))) in
      let? len := in_user (copy_common_bytes_from_slice payload excp) in
      ok (usize_add 8 len)
  | _, _ => in_user (copy_common_bytes_from_slice buf (to_ne_bytes 8 (status_raw (context_status c))))
  end.

Definition read_attr (cid : Z) (buf : UserSlice) : M Proc (result Error Z) :=
  let! pc := proc_part cid in
  let name := take 32 (pc_name pc) in
  let attrs := mkAttrs (pc_pid pc mod 2 ^ 32) (pc_euid pc) (pc_egid pc) (pc_ens pc mod 2 ^ 32) (name ++ replicate (32 - length name) 0) in
  in_user (copy_common_bytes_from_slice buf (to_bytes attr_codec attrs)).

Definition read_sighandler (cid : Z) (buf : UserSlice) : M Proc (result Error Z) :=
  let! pc := proc_part cid in
  let data :=
    match pc_sig pc with
    | Some sig => mkSigData (user_handler sig) (default 0 (excp_handler sig)) (threadctl_off sig) (procctl_off sig)
    | None => mkSigData 0 0 0 0
    end in
  in_user (copy_common_bytes_from_slice buf (to_bytes sig_codec data)).

Definition kreadoff (id : Z) (buf : UserSlice) (offset_ : Z) : M Proc (result Error Z) :=
  let? handle := get_handle id in
  let cid := h_context handle in
  match h_kind handle with
  | HRegs kind => read_regs cid kind buf
  | HAddrSpace addrspace => read_addrspace addrspace buf offset_
  | HFiletable _ _ data => read_from buf data offset_
  | HMmapMinAddr addrspace =>
      let! a := in_kern (get_space addrspace) in
      let? _ := in_user (write_usize buf (mmap_min a)) in
      ok 8
  | HSchedAffinity =>
      let! c := sched_part cid in
      let? _ := in_user (copy_exactly buf (concat (map (to_ne_bytes 8) (sched_affinity c)))) in
      ok mask_size
  | HStatus _ => read_status cid buf
  | HAttr => read_attr cid buf
  | HSighandler => read_sighandler cid buf
  | _ => err EBADF
  end.

(** ** The rest *)

Definition set_io (b : bool) (a : ArchContext) : ArchContext := mkArch (a_fsbase a) (a_gsbase a) b (kfx a).

(** [kcall]: the verb lets the calling context use I/O ports. *)
Definition kcall (id : Z) (metadata : list Z) : M Proc (result Error Z) :=
  let? handle := get_handle id in
  match h_kind handle with
  | HOpenViaDup =>
      let? m := ok_or (head metadata) EINVAL in
      if negb (m <? 256) then err EINVAL
      else if negb (is_iopl m) then err EINVAL
      else
        let! cur := cur_context in
        update_proc cur (set_pc_arch (set_io true)) ;;;
        ok 0
  | _ => err EBADF
  end.

Definition handle_fsize (h : Handle) : Z :=
  match h_kind h with HFiletable _ _ data | HNewFiletable _ _ data => Z.of_nat (length data) | _ => 0 end.
Definition fsize (id : Z) : M Proc (result Error Z) := let? h := get_handle id in ok (handle_fsize h).

Definition kfpath (buf : UserSlice) : M Proc (result Error Z) :=
  in_user (copy_common_bytes_from_slice buf (to_bytes_of "/scheme/kernel.proc/")).

(** [Context::sigcontrol_raw]: the checks that it makes of a signal state. *)
Definition sigcontrol_check (off : Z) : M Proc unit :=
  assert_ (off mod 8 =? 0) ;;; assert_ (saturating_add off SIGCONTROL_SIZE <? PAGE_SIZE).
Definition sigcontrol (cid : Z) : M Proc (option SignalState) :=
  let! pc := proc_part cid in
  match pc_sig pc with
  | None => ret None
  | Some sig => sigcontrol_check (procctl_off sig) ;;; sigcontrol_check (threadctl_off sig) ;;; ret (Some sig)
  end.

End stop.
End proc.
