(* ===== verification/ProcSchemeSpec.v ===== *)
(** * Properties of the process scheme

    Who can get the handles that give power over other contexts, what stopping a
    context means to the scheduler, and how a context changes its address space. *)

From S2P Require Import Timeouts FileOps UserCalls.
From S2P Require Import Prelude PageInfo FrameAllocator Rmm OrdMap Grants CpuSet AddrSpace AddrSpaceSpec PageFault UserCopy Sync FdTbl Scheduler SchedulerSpec Schemes Files CaptureSpec Registers MemoryScheme ProcScheme.
#[local] Open Scope Z_scope.

(** ** The authority *)

Section authority.
Context {PFA : PageFlagsApi} {MFA : MapFlagsApi} {PMA : PageMapperApi} {PP : ProcParams}.
Context (dbg : bool).
Context (fmap_page : GrantFileRef -> Z -> MapFlags -> M Kernel (result PfError Frame)).
Context (virt_is_valid : Z -> bool).
Context (others : M Proc unit) (FD_UPPER_TAG : Z).
Context (scheme_kfmap : KernelSchemes -> Z -> Z -> Map -> bool -> M Proc (result Error Z)).
Context (custom_flag : Z -> bool -> PageFlags -> PageFlags).

(** Handles that only the holder of the authority can open, and the authority. *)
Definition privileged (k : ContextHandle) : bool := match k with HAttr | HStatus true => true | _ => false end.
Definition is_authority (k : ContextHandle) : bool := match k with HAuthority => true | _ => false end.
Definition special (k : ContextHandle) : bool := privileged k || is_authority k.
Definition authority (s : Proc) (id : Z) : Prop := exists cid, p_handles s !! id = Some (mkHandle cid HAuthority).

(** No handle of the two kinds has appeared. *)
Definition grew (s s' : Proc) : Prop :=
  p_lock s' = p_lock s /\
  forall id h, p_handles s' !! id = Some h -> p_handles s !! id = Some h \/ special (h_kind h) = false.
#[local] Instance grew_preorder : PreOrder grew.
Proof.
  split; [by split; [|left]|]. intros x y z [L1 H1] [L2 H2]. split; [congruence|].
  intros id h Hz. destruct (H2 _ _ Hz) as [Hy|Hs]; [by apply H1|by right].
Qed.
Definition same_handles (s s' : Proc) : Prop := p_lock s' = p_lock s /\ p_handles s' = p_handles s.
#[local] Instance same_handles_preorder : PreOrder same_handles.
Proof. split; [done|]. intros x y z [L1 H1] [L2 H2]. split; congruence. Qed.

Lemma same_grew {A} (m : M Proc A) : keeps same_handles m -> keeps grew m.
Proof. intros H s x s' Hs. destruct (H _ _ _ Hs) as [Hl Hh]. split; [done|]. rewrite Hh. by left. Qed.

Lemma keeps_zoom {A X} (get : Proc -> A) put (m : M A X) : (forall a s, same_handles s (put a s)) -> keeps same_handles (zoom get put m).
Proof. intros Hp s x s'. unfold zoom. destruct (m (get s)) as [[y a]|]; [|done]. by intros [= <- <-]. Qed.
Lemma keeps_modify_same (f : Proc -> Proc) : (forall s, same_handles s (f s)) -> keeps same_handles (modify f).
Proof. intros Hf s x s' [= <- <-]. apply Hf. Qed.
Lemma keeps_in_machine {A} (m : M Machine A) : keeps same_handles (in_machine m).
Proof. by apply keeps_zoom. Qed.
Lemma keeps_in_kern {A} (m : M Kernel A) : keeps same_handles (in_kern m).
Proof. by apply keeps_zoom. Qed.
Lemma keeps_in_pheap {A} (m : M Heap A) : keeps same_handles (in_pheap m).
Proof. by apply keeps_zoom. Qed.
Lemma keeps_in_user {A} (m : M UserMem A) : keeps same_handles (in_user m).
Proof. by apply keeps_zoom. Qed.
Lemma keeps_read {A} (g : Proc -> option A) : keeps same_handles (fun s => unwrap (g s) s).
Proof. intros s x s'. destruct (g s); [|done]. by intros [= <- <-]. Qed.
#[local] Hint Resolve keeps_in_machine keeps_in_kern keeps_in_pheap keeps_in_user : keeps.
#[local] Hint Extern 1 (keeps same_handles (fun s => unwrap _ s)) => apply keeps_read : keeps.
#[local] Hint Extern 1 (keeps same_handles (modify _)) => apply keeps_modify_same; done : keeps.
#[local] Hint Extern 2 (keeps grew _) => apply same_grew : keeps.

Lemma keeps_proc_part cid : keeps same_handles (proc_part cid).
Proof. apply (keeps_read (fun s => p_ctx s !! cid)). Qed.
Lemma keeps_sched_part cid : keeps same_handles (sched_part cid).
Proof. apply keeps_in_machine. Qed.
Lemma keeps_update_sched cid f : keeps same_handles (update_sched cid f).
Proof. apply keeps_in_machine. Qed.
Lemma keeps_cur_context : keeps same_handles cur_context.
Proof. apply keeps_in_machine. Qed.
#[local] Hint Resolve keeps_proc_part keeps_sched_part keeps_update_sched keeps_cur_context : keeps.
Lemma keeps_update_proc cid f : keeps same_handles (update_proc cid f).
Proof. unfold update_proc. keep. Qed.
Lemma keeps_ok_or {E A} (o : option A) (e : E) : keeps same_handles (ok_or o e).
Proof. apply keep_ret, _. Qed.
Lemma keeps_get_handle id : keeps same_handles (get_handle id).
Proof. unfold get_handle. keep. Qed.
#[local] Hint Resolve keeps_update_proc keeps_ok_or keeps_get_handle : keeps.

Lemma keeps_release_space sid : keeps same_handles (release_space dbg sid).
Proof. unfold release_space, notify_files. keep. Qed.
Lemma keeps_release_table t : keeps same_handles (release_table t).
Proof. unfold release_table. keep. Qed.
#[local] Hint Resolve keeps_release_space keeps_release_table : keeps.
Lemma keeps_release_handle h : keeps same_handles (release_handle dbg h).
Proof. unfold release_handle. keep. Qed.
Lemma keeps_set_addr_space cid a : keeps same_handles (set_addr_space cid a).
Proof. unfold set_addr_space. keep. Qed.
Lemma keeps_regs cid : keeps same_handles (regs cid).
Proof. unfold regs. keep. Qed.
Lemma keeps_upgrade t : keeps same_handles (upgrade t).
Proof. unfold upgrade. keep. Qed.
Lemma keeps_extract fd : keeps same_handles (extract_scheme_number FD_UPPER_TAG fd).
Proof. unfold extract_scheme_number. keep. Qed.
#[local] Hint Resolve keeps_release_handle keeps_set_addr_space keeps_regs keeps_upgrade keeps_extract : keeps.
Lemma keeps_open_privileged n : keeps same_handles (open_privileged FD_UPPER_TAG n).
Proof. unfold open_privileged. keep. Qed.
Lemma keeps_openat path cid : keeps same_handles (openat_context FD_UPPER_TAG path cid).
Proof. unfold openat_context, space_of_context. pose proof keeps_open_privileged. keep. Qed.
Lemma keeps_fill_data k : keeps same_handles (fill_data FD_UPPER_TAG k).
Proof. unfold fill_data. keep. Qed.
Lemma keeps_spawn sp o : keeps same_handles (spawn_context sp o).
Proof. unfold spawn_context. keep. Qed.
Lemma keeps_take_id : keeps same_handles take_id.
Proof. unfold take_id. keep. Qed.
#[local] Hint Resolve keeps_openat keeps_fill_data keeps_spawn keeps_take_id : keeps.

(** *** Every operation but [kopen] and [kdup] *)

Lemma keeps_put_handle id h : special (h_kind h) = false -> keeps grew (put_handle id h).
Proof.
  intros Hs s x s' [= <- <-]. split; [done|]. cbn. intros j h' Hj.
  apply lookup_insert_Some in Hj as [[_ <-]|[_ Hj]]; [by right|by left].
Qed.
Lemma keeps_delete_handle id : keeps grew (modify (fun s => set_handles (delete id (p_handles s)) s)).
Proof. intros s x s' [= <- <-]. split; [done|]. cbn. intros j h Hj. apply lookup_delete_Some in Hj as [_ Hj]. by left. Qed.
#[local] Hint Resolve keeps_delete_handle : keeps.
#[local] Hint Extern 1 (keeps grew (put_handle _ _)) => apply keeps_put_handle; reflexivity : keeps.
#[local] Hint Extern 1 (keeps grew (modify _)) => apply same_grew, keeps_modify_same; done : keeps.
Lemma keeps_grew_handle id : keeps grew (get_handle id).
Proof. apply same_grew, keeps_get_handle. Qed.

(** What the rest of the system does meanwhile hands out no such handle. *)
Hypothesis others_grew : keeps grew others.
Hypothesis scheme_kfmap_grew : forall scheme n a m c, keeps grew (scheme_kfmap scheme n a m c).
#[local] Hint Resolve others_grew scheme_kfmap_grew : keeps.

Lemma keeps_try_stop {X} cid (callback : M Proc (result Error X)) : keeps grew callback -> keeps grew (try_stop_context others cid callback).
Proof. intros Hc. unfold try_stop_context. keep. Qed.

Lemma keeps_close id : keeps grew (close dbg others id).
Proof.
  unfold close, try_stop_context, apply_addr_space. keep; by apply same_grew; keep.
Qed.

Lemma keeps_kfmap id dst map consume : keeps grew (kfmap dbg id dst map consume).
Proof. unfold kfmap, fmap_addrspace, fmap_sighandler, finish_mapping, drop_results, notify_files, current_space. apply same_grew. keep. Qed.
#[local] Hint Resolve keeps_kfmap : keeps.

Lemma keeps_next_word l : keeps same_handles (next_word l).
Proof. unfold next_word. keep. Qed.
#[local] Hint Resolve keeps_next_word : keeps.
Lemma keeps_next_words n l : keeps same_handles (next_words n l).
Proof. unfold next_words. revert l. induction n as [|n IH]; intros l; keep. Qed.
Lemma keeps_mapped_memory r : keeps same_handles (mapped_memory r).
Proof. unfold mapped_memory, notify_files. keep. Qed.
#[local] Hint Resolve keeps_next_words keeps_mapped_memory : keeps.

Lemma keeps_write_addrspace a buf : keeps grew (write_addrspace dbg FD_UPPER_TAG scheme_kfmap custom_flag a buf).
Proof.
  unfold write_addrspace, addrspace_map, dispatch_kfmap, drop_results, wrote.
  keep; try (by apply same_grew; keep).
Qed.
Lemma keeps_write_regs cid kind buf : keeps grew (write_regs virt_is_valid others cid kind buf).
Proof.
  unfold write_regs, write_env_regs, read_exact, wrote. pose proof (@keeps_try_stop) as Hs.
  keep; try (by apply same_grew; keep); try (apply Hs; apply same_grew; keep).
Qed.
Lemma keeps_write_sighandler cid buf : keeps grew (write_sighandler dbg fmap_page cid buf).
Proof. unfold write_sighandler, make_sig, read_exact, drop_sig, drop_frame, wrote. apply same_grew. keep. Qed.
Lemma keeps_write_filetable id cid buf : keeps grew (write_filetable FD_UPPER_TAG id cid buf).
Proof. unfold write_filetable, wrote. keep; by apply same_grew; keep. Qed.
Lemma keeps_write_current_addrspace id cid buf : keeps grew (write_current_addrspace FD_UPPER_TAG id cid buf).
Proof. unfold write_current_addrspace, wrote. keep; by apply same_grew; keep. Qed.
Lemma keeps_write_status cid b buf : keeps grew (write_status dbg cid b buf).
Proof. unfold write_status, kill_self, notify_files, wrote. apply same_grew. keep. Qed.
#[local] Hint Resolve keeps_write_addrspace keeps_write_regs keeps_write_sighandler keeps_write_filetable keeps_write_current_addrspace keeps_write_status : keeps.

Lemma keeps_kwriteoff id buf :
  keeps grew (kwriteoff dbg fmap_page virt_is_valid others FD_UPPER_TAG scheme_kfmap custom_flag id buf).
Proof.
  unfold kwriteoff, write_start, write_mmap_min, write_affinity, write_attr, read_exact, wrote.
  apply keep_bind_result; [typeclasses eauto|apply keeps_grew_handle|]. intros h. destruct (h_kind h); keep; by apply same_grew; keep.
Qed.

Lemma keeps_kreadoff id buf off : keeps grew (kreadoff others id buf off).
Proof.
  unfold kreadoff, read_regs, read_env_regs, read_addrspace, read_from, read_status, read_attr, read_sighandler.
  pose proof (@keeps_try_stop) as Hs.
  apply keep_bind_result; [typeclasses eauto|apply keeps_grew_handle|]. intros h.
  destruct (h_kind h) as [| | |[]| | | | | | | | | | | |]; keep; try (by apply same_grew; keep); try (apply Hs; apply same_grew; keep).
Qed.

Lemma keeps_kcall id md : keeps grew (kcall id md).
Proof. unfold kcall. apply same_grew. keep. Qed.

(** *** Duplicating *)

Definition dup_ok (s s' : Proc) : Prop :=
  p_lock s' = p_lock s /\
  forall id h, p_handles s' !! id = Some h -> p_handles s !! id = Some h \/
    (is_authority (h_kind h) = false /\ (privileged (h_kind h) = true -> exists a, authority s a)).

Lemma grew_dup s s' : grew s s' -> dup_ok s s'.
Proof.
  intros [Hl Hh]. split; [done|]. intros id h H. destruct (Hh _ _ H) as [|Hs]; [by left|right].
  unfold special in Hs. apply orb_false_iff in Hs as [Hp Ha]. split; [done|congruence].
Qed.
Lemma same_dup s s1 s' : same_handles s s1 -> dup_ok s1 s' -> dup_ok s s'.
Proof. intros [Hl Hh] [Hl' Hh']. unfold dup_ok, authority. rewrite <- Hl, <- Hh. split; [congruence|]. exact Hh'. Qed.

(** A bind whose first part only reads. *)
Lemma dup_bind {A B} (m : M Proc (result Error A)) (k : A -> M Proc (result Error B)) s r s' :
  keeps same_handles m -> bind_result m k s = Done (r, s') ->
  (forall a s1, m s = Done (Ok a, s1) -> same_handles s s1 -> k a s1 = Done (r, s') -> dup_ok s1 s') -> dup_ok s s'.
Proof.
  intros Hm H Hk. apply bind_Done_inv in H as ([a|e] & s1 & H1 & H); pose proof (Hm _ _ _ H1) as Hs1.
  - apply (same_dup s s1); [done|]. by apply (Hk a).
  - injection H as _ <-. apply (same_dup s s1); [done|]. apply grew_dup. reflexivity.
Qed.

Lemma open_privileged_ok n s k s' : open_privileged FD_UPPER_TAG n s = Done (Ok k, s') ->
  is_authority k = false /\ exists a, authority s' a.
Proof.
  unfold open_privileged. destruct (split_dash n) as [[fd name]|]; [|done].
  intros ([a|] & s1 & _ & H)%bind_Done_inv; [|done].
  apply bind_Done_inv in H as ([k0|] & s2 & Hk & H); [|done].
  apply bind_Done_inv in H as ([[sch num]|] & s3 & _ & H); [|done].
  apply bind_Done_inv in H as ([u|] & s4 & _ & H); [|done].
  unfold bind, gets in H. destruct (p_handles s4 !! num) as [[c []]|] eqn:E; try done.
  injection H as <- <-. split; [|by exists num, c].
  destruct (String.eqb name "attrs"); [by injection Hk as <-|]. destruct (String.eqb name "status"); [by injection Hk as <-|done].
Qed.

Lemma openat_ok path cid s k pos s' : openat_context FD_UPPER_TAG path cid s = Done (Ok (Some (k, pos)), s') ->
  special k = false \/ (is_authority k = false /\ exists a, authority s' a).
Proof.
  unfold openat_context, space_of_context.
  repeat match goal with |- (if String.eqb path ?x then _ else _) s = _ -> _ => destruct (String.eqb path x) end;
  try (intros [= <- <- <-]; by left);
  try (intros (pc & s1 & _ & H)%bind_Done_inv; try destruct pc; (injection H as <- <- <- || done); by left).
  destruct (strip_prefix "auth-" path) as [n|]; [|done].
  intros ([k0|] & s1 & H1 & H)%bind_Done_inv; [|done]. injection H as <- <- <-. right. by eapply open_privileged_ok.
Qed.

Lemma fill_data_kind k s k' s' : fill_data FD_UPPER_TAG k s = Done (Ok k', s') ->
  is_authority k' = is_authority k /\ privileged k' = privileged k.
Proof.
  destruct k; cbn; try (by intros [= <- <-]).
  - intros (t & s1 & _ & H)%bind_Done_inv. by injection H as <- <-.
  - intros ([t|] & s1 & _ & H)%bind_Done_inv; [|done]. apply bind_Done_inv in H as (t' & s2 & _ & H). by injection H as <- <-.
Qed.

Lemma new_handle_dup h pos s r s' : new_handle h pos s = Done (r, s') ->
  (is_authority (h_kind h) = false /\ (privileged (h_kind h) = true -> exists a, authority s a)) -> dup_ok s s'.
Proof.
  intros [= <- <-] Hh. split; [done|]. cbn. intros id h' [[_ <-]|[_ Hj]]%lookup_insert_Some; [by right|by left].
Qed.

Lemma open_inner_dup sp ty op s r s' : open_inner FD_UPPER_TAG sp ty op s = Done (r, s') -> dup_ok s s'.
Proof.
  unfold open_inner. destruct op as [name|]; [|intros [= <- <-]; apply grew_dup; reflexivity].
  destruct ty as [cid|].
  - intros H. apply (dup_bind _ _ _ _ _ (keeps_openat name cid) H). intros [[k pos]|] s1 Ho Hs1 H1.
    + apply (dup_bind _ _ _ _ _ (keeps_fill_data k) H1). intros k' s2 Hf [_ Hh] H2.
      destruct (fill_data_kind _ _ _ _ Hf) as [Ea Ep]. apply (new_handle_dup _ _ _ _ _ H2). cbn. rewrite Ea, Ep.
      unfold authority. rewrite Hh. destruct (openat_ok _ _ _ _ _ _ Ho) as [Hk|[Hk Ha]]; [|done].
      unfold special in Hk. apply orb_false_iff in Hk as [-> ->]. done.
    + injection H1 as _ <-. apply grew_dup. reflexivity.
  - intros H. apply grew_dup. revert s r s' H. change (keeps grew (if String.eqb name "new-context" then
      let! id := take_id in if id =? 0 then err EMFILE else let? cid := spawn_context sp id in put_handle id (mkHandle cid HOpenViaDup) ;;; ok (id, 0)
    else if String.eqb name "cur-context" then let! cur := cur_context in new_handle (mkHandle cur HOpenViaDup) false
    else err ENOENT)).
    unfold new_handle. keep; by apply same_grew; keep.
Qed.

Lemma kdup_dup sp id buf s r s' : kdup dbg FD_UPPER_TAG sp id buf s = Done (r, s') -> dup_ok s s'.
Proof.
  unfold kdup. intros H. apply (dup_bind _ _ _ _ _ (keeps_get_handle id) H). clear H. intros info s1 _ _ H.
  case_match; [injection H as _ <-; apply grew_dup; reflexivity|].
  apply (dup_bind _ _ _ _ _ (keeps_in_user _) H). clear H. intros b s2 _ _ H.
  assert (Hn : forall ty, (let? name := ok_or (from_utf8 b) EINVAL in
      let? '(r, fl) := open_inner FD_UPPER_TAG sp ty (nonempty name) in ok (SchemeLocal r fl)) s2 = Done (r, s') -> dup_ok s2 s').
  { intros ty Hty. apply (dup_bind _ _ _ _ _ (keeps_ok_or _ _) Hty). intros name s3 _ _ Ho.
    apply bind_Done_inv in Ho as ([[i fl]|e] & s4 & Ho & Hr); injection Hr as _ <-; by eapply open_inner_dup. }
  destruct (h_kind info); try (by eapply Hn); try (injection H as _ <-; apply grew_dup; reflexivity); apply grew_dup; revert H;
    match goal with |- ?m s2 = _ -> _ => enough (Hk : keeps grew m) by apply Hk end.
  - unfold clone_table, new_handle. keep; by apply same_grew; keep.
  - unfold dup_addrspace, grant_fd, new_handle. keep; by apply same_grew; keep.
Qed.

(** *** All operations of the scheme *)

Inductive Call :=
| COpen (path : string)
| CDup (sp : SpawnEnv) (id : Z) (buf : UserSlice)
| CClose (id : Z)
| CFmap (id dst : Z) (map : Map) (consume : bool)
| CRead (id : Z) (buf : UserSlice) (off : Z)
| CWrite (id : Z) (buf : UserSlice)
| CCall (id : Z) (metadata : list Z)
| CEvent (id : Z)
| CSize (id : Z)
| CPath (buf : UserSlice).

Definition run_call (c : Call) : M Proc unit :=
  let done {A} (m : M Proc A) : M Proc unit := let! _ := m in ret tt in
  match c with
  | COpen path => done (kopen path)
  | CDup sp id buf => done (kdup dbg FD_UPPER_TAG sp id buf)
  | CClose id => done (close dbg others id)
  | CFmap id dst map consume => done (kfmap dbg id dst map consume)
  | CRead id buf off => done (kreadoff others id buf off)
  | CWrite id buf => done (kwriteoff dbg fmap_page virt_is_valid others FD_UPPER_TAG scheme_kfmap custom_flag id buf)
  | CCall id metadata => done (kcall id metadata)
  | CEvent id => done (fevent id)
  | CSize id => done (fsize id)
  | CPath buf => done (kfpath buf)
  end.
Definition pstep (s s' : Proc) : Prop := exists c, run_call c s = Done (tt, s').

(** There is at most one authority, and none before it was opened. *)
Definition auth_inv (s : Proc) : Prop :=
  (p_lock s = false -> forall i, ~ authority s i) /\ (forall i j, authority s i -> authority s j -> i = j).

(** What holds between the states before and after any calls: the lock stays,
    and once it is set, the authority does not come back when it is closed, and
    without it no privileged handle appears. *)
Definition confined (s s' : Proc) : Prop :=
  auth_inv s' /\
  (p_lock s = true -> p_lock s' = true /\ (forall i, authority s' i -> authority s i) /\
   ((forall i, ~ authority s i) -> forall id h, p_handles s' !! id = Some h -> privileged (h_kind h) = true -> p_handles s !! id = Some h)).

Lemma dup_confined s s' : auth_inv s -> dup_ok s s' -> confined s s'.
Proof.
  intros [I1 I2] [Hl Hh]. assert (Ha : forall i, authority s' i -> authority s i).
  { intros i [c Hc]. destruct (Hh _ _ Hc) as [H|[H _]]; [by exists c|done]. }
  split; [split|].
  - rewrite Hl. intros Hf i Hi. by apply (I1 Hf i), Ha.
  - intros i j Hi Hj. apply I2; by apply Ha.
  - intros Ht. split; [congruence|]. split; [exact Ha|]. intros Hno id h Hid Hp.
    destruct (Hh _ _ Hid) as [H|[_ H]]; [done|]. destruct (H Hp) as [a Hau]. by destruct (Hno a).
Qed.

Lemma kopen_confined path s r s' : auth_inv s -> kopen path s = Done (r, s') -> confined s s'.
Proof.
  intros HI. assert (Hs : forall x, same_handles s x -> confined s x).
  { intros x [Hl Hh]. apply dup_confined; [done|]. split; [done|]. rewrite Hh. by left. }
  unfold kopen. destruct (negb _); [intros [= _ <-]; by apply Hs|].
  unfold bind at 1, gets. destruct (p_lock s) eqn:El; unfold bind at 1, modify.
  - intros [= _ <-]. by apply Hs.
  - intros (id & s1 & Hid & H)%bind_Done_inv. injection Hid as <- <-.
    apply bind_Done_inv in H as (cur & s2 & [L2 H2]%keeps_cur_context & H). injection H as _ <-.
    assert (Ha : forall i, authority (set_handles (<[p_next_id (set_lock true s) := mkHandle cur HAuthority]> (p_handles s2)) s2) i -> i = p_next_id s).
    { intros i [c Hc]. cbn in Hc. apply lookup_insert_Some in Hc as [[<- _]|[_ Hc]]; [done|]. rewrite H2 in Hc. destruct (proj1 HI El i). by exists c. }
    split; [split|by rewrite El].
    + cbn. rewrite L2. done.
    + intros i j Hi%Ha Hj%Ha. congruence.
Qed.

Lemma run_call_confined c s s' : auth_inv s -> run_call c s = Done (tt, s') -> confined s s'.
Proof.
  intros HI. assert (Hg : forall A (m : M Proc A), keeps grew m -> (let! _ := m in ret tt) s = Done (tt, s') -> confined s s').
  { intros A m Hm (x & s1 & H1 & [= <-])%bind_Done_inv. apply dup_confined; [done|]. apply grew_dup. by eapply Hm. }
  assert (Hh : forall id, keeps grew (fevent id) /\ keeps grew (fsize id)) by (intros id; split; apply same_grew; unfold fevent, fsize; keep).
  destruct c; cbn [run_call]; try (by apply Hg, keeps_close); try (by apply Hg, keeps_kfmap); try (by apply Hg, keeps_kreadoff);
    try (by apply Hg, keeps_kwriteoff); try (by apply Hg, keeps_kcall); try (by apply Hg, Hh).
  - intros (x & s1 & H1 & [= <-])%bind_Done_inv. by eapply kopen_confined.
  - intros (x & s1 & H1 & [= <-])%bind_Done_inv. apply dup_confined; [done|]. by eapply kdup_dup.
  - apply Hg. apply same_grew, keeps_in_user.
Qed.

Lemma confined_trans x y z : confined x y -> confined y z -> confined x z.
Proof.
  intros [_ H1] [I H2]. split; [done|]. intros Hx. destruct (H1 Hx) as (Ly & Ay & Py). destruct (H2 Ly) as (Lz & Az & Pz).
  split_and!; [done|by intros i ?%Az%Ay|]. intros Hno id h Hz Hp. apply Py; [done| |done]. apply (Pz); [|done..].
  intros i Hi. by apply (Hno i), Ay.
Qed.

(** C7: the authority over contexts is handed out once. However the calls to the
    scheme follow each other, there is never more than one authority handle; once
    it has been opened the way to it is locked for good, so that no other one
    ever appears; and when it has been closed, no handle that can stop contexts
    or change their credentials is made any more: those there are were there. *)
Theorem authority_confined s s' : auth_inv s -> rtc pstep s s' ->
  auth_inv s' /\
  (p_lock s = true -> p_lock s' = true /\ (forall i, authority s' i -> authority s i) /\
   (forall path r s2, kopen path s' = Done (r, s2) -> exists e, r = Err e) /\
   ((forall i, ~ authority s i) -> forall id h, p_handles s' !! id = Some h -> privileged (h_kind h) = true -> p_handles s !! id = Some h)).
Proof.
  intros HI Hr. assert (Hc : confined s s').
  { induction Hr as [s|x y z [c Hc] _ IH]; [by apply dup_confined; [|apply grew_dup; reflexivity]|].
    pose proof (run_call_confined _ _ _ HI Hc) as Hxy. eapply confined_trans; [exact Hxy|]. apply IH, Hxy. }
  destruct Hc as [HI' Hc]. split; [done|]. intros Hl. destruct (Hc Hl) as (Hl' & Ha & Hp). split_and!; [done..| |done].
  intros path r s2. unfold kopen. destruct (negb _); [intros [= <- _]; by eexists|].
  unfold bind, gets, modify. rewrite Hl'. intros [= <- _]. by eexists.
Qed.

End authority.

(** ** Stopping a context *)

Section verbs.
Context {PFA : PageFlagsApi} {MFA : MapFlagsApi} {PMA : PageMapperApi} {PP : ProcParams}.
Context (dbg : bool).
Context (fmap_page : GrantFileRef -> Z -> MapFlags -> M Kernel (result PfError Frame)).
Context (virt_is_valid : Z -> bool).
Context (others : M Proc unit) (FD_UPPER_TAG : Z).
Context (scheme_kfmap : KernelSchemes -> Z -> Z -> Map -> bool -> M Proc (result Error Z)).
Context (custom_flag : Z -> bool -> PageFlags -> PageFlags).
Abbreviation write_to := (kwriteoff dbg fmap_page virt_is_valid others FD_UPPER_TAG scheme_kfmap custom_flag).

(** The words in a buffer. *)
Definition holds_words (buf : UserSlice) (ws : list Z) (u : UserMem) : Prop :=
  exists chunks, in_exact_chunks buf 8 u = Done (chunks, u) /\ Forall2 (fun sl v => read_usize sl u = Done (Ok v, u)) chunks ws.

Definition contexts_of (s : Proc) : gmap Z Ctx := ctxs (m_sched (p_machine s)).
Definition with_ctx (cid : Z) (c : Ctx) (s : Proc) : Proc :=
  set_machine (mkMachine (set_ctx cid c (m_sched (p_machine s))) (contexts (p_machine s)) (percpus (p_machine s))) s.

Lemma with_ctx_lookup cid c s : contexts_of (with_ctx cid c s) !! cid = Some c.
Proof. apply lookup_insert_eq. Qed.

Lemma in_user_run {A} (m : M UserMem A) (s : Proc) x : m (p_user s) = Done (x, p_user s) -> in_user m s = Done (x, s).
Proof. intros H. unfold in_user, zoom. rewrite H. by destruct s. Qed.
Lemma get_handle_run (s : Proc) id h : p_handles s !! id = Some h -> get_handle id s = Done (Ok h, s).
Proof. intros H. unfold get_handle, bind, gets. by rewrite H. Qed.
Lemma sched_part_run (s : Proc) cid c : contexts_of s !! cid = Some c -> sched_part cid s = Done (c, s).
Proof.
  intros H. unfold sched_part, in_machine, zoom, on_sched, the_ctx. unfold contexts_of in H. rewrite H. by destruct s as [[]].
Qed.
Lemma update_sched_run (s : Proc) cid c f : contexts_of s !! cid = Some c -> update_sched cid f s = Done (tt, with_ctx cid (f c) s).
Proof. intros H. unfold update_sched, in_machine, zoom, on_sched, update_ctx, bind, the_ctx. unfold contexts_of in H. by rewrite H. Qed.
Lemma proc_part_run (s : Proc) cid pc : p_ctx s !! cid = Some pc -> proc_part cid s = Done (pc, s).
Proof. intros H. unfold proc_part. by rewrite H. Qed.
Lemma next_word_run (s : Proc) sl l v : read_usize sl (p_user s) = Done (Ok v, p_user s) -> next_word (sl :: l) s = Done (Ok (v, l), s).
Proof. intros H. unfold next_word, bind_result, bind. by rewrite (in_user_run _ _ _ H). Qed.

Lemma bind_result_Ok {S E A B} (m : M S (result E A)) (k : A -> M S (result E B)) s a s' :
  m s = Done (Ok a, s') -> bind_result m k s = k a s'.
Proof. intros H. unfold bind_result. by rewrite (bind_Done _ _ _ _ _ H). Qed.

(** A write to a status handle, up to the verb. *)
Lemma write_status_verb s id cid priv buf v ws verb : p_handles s !! id = Some (mkHandle cid (HStatus priv)) ->
  holds_words buf (v :: ws) (p_user s) -> verb_of v = Some verb ->
  exists l, write_to id buf s =
    match verb with
    | VStop => if negb priv then err EPERM
        else let! c := sched_part cid in
             match status c with
             | Dead => err EOWNERDEAD
             | HardBlocked (AwaitingMmap _) => panic
             | _ => update_sched cid (put_status (HardBlocked Stopped)) ;;; wrote 8
             end
    | VUnstop => if negb priv then err EPERM
        else let! c := sched_part cid in
             (match status c with HardBlocked Stopped => update_sched cid (put_status Runnable) | _ => ret tt end) ;;; wrote 8
    | VInterrupt => let! _ := in_machine (on_sched (unblock cid)) in wrote 8
    | VForceKill => let! cur := cur_context in
        if cid =? cur then kill_self dbg cid l else update_sched cid set_killed ;;; wrote 8
    end s.
Proof.
  intros Hh (chunks & Hc & Hw) Hv. inversion Hw as [|sl v' l ws' Hr _]; subst. exists l.
  unfold kwriteoff. rewrite (bind_result_Ok _ _ _ _ _ (get_handle_run _ _ _ Hh)). cbn [h_kind h_context].
  unfold write_status. rewrite (bind_Done _ _ _ _ _ (in_user_run _ _ _ Hc)).
  rewrite (bind_result_Ok _ _ _ _ _ (next_word_run _ _ l _ Hr)).
  rewrite (bind_result_Ok (ok_or (verb_of v) EINVAL) _ s verb s) by (unfold ok_or; by rewrite Hv). done.
Qed.

Definition can_stop (st : Status) : bool := match st with Dead | HardBlocked (AwaitingMmap _) => false | _ => true end.

Definition is_stopped (st : Status) : bool := match st with HardBlocked Stopped => true | _ => false end.

(** C19: with a privileged status handle a context is stopped and started again.
    After a stop no CPU chooses it, at whatever time, and a wake-up does not undo it;
    the write changes nothing else. Undoing the stop makes it runnable. A handle
    without privileges can do neither, and changes nothing. *)
Theorem stop_correct s id cid c buf ws v : contexts_of s !! cid = Some c ->
  holds_words buf (v :: ws) (p_user s) ->
  (forall verb, verb_of v = Some verb -> verb = VStop \/ verb = VUnstop ->
     p_handles s !! id = Some (mkHandle cid (HStatus false)) -> write_to id buf s = Done (Err EPERM, s)) /\
  (verb_of v = Some VStop -> can_stop (status c) = true -> p_handles s !! id = Some (mkHandle cid (HStatus true)) ->
     let stopped := put_status (HardBlocked Stopped) c in
     write_to id buf s = Done (Ok (Wrote 8), with_ctx cid stopped s) /\
     (forall cpu now, eligible cpu now stopped = false) /\
     unblock cid (m_sched (p_machine (with_ctx cid stopped s))) = Done (false, m_sched (p_machine (with_ctx cid stopped s)))) /\
  (verb_of v = Some VUnstop -> p_handles s !! id = Some (mkHandle cid (HStatus true)) ->
     write_to id buf s = Done (Ok (Wrote 8), if is_stopped (status c) then with_ctx cid (put_status Runnable c) s else s)).
Proof.
  intros Hc Hw. split_and!.
  - intros verb Hv Hor Hh. destruct (write_status_verb _ _ _ _ _ _ _ _ Hh Hw Hv) as [l ->]. by destruct Hor as [-> | ->].
  - intros Hv Hs Hh. destruct (write_status_verb _ _ _ _ _ _ _ _ Hh Hw Hv) as [l ->]. cbn [negb].
    rewrite (bind_Done _ _ _ _ _ (sched_part_run _ _ _ Hc)). split_and!.
    + destruct (status c) as [| |[]|]; try done; unfold bind; by rewrite (update_sched_run _ _ _ _ Hc).
    + intros cpu now. unfold eligible, expired; cbn. by rewrite !andb_false_r.
    + unfold unblock, bind, unblock_no_ipi. cbn. rewrite lookup_insert_eq. done.
  - intros Hv Hh. destruct (write_status_verb _ _ _ _ _ _ _ _ Hh Hw Hv) as [l ->]. cbn [negb].
    rewrite (bind_Done _ _ _ _ _ (sched_part_run _ _ _ Hc)).
    destruct (status c) as [| |[]|] eqn:Es; try done. unfold bind. by rewrite (update_sched_run _ _ _ _ Hc).
Qed.
End verbs.

(** ** Changing the address space of a context *)

Section exec.
Context {PFA : PageFlagsApi} {MFA : MapFlagsApi} {PMA : PageMapperApi} {PP : ProcParams}.
Context (dbg : bool).
Context (fmap_page : GrantFileRef -> Z -> MapFlags -> M Kernel (result PfError Frame)).
Context (virt_is_valid : Z -> bool) (FD_UPPER_TAG : Z).
Context (scheme_kfmap : KernelSchemes -> Z -> Z -> Map -> bool -> M Proc (result Error Z)).
Context (custom_flag : Z -> bool -> PageFlags -> PageFlags).
Abbreviation write_alone := (kwriteoff dbg fmap_page virt_is_valid (ret tt) FD_UPPER_TAG scheme_kfmap custom_flag).

(** The words of the buffer, read in order; the fourth may be missing. *)
Lemma next_words_run (s : Proc) n : forall chunks ws, Forall2 (fun sl v => read_usize sl (p_user s) = Done (Ok v, p_user s)) chunks ws ->
  (n <= length ws)%nat -> next_words n chunks s = Done (Ok (take n ws, drop n chunks), s).
Proof.
  unfold next_words. induction n as [|n IH]; intros chunks ws Hw Hn; [done|].
  inversion Hw as [|sl v l ws' Hr Hw']; subst; cbn [length] in Hn; [lia|].
  rewrite (bind_result_Ok _ _ _ _ _ (next_word_run _ _ l _ Hr)). by rewrite (bind_result_Ok _ _ _ _ _ (IH l ws' Hw' ltac:(lia))).
Qed.

(** The first half: the handle remembers what is asked for. *)
Lemma write_current_addrspace_run s id cid buf fd sp ip ws num cid2 new :
  p_handles s !! id = Some (mkHandle cid HCurrentAddrSpace) -> holds_words buf (fd :: sp :: ip :: ws) (p_user s) ->
  extract_scheme_number FD_UPPER_TAG fd s = Done (Ok (KGlobal GProc, num), s) ->
  p_handles s !! num = Some (mkHandle cid2 (HAddrSpace new)) ->
  exists n, write_alone id buf s = Done (Ok (Wrote n),
    set_handles (<[id := mkHandle cid (HAwaitingAddrSpaceChange new sp ip (head ws))]> (p_handles s)) s).
Proof.
  intros Hh (chunks & Hc & Hw) He Hn. unfold kwriteoff. rewrite (bind_result_Ok _ _ _ _ _ (get_handle_run _ _ _ Hh)). cbn [h_kind h_context].
  unfold write_current_addrspace. rewrite (bind_Done _ _ _ _ _ (in_user_run _ _ _ Hc)).
  rewrite (bind_result_Ok _ _ _ _ _ (next_words_run s 3 chunks _ Hw ltac:(cbn; lia))). cbn [take].
  assert (Ha : (match drop 3 chunks with [] => ok None | sl :: _ => let? x := in_user (read_usize sl) in ok (Some x) end) s = Done (Ok (head ws), s)).
  { do 3 (apply Forall2_cons_inv_r in Hw as (? & ? & _ & Hw & ->)). cbn [drop].
    inversion Hw as [|sl' v l' ws' Hr _]; subst; [done|]. rewrite drop_0.
    by rewrite (bind_result_Ok _ _ _ _ _ (in_user_run _ _ _ Hr)). }
  rewrite (bind_result_Ok _ _ _ _ _ Ha). cbn [nth]. rewrite (bind_result_Ok _ _ _ _ _ He).
  rewrite (bind_result_Ok (ret (verify_scheme (KGlobal GProc))) _ s tt s) by reflexivity.
  rewrite (bind_result_Ok _ _ _ _ _ (get_handle_run _ _ _ Hn)). cbn [h_kind].
  rewrite (bind_result_Ok _ _ _ _ _ (get_handle_run _ _ _ Hh)). by eexists.
Qed.

Lemma update_proc_run (s : Proc) cid pc f : p_ctx s !! cid = Some pc -> update_proc cid f s = Done (tt, set_pctx (<[cid := f pc]> (p_ctx s)) s).
Proof. intros H. unfold update_proc. by rewrite (bind_Done _ _ _ _ _ (proc_part_run _ _ _ H)). Qed.

Definition exec_stack (sp ip : Z) (arg1 : option Z) (st : InterruptStack) : InterruptStack :=
  set_arg1 arg1 (set_stack_pointer sp (set_instr_pointer ip st)).

Definition new_program (new sp ip : Z) (arg1 : option Z) (pc : ProcCtx) : ProcCtx := set_pc_space (Some new) (set_pc_stack (exec_stack sp ip arg1) pc).
Definition with_cpus (cpus : LogicalCpuSet) (a : AddrSpace) : AddrSpace :=
  mkAddrSpace (utable a) (grants a) cpus (mmap_min a) (pagequeue a) (dirty a).

(** The change itself, for a context that does not run. *)
Lemma apply_addr_space_run s cid c pc st old new sp ip arg1 : contexts_of s !! cid = Some c -> running c = false -> userspace c = true ->
  p_ctx s !! cid = Some pc -> pc_stack pc = Some st -> pc_addr_space pc = Some old -> old <> new ->
  apply_addr_space cid new sp ip arg1 s =
    Done (Ok (Some old), set_pctx (<[cid := new_program new sp ip arg1 pc]> (p_ctx s)) s).
Proof.
  intros Hc Hr Hu Hp Hst Ho Hne. unfold apply_addr_space, regs.
  rewrite (bind_Done _ _ s (Some st) s).
  2: { rewrite (bind_Done _ _ _ _ _ (sched_part_run _ _ _ Hc)), (bind_Done _ _ _ _ _ (proc_part_run _ _ _ Hp)), Hu, Hst. done. }
  rewrite (bind_Done _ _ _ _ _ (update_proc_run _ _ _ _ Hp)). unfold set_addr_space.
  set (s1 := set_pctx _ s). assert (Hp1 : p_ctx s1 !! cid = Some (set_pc_stack (exec_stack sp ip arg1) pc)) by apply lookup_insert_eq.
  assert (Hc1 : contexts_of s1 !! cid = Some c) by done. rewrite bind_assoc, (bind_Done _ _ _ _ _ (sched_part_run _ _ _ Hc1)).
  rewrite bind_assoc, (bind_Done _ _ _ _ _ (proc_part_run _ _ _ Hp1)). cbn [pc_addr_space set_pc_stack].
  rewrite Ho, (proj2 (Z.eqb_neq _ _) Hne). rewrite bind_assoc, (bind_Done _ _ _ _ _ eq_refl). unfold is_current_context. rewrite Hr. cbn [andb negb].
  rewrite bind_assoc, (bind_Done _ _ _ _ _ eq_refl). rewrite bind_assoc, (bind_Done _ _ _ _ _ (update_proc_run _ _ _ _ Hp1)).
  rewrite bind_ret. unfold ok, ret. do 2 f_equal. unfold s1, set_pctx; cbn. by rewrite insert_insert_eq.
Qed.

(** Changing the CPUs of a space. *)
Lemma in_used_by_run (s : Proc) sid a m cpus : spaces (p_kern s) !! sid = Some a -> m (used_by a) = Done (tt, cpus) ->
  in_kern (in_used_by sid m) s = Done (tt, set_kern (set_spaces (<[sid := with_cpus cpus a]> (spaces (p_kern s))) (p_kern s)) s).
Proof. intros Ha Hm. unfold in_kern, zoom, in_used_by. rewrite (bind_Done _ _ _ _ _ (get_space_run _ _ _ Ha)). by rewrite Hm. Qed.

(** The change itself, for the context that runs on this CPU. *)
Lemma apply_addr_space_current s cid c pc st cpu old new a b a' b' sp ip arg1 : contexts_of s !! cid = Some c -> running c = true -> cpu_id c = Some cpu ->
  this_cpu (m_sched (p_machine s)) = cpu -> userspace c = true -> p_ctx s !! cid = Some pc -> pc_stack pc = Some st -> pc_addr_space pc = Some old -> old <> new ->
  p_cur_space s = Some old -> spaces (p_kern s) !! old = Some a -> spaces (p_kern s) !! new = Some b ->
  atomic_clear cpu (used_by a) = Done (tt, a') -> atomic_set cpu (used_by b) = Done (tt, b') ->
  exists s', apply_addr_space cid new sp ip arg1 s = Done (Ok (Some old), s') /\
    s' = set_pctx (<[cid := new_program new sp ip arg1 pc]> (p_ctx s)) (set_cur_space (Some new)
           (set_kern (set_spaces (<[new := with_cpus b' b]> (<[old := with_cpus a' a]> (spaces (p_kern s)))) (p_kern s)) s)).
Proof.
  intros Hc Hr Hid Hcpu Hu Hp Hst Ho Hne Hcur Ha Hb Hclear Hset. unfold apply_addr_space, regs.
  rewrite (bind_Done _ _ s (Some st) s).
  2: { rewrite (bind_Done _ _ _ _ _ (sched_part_run _ _ _ Hc)), (bind_Done _ _ _ _ _ (proc_part_run _ _ _ Hp)), Hu, Hst. done. }
  rewrite (bind_Done _ _ _ _ _ (update_proc_run _ _ _ _ Hp)). unfold set_addr_space. set (pc1 := set_pc_stack _ pc).
  set (s1 := set_pctx _ s). assert (Hp1 : p_ctx s1 !! cid = Some pc1) by apply lookup_insert_eq.
  assert (Hc1 : contexts_of s1 !! cid = Some c) by done. rewrite bind_assoc, (bind_Done _ _ _ _ _ (sched_part_run _ _ _ Hc1)).
  rewrite bind_assoc, (bind_Done _ _ _ _ _ (proc_part_run _ _ _ Hp1)). cbn [pc1 pc_addr_space set_pc_stack].
  rewrite Ho, (proj2 (Z.eqb_neq _ _) Hne). rewrite bind_assoc, (bind_Done (gets _) _ s1 cpu s1) by (unfold gets; cbn; by rewrite Hcpu).
  unfold is_current_context. rewrite Hr, Hid, bool_decide_eq_true_2 by done. cbn [andb].
  rewrite !bind_assoc, (bind_Done (gets _) _ s1 (Some old) s1) by (unfold gets; cbn; by rewrite Hcur). rewrite bool_decide_eq_true_2 by done.
  cbn [assert_]. rewrite !bind_assoc, bind_ret.
  rewrite (bind_Done _ _ _ _ _ (in_used_by_run s1 old a (atomic_clear cpu) a' Ha Hclear)). set (s2 := set_kern _ s1).
  rewrite !bind_assoc, (bind_Done (modify _) _ s2 tt (set_cur_space (Some new) s2)) by done. set (s3 := set_cur_space _ s2).
  assert (Hb3 : spaces (p_kern s3) !! new = Some b) by (cbn; by rewrite lookup_insert_ne).
  rewrite (bind_Done _ _ _ _ _ (in_used_by_run s3 new b (atomic_set cpu) b' Hb3 Hset)). set (s4 := set_kern _ s3).
  rewrite bind_assoc, (bind_Done _ _ _ _ _ (update_proc_run s4 cid pc1 (set_pc_space (Some new)) Hp1)). rewrite bind_ret. eexists. split; [reflexivity|].
  unfold s4, s3, s2, s1, set_pctx, set_cur_space, set_kern; cbn. by rewrite insert_insert_eq.
Qed.

(** Stopping and restoring a context, whatever happens between the two. *)
Lemma try_stop_run {X} others (m : M Proc (result Error X)) s s1 s2 cid cur c c1 r : cur_context s = Done (cur, s) -> cid <> cur ->
  contexts_of s !! cid = Some c -> others (with_ctx cid (put_status (HardBlocked NotYetStarted) c) s) = Done (tt, s1) ->
  contexts_of s1 !! cid = Some c1 -> running c1 = false -> m s1 = Done (r, s2) -> contexts_of s2 = contexts_of s1 ->
  try_stop_context others cid m s = Done (r, with_ctx cid (put_status (status c) c1) s2).
Proof.
  intros Hcur Hne Hc Ho Hc1 Hr Hm H2. unfold try_stop_context. rewrite (bind_Done _ _ _ _ _ Hcur), (proj2 (Z.eqb_neq _ _) Hne).
  rewrite (bind_Done _ _ _ _ _ (sched_part_run _ _ _ Hc)), (bind_Done _ _ _ _ _ (update_sched_run _ _ _ _ Hc)), (bind_Done _ _ _ _ _ Ho).
  rewrite (bind_Done _ _ _ _ _ (sched_part_run _ _ _ Hc1)), Hr. cbn [negb assert_]. rewrite bind_ret, (bind_Done _ _ _ _ _ Hm).
  by rewrite (bind_Done _ _ _ _ _ (update_sched_run s2 cid c1 _ ltac:(by rewrite H2))).
Qed.

Lemma cur_context_handles s cur h : cur_context s = Done (cur, s) -> cur_context (set_handles h s) = Done (cur, set_handles h s).
Proof.
  unfold cur_context, in_machine, zoom; cbn. destruct (current (p_machine s)) as [[x m]|]; [|done]. intros [= -> Hs].
  pose proof (f_equal p_machine Hs) as Hm. cbn in Hm. by subst m.
Qed.

(** The second half. *)
Definition asked (id cid new sp ip : Z) (arg1 : option Z) (s : Proc) : Proc :=
  set_handles (<[id := mkHandle cid (HAwaitingAddrSpaceChange new sp ip arg1)]> (p_handles s)) s.
Definition forget (id : Z) (s : Proc) : Proc := set_handles (delete id (p_handles s)) s.

Lemma close_asked others s s2 id cid new sp ip arg1 old :
  try_stop_context others cid (apply_addr_space cid new sp ip arg1) (forget id s) = Done (Ok (Some old), s2) ->
  close dbg others id (asked id cid new sp ip arg1 s) = (release_space dbg old ;;; modify (add_log [PtraceAddrSpaceSwitch]) ;;; ok tt) s2.
Proof.
  intros H. unfold close. rewrite (bind_result_Ok _ _ _ _ _ (get_handle_run (asked id cid new sp ip arg1 s) id _ (lookup_insert_eq _ _ _))).
  rewrite (bind_Done _ _ _ _ _ eq_refl). cbn [h_kind h_context].
  replace (set_handles _ (asked id cid new sp ip arg1 s)) with (forget id s) by (unfold asked, forget, set_handles; cbn; by rewrite delete_insert_eq).
  by rewrite (bind_Done _ _ _ _ _ H).
Qed.

(** What is left is to let go of the old space, which goes on when someone uses it. *)
Definition ends_in (r : outcome (result Error unit * Proc)) (old : Z) (s : Proc) : Prop :=
  r = (release_space dbg old ;;; modify (add_log [PtraceAddrSpaceSwitch]) ;;; ok tt) s /\
  (space_used s old = true -> r = Done (Ok tt, add_log [PtraceAddrSpaceSwitch] s)).
Lemma ends_in_intro r old s : r = (release_space dbg old ;;; modify (add_log [PtraceAddrSpaceSwitch]) ;;; ok tt) s -> ends_in r old s.
Proof.
  intros ->. split; [done|]. intros Hu. rewrite (bind_Done _ _ s tt s); [done|]. unfold release_space. rewrite (bind_Done (gets _) _ s true s); [done|].
  unfold gets. by rewrite Hu.
Qed.

(** C18: how a context gets a new program. Writing an address space, a stack
    pointer, an entry point and possibly an argument to its "current-addrspace"
    handle changes nothing but the handle. Closing the handle changes the context:
    - another context than the one that runs is stopped, and others may do
      anything until it is found not to run, with a state that has its registers; then it
      has that address space and enters user space there with these registers, all
      others as they were, and its status is the one it had before it was stopped;
      everything else is as the others left it;
    - the context that runs itself gets them at once, this CPU changes over to the
      new space, and is counted there and no longer in the old one.
    The handle is gone, and the old space is dropped unless someone uses it. The
    claim is for a context with registers to set and with an old space that is not
    the new one. *)
Theorem exec_correct s id cid cur c buf fd sp ip ws num cid2 old new :
  p_handles s !! id = Some (mkHandle cid HCurrentAddrSpace) -> holds_words buf (fd :: sp :: ip :: ws) (p_user s) ->
  extract_scheme_number FD_UPPER_TAG fd s = Done (Ok (KGlobal GProc, num), s) ->
  p_handles s !! num = Some (mkHandle cid2 (HAddrSpace new)) ->
  cur_context s = Done (cur, s) -> contexts_of s !! cid = Some c -> old <> new ->
  exists n s1, write_alone id buf s = Done (Ok (Wrote n), s1) /\ s1 = asked id cid new sp ip (head ws) s /\
  (forall others s' c' pc st, cid <> cur ->
     others (with_ctx cid (put_status (HardBlocked NotYetStarted) c) (forget id s)) = Done (tt, s') ->
     contexts_of s' !! cid = Some c' -> running c' = false -> userspace c' = true ->
     p_ctx s' !! cid = Some pc -> pc_stack pc = Some st -> pc_addr_space pc = Some old ->
     ends_in (close dbg others id s1) old
       (with_ctx cid (put_status (status c) c') (set_pctx (<[cid := new_program new sp ip (head ws) pc]> (p_ctx s')) s'))) /\
  (forall others pc st cpu a b, cid = cur -> running c = true -> cpu_id c = Some cpu -> this_cpu (m_sched (p_machine s)) = cpu -> userspace c = true ->
     p_ctx s !! cid = Some pc -> pc_stack pc = Some st -> pc_addr_space pc = Some old -> p_cur_space s = Some old ->
     spaces (p_kern s) !! old = Some a -> spaces (p_kern s) !! new = Some b -> 0 <= cpu < MAX_CPU_COUNT -> cpu_wf (used_by a) -> cpu_wf (used_by b) ->
     exists a' b', (forall x, 0 <= x < MAX_CPU_COUNT -> cpu_mem a' x <-> x <> cpu /\ cpu_mem (used_by a) x) /\
       (forall x, 0 <= x < MAX_CPU_COUNT -> cpu_mem b' x <-> x = cpu \/ cpu_mem (used_by b) x) /\
       ends_in (close dbg others id s1) old
         (set_pctx (<[cid := new_program new sp ip (head ws) pc]> (p_ctx s)) (set_cur_space (Some new)
            (set_kern (set_spaces (<[new := with_cpus b' b]> (<[old := with_cpus a' a]> (spaces (p_kern s)))) (p_kern s)) (forget id s))))).
Proof.
  intros Hh Hw He Hn Hcur Hc Hon. destruct (write_current_addrspace_run _ _ _ _ _ _ _ _ _ _ _ Hh Hw He Hn) as [n H1].
  exists n. eexists. split; [exact H1|]. split; [done|]. pose proof (cur_context_handles _ _ (delete id (p_handles s)) Hcur) as Hcur2. split.
  - intros others s' c' pc st Hne Ho Hc' Hr Hu Hp Hst Hold. apply ends_in_intro, close_asked.
    eapply (try_stop_run others _ (forget id s) s'); [exact Hcur2|done|done|done|done|done| |reflexivity]. by apply (apply_addr_space_run s' cid c' pc st).
  - intros others pc st cpu a b -> Hr Hid Hcpu Hu Hp Hst Hold Hcs Ha Hb Hrange Hwa Hwb.
    destruct (cpu_set_correct _ _ Hwa Hrange) as (_ & _ & (a' & Hclear & _ & Hma) & _).
    destruct (cpu_set_correct _ _ Hwb Hrange) as (_ & (b' & Hset & _ & Hmb) & _). exists a', b'. split; [done|]. split; [done|].
    apply ends_in_intro, close_asked. unfold try_stop_context. rewrite (bind_Done _ _ _ _ _ Hcur2), Z.eqb_refl.
    destruct (apply_addr_space_current (forget id s) cur c pc st cpu old new a b a' b' sp ip (head ws)) as (s2 & H2 & ->); try done.
Qed.
End exec.

(** ** Runs *)

Module ProcExamples.
Import SimpleFlags AddrSpaceWitnesses.

(** The structures of the syscall crate as words and bytes in a row. *)
Definition words_bytes (l : list Z) : list Z := concat (map (to_ne_bytes 8) l).
Definition int_words (r : IntRegisters) : list Z :=
  let p := i_preserved r in let c := i_scratch r in
  [r15 p; r14 p; r13 p; r12 p; rbp p; rbx p; r11 c; r10 c; r9 c; r8 c; rsi c; rdi c; rdx c; rcx c; rax c;
   i_rip r; i_cs r; i_rflags r; i_rsp r; i_ss r].
Definition int_of_words (l : list Z) : IntRegisters :=
  let w i := nth i l 0 in
  mkInt (mkPreserved (w 0%nat) (w 1%nat) (w 2%nat) (w 3%nat) (w 4%nat) (w 5%nat))
        (mkScratch (w 6%nat) (w 7%nat) (w 8%nat) (w 9%nat) (w 10%nat) (w 11%nat) (w 12%nat) (w 13%nat) (w 14%nat))
        (w 15%nat) (w 16%nat) (w 17%nat) (w 18%nat) (w 19%nat).

#[local] Instance params : @ProcParams map_flags_api := {|
  ADDRSPACE_OP_MMAP := 0; ADDRSPACE_OP_MUNMAP := 1; ADDRSPACE_OP_MPROTECT := 2; ADDRSPACE_OP_TRANSFER := 3;
  mf_from_bits := fun x => if x =? 0 then Some [PROT_READ] else None;
  verb_of := fun x => if x =? 1 then Some VStop else if x =? 2 then Some VUnstop else if x =? 3 then Some VInterrupt
                      else if x =? 4 then Some VForceKill else None;
  status_raw := fun st => match st with CRunnable => 0 | CBlocked => 1 | CNotYetStarted => 2 | CDead => 3 | CStopped => 4
                                      | CForceKilled => 5 | CUnhandledExcp => 6 | COther => 7 end;
  is_iopl := fun x => x =? 255;
  int_codec := mkCodec _ 160 (fun l => int_of_words (mask_words 20 l)) (fun r => words_bytes (int_words r));
  float_codec := mkCodec _ 128 (fun l => mkFloat 0 (mask_words 16 l) []) (fun r => words_bytes (st_space r));
  env_codec := mkCodec _ 16 (fun l => let w := mask_words 2 l in mkEnv (nth 0 w 0) (nth 1 w 0)) (fun e => words_bytes [fsbase e; gsbase e]);
  sig_codec := mkCodec _ 32 (fun l => let w := mask_words 4 l in mkSigData (nth 0 w 0) (nth 1 w 0) (nth 2 w 0) (nth 3 w 0))
    (fun d => words_bytes [sd_user_handler d; sd_excp_handler d; sd_thread_control_addr d; sd_proc_control_addr d]);
  attr_codec := mkCodec _ 64 (fun l => let w := mask_words 4 l in mkAttrs (nth 0 w 0) (nth 1 w 0) (nth 2 w 0) (nth 3 w 0) (drop 32 l))
    (fun a => words_bytes [at_pid a; at_euid a; at_egid a; at_ens a] ++ at_debug_name a);
  grant_codec := mkCodec _ 24 (fun l => let w := mask_words 3 l in mkGrantDesc (nth 0 w 0) (nth 1 w 0) [] (nth 2 w 0))
    (fun g => words_bytes [gd_base g; gd_size g; gd_offset g]);
  SIGCONTROL_SIZE := 64;
  SIGPROCCONTROL_SIZE := 64;
|}.

(** The context 10 is current on the CPU 0; the context 20 sleeps in the space 1.
    The proc scheme has the id 9; the descriptor 0 of the current context is the
    handle 7, its descriptor 1 the handle 4. *)
Definition running_ctx (cpu : Z) : Ctx := set_userspace true (mkCtx Runnable "" true (Some cpu) 0 0 cpu_all false None true false 0 false).
Definition asleep : Ctx := set_userspace true (set_status Blocked "read" new_ctx).
Definition machine0 : Machine :=
  mkMachine (mkSched {[ 10 := running_ctx 0; 20 := asleep ]} 0 ∅ 0) [(10, tt); (20, tt)]
            {[ 0 := mkPercpu (Some 10) (Some 30) 0 0 false false (mkStats 0 0 0 CpuIdle 0) ]}.
Definition kern0 : Kernel := mkKernel mem0 {[ 1 := AddrSpace_new; 2 := AddrSpace_new; 3 := AddrSpace_new ]} 0 [].
Definition pctx (space files : Z) : ProcCtx :=
  mkPctx None None (Some space) files [] None 0 0 0 0 (mkArch 0 0 false kfx_zero) (Some (stack_init stack_zero)).
Definition table (fds : list Z) : @FdTbl FileDescriptor := mkFdTbl (map (fun a => Some (mkDesc a false)) fds) [] (Z.of_nat (length fds)).
Definition bytes_at (base : Z) (ws : list Z) : list (Z * Z) := combine (addrs base (8 * Z.of_nat (length ws))) (words_bytes ws).
Definition user0 : UserMem :=
  mkUserMem (list_to_map (bytes_at 0x1000 [0; 0x8000; 0x4000] ++ bytes_at 0x1100 [1] ++ bytes_at 0x1200 [1] ++ bytes_at 0x1300 [0; 0; 0; 0; 0; 0] ++
    combine (addrs 0x1400 6) (to_bytes_of "status"))) ∅.
Definition proc0 : Proc :=
  mkProc machine0 kern0 (mkHeap {[ 100 := (mkFD 0 9 7 0 0, 1); 101 := (mkFD 0 9 4 0 0, 1); 102 := (mkFD 0 5 1 0 0, 1) ]} 103)
    (mkSL {[ 9 := KGlobal GProc ]} ∅ 1 10) user0
    {[ 10 := pctx 3 1; 20 := pctx 1 2 ]} {[ 1 := table [100; 101]; 2 := table [102]; 3 := FdTbl_new ]}
    {[ 4 := mkHandle 20 (HNewFiletable 3 true []); 5 := mkHandle 20 HCurrentAddrSpace; 6 := mkHandle 20 (HStatus true);
       7 := mkHandle 20 (HAddrSpace 2); 8 := mkHandle 20 (HAddrSpace 1); 9 := mkHandle 20 HCurrentFiletable;
       11 := mkHandle 20 (HRegs RInt); 12 := mkHandle 20 HStart; 13 := mkHandle 10 HOpenViaDup; 14 := mkHandle 20 HOpenViaDup ]}
    15 true (Some 3) (mkEnv 0 0) [].

Definition no_page : GrantFileRef -> Z -> MapFlags -> M Kernel (result PfError Frame) := fun _ _ _ => err Segv.
Definition no_scheme : KernelSchemes -> Z -> Z -> Map -> bool -> M Proc (result Error Z) := fun _ _ _ _ _ => err ENODEV.
Definition TAG : Z := Z.shiftl 1 62.
Definition write_with (others : M Proc unit) : Z -> UserSlice -> M Proc (result Error Written) :=
  kwriteoff false no_page (fun _ => true) others TAG no_scheme (fun _ _ f => f).
Definition after {A} (m : M Proc A) (s : Proc) : Proc := match m s with Done (_, s') => s' | Panic => s end.
Definition result_of {A} (m : M Proc A) (s : Proc) : option A := match m s with Done (x, _) => Some x | Panic => None end.

Lemma words0 : holds_words (mkUserSlice 0x1000 24) [0; 0x8000; 0x4000] user0.
Proof. eexists. split; [vm_compute; reflexivity|]. repeat constructor. Qed.

(** The context 20 gets the space 2, while it is woken by others; and the context
    10, which runs, gets it too. *)
Definition proc1 : Proc := set_handles (<[15 := mkHandle 10 HCurrentAddrSpace]> (p_handles proc0)) proc0.
Definition wake20 : M Proc unit := update_sched 20 (put_status Runnable).
Lemma no_cpus : cpu_wf (used_by AddrSpace_new).
Proof. split; [reflexivity|]. by apply Forall_replicate. Qed.
Lemma exec_correct_witness : exists n n' s1 s2 s3 s4,
  write_with (ret tt) 5 (mkUserSlice 0x1000 24) proc0 = Done (Ok (Wrote n), s1) /\ close false wake20 5 s1 = Done (Ok tt, s2) /\
  p_ctx s2 !! 20 = Some (new_program 2 0x8000 0x4000 None (pctx 1 2)) /\
  write_with (ret tt) 15 (mkUserSlice 0x1000 24) proc1 = Done (Ok (Wrote n'), s3) /\
  (close false (ret tt) 15 s3 = (release_space false 3 ;;; modify (add_log [PtraceAddrSpaceSwitch]) ;;; ok tt) s4) /\
  p_ctx s4 !! 10 = Some (new_program 2 0x8000 0x4000 None (pctx 3 1)) /\ p_cur_space s4 = Some 2.
Proof.
  destruct (exec_correct false no_page (fun _ => true) TAG no_scheme (fun _ _ f => f) proc0 5 20 10 asleep
    (mkUserSlice 0x1000 24) 0 0x8000 0x4000 [] 7 20 1 2) as (n & s1 & H1 & E1 & H2 & _);
    [vm_compute; reflexivity|exact words0|vm_compute; reflexivity|vm_compute; reflexivity|vm_compute; reflexivity|vm_compute; reflexivity|done|].
  destruct (exec_correct false no_page (fun _ => true) TAG no_scheme (fun _ _ f => f) proc1 15 10 10 (running_ctx 0)
    (mkUserSlice 0x1000 24) 0 0x8000 0x4000 [] 7 20 3 2) as (n' & s3 & H3 & E3 & _ & H4);
    [vm_compute; reflexivity|exact words0|vm_compute; reflexivity|vm_compute; reflexivity|vm_compute; reflexivity|vm_compute; reflexivity|done|].
  destruct (H4 (ret tt) (pctx 3 1) (stack_init stack_zero) 0 AddrSpace_new AddrSpace_new) as (a' & b' & _ & _ & H5 & _);
    [vm_compute; reflexivity..|vm_compute; split; [discriminate|reflexivity]|exact no_cpus|exact no_cpus|].
  eexists n, n', s1, _, s3, _. split_and!; [exact H1| | |exact H3|exact H5|apply lookup_insert_eq|reflexivity].
  - destruct (H2 wake20 (after wake20 (with_ctx 20 (put_status (HardBlocked NotYetStarted) asleep) (forget 5 proc0))) (put_status Runnable asleep)
      (pctx 1 2) (stack_init stack_zero)) as [_ H6]; [discriminate|vm_compute; reflexivity..|]. apply H6. vm_compute; reflexivity.
  - apply lookup_insert_eq.
Defined.

Lemma stop_correct_witness :
  write_with (ret tt) 6 (mkUserSlice 0x1100 8) proc0 = Done (Ok (Wrote 8), with_ctx 20 (put_status (HardBlocked Stopped) asleep) proc0).
Proof.
  destruct (stop_correct false no_page (fun _ => true) (ret tt) TAG no_scheme (fun _ _ f => f) proc0 6 20 asleep (mkUserSlice 0x1100 8) [] 1) as (_ & H & _).
  - reflexivity.
  - eexists. split; [vm_compute; reflexivity|]. repeat constructor.
  - by apply H.
Defined.

(** In [proc0] the authority has been opened and closed again. *)
Definition proc0' : Proc := after (kdup false TAG (mkSpawn 40 true true true) 13 (mkUserSlice 0x1400 6)) proc0.
Lemma authority_confined_witness : (forall i, ~ authority proc0 i) /\
  forall id h, p_handles proc0' !! id = Some h -> privileged (h_kind h) = true -> p_handles proc0 !! id = Some h.
Proof.
  assert (Hn : forall i, ~ authority proc0 i).
  { intros i [c Hc]. apply elem_of_map_to_list in Hc. revert Hc. vm_compute. intros Hc.
    repeat (apply elem_of_cons in Hc as [Hc|Hc]; [by injection Hc|]). by apply elem_of_nil in Hc. }
  destruct (authority_confined false no_page (fun _ => true) (ret tt) TAG no_scheme (fun _ _ f => f)) with (s := proc0) (s' := proc0') as [_ H].
  - intros s x s1 [= <- <-]. by split; [|left].
  - intros sch n a m c s x s1 [= <- <-]. by split; [|left].
  - split; [done|]. intros i j Hi. by destruct (Hn i).
  - eapply rtc_l; [|apply rtc_refl]. exists (CDup (mkSpawn 40 true true true) 13 (mkUserSlice 0x1400 6)). vm_compute. reflexivity.
  - split; [exact Hn|]. destruct (H eq_refl) as (_ & _ & _ & Hp). exact (Hp Hn).
Defined.

Definition status_of (cid : Z) (s : Proc) : option Status := status <$> contexts_of s !! cid.

(** Reading the registers of a context that sleeps loses a wake-up: it comes
    while the context is stopped, and is not there when its status is restored. *)
Definition wake_up : M Proc unit := let! _ := in_machine (on_sched (unblock 20)) in ret tt.
Lemma try_stop_loses_wakeup :
  status_of 20 (after wake_up proc0) = Some Runnable /\
  status_of 20 (after (kreadoff wake_up 11 (mkUserSlice 0x1300 48) 0) proc0) = Some Blocked.
Proof. by vm_compute. Qed.

(** A context that is stopped that way can be started as if it were new; when it
    runs before its lock is taken again, the kernel stops. *)
Definition start_it : M Proc unit :=
  let! _ := write_with (ret tt) 12 (mkUserSlice 0x1200 8) in update_sched 20 (enter_ctx 0 1).
Lemma try_stop_start_panics : result_of (kreadoff start_it 11 (mkUserSlice 0x1300 48) 0) proc0 = None.
Proof. by vm_compute. Qed.

(** A context whose file table is replaced leaves its files open: their
    descriptions are freed without their scheme being told. *)
Definition changed : Proc := after (close false (ret tt) 9) (after (write_with (ret tt) 9 (mkUserSlice 0x1200 8)) proc0).
Lemma filetable_change_leaks :
  (pc_files <$> p_ctx changed !! 20) = Some 3 /\ fst <$> descs (p_heap proc0) !! 102 = Some (mkFD 0 5 1 0 0) /\
  descs (p_heap changed) !! 102 = None /\ p_log changed = [].
Proof. by vm_compute. Qed.

(** The verb for I/O ports acts on the caller, not on the context of the handle. *)
Lemma iopl_acts_on_caller :
  let s := after (kcall 14 [255]) proc0 in
  (fun pc => userspace_io_allowed (pc_arch pc)) <$> p_ctx s !! 10 = Some true /\
  (fun pc => userspace_io_allowed (pc_arch pc)) <$> p_ctx s !! 20 = Some false.
Proof. by vm_compute. Qed.

(** Stopping a context that waits for a page of a file stops the kernel. *)
Lemma stop_awaiting_mmap_panics :
  result_of (write_with (ret tt) 6 (mkUserSlice 0x1100 8)) (with_ctx 20 (put_status (HardBlocked (AwaitingMmap (mkFileRef 0 0))) asleep) proc0) = None.
Proof. by vm_compute. Qed.

(** Reading the grants of an address space into no buffer at all claims to have
    read them. *)
Definition with_grant : Proc :=
  after (in_kern (mmap false 1 (Some 4) 1 [MAP_FIXED_NOREPLACE; PROT_READ] (fun page fl => zeroed false (PageSpan_new page 1) fl 1 false))) proc0.
Lemma read_addrspace_overreports : result_of (kreadoff (ret tt) 8 (mkUserSlice 0x1000 0) 0) with_grant = Some (Ok 24).
Proof. by vm_compute. Qed.

(** A control area at the end of its page is accepted, and trips the check that
    is made when a signal is looked for. *)
Lemma sigcontrol_accepted_panics (s : Proc) : validate_off (PAGE_SIZE - SIGCONTROL_SIZE) SIGCONTROL_SIZE = Ok (PAGE_SIZE - SIGCONTROL_SIZE) /\
  sigcontrol_check (PAGE_SIZE - SIGCONTROL_SIZE) s = Panic.
Proof. by vm_compute. Qed.
End ProcExamples.
