(* ===== verification/Acpi.v ===== *)
(** * Tables of the firmware (src/acpi/{sdt,rsdp,rsdt,xsdt,mod}.rs, src/acpi/madt/mod.rs)

    The tables lie in physical memory, which the kernel sees at an offset once
    [get_sdt] has mapped them; here they are read from [mem], a function from
    addresses to bytes. A reference to a table is its address. The code reads
    fields at unaligned addresses, little-endian. *)

From S2P Require Import Prelude PageInfo FrameAllocator Rmm OrdMap Grants UserCopy FileOps.
#[local] Open Scope Z_scope.

(** Entries of the MADT, with the fields the kernel names. *)
Record MadtLocalApic := mkLocalApic { la_processor : Z; la_id : Z; la_flags : Z }.
Record MadtIoApic := mkMadtIoApic { mi_id : Z; mi_address : Z; mi_gsi_base : Z }.
Record MadtIntSrcOverride := mkSrcOverride { so_bus_source : Z; so_irq_source : Z; so_gsi_base : Z; so_flags : Z }.
Record MadtGicc := mkGicc {
  gicc_cpu_interface_number : Z; gicc_acpi_processor_uid : Z; gicc_flags : Z; gicc_parking_protocol_version : Z;
  gicc_performance_interrupt_gsiv : Z; gicc_parked_address : Z; gicc_physical_base_address : Z; gicc_gicv : Z;
  gicc_gich : Z; gicc_vgic_maintenance_interrupt : Z; gicc_gicr_base_address : Z; gicc_mpidr : Z;
  gicc_processor_power_efficiency_class : Z; gicc_spe_overflow_interrupt : Z
}.
Record MadtGicd := mkGicd { gicd_gic_id : Z; gicd_physical_base_address : Z; gicd_system_vector_base : Z; gicd_gic_version : Z }.

Inductive MadtEntry :=
| LocalApic (e : MadtLocalApic) | InvalidLocalApic (len : Z)
| IoApicEntry (e : MadtIoApic) | InvalidIoApic (len : Z)
| IntSrcOverride (e : MadtIntSrcOverride) | InvalidIntSrcOverride (len : Z)
| Gicc (e : MadtGicc) | InvalidGicc (len : Z)
| Gicd (e : MadtGicd) | InvalidGicd (len : Z)
| Unknown (ty : Z).

(** [mem::size_of] of the packed structures. *)
Definition SDT_SIZE : Z := 36.
Definition size_LocalApic : Z := 6.
Definition size_IoApic : Z := 10.
Definition size_IntSrcOverride : Z := 8.
Definition size_Gicc : Z := 78.
Definition size_Gicd : Z := 22.

(** ASCII of the signatures *)
Definition b_APIC : list Z := [65; 80; 73; 67].
Definition b_RSDT : list Z := [82; 83; 68; 84].
Definition b_XSDT : list Z := [88; 83; 68; 84].
Definition b_RSD_PTR : list Z := [82; 83; 68; 32; 80; 84; 82; 32].

Section acpi.
Context (mem : Z -> Z).

Definition bytes_at (a n : Z) : list Z := map mem (addrs a n).
Definition uint_at (a n : Z) : Z := from_ne_bytes (bytes_at a n).

(** ** [Sdt] *)

Definition sdt_signature (sdt : Z) : list Z := bytes_at sdt 4.
Definition sdt_length (sdt : Z) : Z := uint_at (sdt + 4) 4.
Definition oem_id (sdt : Z) : list Z := bytes_at (sdt + 10) 6.
Definition oem_table_id (sdt : Z) : list Z := bytes_at (sdt + 16) 8.
Definition data_address (sdt : Z) : Z := sdt + SDT_SIZE.
Definition data_len (sdt : Z) : Z := saturating_sub (sdt_length sdt) SDT_SIZE.

(** ** [Rsdp] *)

Record Rsdp := mkRsdp { rsdp_revision : Z; rsdt_address : Z; xsdt_address : Z }.
Definition rsdp_at (a : Z) : Rsdp := mkRsdp (uint_at (a + 15) 1) (uint_at (a + 16) 4) (uint_at (a + 24) 8).
Definition rsdp_search (start_addr end_addr : Z) : option Rsdp :=
  (fun i => rsdp_at (start_addr + i * 16)) <$>
    find (fun i => bool_decide (bytes_at (start_addr + i * 16) 8 = b_RSD_PTR)) (range ((end_addr + 1 - start_addr) / 16)).
Definition sdt_address (r : Rsdp) : Z := if 2 <=? rsdp_revision r then xsdt_address r else rsdt_address r.

(** ** [Rsdt], [Xsdt]: the tables they list *)

Inductive RxsdtEnum := Rsdt (sdt : Z) | Xsdt (sdt : Z).
Definition Rsdt_new (sdt : Z) : option RxsdtEnum := if bool_decide (sdt_signature sdt = b_RSDT) then Some (Rsdt sdt) else None.
Definition Xsdt_new (sdt : Z) : option RxsdtEnum := if bool_decide (sdt_signature sdt = b_XSDT) then Some (Xsdt sdt) else None.
Definition rsdt_iter (sdt : Z) : list Z := map (fun i => uint_at (data_address sdt + i * 4) 4) (range (data_len sdt / 4)).
Definition xsdt_iter (sdt : Z) : list Z := map (fun i => uint_at (data_address sdt + i * 8) 8) (range (data_len sdt / 8)).
Definition rxsdt_iter (r : RxsdtEnum) : list Z := match r with Rsdt sdt => rsdt_iter sdt | Xsdt sdt => xsdt_iter sdt end.
(** The choice [init] makes. *)
Definition rxsdt_of (sdt : Z) : option RxsdtEnum :=
  match Rsdt_new sdt with Some r => Some r | None => Xsdt_new sdt end.

(** [SDT_POINTERS]: the tables by signature, a later one in place of an earlier
    one with the same signature and manufacturer. *)
Definition SdtSignature : Type := list Z * list Z * list Z.
(** [None] is the panic at a signature that is not UTF-8. *)
Definition get_sdt_signature (sdt : Z) : option SdtSignature :=
  if utf8_valid (sdt_signature sdt) then Some (sdt_signature sdt, oem_id sdt, oem_table_id sdt) else None.
Definition sdt_pointers (offset : Z) (r : RxsdtEnum) : option (gmap SdtSignature Z) :=
  foldl (fun o a => ptrs ← o; signature ← get_sdt_signature (a + offset); Some (<[signature := a + offset]> ptrs))
    (Some ∅) (rxsdt_iter r).
Definition find_sdt (ptrs : gmap SdtSignature Z) (name : list Z) : list Z :=
  map snd (filter (fun e : SdtSignature * Z => e.1.1.1 = name) (map_to_list ptrs)).
(** [find_one_sdt!]; [None]: the macro returns from the function that uses it. *)
Definition find_one_sdt (ptrs : gmap SdtSignature Z) (name : list Z) : option Z :=
  match find_sdt ptrs name with [x] => Some x | _ => None end.

(** ** [Madt] *)

Record Madt := mkMadt { madt_sdt : Z; local_address : Z; madt_flags : Z }.
Definition FLAG_PCAT : Z := 1.

Definition Madt_new (sdt : Z) : option Madt :=
  if bool_decide (sdt_signature sdt = b_APIC) && (8 <=? data_len sdt) then
    Some (mkMadt sdt (uint_at (data_address sdt) 4) (uint_at (data_address sdt + 4) 4))
  else None.

Definition local_apic_at (a : Z) : MadtLocalApic := mkLocalApic (uint_at a 1) (uint_at (a + 1) 1) (uint_at (a + 2) 4).
Definition io_apic_at (a : Z) : MadtIoApic := mkMadtIoApic (uint_at a 1) (uint_at (a + 2) 4) (uint_at (a + 6) 4).
Definition src_override_at (a : Z) : MadtIntSrcOverride :=
  mkSrcOverride (uint_at a 1) (uint_at (a + 1) 1) (uint_at (a + 2) 4) (uint_at (a + 6) 2).
Definition gicc_at (a : Z) : MadtGicc :=
  mkGicc (uint_at (a + 2) 4) (uint_at (a + 6) 4) (uint_at (a + 10) 4) (uint_at (a + 14) 4) (uint_at (a + 18) 4)
    (uint_at (a + 22) 8) (uint_at (a + 30) 8) (uint_at (a + 38) 8) (uint_at (a + 46) 8) (uint_at (a + 54) 4)
    (uint_at (a + 58) 8) (uint_at (a + 66) 8) (uint_at (a + 74) 1) (uint_at (a + 76) 2).
Definition gicd_at (a : Z) : MadtGicd :=
  mkGicd (uint_at (a + 2) 4) (uint_at (a + 6) 8) (uint_at (a + 14) 4) (uint_at (a + 18) 1).

(** [MadtIter::next] at index [i]: the entry, and the next index. *)
Definition madt_next (sdt i : Z) : option (MadtEntry * Z) :=
  if i + 1 <? data_len sdt then
    let entry_type := mem (data_address sdt + i) in
    let entry_len := mem (data_address sdt + (i + 1)) in
    if i + entry_len <=? data_len sdt then
      let a := data_address sdt + i + 2 in
      let item :=
        if entry_type =? 0x0 then
          if entry_len =? size_LocalApic + 2 then LocalApic (local_apic_at a) else InvalidLocalApic entry_len
        else if entry_type =? 0x1 then
          if entry_len =? size_IoApic + 2 then IoApicEntry (io_apic_at a) else InvalidIoApic entry_len
        else if entry_type =? 0x2 then
          if entry_len =? size_IntSrcOverride + 2 then IntSrcOverride (src_override_at a) else InvalidIntSrcOverride entry_len
        else if entry_type =? 0xB then
          if size_Gicc + 2 <=? entry_len then Gicc (gicc_at a) else InvalidGicc entry_len
        else if entry_type =? 0xC then
          if size_Gicd + 2 <=? entry_len then Gicd (gicd_at a) else InvalidGicd entry_len
        else Unknown entry_type
      in Some (item, i + entry_len)
    else None
  else None.

(** A loop over the iterator; [None]: [fuel] rounds are not enough. *)
Fixpoint madt_loop (fuel : nat) (sdt i : Z) : option (list MadtEntry) :=
  match fuel with
  | O => None
  | S fuel' =>
      match madt_next sdt i with
      | None => Some []
      | Some (e, i') => cons e <$> madt_loop fuel' sdt i'
      end
  end.
(** [madt.iter()]: the first 8 bytes of the data are the address and the flags. *)
Definition madt_iter (fuel : nat) (m : Madt) : option (list MadtEntry) := madt_loop fuel (madt_sdt m) 8.

End acpi.
