(* ===== verification/AcpiSpec.v ===== *)
(** * Properties of the firmware tables

    The MADT is read back as it was written, and when the loop over its entries
    ends. *)

From S2P Require Import Prelude PageInfo FrameAllocator Rmm OrdMap Grants UserCopy Acpi.
#[local] Open Scope Z_scope.

(** ** Reading structures *)

(** The bytes [l] lie at [a]. *)
Definition held (mem : Z -> Z) (a : Z) (l : list Z) : Prop := bytes_at mem a (Z.of_nat (length l)) = l.

Lemma bytes_at_app mem a m n : bytes_at mem a (Z.of_nat (m + n)) = bytes_at mem a (Z.of_nat m) ++ bytes_at mem (a + Z.of_nat m) (Z.of_nat n).
Proof.
  unfold bytes_at. revert a. induction m as [|m IH]; intros a; simpl.
  - by rewrite Z.add_0_r.
  - rewrite !addrs_cons. cbn [map app]. f_equal. rewrite IH. by replace (a + 1 + Z.of_nat m) with (a + Z.of_nat (S m)) by lia.
Qed.
Lemma bytes_at_length mem a n : length (bytes_at mem a (Z.of_nat n)) = n.
Proof. unfold bytes_at, addrs, range. by rewrite !length_map, length_seq, Nat2Z.id. Qed.

Lemma held_app mem a l l' : held mem a (l ++ l') <-> held mem a l /\ held mem (a + Z.of_nat (length l)) l'.
Proof.
  unfold held. rewrite length_app, bytes_at_app. split.
  - intros H. apply app_inj_1 in H; [done|]. apply bytes_at_length.
  - by intros [-> ->].
Qed.

Lemma held_field mem a l o n x : held mem a l -> take n (drop o l) = to_ne_bytes n x -> 0 <= x < 256 ^ Z.of_nat n ->
  uint_at mem (a + Z.of_nat o) (Z.of_nat n) = x.
Proof.
  intros H E Hx. destruct n as [|n']; [unfold uint_at; simpl in *; change (bytes_at mem (a + Z.of_nat o) 0) with (@nil Z); simpl; lia|].
  set (n := S n') in *. assert (n <> 0%nat) by done. clearbody n. rewrite <- (take_drop o l), <- (take_drop n (drop o l)), E in H.
  assert (n <= length (drop o l))%nat as Hn.
  { pose proof (f_equal length E) as L. rewrite to_ne_length, length_take in L. lia. }
  apply held_app in H as [_ H]. apply held_app in H as [H _].
  unfold held in H. rewrite to_ne_length, length_take in H. unfold uint_at. rewrite length_drop in Hn.
  rewrite Nat.min_l in H by lia. rewrite H, from_to_ne. by apply Z.mod_small.
Qed.
Lemma held_byte mem a l (o : nat) b : held mem a l -> l !! o = Some b -> mem (a + Z.of_nat o) = b.
Proof.
  intros H Hb. unfold held, bytes_at, addrs, range in H. rewrite <- H in Hb. rewrite !list_lookup_fmap in Hb.
  destruct (seq 0 _ !! o) as [k|] eqn:Hk; [|done]. apply lookup_seq in Hk as [-> ?]. cbn in Hb. congruence.
Qed.

(** ** Writing a table *)

Definition struct (ty : Z) (body : list Z) : list Z := ty :: (2 + Z.of_nat (length body)) :: body.

Definition ubyte (x : Z) : Prop := 0 <= x < 2 ^ 8.
Definition uword (x : Z) : Prop := 0 <= x < 2 ^ 32.
Definition ulong (x : Z) : Prop := 0 <= x < 2 ^ 64.

(** What follows type and length, as the ACPI specification lays it out: reserved
    bytes are arbitrary, the entries of a GIC may be longer than the fields the
    kernel knows, and what an entry of another type or of a wrong length
    holds does not matter. *)
Definition body_of (e : MadtEntry) (ty : Z) (body : list Z) : Prop :=
  match e with
  | LocalApic e => ty = 0 /\ body = [la_processor e; la_id e] ++ to_ne_bytes 4 (la_flags e)
  | IoApicEntry e => ty = 1 /\ exists r, body = [mi_id e; r] ++ to_ne_bytes 4 (mi_address e) ++ to_ne_bytes 4 (mi_gsi_base e)
  | IntSrcOverride e => ty = 2 /\ body = [so_bus_source e; so_irq_source e] ++ to_ne_bytes 4 (so_gsi_base e) ++ to_ne_bytes 2 (so_flags e)
  | Gicc e => ty = 0xB /\ exists r1 r2 r3 more, body = [r1; r2] ++ to_ne_bytes 4 (gicc_cpu_interface_number e) ++ to_ne_bytes 4 (gicc_acpi_processor_uid e)
      ++ to_ne_bytes 4 (gicc_flags e) ++ to_ne_bytes 4 (gicc_parking_protocol_version e) ++ to_ne_bytes 4 (gicc_performance_interrupt_gsiv e)
      ++ to_ne_bytes 8 (gicc_parked_address e) ++ to_ne_bytes 8 (gicc_physical_base_address e) ++ to_ne_bytes 8 (gicc_gicv e)
      ++ to_ne_bytes 8 (gicc_gich e) ++ to_ne_bytes 4 (gicc_vgic_maintenance_interrupt e) ++ to_ne_bytes 8 (gicc_gicr_base_address e)
      ++ to_ne_bytes 8 (gicc_mpidr e) ++ [gicc_processor_power_efficiency_class e; r3] ++ to_ne_bytes 2 (gicc_spe_overflow_interrupt e) ++ more
  | Gicd e => ty = 0xC /\ exists r1 r2 r3 r4 r5 more, body = [r1; r2] ++ to_ne_bytes 4 (gicd_gic_id e) ++ to_ne_bytes 8 (gicd_physical_base_address e)
      ++ to_ne_bytes 4 (gicd_system_vector_base e) ++ [gicd_gic_version e; r3; r4; r5] ++ more
  | Unknown t => ty = t /\ t ∉ [0; 1; 2; 0xB; 0xC]
  | InvalidLocalApic len => ty = 0 /\ len = 2 + Z.of_nat (length body) /\ len <> 8
  | InvalidIoApic len => ty = 1 /\ len = 2 + Z.of_nat (length body) /\ len <> 12
  | InvalidIntSrcOverride len => ty = 2 /\ len = 2 + Z.of_nat (length body) /\ len <> 10
  | InvalidGicc len => ty = 0xB /\ len = 2 + Z.of_nat (length body) /\ len < 80
  | InvalidGicd len => ty = 0xC /\ len = 2 + Z.of_nat (length body) /\ len < 24
  end.

(** The fields are of their width. *)
Definition entry_ok (e : MadtEntry) : Prop :=
  match e with
  | LocalApic e => ubyte (la_processor e) /\ ubyte (la_id e) /\ uword (la_flags e)
  | IoApicEntry e => ubyte (mi_id e) /\ uword (mi_address e) /\ uword (mi_gsi_base e)
  | IntSrcOverride e => ubyte (so_bus_source e) /\ ubyte (so_irq_source e) /\ uword (so_gsi_base e) /\ 0 <= so_flags e < 2 ^ 16
  | Gicc e => uword (gicc_cpu_interface_number e) /\ uword (gicc_acpi_processor_uid e) /\ uword (gicc_flags e)
      /\ uword (gicc_parking_protocol_version e) /\ uword (gicc_performance_interrupt_gsiv e) /\ ulong (gicc_parked_address e)
      /\ ulong (gicc_physical_base_address e) /\ ulong (gicc_gicv e) /\ ulong (gicc_gich e) /\ uword (gicc_vgic_maintenance_interrupt e)
      /\ ulong (gicc_gicr_base_address e) /\ ulong (gicc_mpidr e) /\ ubyte (gicc_processor_power_efficiency_class e)
      /\ 0 <= gicc_spe_overflow_interrupt e < 2 ^ 16
  | Gicd e => uword (gicd_gic_id e) /\ ulong (gicd_physical_base_address e) /\ uword (gicd_system_vector_base e) /\ ubyte (gicd_gic_version e)
  | _ => True
  end.

(** The bytes [l] are an entry that says [e]; a length is one byte. *)
Definition encodes (e : MadtEntry) (l : list Z) : Prop :=
  entry_ok e /\ exists ty body, l = struct ty body /\ 2 + Z.of_nat (length body) < 2 ^ 8 /\ body_of e ty body.
(** Bytes at the end that do not hold a whole entry. *)
Definition no_entry (l : list Z) : Prop :=
  match l with
  | [] | [_] => True
  | _ :: len :: _ => Z.of_nat (length l) < len
  end.

Lemma struct_length ty b : Z.of_nat (length (struct ty b)) = 2 + Z.of_nat (length b).
Proof. simpl. lia. Qed.
Lemma one_byte x : ubyte x -> to_ne_bytes 1 x = [x].
Proof. intros [? ?]. simpl. by rewrite Z.mod_small by lia. Qed.

Ltac field Hh o n :=
  refine (held_field _ _ _ o n _ Hh _ _);
  [cbn -[Z.modulo Z.div]; rewrite ?Z.mod_small by done; reflexivity|cbn; first [done|assumption|unfold ubyte, uword, ulong in *; lia]].

Section read.
Context (mem : Z -> Z).

Lemma local_apic_back a ty body e : entry_ok (LocalApic e) -> body_of (LocalApic e) ty body -> held mem a (struct ty body) -> local_apic_at mem (a + 2) = e.
Proof.
  intros (? & ? & ?) (-> & ->) Hh. cbn [struct] in Hh. destruct e as [p i f]. unfold local_apic_at. rewrite <- !Z.add_assoc. cbn [entry_ok] in *.
  f_equal; [field Hh 2%nat 1%nat|field Hh 3%nat 1%nat|field Hh 4%nat 4%nat].
Qed.
Lemma io_apic_back a ty body e : entry_ok (IoApicEntry e) -> body_of (IoApicEntry e) ty body -> held mem a (struct ty body) -> io_apic_at mem (a + 2) = e.
Proof.
  intros (? & ? & ?) (-> & r & ->) Hh. cbn [struct] in Hh. destruct e as [p i f]. unfold io_apic_at. rewrite <- !Z.add_assoc. cbn [entry_ok] in *.
  f_equal; [field Hh 2%nat 1%nat|field Hh 4%nat 4%nat|field Hh 8%nat 4%nat].
Qed.
Lemma src_override_back a ty body e : entry_ok (IntSrcOverride e) -> body_of (IntSrcOverride e) ty body -> held mem a (struct ty body) -> src_override_at mem (a + 2) = e.
Proof.
  intros (? & ? & ? & ?) (-> & ->) Hh. cbn [struct] in Hh. destruct e as [b i g f]. unfold src_override_at. rewrite <- !Z.add_assoc. cbn [entry_ok] in *.
  f_equal; [field Hh 2%nat 1%nat|field Hh 3%nat 1%nat|field Hh 4%nat 4%nat|field Hh 8%nat 2%nat].
Qed.
Lemma gicc_back a ty body e : entry_ok (Gicc e) -> body_of (Gicc e) ty body -> held mem a (struct ty body) -> gicc_at mem (a + 2) = e.
Proof.
  intros (? & ? & ? & ? & ? & ? & ? & ? & ? & ? & ? & ? & ? & ?) (-> & r1 & r2 & r3 & more & ->) Hh. cbn [struct] in Hh. destruct e. unfold gicc_at. rewrite <- !Z.add_assoc. cbn [entry_ok] in *.
  f_equal; [field Hh 4%nat 4%nat|field Hh 8%nat 4%nat|field Hh 12%nat 4%nat|field Hh 16%nat 4%nat|field Hh 20%nat 4%nat|field Hh 24%nat 8%nat|field Hh 32%nat 8%nat|field Hh 40%nat 8%nat
    |field Hh 48%nat 8%nat|field Hh 56%nat 4%nat|field Hh 60%nat 8%nat|field Hh 68%nat 8%nat|field Hh 76%nat 1%nat|field Hh 78%nat 2%nat].
Qed.
Lemma gicd_back a ty body e : entry_ok (Gicd e) -> body_of (Gicd e) ty body -> held mem a (struct ty body) -> gicd_at mem (a + 2) = e.
Proof.
  intros (? & ? & ? & ?) (-> & r1 & r2 & r3 & r4 & r5 & more & ->) Hh. cbn [struct] in Hh. destruct e. unfold gicd_at. rewrite <- !Z.add_assoc. cbn [entry_ok] in *.
  f_equal; [field Hh 4%nat 4%nat|field Hh 8%nat 8%nat|field Hh 16%nat 4%nat|field Hh 20%nat 1%nat].
Qed.
End read.

(** ** The loop over the entries *)

Ltac size_test :=
  unfold size_LocalApic, size_IoApic, size_IntSrcOverride, size_Gicc, size_Gicd;
  match goal with
  | |- context [?a =? ?b] => destruct (Z.eqb_spec a b)
  | |- context [?a <=? ?b] => destruct (Z.leb_spec a b)
  end.

Section madt.
Context (mem : Z -> Z) (sdt : Z).

(** What [madt_next] makes of an entry. *)
Lemma madt_next_encoded i e l : encodes e l -> 8 <= i -> i + Z.of_nat (length l) <= data_len mem sdt ->
  held mem (data_address sdt + i) l -> madt_next mem sdt i = Some (e, i + Z.of_nat (length l)).
Proof.
  intros (Ok & ty & body & -> & _ & Hb) Hi Hl Hh.
  pose proof (held_byte _ _ _ 0 ty Hh eq_refl) as B0. rewrite Z.add_0_r in B0.
  pose proof (held_byte _ _ _ 1 (2 + Z.of_nat (length body)) Hh eq_refl) as B1.
  rewrite struct_length in *. unfold madt_next. destruct (Z.ltb_spec (i + 1) (data_len mem sdt)); [|lia].
  replace (data_address sdt + (i + 1)) with (data_address sdt + i + Z.of_nat 1) by lia. rewrite B0, B1.
  destruct (Z.leb_spec (i + (2 + Z.of_nat (length body))) (data_len mem sdt)); [|lia]. do 2 f_equal.
  assert (Hlen : match e with LocalApic _ => Z.of_nat (length body) = 6 | IoApicEntry _ => Z.of_nat (length body) = 10 | IntSrcOverride _ => Z.of_nat (length body) = 8
                 | Gicc _ => 78 <= Z.of_nat (length body) | Gicd _ => 22 <= Z.of_nat (length body) | _ => True end).
  { destruct e; cbn [body_of] in Hb; try done; destruct_and! Hb; repeat (match goal with H : exists _, _ |- _ => destruct H end); subst body; cbn; lia. }
  destruct e as [e|len|e|len|e|len|e|len|e|len|t]; pose proof (proj1 Hb) as Ht; clear B0; subst ty.
  11:{ destruct Hb as [_ Hb]. repeat (match goal with |- context [?a =? ?b] => destruct (Z.eqb_spec a b); [set_solver|] end). done. }
  all: cbn -[Z.add local_apic_at io_apic_at src_override_at gicc_at gicd_at]; size_test;
    first [destruct Hb as (_ & -> & ?); first [done|lia] | lia | f_equal; by eauto using local_apic_back, io_apic_back, src_override_back, gicc_back, gicd_back].
Qed.

(** The end of the table. *)
Lemma madt_next_end i l : 8 <= i -> no_entry l -> data_len mem sdt = i + Z.of_nat (length l) -> held mem (data_address sdt + i) l -> madt_next mem sdt i = None.
Proof.
  intros Hi Hn Hl Hh. unfold madt_next. destruct l as [|x [|len l]]; cbn [length] in Hl; destruct (Z.ltb_spec (i + 1) (data_len mem sdt)); try done; try lia.
  pose proof (held_byte _ _ _ 1 len Hh eq_refl) as B1. replace (data_address sdt + (i + 1)) with (data_address sdt + i + Z.of_nat 1) by lia. rewrite B1.
  cbn in Hn. destruct (Z.leb_spec (i + len) (data_len mem sdt)); [lia|done].
Qed.

(** The indices the loop comes to. *)
Inductive visited : Z -> Prop :=
| visited_start : visited 8
| visited_next i e j : visited i -> madt_next mem sdt i = Some (e, j) -> visited j.

Lemma madt_next_inv i e j : madt_next mem sdt i = Some (e, j) ->
  i + 1 < data_len mem sdt /\ j = i + mem (data_address sdt + (i + 1)) /\ j <= data_len mem sdt.
Proof.
  unfold madt_next. destruct (Z.ltb_spec (i + 1) (data_len mem sdt)); [|done].
  destruct (Z.leb_spec (i + mem (data_address sdt + (i + 1))) (data_len mem sdt)); [|done]. by intros [= _ <-].
Qed.

Lemma madt_loop_ends fuel i : visited i -> (forall j, visited j -> j + 1 < data_len mem sdt -> 0 < mem (data_address sdt + (j + 1))) ->
  Z.max 0 (data_len mem sdt - i) < Z.of_nat fuel -> is_Some (madt_loop mem fuel sdt i).
Proof.
  intros V H. revert i V. induction fuel as [|fuel IH]; intros i V Hf; cbn [madt_loop]; [lia|].
  destruct (madt_next mem sdt i) as [[e j]|] eqn:E; [|eauto].
  pose proof (madt_next_inv _ _ _ E) as (? & -> & ?).
  destruct (IH (i + mem (data_address sdt + (i + 1)))) as [l ->]; [by econstructor|specialize (H i V); lia|eauto].
Qed.

(** An entry of length 0 is returned for ever. *)
Lemma madt_loop_stuck fuel i : 8 <= i -> i + 1 < data_len mem sdt -> mem (data_address sdt + (i + 1)) = 0 -> madt_loop mem fuel sdt i = None.
Proof.
  intros Hi Hl H0. induction fuel as [|fuel IH]; [done|]. cbn [madt_loop].
  destruct (madt_next mem sdt i) as [[e j]|] eqn:E.
  - apply madt_next_inv in E as (_ & -> & _). by rewrite H0, Z.add_0_r, IH.
  - revert E. unfold madt_next. destruct (Z.ltb_spec (i + 1) (data_len mem sdt)); [|lia]. rewrite H0, Z.add_0_r.
    by destruct (Z.leb_spec i (data_len mem sdt)); [|lia].
Qed.
Lemma visited_none i : (forall fuel, madt_loop mem fuel sdt i = None) -> visited i -> forall fuel, madt_loop mem fuel sdt 8 = None.
Proof.
  intros H V. induction V as [|i e j V IH E]; [done|]. apply IH. intros [|fuel]; [done|]. cbn [madt_loop]. by rewrite E, H.
Qed.
End madt.

(** The loop over the MADT ends exactly if no entry that it comes to has length
    0, and then after at most as many rounds as the table has bytes. *)
Theorem madt_iter_ends mem m : (forall a, 0 <= mem a) ->
  (exists fuel, is_Some (madt_iter mem fuel m)) <->
  is_Some (madt_iter mem (S (Z.to_nat (data_len mem (madt_sdt m)))) m) /\
  forall i, visited mem (madt_sdt m) i -> i + 1 < data_len mem (madt_sdt m) -> 0 < mem (data_address (madt_sdt m) + (i + 1)).
Proof.
  intros Hb. unfold madt_iter. set (sdt := madt_sdt m). split; [|by intros [? _]; eauto].
  intros [fuel Hs].
  assert (forall i, visited mem sdt i -> i + 1 < data_len mem sdt -> 0 < mem (data_address sdt + (i + 1))) as H.
  { intros i V Hi. destruct (decide (mem (data_address sdt + (i + 1)) = 0)) as [H0|H0]; [|specialize (Hb (data_address sdt + (i + 1))); lia].
    rewrite (visited_none mem sdt i) in Hs; [by destruct Hs as [? [=]]| |exact V]. intros f. apply madt_loop_stuck; [|done|done].
    clear -V Hb. induction V as [|i e j V IH E]; [lia|]. apply madt_next_inv in E as (? & -> & ?).
    specialize (Hb (data_address sdt + (i + 1))). lia. }
  split; [|done]. apply madt_loop_ends; [constructor|done|]. lia.
Qed.

Lemma madt_loop_reads mem sdt es ls rest i : Forall2 encodes es ls -> no_entry rest -> 8 <= i ->
  data_len mem sdt = i + Z.of_nat (length (concat ls ++ rest)) ->
  held mem (data_address sdt + i) (concat ls ++ rest) ->
  madt_loop mem (S (length es)) sdt i = Some es.
Proof.
  intros Ok Hn. revert i. induction Ok as [|e l es ls He _ IH]; intros i Hi Hl Hh.
  - cbn [madt_loop]. by rewrite (madt_next_end mem sdt i rest).
  - cbn [concat] in Hl, Hh. rewrite <- app_assoc in Hl, Hh. rewrite length_app, Nat2Z.inj_add in Hl. apply held_app in Hh as [H1 H2].
    cbn [length]. set (n := S (length es)) in *. cbn [madt_loop]. rewrite (madt_next_encoded _ _ _ e l); [|done|done|lia|done].
    rewrite IH; [done|lia|lia|]. by rewrite Z.add_assoc.
Qed.

(** C36: the MADT is read back as the firmware wrote it: over a table whose data
    are the address and flags of 8 bytes, then the encodings of a list of
    entries, and at last bytes that do not hold a whole entry (or none), the iterator
    yields exactly these entries in their order and ends. Entries are of the kinds
    the kernel knows, with any reserved bytes and, for a GIC, any
    further bytes; of other types, with any body; and of known types with a wrong
    length, with any body. *)
Theorem madt_iter_roundtrip mem m es ls rest :
  Forall2 encodes es ls -> no_entry rest ->
  data_len mem (madt_sdt m) = 8 + Z.of_nat (length (concat ls ++ rest)) ->
  held mem (data_address (madt_sdt m) + 8) (concat ls ++ rest) ->
  madt_iter mem (S (length es)) m = Some es.
Proof. intros. by eapply madt_loop_reads. Qed.

(** ** A table *)

Module AcpiExamples.
(** An entry of type 4 has six bytes, one of a GIC two more than the kernel knows,
    and the table ends in an entry that is cut off. *)
Definition entries : list MadtEntry :=
  [LocalApic (mkLocalApic 0 0 1); IoApicEntry (mkMadtIoApic 2 0xFEC00000 0); Unknown 4;
   IntSrcOverride (mkSrcOverride 0 0 2 0); Gicd (mkGicd 1 0x8000000 0 3); InvalidLocalApic 3].
Definition written : list (list Z) :=
  [struct 0 [0; 0; 1; 0; 0; 0]; struct 1 [2; 7; 0; 0; 0xC0; 0xFE; 0; 0; 0; 0]; struct 4 [0xFF; 5; 0; 1];
   struct 2 [0; 0; 2; 0; 0; 0; 0; 0]; struct 0xC [0; 0; 1; 0; 0; 0; 0; 0; 0; 8; 0; 0; 0; 0; 0; 0; 0; 0; 3; 9; 9; 9; 1; 2]; struct 0 [5]].
Definition cut_off : list Z := [0; 8; 1].
(** The header at address 0, of which only signature and length are used. *)
Definition zeros (n : nat) : list Z := replicate n 0.
Definition table (data : list Z) : list Z := b_APIC ++ to_ne_bytes 4 (36 + 8 + Z.of_nat (length data)) ++ zeros 28 ++ zeros 8 ++ data.
Definition mem_of (l : list Z) (a : Z) : Z := default 0 (l !! Z.to_nat a).
Definition mem1 : Z -> Z := mem_of (table (concat written ++ cut_off)).
Definition madt1 : Madt := mkMadt 0 0 0.

Lemma written_ok : Forall2 encodes entries written.
Proof.
  unfold entries, written. repeat (apply Forall2_cons; split); [..|constructor];
    (split; [cbn; unfold ubyte, uword, ulong; lia || done|]); eexists _, _; (split; [reflexivity|]); (split; [vm_compute; reflexivity|]); (split; [reflexivity|]).
  - reflexivity.
  - by exists 7.
  - set_solver.
  - reflexivity.
  - by exists 0, 0, 9, 9, 9, [1; 2].
  - by vm_compute.
Qed.
Lemma madt_iter_roundtrip_witness : madt_iter mem1 7 madt1 = Some entries.
Proof.
  apply (madt_iter_roundtrip mem1 madt1 entries written cut_off written_ok); [vm_compute; reflexivity|vm_compute; reflexivity|].
  unfold held. vm_compute. reflexivity.
Defined.
Example madt_found : Madt_new mem1 0 = Some madt1.
Proof. vm_compute. reflexivity. Qed.

(** A table whose entry has length 0: the loop does not end. *)
Definition mem0 : Z -> Z := mem_of (table [0; 0]).
Theorem madt_zero_entry_loops fuel : madt_iter mem0 fuel madt1 = None.
Proof. apply madt_loop_stuck; [done|by vm_compute|by vm_compute]. Qed.
End AcpiExamples.
