(* ===== verification/VfsCache.v ===== *)
(** * The cache of path lookups (src/vfs_cache.rs)

    Which paths do not exist, and hints for those that do, each with the time at
    which it expires. The ordered map is a finite map; [keys] lists its keys in
    the order of [CacheKey]. The times at which an operation reads the clock are
    arguments, in nanoseconds. *)

From S2P Require Import Prelude.
From Stdlib Require Import String.
From stdpp Require Import sorting strings.
#[local] Open Scope Z_scope.

Definition NEGATIVE_CACHE_TTL_NS : Z := 5000000000.
Definition POSITIVE_CACHE_TTL_NS : Z := 30000000000.
Definition MAX_CACHE_ENTRIES : nat := 4096.

Inductive CachedLookup :=
| NotFound (expires_at : Z)
| Found (node_id expires_at : Z).
#[export] Instance CachedLookup_eq_dec : EqDecision CachedLookup.
Proof. solve_decision. Defined.

Definition expires (e : CachedLookup) : Z := match e with NotFound t => t | Found _ t => t end.
Definition is_expired (e : CachedLookup) (now : Z) : bool := expires e <=? now.

Record CacheKey := mkKey { ck_namespace : Z; ck_scheme : string; ck_path : string }.
#[export] Instance CacheKey_eq_dec : EqDecision CacheKey.
Proof. solve_decision. Defined.
#[export] Instance CacheKey_countable : Countable CacheKey.
Proof.
  apply (inj_countable' (fun k => (ck_namespace k, ck_scheme k, ck_path k)) (fun p => mkKey p.1.1 p.1.2 p.2)). by intros [].
Defined.

(** The derived order: by field. *)
Definition key_compare (a b : CacheKey) : comparison :=
  match ck_namespace a ?= ck_namespace b with
  | Eq => match String.compare (ck_scheme a) (ck_scheme b) with
          | Eq => String.compare (ck_path a) (ck_path b)
          | c => c
          end
  | c => c
  end.
Definition key_le (a b : CacheKey) : Prop := key_compare a b <> Gt.
#[export] Instance key_le_dec a b : Decision (key_le a b).
Proof. unfold key_le. apply _. Defined.

Record VfsCache := mkCache {
  entries : gmap CacheKey CachedLookup;
  hits : Z; misses : Z; negative_hits : Z
}.
Definition VfsCache_new : VfsCache := mkCache ∅ 0 0 0.

Definition keys (m : gmap CacheKey CachedLookup) : list CacheKey := merge_sort key_le (map fst (map_to_list m)).

Definition set_entries (f : gmap CacheKey CachedLookup -> gmap CacheKey CachedLookup) (c : VfsCache) : VfsCache :=
  mkCache (f (entries c)) (hits c) (misses c) (negative_hits c).
Definition add_miss (c : VfsCache) : VfsCache := mkCache (entries c) (hits c) (usize_add (misses c) 1) (negative_hits c).
Definition add_hit (c : VfsCache) : VfsCache := mkCache (entries c) (usize_add (hits c) 1) (misses c) (negative_hits c).
Definition add_negative (c : VfsCache) : VfsCache := mkCache (entries c) (hits c) (misses c) (usize_add (negative_hits c) 1).

(** [time::monotonic() as u64] *)
Definition current_time_ns (monotonic : Z) : Z := monotonic mod 2 ^ 64.
(** [now + TTL] on [u64] *)
Definition u64_add (dbg : bool) {S} (x y : Z) : M S Z :=
  if x + y <? 2 ^ 64 then ret (x + y) else if dbg then panic else ret (wrap (x + y)).

Definition lookup_ (namespace : Z) (scheme path : string) (t : Z) : M VfsCache (option CachedLookup) :=
  let key := mkKey namespace scheme path in
  let now := current_time_ns t in
  let! c := get_state in
  match entries c !! key with
  | Some entry =>
      if is_expired entry now then modify (set_entries (delete key)) ;;; modify add_miss ;;; ret None
      else
        modify add_hit ;;;
        match entry with NotFound _ => modify add_negative | Found _ _ => ret tt end ;;;
        ret (Some entry)
  | None => modify add_miss ;;; ret None
  end.

Definition maybe_evict (t : Z) : M VfsCache unit :=
  let! c := get_state in
  if (MAX_CACHE_ENTRIES <=? size (entries c))%nat then
    let now := current_time_ns t in
    modify (set_entries (filter (fun kv => is_expired kv.2 now = false))) ;;;
    let! c := get_state in
    if (MAX_CACHE_ENTRIES <=? size (entries c))%nat then
      let to_remove := (size (entries c) / 4)%nat in
      forM (take to_remove (keys (entries c))) (fun key => modify (set_entries (delete key)))
    else ret tt
  else ret tt.

(** [t] is the time when [maybe_evict] reads the clock, [t'] when the insertion
    does. *)
Definition insert_negative (dbg : bool) (namespace : Z) (scheme path : string) (t t' : Z) : M VfsCache unit :=
  maybe_evict t ;;;
  let now := current_time_ns t' in
  let! e := u64_add dbg now NEGATIVE_CACHE_TTL_NS in
  modify (set_entries <[mkKey namespace scheme path := NotFound e]>).
Definition insert_found (dbg : bool) (namespace : Z) (scheme path : string) (node_id t t' : Z) : M VfsCache unit :=
  maybe_evict t ;;;
  let now := current_time_ns t' in
  let! e := u64_add dbg now POSITIVE_CACHE_TTL_NS in
  modify (set_entries <[mkKey namespace scheme path := Found node_id e]>).

Definition invalidate (namespace : Z) (scheme path : string) : M VfsCache unit :=
  modify (set_entries (delete (mkKey namespace scheme path))).

Definition of_scheme (ns : Z) (scheme : string) (k : CacheKey) : bool :=
  (ck_namespace k =? ns) && String.eqb (ck_scheme k) scheme.
Definition invalidate_scheme (namespace : Z) (scheme : string) : M VfsCache unit :=
  modify (set_entries (filter (fun kv => of_scheme namespace scheme kv.1 = false))).
Definition invalidate_prefix (namespace : Z) (scheme prefix_ : string) : M VfsCache unit :=
  modify (set_entries (filter (fun kv => of_scheme namespace scheme kv.1 && String.prefix prefix_ (ck_path kv.1) = false))).

Definition stats (c : VfsCache) : Z * Z * Z * Z := (hits c, misses c, negative_hits c, Z.of_nat (size (entries c))).
