(* ===== verification/VfsCacheSpec.v ===== *)
(** * Properties of the cache of path lookups

    The cache against an unbounded record of what was remembered: it never
    answers what was not remembered or has expired, it forgets nothing while few
    entries were made, and its size is bounded. *)

From S2P Require Import Prelude VfsCache.
From Stdlib Require Import String.
From stdpp Require Import sorting strings.
#[local] Open Scope Z_scope.

(** ** Operations and the record *)

Inductive CacheOp :=
| OpLookup (k : CacheKey) (t : Z)
| OpNegative (k : CacheKey) (t t' : Z)
| OpFound (k : CacheKey) (node_id t t' : Z)
| OpInvalidate (k : CacheKey)
| OpInvalidateScheme (ns : Z) (scheme : string)
| OpInvalidatePrefix (ns : Z) (scheme prefix_ : string).

Definition cache_step (dbg : bool) (op : CacheOp) : M VfsCache unit :=
  match op with
  | OpLookup k t => lookup_ (ck_namespace k) (ck_scheme k) (ck_path k) t ;;; ret tt
  | OpNegative k t t' => insert_negative dbg (ck_namespace k) (ck_scheme k) (ck_path k) t t'
  | OpFound k n t t' => insert_found dbg (ck_namespace k) (ck_scheme k) (ck_path k) n t t'
  | OpInvalidate k => invalidate (ck_namespace k) (ck_scheme k) (ck_path k)
  | OpInvalidateScheme ns sch => invalidate_scheme ns sch
  | OpInvalidatePrefix ns sch p => invalidate_prefix ns sch p
  end.

(** What was last remembered of each path and not invalidated since. *)
Definition Record_ : Type := CacheKey -> option CachedLookup.
Definition record_step (op : CacheOp) (r : Record_) : Record_ := fun k =>
  match op with
  | OpLookup _ _ => r k
  | OpNegative k' _ t' => if decide (k = k') then Some (NotFound (t' + NEGATIVE_CACHE_TTL_NS)) else r k
  | OpFound k' n _ t' => if decide (k = k') then Some (Found n (t' + POSITIVE_CACHE_TTL_NS)) else r k
  | OpInvalidate k' => if decide (k = k') then None else r k
  | OpInvalidateScheme ns sch => if of_scheme ns sch k then None else r k
  | OpInvalidatePrefix ns sch p => if of_scheme ns sch k && String.prefix p (ck_path k) then None else r k
  end.

(** The clock does not run back, and is far from the end of its range. *)
Definition time_ok (T t : Z) : Prop := 0 <= T <= t /\ t + POSITIVE_CACHE_TTL_NS < 2 ^ 64.
Definition op_time (T : Z) (op : CacheOp) (T' : Z) : Prop :=
  match op with
  | OpLookup _ t => time_ok T t /\ T' = t
  | OpNegative _ t t' | OpFound _ _ t t' => time_ok T t /\ time_ok t t' /\ T' = t'
  | _ => T' = T
  end.
Definition inserts (op : CacheOp) : nat := match op with OpNegative _ _ _ | OpFound _ _ _ _ => 1 | _ => 0 end.

(** The states after some operations: the number of insertions, the time, the
    record, the cache. *)
Inductive cache_run (dbg : bool) : nat -> Z -> Record_ -> VfsCache -> Prop :=
| cache_start : cache_run dbg 0 0 (fun _ => None) VfsCache_new
| cache_next n T r c op T' c' : cache_run dbg n T r c -> op_time T op T' -> cache_step dbg op c = Done (tt, c') ->
    cache_run dbg (n + inserts op) T' (record_step op r) c'.

(** ** Eviction *)

Lemma now_small T t : time_ok T t -> current_time_ns t = t.
Proof. intros [? ?]. apply Z.mod_small. unfold POSITIVE_CACHE_TTL_NS in *. lia. Qed.

Lemma forM_delete (l : list CacheKey) c : exists c', forM l (fun key => modify (set_entries (delete key))) c = Done (tt, c') /\
  entries c' ⊆ entries c /\ (forall k, k ∈ l -> entries c' !! k = None).
Proof.
  revert c. induction l as [|k l IH]; intros c; [eexists; split_and!; [done|done|set_solver]|].
  destruct (IH (set_entries (delete k) c)) as (c' & E & S & N). exists c'. cbn [forM]. unfold bind, modify in *. split_and!; [done| |].
  - etrans; [exact S|]. apply delete_subseteq.
  - intros k' [->|H]%elem_of_cons; [|by apply N]. apply eq_None_not_Some. intros [e He].
    apply (lookup_weaken _ _ _ _ He) in S. cbn in S. by rewrite lookup_delete_eq in S.
Qed.

Lemma keys_head (m : gmap CacheKey CachedLookup) : m <> ∅ -> exists k l, keys m = k :: l /\ is_Some (m !! k).
Proof.
  intros Hm. pose proof (merge_sort_Permutation key_le (map fst (map_to_list m))) as P. unfold keys.
  destruct (merge_sort key_le _) as [|k l].
  - apply Permutation_nil in P. apply map_eq_nil, map_to_list_empty_iff in P. done.
  - exists k, l. split; [done|]. assert (k ∈ map fst (map_to_list m)) as H by (rewrite <- P; left).
    apply list_elem_of_fmap in H as ([k' e] & -> & H). apply elem_of_map_to_list in H. eauto.
Qed.

(** [maybe_evict] leaves room for one more; with room, it does nothing; what it
    removes is expired or was one entry too many. *)
Lemma maybe_evict_correct t c : (size (entries c) <= MAX_CACHE_ENTRIES)%nat ->
  exists c', maybe_evict t c = Done (tt, c') /\ entries c' ⊆ entries c /\ (size (entries c') < MAX_CACHE_ENTRIES)%nat /\
    ((size (entries c) < MAX_CACHE_ENTRIES)%nat -> c' = c).
Proof.
  intros Hs. unfold maybe_evict, bind, get_state, modify. destruct (Nat.leb_spec MAX_CACHE_ENTRIES (size (entries c))) as [Hm|Hm]; [|by eexists].
  set (c1 := set_entries _ c). assert (entries c1 ⊆ entries c) as S1 by apply map_filter_subseteq.
  pose proof (map_subseteq_size _ _ S1).
  destruct (Nat.leb_spec MAX_CACHE_ENTRIES (size (entries c1))) as [Hm1|Hm1]; [|exists c1; split_and!; [done|done|done|intros; exfalso; lia]].
  destruct (forM_delete (take (size (entries c1) / 4)%nat (keys (entries c1))) c1) as (c' & E & S & N).
  exists c'. split_and!; [exact E|by etrans| |lia].
  destruct (keys_head (entries c1)) as (k & l & K & [e He]); [intros K; rewrite K, map_size_empty in Hm1; unfold MAX_CACHE_ENTRIES in Hm1; lia|].
  assert (entries c' ⊆ delete k (entries c1)) as S2.
  { apply map_subseteq_spec. intros k' e' H'. rewrite lookup_delete_Some. split; [|by eapply lookup_weaken].
    intros <-. rewrite N in H'; [done|]. rewrite K. replace (size (entries c1)) with MAX_CACHE_ENTRIES by lia. left. }
  apply map_subseteq_size in S2. rewrite map_size_delete_Some in S2 by eauto. unfold MAX_CACHE_ENTRIES in *. lia.
Qed.

(** ** The invariant *)

(** Only what the record has; at most one entry for each insertion; no live entry
    missing while there were few insertions. *)
Definition cache_inv (n : nat) (T : Z) (r : Record_) (c : VfsCache) : Prop :=
  0 <= T /\ (size (entries c) <= MAX_CACHE_ENTRIES)%nat /\ (size (entries c) <= n)%nat /\
  (forall k e, entries c !! k = Some e -> r k = Some e) /\
  ((n <= MAX_CACHE_ENTRIES)%nat -> forall k e, r k = Some e -> T < expires e -> entries c !! k = Some e).

Lemma inv_later n T T' r c : cache_inv n T r c -> T <= T' -> cache_inv n T' r c.
Proof. intros (? & ? & ? & ? & L) ?. split_and!; try done; [lia|]. intros ? k e ? ?. apply L; [done|done|lia]. Qed.

(** Removing entries that are expired or that the record gives up. *)
Lemma inv_shrink n T r r' c c' : cache_inv n T r c -> entries c' ⊆ entries c ->
  (forall k e, entries c' !! k = Some e -> r' k = r k) ->
  (forall k e, r' k = Some e -> T < expires e -> entries c !! k = Some e -> entries c' !! k = Some e) ->
  (forall k e, r' k = Some e -> r k = Some e) -> cache_inv n T r' c'.
Proof.
  intros (? & ? & ? & A & L) S K1 K2 K3. pose proof (map_subseteq_size _ _ S). split_and!; try lia.
  - intros k e H'. rewrite (K1 k e H'). apply A. by eapply lookup_weaken.
  - intros Hn k e Hr He. apply K2; [done|done|]. apply L; [done|by apply K3|done].
Qed.

Lemma inv_insert n T t r c c1 k e : cache_inv n T r c -> T <= t -> entries c1 ⊆ entries c -> (size (entries c1) < MAX_CACHE_ENTRIES)%nat ->
  ((size (entries c) < MAX_CACHE_ENTRIES)%nat -> c1 = c) ->
  cache_inv (n + 1) t (fun k' => if decide (k' = k) then Some e else r k') (set_entries <[k := e]> c1).
Proof.
  intros (? & ? & ? & A & L) Ht Sub Hs Same. pose proof (map_subseteq_size _ _ Sub).
  assert (size (<[k := e]> (entries c1)) <= S (size (entries c1)))%nat.
  { rewrite map_size_insert. destruct (entries c1 !! k); simpl; lia. }
  split_and!; cbn [entries set_entries]; [lia|lia|lia| |].
  - intros k' e' H'. case_decide as D; [subst; by rewrite lookup_insert_eq in H'|]. rewrite lookup_insert_ne in H' by done.
    apply A. by eapply lookup_weaken.
  - intros Hn k' e' Hr He. rewrite Same by lia. case_decide as D; [subst; by rewrite lookup_insert_eq|]. rewrite lookup_insert_ne by done.
    apply L; [lia|done|lia].
Qed.

(** [lookup_] on its three branches. *)
Lemma lookup_run k t c : exists c', lookup_ (ck_namespace k) (ck_scheme k) (ck_path k) t c =
    Done (match entries c !! k with Some e => if is_expired e (current_time_ns t) then None else Some e | None => None end, c') /\
  entries c' = match entries c !! k with
               | Some e => if is_expired e (current_time_ns t) then delete k (entries c) else entries c
               | None => entries c
               end.
Proof.
  unfold lookup_, bind, get_state, modify. destruct k as [ns s p]. cbn [ck_namespace ck_scheme ck_path].
  destruct (entries c !! _) as [e|]; [|by eexists]. destruct (is_expired e _); [by eexists|]. by destruct e; eexists.
Qed.

Lemma invalidated P `{forall kv : CacheKey * CachedLookup, Decision (P kv)} n T r r' c : cache_inv n T r c ->
  (forall k e, P (k, e) -> r' k = r k) -> (forall k e, ~ P (k, e) -> r' k = None) ->
  cache_inv n T r' (set_entries (filter P) c).
Proof.
  intros I H1 H2. apply (inv_shrink _ _ _ _ _ _ I); cbn [entries set_entries].
  - apply map_filter_subseteq.
  - intros k e [_ HP]%map_lookup_filter_Some. by eapply H1.
  - intros k e Hr _ He. apply map_lookup_filter_Some. split; [done|]. destruct (decide (P (k, e))) as [|HP]; [done|].
    by rewrite (H2 k e HP) in Hr.
  - intros k e Hr. destruct (decide (P (k, e))) as [HP|HP]; [by rewrite <- (H1 k e HP)|by rewrite (H2 k e HP) in Hr].
Qed.

Lemma insert_step dbg (ttl : Z) (mk : Z -> CachedLookup) k t t' T n r c : 0 <= ttl <= POSITIVE_CACHE_TTL_NS ->
  cache_inv n T r c -> time_ok T t -> time_ok t t' ->
  exists c', (maybe_evict t ;;; let! e := u64_add dbg (current_time_ns t') ttl in modify (set_entries <[k := mk e]>)) c = Done (tt, c') /\
    cache_inv (n + 1) t' (fun k' => if decide (k' = k) then Some (mk (t' + ttl)) else r k') c'.
Proof.
  intros Httl I Ht Ht'. destruct (maybe_evict_correct t c) as (c1 & E & S & Hs & Same); [apply I|].
  exists (set_entries <[k := mk (t' + ttl)]> c1). split.
  - rewrite (bind_Done _ _ _ _ _ E). rewrite (now_small t t' Ht'). unfold u64_add. destruct Ht' as [_ ?].
    by destruct (Z.ltb_spec (t' + ttl) (2 ^ 64)); [|lia].
  - destruct Ht, Ht'. apply inv_insert with T c; [done|lia|done|done|done].
Qed.

Lemma cache_step_inv dbg n T r c op T' : cache_inv n T r c -> op_time T op T' ->
  exists c', cache_step dbg op c = Done (tt, c') /\ cache_inv (n + inserts op) T' (record_step op r) c'.
Proof.
  intros I Ht. destruct op as [k t|k t t'|k id t t'|k|ns sch|ns sch p]; cbn [cache_step inserts op_time] in *; unfold record_step; rewrite ?Nat.add_0_r.
  - destruct Ht as [Ht ->]. destruct (lookup_run k t c) as (c' & E & He). exists c'. split; [by rewrite (bind_Done _ _ _ _ _ E)|].
    rewrite (now_small T t Ht) in He. apply inv_later with (T' := t) in I; [|destruct Ht; lia].
    apply (inv_shrink _ _ _ _ _ _ I); rewrite ?He; try done.
    + destruct (entries c !! k); [|done]. case_match; [apply delete_subseteq|done].
    + intros k' e Hr Hlt Hk. destruct (entries c !! k) as [e0|] eqn:K; [|done]. destruct (is_expired e0 t) eqn:X; [|done].
      destruct (decide (k' = k)) as [->|]; [|by rewrite lookup_delete_ne]. rewrite K in Hk. injection Hk as <-.
      unfold is_expired in X. lia.
  - destruct Ht as (H1 & H2 & ->). destruct k as [a b d]. by apply insert_step with (mk := NotFound) (T := T).
  - destruct Ht as (H1 & H2 & ->). destruct k as [a b d]. by apply insert_step with (mk := Found id) (T := T).
  - subst T'. eexists. split; [done|]. destruct k as [a b d]. apply (inv_shrink _ _ _ _ _ _ I); cbn [entries set_entries].
    + apply delete_subseteq.
    + intros k e [? _]%lookup_delete_Some. by case_decide.
    + intros k e Hr _ He. case_decide; [done|]. by rewrite lookup_delete_ne.
    + intros k e. by case_decide.
  - subst T'. eexists. split; [done|]. apply invalidated with r; [done| |]; cbn.
    + by intros k _ ->.
    + intros k _. by destruct (of_scheme ns sch k).
  - subst T'. eexists. split; [done|]. apply invalidated with r; [done| |]; cbn.
    + by intros k _ ->.
    + intros k _. by destruct (of_scheme ns sch k && String.prefix p (ck_path k)).
Qed.

Lemma cache_run_inv dbg n T r c : cache_run dbg n T r c -> cache_inv n T r c.
Proof.
  induction 1 as [|n T r c op T' c' _ IH Ht E].
  - split_and!; cbn; rewrite ?map_size_empty; done || lia.
  - destruct (cache_step_inv dbg _ _ _ _ _ _ IH Ht) as (c1 & E1 & I). rewrite E in E1. by injection E1 as <-.
Qed.

(** C35: after any sequence of lookups, insertions and invalidations, with a clock
    that does not run back, the cache has at most [MAX_CACHE_ENTRIES] entries, every
    further operation completes, and a lookup answers only what was remembered last
    of that path, was not invalidated since and has not expired; as long as there
    were no more insertions than the cache has room for, it answers all of this. *)
Theorem vfs_cache_correct dbg n T r c : cache_run dbg n T r c ->
  (size (entries c) <= MAX_CACHE_ENTRIES)%nat /\
  (forall op T', op_time T op T' -> exists c', cache_step dbg op c = Done (tt, c')) /\
  forall k t, time_ok T t ->
    exists a c', lookup_ (ck_namespace k) (ck_scheme k) (ck_path k) t c = Done (a, c') /\
      (forall e, a = Some e -> r k = Some e /\ t < expires e) /\
      ((n <= MAX_CACHE_ENTRIES)%nat -> forall e, r k = Some e -> t < expires e -> a = Some e).
Proof.
  intros R. pose proof (cache_run_inv _ _ _ _ _ R) as I. split_and!; [apply I| |].
  - intros op T' Ht. destruct (cache_step_inv dbg _ _ _ _ _ _ I Ht) as (c' & E & _). eauto.
  - intros k t Ht. destruct (lookup_run k t c) as (c' & E & _). rewrite (now_small T t Ht) in E. eexists _, c'. split; [exact E|].
    destruct I as (_ & _ & _ & A & L). split.
    + intros e He. destruct (entries c !! k) as [e0|] eqn:K; [|done]. destruct (is_expired e0 t) eqn:X; [done|]. injection He as <-.
      split; [by apply A|]. unfold is_expired in X. lia.
    + intros Hn e Hr He. destruct Ht. rewrite (L Hn k e Hr) by lia. unfold is_expired. by destruct (Z.leb_spec (expires e) t); [lia|].
Qed.

(** ** Runs *)

Module CacheExamples.
Definition k1 : CacheKey := mkKey 1 "file" "/a".
Definition at_ (c : outcome (unit * VfsCache)) : VfsCache := match c with Done (_, c) => c | Panic => VfsCache_new end.
Definition c1 : VfsCache := Eval vm_compute in at_ (cache_step true (OpFound k1 7 10 11) VfsCache_new).

Lemma vfs_cache_correct_witness : exists a c', lookup_ 1 "file" "/a" 20 c1 = Done (a, c') /\ a = Some (Found 7 30000000011).
Proof.
  assert (cache_run true 1 11 (record_step (OpFound k1 7 10 11) (fun _ => None)) c1) as R.
  { apply (cache_next true 0 0 _ VfsCache_new (OpFound k1 7 10 11)); [constructor|cbn; unfold time_ok, POSITIVE_CACHE_TTL_NS; lia|vm_compute; reflexivity]. }
  destruct (vfs_cache_correct true 1 11 _ c1 R) as (_ & _ & H). destruct (H k1 20) as (a & c' & E & _ & C).
  { unfold time_ok, POSITIVE_CACHE_TTL_NS. lia. }
  exists a, c'. split; [exact E|]. apply C; [unfold MAX_CACHE_ENTRIES; lia|vm_compute; reflexivity|vm_compute; reflexivity].
Defined.

(** A full cache: 4096 paths of namespaces 1 to 4096, inserted at the time of
    their namespace in the order from the last to the first. *)
Definition full_entries : gmap CacheKey CachedLookup :=
  list_to_map (map (fun i => (mkKey (Z.of_nat i) "file" "/a", NotFound (5000004096 - Z.of_nat i))) (seq 1 4096)).
Definition full : VfsCache := mkCache full_entries 0 0 0.

(** The comment says that the oldest entries are removed. The one inserted last,
    with the smallest key, is removed, and the one inserted first is kept. *)
Theorem evicts_newest : let c := at_ (maybe_evict 5000 full) in
  entries full !! mkKey 1 "file" "/a" = Some (NotFound 5000004095) /\ entries c !! mkKey 1 "file" "/a" = None /\
  entries c !! mkKey 4096 "file" "/a" = Some (NotFound 5000000000).
Proof. split_and!; vm_compute; reflexivity. Qed.
End CacheExamples.
