(* ===== verification/IrqChips.v ===== *)
(** * Interrupt controllers (src/arch/x86_shared/device/{pic,ioapic}.rs,
    src/arch/x86_shared/interrupt/irq.rs, src/arch/x86_shared/idt.rs)

    The two legacy controllers, the I/O APICs with their redirection tables, the
    choice between the two methods, and the reservations of interrupt vectors.

    Ports, device registers and model-specific registers are the type class
    [IrqHw]: operations on a state of the hardware that the kernel does not see.
    [IrqHwLaws] says what the data sheets of the 8259A and the 82093AA promise of
    the registers the kernel uses. *)

From S2P Require Import Prelude Acpi.
#[local] Open Scope Z_scope.

(** ** Hardware *)

Class IrqHw := {
  Hw : Type;
  (** [Pio::read], [Pio::write] *)
  pio_read : Z -> Hw -> Z * Hw;
  pio_write : Z -> Z -> Hw -> Hw;
  (** [ptr::read_volatile::<u32>], [ptr::write_volatile::<u32>] *)
  read_volatile : Z -> Hw -> Z * Hw;
  write_volatile : Z -> Z -> Hw -> Hw;
  wrmsr : Z -> Z -> Hw -> Hw;
}.

(** Bits of the redirection registers that software writes: the status bits 12
    and 14 of the low word and the reserved bits are not among them. *)
Definition rw_bit (reg bit : Z) : bool :=
  if Z.even reg then (0 <=? bit) && (bit <=? 16) && negb (bit =? 12) && negb (bit =? 14) else (24 <=? bit) && (bit <=? 31).

(** Where an I/O APIC is, which of its registers is selected, the bits of its
    redirection registers, and the mask registers of the legacy controllers. *)
Class IrqHwLaws {IH : IrqHw} := {
  ioapic_at : Z -> bool;
  io_sel : Hw -> Z -> Z;
  io_bit : Hw -> Z -> Z -> Z -> bool;
  io_version : Z -> Z;
  io_id : Z -> Z;
  imr : Hw -> Z -> Z;

  hw_select : forall p v h, ioapic_at p = true ->
    (forall q, io_sel (write_volatile p v h) q = if q =? p then v else io_sel h q) /\
    io_bit (write_volatile p v h) = io_bit h /\ imr (write_volatile p v h) = imr h;
  hw_window : forall p v h, ioapic_at p = true ->
    io_sel (write_volatile (p + 16) v h) = io_sel h /\ imr (write_volatile (p + 16) v h) = imr h /\
    forall q r b, rw_bit r b = true -> 0x10 <= r < 0x40 ->
      io_bit (write_volatile (p + 16) v h) q r b = if (q =? p) && (r =? io_sel h p) then Z.testbit v b else io_bit h q r b;
  hw_read : forall p h v h', ioapic_at p = true -> read_volatile (p + 16) h = (v, h') ->
    io_sel h' = io_sel h /\ io_bit h' = io_bit h /\ imr h' = imr h /\ 0 <= v < 2 ^ 32 /\
    (io_sel h p = 0 -> v = io_id p) /\ (io_sel h p = 1 -> v = io_version p) /\
    (0x10 <= io_sel h p < 0x40 -> forall b, rw_bit (io_sel h p) b = true -> Z.testbit v b = io_bit h p (io_sel h p) b);
  (** the data ports, once the controllers are initialized *)
  hw_imr_read : forall port h v h', port ∈ [0x21; 0xA1] -> pio_read port h = (v, h') ->
    v = imr h port /\ 0 <= v < 2 ^ 8 /\ imr h' = imr h /\ io_bit h' = io_bit h;
  hw_imr_write : forall port v h, port ∈ [0x21; 0xA1] -> 0 <= v < 2 ^ 8 ->
    io_bit (pio_write port v h) = io_bit h /\
    forall q, imr (pio_write port v h) q = if q =? port then v else imr h q;
  (** the command ports: end of interrupt, and reading the requests in service *)
  hw_cmd : forall port v h, port ∈ [0x20; 0xA0] -> v ∈ [0x20; 0x0A] ->
    imr (pio_write port v h) = imr h /\ io_bit (pio_write port v h) = io_bit h;
  (** the end of interrupt of the local APIC *)
  hw_msr : forall r v h, imr (wrmsr r v h) = imr h /\ io_bit (wrmsr r v h) = io_bit h;
  hw_lapic : forall a v h, (forall p, ioapic_at p = true -> a <> p /\ a <> p + 16) ->
    imr (write_volatile a v h) = imr h /\ io_bit (write_volatile a v h) = io_bit h;
}.

Section chips.
Context {IH : IrqHw}.

(** ** The legacy controllers *)

Record Pic := mkPic { pic_cmd : Z; pic_data : Z }.
Definition Pic_new (port : Z) : Pic := mkPic port (port + 1).
Definition master : Pic := Pic_new 0x20.
Definition slave : Pic := Pic_new 0xA0.

Definition out (port v : Z) : M Hw unit := modify (pio_write port v).
Definition in_ (port : Z) : M Hw Z := fun h => Done (pio_read port h).

Definition pic_ack (c : Pic) : M Hw unit := out (pic_cmd c) 0x20.
Definition mask_set (c : Pic) (irq : Z) : M Hw unit :=
  assert_ (irq <? 8) ;;;
  let! mask := in_ (pic_data c) in
  out (pic_data c) (Z.lor mask (Z.shiftl 1 irq)).
Definition mask_clear (c : Pic) (irq : Z) : M Hw unit :=
  assert_ (irq <? 8) ;;;
  let! mask := in_ (pic_data c) in
  out (pic_data c) (Z.land mask (Z.lxor 0xFF (Z.shiftl 1 irq))).
Definition pic_isr (c : Pic) : M Hw Z := out (pic_cmd c) 0x0A ;;; in_ (pic_cmd c).
Definition pic_disable : M Hw unit := out (pic_data master) 0xFF ;;; out (pic_data slave) 0xFF.

(** ** The registers of an I/O APIC; [pointer] is their address *)

Definition write_ioregsel (pointer value : Z) : M Hw unit := modify (write_volatile pointer value).
Definition read_iowin (pointer : Z) : M Hw Z := fun h => Done (read_volatile (pointer + 16) h).
Definition write_iowin (pointer value : Z) : M Hw unit := modify (write_volatile (pointer + 16) value).
Definition read_reg (pointer reg : Z) : M Hw Z := write_ioregsel pointer reg ;;; read_iowin pointer.
Definition write_reg (pointer reg value : Z) : M Hw unit := write_ioregsel pointer reg ;;; write_iowin pointer value.
Definition read_ioapicid (pointer : Z) : M Hw Z := read_reg pointer 0.
Definition read_ioapicver (pointer : Z) : M Hw Z := read_reg pointer 1.

Definition read_ioredtbl (pointer idx : Z) : M Hw Z :=
  assert_ (idx <? 24) ;;;
  let! lo := read_reg pointer (0x10 + idx * 2) in
  let! hi := read_reg pointer (0x10 + idx * 2 + 1) in
  ret (Z.lor lo (Z.shiftl hi 32)).
Definition write_ioredtbl (pointer idx value : Z) : M Hw unit :=
  assert_ (idx <? 24) ;;;
  let lo := value mod 2 ^ 32 in
  let hi := (Z.shiftr value 32) mod 2 ^ 32 in
  write_reg pointer (0x10 + idx * 2) lo ;;;
  write_reg pointer (0x10 + idx * 2 + 1) hi.

Definition max_redirection_table_entries (pointer : Z) : M Hw Z :=
  let! ver := read_ioapicver pointer in
  ret (Z.shiftr (Z.land ver 0x00FF0000) 16).
Definition ioapic_id (pointer : Z) : M Hw Z :=
  let! id_reg := read_ioapicid pointer in
  ret (Z.shiftr (Z.land id_reg 0x0F000000) 24).

(** ** I/O APICs *)

Record IoApic := mkIoApic { regs : Z; gsi_start : Z; count : Z }.

Definition IoApic_new (regs_base gsi_start : Z) : M Hw IoApic :=
  let! count := max_redirection_table_entries regs_base in
  ret (mkIoApic regs_base gsi_start count).

Inductive ApicTriggerMode := TEdge | TLevel.
Inductive ApicPolarity := PActiveHigh | PActiveLow.
Inductive DestinationMode := Physical | Logical.
Inductive DeliveryMode := Fixed | LowestPriority | Smi | Nmi | Init | ExtInt.
Definition trigger_raw (t : ApicTriggerMode) : Z := match t with TEdge => 0 | TLevel => 1 end.
Definition polarity_raw (p : ApicPolarity) : Z := match p with PActiveHigh => 0 | PActiveLow => 1 end.
Definition dest_mode_raw (d : DestinationMode) : Z := match d with Physical => 0 | Logical => 1 end.
Definition delivery_raw (d : DeliveryMode) : Z :=
  match d with Fixed => 0 | LowestPriority => 1 | Smi => 2 | Nmi => 4 | Init => 5 | ExtInt => 7 end.

Record MapInfo := mkMapInfo {
  mp_dest : Z; mp_mask : bool; mp_trigger_mode : ApicTriggerMode; mp_polarity : ApicPolarity;
  mp_dest_mode : DestinationMode; mp_delivery_mode : DeliveryMode; mp_vector : Z
}.
(** The asserts of [as_raw], and its value; the shift of the destination drops the
    bits above the 64th. *)
Definition as_raw_value (m : MapInfo) : Z :=
  Z.lor (Z.lor (Z.lor (Z.lor (Z.lor (Z.lor
    (Z.shiftl (mp_dest m) 56 mod 2 ^ 64)
    (Z.shiftl (Z.b2z (mp_mask m)) 16))
    (Z.shiftl (trigger_raw (mp_trigger_mode m)) 15))
    (Z.shiftl (polarity_raw (mp_polarity m)) 13))
    (Z.shiftl (dest_mode_raw (mp_dest_mode m)) 11))
    (Z.shiftl (delivery_raw (mp_delivery_mode m)) 8))
    (mp_vector m).
Definition as_raw {S} (m : MapInfo) : M S Z :=
  assert_ (0x20 <=? mp_vector m) ;;; assert_ (mp_vector m <=? 0xFE) ;;; ret (as_raw_value m).

Definition ioapic_map (apic : IoApic) (idx : Z) (info : MapInfo) : M Hw unit :=
  let! raw := as_raw info in write_ioredtbl (regs apic) idx raw.

(** [u32] subtraction and addition *)
Definition u32_sub (dbg : bool) {S} (x y : Z) : M S Z :=
  if y <=? x then ret (x - y) else if dbg then panic else ret ((x - y) mod 2 ^ 32).
Definition u32_add (dbg : bool) {S} (x y : Z) : M S Z :=
  if x + y <? 2 ^ 32 then ret (x + y) else if dbg then panic else ret ((x + y) mod 2 ^ 32).

Definition ioapic_set_mask (dbg : bool) (apic : IoApic) (gsi : Z) (mask : bool) : M Hw unit :=
  let! d := u32_sub dbg gsi (gsi_start apic) in
  let idx := d mod 2 ^ 8 in
  let! reg := read_ioredtbl (regs apic) idx in
  let reg := Z.land reg (usize_not (Z.shiftl 1 16)) in
  let reg := Z.lor reg (Z.shiftl (Z.b2z mask) 16) in
  write_ioredtbl (regs apic) idx reg.

(** ** Routing *)

Inductive TriggerMode := TmConforms | TmEdge | TmLevel.
Inductive Polarity := PolConforms | PolActiveHigh | PolActiveLow.
Record Override := mkOverride { bus_irq : Z; over_gsi : Z; over_trigger : TriggerMode; over_polarity : Polarity }.

Inductive IrqMethod := UsePic | UseApic.

(** The counters of interrupts: the spurious ones, [IRQ_COUNT] of
    src/cpu_stats.rs and the count of this CPU. *)
Record IrqCounters := mkCounters {
  SPURIOUS_COUNT_IRQ7 : Z; SPURIOUS_COUNT_IRQ15 : Z; IRQ_COUNT : list Z; stats_irq : Z
}.

(** The statics of the modules. *)
Record Chips := mkChips {
  IOAPICS : option (list IoApic);
  SRC_OVERRIDES : option (list Override);
  IRQ_METHOD : IrqMethod;
  counters : IrqCounters;
  hw : Hw;
}.
Definition in_hw {A} (m : M Hw A) : M Chips A :=
  fun c => match m (hw c) with
           | Done (a, h) => Done (a, mkChips (IOAPICS c) (SRC_OVERRIDES c) (IRQ_METHOD c) (counters c) h)
           | Panic => Panic
           end.
Definition ioapics (c : Chips) : list IoApic := default [] (IOAPICS c).
Definition src_overrides (c : Chips) : list Override := default [] (SRC_OVERRIDES c).
Definition set_irq_method (m : IrqMethod) : M Chips unit :=
  modify (fun c => mkChips (IOAPICS c) (SRC_OVERRIDES c) m (counters c) (hw c)).
(** [pic::init] *)
Definition pic_init : M Chips unit :=
  in_hw (out (pic_cmd master) 0x11 ;;; out (pic_cmd slave) 0x11 ;;;
         out (pic_data master) 0x20 ;;; out (pic_data slave) 0x28 ;;;
         out (pic_data master) 4 ;;; out (pic_data slave) 2 ;;;
         out (pic_data master) 1 ;;; out (pic_data slave) 1 ;;;
         out (pic_data master) 0 ;;; out (pic_data slave) 0 ;;;
         pic_ack master ;;; pic_ack slave) ;;;
  set_irq_method UsePic.
Definition push_ioapic (a : IoApic) : M Chips unit :=
  modify (fun c => mkChips (Some (ioapics c ++ [a])) (SRC_OVERRIDES c) (IRQ_METHOD c) (counters c) (hw c)).
Definition push_override (o : Override) : M Chips unit :=
  modify (fun c => mkChips (IOAPICS c) (Some (src_overrides c ++ [o])) (IRQ_METHOD c) (counters c) (hw c)).

Definition get_override (c : Chips) (irq : Z) : option Override := find (fun over => bus_irq over =? irq) (src_overrides c).
Definition resolve (c : Chips) (irq : Z) : Z := match get_override c irq with Some over => over_gsi over | None => irq end.

(** [gsi >= start && gsi < start + count]: the sum is computed only where the first
    holds. *)
Fixpoint find_in (dbg : bool) (gsi : Z) (l : list IoApic) : M Chips (option IoApic) :=
  match l with
  | [] => ret None
  | apic :: l' =>
      if gsi_start apic <=? gsi then
        let! e := u32_add dbg (gsi_start apic) (count apic) in
        if gsi <? e then ret (Some apic) else find_in dbg gsi l'
      else find_in dbg gsi l'
  end.
Definition find_ioapic (dbg : bool) (gsi : Z) : M Chips (option IoApic) :=
  let! c := get_state in find_in dbg gsi (ioapics c).

Definition ioapic_mask_irq (dbg : bool) (irq : Z) (m : bool) : M Chips unit :=
  let! c := get_state in
  let gsi := resolve c irq in
  let! a := find_ioapic dbg gsi in
  match a with Some apic => in_hw (ioapic_set_mask dbg apic gsi m) | None => ret tt end.
Definition mask (dbg : bool) (irq : Z) : M Chips unit := ioapic_mask_irq dbg irq true.
Definition unmask (dbg : bool) (irq : Z) : M Chips unit := ioapic_mask_irq dbg irq false.

(** [map_regs] maps the page of the registers and gives its address; [None] where
    an assertion or [expect] on the mapping fails. *)
Definition handle_ioapic (map_regs : Z -> option Z) (e : MadtIoApic) : M Chips unit :=
  let! p := unwrap (map_regs (mi_address e)) in
  let! ioapic := in_hw (IoApic_new p (mi_gsi_base e)) in
  let! id := in_hw (ioapic_id (regs ioapic)) in
  assert_ (id =? mi_id e) ;;;
  push_ioapic ioapic.

(** The override an entry describes, unless one of its fields is reserved. *)
Definition override_of (e : MadtIntSrcOverride) : option Override :=
  let polarity_raw := Z.land (so_flags e) 0x0003 in
  let trigger_mode_raw := Z.shiftr (Z.land (so_flags e) 0x000C) 2 in
  let polarity :=
    if polarity_raw =? 0 then Some PolConforms else if polarity_raw =? 1 then Some PolActiveHigh
    else if polarity_raw =? 2 then None else Some PolActiveLow in
  let trigger_mode :=
    if trigger_mode_raw =? 0 then Some TmConforms else if trigger_mode_raw =? 1 then Some TmEdge
    else if trigger_mode_raw =? 2 then None else Some TmLevel in
  match polarity, trigger_mode with
  | Some polarity, Some trigger_mode => Some (mkOverride (so_irq_source e) (so_gsi_base e) trigger_mode polarity)
  | _, _ => None
  end.
Definition handle_src_override (e : MadtIntSrcOverride) : M Chips unit :=
  match override_of e with Some over => push_override over | None => ret tt end.

(** What [init] does with an entry of the MADT. *)
Definition handle_entry (map_regs : Z -> option Z) (e : MadtEntry) : M Chips unit :=
  match e with
  | IoApicEntry ioapic => handle_ioapic map_regs ioapic
  | IntSrcOverride src_override => handle_src_override src_override
  | _ => ret tt
  end.

(** The entry for a legacy interrupt; [None]: another source has its line. *)
Definition legacy_source (c : Chips) (legacy_irq : Z) : option (Z * TriggerMode * Polarity) :=
  match get_override c legacy_irq with
  | Some over => Some (over_gsi over, over_trigger over, over_polarity over)
  | None =>
      if existsb (fun over => (over_gsi over =? legacy_irq) && negb (bus_irq over =? legacy_irq)) (src_overrides c)
         && negb (existsb (fun over => bus_irq over =? legacy_irq) (src_overrides c))
      then None
      else Some (legacy_irq, TmConforms, PolConforms)
  end.
Definition legacy_info (bsp_apic_id legacy_irq : Z) (trigger_mode : TriggerMode) (polarity : Polarity) : MapInfo :=
  mkMapInfo bsp_apic_id false
    (match trigger_mode with TmEdge => TEdge | TmLevel => TLevel | TmConforms => TEdge end)
    (match polarity with PolActiveHigh => PActiveHigh | PolActiveLow => PActiveLow | PolConforms => PActiveHigh end)
    Physical Fixed (32 + legacy_irq).
Definition map_legacy (dbg : bool) (bsp_apic_id legacy_irq : Z) : M Chips unit :=
  let! c := get_state in
  match legacy_source c legacy_irq with
  | None => ret tt
  | Some (gsi, trigger_mode, polarity) =>
      let! a := find_ioapic dbg gsi in
      match a with
      | None => ret tt
      | Some apic =>
          let! d := u32_sub dbg gsi (gsi_start apic) in
          in_hw (ioapic_map apic (d mod 2 ^ 8) (legacy_info bsp_apic_id legacy_irq trigger_mode polarity))
      end
  end.

(** [ioapic::init] with the MADT, if there is one, its flags and its entries;
    the listings of the tables it prints are left out. *)
Definition ioapic_init (dbg : bool) (map_regs : Z -> option Z) (bsp_apic_id : Z) (madt : option (Z * list MadtEntry)) : M Chips unit :=
  match madt with
  | None => ret tt
  | Some (flags, entries) =>
      (if negb (Z.land flags FLAG_PCAT =? 0) then in_hw pic_disable else ret tt) ;;;
      forM entries (handle_entry map_regs) ;;;
      forM (range 16) (map_legacy dbg bsp_apic_id) ;;;
      set_irq_method UseApic
  end.

(** ** Interrupts of either method *)

Definition pic_mask (dbg : bool) (irq : Z) : M Hw unit :=
  debug_assert dbg (irq <? 16) ;;;
  if 8 <=? irq then mask_set slave (irq - 8) else mask_set master irq.
Definition pic_unmask (dbg : bool) (irq : Z) : M Hw unit :=
  debug_assert dbg (irq <? 16) ;;;
  if 8 <=? irq then mask_clear slave (irq - 8) else mask_clear master irq.
Definition pic_eoi (dbg : bool) (irq : Z) : M Hw unit :=
  debug_assert dbg (irq <? 16) ;;;
  if 8 <=? irq then pic_ack master ;;; pic_ack slave else pic_ack master.

(** [LocalApic::eoi]; [x2] and [address] are those of the local APIC. *)
Definition IA32_X2APIC_EOI : Z := 0x80B.
Definition lapic_eoi (x2 : bool) (address : Z) : M Hw unit :=
  modify (if x2 then wrmsr IA32_X2APIC_EOI 0 else write_volatile (address + 0xB0) 0).

(** [trigger] before it tells the irq scheme. *)
Definition mask_line (dbg : bool) (irq : Z) : M Chips unit :=
  let! c := get_state in
  match IRQ_METHOD c with
  | UsePic => if irq <? 16 then in_hw (pic_mask dbg irq) else ret tt
  | UseApic => mask dbg irq
  end.
Definition acknowledge (dbg : bool) (irq : Z) : M Chips unit :=
  let! c := get_state in
  match IRQ_METHOD c with
  | UsePic => if irq <? 16 then in_hw (pic_unmask dbg irq) else ret tt
  | UseApic => unmask dbg (irq mod 2 ^ 8)
  end.
Definition set_counters (f : IrqCounters -> IrqCounters) : M Chips unit :=
  modify (fun c => mkChips (IOAPICS c) (SRC_OVERRIDES c) (IRQ_METHOD c) (f (counters c)) (hw c)).
(** [CpuStats::add_irq] *)
Definition add_irq (irq : Z) : M Chips unit :=
  set_counters (fun n => mkCounters (SPURIOUS_COUNT_IRQ7 n) (SPURIOUS_COUNT_IRQ15 n)
    (alter (fun x => usize_add x 1) (Z.to_nat irq) (IRQ_COUNT n)) (usize_add (stats_irq n) 1)).
Definition eoi (dbg x2 : bool) (address irq : Z) : M Chips unit :=
  add_irq irq ;;;
  let! c := get_state in
  match IRQ_METHOD c with
  | UsePic => if irq <? 16 then in_hw (pic_eoi dbg irq) else ret tt
  | UseApic => in_hw (lapic_eoi x2 address)
  end.

(** Whether the interrupt on line 7 of a legacy controller is spurious, for the
    handlers [lpt1] and [ata2]. *)
Definition add_spurious7 : M Chips unit :=
  set_counters (fun n => mkCounters (usize_add (SPURIOUS_COUNT_IRQ7 n) 1) (SPURIOUS_COUNT_IRQ15 n) (IRQ_COUNT n) (stats_irq n)).
Definition add_spurious15 : M Chips unit :=
  set_counters (fun n => mkCounters (SPURIOUS_COUNT_IRQ7 n) (usize_add (SPURIOUS_COUNT_IRQ15 n) 1) (IRQ_COUNT n) (stats_irq n)).
Definition not_in_service (pic : Pic) : M Chips bool :=
  let! c := get_state in
  match IRQ_METHOD c with
  | UsePic => let! isr := in_hw (pic_isr pic) in ret (Z.land isr (Z.shiftl 1 7) =? 0)
  | UseApic => ret false
  end.

End chips.

(** ** Reservations of vectors *)

(** [Idt] without its gates: eight words of 32 bits. *)
Abbreviation Idt := (list Z) (only parsing).
Definition Idt_new : Idt := replicate 8 0.

Definition idt_is_reserved (idt : Idt) (index : Z) : bool :=
  negb (Z.land (default 0 (idt !! Z.to_nat (index / 32))) (Z.shiftl 1 (index mod 32)) =? 0).
(** [fetch_or(u32::from(reserved) << bit)], for [&self] and for [&mut self] *)
Definition idt_set_reserved (index : Z) (reserved : bool) (idt : Idt) : Idt :=
  alter (fun w => Z.lor w (Z.shiftl (Z.b2z reserved) (index mod 32))) (Z.to_nat (index / 32)) idt.
Definition IpiWakeup : Z := 0x40.
Definition IpiTlb : Z := 0x41.
Definition IpiSwitch : Z := 0x42.
Definition IpiPit : Z := 0x43.

(** What [init_generic] reserves, on x86_64. *)
Definition init_reservations (bsp : bool) (idt : Idt) : Idt :=
  let idt := alter (fun w => Z.lor w 0xFFFFFFFF) 0%nat idt in
  let idt := alter (fun w => Z.lor w (if bsp then 0x0003FFFF else Z.shiftl 1 17)) 1%nat idt in
  idt_set_reserved IpiPit true (idt_set_reserved IpiTlb true (idt_set_reserved IpiSwitch true (idt_set_reserved IpiWakeup true idt))).

(** [INIT_BSP_IDT] and [IDTS]; the processor 0 is the BSP. *)
Record Idts := mkIdts { INIT_BSP_IDT : Idt; IDTS : gmap Z Idt }.
Definition is_reserved (cpu_id index : Z) : M Idts bool :=
  let! s := get_state in
  if cpu_id =? 0 then ret (idt_is_reserved (INIT_BSP_IDT s) index)
  else let! idt := unwrap (IDTS s !! cpu_id) in ret (idt_is_reserved idt index).
Definition set_reserved (cpu_id index : Z) (reserved : bool) : M Idts unit :=
  let! s := get_state in
  if cpu_id =? 0 then modify (fun s => mkIdts (idt_set_reserved index reserved (INIT_BSP_IDT s)) (IDTS s))
  else
    let! idt := unwrap (IDTS s !! cpu_id) in
    modify (fun s => mkIdts (INIT_BSP_IDT s) (<[cpu_id := idt_set_reserved index reserved idt]> (IDTS s))).
(** [allocate_and_init_idt], without the stack *)
Definition allocate_and_init_idt (cpu_id : Z) : M Idts unit :=
  modify (fun s => mkIdts (INIT_BSP_IDT s)
    (<[cpu_id := init_reservations (cpu_id =? 0) (default Idt_new (IDTS s !! cpu_id))]> (IDTS s))).
Definition init_bsp : M Idts unit := modify (fun s => mkIdts (init_reservations true (INIT_BSP_IDT s)) (IDTS s)).

(** [available_irqs_iter]; the iterator asks for each vector when it comes to it. *)
Fixpoint available_from (cpu_id : Z) (l : list Z) : M Idts (list Z) :=
  match l with
  | [] => ret []
  | index :: l' =>
      let! r := is_reserved cpu_id index in
      let! rest := available_from cpu_id l' in
      ret (if r then rest else index :: rest)
  end.
Definition available_irqs_iter (cpu_id : Z) : M Idts (list Z) := available_from cpu_id (map (Z.add 32) (range 223)).
