(* ===== verification/IrqChipsSpec.v ===== *)
(** * Properties of the interrupt controllers

    What the operations do to the mask registers and the redirection tables, how
    the legacy interrupts are routed, and which vectors are reserved. *)

From S2P Require Import Prelude Acpi IrqChips.
#[local] Open Scope Z_scope.

(** ** Redirection entries *)

(** The bits of a 64-bit entry that software writes. *)
Definition rw64 (b : Z) : bool := if b <? 32 then rw_bit 0 b else rw_bit 1 (b - 32).

Section entries.
Context {IH : IrqHw} {HL : IrqHwLaws}.

Definition entry_bit (h : Hw) (p idx b : Z) : bool :=
  if b <? 32 then io_bit h p (0x10 + idx * 2) b else io_bit h p (0x10 + idx * 2 + 1) (b - 32).

Lemma rw_even idx b : rw_bit (0x10 + idx * 2) b = rw_bit 0 b.
Proof. unfold rw_bit. replace (0x10 + idx * 2) with (2 * (8 + idx)) by lia. by rewrite Z.even_mul. Qed.
Lemma rw_odd idx b : rw_bit (0x10 + idx * 2 + 1) b = rw_bit 1 b.
Proof. unfold rw_bit. replace (0x10 + idx * 2 + 1) with (1 + 2 * (8 + idx)) by lia. by rewrite Z.even_add_mul_2. Qed.
Lemma rw_range r b : rw_bit r b = true -> 0 <= b < 32.
Proof. unfold rw_bit. destruct (Z.even r); intros H; lia. Qed.
Lemma rw64_range b : rw64 b = true -> 0 <= b < 64.
Proof. unfold rw64. case_match; intros Hb%rw_range; lia. Qed.

(** The bits that agree where software writes. *)
Definition agree (h h' : Hw) : Prop := (forall q r b, 0x10 <= r < 0x40 -> rw_bit r b = true -> io_bit h' q r b = io_bit h q r b) /\ imr h' = imr h.
Lemma agree_refl h : agree h h.
Proof. done. Qed.
Lemma agree_trans h1 h2 h3 : agree h1 h2 -> agree h2 h3 -> agree h1 h3.
Proof. intros [A B] [C D]. split; [|by rewrite D]. intros q r b Hr Hb. rewrite C by done. by apply A. Qed.
Lemma agree_eq h h' : io_bit h' = io_bit h -> imr h' = imr h -> agree h h'.
Proof. intros H1 H2. split; [by rewrite H1|done]. Qed.
Lemma agree_entry h h' q idx b : agree h h' -> 0 <= idx < 24 -> rw64 b = true -> entry_bit h' q idx b = entry_bit h q idx b.
Proof.
  intros [A _] Hi. unfold rw64, entry_bit. case_match; intros Hb; apply A; try lia; [by rewrite rw_even|by rewrite rw_odd].
Qed.

Lemma read_reg_run p r h : ioapic_at p = true -> exists v h', read_reg p r h = Done (v, h') /\ agree h h' /\ 0 <= v < 2 ^ 32 /\
  (r = 0 -> v = io_id p) /\ (r = 1 -> v = io_version p) /\
  (0x10 <= r < 0x40 -> forall b, rw_bit r b = true -> Z.testbit v b = io_bit h p r b).
Proof.
  intros Hp. unfold read_reg, write_ioregsel, read_iowin, bind, modify. destruct (hw_select p r h Hp) as (S1 & S2 & S3).
  set (h1 := write_volatile p r h) in *. destruct (read_volatile (p + 16) h1) as [v h'] eqn:E.
  destruct (hw_read p h1 v h' Hp E) as (R1 & R2 & R3 & R4 & R5 & R6 & R7).
  assert (io_sel h1 p = r) as Hs by (rewrite S1, Z.eqb_refl; done). rewrite Hs, S2 in *.
  exists v, h'. split_and!; try done; [by apply agree_eq; congruence|lia|lia].
Qed.

Lemma write_reg_run p r v h : ioapic_at p = true -> exists h', write_reg p r v h = Done (tt, h') /\ imr h' = imr h /\
  forall q r' b, 0x10 <= r' < 0x40 -> rw_bit r' b = true -> io_bit h' q r' b = if (q =? p) && (r' =? r) then Z.testbit v b else io_bit h q r' b.
Proof.
  intros Hp. unfold write_reg, write_ioregsel, write_iowin, bind, modify. destruct (hw_select p r h Hp) as (S1 & S2 & S3).
  set (h1 := write_volatile p r h) in *. destruct (hw_window p v h1 Hp) as (W1 & W2 & W3).
  assert (io_sel h1 p = r) as Hs by (rewrite S1, Z.eqb_refl; done). rewrite Hs, S2 in *.
  eexists. split_and!; [done|by rewrite W2|]. intros. by apply W3.
Qed.

Lemma read_ioredtbl_run p idx h : ioapic_at p = true -> 0 <= idx < 24 -> exists v h', read_ioredtbl p idx h = Done (v, h') /\ agree h h' /\
  forall b, rw64 b = true -> Z.testbit v b = entry_bit h p idx b.
Proof.
  intros Hp Hi. unfold read_ioredtbl. unfold bind at 1, assert_. destruct (Z.ltb_spec idx 24); [|lia]. cbn [ret].
  destruct (read_reg_run p (0x10 + idx * 2) h Hp) as (lo & h1 & E1 & A1 & B1 & _ & _ & L1). rewrite (bind_Done _ _ _ _ _ E1).
  destruct (read_reg_run p (0x10 + idx * 2 + 1) h1 Hp) as (hi & h2 & E2 & A2 & B2 & _ & _ & L2). rewrite (bind_Done _ _ _ _ _ E2).
  eexists _, h2. split_and!; [done|by eapply agree_trans|].
  intros b Hb. pose proof (rw64_range b Hb). unfold rw64, entry_bit in *. rewrite Z.lor_spec, Z.shiftl_spec by lia.
  destruct (Z.ltb_spec b 32).
  - rewrite L1 by (try lia; by rewrite rw_even). rewrite (Z.testbit_neg_r hi) by lia. by rewrite orb_false_r.
  - rewrite (testbit_above lo 32) by lia. cbn [orb]. rewrite L2 by (try lia; by rewrite rw_odd).
    apply A1; [lia|by rewrite rw_odd].
Qed.

Lemma write_ioredtbl_run p idx v h : ioapic_at p = true -> 0 <= idx < 24 ->
  exists h', write_ioredtbl p idx v h = Done (tt, h') /\ imr h' = imr h /\
  forall q i b, 0 <= i < 24 -> rw64 b = true -> entry_bit h' q i b = if (q =? p) && (i =? idx) then Z.testbit v b else entry_bit h q i b.
Proof.
  intros Hp Hi. unfold write_ioredtbl. unfold bind at 1, assert_. destruct (Z.ltb_spec idx 24); [|lia]. cbn [ret].
  destruct (write_reg_run p (0x10 + idx * 2) (v mod 2 ^ 32) h Hp) as (h1 & E1 & I1 & W1). rewrite (bind_Done _ _ _ _ _ E1).
  destruct (write_reg_run p (0x10 + idx * 2 + 1) (Z.shiftr v 32 mod 2 ^ 32) h1 Hp) as (h2 & E2 & I2 & W2).
  exists h2. split_and!; [done|congruence|]. intros q i b Hib Hb. pose proof (rw64_range b Hb). unfold rw64, entry_bit in *.
  destruct (Z.ltb_spec b 32).
  - rewrite W2, W1 by (try lia; by rewrite rw_even). destruct (Z.eqb_spec (16 + i * 2) (16 + idx * 2 + 1)); [lia|]. rewrite andb_false_r.
    destruct (Z.eqb_spec (16 + i * 2) (16 + idx * 2)), (Z.eqb_spec i idx); try lia; [|by rewrite !andb_false_r].
    case_match; [|done]. by rewrite Z.mod_pow2_bits_low by lia.
  - rewrite W2, W1 by (try lia; by rewrite rw_odd). destruct (Z.eqb_spec (16 + i * 2 + 1) (16 + idx * 2)); [lia|]. rewrite (andb_false_r (q =? p)).
    destruct (Z.eqb_spec (16 + i * 2 + 1) (16 + idx * 2 + 1)), (Z.eqb_spec i idx); try lia; [|by rewrite !andb_false_r].
    case_match; [|done]. rewrite Z.mod_pow2_bits_low, Z.shiftr_spec by lia. f_equal. lia.
Qed.

(** Setting the mask of a line changes bit 16 of its entry and nothing else. *)
Lemma set_mask_run dbg apic gsi m h : ioapic_at (regs apic) = true -> 0 <= gsi_start apic -> gsi_start apic <= gsi < gsi_start apic + 24 ->
  exists h', ioapic_set_mask dbg apic gsi m h = Done (tt, h') /\ imr h' = imr h /\
  forall q i b, 0 <= i < 24 -> rw64 b = true ->
    entry_bit h' q i b = if (q =? regs apic) && (i =? gsi - gsi_start apic) && (b =? 16) then m else entry_bit h q i b.
Proof.
  intros Hp Hg Hr. unfold ioapic_set_mask, u32_sub. unfold bind at 1. destruct (Z.leb_spec (gsi_start apic) gsi); [|lia]. cbn [ret].
  set (idx := (gsi - gsi_start apic) mod 2 ^ 8). assert (idx = gsi - gsi_start apic) as Hidx by (apply Z.mod_small; lia).
  destruct (read_ioredtbl_run (regs apic) idx h Hp ltac:(lia)) as (v & h1 & E1 & A1 & L1). rewrite (bind_Done _ _ _ _ _ E1).
  set (w := Z.lor _ _).
  assert (forall b, 0 <= b < 64 -> Z.testbit w b = if b =? 16 then m else Z.testbit v b) as Hw.
  { intros b Hb. unfold w. rewrite Z.lor_spec, Z.land_spec, testbit_usize_not, !Z.shiftl_spec by lia.
    destruct (Z.eqb_spec b 16) as [->|]; [by destruct m, (Z.testbit v 16)|].
    destruct (Z.lt_ge_cases b 16); [rewrite !(Z.testbit_neg_r _ (b - 16)) by lia; by rewrite andb_true_r, orb_false_r|].
    rewrite (testbit_above 1 1), (testbit_above (Z.b2z m) 1) by (try destruct m; cbn; lia). by rewrite andb_true_r, orb_false_r. }
  destruct (write_ioredtbl_run (regs apic) idx w h1 Hp ltac:(lia)) as (h2 & E2 & I2 & W2).
  exists h2. split_and!; [done|destruct A1; congruence|]. intros q i b Hi Hb. pose proof (rw64_range b Hb).
  rewrite W2 by done. rewrite Hidx. destruct (Z.eqb_spec q (regs apic)) as [->|], (Z.eqb_spec i (gsi - gsi_start apic)) as [->|]; cbn [andb];
    try by apply agree_entry.
  rewrite Hw by lia. destruct (Z.eqb_spec b 16); [done|]. rewrite L1 by done. by rewrite Hidx.
Qed.
End entries.

(** ** What an entry says *)

Lemma testbit_shiftl x n b : 0 <= n -> 0 <= b -> Z.testbit (Z.shiftl x n) b = (n <=? b) && Z.testbit x (b - n).
Proof.
  intros Hn Hb. rewrite Z.shiftl_spec by lia. destruct (Z.leb_spec n b); [done|]. by rewrite Z.testbit_neg_r by lia.
Qed.
Lemma testbit_single x k b : 0 <= x < 2 -> 0 <= b -> 0 <= k -> Z.testbit (Z.shiftl x k) b = (b =? k) && (x =? 1).
Proof.
  intros Hx Hb Hk. rewrite testbit_shiftl by lia. destruct (Z.eqb_spec b k) as [->|].
  - rewrite Z.sub_diag, Z.leb_refl. by assert (x = 0 \/ x = 1) as [->| ->] by lia.
  - destruct (Z.leb_spec k b); [|done]. by rewrite (testbit_above x 1) by lia.
Qed.

(** The fields of [MapInfo] are where the data sheet has them; the destination has
    eight bits. *)
Lemma as_raw_bits m b : 0 <= mp_vector m < 256 -> 0 <= b < 64 ->
  Z.testbit (as_raw_value m) b =
    if b <? 8 then Z.testbit (mp_vector m) b
    else if b <? 11 then Z.testbit (delivery_raw (mp_delivery_mode m)) (b - 8)
    else if b =? 11 then dest_mode_raw (mp_dest_mode m) =? 1
    else if b =? 13 then polarity_raw (mp_polarity m) =? 1
    else if b =? 15 then trigger_raw (mp_trigger_mode m) =? 1
    else if b =? 16 then mp_mask m
    else if 56 <=? b then Z.testbit (mp_dest m) (b - 56)
    else false.
Proof.
  intros Hv Hb. unfold as_raw_value. rewrite !Z.lor_spec, Z.mod_pow2_bits_low, testbit_shiftl by lia.
  rewrite (testbit_single (Z.b2z (mp_mask m))) by (try destruct (mp_mask m); cbn; lia).
  rewrite (testbit_single (trigger_raw _)) by (try destruct (mp_trigger_mode m); cbn; lia).
  rewrite (testbit_single (polarity_raw _)) by (try destruct (mp_polarity m); cbn; lia).
  rewrite (testbit_single (dest_mode_raw _)) by (try destruct (mp_dest_mode m); cbn; lia).
  rewrite testbit_shiftl by lia.
  destruct (Z.ltb_spec b 8).
  - repeat (match goal with |- context [?x =? ?y] => destruct (Z.eqb_spec x y); [lia|] | |- context [?x <=? ?y] => destruct (Z.leb_spec x y); [lia|] end).
    done.
  - rewrite (testbit_above (mp_vector m) 8) by lia. rewrite orb_false_r.
    destruct (Z.leb_spec 8 b); [|lia]. cbn [andb].
    destruct (Z.ltb_spec b 11).
    + destruct (Z.leb_spec 56 b); [lia|]. by repeat (match goal with |- context [b =? ?y] => destruct (Z.eqb_spec b y); [lia|] end).
    + rewrite (testbit_above (delivery_raw _) 3) by (try destruct (mp_delivery_mode m); cbn; lia). rewrite orb_false_r.
      destruct (Z.leb_spec 56 b).
      * repeat (match goal with |- context [b =? ?y] => destruct (Z.eqb_spec b y); [lia|] end). cbn. by rewrite !orb_false_r.
      * cbn [andb orb].
        destruct (Z.eqb_spec b 16) as [->|]; [by destruct (mp_mask m)|]. destruct (Z.eqb_spec b 15) as [->|]; [by rewrite !orb_false_r|].
        destruct (Z.eqb_spec b 13) as [->|]; [by rewrite !orb_false_r|]. by destruct (Z.eqb_spec b 11) as [->|].
Qed.

(** ** Routing *)

Section routing.
Context {IH : IrqHw} {HL : IrqHwLaws}.

(** Only the hardware changes. *)
Definition with_hw (c : Chips) (h : Hw) : Chips := mkChips (IOAPICS c) (SRC_OVERRIDES c) (IRQ_METHOD c) (counters c) h.
Lemma in_hw_run {A} (m : M Hw A) c a h : m (hw c) = Done (a, h) -> in_hw m c = Done (a, with_hw c h).
Proof. intros E. unfold in_hw. by rewrite E. Qed.

Definition covers (gsi : Z) (a : IoApic) : bool := (gsi_start a <=? gsi) && (gsi <? gsi_start a + count a).
(** An I/O APIC the code can use: its table has at most 24 entries, and its
    interrupts are numbered below [2^32]. *)
Definition apic_ok (a : IoApic) : Prop :=
  ioapic_at (regs a) = true /\ 0 <= gsi_start a /\ 0 <= count a <= 24 /\ gsi_start a + count a < 2 ^ 32.

Lemma find_in_run dbg gsi l c : Forall apic_ok l -> find_in dbg gsi l c = Done (find (covers gsi) l, c).
Proof.
  induction 1 as [|a l (? & ? & ? & ?) _ IHl]; [done|]. cbn [find_in find]. unfold covers at 1.
  destruct (Z.leb_spec (gsi_start a) gsi); [|exact IHl]. unfold u32_add, bind.
  destruct (Z.ltb_spec (gsi_start a + count a) (2 ^ 32)); [|lia]. cbn. by destruct (Z.ltb_spec gsi (gsi_start a + count a)).
Qed.
Lemma find_ioapic_run dbg gsi c : Forall apic_ok (ioapics c) -> find_ioapic dbg gsi c = Done (find (covers gsi) (ioapics c), c).
Proof. intros. unfold find_ioapic, bind, get_state. by apply find_in_run. Qed.
Lemma find_covers gsi l a : Forall apic_ok l -> find (covers gsi) l = Some a ->
  a ∈ l /\ apic_ok a /\ 0 <= gsi - gsi_start a < 24.
Proof.
  intros Ok [Hin Hc]%find_some. apply list_elem_of_In in Hin. pose proof (proj1 (Forall_forall _ _) Ok a Hin) as (? & ? & ? & ?).
  unfold covers in Hc. split_and!; [done|done|lia|lia].
Qed.

(** The entry a legacy interrupt gets: registers, index, contents. *)
Definition target (c : Chips) (bsp irq : Z) : option (Z * Z * Z) :=
  match legacy_source c irq with
  | Some (gsi, tm, pol) =>
      match find (covers gsi) (ioapics c) with
      | Some a => Some (regs a, gsi - gsi_start a, as_raw_value (legacy_info bsp irq tm pol))
      | None => None
      end
  | None => None
  end.
(** The interrupt [irq] is routed to its entry. *)
Definition routed (c0 : Chips) (bsp : Z) (h : Hw) (irq : Z) : Prop :=
  match target c0 bsp irq with
  | Some (p, i, raw) => forall b, rw64 b = true -> entry_bit h p i b = Z.testbit raw b
  | None => True
  end.
Definition targets (c : Chips) (bsp irq p i : Z) : Prop := exists raw, target c bsp irq = Some (p, i, raw).

Lemma target_hw c h bsp irq : target (with_hw c h) bsp irq = target c bsp irq.
Proof. done. Qed.

Lemma map_legacy_run dbg bsp irq c : Forall apic_ok (ioapics c) -> 0 <= irq < 16 ->
  exists h, map_legacy dbg bsp irq c = Done (tt, with_hw c h) /\ imr h = imr (hw c) /\
    forall q i b, 0 <= i < 24 -> rw64 b = true ->
      entry_bit h q i b = match target c bsp irq with
                          | Some (p, j, raw) => if (q =? p) && (i =? j) then Z.testbit raw b else entry_bit (hw c) q i b
                          | None => entry_bit (hw c) q i b
                          end.
Proof.
  intros Ok Hi. unfold map_legacy, target. unfold bind at 1. cbn [get_state].
  assert (with_hw c (hw c) = c) as Hc by (by destruct c).
  destruct (legacy_source c irq) as [[[gsi tm] pol]|]; [|exists (hw c); by rewrite Hc].
  rewrite (bind_Done _ _ _ _ _ (find_ioapic_run dbg gsi c Ok)).
  destruct (find (covers gsi) (ioapics c)) as [a|] eqn:F; [|exists (hw c); by rewrite Hc].
  apply find_covers in F as (_ & (Hp & ? & ? & ?) & Hg); [|done]. unfold u32_sub, bind at 1.
  destruct (Z.leb_spec (gsi_start a) gsi); [|lia]. cbn [ret]. rewrite Z.mod_small by lia.
  destruct (write_ioredtbl_run (regs a) (gsi - gsi_start a) (as_raw_value (legacy_info bsp irq tm pol)) (hw c) Hp Hg) as (h & E & I & W).
  exists h. split; [|split; [done|exact W]]. apply in_hw_run. unfold ioapic_map, as_raw, bind, assert_. cbn [mp_vector legacy_info].
  destruct (Z.leb_spec 0x20 (32 + irq)); [|lia]. cbn [ret]. destruct (Z.leb_spec (32 + irq) 0xFE); [|lia]. exact E.
Qed.

(** No two sources are sent to one line by the overrides. *)
Definition overrides_ok (l : list Override) : Prop :=
  forall o o', o ∈ l -> o' ∈ l -> over_gsi o = over_gsi o' -> bus_irq o = bus_irq o'.

Lemma legacy_source_inj c irq irq' gsi t p t' p' : overrides_ok (src_overrides c) ->
  legacy_source c irq = Some (gsi, t, p) -> legacy_source c irq' = Some (gsi, t', p') -> irq = irq'.
Proof.
  intros Ok. unfold legacy_source, get_override.
  assert (forall i o, find (fun over => bus_irq over =? i) (src_overrides c) = Some o -> o ∈ src_overrides c /\ bus_irq o = i) as F.
  { intros i o [H1 H2]%find_some. split; [by apply list_elem_of_In|lia]. }
  assert (forall i j o, o ∈ src_overrides c -> bus_irq o = j -> over_gsi o = i -> find (fun over => bus_irq over =? i) (src_overrides c) = None -> i <> j ->
    existsb (fun over => (over_gsi over =? i) && negb (bus_irq over =? i)) (src_overrides c)
      && negb (existsb (fun over => bus_irq over =? i) (src_overrides c)) = true) as X.
  { intros i j o Ho Hj Hg Hn Hne. apply andb_true_iff. split.
    - apply existsb_exists. exists o. split; [by apply list_elem_of_In|]. lia.
    - apply negb_true_iff. apply not_true_is_false. intros (o' & Ho' & E)%existsb_exists. eapply find_none in Hn; [|exact Ho']. cbn in Hn. congruence. }
  destruct (find _ (src_overrides c)) as [o|] eqn:E1; destruct (find (fun over => bus_irq over =? irq') _) as [o'|] eqn:E2.
  - intros [= <- _ _] [= Hg _ _]. destruct (F _ _ E1) as [? <-]. destruct (F _ _ E2) as [? <-]. by apply Ok.
  - intros [= <- _ _]. destruct (F _ _ E1) as [H1 H2]. case_match eqn:E; [done|]. intros [= Hg _ _].
    destruct (decide (irq' = irq)) as [|Hne]; [done|]. rewrite (X irq' irq o) in E; done.
  - case_match eqn:E; [done|]. intros [= <- _ _] [= Hg _ _]. destruct (F _ _ E2) as [H1 H2].
    destruct (decide (irq = irq')) as [|Hne]; [done|]. rewrite (X irq irq' o') in E; done.
  - repeat case_match; intros; congruence.
Qed.

Lemma nodup_regs l a a' : NoDup (map regs l) -> a ∈ l -> a' ∈ l -> regs a = regs a' -> a = a'.
Proof.
  intros Nd [i Hi]%list_elem_of_lookup [j Hj]%list_elem_of_lookup E.
  assert (i = j) as ->; [|congruence]. eapply (NoDup_lookup _ _ _ (regs a) Nd).
  - change (map regs l) with (regs <$> l). by rewrite list_lookup_fmap, Hi.
  - change (map regs l) with (regs <$> l). by rewrite list_lookup_fmap, Hj, E.
Qed.

Lemma target_inj c bsp irq irq' p i raw raw' : overrides_ok (src_overrides c) -> Forall apic_ok (ioapics c) -> NoDup (map regs (ioapics c)) ->
  target c bsp irq = Some (p, i, raw) -> target c bsp irq' = Some (p, i, raw') -> irq = irq'.
Proof.
  intros Ov Ok Nd. unfold target.
  destruct (legacy_source c irq) as [[[g t] pl]|] eqn:E1; [|done]. destruct (find (covers g) _) as [a|] eqn:F1; [|done]. intros [= <- <- _].
  destruct (legacy_source c irq') as [[[g' t'] pl']|] eqn:E2; [|done]. destruct (find (covers g') _) as [a'|] eqn:F2; [|done]. intros [= Hr Hg _].
  apply find_covers in F1 as (I1 & _ & _); [|done]. apply find_covers in F2 as (I2 & _ & _); [|done].
  assert (a' = a) as -> by (by apply (nodup_regs (ioapics c))). assert (g' = g) as -> by lia.
  by eapply legacy_source_inj.
Qed.

Lemma map_all_run dbg bsp c l : overrides_ok (src_overrides c) -> Forall apic_ok (ioapics c) -> NoDup (map regs (ioapics c)) ->
  Forall (fun irq => 0 <= irq < 16) l -> NoDup l -> forall h0,
  exists h, forM l (map_legacy dbg bsp) (with_hw c h0) = Done (tt, with_hw c h) /\ imr h = imr h0 /\
    (forall irq, irq ∈ l -> routed c bsp h irq) /\
    (forall q i b, 0 <= i < 24 -> rw64 b = true -> (forall irq, irq ∈ l -> ~ targets c bsp irq q i) -> entry_bit h q i b = entry_bit h0 q i b).
Proof.
  intros Ov Ok Nd. induction 1 as [|irq l Hi _ IHl]; intros Ndl h0.
  { exists h0. split_and!; [done|done|set_solver|done]. }
  apply NoDup_cons in Ndl as [Hnin Ndl].
  destruct (map_legacy_run dbg bsp irq (with_hw c h0) Ok Hi) as (h1 & E1 & I1 & W1). cbn [forM]. rewrite (bind_Done _ _ _ _ _ E1).
  destruct (IHl Ndl h1) as (h & E & I & R & K). exists h. split_and!; [exact E|by rewrite I| |].
  - intros irq' [->|H]%elem_of_cons; [|by apply R]. unfold routed. rewrite target_hw in W1.
    destruct (target c bsp irq) as [[[p i] raw]|] eqn:T; [|done]. intros b Hb.
    assert (0 <= i < 24) as Hi24.
    { revert T. unfold target. destruct (legacy_source c irq) as [[[g ?] ?]|]; [|done]. destruct (find (covers g) _) as [a|] eqn:F; [|done].
      intros [= <- <- _]. by apply find_covers in F as (_ & _ & ?). }
    rewrite K; [by rewrite W1, !Z.eqb_refl|done|done|].
    intros irq' H' [raw' T']. by assert (irq' = irq) as -> by (by eapply target_inj).
  - intros q i b Hi24 Hb Hn. rewrite K; [|done|done|intros irq' H'; apply Hn; by right]. rewrite W1 by done. rewrite target_hw. cbn [hw with_hw].
    destruct (target c bsp irq) as [[[p j] raw]|] eqn:T; [|done].
    destruct (Z.eqb_spec q p) as [->|], (Z.eqb_spec i j) as [->|]; try done. destruct (Hn irq); [left|by eexists].
Qed.

(** *** The tables *)

Definition apic_of (map_regs : Z -> option Z) (e : MadtEntry) : option IoApic :=
  match e with
  | IoApicEntry e => (fun p => mkIoApic p (mi_gsi_base e) (Z.shiftr (Z.land (io_version p) 0x00FF0000) 16)) <$> map_regs (mi_address e)
  | _ => None
  end.
Definition entry_override (e : MadtEntry) : option Override := match e with IntSrcOverride e => override_of e | _ => None end.

(** The table describes I/O APICs that are there. *)
Definition apic_entry_ok (map_regs : Z -> option Z) (e : MadtEntry) : Prop :=
  match e with
  | IoApicEntry e => exists p, map_regs (mi_address e) = Some p /\ Z.shiftr (Z.land (io_id p) 0x0F000000) 24 = mi_id e /\
      apic_ok (mkIoApic p (mi_gsi_base e) (Z.shiftr (Z.land (io_version p) 0x00FF0000) 16))
  | _ => True
  end.

Definition with_tables (c : Chips) (a : list IoApic) (o : list Override) : Prop := ioapics c = a /\ src_overrides c = o.

Lemma handle_entry_run map_regs e c : apic_entry_ok map_regs e ->
  exists c', handle_entry map_regs e c = Done (tt, c') /\ agree (hw c) (hw c') /\
    ioapics c' = ioapics c ++ option_list (apic_of map_regs e) /\ src_overrides c' = src_overrides c ++ option_list (entry_override e).
Proof.
  assert (exists c', ret tt c = Done (tt, c') /\ agree (hw c) (hw c') /\ ioapics c' = ioapics c ++ [] /\ src_overrides c' = src_overrides c ++ []) as N.
  { exists c. by rewrite !app_nil_r. }
  intros Ok. destruct e; try exact N; cbn [handle_entry apic_of entry_override option_list].
  - destruct Ok as (p & Hm & Hid & Hok). unfold handle_ioapic. rewrite Hm. unfold bind at 1. cbn [unwrap ret].
    destruct (read_reg_run p 1 (hw c)) as (v & h1 & E1 & A1 & _ & _ & Hv & _); [apply Hok|].
    erewrite bind_Done; [|apply in_hw_run; unfold IoApic_new, max_redirection_table_entries, read_ioapicver, bind; by rewrite E1].
    destruct (read_reg_run p 0 h1) as (w & h2 & E2 & A2 & _ & Hw & _); [apply Hok|].
    erewrite bind_Done; [|apply in_hw_run; unfold ioapic_id, read_ioapicid, bind; cbn [regs hw with_hw]; by rewrite E2].
    rewrite (Hw eq_refl), (Hv eq_refl), Hid, Z.eqb_refl. eexists. split; [reflexivity|]. split_and!; [by eapply agree_trans|done|by rewrite app_nil_r].
  - unfold handle_src_override. destruct (override_of e) as [o|]; [|exact N]. eexists. split; [reflexivity|].
    split_and!; [done|by rewrite app_nil_r|done].
Qed.

Lemma handle_entries_run map_regs es c : Forall (apic_entry_ok map_regs) es ->
  exists c', forM es (handle_entry map_regs) c = Done (tt, c') /\ agree (hw c) (hw c') /\
    ioapics c' = ioapics c ++ omap (apic_of map_regs) es /\ src_overrides c' = src_overrides c ++ omap entry_override es.
Proof.
  intros Ok. revert c. induction Ok as [|e es He _ IHl]; intros c.
  { exists c. by rewrite !app_nil_r. }
  destruct (handle_entry_run map_regs e c He) as (c1 & E1 & A1 & B1 & C1). cbn [forM]. rewrite (bind_Done _ _ _ _ _ E1).
  destruct (IHl c1) as (c2 & E2 & A2 & B2 & C2). exists c2. split_and!; [exact E2|by eapply agree_trans| |].
  - rewrite B2, B1, <- app_assoc. f_equal. cbn [omap list_omap]. by destruct (apic_of map_regs e).
  - rewrite C2, C1, <- app_assoc. f_equal. cbn [omap list_omap]. by destruct (entry_override e).
Qed.

Lemma pic_disable_run h : exists h', pic_disable h = Done (tt, h') /\ io_bit h' = io_bit h /\ imr h' 0x21 = 0xFF /\ imr h' 0xA1 = 0xFF.
Proof.
  unfold pic_disable, out, bind, modify. cbn [pic_data master slave Pic_new].
  destruct (hw_imr_write 0x21 0xFF h) as [B1 I1]; [set_solver|lia|]. set (h1 := pio_write _ _ h) in *.
  destruct (hw_imr_write 0xA1 0xFF h1) as [B2 I2]; [set_solver|lia|]. set (h2 := pio_write _ _ h1) in *.
  exists h2. split_and!; [done|congruence|by rewrite I2, I1|by rewrite I2].
Qed.

Lemma range16_ok : Forall (fun irq => 0 <= irq < 16) (range 16) /\ NoDup (range 16).
Proof. split; [apply Forall_forall; intros x (n & -> & H%elem_of_seq)%list_elem_of_fmap; lia|]. apply (NoDup_fmap_2 Z.of_nat), NoDup_seq. Qed.

(** *** What the table asks for *)

(** An override whose polarity (bits 0 and 1 of its flags) or trigger mode (bits 2
    and 3) is the reserved value 2. *)
Definition reserved (o : MadtIntSrcOverride) : bool :=
  let bit := Z.testbit (so_flags o) in (bit 1 && negb (bit 0)) || (bit 3 && negb (bit 2)).
Definition valid_overrides (es : list MadtEntry) : list MadtIntSrcOverride :=
  omap (fun e => match e with IntSrcOverride o => if reserved o then None else Some o | _ => None end) es.
Definition override_for (es : list MadtEntry) (irq : Z) : option MadtIntSrcOverride :=
  find (fun o => so_irq_source o =? irq) (valid_overrides es).
(** The line of a legacy interrupt: the one its override names, or that of its own
    number unless an override gives this to another interrupt. *)
Definition legacy_line (es : list MadtEntry) (irq : Z) : option Z :=
  match override_for es irq with
  | Some o => Some (so_gsi_base o)
  | None => if existsb (fun o => so_gsi_base o =? irq) (valid_overrides es) then None else Some irq
  end.
(** Both bits of a field say level-triggered, or active low; edge-triggered and
    active high is what the bus of these interrupts uses otherwise. *)
Definition level_triggered (es : list MadtEntry) (irq : Z) : bool :=
  match override_for es irq with Some o => Z.testbit (so_flags o) 2 && Z.testbit (so_flags o) 3 | None => false end.
Definition active_low (es : list MadtEntry) (irq : Z) : bool :=
  match override_for es irq with Some o => Z.testbit (so_flags o) 0 && Z.testbit (so_flags o) 1 | None => false end.

(** The number of the last entry of an I/O APIC, from its version register. *)
Definition last_entry (p : Z) : Z := io_version p / 2 ^ 16 mod 2 ^ 8.
(** The I/O APIC and the entry of a line, for the lines below the last one of an
    I/O APIC, which the code does not find (see [last_line_not_found]). *)
Definition apic_entry (map_regs : Z -> option Z) (es : list MadtEntry) (gsi : Z) : option (Z * Z) :=
  head (omap (fun e =>
    match e with
    | IoApicEntry a =>
        match map_regs (mi_address a) with
        | Some p => if (mi_gsi_base a <=? gsi) && (gsi <? mi_gsi_base a + last_entry p) then Some (p, gsi - mi_gsi_base a) else None
        | None => None
        end
    | _ => None
    end) es).
Definition goes_to (map_regs : Z -> option Z) (es : list MadtEntry) (irq p i : Z) : Prop :=
  exists gsi, legacy_line es irq = Some gsi /\ apic_entry map_regs es gsi = Some (p, i).

(** What entry [i] of the I/O APIC at [p] says, field by field as the data sheet
    gives them. *)
Record delivers (h : Hw) (p i vector dest : Z) (level low : bool) : Prop := {
  dl_vector : forall b, 0 <= b < 8 -> entry_bit h p i b = Z.testbit vector b;
  dl_fixed : entry_bit h p i 8 = false /\ entry_bit h p i 9 = false /\ entry_bit h p i 10 = false;
  dl_physical : entry_bit h p i 11 = false;
  dl_low : entry_bit h p i 13 = low;
  dl_level : entry_bit h p i 15 = level;
  dl_unmasked : entry_bit h p i 16 = false;
  dl_dest : forall b, 0 <= b < 8 -> entry_bit h p i (56 + b) = Z.testbit dest b
}.

Lemma low2_bits f : Z.land f 3 = Z.b2z (Z.testbit f 0) + 2 * Z.b2z (Z.testbit f 1).
Proof.
  change 3 with (Z.ones 2). rewrite Z.land_ones by lia. rewrite !Z.testbit_spec' by lia. change (2 ^ 0) with 1. change (2 ^ 1) with 2.
  change (2 ^ 2) with 4. rewrite Z.div_1_r. Z.to_euclidean_division_equations. lia.
Qed.
Lemma field2_bits f : Z.shiftr (Z.land f 0xC) 2 = Z.b2z (Z.testbit f 2) + 2 * Z.b2z (Z.testbit f 3).
Proof.
  rewrite Z.shiftr_land. change (Z.shiftr 0xC 2) with 3. by rewrite low2_bits, !Z.shiftr_spec by lia.
Qed.

Definition mode_of (o : MadtIntSrcOverride) : TriggerMode :=
  if Z.testbit (so_flags o) 2 then if Z.testbit (so_flags o) 3 then TmLevel else TmEdge else TmConforms.
Definition pol_of (o : MadtIntSrcOverride) : Polarity :=
  if Z.testbit (so_flags o) 0 then if Z.testbit (so_flags o) 1 then PolActiveLow else PolActiveHigh else PolConforms.
Definition conv (o : MadtIntSrcOverride) : Override := mkOverride (so_irq_source o) (so_gsi_base o) (mode_of o) (pol_of o).

Lemma override_of_conv o : override_of o = if reserved o then None else Some (conv o).
Proof.
  unfold override_of, reserved, conv, mode_of, pol_of. rewrite low2_bits, field2_bits.
  by destruct (Z.testbit (so_flags o) 0), (Z.testbit (so_flags o) 1), (Z.testbit (so_flags o) 2), (Z.testbit (so_flags o) 3).
Qed.
Lemma overrides_conv es : omap entry_override es = conv <$> valid_overrides es.
Proof.
  induction es as [|e es IHl]; [done|]. unfold valid_overrides in *. cbn [omap list_omap]. destruct e; try exact IHl.
  cbn [entry_override]. rewrite override_of_conv. destruct (reserved _); cbn [fmap list_fmap]; by rewrite IHl.
Qed.

Lemma find_conv l irq : find (fun over => bus_irq over =? irq) (conv <$> l) = conv <$> find (fun o => so_irq_source o =? irq) l.
Proof. induction l as [|o l IHl]; [done|]. cbn. by destruct (so_irq_source o =? irq). Qed.
Lemma existsb_conv (f : Override -> bool) l : existsb f (conv <$> l) = existsb (fun o => f (conv o)) l.
Proof. induction l as [|o l IHl]; [done|]. cbn. by rewrite IHl. Qed.

Definition source_of (es : list MadtEntry) (irq gsi : Z) : Z * TriggerMode * Polarity :=
  match override_for es irq with Some o => (gsi, mode_of o, pol_of o) | None => (gsi, TmConforms, PolConforms) end.

Lemma legacy_source_line c es irq : src_overrides c = conv <$> valid_overrides es ->
  legacy_source c irq = source_of es irq <$> legacy_line es irq.
Proof.
  intros E. unfold legacy_source, legacy_line, get_override, source_of, override_for. rewrite E, find_conv, !existsb_conv.
  destruct (find _ (valid_overrides es)) as [o|] eqn:F; [done|]. cbn [fmap option_fmap option_map bus_irq over_gsi conv].
  assert (Hn : forall o, o ∈ valid_overrides es -> (so_irq_source o =? irq) = false).
  { intros o Ho. eapply (find_none (fun o => so_irq_source o =? irq)); [exact F|by apply list_elem_of_In]. }
  assert (existsb (fun o => so_irq_source o =? irq) (valid_overrides es) = false) as ->.
  { apply not_true_is_false. intros (o & Ho & Hq)%existsb_exists. rewrite Hn in Hq; [done|by apply list_elem_of_In]. }
  assert (existsb (fun o => (so_gsi_base o =? irq) && negb (so_irq_source o =? irq)) (valid_overrides es) =
          existsb (fun o => so_gsi_base o =? irq) (valid_overrides es)) as ->.
  { apply eq_true_iff_eq. rewrite !existsb_exists. split; intros (o & Ho & H); exists o; (split; [done|]).
    - by apply andb_true_iff in H as [? _].
    - rewrite H, (Hn o) by (by apply list_elem_of_In). done. }
  cbn [negb]. rewrite andb_true_r. by destruct (existsb _ _).
Qed.

Lemma last_entry_eq p : Z.shiftr (Z.land (io_version p) 0x00FF0000) 16 = last_entry p.
Proof.
  unfold last_entry. rewrite Z.shiftr_land. change (Z.shiftr 0xFF0000 16) with (Z.ones 8).
  by rewrite Z.land_ones, Z.shiftr_div_pow2 by lia.
Qed.

Lemma apic_entry_find map_regs es gsi :
  apic_entry map_regs es gsi = (fun a => (regs a, gsi - gsi_start a)) <$> find (covers gsi) (omap (apic_of map_regs) es).
Proof.
  unfold apic_entry. induction es as [|e es IHl]; [done|]. cbn [omap list_omap]. destruct e; try exact IHl. cbn [apic_of].
  destruct (map_regs _) as [p|]; [|exact IHl]. cbn [fmap option_fmap option_map find]. unfold covers at 1. cbn [gsi_start count].
  rewrite last_entry_eq. destruct (_ && _); [done|exact IHl].
Qed.

(** The bits of the entry the code writes. *)
Lemma raw_bit m b : 0 <= mp_vector m < 2 ^ 8 -> mp_delivery_mode m = Fixed -> mp_dest_mode m = Physical -> 0 <= b ->
  Z.testbit (as_raw_value m) b =
    (b <? 8) && Z.testbit (mp_vector m) b || (b =? 13) && (polarity_raw (mp_polarity m) =? 1) ||
    (b =? 15) && (trigger_raw (mp_trigger_mode m) =? 1) || (b =? 16) && mp_mask m ||
    (56 <=? b) && (b <? 64) && Z.testbit (mp_dest m) (b - 56).
Proof.
  intros Hv Hd Hm Hb. unfold as_raw_value. rewrite Hd, Hm. cbn [delivery_raw dest_mode_raw]. rewrite !Z.shiftl_0_l, !Z.lor_0_r.
  rewrite !Z.lor_spec.
  assert (Hbit : forall x n, 0 <= n -> Z.testbit (Z.shiftl (Z.b2z x) n) b = (b =? n) && x).
  { intros x n Hn. rewrite Z.shiftl_spec by lia. destruct (Z.eqb_spec b n) as [->|].
    - rewrite Z.sub_diag. by destruct x.
    - cbn [andb]. destruct (Z.ltb_spec b n); [by apply Z.testbit_neg_r; lia|]. destruct x; [|apply Z.testbit_0_l].
      change (Z.b2z true) with (2 ^ 0). by rewrite Z.pow2_bits_false by lia. }
  assert (Hp : polarity_raw (mp_polarity m) = Z.b2z (polarity_raw (mp_polarity m) =? 1)) by (by destruct (mp_polarity m)).
  assert (Ht : trigger_raw (mp_trigger_mode m) = Z.b2z (trigger_raw (mp_trigger_mode m) =? 1)) by (by destruct (mp_trigger_mode m)).
  rewrite Hp at 1. rewrite Ht at 1. rewrite !Hbit by lia.
  assert (Z.testbit (Z.shiftl (mp_dest m) 56 mod 2 ^ 64) b = (56 <=? b) && (b <? 64) && Z.testbit (mp_dest m) (b - 56)) as ->.
  { destruct (Z.ltb_spec b 64); [|by rewrite Z.mod_pow2_bits_high, andb_false_r by lia].
    rewrite Z.mod_pow2_bits_low, Z.shiftl_spec, andb_true_r by lia. destruct (Z.leb_spec 56 b); [done|].
    by rewrite Z.testbit_neg_r by lia. }
  assert (Z.testbit (mp_vector m) b = (b <? 8) && Z.testbit (mp_vector m) b) as Hvb.
  { destruct (Z.ltb_spec b 8); [done|]. by apply (testbit_above _ 8); lia. }
  rewrite Hvb at 1. destruct ((b <? 8) && _), ((b =? 13) && _), ((b =? 15) && _), ((b =? 16) && _), (_ && _ && _); reflexivity.
Qed.

Lemma routed_delivers c bsp h irq gsi p i es : 0 <= irq < 16 -> src_overrides c = conv <$> valid_overrides es ->
  legacy_line es irq = Some gsi -> (fun a => (regs a, gsi - gsi_start a)) <$> find (covers gsi) (ioapics c) = Some (p, i) ->
  routed c bsp h irq -> delivers h p i (32 + irq) bsp (level_triggered es irq) (active_low es irq).
Proof.
  intros Hi Ho Hl Hf. unfold routed, target. rewrite (legacy_source_line c es irq Ho), Hl. cbn [fmap option_fmap option_map].
  unfold source_of, level_triggered, active_low.
  destruct (find (covers gsi) (ioapics c)) as [a|] eqn:F; [|done]. injection Hf as <- <-.
  destruct (override_for es irq) as [o|]; rewrite F; intros R.
  all: split; [intros b Hb| | | | | |intros b Hb].
  all: repeat match goal with |- _ /\ _ => split end.
  all: rewrite R by (unfold rw64, rw_bit; cbn; repeat (case_match; try lia); lia).
  all: rewrite raw_bit by (done || cbn; lia); cbn [legacy_info mp_vector mp_polarity mp_trigger_mode mp_mask mp_dest].
  all: try reflexivity.
  all: unfold mode_of, pol_of.
  all: repeat match goal with
       | |- context [?x <? ?y] => destruct (Z.ltb_spec x y); try lia
       | |- context [?x <=? ?y] => destruct (Z.leb_spec x y); try lia
       | |- context [?x =? 13] => destruct (Z.eqb_spec x 13); try lia
       | |- context [?x =? 15] => destruct (Z.eqb_spec x 15); try lia
       | |- context [?x =? 16] => destruct (Z.eqb_spec x 16); try lia
       end; cbn [andb orb]; rewrite ?orb_false_r, ?orb_false_l; try done;
       repeat match goal with |- context [Z.testbit (so_flags ?x) ?k] => destruct (Z.testbit (so_flags x) k) end;
       first [reflexivity|f_equal; lia].
Qed.

Lemma ioapic_init_run dbg map_regs bsp flags es c :
  IOAPICS c = None -> SRC_OVERRIDES c = None ->
  Forall (apic_entry_ok map_regs) es -> NoDup (map regs (omap (apic_of map_regs) es)) -> overrides_ok (omap entry_override es) ->
  exists c', ioapic_init dbg map_regs bsp (Some (flags, es)) c = Done (tt, c') /\
    ioapics c' = omap (apic_of map_regs) es /\ src_overrides c' = omap entry_override es /\ IRQ_METHOD c' = UseApic /\
    (forall irq, 0 <= irq < 16 -> routed c' bsp (hw c') irq) /\
    (forall irq irq' q i, targets c' bsp irq q i -> targets c' bsp irq' q i -> irq = irq') /\
    (forall q i b, 0 <= i < 24 -> rw64 b = true -> (forall irq, 0 <= irq < 16 -> ~ targets c' bsp irq q i) ->
       entry_bit (hw c') q i b = entry_bit (hw c) q i b) /\
    (Z.land flags FLAG_PCAT <> 0 -> imr (hw c') 0x21 = 0xFF /\ imr (hw c') 0xA1 = 0xFF).
Proof.
  intros Ha Ho Ok Nd Ov. unfold ioapic_init.
  assert (exists h0, (if negb (Z.land flags FLAG_PCAT =? 0) then in_hw pic_disable else ret tt) c = Done (tt, with_hw c h0) /\
    io_bit h0 = io_bit (hw c) /\ (Z.land flags FLAG_PCAT <> 0 -> imr h0 0x21 = 0xFF /\ imr h0 0xA1 = 0xFF)) as (h0 & E0 & B0 & I0).
  { destruct (Z.eqb_spec (Z.land flags FLAG_PCAT) 0); cbn [negb].
    - exists (hw c). by destruct c.
    - destruct (pic_disable_run (hw c)) as (h & E & B & I). exists h. split; [by apply in_hw_run|done]. }
  rewrite (bind_Done _ _ _ _ _ E0).
  destruct (handle_entries_run map_regs es (with_hw c h0) Ok) as (c1 & E1 & [A1 J1] & T1 & T2). rewrite (bind_Done _ _ _ _ _ E1).
  assert (ioapics c1 = omap (apic_of map_regs) es) as Hio by (rewrite T1; unfold ioapics; cbn; by rewrite Ha).
  assert (src_overrides c1 = omap entry_override es) as Hov by (rewrite T2; unfold src_overrides; cbn; by rewrite Ho).
  assert (Forall apic_ok (ioapics c1)) as Hok.
  { rewrite Hio. apply Forall_forall. intros a (e & He & Hae)%list_elem_of_omap. pose proof (proj1 (Forall_forall _ _) Ok e He) as H.
    destruct e; try done. destruct H as (p & Hm & _ & Hok). cbn in Hae. rewrite Hm in Hae. by injection Hae as <-. }
  destruct range16_ok as [R1 R2].
  destruct (map_all_run dbg bsp c1 (range 16) ltac:(by rewrite Hov) Hok ltac:(by rewrite Hio) R1 R2 (hw c1)) as (h & E & I & R & K).
  assert (with_hw c1 (hw c1) = c1) as Hc1 by (by destruct c1). rewrite Hc1 in E. rewrite (bind_Done _ _ _ _ _ E).
  assert (forall irq, 0 <= irq < 16 -> irq ∈ range 16) as Hr.
  { intros irq Hi. unfold range. apply list_elem_of_fmap. exists (Z.to_nat irq). split; [lia|]. apply elem_of_seq. lia. }
  eexists. split; [reflexivity|]. split_and!; [exact Hio|exact Hov|done| | | |].
  - intros irq Hi. by apply R, Hr.
  - intros irq irq' q i [r H] [r' H']. eapply (target_inj c1); [by rewrite Hov|done|by rewrite Hio|exact H|exact H'].
  - intros q i b Hi Hb Hn. cbn [hw with_hw]. rewrite K; [|done|done|].
    + rewrite (agree_entry (hw (with_hw c h0)) (hw c1)); [|by split|done|done]. unfold entry_bit. cbn [hw with_hw]. by rewrite B0.
    + intros irq Hi'. apply Hn. by apply (proj1 (Forall_forall _ _) R1).
  - intros Hf. cbn [hw with_hw]. rewrite I, J1. by apply I0.
Qed.
(** C21: from the MADT, [ioapic::init] programs the I/O APICs so that every legacy
    interrupt that has a line arrives as its own vector. The line of an interrupt is
    the one its override names, or that of its own number unless another interrupt
    has been moved there; entries with reserved values are ignored. For each of the
    interrupts 0 to 15, the entry of its line says, field by field: vector 32 plus
    the number, fixed delivery to the boot processor, level-triggered and active low
    exactly as the override has it, not masked. No entry is used for two interrupts,
    no other entry changes, and where the table says there are legacy controllers
    these are masked. The last line of each I/O APIC is left out: the code does not
    find it. *)
Theorem ioapic_init_routes dbg map_regs bsp flags es c :
  IOAPICS c = None -> SRC_OVERRIDES c = None ->
  Forall (apic_entry_ok map_regs) es -> NoDup (map regs (omap (apic_of map_regs) es)) ->
  (forall o o', o ∈ valid_overrides es -> o' ∈ valid_overrides es -> so_gsi_base o = so_gsi_base o' ->
     so_irq_source o = so_irq_source o') ->
  exists c', ioapic_init dbg map_regs bsp (Some (flags, es)) c = Done (tt, c') /\ IRQ_METHOD c' = UseApic /\
    (forall irq p i, 0 <= irq < 16 -> goes_to map_regs es irq p i ->
       delivers (hw c') p i (32 + irq) bsp (level_triggered es irq) (active_low es irq)) /\
    (forall irq irq' p i, goes_to map_regs es irq p i -> goes_to map_regs es irq' p i -> irq = irq') /\
    (forall p i b, 0 <= i < 24 -> rw64 b = true -> (forall irq, 0 <= irq < 16 -> ~ goes_to map_regs es irq p i) ->
       entry_bit (hw c') p i b = entry_bit (hw c) p i b) /\
    (Z.testbit flags 0 = true -> imr (hw c') 0x21 = 0xFF /\ imr (hw c') 0xA1 = 0xFF).
Proof.
  intros Ha Ho Ok Nd Ov. destruct (ioapic_init_run dbg map_regs bsp flags es c Ha Ho Ok Nd) as (c' & E & Hio & Hov & M & R & J & K & P).
  { rewrite overrides_conv. intros o o' (x & -> & Hx)%list_elem_of_fmap (x' & -> & Hx')%list_elem_of_fmap. by apply Ov. }
  rewrite overrides_conv in Hov.
  assert (T : forall irq p i, goes_to map_regs es irq p i <-> targets c' bsp irq p i).
  { intros irq p i. unfold goes_to, targets, target. rewrite (legacy_source_line c' es irq Hov).
    setoid_rewrite apic_entry_find. rewrite <- Hio. split.
    - intros (gsi & -> & H). cbn [fmap option_fmap option_map]. unfold source_of.
      destruct (find (covers gsi) (ioapics c')) as [a|] eqn:F; [|done]. injection H as <- <-.
      destruct (override_for es irq); rewrite F; by eexists.
    - intros [raw H]. destruct (legacy_line es irq) as [gsi|]; [|done]. exists gsi. split; [done|]. cbn [fmap option_fmap option_map] in H.
      unfold source_of in H. destruct (override_for es irq); destruct (find (covers gsi) (ioapics c')) as [a|]; try done; by injection H as <- <- _. }
  exists c'. split_and!; [exact E|exact M| | | |].
  - intros irq p i Hi (gsi & Hl & He). rewrite apic_entry_find, <- Hio in He. by eapply routed_delivers; [..|apply R].
  - intros irq irq' p i H H'. eapply J; by apply T.
  - intros p i b Hi Hb Hn. apply K; [done|done|]. intros irq H H'. by eapply Hn, T.
  - intros Hf. apply P. intros H0. apply (f_equal (fun z => Z.testbit z 0)) in H0. rewrite Z.land_spec, Hf in H0. discriminate H0.
Qed.
End routing.

(** ** Lines *)

Section lines.
Context {IH : IrqHw} {HL : IrqHwLaws}.

(** Where an interrupt can be masked: a bit of a legacy controller, or an entry of
    an I/O APIC. *)
Inductive Line := PicLine (port bit : Z) | ApicLine (p i : Z).
#[export] Instance Line_eq_dec : EqDecision Line.
Proof. solve_decision. Defined.
Definition line_ok (l : Line) : Prop :=
  match l with PicLine port bit => port ∈ [0x21; 0xA1] /\ 0 <= bit < 8 | ApicLine _ i => 0 <= i < 24 end.
Definition line_masked (h : Hw) (l : Line) : bool :=
  match l with PicLine port bit => Z.testbit (imr h port) bit | ApicLine p i => entry_bit h p i 16 end.
Definition line_of (c : Chips) (irq : Z) : option Line :=
  match IRQ_METHOD c with
  | UsePic => if irq <? 16 then Some (if 8 <=? irq then PicLine 0xA1 (irq - 8) else PicLine 0x21 irq) else None
  | UseApic => (fun a => ApicLine (regs a) (resolve c irq - gsi_start a)) <$> find (covers (resolve c irq)) (ioapics c)
  end.
Definition same_lines (h h' : Hw) : Prop := forall l, line_ok l -> line_masked h' l = line_masked h l.
(** Exactly the mask of the line of [irq] becomes [m]. *)
Definition set_line (c : Chips) (irq : Z) (m : bool) (h : Hw) : Prop :=
  forall l, line_ok l -> line_masked h l = if decide (line_of c irq = Some l) then m else line_masked (hw c) l.

Lemma same_lines_refl h : same_lines h h.
Proof. done. Qed.
Lemma same_lines_trans h1 h2 h3 : same_lines h1 h2 -> same_lines h2 h3 -> same_lines h1 h3.
Proof. intros A B l Hl. by rewrite B, A. Qed.
Lemma same_lines_eq h h' : imr h' = imr h -> io_bit h' = io_bit h -> same_lines h h'.
Proof. intros A B [port bit|p i] _; cbn; [by rewrite A|unfold entry_bit; by rewrite B]. Qed.

(** A write of the mask register of a legacy controller with one bit changed. *)
Lemma mask_write_run port v w h bit m : port ∈ [0x21; 0xA1] -> 0 <= bit < 8 -> 0 <= w < 2 ^ 8 -> v = imr h port ->
  (forall b, 0 <= b < 8 -> Z.testbit w b = if b =? bit then m else Z.testbit v b) ->
  forall l, line_ok l -> line_masked (pio_write port w h) l = if decide (PicLine port bit = l) then m else line_masked h l.
Proof.
  intros Hp Hb Hw -> Hbits. destruct (hw_imr_write port w h Hp Hw) as [B I]. intros [q b|p i] Hl; cbn [line_masked].
  - rewrite I. destruct Hl as [_ Hl]. destruct (Z.eqb_spec q port) as [->|].
    + rewrite Hbits by done. destruct (Z.eqb_spec b bit) as [->|]; case_decide; congruence.
    + case_decide; congruence.
  - case_decide; [done|]. unfold entry_bit. by rewrite B.
Qed.

Lemma bits8 x : 0 <= x -> (forall b, 8 <= b -> Z.testbit x b = false) -> 0 <= x < 2 ^ 8.
Proof.
  intros H0 H. split; [done|]. destruct (decide (x = 0)) as [->|]; [done|]. apply Z.log2_lt_pow2; [lia|].
  apply Z.lt_nge. intros Hle. pose proof (H _ Hle) as Hf. rewrite Z.bit_log2 in Hf by lia. done.
Qed.

Lemma mask_set_run c irq h : pic_data c ∈ [0x21; 0xA1] -> 0 <= irq < 8 -> exists h', mask_set c irq h = Done (tt, h') /\
  forall l, line_ok l -> line_masked h' l = if decide (PicLine (pic_data c) irq = l) then true else line_masked h l.
Proof.
  intros Hp Hi. unfold mask_set, bind, assert_, in_, out, modify. destruct (Z.ltb_spec irq 8); [|lia]. cbn [ret].
  destruct (pio_read (pic_data c) h) as [v h1] eqn:E. destruct (hw_imr_read _ _ _ _ Hp E) as (Hv & Hr & I1 & B1).
  assert (forall b, 0 <= b -> Z.testbit (Z.lor v (Z.shiftl 1 irq)) b = if b =? irq then true else Z.testbit v b) as Hb.
  { intros b Hb. rewrite Z.lor_spec, testbit_single by lia. destruct (b =? irq); [apply orb_true_r|apply orb_false_r]. }
  eexists. split; [done|]. intros l Hl. rewrite (mask_write_run _ v _ _ irq true); [|done|done| |congruence|intros; apply Hb; lia|done].
  - case_decide; [done|]. by rewrite (same_lines_eq h h1) by congruence.
  - apply bits8; [apply Z.lor_nonneg; split; [lia|apply Z.shiftl_nonneg; lia]|].
    intros b Hb8. rewrite Hb by lia. destruct (Z.eqb_spec b irq); [lia|]. by apply (testbit_above v 8); lia.
Qed.
Lemma mask_clear_run c irq h : pic_data c ∈ [0x21; 0xA1] -> 0 <= irq < 8 -> exists h', mask_clear c irq h = Done (tt, h') /\
  forall l, line_ok l -> line_masked h' l = if decide (PicLine (pic_data c) irq = l) then false else line_masked h l.
Proof.
  intros Hp Hi. unfold mask_clear, bind, assert_, in_, out, modify. destruct (Z.ltb_spec irq 8); [|lia]. cbn [ret].
  destruct (pio_read (pic_data c) h) as [v h1] eqn:E. destruct (hw_imr_read _ _ _ _ Hp E) as (Hv & Hr & I1 & B1).
  assert (forall b, 0 <= b < 8 -> Z.testbit (Z.land v (Z.lxor 0xFF (Z.shiftl 1 irq))) b = if b =? irq then false else Z.testbit v b) as Hb.
  { intros b Hb. rewrite Z.land_spec, Z.lxor_spec, testbit_single by lia. change 0xFF with (Z.ones 8). rewrite Z.ones_spec_low by lia.
    destruct (b =? irq); [apply andb_false_r|apply andb_true_r]. }
  eexists. split; [done|]. intros l Hl. rewrite (mask_write_run _ v _ _ irq false); [|done|done| |congruence|done|done].
  - case_decide; [done|]. by rewrite (same_lines_eq h h1) by congruence.
  - apply bits8; [apply Z.land_nonneg; left; lia|]. intros b Hb8. rewrite Z.land_spec. by rewrite (testbit_above v 8) by lia.
Qed.

Definition chips_ok (c : Chips) : Prop := Forall apic_ok (ioapics c) /\ (forall o, o ∈ src_overrides c -> 0 <= over_gsi o).

Lemma ioapic_mask_run dbg irq m c : chips_ok c -> IRQ_METHOD c = UseApic ->
  exists h, ioapic_mask_irq dbg irq m c = Done (tt, with_hw c h) /\ set_line c irq m h.
Proof.
  intros [Ok _] Hm. unfold ioapic_mask_irq, set_line, line_of. unfold bind at 1. cbn [get_state].
  rewrite (bind_Done _ _ _ _ _ (find_ioapic_run dbg _ c Ok)), Hm.
  destruct (find (covers (resolve c irq)) (ioapics c)) as [a|] eqn:F.
  - apply find_covers in F as (_ & (Hp & H0 & H1 & H2) & Hg); [|done].
    destruct (set_mask_run dbg a (resolve c irq) m (hw c) Hp H0 ltac:(lia)) as (h & E & I & W). exists h.
    split; [by apply in_hw_run|]. intros [port bit|p i] Hl; cbn [line_masked fmap option_fmap option_map].
    + case_decide; [done|]. by rewrite I.
    + rewrite W by done. cbn [Z.eqb]. rewrite andb_true_r.
      destruct (Z.eqb_spec p (regs a)) as [->|], (Z.eqb_spec i (resolve c irq - gsi_start a)) as [->|]; case_decide; cbn [andb]; congruence.
  - exists (hw c). split; [by destruct c|]. intros l _. case_decide; [done|]. done.
Qed.

(** [trigger] masks the line of its interrupt, [acknowledge] unmasks it, and
    neither touches another. *)
Lemma mask_line_run dbg irq c : chips_ok c -> 0 <= irq -> exists h, mask_line dbg irq c = Done (tt, with_hw c h) /\ set_line c irq true h.
Proof.
  intros Ok Hi. unfold mask_line, bind at 1. cbn [get_state]. destruct (IRQ_METHOD c) eqn:Hm; [|by apply ioapic_mask_run].
  unfold set_line, line_of. rewrite Hm. destruct (Z.ltb_spec irq 16); [|exists (hw c); split; [by destruct c|done]].
  assert (exists h, pic_mask dbg irq (hw c) = Done (tt, h) /\ forall l, line_ok l ->
    line_masked h l = if decide ((if 8 <=? irq then PicLine 0xA1 (irq - 8) else PicLine 0x21 irq) = l) then true else line_masked (hw c) l) as (h & E & L).
  { unfold pic_mask, debug_assert, assert_. rewrite (proj2 (Z.ltb_lt irq 16)) by lia.
    destruct dbg; (destruct (Z.leb_spec 8 irq); [apply (mask_set_run slave); [set_solver|lia]|apply (mask_set_run master); [set_solver|lia]]). }
  exists h. split; [by apply in_hw_run|]. intros l Hl. rewrite L by done. repeat case_decide; congruence.
Qed.
Lemma acknowledge_run dbg irq c : chips_ok c -> 0 <= irq < 256 -> exists h, acknowledge dbg irq c = Done (tt, with_hw c h) /\ set_line c irq false h.
Proof.
  intros Ok Hi. unfold acknowledge, bind at 1. cbn [get_state].
  destruct (IRQ_METHOD c) eqn:Hm; [|rewrite Z.mod_small by lia; by apply ioapic_mask_run].
  unfold set_line, line_of. rewrite Hm. destruct (Z.ltb_spec irq 16); [|exists (hw c); split; [by destruct c|done]].
  assert (exists h, pic_unmask dbg irq (hw c) = Done (tt, h) /\ forall l, line_ok l ->
    line_masked h l = if decide ((if 8 <=? irq then PicLine 0xA1 (irq - 8) else PicLine 0x21 irq) = l) then false else line_masked (hw c) l) as (h & E & L).
  { unfold pic_unmask, debug_assert, assert_. rewrite (proj2 (Z.ltb_lt irq 16)) by lia.
    destruct dbg; (destruct (Z.leb_spec 8 irq); [apply (mask_clear_run slave); [set_solver|lia]|apply (mask_clear_run master); [set_solver|lia]]). }
  exists h. split; [by apply in_hw_run|]. intros l Hl. rewrite L by done. repeat case_decide; congruence.
Qed.
End lines.

(** ** A simple hardware: one I/O APIC with 24 entries, and two legacy controllers *)

Module SimpleIrqHw.
Definition P : Z := 0xFEC00000.
Record Board := mkBoard { sel : Z; redir : gmap Z Z; masks : gmap Z Z }.
Definition reg_value (s : Board) (r : Z) : Z :=
  if r =? 0 then 0x02000000 else if r =? 1 then 0x00170020 else default 0 (redir s !! r) mod 2 ^ 32.
Definition mask_of (s : Board) (port : Z) : Z := default 0 (masks s !! port) mod 2 ^ 8.
Definition write_v (a v : Z) (s : Board) : Board :=
  if a =? P then mkBoard v (redir s) (masks s)
  else if a =? P + 16 then mkBoard (sel s) (<[sel s := v]> (redir s)) (masks s) else s.

#[export] Instance simple_hw : IrqHw := {|
  Hw := Board;
  pio_read := fun port s => (mask_of s port, s);
  pio_write := fun port v s => if bool_decide (port ∈ [0x21; 0xA1]) then mkBoard (sel s) (redir s) (<[port := v]> (masks s)) else s;
  read_volatile := fun a s => (if a =? P + 16 then reg_value s (sel s) else 0, s);
  write_volatile := write_v;
  wrmsr := fun _ _ s => s;
|}.

Lemma write_sel v s : write_v P v s = mkBoard v (redir s) (masks s).
Proof. unfold write_v. by rewrite Z.eqb_refl. Qed.
Lemma write_win v s : write_v (P + 16) v s = mkBoard (sel s) (<[sel s := v]> (redir s)) (masks s).
Proof. done. Qed.
Lemma testbit_mod32 v r b : rw_bit r b = true -> Z.testbit (v mod 2 ^ 32) b = Z.testbit v b.
Proof. intros Hb%rw_range. by rewrite Z.mod_pow2_bits_low by lia. Qed.
Lemma reg_value_range s r : 0 <= reg_value s r < 2 ^ 32.
Proof. unfold reg_value. repeat case_match; try lia. apply Z.mod_pos_bound. lia. Qed.

#[export] Program Instance simple_laws : IrqHwLaws := {|
  ioapic_at := fun p => p =? P;
  io_sel := fun s q => if q =? P then sel s else 0;
  io_bit := fun s q r b => if q =? P then Z.testbit (reg_value s r) b else false;
  io_version := fun _ => 0x00170020;
  io_id := fun _ => 0x02000000;
  imr := mask_of;
|}.
Next Obligation. intros p v h [= ->%Z.eqb_eq]. cbn -[write_v]. rewrite write_sel. split_and!; [intros q; by case_match|done|done]. Qed.
Next Obligation.
  intros p v h [= ->%Z.eqb_eq]. cbn -[write_v reg_value]. rewrite write_win. split_and!; [done|done|]. intros q r b Hb Hr. unfold reg_value. cbn [redir sel].
  destruct (Z.eqb_spec q P) as [->|]; [|done]. cbn [andb]. rewrite !(proj2 (Z.eqb_neq r _)) by lia.
  destruct (Z.eqb_spec r (sel h)) as [->|]; [by rewrite lookup_insert_eq; eapply testbit_mod32|by rewrite lookup_insert_ne by done].
Qed.
Next Obligation.
  intros p h v h' [= ->%Z.eqb_eq] [= <- <-]. cbn. split_and!; try done; try apply reg_value_range; by intros ->.
Qed.
Next Obligation. intros port h v h' _ [= <- <-]. cbn. split_and!; try done; apply Z.mod_pos_bound; lia. Qed.
Next Obligation.
  intros port v h Hp Hv. cbn. rewrite bool_decide_true by done. split; [done|]. intros q. unfold mask_of. cbn [masks].
  destruct (Z.eqb_spec q port) as [->|]; [rewrite lookup_insert_eq; by apply Z.mod_small|by rewrite lookup_insert_ne by done].
Qed.
Next Obligation. intros port v h Hp _. cbn. rewrite bool_decide_false; [done|]. set_solver. Qed.
Next Obligation. done. Qed.
Next Obligation.
  intros a v h Ha. cbn. unfold write_v. destruct (Ha P eq_refl) as [H1 H2].
  by rewrite (proj2 (Z.eqb_neq _ _) H1), (proj2 (Z.eqb_neq _ _) H2).
Qed.
End SimpleIrqHw.

Module RoutingExamples.
Import SimpleIrqHw.
Definition hw0 : Board := mkBoard 0 ∅ ∅.
Definition chips0 : Chips := mkChips None None UsePic (mkCounters 0 0 (replicate 256 0) 0) hw0.
(** One I/O APIC; the timer is on line 2, and interrupt 9 is level-triggered, active
    low. *)
Definition madt_entries : list MadtEntry :=
  [LocalApic (mkLocalApic 0 0 1); IoApicEntry (mkMadtIoApic 2 P 0); IntSrcOverride (mkSrcOverride 0 0 2 0);
   IntSrcOverride (mkSrcOverride 0 9 9 0xF)].
Definition map_regs (a : Z) : option Z := Some a.

Lemma ioapic_init_routes_witness : exists c', ioapic_init true map_regs 0 (Some (1, madt_entries)) chips0 = Done (tt, c') /\
  delivers (hw c') P 9 41 0 true true /\ delivers (hw c') P 2 32 0 false false /\ imr (hw c') 0x21 = 0xFF.
Proof.
  destruct (ioapic_init_routes true map_regs 0 1 madt_entries chips0) as (c' & E & _ & R & _ & _ & I).
  - reflexivity.
  - reflexivity.
  - repeat constructor. exists P. split_and!; try reflexivity; by vm_compute.
  - vm_compute. constructor; [apply not_elem_of_nil|constructor].
  - intros o o'. vm_compute valid_overrides. rewrite !elem_of_cons, !elem_of_nil. intros [->|[->|[]]] [->|[->|[]]]; cbn; congruence.
  - exists c'. split_and!; [exact E|apply (R 9 P 9)|apply (R 0 P 2)|by apply I].
    + lia.
    + exists 9. vm_compute. split; reflexivity.
    + lia.
    + exists 2. vm_compute. split; reflexivity.
Defined.

(** The entry of interrupt 9: vector 41, level-triggered, active low, not masked. *)
Definition routed_chips : Chips := Eval vm_compute in match ioapic_init true map_regs 0 (Some (1, madt_entries)) chips0 with Done (_, c) => c | Panic => chips0 end.
Example entry9 : reg_value (hw routed_chips) (0x10 + 9 * 2) = 41 + 2 ^ 13 + 2 ^ 15.
Proof. vm_compute. reflexivity. Qed.
(** The timer is on line 2, so that interrupt 2 has no entry of its own. *)
Example entry2 : reg_value (hw routed_chips) (0x10 + 2 * 2) = 32 /\ legacy_source routed_chips 2 = None.
Proof. split; vm_compute; reflexivity. Qed.

(** The version register holds the number of the last entry, here 23, and the code
    takes it for the number of entries: line 23 is not found. *)
Theorem last_line_not_found : count <$> ioapics routed_chips = [23] /\ match find_ioapic true 23 routed_chips with Done (a, _) => a = None | Panic => False end.
Proof. split; vm_compute; reflexivity. Qed.
End RoutingExamples.
