(* ===== verification/IrqScheme.v ===== *)
(** * The irq scheme (src/scheme/irq.rs) and the interrupt handlers that feed it
    (src/arch/x86_shared/interrupt/irq.rs)

    Each interrupt has a count; a handle remembers the count its owner last
    acknowledged. Legacy interrupts are masked when they arrive and unmasked when
    a driver acknowledges them. This is the x86_64 build, without device trees.

    The flags of [open] that the other schemes do not use, [Stat] and [DirentBuf]
    belong to the syscall crate: the type class [IrqParams]. So does the order in
    which a hash map is iterated. *)

From S2P Require Import Timeouts ProcScheme.
From S2P Require Import Prelude PageInfo FrameAllocator Rmm OrdMap Grants UserCopy Sync Event Schemes Files UserScheme UserCalls RootScheme Acpi IrqChips.
From Stdlib Require Import Ascii String.
From stdpp Require Import pretty.
#[local] Open Scope Z_scope.

Definition BASE_IRQ_COUNT : Z := 16.
Definition TOTAL_IRQ_COUNT : Z := 224.
Definition INO_TOPLEVEL : Z := 0x8002000000000000.
Definition INO_AVAIL : Z := 0x8000000000000000.
Definition INO_BSP : Z := 0x8001000000000000.

Definition irq_to_vector (irq : Z) : Z := irq + 32.
Definition vector_to_irq (vector : Z) : Z := vector - 32.

(** [Handle], without the case of device trees. *)
Inductive IrqHandle :=
| HIrq (ack irq : Z)
| HAvail (cpu_id : Z)
| HTopLevel
| HBsp.
Definition as_irq_handle (h : IrqHandle) : option (Z * Z) := match h with HIrq ack irq => Some (ack, irq) | _ => None end.

Inductive DirentKind := CharDev | Directory.
Record DirEntry := mkDirEntry { de_inode : Z; de_next_opaque_id : Z; de_kind : DirentKind; de_name : string }.
(** The fields of [Stat] that are set; the others are zero. *)
Record IrqStat := mkIrqStat { st_mode : Z; st_size : Z; st_blocks : Z; st_blksize : Z; st_ino : Z; st_nlink : Z }.

Class IrqParams := {
  O_STAT : Z; O_DIRECTORY : Z; MODE_CHR : Z; MODE_DIR : Z;
  stat_bytes : IrqStat -> list Z;
  Dirent : Type;
  dirent_new : UserSlice -> Z -> option Dirent;
  dirent_entry : DirEntry -> Dirent -> M UserMem (result Error Dirent);
  dirent_finalize : Dirent -> Z;
  iter_handles : gmap Z IrqHandle -> list (Z * IrqHandle);
}.

Section irq.
Context {BC : BuildConfig} {EP : EventParams} {FF : FileFlags} {IP : IrqParams} {IH : IrqHw}.
Context (dbg : bool).

Record IrqState := mkIrq {
  COUNTS : list Z;
  HANDLES : gmap Z IrqHandle;
  NEXT_FD : Z;
  CPUS : option (list Z);
  i_chips : Chips;
  i_idts : Idts;
  i_es : EventState;
  i_umem : UserMem;
}.

Definition in_chips {A} (m : M Chips A) : M IrqState A :=
  zoom i_chips (fun c s => mkIrq (COUNTS s) (HANDLES s) (NEXT_FD s) (CPUS s) c (i_idts s) (i_es s) (i_umem s)) m.
Definition in_idts {A} (m : M Idts A) : M IrqState A :=
  zoom i_idts (fun c s => mkIrq (COUNTS s) (HANDLES s) (NEXT_FD s) (CPUS s) (i_chips s) c (i_es s) (i_umem s)) m.
Definition in_events {A} (m : M EventState A) : M IrqState A :=
  zoom i_es (fun c s => mkIrq (COUNTS s) (HANDLES s) (NEXT_FD s) (CPUS s) (i_chips s) (i_idts s) c (i_umem s)) m.
Definition in_umem {A} (m : M UserMem A) : M IrqState A :=
  zoom i_umem (fun c s => mkIrq (COUNTS s) (HANDLES s) (NEXT_FD s) (CPUS s) (i_chips s) (i_idts s) (i_es s) c) m.
Definition set_counts (l : list Z) : M IrqState unit :=
  modify (fun s => mkIrq l (HANDLES s) (NEXT_FD s) (CPUS s) (i_chips s) (i_idts s) (i_es s) (i_umem s)).
Definition set_irq_handles (f : gmap Z IrqHandle -> gmap Z IrqHandle) : M IrqState unit :=
  modify (fun s => mkIrq (COUNTS s) (f (HANDLES s)) (NEXT_FD s) (CPUS s) (i_chips s) (i_idts s) (i_es s) (i_umem s)).

(** ** Arrival *)

(** [COUNTS.lock()[irq]] *)
Definition irq_count (irq : Z) : M IrqState Z :=
  let! s := get_state in unwrap (COUNTS s !! Z.to_nat irq).
Definition usize_incr (x : Z) : M IrqState Z :=
  if x + 1 <? 2 ^ 64 then ret (x + 1) else if dbg then panic else ret 0.

Definition watches (irq : Z) (e : Z * IrqHandle) : bool :=
  match as_irq_handle e.2 with Some (_, handle_irq) => handle_irq =? irq | None => false end.
(** The two halves of [irq_trigger], between which no lock is held. *)
Definition irq_add (irq : Z) : M IrqState unit :=
  let! n := irq_count irq in
  let! n := usize_incr n in
  let! s := get_state in
  set_counts (<[Z.to_nat irq := n]> (COUNTS s)).
Definition irq_notify (irq : Z) : M IrqState unit :=
  let! s := get_state in
  forM (List.filter (watches irq) (iter_handles (HANDLES s))) (fun e => in_events (trigger (global_scheme_id GIrq) e.1 EV_READ)).
Definition irq_trigger (irq : Z) : M IrqState unit := irq_add irq ;;; irq_notify irq.

(** [trigger] of the interrupt handlers *)
Definition trigger_line (irq : Z) : M IrqState unit := in_chips (mask_line dbg irq) ;;; irq_trigger irq.

(** The handlers of the legacy interrupts that go to the irq scheme. *)
Definition plain_handler (x2 : bool) (lapic irq : Z) : M IrqState unit :=
  trigger_line irq ;;; in_chips (eoi dbg x2 lapic irq).
Definition lpt1 (x2 : bool) (lapic : Z) : M IrqState unit :=
  let! spurious := in_chips (not_in_service master) in
  if spurious then in_chips add_spurious7 else plain_handler x2 lapic 7.
Definition ata2 (x2 : bool) (lapic : Z) : M IrqState unit :=
  let! spurious := in_chips (not_in_service slave) in
  if spurious then in_chips (add_spurious15 ;;; in_hw (pic_ack master)) else plain_handler x2 lapic 15.
(** [generic_irq]; [code] is what the stub of a vector pushes. *)
Definition generic_irq (x2 : bool) (lapic code : Z) : M IrqState unit :=
  irq_trigger ((code + 128) mod 2 ^ 8) ;;; in_chips (in_hw (lapic_eoi x2 lapic)).

(** ** Opening *)

(** [IrqScheme::init]; the entries of the MADT, if there is one. *)
Definition irq_cpus (madt : option (list MadtEntry)) : list Z :=
  match madt with
  | Some entries => omap (fun e => match e with LocalApic apic => Some (la_processor apic) | _ => None end) entries
  | None => [0]
  end.
Definition irq_init (madt : option (list MadtEntry)) : M IrqState unit :=
  modify (fun s => mkIrq (COUNTS s) (HANDLES s) (NEXT_FD s) (Some (default (irq_cpus madt) (CPUS s))) (i_chips s) (i_idts s) (i_es s) (i_umem s)).

(** [u8::from_str] *)
Definition parse_u8 (s : string) : option Z :=
  match parse_usize s with Some n => if n <? 256 then Some n else None | None => None end.

Definition open_ext_irq (flags cpu_id : Z) (path : string) : M IrqState (result Error (IrqHandle * Z)) :=
  let? irq_number := ok_or (parse_u8 path) ENOENT in
  if (irq_number <? BASE_IRQ_COUNT) && (cpu_id =? 0) then ok (HIrq 0 irq_number, 0)
  else if irq_number <? TOTAL_IRQ_COUNT then
    if (Z.land flags O_CREAT =? 0) && (Z.land flags O_STAT =? 0) then err EINVAL
    else if Z.land flags O_STAT =? 0 then
      let! r := in_idts (is_reserved cpu_id (irq_to_vector irq_number)) in
      if (r : bool) then err EEXIST
      else
        in_idts (set_reserved cpu_id (irq_to_vector irq_number) true) ;;;
        ok (HIrq 0 irq_number, 0)
    else ok (HIrq 0 irq_number, 0)
  else err ENOENT.

(** [&s[..n]] and [&s[n..]]: a panic unless [n] is at most the length and not inside
    a character. *)
Definition continuation (c : ascii) : bool := (128 <=? Z.of_nat (nat_of_ascii c)) && (Z.of_nat (nat_of_ascii c) <? 192).
Fixpoint split_str (n : nat) (s : string) : option (string * string) :=
  match n, s with
  | O, EmptyString => Some (EmptyString, EmptyString)
  | O, String c _ => if continuation c then None else Some (EmptyString, s)
  | S n', String c s' => match split_str n' s' with Some (a, b) => Some (String c a, b) | None => None end
  | S _, EmptyString => None
  end.
Definition trim_end (s : string) : string := string_rev (trim_start (string_rev s)).

Definition irq_open_path (path : string) (flags : Z) : M IrqState (result Error (IrqHandle * Z)) :=
  let path_str := trim_start path in
  if String.eqb path_str "" then
    if (Z.land flags O_DIRECTORY =? 0) && (Z.land flags O_STAT =? 0) then err EISDIR
    else
      let! s := get_state in
      let! _ := unwrap (CPUS s) in
      ok (HTopLevel, POSITIONED)
  else if String.eqb path_str "bsp" then ok (HBsp, 0)
  else
    match ProcScheme.strip_prefix "cpu-" path_str with
    | Some path_str =>
        let! '(digits, rest) := unwrap (split_str 2 path_str) in
        let? cpu_id := ok_or (from_hex digits) ENOENT in
        let path_str := trim_end rest in
        match path_str with
        | EmptyString => ok (HAvail cpu_id, POSITIONED)
        | String c path_str =>
            if Ascii.eqb c slash then open_ext_irq flags cpu_id path_str else err ENOENT
        end
    | None =>
        match parse_u8 path_str with
        | Some plain_irq_number =>
            if plain_irq_number <? BASE_IRQ_COUNT then ok (HIrq 0 plain_irq_number, 0) else err ENOENT
        | None => err ENOENT
        end
    end.

Definition irq_kopen (path : string) (flags : Z) (ctx : CallerCtx) : M IrqState (result Error OpenResult) :=
  if negb (c_uid ctx =? 0) then err EACCES
  else
    let? '(handle, int_flags) := irq_open_path path flags in
    let! s := get_state in
    let fd := NEXT_FD s in
    modify (fun s => mkIrq (COUNTS s) (HANDLES s) (usize_add fd 1) (CPUS s) (i_chips s) (i_idts s) (i_es s) (i_umem s)) ;;;
    set_irq_handles <[fd := handle]> ;;;
    ok (SchemeLocal fd int_flags).

(** ** Use *)

Definition irq_handle (id : Z) : M IrqState (result Error IrqHandle) :=
  let! s := get_state in ok_or (HANDLES s !! id) EBADF.

Definition irq_close (id : Z) : M IrqState (result Error unit) :=
  let? handle := irq_handle id in
  match handle with
  | HIrq _ handle_irq =>
      if BASE_IRQ_COUNT <? handle_irq then in_idts (set_reserved 0 (irq_to_vector handle_irq) false) ;;; ok tt
      else ok tt
  | _ => ok tt
  end.

(** [kwrite] reads the number, compares it with the count, stores it and unmasks
    the line, with nothing but the table of handles locked throughout. *)
Definition kwrite_arg (file : Z) (buffer : UserSlice) : M IrqState (result Error (Z * Z)) :=
  let? handle := irq_handle file in
  match handle with
  | HIrq _ handle_irq =>
      if us_len buffer <? 8 then err EINVAL
      else let? ack := in_umem (read_usize buffer) in ok (handle_irq, ack)
  | _ => err EBADF
  end.
Definition kwrite_current (handle_irq ack : Z) : M IrqState bool :=
  let! current := irq_count handle_irq in ret (ack =? current).
Definition kwrite_store (file handle_irq ack : Z) : M IrqState unit := set_irq_handles <[file := HIrq ack handle_irq]>.

Definition irq_kwrite (file : Z) (buffer : UserSlice) : M IrqState (result Error Z) :=
  let? '(handle_irq, ack) := kwrite_arg file buffer in
  let! current := kwrite_current handle_irq ack in
  if negb current then ok 0
  else
    kwrite_store file handle_irq ack ;;;
    in_chips (acknowledge dbg handle_irq) ;;;
    ok 8.

(** [kreadoff] reads the count first and then what was acknowledged; handles of
    other kinds are answered at once. *)
Definition kread_count (file : Z) (buffer : UserSlice) : M IrqState (result Error (Z + Z)) :=
  let? handle := irq_handle file in
  match handle with
  | HIrq _ handle_irq =>
      if us_len buffer <? 8 then err EINVAL
      else let! current := irq_count handle_irq in ok (inl current)
  | HBsp =>
      if us_len buffer <? 8 then err EINVAL
      else let? _ := in_umem (write_u32 buffer 0) in ok (inr 8)
  | HAvail _ | HTopLevel => err EISDIR
  end.
Definition kread_report (file : Z) (buffer : UserSlice) (current : Z) : M IrqState (result Error Z) :=
  let? handle := irq_handle file in
  match as_irq_handle handle with
  | Some (handle_ack, _) =>
      if negb (handle_ack =? current) then
        let? _ := in_umem (write_usize buffer current) in ok 8
      else ok 0
  | None => err EISDIR
  end.
Definition irq_kreadoff (file : Z) (buffer : UserSlice) : M IrqState (result Error Z) :=
  let? current := kread_count file buffer in
  match current with
  | inl current => kread_report file buffer current
  | inr n => ok n
  end.

Definition irq_kfstat (id : Z) (buf : UserSlice) : M IrqState (result Error unit) :=
  let? handle := irq_handle id in
  in_umem (copy_exactly buf (stat_bytes
    match handle with
    | HIrq _ handle_irq => mkIrqStat (Z.lor MODE_CHR 384) 8 1 8 handle_irq 1
    | HBsp => mkIrqStat (Z.lor MODE_CHR 256) 8 1 8 INO_BSP 1
    | HAvail cpu_id => mkIrqStat (Z.lor MODE_DIR 448) 0 0 0 (Z.lor INO_AVAIL (Z.shiftl cpu_id 32)) 2
    | HTopLevel => mkIrqStat (Z.lor MODE_DIR 320) 0 0 0 INO_TOPLEVEL 1
    end)).

(** [{:x}] of a number below 256: its digits; with two places, filled with
    [pad]. *)
Definition hex_char (n : Z) : ascii := ascii_of_nat (Z.to_nat (if n <? 10 then 48 + n else 87 + n)).
Definition hex2 (pad : ascii) (n : Z) : string :=
  String (if n <? 16 then pad else hex_char (n / 16)) (String (hex_char (n mod 16)) EmptyString).
Definition string_bytes (s : string) : list Z := map (fun c => Z.of_nat (nat_of_ascii c)) (list_ascii_of_string s).
Definition irq_kfpath (id : Z) (buf : UserSlice) : M IrqState (result Error Z) :=
  let? handle := irq_handle id in
  in_umem (copy_common_bytes_from_slice buf (string_bytes
    match handle with
    | HIrq _ irq => "irq:" ++ pretty irq
    | HBsp => "irq:bsp"
    | HAvail cpu_id => "irq:cpu-" ++ hex2 " "%char cpu_id
    | HTopLevel => "irq:"
    end)%string).

(** ** Directories *)

(** The entries in the order in which they are given to the buffer; [*cpu_id + 1]
    is computed on [u8]. *)
Definition u8_succ (x : Z) : M IrqState Z := if x <? 255 then ret (x + 1) else if dbg then panic else ret 0.

Fixpoint put_entries {A} (entry : A -> M IrqState DirEntry) (l : list A) (buf : Dirent) : M IrqState (result Error Dirent) :=
  match l with
  | [] => ok buf
  | x :: l' =>
      let! e := entry x in
      let? buf := in_umem (dirent_entry e buf) in
      put_entries entry l' buf
  end.
Definition cpu_entry (cpu_id : Z) : M IrqState DirEntry :=
  let! next := u8_succ cpu_id in
  ret (mkDirEntry 0 next Directory ("cpu-" ++ hex2 "0"%char cpu_id)).
Definition vector_entry (vector : Z) : M IrqState DirEntry :=
  ret (mkDirEntry 0 (vector + 1) CharDev (pretty (vector_to_irq vector))).
(** The vectors that are listed from [opaque] on. *)
Definition listed (cpu_id opaque : Z) (available : list Z) : list Z :=
  List.filter (fun vector => negb ((cpu_id =? 0) && (vector_to_irq vector <? BASE_IRQ_COUNT))) (drop (Z.to_nat opaque) available).

Definition irq_getdents (id : Z) (buf : UserSlice) (header_size opaque : Z) : M IrqState (result Error Z) :=
  let? buf := ok_or (dirent_new buf header_size) EIO in
  let? handle := irq_handle id in
  match handle with
  | HTopLevel =>
      let! s := get_state in
      let! cpus := unwrap (CPUS s) in
      let? buf := if opaque =? 0 then in_umem (dirent_entry (mkDirEntry 0 1 CharDev "bsp") buf) else ok buf in
      let? buf := put_entries cpu_entry (List.filter (fun i => opaque <=? i) cpus) buf in
      ok (dirent_finalize buf)
  | HAvail cpu_id =>
      let! available := in_idts (available_irqs_iter cpu_id) in
      let? buf := put_entries vector_entry (listed cpu_id opaque available) buf in
      ok (dirent_finalize buf)
  | _ => err ENOTDIR
  end.

End irq.
