(* ===== verification/IrqSpec.v ===== *)
(** * Properties of interrupts

    Which vectors can be reserved, and that no interrupt is lost between the
    controllers and the drivers that read the irq scheme. *)

From S2P Require Import Timeouts ProcScheme.
From S2P Require Import Prelude PageInfo FrameAllocator Rmm OrdMap Grants UserCopy Sync Event EventSpec Schemes Files UserScheme UserCalls RootScheme Acpi IrqChips IrqChipsSpec IrqScheme.
#[local] Open Scope Z_scope.

(** ** Reservations *)

Lemma idt_testbit idt j : 0 <= j < 256 ->
  idt_is_reserved idt j = Z.testbit (default 0 (idt !! Z.to_nat (j / 32))) (j mod 32).
Proof.
  intros Hj. unfold idt_is_reserved. pose proof (Z.mod_pos_bound j 32 ltac:(lia)).
  rewrite Z.shiftl_1_l, land_pow2 by lia. destruct (Z.testbit _ _); [|done].
  apply negb_true_iff, Z.eqb_neq. pose proof (Z.pow_pos_nonneg 2 (j mod 32)). lia.
Qed.

(** [set_reserved] can only add a reservation: with [false] it changes nothing. *)
Lemma idt_set_reserved_spec idt i r j : length idt = 8%nat -> 0 <= i < 256 -> 0 <= j < 256 ->
  idt_is_reserved (idt_set_reserved i r idt) j = (r && (i =? j)) || idt_is_reserved idt j.
Proof.
  intros Hl Hi Hj. rewrite !idt_testbit by done. unfold idt_set_reserved.
  pose proof (Z.mod_pos_bound i 32 ltac:(lia)). pose proof (Z.mod_pos_bound j 32 ltac:(lia)).
  pose proof (Z.div_mod i 32). pose proof (Z.div_mod j 32).
  assert (0 <= i / 32 < 8) by (split; [apply Z.div_pos|apply Z.div_lt_upper_bound]; lia).
  assert (0 <= j / 32 < 8) by (split; [apply Z.div_pos|apply Z.div_lt_upper_bound]; lia).
  destruct (decide (i / 32 = j / 32)) as [E|E].
  - rewrite E, list_lookup_alter_eq. destruct (lookup_lt_is_Some_2 idt (Z.to_nat (j / 32))) as [w ->]; [lia|]. cbn -[Z.lor Z.shiftl Z.modulo Z.testbit].
    rewrite Z.lor_spec, (testbit_single (Z.b2z r)) by (try destruct r; cbn; lia).
    destruct (Z.eqb_spec (j mod 32) (i mod 32)), (Z.eqb_spec i j), r; cbn; rewrite ?orb_true_r, ?orb_false_r; try done; lia.
  - rewrite list_lookup_alter_ne by lia. destruct (Z.eqb_spec i j) as [->|]; [done|]. by rewrite andb_false_r.
Qed.
Lemma idt_set_reserved_length idt i r : length (idt_set_reserved i r idt) = length idt.
Proof. apply length_alter. Qed.

Definition idts_ok (s : Idts) : Prop := length (INIT_BSP_IDT s) = 8%nat /\ forall cpu idt, IDTS s !! cpu = Some idt -> length idt = 8%nat.
Definition idt_of (s : Idts) (cpu : Z) : option Idt := if cpu =? 0 then Some (INIT_BSP_IDT s) else IDTS s !! cpu.
Definition reserved (s : Idts) (cpu v : Z) : Prop := exists idt, idt_of s cpu = Some idt /\ idt_is_reserved idt v = true.

Lemma is_reserved_run s cpu v idt : idt_of s cpu = Some idt -> is_reserved cpu v s = Done (idt_is_reserved idt v, s).
Proof. unfold idt_of, is_reserved, bind, get_state. case_match; [by intros [= <-]|]. by intros ->. Qed.
Lemma set_reserved_run s cpu v r idt : idts_ok s -> 0 <= v < 256 -> idt_of s cpu = Some idt ->
  exists s', set_reserved cpu v r s = Done (tt, s') /\ idts_ok s' /\
    (forall cpu', is_Some (idt_of s' cpu') <-> is_Some (idt_of s cpu')) /\
    forall cpu' v', 0 <= v' < 256 -> reserved s' cpu' v' <-> reserved s cpu' v' \/ (r = true /\ cpu' = cpu /\ v' = v).
Proof.
  intros [L1 L2] Hv. unfold idt_of at 1, set_reserved, bind, get_state, reserved, idt_of. destruct (Z.eqb_spec cpu 0) as [->|Hc].
  - intros [= <-]. eexists. split; [reflexivity|]. cbn [INIT_BSP_IDT IDTS]. split_and!.
    + split; cbn [INIT_BSP_IDT IDTS]; [by rewrite idt_set_reserved_length|done].
    + intros cpu'. case_match; [by split; eauto|done].
    + intros cpu' v' Hv'. destruct (Z.eqb_spec cpu' 0) as [->|]; [|naive_solver].
      setoid_rewrite (inj_iff Some). split.
      * intros (? & <- & H). rewrite idt_set_reserved_spec in H by done. apply orb_true_iff in H as [[? ?%Z.eqb_eq]%andb_true_iff|]; eauto.
      * intros H. eexists. split; [done|]. rewrite idt_set_reserved_spec by done. destruct H as [(? & <- & ->)|(-> & _ & ->)]; [apply orb_true_r|].
        by rewrite Z.eqb_refl.
  - intros Hi. rewrite Hi. eexists. split; [reflexivity|]. cbn [INIT_BSP_IDT IDTS]. pose proof (L2 _ _ Hi) as Hl. split_and!.
    + split; cbn [INIT_BSP_IDT IDTS]; [done|]. intros c i [[<- <-]|[_ ?]]%lookup_insert_Some; [by rewrite idt_set_reserved_length|eauto].
    + intros cpu'. case_match; [done|]. destruct (decide (cpu' = cpu)) as [->|]; [rewrite lookup_insert_eq, Hi; by split; eauto|by rewrite lookup_insert_ne].
    + intros cpu' v' Hv'. destruct (Z.eqb_spec cpu' 0) as [->|]; [naive_solver|].
      destruct (decide (cpu' = cpu)) as [->|]; [|rewrite lookup_insert_ne by done; naive_solver]. rewrite lookup_insert_eq, Hi.
      setoid_rewrite (inj_iff Some). split.
      * intros (? & <- & H). rewrite idt_set_reserved_spec in H by done. apply orb_true_iff in H as [[? ?%Z.eqb_eq]%andb_true_iff|]; eauto.
      * intros H. eexists. split; [done|]. rewrite idt_set_reserved_spec by done. destruct H as [(? & <- & ->)|(-> & _ & ->)]; [apply orb_true_r|].
        by rewrite Z.eqb_refl.
Qed.

(** ** Chips *)

Section chips.
Context {IH : IrqHw} {HL : IrqHwLaws}.

Definition same_tables (c c' : Chips) : Prop := IOAPICS c' = IOAPICS c /\ SRC_OVERRIDES c' = SRC_OVERRIDES c /\ IRQ_METHOD c' = IRQ_METHOD c.
Lemma line_of_tables c c' irq : same_tables c c' -> line_of c' irq = line_of c irq.
Proof. intros (H1 & H2 & H3). unfold line_of, resolve, get_override, src_overrides, ioapics. by rewrite H1, H2, H3. Qed.
Lemma chips_ok_tables c c' : same_tables c c' -> chips_ok c -> chips_ok c'.
Proof. intros (H1 & H2 & _). unfold chips_ok, src_overrides, ioapics. by rewrite H1, H2. Qed.

(** The register of the local APIC is not one of an I/O APIC. *)
Definition lapic_ok (lapic : Z) : Prop := forall p, ioapic_at p = true -> lapic + 0xB0 <> p /\ lapic + 0xB0 <> p + 16.

Lemma lapic_eoi_run x2 lapic h : lapic_ok lapic -> exists h', lapic_eoi x2 lapic h = Done (tt, h') /\ same_lines h h'.
Proof.
  intros Ok. unfold lapic_eoi, modify. eexists. split; [reflexivity|]. destruct x2.
  - destruct (hw_msr IA32_X2APIC_EOI 0 h). by apply same_lines_eq.
  - destruct (hw_lapic (lapic + 0xB0) 0 h Ok). by apply same_lines_eq.
Qed.
Lemma pic_ack_run c h : pic_cmd c ∈ [0x20; 0xA0] -> exists h', pic_ack c h = Done (tt, h') /\ same_lines h h'.
Proof.
  intros Hc. unfold pic_ack, out, modify. eexists. split; [reflexivity|]. destruct (hw_cmd (pic_cmd c) 0x20 h Hc); [set_solver|]. by apply same_lines_eq.
Qed.
(** The end of an interrupt leaves the masks as they are. *)
Lemma eoi_run dbg x2 lapic irq c : lapic_ok lapic -> exists c', eoi dbg x2 lapic irq c = Done (tt, c') /\ same_tables c c' /\ same_lines (hw c) (hw c').
Proof.
  intros Ok. unfold eoi, bind at 1, add_irq, set_counters, modify. set (c1 := mkChips _ _ _ _ _). unfold bind at 1. cbn [get_state].
  assert (forall m h', m (hw c) = Done (tt, h') -> same_lines (hw c) h' ->
    exists c', in_hw m c1 = Done (tt, c') /\ same_tables c c' /\ same_lines (hw c) (hw c')) as Hin.
  { intros m h' E S. exists (with_hw c1 h'). split; [by apply in_hw_run|]. by split. }
  assert (exists c', ret tt c1 = Done (tt, c') /\ same_tables c c' /\ same_lines (hw c) (hw c')) as Hret by (exists c1; by split_and!).
  destruct (IRQ_METHOD c1).
  - destruct (Z.ltb_spec irq 16); [|exact Hret].
    destruct (pic_ack_run master (hw c)) as (h1 & E1 & S1); [set_solver|]. destruct (pic_ack_run slave h1) as (h2 & E2 & S2); [set_solver|].
    destruct (Z.leb_spec 8 irq).
    + apply (Hin _ h2); [|by eapply same_lines_trans]. unfold pic_eoi, debug_assert, assert_. rewrite (proj2 (Z.ltb_lt irq 16)) by lia.
      destruct dbg; unfold bind; cbn [ret]; rewrite (proj2 (Z.leb_le 8 irq)) by lia; by rewrite E1.
    + apply (Hin _ h1); [|done]. unfold pic_eoi, debug_assert, assert_. rewrite (proj2 (Z.ltb_lt irq 16)) by lia.
      destruct dbg; unfold bind; cbn [ret]; by rewrite (proj2 (Z.leb_gt 8 irq)) by lia.
  - destruct (lapic_eoi_run x2 lapic (hw c) Ok) as (h' & E & S). by apply (Hin _ h').
Qed.
End chips.

(** ** The machine *)

Section machine.
Context {BC : BuildConfig} {EP : EventParams} {EL : EventLaws} {FF : FileFlags} {IP : IrqParams} {IH : IrqHw} {HL : IrqHwLaws}.
Context (dbg x2 : bool) (lapic : Z).

(** What happened: how often each interrupt arrived, the number that was stored
    last for each handle, which lines are masked, and the interrupt that masked a
    line, if it was one and the line has not been unmasked since. *)
Record Ledger := mkLedger { arrived : Z -> Z; acked : gmap Z Z; lines : Line -> bool; masker : Line -> option Z }.

Definition arrive (irq : Z) (L : Ledger) : Ledger :=
  mkLedger (fun i => if i =? irq then arrived L i + 1 else arrived L i) (acked L) (lines L) (masker L).
Definition mask_in (l : option Line) (by_irq : option Z) (L : Ledger) : Ledger :=
  mkLedger (arrived L) (acked L) (fun l' => if decide (l = Some l') then bool_decide (is_Some by_irq) else lines L l')
    (fun l' => if decide (l = Some l') then by_irq else masker L l').
Definition ack (fd n : Z) (L : Ledger) : Ledger := mkLedger (arrived L) (<[fd := n]> (acked L)) (lines L) (masker L).

(** The operations in progress, each at the step it makes next: a handler of a
    legacy interrupt or of another vector, an acknowledgement, a reading. *)
Inductive Op :=
| H_mask (irq : Z)
| H_count (irq : Z) (legacy : bool)
| H_notify (irq : Z) (legacy : bool)
| H_eoi (irq : Z) (legacy : bool)
| W_arg (fd : Z) (buf : UserSlice)
| W_match (fd irq v : Z)
| W_store (fd irq v : Z)
| W_unmask (irq : Z)
| R_count (fd : Z) (buf : UserSlice)
| R_report (fd : Z) (buf : UserSlice) (n : Z).

(** One step, and the step after it. *)
Definition run_op (o : Op) : M IrqState (option Op) :=
  match o with
  | H_mask irq => in_chips (mask_line dbg irq) ;;; ret (Some (H_count irq true))
  | H_count irq legacy => irq_add dbg irq ;;; ret (Some (H_notify irq legacy))
  | H_notify irq legacy => irq_notify irq ;;; ret (Some (H_eoi irq legacy))
  | H_eoi irq legacy => in_chips (if legacy then eoi dbg x2 lapic irq else in_hw (lapic_eoi x2 lapic)) ;;; ret None
  | W_arg fd buf => let! r := kwrite_arg fd buf in ret (match r with Ok (irq, v) => Some (W_match fd irq v) | Err _ => None end)
  | W_match fd irq v => let! current := kwrite_current irq v in ret (if (current : bool) then Some (W_store fd irq v) else None)
  | W_store fd irq v => kwrite_store fd irq v ;;; ret (Some (W_unmask irq))
  | W_unmask irq => in_chips (acknowledge dbg irq) ;;; ret None
  | R_count fd buf => let! r := kread_count fd buf in ret (match r with Ok (inl n) => Some (R_report fd buf n) | _ => None end)
  | R_report fd buf n => let! _ := kread_report fd buf n in ret None
  end.

Definition first_step (o : Op) : Prop :=
  match o with
  | H_mask irq => 0 <= irq < 16
  | H_count irq legacy => legacy = false /\ 0 <= irq < 224
  | W_arg _ _ | R_count _ _ => True
  | _ => False
  end.
Definition note (o : Op) (s : IrqState) (L : Ledger) : Ledger :=
  match o with
  | H_mask irq => mask_in (line_of (i_chips s) irq) (Some irq) L
  | H_count irq _ => arrive irq L
  | W_store fd _ v => ack fd v L
  | W_unmask irq => mask_in (line_of (i_chips s) irq) None L
  | _ => L
  end.
(** Counts are far from wrapping around. *)
Definition in_range (o : Op) (L : Ledger) : Prop := match o with H_count irq _ => arrived L irq + 1 < 2 ^ 64 | _ => True end.

(** The operations that hold the table of handles locked for reading. *)
Definition holds_handles (o : Op) : bool :=
  match o with W_match _ _ _ | W_store _ _ _ | W_unmask _ | R_report _ _ _ => true | _ => false end.
Abbreviation Ops := (gmap Z Op).

(** The steps of the system: operations begin and go on, on any number of CPUs; a
    handle is opened when no one has the table locked; one is closed. *)
Inductive irq_step : Ledger -> Ops -> IrqState -> Ledger -> Ops -> IrqState -> Prop :=
| step_start L ops s t o : ops !! t = None -> first_step o -> irq_step L ops s L (<[t := o]> ops) s
| step_op L ops s t o o' s' : ops !! t = Some o -> in_range o L -> run_op o s = Done (o', s') ->
    irq_step L ops s (note o s L) (partial_alter (fun _ => o') t ops) s'
| step_open L ops s path flags ctx r s' : (forall t o, ops !! t = Some o -> holds_handles o = false) -> irq_kopen path flags ctx s = Done (r, s') ->
    irq_step L ops s (match r with Ok (SchemeLocal fd _) => ack fd 0 L | _ => L end) ops s'
| step_close L ops s fd r s' : irq_close fd s = Done (r, s') -> irq_step L ops s L ops s'.

(** Before the first interrupt and the first driver. *)
Definition irq_start (s : IrqState) : Prop :=
  COUNTS s = replicate 224 0 /\ HANDLES s = ∅ /\ chips_ok (i_chips s) /\ queues_ok (i_es s) /\ idts_ok (i_idts s).
Definition ledger0 (s : IrqState) : Ledger := mkLedger (fun _ => 0) ∅ (line_masked (hw (i_chips s))) (fun _ => None).
Inductive irq_run : Ledger -> Ops -> IrqState -> Prop :=
| run_start s : irq_start s -> irq_run (ledger0 s) ∅ s
| run_step L ops s L' ops' s' : irq_run L ops s -> irq_step L ops s L' ops' s' -> irq_run L' ops' s'.

(** *** The invariant *)

Definition op_ok (L : Ledger) (s : IrqState) (o : Op) : Prop :=
  match o with
  | H_mask irq => 0 <= irq < 16
  | H_count irq _ | H_notify irq _ | H_eoi irq _ | W_unmask irq => 0 <= irq < 224
  | W_match fd irq _ => exists a, HANDLES s !! fd = Some (HIrq a irq)
  | W_store fd irq v => (exists a, HANDLES s !! fd = Some (HIrq a irq)) /\ 0 <= v <= arrived L irq
  | R_report fd _ n => exists a irq, HANDLES s !! fd = Some (HIrq a irq) /\ n <= arrived L irq
  | W_arg _ _ | R_count _ _ => True
  end.

(** A line that an interrupt masked: the interrupt is yet to be counted, or someone
    is about to unmask the line, or no handle has acknowledged the last one. *)
Definition pending (L : Ledger) (ops : Ops) (s : IrqState) (irq : Z) : Prop :=
  (exists t, ops !! t = Some (H_count irq true)) \/
  (exists t, ops !! t = Some (W_unmask irq)) \/
  (1 <= arrived L irq /\ forall fd a, HANDLES s !! fd = Some (HIrq a irq) -> a <> arrived L irq).

Record irq_inv (L : Ledger) (ops : Ops) (s : IrqState) : Prop := mkInv {
  inv_counts : forall irq, 0 <= irq < 224 -> COUNTS s !! Z.to_nat irq = Some (arrived L irq) /\ 0 <= arrived L irq < 2 ^ 64;
  inv_handles : forall fd a irq, HANDLES s !! fd = Some (HIrq a irq) -> 0 <= irq < 224 /\ acked L !! fd = Some a /\ 0 <= a <= arrived L irq;
  inv_chips : chips_ok (i_chips s);
  inv_lines : forall l, line_ok l -> line_masked (hw (i_chips s)) l = lines L l;
  inv_queues : queues_ok (i_es s);
  inv_idts : idts_ok (i_idts s);
  inv_ops : forall t o, ops !! t = Some o -> op_ok L s o;
  inv_masker : forall l irq, masker L l = Some irq -> lines L l = true /\ line_of (i_chips s) irq = Some l /\ 0 <= irq < 224 /\ pending L ops s irq;
}.

(** The state, but for the parts given. *)
Record same_but_events (s s' : IrqState) : Prop := mkSame {
  sb_counts : COUNTS s' = COUNTS s; sb_handles : HANDLES s' = HANDLES s; sb_tables : same_tables (i_chips s) (i_chips s');
  sb_lines : same_lines (hw (i_chips s)) (hw (i_chips s')); sb_queues : queues_ok (i_es s) -> queues_ok (i_es s');
  sb_idts : idts_ok (i_idts s) -> idts_ok (i_idts s');
}.
Lemma same_tables_refl c : same_tables c c.
Proof. done. Qed.
#[local] Hint Resolve same_tables_refl : core.

(** A step that no other operation sees, and after which an operation goes on at
    [o'] or ends. *)
Lemma pending_ops L ops ops' s s' irq : HANDLES s' = HANDLES s -> (forall t, ops !! t = Some (H_count irq true) -> ops' !! t = Some (H_count irq true)) ->
  (forall t, ops !! t = Some (W_unmask irq) -> ops' !! t = Some (W_unmask irq)) -> pending L ops s irq -> pending L ops' s' irq.
Proof. intros H1 H2 H3 [[t Ht]|[[t Ht]|H]]; [left; eauto|right; left; eauto|right; right]. by rewrite H1. Qed.

Lemma op_ok_same L s s' o : HANDLES s' = HANDLES s -> op_ok L s o -> op_ok L s' o.
Proof. intros E. destruct o; cbn; by rewrite ?E. Qed.

Definition settled (o : Op) : bool := match o with H_count _ true | W_unmask _ => false | _ => true end.
Lemma inv_goes_on L ops s s' t o o' : irq_inv L ops s -> same_but_events s s' -> ops !! t = Some o -> settled o = true ->
  (forall x, o' = Some x -> op_ok L s' x) -> irq_inv L (partial_alter (fun _ => o') t ops) s'.
Proof.
  intros [C H K Ln Q I O Mk] [E1 E2 E3 E4 E5 E6] Ht Hset Hok. constructor; rewrite ?E1, ?E2; try done; [by eapply chips_ok_tables| |auto|auto| |].
  - intros l Hl. rewrite E4 by done. by apply Ln.
  - intros t' x Hx. destruct (decide (t' = t)) as [->|]; [rewrite lookup_partial_alter_eq in Hx; by apply Hok|].
    rewrite lookup_partial_alter_ne in Hx by done. eapply op_ok_same; [exact E2|by eapply O].
  - intros l irq Hm. destruct (Mk _ _ Hm) as (M1 & M2 & M3 & M4). split_and!; [done|by rewrite (line_of_tables _ _ _ E3)|lia|lia|].
    eapply pending_ops; [exact E2| | |exact M4]; intros t' Ht'; (rewrite lookup_partial_alter_ne; [done|]); intros <-; rewrite Ht in Ht'; by injection Ht' as ->.
Qed.
(** The same, with the ledger unchanged and no operation moving. *)
Lemma irq_inv_same L ops s s' : irq_inv L ops s -> same_but_events s s' -> irq_inv L ops s'.
Proof.
  intros [C H K Ln Q I O Mk] [E1 E2 E3 E4 E5 E6]. constructor; rewrite ?E1, ?E2; try done; [by eapply chips_ok_tables| |auto|auto| |].
  - intros l Hl. rewrite E4 by done. by apply Ln.
  - intros t x Hx. eapply op_ok_same; [exact E2|by eapply O].
  - intros l irq Hm. destruct (Mk _ _ Hm) as (M1 & M2 & M3 & M4). split_and!; [done|by rewrite (line_of_tables _ _ _ E3)|lia|lia|].
    by eapply pending_ops; [exact E2| | |exact M4].
Qed.

(** *** Handlers *)

Definition with_chips (s : IrqState) (c : Chips) : IrqState :=
  mkIrq (COUNTS s) (HANDLES s) (NEXT_FD s) (CPUS s) c (i_idts s) (i_es s) (i_umem s).
Lemma in_chips_run {A} (m : M Chips A) s a c : m (i_chips s) = Done (a, c) -> in_chips m s = Done (a, with_chips s c).
Proof. intros H. unfold in_chips, zoom. by rewrite H. Qed.
Definition with_counts (s : IrqState) (l : list Z) : IrqState :=
  mkIrq l (HANDLES s) (NEXT_FD s) (CPUS s) (i_chips s) (i_idts s) (i_es s) (i_umem s).
Definition with_es (s : IrqState) (e : EventState) : IrqState :=
  mkIrq (COUNTS s) (HANDLES s) (NEXT_FD s) (CPUS s) (i_chips s) (i_idts s) e (i_umem s).

Lemma irq_add_run irq n s : 0 <= irq -> COUNTS s !! Z.to_nat irq = Some n -> n + 1 < 2 ^ 64 ->
  irq_add dbg irq s = Done (tt, with_counts s (<[Z.to_nat irq := n + 1]> (COUNTS s))).
Proof.
  intros Hi Hn Hb. unfold irq_add, irq_count. unfold bind at 1 2. cbn [get_state]. rewrite Hn. cbn [unwrap ret].
  unfold usize_incr, bind at 1. rewrite (proj2 (Z.ltb_lt (n + 1) _)) by done. done.
Qed.
Lemma irq_notify_run irq s : queues_ok (i_es s) -> exists e, irq_notify irq s = Done (tt, with_es s e) /\ queues_ok e.
Proof.
  unfold irq_notify. rewrite (bind_Done get_state _ s s s) by done. generalize (List.filter (watches irq) (iter_handles (HANDLES s))) as l.
  intros l. revert s. induction l as [|x l IHl]; intros s Q; [exists (i_es s); by destruct s|].
  destruct (trigger_run (global_scheme_id GIrq) x.1 EV_READ (i_es s) Q) as (? & es1 & E1 & _ & _ & D).
  pose proof (queues_ok_delivered _ _ _ Q D) as Q1. cbn [forM]. unfold bind, in_events, zoom. rewrite E1.
  destruct (IHl (with_es s es1) Q1) as (es & E & Q'). exists es. split; [exact E|done].
Qed.

Lemma chips_line L ops s c irq b t o o' : irq_inv L ops s -> same_tables (i_chips s) c -> ops !! t = Some o -> (0 <= irq < 224) ->
  (forall l, line_ok l -> line_masked (hw c) l = if decide (line_of (i_chips s) irq = Some l) then bool_decide (is_Some b) else line_masked (hw (i_chips s)) l) ->
  (forall x, b = Some x -> x = irq /\ o' = Some (H_count irq true)) ->
  (b = None -> o = W_unmask irq) -> settled o = true \/ o = W_unmask irq ->
  (forall x, o' = Some x -> op_ok L s x) ->
  irq_inv (mask_in (line_of (i_chips s) irq) b L) (partial_alter (fun _ => o') t ops) (with_chips s c).
Proof.
  intros [C H K Ln Q I O Mk] T Ht Hi S Hb Hnb Hset Hok. constructor; cbn [with_chips i_chips]; try done; [by eapply chips_ok_tables| | |].
  - intros l Hl. cbn [lines mask_in]. rewrite S by done. case_decide; [done|by apply Ln].
  - intros t' x Hx. enough (op_ok L s x) by (by destruct x). destruct (decide (t' = t)) as [->|]; [rewrite lookup_partial_alter_eq in Hx; by apply Hok|].
    rewrite lookup_partial_alter_ne in Hx by done. by eapply O.
  - intros l irq' Hm. cbn [lines masker mask_in] in *. rewrite (line_of_tables _ _ _ T). case_decide as Hl.
    + destruct (Hb _ Hm) as [-> ->]. subst b. split_and!; [done|done|lia|lia|]. left. exists t. by rewrite lookup_partial_alter_eq.
    + destruct (Mk _ _ Hm) as (M1 & M2 & M3 & M4). split_and!; [done|done|lia|lia|]. assert (Hne : irq' <> irq) by congruence.
      eapply (pending_ops _ _ _ s); [done| | |exact M4]; intros t' Ht'; (rewrite lookup_partial_alter_ne; [done|]); intros <-; rewrite Ht in Ht'; injection Ht' as ->;
        destruct Hset as [?|[= ->]]; done.
Qed.

Lemma mask_inv L ops s t irq : irq_inv L ops s -> ops !! t = Some (H_mask irq) -> 0 <= irq < 16 ->
  exists s', run_op (H_mask irq) s = Done (Some (H_count irq true), s') /\
    irq_inv (mask_in (line_of (i_chips s) irq) (Some irq) L) (<[t := H_count irq true]> ops) s'.
Proof.
  intros Inv Ht Hi. destruct (mask_line_run dbg irq (i_chips s)) as (h & E1 & S1); [apply Inv|lia|].
  eexists. split; [cbn [run_op]; by rewrite (bind_Done _ _ _ _ _ (in_chips_run _ _ _ _ E1))|].
  apply (chips_line L ops s _ irq (Some irq) t (H_mask irq) (Some (H_count irq true))); try done; [lia|by intros x [= <-]|by left|]. intros x [= <-]. cbn. lia.
Qed.
Lemma unmask_inv L ops s t irq : irq_inv L ops s -> ops !! t = Some (W_unmask irq) -> 0 <= irq < 224 ->
  exists s', run_op (W_unmask irq) s = Done (None, s') /\ irq_inv (mask_in (line_of (i_chips s) irq) None L) (delete t ops) s'.
Proof.
  intros Inv Ht Hi. destruct (acknowledge_run dbg irq (i_chips s)) as (h & E1 & S1); [apply Inv|lia|].
  eexists. split; [cbn [run_op]; by rewrite (bind_Done _ _ _ _ _ (in_chips_run _ _ _ _ E1))|].
  apply (chips_line L ops s _ irq None t (W_unmask irq) None); try done. by right.
Qed.

Lemma op_ok_arrive L s o irq : op_ok L s o -> op_ok (arrive irq L) s o.
Proof.
  destruct o; cbn; try done.
  - intros [? ?]. split; [done|]. case_match; lia.
  - intros (a & i & ? & ?). exists a, i. split; [done|]. case_match; lia.
Qed.
Lemma count_inv L ops s t irq legacy : irq_inv L ops s -> ops !! t = Some (H_count irq legacy) -> 0 <= irq < 224 -> arrived L irq + 1 < 2 ^ 64 ->
  exists s', run_op (H_count irq legacy) s = Done (Some (H_notify irq legacy), s') /\ irq_inv (arrive irq L) (<[t := H_notify irq legacy]> ops) s'.
Proof.
  intros Inv Ht Hi Hb. pose proof Inv as [C H K Ln Q I O Mk]. destruct (C irq Hi) as [Hc Hr].
  eexists. split; [cbn [run_op]; by rewrite (bind_Done _ _ _ _ _ (irq_add_run irq _ s ltac:(lia) Hc Hb))|].
  assert (Hle : forall i, arrived L i <= arrived (arrive irq L) i) by (intros i; cbn; case_match; lia).
  constructor; try done.
  - intros i Hi'. cbn. destruct (C i Hi') as [Ci Cb]. destruct (Z.eqb_spec i irq) as [->|].
    + rewrite list_lookup_insert_eq by (by eapply lookup_lt_Some). split; [done|lia].
    + rewrite list_lookup_insert_ne by lia. done.
  - intros fd a i Hh. destruct (H _ _ _ Hh) as (? & ? & ?). specialize (Hle i). split_and!; done || lia.
  - intros t' x [[<- <-]|[_ Hx]]%lookup_insert_Some; [cbn; lia|]. apply op_ok_arrive. by eapply O in Hx; destruct x.
  - intros l i Hm. destruct (Mk _ _ Hm) as (M1 & M2 & M3 & M4). split_and!; [done|done|lia|lia|].
    destruct (decide (i = irq)) as [->|Hne].
    + right. right. cbn. rewrite Z.eqb_refl. split; [lia|]. intros fd a Hh. destruct (H _ _ _ Hh) as (_ & _ & ?). lia.
    + destruct M4 as [[t' Ht']|[[t' Ht']|M4]].
      * left. exists t'. rewrite lookup_insert_ne; [done|]. intros <-. rewrite Ht in Ht'. congruence.
      * right. left. exists t'. rewrite lookup_insert_ne; [done|]. intros <-. rewrite Ht in Ht'. congruence.
      * right. right. cbn. by rewrite (proj2 (Z.eqb_neq i irq) Hne).
Qed.

Lemma notify_inv L ops s t irq legacy : irq_inv L ops s -> ops !! t = Some (H_notify irq legacy) -> 0 <= irq < 224 ->
  exists s', run_op (H_notify irq legacy) s = Done (Some (H_eoi irq legacy), s') /\ irq_inv L (<[t := H_eoi irq legacy]> ops) s'.
Proof.
  intros Inv Ht Hi. destruct (irq_notify_run irq s (inv_queues _ _ _ Inv)) as (e & E & Q).
  eexists. split; [cbn [run_op]; by rewrite (bind_Done _ _ _ _ _ E)|].
  apply (inv_goes_on L ops s _ t (H_notify irq legacy) (Some (H_eoi irq legacy))); try done. intros x [= <-]. done.
Qed.
Lemma eoi_inv L ops s t irq legacy : irq_inv L ops s -> lapic_ok lapic -> ops !! t = Some (H_eoi irq legacy) ->
  exists s', run_op (H_eoi irq legacy) s = Done (None, s') /\ irq_inv L (delete t ops) s'.
Proof.
  intros Inv Lp Ht. assert (exists c, (if legacy then eoi dbg x2 lapic irq else in_hw (lapic_eoi x2 lapic)) (i_chips s) = Done (tt, c) /\
    same_tables (i_chips s) c /\ same_lines (hw (i_chips s)) (hw c)) as (c & E & T & S).
  { destruct legacy; [by apply eoi_run|]. destruct (lapic_eoi_run x2 lapic (hw (i_chips s)) Lp) as (h & E & S).
    exists (with_hw (i_chips s) h). split; [by apply in_hw_run|done]. }
  eexists. split; [cbn [run_op]; by rewrite (bind_Done _ _ _ _ _ (in_chips_run _ _ _ _ E))|].
  by apply (inv_goes_on L ops s _ t (H_eoi irq legacy) None).
Qed.

(** *** Drivers *)

(** Opening changes at most the reservations, and gives a handle whose interrupt
    exists and that has acknowledged nothing. *)
Definition fresh_handle (h : IrqHandle) : Prop := match h with HIrq a irq => a = 0 /\ 0 <= irq < 224 | _ => True end.
Definition only_idts (s s' : IrqState) : Prop :=
  exists i, s' = mkIrq (COUNTS s) (HANDLES s) (NEXT_FD s) (CPUS s) (i_chips s) i (i_es s) (i_umem s) /\ (idts_ok (i_idts s) -> idts_ok i).

Lemma only_idts_refl s : only_idts s s.
Proof. exists (i_idts s). by destruct s. Qed.

Lemma parse_u8_range p n : parse_u8 p = Some n -> 0 <= n < 256.
Proof.
  unfold parse_u8, parse_usize.
  assert (forall s acc n, 0 <= acc -> parse_digits acc s = Some n -> 0 <= n) as D.
  { intros s. induction s as [|c s IHs]; intros acc m Ha; cbn [parse_digits]; [by intros [= <-]|].
    destruct (digit c) as [d|] eqn:Hd; [|done]. case_match; [|done]. apply IHs. unfold digit in Hd. case_match; [|done]. injection Hd as <-. lia. }
  set (body := match p with String.EmptyString => _ | _ => _ end). intros H.
  destruct (match body with String.EmptyString => None | _ => parse_digits 0 body end) as [m|] eqn:E; [|done].
  destruct (Z.ltb_spec m 256); [|done]. injection H as <-. split; [|lia]. destruct body; [done|]. by eapply D; [|exact E].
Qed.

Lemma set_reserved_ok cpu v r i i' : 0 <= v < 256 -> set_reserved cpu v r i = Done (tt, i') -> idts_ok i -> idts_ok i'.
Proof.
  intros Hv E Ok. destruct (idt_of i cpu) as [idt|] eqn:Hi.
  - destruct (set_reserved_run i cpu v r idt Ok Hv Hi) as (i2 & E2 & Ok2 & _). rewrite E in E2. by injection E2 as <-.
  - revert E. revert Hi. unfold set_reserved, idt_of, bind, get_state. case_match; [done|]. by intros ->.
Qed.

Lemma open_ext_run flags cpu path s r s' : open_ext_irq flags cpu path s = Done (r, s') ->
  only_idts s s' /\ match r with Ok (h, _) => fresh_handle h | Err _ => True end.
Proof.
  unfold open_ext_irq. unfold bind_result, ok_or. unfold bind at 1. cbn [ret]. destruct (parse_u8 path) as [n|] eqn:P; [|intros [= <- <-]; split; [apply only_idts_refl|done]].
  apply parse_u8_range in P. unfold BASE_IRQ_COUNT, TOTAL_IRQ_COUNT.
  destruct ((n <? 16) && (cpu =? 0)) eqn:B; [intros [= <- <-]; split; [apply only_idts_refl|split; [done|lia]]|].
  destruct (Z.ltb_spec n 224); [|intros [= <- <-]; split; [apply only_idts_refl|done]].
  case_match; [intros [= <- <-]; split; [apply only_idts_refl|done]|].
  case_match; [|intros [= <- <-]; split; [apply only_idts_refl|split; [done|lia]]].
  intros E. apply bind_Done_inv in E as (b & s1 & E1 & E). unfold in_idts, zoom in E1.
  destruct (is_reserved cpu (irq_to_vector n) (i_idts s)) as [[b' i1]|] eqn:R; [|done]. injection E1 as <- <-.
  assert (i1 = i_idts s) as ->.
  { revert R. unfold is_reserved, bind, get_state. destruct (cpu =? 0); [by intros [= _ <-]|]. by destruct (IDTS (i_idts s) !! cpu); [intros [= _ <-]|]. }
  destruct b'; [injection E as <- <-; split; [by exists (i_idts s); destruct s|done]|].
  apply bind_Done_inv in E as ([] & s2 & E2 & [= <- <-]). unfold in_idts, zoom in E2. cbn [i_idts] in E2.
  destruct (set_reserved cpu (irq_to_vector n) true (i_idts s)) as [[[] i2]|] eqn:R2; [|done]. injection E2 as <-.
  split; [|split; [done|lia]]. exists i2. split; [done|]. eapply set_reserved_ok; [|exact R2]. unfold irq_to_vector. lia.
Qed.

Lemma open_path_run path flags s r s' : irq_open_path path flags s = Done (r, s') ->
  only_idts s s' /\ match r with Ok (h, _) => fresh_handle h | Err _ => True end.
Proof.
  pose proof (only_idts_refl s) as Refl. unfold irq_open_path.
  destruct (String.eqb _ _).
  { case_match; [by intros [= <- <-]|]. unfold bind, get_state. destruct (CPUS s); [by intros [= <- <-]|done]. }
  destruct (String.eqb _ _); [by intros [= <- <-]|].
  destruct (ProcScheme.strip_prefix _ _) as [p|].
  - intros E. apply bind_Done_inv in E as ([d rest] & s1 & E1 & E). destruct (split_str 2 p) as [x|]; [|done]. injection E1 as -> <-.
    unfold bind_result, ok_or in E. unfold bind at 1 in E. cbn [ret] in E. destruct (from_hex d) as [cpu|]; [|injection E as <- <-; done].
    destruct (trim_end rest) as [|c rest']; [injection E as <- <-; done|]. destruct (Ascii.eqb c slash); [by apply open_ext_run in E|injection E as <- <-; done].
  - destruct (parse_u8 _) as [n|] eqn:P; [|by intros [= <- <-]]. apply parse_u8_range in P. unfold BASE_IRQ_COUNT.
    destruct (Z.ltb_spec n 16); [|by intros [= <- <-]]. intros [= <- <-]. split; [done|]. split; [done|lia].
Qed.

Lemma only_idts_same s s' : only_idts s s' -> same_but_events s s'.
Proof. intros (i & -> & Hi). by split. Qed.

Lemma kopen_inv L ops s path flags ctx r s' : irq_inv L ops s -> (forall t o, ops !! t = Some o -> holds_handles o = false) ->
  irq_kopen path flags ctx s = Done (r, s') -> irq_inv (match r with Ok (SchemeLocal fd _) => ack fd 0 L | _ => L end) ops s'.
Proof.
  intros Inv Hlock. unfold irq_kopen. case_match; [by intros [= <- <-]|]. intros E. apply bind_Done_inv in E as (r1 & s1 & E1 & E).
  apply open_path_run in E1 as [Oi F]. pose proof (irq_inv_same _ _ _ _ Inv (only_idts_same _ _ Oi)) as [C Hh K Ln Q I O Mk].
  destruct r1 as [[h fl]|e]; [|by injection E as <- <-]. unfold bind, get_state, modify, set_irq_handles in E. injection E as <- <-.
  constructor; try done; cbn [HANDLES acked ack].
  - intros fd a irq [[<- ->]|[Hne Hf]]%lookup_insert_Some.
    + rewrite lookup_insert_eq. cbn in F. destruct F as [-> ?]. destruct (C irq ltac:(lia)) as [_ ?]. cbn [arrived ack]. split_and!; done || lia.
    + rewrite lookup_insert_ne by done. by apply Hh.
  - intros t o Ht. specialize (O _ _ Ht). specialize (Hlock _ _ Ht). by destruct o.
  - intros l irq Hm. destruct (Mk _ _ Hm) as (M1 & M2 & M3 & M4). split_and!; [done|done|lia|lia|].
    destruct M4 as [?|[[t Ht]|[M4 M5]]]; [by left|by specialize (Hlock _ _ Ht)|]. right. right. split; [done|]. cbn [HANDLES].
    intros fd a [[_ ->]|[_ Hf]]%lookup_insert_Some; [|by eapply M5]. cbn in F. destruct F as [-> _]. cbn [arrived ack] in *. lia.
Qed.

Lemma close_inv L ops s fd r s' : irq_inv L ops s -> irq_close fd s = Done (r, s') -> irq_inv L ops s'.
Proof.
  intros Inv. unfold irq_close, irq_handle, bind_result. intros E. apply bind_Done_inv in E as (r1 & s1 & E1 & E).
  unfold bind, get_state, ok_or in E1. injection E1 as <- <-. destruct (HANDLES s !! fd) as [h|] eqn:Hh; [|by injection E as <- <-].
  destruct h as [a irq| | |]; try by injection E as <- <-. destruct (BASE_IRQ_COUNT <? irq); [|by injection E as <- <-].
  apply bind_Done_inv in E as ([] & s2 & E2 & [= <- <-]). unfold in_idts, zoom in E2.
  destruct (set_reserved 0 (irq_to_vector irq) false (i_idts s)) as [[[] i2]|] eqn:R; [|done]. injection E2 as <-.
  apply (irq_inv_same L ops s); [done|]. apply only_idts_same. exists i2. split; [done|]. eapply set_reserved_ok; [|exact R].
  destruct (inv_handles _ _ _ Inv _ _ _ Hh). unfold irq_to_vector. lia.
Qed.

(** Steps that only touch the memory of the driver. *)
Definition with_umem (s : IrqState) (m : UserMem) : IrqState :=
  mkIrq (COUNTS s) (HANDLES s) (NEXT_FD s) (CPUS s) (i_chips s) (i_idts s) (i_es s) m.
Definition umem_only (s s' : IrqState) : Prop := exists m, s' = with_umem s m.
Lemma umem_only_refl s : umem_only s s.
Proof. exists (i_umem s). by destruct s. Qed.
Lemma umem_only_same s s' : umem_only s s' -> same_but_events s s'.
Proof. intros [m ->]. by split. Qed.
Lemma in_umem_run {A} (m : M UserMem A) s a s' : in_umem m s = Done (a, s') -> umem_only s s'.
Proof. unfold in_umem, zoom. destruct (m (i_umem s)) as [[x u]|]; [|done]. intros [= <- <-]. by exists u. Qed.

Lemma handle_run s fd h : HANDLES s !! fd = Some h -> irq_handle fd s = Done (Ok h, s).
Proof. intros H. unfold irq_handle, bind, get_state, ok_or. by rewrite H. Qed.
Lemma handle_inv s fd r s' : irq_handle fd s = Done (r, s') -> s' = s /\ r = match HANDLES s !! fd with Some h => Ok h | None => Err EBADF end.
Proof. unfold irq_handle, bind, get_state, ok_or. intros [= <- <-]. by destruct (HANDLES s !! fd). Qed.
Lemma count_run L ops s irq : irq_inv L ops s -> 0 <= irq < 224 -> irq_count irq s = Done (arrived L irq, s).
Proof. intros Inv Hi. unfold irq_count, bind, get_state. by rewrite (proj1 (inv_counts _ _ _ Inv irq Hi)). Qed.

Lemma kwrite_arg_inv fd buf s r s' : kwrite_arg fd buf s = Done (r, s') -> umem_only s s' /\
  forall irq v, r = Ok (irq, v) -> exists a, HANDLES s !! fd = Some (HIrq a irq).
Proof.
  unfold kwrite_arg, bind_result. intros (r1 & s1 & [-> ->]%handle_inv & E)%bind_Done_inv. pose proof (umem_only_refl s) as Refl.
  destruct (HANDLES s !! fd) as [[a irq| | |]|]; try (by injection E as <- <-). case_match; [by injection E as <- <-|].
  apply bind_Done_inv in E as (r2 & s2 & E2%in_umem_run & E). destruct r2; injection E as <- <-; (split; [done|]); [|done]. intros i v [= <- <-]. eauto.
Qed.
Lemma kread_count_inv L ops fd buf s r s' : irq_inv L ops s -> kread_count fd buf s = Done (r, s') -> umem_only s s' /\
  forall n, r = Ok (inl n) -> exists a irq, HANDLES s !! fd = Some (HIrq a irq) /\ n <= arrived L irq.
Proof.
  intros Inv. unfold kread_count, bind_result. intros (r1 & s1 & [-> ->]%handle_inv & E)%bind_Done_inv. pose proof (umem_only_refl s) as Refl.
  destruct (HANDLES s !! fd) as [[a irq| | |]|] eqn:Hh; try (by injection E as <- <-).
  - case_match; [by injection E as <- <-|]. destruct (inv_handles _ _ _ Inv _ _ _ Hh) as [Hi _].
    rewrite (bind_Done _ _ _ _ _ (count_run _ _ _ _ Inv Hi)) in E. injection E as <- <-. split; [done|]. intros n [= <-]. exists a, irq. split; [done|lia].
  - case_match; [by injection E as <- <-|]. apply bind_Done_inv in E as (r2 & s2 & E2%in_umem_run & E). by destruct r2; injection E as <- <-.
Qed.
Lemma kread_report_inv fd buf n s r s' : kread_report fd buf n s = Done (r, s') -> umem_only s s'.
Proof.
  unfold kread_report, bind_result. intros (r1 & s1 & [-> ->]%handle_inv & E)%bind_Done_inv. pose proof (umem_only_refl s) as Refl.
  destruct (HANDLES s !! fd) as [[a irq| | |]|]; cbn [as_irq_handle] in E; try (by injection E as <- <-). case_match; [|by injection E as <- <-].
  apply bind_Done_inv in E as (r2 & s2 & E2%in_umem_run & E). by destruct r2; injection E as <- <-.
Qed.

(** The number is stored. *)
Lemma store_inv L ops s t fd irq v : irq_inv L ops s -> ops !! t = Some (W_store fd irq v) ->
  irq_inv (ack fd v L) (<[t := W_unmask irq]> ops) (mkIrq (COUNTS s) (<[fd := HIrq v irq]> (HANDLES s)) (NEXT_FD s) (CPUS s) (i_chips s) (i_idts s) (i_es s) (i_umem s)).
Proof.
  intros [C H K Ln Q I O Mk] Ht. destruct (O _ _ Ht) as [[a Ha] Hv]. destruct (H _ _ _ Ha) as (Hi & _). constructor; try done; cbn [HANDLES acked ack arrived].
  - intros fd' a' irq' [[<- [= <- <-]]|[Hne Hf]]%lookup_insert_Some; [rewrite lookup_insert_eq; split_and!; done || lia|].
    rewrite lookup_insert_ne by done. by apply H.
  - assert (Hkeep : forall fd' i, (exists a', HANDLES s !! fd' = Some (HIrq a' i)) -> exists a', <[fd := HIrq v irq]> (HANDLES s) !! fd' = Some (HIrq a' i)).
    { intros fd' i [a' Ha']. destruct (decide (fd' = fd)) as [->|]; [rewrite lookup_insert_eq; exists v; congruence|rewrite lookup_insert_ne by done; eauto]. }
    intros t' o [[<- <-]|[_ Ho]]%lookup_insert_Some; [cbn; lia|]. specialize (O _ _ Ho).
    destruct o as [| | | | |fd' i w|fd' i w| | |fd' b n]; cbn [op_ok HANDLES arrived ack] in *; try done; [by apply Hkeep|by destruct O; split; [apply Hkeep|]|].
    destruct O as (a' & i & Ha' & Hn). destruct (Hkeep fd' i) as [a2 ?]; eauto.
  - intros l i Hm. destruct (Mk _ _ Hm) as (M1 & M2 & M3 & M4). split_and!; [done|done|lia|lia|]. destruct (decide (i = irq)) as [->|Hne].
    + right. left. exists t. by rewrite lookup_insert_eq.
    + assert (Hk : forall t' o, ops !! t' = Some o -> o <> W_store fd irq v -> <[t := W_unmask irq]> ops !! t' = Some o)
        by (intros t' o Ho Hno; rewrite lookup_insert_ne; [done|]; intros <-; rewrite Ht in Ho; congruence).
      destruct M4 as [[t' Ht']|[[t' Ht']|[M4 M5]]]; [left; exists t'; by apply Hk|right; left; exists t'; by apply Hk|]. right. right. split; [done|].
      cbn [HANDLES]. intros fd' a' [[_ [= _ ->]]|[_ Hf]]%lookup_insert_Some; [done|by eapply M5].
Qed.

Lemma op_step_inv L ops s t o o' s' : lapic_ok lapic -> irq_inv L ops s -> ops !! t = Some o -> in_range o L -> run_op o s = Done (o', s') ->
  irq_inv (note o s L) (partial_alter (fun _ => o') t ops) s'.
Proof.
  intros Lp Inv Ht Hb E. pose proof (inv_ops _ _ _ Inv _ _ Ht) as Hok. destruct o as [irq|irq lg|irq lg|irq lg|fd buf|fd irq v|fd irq v|irq|fd buf|fd buf n]; cbn [note op_ok in_range] in *.
  - destruct (mask_inv L ops s t irq Inv Ht Hok) as (s1 & E1 & I1). rewrite E in E1. by injection E1 as -> ->.
  - destruct (count_inv L ops s t irq lg Inv Ht Hok Hb) as (s1 & E1 & I1). rewrite E in E1. by injection E1 as -> ->.
  - destruct (notify_inv L ops s t irq lg Inv Ht Hok) as (s1 & E1 & I1). rewrite E in E1. by injection E1 as -> ->.
  - destruct (eoi_inv L ops s t irq lg Inv Lp Ht) as (s1 & E1 & I1). rewrite E in E1. by injection E1 as -> ->.
  - cbn [run_op] in E. apply bind_Done_inv in E as (r & s1 & [U Hr]%kwrite_arg_inv & [= <- <-]).
    apply (inv_goes_on L ops s s1 t (W_arg fd buf)); [done|by apply umem_only_same|done|done|]. intros x. destruct r as [[irq v]|]; [|done]. intros [= <-].
    eapply op_ok_same; [by apply (umem_only_same _ _ U)|]. cbn. by eapply Hr.
  - cbn [run_op] in E. unfold kwrite_current in E. destruct Hok as [a Ha]. destruct (inv_handles _ _ _ Inv _ _ _ Ha) as [Hi _].
    rewrite bind_assoc, (bind_Done _ _ _ _ _ (count_run _ _ _ _ Inv Hi)), bind_ret in E. injection E as <- <-.
    apply (inv_goes_on L ops s s t (W_match fd irq v)); [done|by apply umem_only_same, umem_only_refl|done|done|]. intros x.
    destruct (Z.eqb_spec v (arrived L irq)) as [->|]; [|done]. intros [= <-]. cbn. split; [by exists a|].
    destruct (inv_counts _ _ _ Inv _ Hi). lia.
  - cbn [run_op] in E. unfold kwrite_store, set_irq_handles in E. rewrite (bind_Done _ _ _ _ _ eq_refl) in E. injection E as <- <-. by apply store_inv.
  - destruct (unmask_inv L ops s t irq Inv Ht Hok) as (s1 & E1 & I1). rewrite E in E1. by injection E1 as -> ->.
  - cbn [run_op] in E. apply bind_Done_inv in E as (r & s1 & E1 & [= <- <-]). destruct (kread_count_inv _ _ _ _ _ _ _ Inv E1) as [U Hr].
    apply (inv_goes_on L ops s s1 t (R_count fd buf)); [done|by apply umem_only_same|done|done|]. intros x. destruct r as [[n|]|]; [|done..]. intros [= <-].
    eapply op_ok_same; [by apply (umem_only_same _ _ U)|]. cbn. by eapply Hr.
  - cbn [run_op] in E. apply bind_Done_inv in E as (r & s1 & U%kread_report_inv & [= <- <-]).
    by apply (inv_goes_on L ops s s1 t (R_report fd buf n)); [|apply umem_only_same| | |].
Qed.

Lemma start_inv L ops s t o : irq_inv L ops s -> ops !! t = None -> first_step o -> irq_inv L (<[t := o]> ops) s.
Proof.
  intros [C H K Ln Q I O Mk] Ht Ho. constructor; try done.
  - intros t' x [[<- <-]|[_ Hx]]%lookup_insert_Some; [|by eapply O]. destruct o; cbn in *; naive_solver.
  - intros l irq Hm. destruct (Mk _ _ Hm) as (M1 & M2 & M3 & M4). split_and!; [done|done|lia|lia|].
    eapply pending_ops; [done| | |exact M4]; intros t' Ht'; rewrite lookup_insert_ne; congruence.
Qed.

Lemma irq_run_inv L ops s : lapic_ok lapic -> irq_run L ops s -> irq_inv L ops s.
Proof.
  intros Lp. induction 1 as [s (C & H & K & Q & I)|L ops s L' ops' s' _ Inv St].
  - constructor; try done; cbn [arrived acked lines ledger0].
    + intros irq Hi. rewrite C. split; [|lia]. apply lookup_replicate. lia.
    + intros fd a irq. by rewrite H.
  - destruct St as [L ops s t o Ht Ho|L ops s t o o' s' Ht Hb E|L ops s path flags ctx r s' Hl E|L ops s fd r s' E].
    + by apply start_inv. + by eapply op_step_inv. + by eapply kopen_inv. + by eapply close_inv.
Qed.

(** *** Operations that are not interrupted *)

Lemma plain_handler_run L ops s irq : irq_inv L ops s -> lapic_ok lapic -> 0 <= irq < 16 -> arrived L irq + 1 < 2 ^ 64 ->
  exists s', plain_handler dbg x2 lapic irq s = Done (tt, s').
Proof.
  intros Inv Lp Hi Hb. destruct (mask_line_run dbg irq (i_chips s)) as (h & E1 & _); [apply Inv|lia|]. destruct (inv_counts _ _ _ Inv irq ltac:(lia)) as [Hc _].
  unfold plain_handler, trigger_line, irq_trigger. rewrite !bind_assoc, (bind_Done _ _ _ _ _ (in_chips_run _ _ _ _ E1)). set (s1 := with_chips _ _).
  rewrite !bind_assoc, (bind_Done _ _ _ _ _ (irq_add_run irq _ s1 ltac:(lia) Hc Hb)). set (s2 := with_counts _ _).
  destruct (irq_notify_run irq s2 (inv_queues _ _ _ Inv)) as (e & E2 & _). rewrite (bind_Done _ _ _ _ _ E2).
  destruct (eoi_run dbg x2 lapic irq (i_chips (with_es s2 e)) Lp) as (c & E3 & _). eexists. exact (in_chips_run _ _ _ _ E3).
Qed.
Lemma generic_irq_run L ops s code : irq_inv L ops s -> lapic_ok lapic -> -128 <= code < 96 -> arrived L (code + 128) + 1 < 2 ^ 64 ->
  exists s', generic_irq dbg x2 lapic code s = Done (tt, s').
Proof.
  intros Inv Lp Hi Hb. destruct (inv_counts _ _ _ Inv (code + 128) ltac:(lia)) as [Hc _]. unfold generic_irq, irq_trigger. rewrite Z.mod_small by lia.
  rewrite bind_assoc, (bind_Done _ _ _ _ _ (irq_add_run (code + 128) _ s ltac:(lia) Hc Hb)). set (s2 := with_counts _ _).
  destruct (irq_notify_run (code + 128) s2 (inv_queues _ _ _ Inv)) as (e & E2 & _). rewrite (bind_Done _ _ _ _ _ E2).
  destruct (lapic_eoi_run x2 lapic (hw (i_chips (with_es s2 e))) Lp) as (h & E3 & _). eexists. apply in_chips_run. by apply in_hw_run.
Qed.

Lemma kread_run L ops s fd a irq buf : irq_inv L ops s -> HANDLES s !! fd = Some (HIrq a irq) -> 8 <= us_len buf ->
  irq_kreadoff fd buf s = if a =? arrived L irq then Done (Ok 0, s)
    else match write_usize buf (arrived L irq) (i_umem s) with
         | Done (Ok tt, m) => Done (Ok 8, with_umem s m)
         | Done (Err e, m) => Done (Err e, with_umem s m)
         | Panic => Panic
         end.
Proof.
  intros Inv Hh Hl. unfold irq_kreadoff, kread_count, bind_result. rewrite bind_assoc, (bind_Done _ _ _ _ _ (handle_run _ _ _ Hh)).
  rewrite (proj2 (Z.ltb_ge (us_len buf) 8)) by done. destruct (inv_handles _ _ _ Inv _ _ _ Hh) as [Hi _].
  rewrite bind_assoc, (bind_Done _ _ _ _ _ (count_run _ _ _ _ Inv Hi)), (bind_Done _ _ _ _ _ eq_refl). unfold kread_report, bind_result.
  rewrite (bind_Done _ _ _ _ _ (handle_run _ _ _ Hh)). cbn [as_irq_handle]. destruct (a =? arrived L irq); [done|]. cbn [negb].
  unfold bind, in_umem, zoom. by destruct (write_usize _ _ _) as [[[[]|] m]|].
Qed.

Lemma kwrite_run L ops s fd a irq buf v m : irq_inv L ops s -> HANDLES s !! fd = Some (HIrq a irq) -> 8 <= us_len buf ->
  read_usize buf (i_umem s) = Done (Ok v, m) ->
  if v =? arrived L irq then exists h, irq_kwrite dbg fd buf s = Done (Ok 8, mkIrq (COUNTS s) (<[fd := HIrq v irq]> (HANDLES s)) (NEXT_FD s) (CPUS s)
      (with_hw (i_chips s) h) (i_idts s) (i_es s) m) /\ set_line (i_chips s) irq false h
  else irq_kwrite dbg fd buf s = Done (Ok 0, with_umem s m).
Proof.
  intros Inv Hh Hl R. destruct (inv_handles _ _ _ Inv _ _ _ Hh) as [Hi _]. unfold irq_kwrite, kwrite_arg, bind_result.
  rewrite !bind_assoc, (bind_Done _ _ _ _ _ (handle_run _ _ _ Hh)). rewrite (proj2 (Z.ltb_ge (us_len buf) 8)) by done.
  assert (in_umem (read_usize buf) s = Done (Ok v, with_umem s m)) as E0 by (unfold in_umem, zoom; by rewrite R).
  rewrite !bind_assoc, (bind_Done _ _ _ _ _ E0), (bind_Done _ _ _ _ _ eq_refl). unfold kwrite_current.
  pose proof (irq_inv_same L ops s _ Inv (umem_only_same s (with_umem s m) (ltac:(by exists m)))) as Inv1.
  rewrite !bind_assoc, (bind_Done _ _ _ _ _ (count_run _ _ _ _ Inv1 Hi)), (bind_Done _ _ _ _ _ eq_refl).
  destruct (v =? arrived L irq); cbn [negb]; [|done].
  destruct (acknowledge_run dbg irq (i_chips s)) as (h & E & S); [apply Inv|lia|]. exists h. split; [|done].
  unfold bind, kwrite_store, set_irq_handles, modify, in_chips, zoom. cbn [i_chips with_umem COUNTS HANDLES NEXT_FD CPUS i_idts i_es i_umem]. by rewrite E.
Qed.

(** What can be said of the line of [irq] while nothing that concerns it is under
    way. *)
Definition quiet (irq : Z) (ops : Ops) : Prop := forall t, ops !! t <> Some (H_count irq true) /\ ops !! t <> Some (W_unmask irq).
Definition handler (o : Op) : bool := match o with H_mask _ | H_count _ _ | H_notify _ _ | H_eoi _ _ => true | _ => false end.

End machine.

(** ** Runs *)

Module IrqExamples.
Import SimpleIrqHw RoutingExamples.
#[local] Instance config : BuildConfig := {| cfg_acpi := true; cfg_dtb := false |}.
#[local] Instance ev_params : EventParams := {| EV_READ := 1; EV_WRITE := 2; iter_watchers := map_to_list |}.
#[local] Instance ev_laws : EventLaws.
Proof. by constructor. Qed.
#[local] Instance file_flags : FileFlags := {|
  O_CLOEXEC := 0x1000000; O_NONBLOCK := 0x40000; O_APPEND := 0x80000; O_ACCMODE := 0x30000; O_CREAT := 0x2000000; O_FSYNC := 0x800000;
  O_EXLOCK := 0x200000; newfd_flags := fun _ => None |}.
#[local] Instance irq_params : IrqParams := {|
  O_STAT := 0x20000000; O_DIRECTORY := 0x10000000; MODE_CHR := 0x2000; MODE_DIR := 0x4000;
  stat_bytes := fun st => to_ne_bytes 8 (st_size st); Dirent := list DirEntry; dirent_new := fun _ _ => Some [];
  dirent_entry := fun e l => ok (l ++ [e]); dirent_finalize := fun l => Z.of_nat (length l); iter_handles := map_to_list |}.

Definition cur0 : Sched := mkSched ∅ 0 ∅ 0.
Definition events0 : EventState := mkES ∅ ∅ ∅ 1 cur0.
(** The boot processor has its vectors reserved; no other processor has started. *)
Definition idts0 : Idts := Eval vm_compute in match init_bsp (mkIdts Idt_new ∅) with Done (_, i) => i | Panic => mkIdts [] ∅ end.
Definition buf8 : UserSlice := mkUserSlice 0x1000 8.
Definition umem0 : UserMem := Eval vm_compute in mkUserMem (list_to_map (map (fun a => (a, 0)) (addrs 0x1000 16))) ∅.
Definition irq0 : IrqState := mkIrq (replicate 224 0) ∅ 1 (Some [0; 255]) routed_chips idts0 events0 umem0.
Definition root : CallerCtx := mkCaller 1 0 0.

Definition after {A} (m : M IrqState A) (s : IrqState) : IrqState := match m s with Done (_, s) => s | Panic => s end.
Definition answer {A} (m : M IrqState A) (s : IrqState) : option A := match m s with Done (a, _) => Some a | Panic => None end.

(** A driver opens interrupt 5, which then arrives twice. *)
Definition opened : IrqState := Eval vm_compute in after (irq_kopen "5" 0 root) irq0.
Definition arrived1 : IrqState := Eval vm_compute in after (plain_handler true true 0 5) opened.

Lemma irq_start0 : irq_start irq0.
Proof.
  split_and!.
  - reflexivity.
  - reflexivity.
  - split.
    + apply Forall_cons. split; [|constructor]. split_and!; [reflexivity|cbn; lia..].
    + intros o. change (src_overrides (i_chips irq0)) with (src_overrides routed_chips). cbn [src_overrides routed_chips SRC_OVERRIDES default].
      intros [->|[->|H%elem_of_nil]%elem_of_cons]%elem_of_cons; cbn; lia || done.
  - intros q Hq. change (q ∈ (∅ : gset Z)) in Hq. set_solver.
  - split; [reflexivity|]. intros cpu idt Hi. change ((∅ : gmap Z Idt) !! cpu = Some idt) in Hi. by rewrite lookup_empty in Hi.
Qed.

Lemma opens5 : irq_kopen "5" 0 root irq0 = Done (Ok (SchemeLocal 1 0), opened).
Proof. reflexivity. Qed.
Lemma arrives5 : plain_handler true true 0 5 opened = Done (tt, arrived1).
Proof. reflexivity. Qed.

Lemma lapic0 : lapic_ok 0.
Proof. intros p [= ->%Z.eqb_eq]. by split. Qed.
Abbreviation run0 := (irq_run true true 0).
Lemma run_begin L ops s t o : run0 L ops s -> ops !! t = None -> first_step o -> run0 L (<[t := o]> ops) s.
Proof. intros R H1 H2. eapply run_step; [exact R|by apply step_start]. Qed.
Lemma run_on L ops s t o o' s' : run0 L ops s -> ops !! t = Some o -> in_range o L -> run_op true true 0 o s = Done (o', s') ->
  run0 (note o s L) (partial_alter (fun _ => o') t ops) s'.
Proof. intros R H1 H2 H3. eapply run_step; [exact R|by eapply step_op]. Qed.

(** Running steps in a given order. *)
Inductive Act := Begin (t : Z) (o : Op) | Go (t : Z).
Definition exec1 (a : Act) (x : Ledger * gmap Z Op * IrqState) : option (Ledger * gmap Z Op * IrqState) :=
  let '(L, ops, s) := x in
  match a with
  | Begin t o =>
      if bool_decide (ops !! t = None) && (match o with H_mask irq => (0 <=? irq) && (irq <? 16) | W_arg _ _ | R_count _ _ => true | _ => false end)
      then Some (L, <[t := o]> ops, s) else None
  | Go t =>
      o ← ops !! t;
      if match o with H_count irq _ => arrived L irq + 1 <? 2 ^ 64 | _ => true end then
        match run_op true true 0 o s with Done (o', s') => Some (note o s L, partial_alter (fun _ => o') t ops, s') | Panic => None end
      else None
  end.
Fixpoint exec (l : list Act) (x : Ledger * gmap Z Op * IrqState) : option (Ledger * gmap Z Op * IrqState) :=
  match l with [] => Some x | a :: l => y ← exec1 a x; exec l y end.
Definition is_run (x : Ledger * gmap Z Op * IrqState) : Prop := run0 x.1.1 x.1.2 x.2.
Lemma exec1_run a x y : is_run x -> exec1 a x = Some y -> is_run y.
Proof.
  destruct x as [[L ops] s], a as [t o|t]; unfold is_run; cbn.
  - intros R. destruct (bool_decide (ops !! t = None)) eqn:Ht; [|done]. apply bool_decide_eq_true in Ht. cbn [andb].
    intros H. case_match eqn:Ho; [|done]. injection H as <-. apply run_begin; [done|done|]. destruct o; cbn in *; done || lia.
  - intros R H. apply bind_Some in H as (o & Ho & H). case_match eqn:Hr; [|done]. destruct (run_op _ _ _ _ _) as [[o' s']|] eqn:E; [|done]. injection H as <-.
    eapply run_on; [exact R|exact Ho| |exact E]. destruct o; cbn in *; done || lia.
Qed.
Lemma exec_run l : forall x y, is_run x -> exec l x = Some y -> is_run y.
Proof.
  induction l as [|a l IH]; intros x y R; cbn [exec]; [by intros [= <-]|]. intros (z & Hz & H)%bind_Some. eapply IH; [|exact H]. by eapply exec1_run.
Qed.

(** The run up to the first interrupt: all steps of its handler. *)
Definition L1 : Ledger := arrive 5 (mask_in (line_of (i_chips opened) 5) (Some 5) (ack 1 0 (ledger0 irq0))).
Lemma arrived_run : run0 L1 ∅ arrived1.
Proof.
  assert (R1 : run0 (ack 1 0 (ledger0 irq0)) ∅ opened).
  { eapply run_step; [exact (run_start true true 0 irq0 irq_start0)|].
    apply (step_open true true 0 (ledger0 irq0) ∅ irq0 "5" 0 root (Ok (SchemeLocal 1 0))); [by intros t o ?%lookup_empty_Some|exact opens5]. }
  eassert (R2 : run0 _ _ _) by (apply (run_begin _ _ _ 0 (H_mask 5) R1); [done|cbn; lia]).
  eassert (R3 : run0 _ _ _) by (eapply (run_on _ _ _ 0 (H_mask 5) _ _ R2); [by rewrite lookup_insert_eq|done|reflexivity]).
  eassert (R4 : run0 _ _ _) by (eapply (run_on _ _ _ 0 (H_count 5 true) _ _ R3); [by rewrite lookup_partial_alter_eq|cbn; lia|reflexivity]).
  eassert (R5 : run0 _ _ _) by (eapply (run_on _ _ _ 0 (H_notify 5 true) _ _ R4); [by rewrite lookup_partial_alter_eq|done|reflexivity]).
  eassert (R6 : run0 _ _ _) by (eapply (run_on _ _ _ 0 (H_eoi 5 true) _ _ R5); [by rewrite lookup_partial_alter_eq|done|reflexivity]).
  exact R6.
Qed.


(** The interrupt masked its line, and acknowledging it opens the line again. *)
Definition told : UserMem := match write_usize buf8 1 umem0 with Done (_, m) => m | Panic => umem0 end.
Example line5 : line_of routed_chips 5 = Some (ApicLine P 5) /\ line_masked (hw (i_chips opened)) (ApicLine P 5) = false /\
  line_masked (hw (i_chips arrived1)) (ApicLine P 5) = true.
Proof. split_and!; vm_compute; reflexivity. Qed.
Example acknowledged : answer (irq_kwrite true 1 buf8) (with_umem arrived1 told) = Some (Ok 8) /\
  line_masked (hw (i_chips (after (irq_kwrite true 1 buf8) (with_umem arrived1 told)))) (ApicLine P 5) = false.
Proof. split; vm_compute; reflexivity. Qed.

(** *** What one would not want *)

Definition race : list Act :=
  [Begin 1 (R_count 1 buf8); Go 1; Go 1; Begin 1 (W_arg 1 buf8); Go 1; Go 1; Begin 0 (H_mask 5); Go 0; Go 0; Go 0; Go 0; Go 1; Go 1].
Definition early : option (Ledger * gmap Z Op * IrqState) := exec race (L1, ∅, arrived1).
(** A driver reads and acknowledges the first interrupt; the second, which its CPU
    had accepted before the line was masked, is handled between
    the comparison of its number with the count and the unmasking: the line is open
    although the second interrupt has not been acknowledged. The driver is told of
    it all the same. *)
Theorem irq_unmasked_early : exists L s, run0 L ∅ s /\ arrived L 5 = 2 /\ HANDLES s !! 1 = Some (HIrq 1 5) /\
  line_of (i_chips s) 5 = Some (ApicLine P 5) /\ line_masked (hw (i_chips s)) (ApicLine P 5) = false /\ answer (irq_kreadoff 1 buf8) s = Some (Ok 8).
Proof.
  assert (H : match early with
              | Some (L, ops, s) => size ops = 0%nat /\ arrived L 5 = 2 /\ HANDLES s !! 1 = Some (HIrq 1 5) /\
                  line_of (i_chips s) 5 = Some (ApicLine P 5) /\ line_masked (hw (i_chips s)) (ApicLine P 5) = false /\ answer (irq_kreadoff 1 buf8) s = Some (Ok 8)
              | None => False
              end) by (vm_compute; split_and!; reflexivity).
  pose proof (exec_run race (L1, ∅, arrived1)) as R. fold early in R. destruct early as [[[L ops] s]|]; [|destruct H].
  specialize (R (L, ops, s) arrived_run eq_refl). exists L, s. destruct H as [->%map_size_empty_inv H]. split; [exact R|exact H].
Qed.

(** A vector stays reserved after its file is closed: [set_reserved] with [false]
    changes nothing. The handle stays too, and can still be used. *)
Definition reserved20 : IrqState := after (irq_kopen "cpu-00/20" 0x2000000 root) irq0.
Theorem close_keeps_vector : answer (irq_kopen "cpu-00/20" 0x2000000 root) irq0 = Some (Ok (SchemeLocal 1 0)) /\
  answer (irq_close 1) reserved20 = Some (Ok tt) /\
  answer (irq_kopen "cpu-00/20" 0x2000000 root) (after (irq_close 1) reserved20) = Some (Err EEXIST) /\
  answer (irq_kreadoff 1 buf8) (after (irq_close 1) reserved20) = Some (Ok 0).
Proof. split_and!; vm_compute; reflexivity. Qed.

(** A reserved vector can be opened again with [O_STAT], and this handle can
    acknowledge its interrupts. *)
Theorem stat_handle_acknowledges : answer (irq_kopen "cpu-00/20" 0x20000000 root) reserved20 = Some (Ok (SchemeLocal 2 0)) /\
  answer (irq_kwrite true 2 buf8) (after (irq_kopen "cpu-00/20" 0x20000000 root) reserved20) = Some (Ok 8).
Proof. split; vm_compute; reflexivity. Qed.

(** A path that ends after "cpu-", and a processor without an interrupt table,
    stop the kernel. *)
Theorem short_cpu_path_panics : answer (irq_kopen "cpu-1" 0x2000000 root) irq0 = None /\ answer (irq_kopen "cpu-05/20" 0x2000000 root) irq0 = None.
Proof. split; vm_compute; reflexivity. Qed.

(** Listing goes on at the position that the last entry names, but this is a
    vector, and positions count the vectors that are free: after the first entry,
    with vector 50, the next is 105, and 50 entries are never listed. *)
Definition free0 : list Z := match available_irqs_iter 0 idts0 with Done (l, _) => l | Panic => [] end.
Theorem listing_skips : head (listed 0 0 free0) = Some 50 /\ head (listed 0 (50 + 1) free0) = Some 105 /\
  length (List.filter (fun v => (50 <? v) && (v <? 105)) free0) = 50%nat.
Proof. split_and!; vm_compute; reflexivity. Qed.

(** Processor 255 cannot be listed: its successor does not fit. *)
Theorem listing_last_cpu_panics : answer (irq_getdents true 1 buf8 0 1) (after (irq_kopen "" 0x10000000 root) irq0) = None.
Proof. vm_compute. reflexivity. Qed.

(** Reading the number of the boot processor reports 8 bytes and writes 4. *)
Theorem bsp_read_overreports : let s := after (irq_kopen "bsp" 0 root) (with_umem irq0 (mkUserMem (list_to_map (map (fun a => (a, 9)) (addrs 0x1000 16))) ∅)) in
  answer (irq_kreadoff 1 buf8) s = Some (Ok 8) /\ um_bytes (i_umem (after (irq_kreadoff 1 buf8) s)) !! 0x1004 = Some 9.
Proof. split; vm_compute; reflexivity. Qed.
End IrqExamples.
